(* ===== verification/_CoqProject ===== *)
-Q . S2P
Prelude.v
Digraph.v
Host.v
JsValue.v
Numbers.v
NumberText.v
ArtifactTypes.v
Samples.v
ArtifactGraph.v
RepoModel.v
RepoEvents.v
Repository.v
RepoJson.v
RepoLog.v
RepoSound.v
RepoValid.v
RepoCommit.v
RepoTransactions.v
RepoOperations.v
RepoProperties.v
RepoQueries.v
RepoLock.v
RepoLockSafety.v
RepoLockRuns.v
RepoConcurrent.v
Text.v
PosixPath.v
Glob.v
PermissionRules.v
PermissionRuntime.v
PermissionSafety.v
PermissionSettings.v
CronSchedule.v
ProviderHealth.v
ProviderGate.v
RouterTypes.v
RouterSessions.v
RouterMedia.v
RouterPolicy.v
RouterRanker.v
RouterExecute.v
RouterRuns.v
RouterProperties.v
RouterDecide.v
RouterAffinity.v
MessagePairs.v
MessageProjector.v
ContextSnip.v
ContextMicro.v
ContextBudget.v
ContextCompaction.v
ContextRuntime.v
AgentAssembly.v
AgentRepair.v
AgentCaps.v
ToolNames.v
AgentTurn.v
AgentLaws.v
AgentTermination.v
AgentSamples.v
AgentProperties.v
AgentAccounting.v
Beliefs.v
ClaimGraph.v
DirectorTypes.v
DirectorValidation.v
DirectorPlan.v
DirectorDecision.v
DirectorBatches.v
DirectorInvariant.v
DirectorCascade.v
DirectorLinks.v
DirectorStages.v
DirectorSamples.v
DirectorProperties.v
DirectorBudget.v
DirectorReview.v
DirectorOutcomes.v
Eig.v
EigProperties.v
