(* ===== verification/Prelude.v ===== *)
(** * A verification library for the Rigorium core

    Rigorium is a research agent written in TypeScript.  This library models
    the parts of it that keep state or decide something on their own, and
    proves what makes them correct.  The code around them (front ends, HTTP
    clients, provider adapters, tools) is described under "Not modelled"
    below.

    ** The parts and how they interact

    Paths are under src/src/.  A definition carries the name of the function,
    method or type it translates.  A message of the user goes through the
    turn loop, which asks the router for a model and keeps the conversation
    within the model's limits; the permissions decide which tool calls run;
    the research parts keep artifacts, claims and plans.

    - Language.  [result] (below) is the exception monad: a call returns or
      throws a [js_error].  JsValue.v has the untyped JavaScript values that
      JSON.parse returns ([jsval]) and their canonical text; Numbers.v and
      NumberText.v the double arithmetic and Number(text); Text.v and
      PosixPath.v the string functions and the POSIX half of node:path.
      Host.v is the interface of what the core asks of its host: the SHA-256
      digest and the ISO rendering and parsing of dates.
    - Artifact envelopes (research/artifacts/types.ts, graph.ts):
      ArtifactTypes.v, and ArtifactGraph.v over the generic traversals of
      Digraph.v; Samples.v has the concrete envelopes of the witnesses.
    - Artifact repository (research/artifacts/repository.ts): RepoModel.v
      (records and validators), RepoEvents.v (replay and precise
      invalidation), Repository.v (load, append, invalidate, get, history,
      list on a file tree).  The proofs are layered: RepoJson.v (what is
      written is read back), RepoLog.v, RepoSound.v, RepoValid.v (the invariant
      of event logs and manifests), RepoCommit.v, RepoTransactions.v,
      RepoOperations.v, then the properties in RepoProperties.v and
      RepoQueries.v.
    - The repository's lock (the same file, withRepositoryLock and
      reclaimStaleRepositoryLock): RepoLock.v is a step relation of any number
      of concurrent calls, with process crashes and a clock; RepoLockSafety.v
      the invariant and its consequences; RepoLockRuns.v termination and the
      executions that break exclusion; RepoConcurrent.v runs the modelled
      append and invalidate transactions as the callbacks of that relation.
    - Permissions (permission/): PermissionRules.v and the compiled
      expressions of Glob.v (policy/matchPermissionRule.ts),
      PermissionRuntime.v (decision/PermissionRuntime.ts), PermissionSettings.v
      (settings.ts), with the guarantees in PermissionSafety.v.
    - Scheduling (cron/runtime/CronSchedule.ts): CronSchedule.v.
    - Request routing (router/).  RouterTypes.v has the messages, events,
      configuration and decisions (model/protocol, config/schema.ts,
      protocol/decision.ts).  The parts a turn is made of: ProviderHealth.v
      (the circuit breaker, health/ProviderHealthTracker.ts), ProviderGate.v
      (the concurrency gate, execution/providerConcurrency.ts),
      RouterSessions.v (session/ and policy/stickyGuard.ts), RouterMedia.v
      (modalities, attempt plans, placeholders, continuation requests and
      token counts), RouterPolicy.v (errors, delays, scenarios, tier upgrades,
      orchestration, prices, the cache-aware switch) and RouterRanker.v
      (tokenSaver/ and learning/).  RouterRuntime.ts puts them together:
      RouterDecide.v is [decide], [stream] and [invalidateSticky],
      RouterExecute.v is [execute] with execution/streamAttempt.ts.
      RouterRuns.v has the lemmas about executions, RouterProperties.v the
      theorems about one turn, RouterAffinity.v those about sequences of
      turns of a session.
    - Context (context/, and the helpers of agent/loop/recovery/):
      MessagePairs.v (which tool results answer which calls),
      MessageProjector.v (the request a provider accepts), ContextSnip.v
      (dropping the middle of a conversation), ContextMicro.v (shortening old
      results), ContextBudget.v (token estimates, budgets, recovery from
      overflow), ContextCompaction.v (the summary of a conversation) and
      ContextRuntime.v (DefaultContextRuntime.ts, which tries them in order).
    - Agent turn loop (agent/loop/AgentLoop.ts): AgentAssembly.v (a model's
      stream becomes a reply), ToolNames.v (the names in a reply are
      repaired), AgentRepair.v (results become messages, failures are
      fingerprinted, large files are repaired, results are cut to size),
      AgentCaps.v (token caps), AgentTurn.v (the loop).  AgentLaws.v is a
      program logic for the loop's monad, with classes for what a part may
      do; AgentTermination.v the measure of the loop; AgentProperties.v and
      AgentAccounting.v the properties, AgentSamples.v their witnesses.
    - Claims (research/claims/): Beliefs.v (beliefPropagation.ts) and
      ClaimGraph.v (ClaimGraph.ts); the evidence is read from the envelopes of
      ArtifactTypes.v.
    - Research director (research/director/): DirectorTypes.v (types.ts and
      records.ts), DirectorValidation.v (validation.ts), DirectorPlan.v and
      DirectorDecision.v (planner.ts); the proofs
      in DirectorBatches.v, DirectorInvariant.v, DirectorCascade.v,
      DirectorLinks.v, DirectorStages.v; the properties in
      DirectorProperties.v, DirectorBudget.v, DirectorReview.v and
      DirectorOutcomes.v; DirectorSamples.v has the request of the witnesses.
    - Information-gain planner (research/director/eig/): Eig.v and
      EigProperties.v.

    ** What the theorems show

    - Durability.  A persisted append is what the next load validates
      ([append_then_load], [append_retry], [append_checks_revision]); the
      claims file and the permission settings round-trip ([claims_durable],
      [settings_write_read]).  Nothing is lost: [append_keeps_history],
      [claims_never_lost], [queries_agree].
    - Staleness.  After an append no active artifact rests on an inactive one
      ([append_settles]); invalidation and supersession touch exactly the
      descendants ([invalidate_exact], [supersede_exact]); a graph is built
      exactly for consistent acyclic sets ([build_graph_spec]).
    - Concurrency.  Under young locks at most one call is in its callback
      ([lock_excludes]), the manifest is a fold of the successful calls
      ([callbacks_serialize]) and concurrent transactions lose nothing
      ([concurrent_calls_lose_nothing], a client of [callbacks_serialize]);
      every call ends ([calls_terminate]).  Exclusion fails in the ways
      [exhausted_call_runs_unlocked] and [racing_reclaims_both_enter] show.
      The gate counts its holders ([gate_counts_holders]).
    - Conversations.  Whatever the history, the message after a reply of a
      request answers all its calls and nothing else is lost
      ([request_faithful]); snipping, shortening and summarizing change
      exactly what they should ([snip_keeps], [micro_preserves],
      [compaction_sound]) and are only reported when they helped
      ([auto_compact_sound]).
    - Turns.  The loop ends ([loop_ends]); calls are run for whole answers
      only and each is answered once ([calls_answered]); the usage of every
      reply is billed once ([usage_billed]); the events come in their order
      ([events_in_order]) and prompts for the model alone do not survive a
      turn ([prompts_expire]).  [reply_assembled] and [levenshtein_least] are
      about the reply; [endless], [prompt_left_behind] and [calls_run_twice]
      are runs in which the loop does what it should not.
    - Planning.  What a plan schedules is authorized, complete, ordered,
      within budget and internally consistent; the batch loop ends; a plan
      passes the checks of the decision; the decision is that of the most
      urgent receipt and names exactly the runnable actions; the EIG batch is
      the greedy one.
    - Permission.  Deny rules win, plan mode restricts, bypass is denied only
      explicitly, allow rules are monotone, and the compiled glob accepts
      exactly the documented language ([wildcardToRegExp_spec], against a
      relational definition of the globs).
    - Time.  The next run is the first matching minute ([next_run_is_first]);
      the circuit breaker keeps its counters in bounds and decides after a
      back-off by failure ratio alone.
    - Routing.  A turn ends, follows its attempt plan and calls a model only
      while it holds a slot ([turn_follows_plan], [attempts_complete],
      [slots_given_back]); what the consumer receives is described exactly
      ([consumer_sees]).  A session's slot is private to it
      ([session_survives]) and its failure count moves once per turn
      ([failures_counted_once]); so the pin of a model that keeps failing is
      not reused ([failing_pin_released]) and a model that answers is kept
      ([answering_model_kept]).  An orchestration run is bounded as long as
      the slot lives and its tier is known ([orchestration_bounded]).  Tiers are raised only ([tier_prior_upgrades]),
      learned only from a clear lead in the log of outcomes
      ([learned_clear_best]) and not left for a dearer model
      ([no_switch_to_dearer]).  RouterProperties.v, RouterAffinity.v,
      RouterPolicy.v and RouterRanker.v also run the cases in which the router
      repeats, forgets or miscounts.
    - Belief.  Evidence is harvested exactly and moves confidence in its
      direction.

    ** Bounds and fuel

    Recursion that the code bounds by the data takes fuel that is proved
    enough, never assumed so: the depth-first search and the closures of
    Digraph.v take one more than the number of keys; the cascade of blocked
    actions and the batch loop one more than the number of actions
    ([ready_batches_total] is about the loop that the code has, whose error on
    a cycle is a value); the shortest decimal of a double tries 17 digits,
    which always suffice; the cron search visits MAX_SEARCH_MINUTES minutes,
    the bound in the code; stepped cron ranges take the length of the range; a
    lock call makes 120 attempts, hence at most 603 steps of its own.  The
    retry loop of a routed call takes the transient retries and the
    empty-response retries together, which [turn_follows_plan] proves enough.
    A turn of the agent has the measure 54 times its model turns and 23, which
    [loop_ends] proves enough; the loop that makes the identifiers of calls
    unique takes the number of identifiers in use.

    ** Modelling decisions

    - Code units of strings are below 256.  Paths are POSIX paths.
    - A file is absent, a directory, not regular, too large, not JSON, or the
      JSON value in it (the claims file may also be there and not readable), so JSON.parse after JSON.stringify is the identity on
      values; canonical JSON text, which is hashed, is modelled as text.
    - Dates are their time values; the clock is read once per call and random
      identifiers are arguments.
    - Diagnostics keep their code and message; path and operation, and the
      file path inside some messages, are left out.
    - Costs of the director are binary64 numbers; belief and information-gain
      scores are exact fractions, so their rounding is not modelled.
    - Inputs that the code receives untyped stay [jsval]; a mutable object
      that is passed around (the director's actions, the claims, the provider
      records) is a map entry that is stored back.
    - Lock: every awaited file operation is one step of a call; an operation
      may fail for reasons outside the model; a failed write leaves the file
      as it was; a crash ends every call of a process.
    - Gate: requests are numbered in order of arrival, a step is one turn of
      the event loop.
    - Router: what the model stream, the concurrency gate, the custom router
      and the judge answer is given by a world record, which also says what
      other sessions do to the shared state during every wait and whether the
      turn has been aborted by then.  The gate of ProviderGate.v is seen through its
      answers only.  The generator's yields, emitted events and waits are a
      list of actions.  Random delays, the tokenizer and the SHA-1 digest are
      classes; prices, scores and costs are exact fractions; the em dash of
      the placeholders is written as a hyphen.  Left out: telemetry, console
      output, the times and the file of the statistics, the request patch and
      the events of custom routers.
    - Context: the summarizer is a function from requests to the events it
      streams and the error it throws; hooks and emitted events, whose
      failures the code swallows, and the metadata of messages are left out.
    - Agent turn: each iteration of the loop has a world that answers for the
      model, the tools, the hooks, the compactions and the abort signal; the
      loop writes the acts it performs.  A message of the conversation is an
      entry with the identifier of the transient prompt it may be.  The parser
      of tool calls in text, the advice on errors and the limits of the
      catalog are classes.
    - Claims: a record is the parsed object, with the fields the code does not
      know; both reads of a load see the same file; the mutations of a file
      run one after the other, as the write lock has it, but instances keep
      their own memory.
    - Director: a plan that a decision is asked about is a typed record, so
      the checks of its schema version, its kind and its arrays always pass,
      and only its hash, its id, its fields and its references can be wrong.
    - Cron: the time zone database is a parameter (class [Zones]), with UTC as
      an instance.

    ** Not modelled

    - Of the modelled files: best-effort fsync of directories, Windows paths,
      and the directories a throwing call has already created.
    - Research design, method and direction, taste, audit, orchestrator,
      experiments, literature and manuscripts: workflows over payloads of the
      modelled envelopes, document rendering, HTTP clients and workers.
    - Of the agent: sessions, subagents and the runner of turns, which queue
      and forward what the loop yields; transcripts and their storage; prompt
      assembly and memory files.
    - Cron task storage and runtime, background tasks, file history, and the
      tools with their registry and execution: file, process and network I/O
      around the modelled decisions.
    - Of the router: the parser of its configuration, the statistics files and
      the ranker's JSON file.
    - Gateway, MCP, model providers, front ends: network, process and file I/O
      with little state of their own, or interfaces of third-party code.
    - The edgeclaw memory core is a vendored bundle. *)

From Stdlib Require Export ZArith Lia Ascii.
From stdpp Require Export base gmap strings list pretty sorting relations.

Set Default Goal Selector "!".

(** ** Thrown values and the exception monad *)

(** What a JavaScript [throw] carries: a [TypeError], a plain [Error], or an
    error class with a machine-readable [code] (the repository's and the
    director's diagnostics). *)
Inductive js_error :=
  | TypeError (msg : string)
  | PlainError (msg : string)
  | CodedError (code : string) (msg : string).

#[export] Instance js_error_eq_dec : EqDecision js_error.
Proof. solve_decision. Defined.

(** The outcome of a call: it returns or it throws. *)
Inductive result (A : Type) :=
  | Ok (a : A)
  | Throw (e : js_error).
Arguments Ok {_} _.
Arguments Throw {_} _.

#[export] Instance result_ret : MRet result := @Ok.
#[export] Instance result_bind : MBind result := λ A B f m,
  match m with Ok a => f a | Throw e => Throw e end.

(** [if (!b) throw e]. *)
Definition ensure (b : bool) (e : js_error) : result unit :=
  if b then Ok tt else Throw e.

(** A [for ... of] loop that threads a state and may throw. *)
Fixpoint foldM {S A} (f : S → A → result S) (s : S) (l : list A) : result S :=
  match l with
  | [] => Ok s
  | x :: l => s' ← f s x; foldM f s' l
  end.

Definition is_ok {A} (r : result A) : bool :=
  match r with Ok _ => true | Throw _ => false end.

Definition of_option {A} (e : js_error) (o : option A) : result A :=
  match o with Some a => Ok a | None => Throw e end.

(** ** Strings

    A JavaScript string is a sequence of UTF-16 code units; the model keeps
    the code units below 256, so [String.length] is JavaScript's [length]. *)

Fixpoint str_forallb (p : ascii → bool) (s : string) : bool :=
  match s with
  | EmptyString => true
  | String c s => p c && str_forallb p s
  end.

Definition code_unit (c : ascii) : N := N_of_ascii c.

Definition in_range (lo hi : N) (c : ascii) : bool :=
  (lo <=? code_unit c)%N && (code_unit c <=? hi)%N.

Definition is_digit (c : ascii) : bool := in_range 48 57 c.
Definition is_upper (c : ascii) : bool := in_range 65 90 c.
Definition is_lower (c : ascii) : bool := in_range 97 122 c.
Definition is_alnum (c : ascii) : bool := is_digit c || is_upper c || is_lower c.

(** The white space [String.prototype.trim] removes, among code units below 256. *)
Definition is_js_space (c : ascii) : bool :=
  in_range 9 13 c || (code_unit c =? 32)%N || (code_unit c =? 160)%N.

Fixpoint trim_start (s : string) : string :=
  match s with
  | EmptyString => EmptyString
  | String c s' => if is_js_space c then trim_start s' else s
  end.

Fixpoint trim_end (s : string) : string :=
  match s with
  | EmptyString => EmptyString
  | String c s' =>
      match trim_end s' with
      | EmptyString => if is_js_space c then EmptyString else String c EmptyString
      | t => String c t
      end
  end.

Definition js_trim (s : string) : string := trim_end (trim_start s).

(** [s.startsWith(p)] and [s.includes(p)]. *)
Definition starts_with (p s : string) : bool := String.prefix p s.

Fixpoint str_includes (p s : string) : bool :=
  String.prefix p s ||
  match s with
  | EmptyString => false
  | String _ s' => str_includes p s'
  end.

Fixpoint str_has_char (c : ascii) (s : string) : bool :=
  match s with
  | EmptyString => false
  | String d s => Ascii.eqb c d || str_has_char c s
  end.

(** [s.slice(from, to)] for [0 <= from <= to]. *)
Definition str_slice (from to : nat) (s : string) : string :=
  String.substring from (to - from) s.

(** [parts.join(sep)]. *)
Fixpoint str_join (sep : string) (l : list string) : string :=
  match l with
  | [] => ""
  | [x] => x
  | x :: l => x +:+ sep +:+ str_join sep l
  end.

Fixpoint str_repeat (n : nat) (s : string) : string :=
  match n with O => "" | S n => s +:+ str_repeat n s end.

(** [/^[A-Za-z0-9][A-Za-z0-9._:-]*$/] with at most [max] code units. *)
Definition is_identifier_char (c : ascii) : bool :=
  is_alnum c || (code_unit c =? 46)%N || (code_unit c =? 95)%N
  || (code_unit c =? 58)%N || (code_unit c =? 45)%N.

Definition is_safe_identifier (s : string) : bool :=
  match s with
  | EmptyString => false
  | String c s' => is_alnum c && str_forallb is_identifier_char s'
  end && (String.length s <=? 256)%nat.

(** [/^sha256:[a-f0-9]{64}$/]. *)
Definition is_hex (c : ascii) : bool := is_digit c || in_range 97 102 c.

Definition is_content_hash (s : string) : bool :=
  starts_with "sha256:" s &&
  (String.length s =? 71)%nat && str_forallb is_hex (str_slice 7 71 s).

(** ** Lists *)

Lemma omap_cons {A B} (f : A → option B) x l :
  omap f (x :: l) = match f x with Some y => y :: omap f l | None => omap f l end.
Proof. done. Qed.

Lemma elem_of_bfilter {A} (p : A → bool) x l : x ∈ List.filter p l ↔ x ∈ l ∧ p x = true.
Proof. by rewrite !list_elem_of_In, filter_In. Qed.

(** ** Stable sorting ([Array.prototype.sort] with a comparator) *)

Section Sort.
Context {A : Type} (cmp : A → A → comparison).

Definition cmp_le (x y : A) : bool :=
  match cmp x y with Gt => false | _ => true end.

Fixpoint sort_insert (x : A) (l : list A) : list A :=
  match l with
  | [] => [x]
  | y :: l' => if cmp_le x y then x :: l else y :: sort_insert x l'
  end.

Fixpoint js_sort (l : list A) : list A :=
  match l with
  | [] => []
  | x :: l => sort_insert x (js_sort l)
  end.
End Sort.

(** A comparator read through a key. *)
Definition cmp_on {A B} (f : A → B) (cmp : B → B → comparison) (x y : A) : comparison :=
  cmp (f x) (f y).

(** [left || right] of two comparator results. *)
Definition cmp_then (c d : comparison) : comparison :=
  match c with Eq => d | _ => c end.

(** The laws of a consistent comparator (ECMA-262, SortCompare). *)
Class Comparator {A} (cmp : A → A → comparison) : Prop := {
  cmp_refl x : cmp x x = Eq;
  cmp_opp x y : cmp y x = CompOpp (cmp x y);
  cmp_le_trans x y z : cmp x y ≠ Gt → cmp y z ≠ Gt → cmp x z ≠ Gt;
}.

(** ** Insertion-ordered maps (JavaScript's [Map] with string keys)

    [set] on a present key keeps its position, on a new key appends. *)

Abbreviation jmap V := (list (string * V)).

Section JMap.
Context {V : Type}.

Fixpoint jm_get (k : string) (m : jmap V) : option V :=
  match m with
  | [] => None
  | (k', v) :: m => if decide (k = k') then Some v else jm_get k m
  end.

Definition jm_has (k : string) (m : jmap V) : bool :=
  match jm_get k m with Some _ => true | None => false end.

Fixpoint jm_set (k : string) (v : V) (m : jmap V) : jmap V :=
  match m with
  | [] => [(k, v)]
  | (k', v') :: m =>
    if decide (k = k') then (k, v) :: m else (k', v') :: jm_set k v m
  end.

(** [map.delete(k)]. *)
Definition jm_delete (k : string) (m : jmap V) : jmap V := filter (λ kv, kv.1 ≠ k) m.

Definition jm_keys (m : jmap V) : list string := m.*1.
Definition jm_values (m : jmap V) : list V := m.*2.
End JMap.

(** [new Map(list.map((x) => [key(x), x]))]. *)
Definition jm_index {A} (key : A → string) (l : list A) : jmap A :=
  foldl (λ m x, jm_set (key x) x m) [] l.

(** [set.add(x)] on an insertion-ordered set. *)
Definition set_add (x : string) (s : list string) : list string :=
  if decide (x ∈ s) then s else s ++ [x].

(** [[...new Set(l)]]. *)
Definition dedup (l : list string) : list string := foldl (λ s x, set_add x s) [] l.

(** ** Lemmas: the exception monad *)

Lemma Ok_inj {A} (a b : A) : Ok a = Ok b → a = b.
Proof. congruence. Qed.

Lemma bind_Ok {A B} (m : result A) (f : A → result B) b :
  (m ≫= f) = Ok b ↔ ∃ a, m = Ok a ∧ f a = Ok b.
Proof.
  unfold mbind, result_bind. destruct m as [a|e]; split.
  - intros H. by exists a.
  - by intros (a' & [= ->] & H).
  - intros H. discriminate H.
  - intros (a' & H & _). discriminate H.
Qed.

Lemma bind_Throw {A B} (m : result A) (f : A → result B) e :
  (m ≫= f) = Throw e ↔ m = Throw e ∨ ∃ a, m = Ok a ∧ f a = Throw e.
Proof.
  unfold mbind, result_bind. destruct m as [a|e']; split.
  - intros H. right. by exists a.
  - intros [H | (a' & H' & H)]; [discriminate H|]. by injection H' as ->.
  - intros [= ->]. by left.
  - intros [[= ->] | (a' & H & _)]; [done | discriminate H].
Qed.

Lemma ensure_Ok b e u : ensure b e = Ok u ↔ b = true.
Proof. destruct b, u; simpl; naive_solver. Qed.

Lemma ensure_true e : ensure true e = Ok tt.
Proof. done. Qed.

Lemma of_option_Ok {A} e (o : option A) a : of_option e o = Ok a ↔ o = Some a.
Proof. destruct o; simpl; naive_solver. Qed.

Lemma mret_Ok {A} (a b : A) : (mret a : result A) = Ok b ↔ a = b.
Proof. unfold mret, result_ret. naive_solver. Qed.

(** Decomposes hypotheses of the form [(x ← m; k) = Ok r]. *)
Ltac inv_result :=
  repeat match goal with
  | H : Ok _ = Ok _ |- _ => apply Ok_inj in H; simplify_eq
  | H : Throw _ = Ok _ |- _ => discriminate H
  | H : Ok _ = Throw _ |- _ => discriminate H
  | H : (_ ≫= _) = Ok _ |- _ =>
      let a := fresh "r" in let Ha := fresh "Hr" in
      apply (proj1 (bind_Ok _ _ _)) in H as (a & Ha & H); cbn beta in H
  | H : mret ?a = Ok ?b |- _ => change (Ok a = Ok b) in H
  | H : ensure _ _ = Ok _ |- _ => apply (proj1 (ensure_Ok _ _ _)) in H
  | H : of_option _ _ = Ok _ |- _ => apply (proj1 (of_option_Ok _ _ _)) in H
  end.

Lemma mapM_Ok {A B} (f : A → result B) l k :
  mapM f l = Ok k ↔ Forall2 (λ x y, f x = Ok y) l k.
Proof.
  revert k; induction l as [|x l IH]; intros k; simpl.
  - split; [intros [= <-]; constructor | by inversion 1].
  - split.
    + intros H. inv_result. constructor; [done | by apply IH].
    + inversion 1 as [|?? ? l' Hx Hl]; subst. rewrite Hx; simpl.
      apply IH in Hl. by rewrite Hl.
Qed.

Lemma foldM_app {S A} (f : S → A → result S) s l1 l2 :
  foldM f s (l1 ++ l2) = (s' ← foldM f s l1; foldM f s' l2).
Proof.
  revert s; induction l1 as [|x l IH]; intros s; simpl; [done|].
  destruct (f s x); simpl; [apply IH | done].
Qed.

(** The invariant rule for a loop. *)
Lemma foldM_inv {S A} (P : S → Prop) (f : S → A → result S) l s s' :
  P s → (∀ s x s', x ∈ l → P s → f s x = Ok s' → P s') →
  foldM f s l = Ok s' → P s'.
Proof.
  revert s; induction l as [|x l IH]; intros s Hs Hstep; simpl.
  - by intros [= <-].
  - intros H. inv_result. eapply (IH r); [| |done].
    + eapply Hstep; [| done..]. by left.
    + intros ??? Hin. apply Hstep. by right.
Qed.

(** A loop whose every iteration succeeds under the invariant succeeds. *)
Lemma foldM_total {S A} (P : S → Prop) (f : S → A → result S) l s :
  P s → (∀ s x, x ∈ l → P s → ∃ s', f s x = Ok s' ∧ P s') →
  ∃ s', foldM f s l = Ok s' ∧ P s'.
Proof.
  revert s; induction l as [|x l IH]; intros s Hs Hstep; simpl; [eauto|].
  destruct (Hstep s x) as (s' & -> & Hs'); [by left|done|]. simpl.
  apply IH; [done|]. intros ?? Hin. apply Hstep. by right.
Qed.

(** ** Lemmas: sorting *)

Section SortLemmas.
Context {A : Type} (cmp : A → A → comparison).

Lemma sort_insert_perm x l : sort_insert cmp x l ≡ₚ x :: l.
Proof.
  induction l as [|y l IH]; simpl; [done|].
  destruct (cmp_le cmp x y); [done|]. rewrite IH. apply Permutation_swap.
Qed.

Lemma js_sort_perm l : js_sort cmp l ≡ₚ l.
Proof.
  induction l as [|x l IH]; simpl; [done|]. by rewrite sort_insert_perm, IH.
Qed.

Lemma elem_of_js_sort x l : x ∈ js_sort cmp l ↔ x ∈ l.
Proof. by rewrite js_sort_perm. Qed.

Lemma length_js_sort l : length (js_sort cmp l) = length l.
Proof. by rewrite js_sort_perm. Qed.

Lemma js_sort_nil_iff l : js_sort cmp l = [] ↔ l = [].
Proof.
  split; [|by intros ->]. intros H. apply Permutation_nil.
  by rewrite <- (js_sort_perm l), H.
Qed.

Context `{!Comparator cmp}.

Lemma cmp_le_spec x y : cmp_le cmp x y = true ↔ cmp x y ≠ Gt.
Proof. unfold cmp_le. by destruct (cmp x y). Qed.

Lemma cmp_le_total x y : cmp_le cmp x y = false → cmp y x ≠ Gt.
Proof. unfold cmp_le. rewrite (cmp_opp x y). by destruct (cmp x y). Qed.

Definition sorted_by : list A → Prop := StronglySorted (λ x y, cmp x y ≠ Gt).

Lemma sort_insert_sorted x l : sorted_by l → sorted_by (sort_insert cmp x l).
Proof.
  induction 1 as [|y l Hl IH Hy]; simpl.
  { repeat constructor. }
  destruct (cmp_le cmp x y) eqn:E.
  - apply cmp_le_spec in E. constructor; [by constructor|].
  constructor; [done|]. eapply Forall_impl; [done|].
  intros z. by apply cmp_le_trans.
  - constructor; [done|]. apply cmp_le_total in E.
  rewrite sort_insert_perm. by constructor.
Qed.

Lemma js_sort_sorted l : sorted_by (js_sort cmp l).
Proof. induction l; simpl; [constructor | by apply sort_insert_sorted]. Qed.

(** Sorting a sorted array changes nothing. *)
Lemma js_sort_id l : sorted_by l → js_sort cmp l = l.
Proof.
  induction 1 as [|x l Hl IH Hx]; simpl; [done|]. rewrite IH.
  destruct l as [|y l]; simpl; [done|]. inv Hx.
  by rewrite (proj2 (cmp_le_spec x y)).
Qed.

Lemma js_sort_idemp l : js_sort cmp (js_sort cmp l) = js_sort cmp l.
Proof. apply js_sort_id, js_sort_sorted. Qed.

(** When ties are only between equal elements the sorted array depends on
    the elements alone, not on the order they were met in. *)
Lemma js_sort_unique l1 l2 :
  (∀ x y, x ∈ l1 → y ∈ l1 → cmp x y = Eq → x = y) →
  l1 ≡ₚ l2 → js_sort cmp l1 = js_sort cmp l2.
Proof.
  intros Htie Hp.
  apply (StronglySorted_unique_strong (λ x y, cmp x y ≠ Gt));
  [| apply js_sort_sorted.. | by rewrite !js_sort_perm].
  intros x y Hx Hy Hxy Hyx. rewrite elem_of_js_sort in Hx, Hy.
  rewrite <- Hp in Hy. apply Htie; [done..|].
  rewrite (cmp_opp x y) in Hyx. by destruct (cmp x y).
Qed.
End SortLemmas.

Lemma js_sort_fmap {A B} (f : A → B) (cmp : B → B → comparison) l :
  js_sort cmp (f <$> l) = f <$> js_sort (cmp_on f cmp) l.
Proof.
  induction l as [|x l IH]; [done|]. rewrite fmap_cons. simpl. rewrite IH. clear IH.
  generalize (js_sort (cmp_on f cmp) l). clear l. intros l.
  induction l as [|y k IH]; csimpl; [done|].
  unfold cmp_le, cmp_on in *. destruct (cmp (f x) (f y)); csimpl; [done|done|].
  by rewrite IH.
Qed.

#[export] Instance cmp_on_comparator {A B} (f : A → B) cmp :
  Comparator cmp → Comparator (cmp_on f cmp).
Proof.
  intros Hc. unfold cmp_on. split; intros.
  - apply cmp_refl.
  - apply cmp_opp.
  - by eapply cmp_le_trans.
Qed.

(** ** Lemmas: insertion-ordered maps *)

Section JMapLemmas.
Context {V : Type}.
Implicit Types m : jmap V.

Lemma jm_get_set_eq k v m : jm_get k (jm_set k v m) = Some v.
Proof.
  induction m as [|[k' v'] m IH]; simpl.
  - by rewrite decide_True.
  - destruct (decide (k = k')); simpl.
  + by rewrite decide_True.
  + by rewrite decide_False.
Qed.

Lemma jm_get_set_ne k k' v m : k' ≠ k → jm_get k' (jm_set k v m) = jm_get k' m.
Proof.
  intros Hne. induction m as [|[k2 v2] m IH]; simpl.
  - by rewrite decide_False.
  - destruct (decide (k = k2)) as [<-|]; simpl.
  + by rewrite !decide_False.
  + by rewrite IH.
Qed.

Lemma jm_get_set k k' v m :
  jm_get k' (jm_set k v m) = if decide (k' = k) then Some v else jm_get k' m.
Proof.
  case_decide; subst; [apply jm_get_set_eq | by apply jm_get_set_ne].
Qed.

Lemma elem_of_jm_keys k m : k ∈ jm_keys m ↔ is_Some (jm_get k m).
Proof.
  unfold jm_keys. induction m as [|[k' v'] m IH]; simpl.
  - split; [by intros ?%elem_of_nil | by intros [? [=]]].
  - rewrite elem_of_cons, IH. destruct (decide (k = k')) as [->|Hne].
  + split; [eauto | by left].
  + split; [by intros [?|?] | by right].
Qed.

Lemma jm_get_None k m : jm_get k m = None ↔ k ∉ jm_keys m.
Proof. rewrite elem_of_jm_keys, <- eq_None_not_Some. done. Qed.

Lemma jm_keys_set_fresh k v m :
  jm_get k m = None → jm_set k v m = m ++ [(k, v)].
Proof.
  induction m as [|[k' v'] m IH]; simpl; [done|].
  destruct (decide (k = k')); [done|]. intros H. by rewrite IH.
Qed.

Lemma jm_keys_set_present k v m :
  is_Some (jm_get k m) → jm_keys (jm_set k v m) = jm_keys m.
Proof.
  unfold jm_keys. induction m as [|[k' v'] m IH]; simpl.
  - by intros [? [=]].
  - destruct (decide (k = k')); csimpl; subst; [done|]. intros H. f_equal. by apply IH.
Qed.

Lemma jm_keys_set_NoDup k v m :
  NoDup (jm_keys m) → NoDup (jm_keys (jm_set k v m)).
Proof.
  intros Hnd. destruct (jm_get k m) as [v'|] eqn:E.
  - rewrite jm_keys_set_present; eauto.
  - rewrite jm_keys_set_fresh by done. unfold jm_keys in *.
  rewrite fmap_app. apply NoDup_app. split; [done|].
  split; [|apply NoDup_singleton].
  apply jm_get_None in E. intros x Hx ->%list_elem_of_singleton. done.
Qed.

Lemma jm_get_elem k v m : jm_get k m = Some v → (k, v) ∈ m.
Proof.
  induction m as [|[k' v'] m IH]; simpl; [done|].
  case_decide; [intros [= ->]; subst; left | right; auto].
Qed.

Lemma jm_elem_get k v m : NoDup (jm_keys m) → (k, v) ∈ m → jm_get k m = Some v.
Proof.
  unfold jm_keys. induction m as [|[k' v'] m IH]; simpl; [by intros _ ?%elem_of_nil|].
  intros [Hk Hnd]%NoDup_cons [[= -> ->]|Hin]%elem_of_cons.
  - by rewrite decide_True.
  - rewrite decide_False; [auto|]. intros ->. apply Hk.
  apply list_elem_of_fmap. by exists (k', v).
Qed.

Lemma jm_get_delete k k' m :
  jm_get k' (jm_delete k m) = if decide (k' = k) then None else jm_get k' m.
Proof.
  unfold jm_delete. induction m as [|[k2 v] m IH]; [by case_decide|].
  rewrite filter_cons. cbn [fst]. destruct (decide (k2 ≠ k)) as [Hk|Hk%dec_stable].
  - cbn [jm_get]. rewrite IH. repeat case_decide; congruence.
  - rewrite IH. cbn [jm_get]. repeat case_decide; congruence.
Qed.

Lemma jm_delete_keys k m : jm_keys (jm_delete k m) = filter (λ x, x ≠ k) (jm_keys m).
Proof.
  unfold jm_delete, jm_keys. induction m as [|[k2 v] m IH]; [done|].
  rewrite filter_cons, fmap_cons, filter_cons. cbn [fst].
  case_decide; [by rewrite fmap_cons, IH | done].
Qed.

Lemma jm_delete_fresh k m : jm_get k m = None → jm_delete k m = m.
Proof.
  unfold jm_delete. induction m as [|[k2 v] m IH]; [done|]. cbn [jm_get].
  rewrite filter_cons. cbn [fst]. case_decide; [done|]. intros Hk.
  rewrite decide_True by congruence. by rewrite IH.
Qed.

Lemma jm_delete_length k m :
  NoDup (jm_keys m) → is_Some (jm_get k m) → S (length (jm_delete k m)) = length m.
Proof.
  unfold jm_delete. induction m as [|[k2 v] m IH]; [by intros _ [? [=]]|].
  intros [Hk2 Hnd]%NoDup_cons. rewrite filter_cons. cbn [fst jm_get length].
  destruct (decide (k2 ≠ k)) as [Hne|Heq%dec_stable]; intros Hk.
  - cbn [length]. f_equal. apply IH; [done|]. by rewrite decide_False in Hk.
  - subst k2. f_equal. f_equal. by apply (jm_delete_fresh k), jm_get_None.
Qed.
End JMapLemmas.

Lemma Forall_jm_set {V} (P : string * V → Prop) k v m :
  P (k, v) → Forall P m → Forall P (jm_set k v m).
Proof.
  intros Hkv. induction 1 as [|[k' v'] m Hp Hm IH]; simpl; [by repeat constructor|].
  destruct (decide (k = k')); by constructor.
Qed.

(** [map.set(key(x), f(x))] for every [x] of a list. *)
Lemma jm_get_fold {A B} (key : A → string) (f : A → B) l : ∀ m k,
  jm_get k (foldl (λ m x, jm_set (key x) (f x) m) m l) =
  match last (filter (λ x, key x = k) l) with
  | Some x => Some (f x)
  | None => jm_get k m
  end.
Proof.
  induction l as [|x l IH]; intros m k; [done|]. cbn [foldl].
  rewrite IH, filter_cons. case_decide as E.
  - rewrite last_cons. destruct (last _); [done|]. subst. apply jm_get_set_eq.
  - destruct (last _); [done|]. by rewrite jm_get_set_ne.
Qed.

Lemma last_filter_unique {A} (key : A → string) l x :
  NoDup (key <$> l) → x ∈ l → last (filter (λ y, key y = key x) l) = Some x.
Proof.
  intros Hnd Hin. destruct (last _) as [y|] eqn:E.
  - apply last_Some_elem_of, list_elem_of_filter in E as [Hk Hy]. f_equal.
    apply list_elem_of_lookup in Hin as [i Hi]. apply list_elem_of_lookup in Hy as [j Hj].
    assert (j = i) as ->; [|congruence].
    eapply NoDup_lookup; [exact Hnd|..]; rewrite list_lookup_fmap;
      [by rewrite Hj|rewrite Hi; simpl; by rewrite Hk].
  - apply last_None in E. exfalso. eapply (not_elem_of_nil x). rewrite <- E.
    by apply list_elem_of_filter.
Qed.

Lemma jm_get_fold_unique {A B} (key : A → string) (f : A → B) l m x :
  NoDup (key <$> l) → x ∈ l →
  jm_get (key x) (foldl (λ m x, jm_set (key x) (f x) m) m l) = Some (f x).
Proof. intros Hnd Hx. by rewrite jm_get_fold, last_filter_unique. Qed.

Lemma jm_get_index {A} (key : A → string) l k :
  jm_get k (jm_index key l) = last (filter (λ x, key x = k) l).
Proof. unfold jm_index. rewrite (jm_get_fold key id). by destruct (last _). Qed.

Lemma jm_index_Some {A} (key : A → string) l k x :
  jm_get k (jm_index key l) = Some x → x ∈ l ∧ key x = k.
Proof.
  rewrite jm_get_index. intros H%last_Some_elem_of.
  apply list_elem_of_filter in H as [? ?]. done.
Qed.

Lemma jm_index_is_Some {A} (key : A → string) l k :
  is_Some (jm_get k (jm_index key l)) ↔ k ∈ key <$> l.
Proof.
  rewrite jm_get_index, list_elem_of_fmap. split.
  - intros [x H]. apply last_Some_elem_of, list_elem_of_filter in H as [<- ?]. eauto.
  - intros (x & -> & Hin).
    destruct (last _) eqn:E; [eauto|]. apply last_None in E.
    exfalso. eapply (not_elem_of_nil x). rewrite <- E.
    by apply list_elem_of_filter.
Qed.

Lemma jm_index_keys_NoDup {A} (key : A → string) l : NoDup (jm_keys (jm_index key l)).
Proof.
  unfold jm_index. assert (NoDup (jm_keys ([] : jmap A))) as Hnd by constructor.
  revert Hnd. generalize ([] : jmap A). induction l as [|x l IH]; intros m Hm; [done|].
  cbn [foldl]. by apply IH, jm_keys_set_NoDup.
Qed.

Lemma jm_index_append {A} (key : A → string) l : ∀ m,
  NoDup (jm_keys m ++ (key <$> l)) →
  foldl (λ m x, jm_set (key x) x m) m l = m ++ ((λ x, (key x, x)) <$> l).
Proof.
  induction l as [|x l IH]; intros m Hnd; csimpl; [by rewrite app_nil_r|].
  assert (jm_get (key x) m = None) as Hx.
  { apply jm_get_None. rewrite fmap_cons in Hnd. apply NoDup_app in Hnd as (_ & Hd & _).
    intros Hin. apply (Hd _ Hin). by left. }
  rewrite jm_keys_set_fresh by done. rewrite IH; [by rewrite <- app_assoc|].
  unfold jm_keys in *. rewrite fmap_app, <- app_assoc. done.
Qed.

(** Without repeated keys the map lists the values in order. *)
Lemma jm_index_distinct {A} (key : A → string) l :
  NoDup (key <$> l) → jm_index key l = (λ x, (key x, x)) <$> l.
Proof. intros Hnd. unfold jm_index. by rewrite jm_index_append. Qed.

Lemma jm_values_index {A} (key : A → string) l :
  NoDup (key <$> l) → jm_values (jm_index key l) = l.
Proof.
  intros Hnd. rewrite jm_index_distinct by done. unfold jm_values.
  rewrite <- list_fmap_compose. apply list_fmap_id.
Qed.

(** With distinct keys, the entry of [key x] is [x]. *)
Lemma jm_index_NoDup {A} (key : A → string) l x :
  NoDup (key <$> l) → x ∈ l → jm_get (key x) (jm_index key l) = Some x.
Proof. apply (jm_get_fold_unique key id). Qed.

(** ** Lemmas: insertion-ordered sets *)

Lemma elem_of_set_add x y s : y ∈ set_add x s ↔ y = x ∨ y ∈ s.
Proof. unfold set_add. case_decide; set_solver. Qed.

Lemma set_add_NoDup x s : NoDup s → NoDup (set_add x s).
Proof.
  unfold set_add. case_decide; [done|]. intros Hs. apply NoDup_app.
  split; [done|]. split; [set_solver | apply NoDup_singleton].
Qed.

Lemma elem_of_dedup x l : x ∈ dedup l ↔ x ∈ l.
Proof.
  unfold dedup.
  assert (∀ s, x ∈ foldl (λ s x, set_add x s) s l ↔ x ∈ s ∨ x ∈ l) as H.
  { induction l as [|y l IH]; intros s; simpl; [set_solver|].
    rewrite IH, elem_of_set_add. set_solver. }
  rewrite H. set_solver.
Qed.

Lemma dedup_NoDup l : NoDup (dedup l).
Proof.
  unfold dedup.
  assert (∀ s, NoDup s → NoDup (foldl (λ s x, set_add x s) s l)) as H.
  { induction l as [|y l IH]; intros s Hs; simpl; [done|].
    by apply IH, set_add_NoDup. }
  apply H. constructor.
Qed.

(** ** Lemmas: strings *)

Lemma append_cons c s t : String c s +:+ t = String c (s +:+ t).
Proof. reflexivity. Qed.

Lemma append_nil_l t : "" +:+ t = t.
Proof. reflexivity. Qed.

Lemma substring_all s : String.substring 0 (String.length s) s = s.
Proof. induction s as [|c s IH]; simpl; [done|]. by rewrite IH. Qed.

Lemma is_content_hash_intro d :
  String.length d = 64 → str_forallb is_hex d = true →
  is_content_hash ("sha256:" +:+ d) = true.
Proof.
  intros Hl Hd. unfold is_content_hash, starts_with, str_slice.
  change (String.substring 7 (71 - 7) ("sha256:" +:+ d)) with (String.substring 0 64 d).
  assert (String.substring 0 64 d = d) as ->.
  { rewrite <- Hl. apply substring_all. }
  rewrite Hd, andb_true_r.
  change (String.length ("sha256:" +:+ d)) with (7 + String.length d).
  rewrite Hl. by destruct d.
Qed.

Lemma length_append s t : String.length (s +:+ t) = String.length s + String.length t.
Proof. induction s as [|c s IH]; [done|]. rewrite !append_cons. cbn. by rewrite IH. Qed.

Lemma str_forallb_append p s t :
  str_forallb p (s +:+ t) = str_forallb p s && str_forallb p t.
Proof.
  induction s as [|c s IH]; [done|]. rewrite append_cons. cbn.
  by rewrite IH, andb_assoc.
Qed.

Lemma append_assoc (s t u : string) : (s +:+ t) +:+ u = s +:+ t +:+ u.
Proof. induction s as [|c s IH]; [done|]. rewrite !append_cons. cbn. by rewrite IH. Qed.

(** Text before the first occurrence of a separator is determined. *)
Lemma append_sep_inj (c : ascii) s t u v :
  str_has_char c s = false → str_has_char c t = false →
  s +:+ String c u = t +:+ String c v → s = t ∧ u = v.
Proof.
  revert t; induction s as [|d s IH]; intros [|e t];
    rewrite ?append_cons, ?append_nil_l; cbn; intros Hs Ht Heq.
  - by injection Heq.
  - injection Heq as <- _. by rewrite Ascii.eqb_refl in Ht.
  - injection Heq as -> _. by rewrite Ascii.eqb_refl in Hs.
  - injection Heq as <- Heq. apply orb_false_iff in Hs as [_ Hs].
    apply orb_false_iff in Ht as [_ Ht].
    destruct (IH t) as [-> ->]; done.
Qed.

(** ** Lemmas: nested loops *)

Lemma foldM_fmap {S A B} (f : S → B → result S) (g : A → B) s l :
  foldM f s (g <$> l) = foldM (λ s x, f s (g x)) s l.
Proof.
  revert s; induction l as [|x l IH]; intros s; [done|]. csimpl.
  destruct (f s (g x)); simpl; [apply IH | done].
Qed.

Lemma foldM_nested {S A B} (f : S → B → result S) (g : A → list B) s l :
  foldM (λ s x, foldM f s (g x)) s l = foldM f s (concat (g <$> l)).
Proof.
  revert s; induction l as [|x l IH]; intros s; [done|]. csimpl.
  rewrite foldM_app. destruct (foldM f s (g x)); simpl; [apply IH | done].
Qed.

Lemma foldM_ext {S A} (f g : S → A → result S) s l :
  (∀ s x, f s x = g s x) → foldM f s l = foldM g s l.
Proof.
  intros Hfg. revert s; induction l as [|x l IH]; intros s; [done|]. simpl.
  rewrite Hfg. destruct (g s x); simpl; [apply IH | done].
Qed.

(** ** Lemmas: text *)

Lemma no_space_trim s :
  str_forallb (λ c, negb (is_js_space c)) s = true → js_trim s = s.
Proof.
  unfold js_trim. intros Hs.
  assert (trim_start s = s) as ->.
  { destruct s as [|c s]; [done|]. simpl in *. by destruct (is_js_space c). }
  induction s as [|c s IH]; [done|]. simpl in *.
  apply andb_true_iff in Hs as [Hc Hs]. rewrite IH by done.
  destruct s; [|done]. by destruct (is_js_space c).
Qed.

(** ** Lemmas: decimal text *)

Lemma pretty_N_char_digit x : is_digit (pretty_N_char x) = true.
Proof. unfold pretty_N_char. by repeat case_match. Qed.

Lemma pretty_N_go_digits x : ∀ s,
  str_forallb is_digit s = true → str_forallb is_digit (pretty_N_go x s) = true.
Proof.
  induction (N.lt_wf_0 x) as [x _ IH]; intros s Hs.
  assert (x = 0 ∨ 0 < x)%N as [->|Hx] by lia; [by rewrite pretty_N_go_0|].
  rewrite pretty_N_go_step by done. apply IH; [by apply N.div_lt|].
  simpl. by rewrite pretty_N_char_digit.
Qed.

Lemma pretty_N_go_length k : ∀ x s,
  (x < 10 ^ N.of_nat k)%N → String.length (pretty_N_go x s) ≤ k + String.length s.
Proof.
  induction k as [|k IH]; intros x s Hx.
  - assert (x = 0%N) as -> by (simpl in Hx; lia). by rewrite pretty_N_go_0.
  - assert (x = 0 ∨ 0 < x)%N as [->|H0] by lia; [rewrite pretty_N_go_0; lia|].
    rewrite pretty_N_go_step by done. etrans; [apply IH|simpl; lia].
    rewrite Nat2N.inj_succ, N.pow_succ_r' in Hx. by apply N.Div0.div_lt_upper_bound.
Qed.

(** The text of a positive integer below [10^k] is at most [k] digits. *)
Lemma pretty_pos_digits (z : Z) (k : nat) :
  (0 < z)%Z → (z < 10 ^ Z.of_nat k)%Z →
  str_forallb is_digit (pretty z) = true ∧ String.length (pretty z) ≤ k.
Proof.
  intros Hz Hk. destruct z as [|p|p]; [lia| |lia].
  change (pretty (Zpos p)) with (pretty_N_go (Npos p) "").
  split; [by apply pretty_N_go_digits|].
  etrans; [apply (pretty_N_go_length k)|simpl; lia].
  assert (10 ^ N.of_nat k = Z.to_N (10 ^ Z.of_nat k))%N as ->; [|lia].
  rewrite Z2N.inj_pow by lia. by rewrite <- nat_N_Z, N2Z.id.
Qed.

Lemma str_forallb_weaken (p q : ascii → bool) s :
  (∀ c, p c = true → q c = true) → str_forallb p s = true → str_forallb q s = true.
Proof.
  intros Hpq. induction s as [|c s IH]; simpl; [done|].
  intros [Hc Hs]%andb_true_iff. by rewrite Hpq, IH.
Qed.

Lemma str_forallb_substring p s : ∀ n m,
  str_forallb p s = true → str_forallb p (String.substring n m s) = true.
Proof.
  induction s as [|c s IH]; intros n m Hs; [by destruct n, m|].
  simpl in Hs. apply andb_true_iff in Hs as [Hc Hs].
  destruct n as [|n]; simpl; [|by apply IH].
  destruct m as [|m]; simpl; [done|]. by rewrite Hc, IH.
Qed.

Lemma length_substring s : ∀ n m, String.length (String.substring n m s) ≤ m.
Proof.
  induction s as [|c s IH]; intros [|n] [|m]; simpl; try lia; [specialize (IH 0 m)|
    specialize (IH n 0)|specialize (IH n (S m))]; lia.
Qed.

Lemma append_cancel_l s t u : s +:+ t = s +:+ u → t = u.
Proof.
  induction s as [|c s IH]; rewrite ?append_nil_l, ?append_cons; [done|].
  intros [= Heq]. by apply IH.
Qed.

Lemma append_inj_length s1 s2 t1 t2 :
  String.length t1 = String.length t2 → s1 +:+ t1 = s2 +:+ t2 → s1 = s2 ∧ t1 = t2.
Proof.
  intros Hl. revert s2; induction s1 as [|c s1 IH]; intros [|d s2];
    rewrite ?append_cons, ?append_nil_l; [done|..].
  - intros ->. cbn in Hl. rewrite length_append in Hl. lia.
  - intros <-. cbn in Hl. rewrite length_append in Hl. lia.
  - intros [= -> Heq]. by destruct (IH _ Heq) as [-> ->].
Qed.
