(* ===== verification/Digraph.v ===== *)
(** * Work-list traversals of a finite directed graph

    The two traversals the sources write by hand in several places: the
    breadth-first closure with an index walking a growing queue
    (src/src/research/artifacts/graph.ts, repository.ts) and the
    depth-first cycle check with [visiting] and [visited] sets (graph.ts,
    src/src/research/director/validation.ts).  The components instantiate
    them with their own child maps; the theorems of this file relate them to
    reachability in the child relation. *)

From S2P Require Import Prelude.

Section Digraph.
Context {K : Type} `{Countable K}.
Variable children : K → list K.

Implicit Types (x y : K) (queue : list K) (seen visiting visited : gset K).

Definition edge (x y : K) : Prop := y ∈ children x.

(** One pass over the children of the key at the queue's head: children
    not yet seen are marked and pushed; [on_edge] is what the loop body
    does for every child, seen or not. *)
Definition scan_children {S} (on_edge : K → S → S) (cs : list K)
  (st : gset K * list K * S) : gset K * list K * S :=
  foldl (λ '(seen, pushed, s) c,
  if decide (c ∈ seen) then (seen, pushed, on_edge c s)
  else ({[c]} ∪ seen, pushed ++ [c], on_edge c s)) st cs.

(** [for (let i = 0; i < queue.length; i += 1) ...] with the processed
    prefix of the queue dropped. *)
Fixpoint bfs {S} (on_edge : K → S → S) (fuel : nat) queue seen (s : S) :
  gset K * S :=
  match fuel, queue with
  | Datatypes.S fuel, x :: rest =>
    let '(seen', pushed, s') := scan_children on_edge (children x) (seen, [], s) in
    bfs on_edge fuel (rest ++ pushed) seen' s'
  | _, _ => (seen, s)
  end.

(** [visit] of the recursive cycle check.  [visited] is threaded, the key
    is removed from [visiting] when its call returns. *)
Fixpoint dfs_visit (cycle : K → js_error) (fuel : nat) visiting visited x :
  result (gset K) :=
  match fuel with
  | O => Throw (PlainError "stack")
  | Datatypes.S fuel =>
    if decide (x ∈ visiting) then Throw (cycle x)
    else if decide (x ∈ visited) then Ok visited
    else
      vd ← foldM (λ vd c, dfs_visit cycle fuel ({[x]} ∪ visiting) vd c)
             visited (children x);
      mret ({[x]} ∪ vd)
  end.

Definition assert_acyclic (cycle : K → js_error) (fuel : nat) (keys : list K) :
  result (gset K) :=
  foldM (λ vd x, dfs_visit cycle fuel ∅ vd x) ∅ keys.

(** ** The breadth-first closure *)

(** The children in the order the loop body meets them. *)
Definition bfs_trace (fuel : nat) queue seen : list K :=
  (bfs (λ c t, t ++ [c]) fuel queue seen []).2.

(** The keys the closure from [roots] reaches by at least one edge. *)
Definition below (roots : list K) y : Prop := ∃ r, r ∈ roots ∧ tc edge r y.

Lemma scan_children_spec {S} (on_edge : K → S → S) cs seen pushed s :
  ∃ fresh,
  scan_children on_edge cs (seen, pushed, s) =
    (list_to_set fresh ∪ seen, pushed ++ fresh, foldl (λ s c, on_edge c s) s cs)
  ∧ NoDup fresh
  ∧ (∀ c, c ∈ fresh ↔ c ∈ cs ∧ c ∉ seen)
  ∧ ∀ S' (on_edge' : K → S' → S') s',
      scan_children on_edge' cs (seen, pushed, s') =
      (list_to_set fresh ∪ seen, pushed ++ fresh, foldl (λ s c, on_edge' c s) s' cs).
Proof.
  revert seen pushed s. induction cs as [|c cs IH]; intros seen pushed s.
  { exists []. assert (list_to_set [] ∪ seen = seen) as E by set_solver.
  rewrite app_nil_r, E. split_and!; [done|constructor|set_solver|done]. }
  simpl. destruct (decide (c ∈ seen)) as [Hc|Hc].
  - destruct (IH seen pushed (on_edge c s)) as (fresh & -> & Hnd & Hf & Hany).
  exists fresh. split_and!; [done|done| |intros; apply Hany].
  intros z. rewrite elem_of_cons, Hf. clear -Hc. naive_solver.
  - destruct (IH ({[c]} ∪ seen) (pushed ++ [c]) (on_edge c s))
    as (fresh & -> & Hnd & Hf & Hany).
  assert (list_to_set fresh ∪ ({[c]} ∪ seen) =
          list_to_set (c :: fresh) ∪ seen) as E by set_solver.
  exists (c :: fresh). rewrite E. rewrite <- app_assoc. split_and!.
  + done.
  + constructor; [rewrite Hf; set_solver | done].
  + intros z. rewrite !elem_of_cons, Hf. clear -Hc.
    destruct (decide (z = c)); set_solver.
  + intros. rewrite Hany, E, <- app_assoc. done.
Qed.

(** The traversal does not depend on what the body records, and the record
    is the body run over the trace. *)
Lemma bfs_trace_spec {S} (on_edge : K → S → S) fuel :
  ∀ queue seen s t,
  bfs on_edge fuel queue seen (foldl (λ s c, on_edge c s) s t) =
  ((bfs (λ c t, t ++ [c]) fuel queue seen t).1,
  foldl (λ s c, on_edge c s) s (bfs (λ c t, t ++ [c]) fuel queue seen t).2).
Proof.
  induction fuel as [|fuel IH]; intros queue seen s t; [done|].
  destruct queue as [|x rest]; [done|]. simpl.
  destruct (scan_children_spec (λ c t, t ++ [c]) (children x) seen [] t)
  as (fresh & -> & _ & _ & Hany). rewrite Hany.
  rewrite <- IH. f_equal. clear.
  revert t; induction (children x) as [|c cs IH]; intros t; simpl; [done|].
  rewrite <- IH, foldl_app. done.
Qed.

Lemma bfs_state {S} (on_edge : K → S → S) fuel queue seen s :
  bfs on_edge fuel queue seen s =
  ((bfs (λ c t, t ++ [c]) fuel queue seen []).1,
  foldl (λ s c, on_edge c s) s (bfs_trace fuel queue seen)).
Proof. apply (bfs_trace_spec on_edge fuel queue seen s []). Qed.

Definition bfs_inv (roots : list K) (seen0 : gset K) queue seen (t : list K) : Prop :=
  (∀ x, x ∈ seen ∪ list_to_set roots → x ∈ queue ∨ ∀ y, edge x y → y ∈ t) ∧
  (∀ y, y ∈ t → y ∈ seen ∧ below roots y) ∧
  (∀ x, x ∈ seen → x ∈ seen0 ∨ x ∈ t) ∧
  (∀ x, x ∈ queue → x ∈ roots ∨ below roots x) ∧
  seen0 ⊆ seen.

Lemma foldl_snoc (t cs : list K) : foldl (λ t c, t ++ [c]) t cs = t ++ cs.
Proof.
  revert t; induction cs as [|c cs IH]; intros t; simpl; [by rewrite app_nil_r|].
  by rewrite IH, <- app_assoc.
Qed.

Lemma bfs_inv_step roots seen0 x rest seen t fresh :
  (∀ c, c ∈ fresh ↔ c ∈ children x ∧ c ∉ seen) →
  bfs_inv roots seen0 (x :: rest) seen t →
  bfs_inv roots seen0 (rest ++ fresh) (list_to_set fresh ∪ seen) (t ++ children x).
Proof.
  intros Hf (Hexp & Ht & Hseen & Hq & Hsub).
  assert (∀ c, c ∈ children x → c ∈ list_to_set fresh ∪ seen) as Hch.
  { intros c Hc. destruct (decide (c ∈ seen)) as [|Hs]; [set_solver|].
  apply elem_of_union_l, elem_of_list_to_set, Hf. done. }
  assert (∀ c, c ∈ children x → below roots c) as Hbelow.
  { intros c Hc. destruct (Hq x) as [Hr | (r & Hr & Hp)]; [by left|..].
  - exists x. split; [done|]. by apply tc_once.
  - exists r. split; [done|]. by eapply tc_r. }
  split_and!.
  - intros y Hy. destruct (decide (y = x)) as [->|Hne].
  { right. intros z Hz. apply elem_of_app. by right. }
  destruct (decide (y ∈ fresh)); [left; set_solver|].
  destruct (Hexp y) as [Hin | Hcl]; [set_solver|left; set_solver|].
  right. intros z Hz. apply elem_of_app. auto.
  - intros y [Hy|Hy]%elem_of_app; [|auto]. destruct (Ht y Hy). set_solver.
  - intros y. rewrite elem_of_union, elem_of_list_to_set, elem_of_app.
  intros [Hy|Hy]; [apply Hf in Hy as [? _]; auto|].
  destruct (Hseen y Hy); auto.
  - intros y [Hy|Hy]%elem_of_app; [apply Hq; by right|].
  apply Hf in Hy as [? _]. auto.
  - set_solver.
Qed.

(** The number of iterations is bounded by the keys still to be pushed. *)
Lemma bfs_fuel_inv (univ : gset K) roots seen0 fuel :
  (∀ x y, edge x y → y ∈ univ) →
  ∀ queue seen t,
  bfs_inv roots seen0 queue seen t →
  length queue + size (univ ∖ seen) ≤ fuel →
  let r := bfs (λ c t, t ++ [c]) fuel queue seen t in
  bfs_inv roots seen0 [] r.1 r.2.
Proof.
  intros Huniv. induction fuel as [|fuel IH]; intros queue seen t Hinv Hfuel.
  { destruct queue; simpl in *; [done|lia]. }
  destruct queue as [|x rest]; [done|]. simpl.
  destruct (scan_children_spec (λ c t, t ++ [c]) (children x) seen [] t)
  as (fresh & -> & Hnd & Hf & _). rewrite foldl_snoc. simpl.
  apply IH; [by apply bfs_inv_step|].
  assert (size (univ ∖ seen) = length fresh + size (univ ∖ (list_to_set fresh ∪ seen)))
  as Hsize.
  { rewrite <- (size_list_to_set (C := gset K) fresh) by done.
  rewrite <- size_union by set_solver. f_equal.
  apply set_eq. intros z. rewrite !elem_of_union, !elem_of_difference,
    !elem_of_union, !elem_of_list_to_set.
  destruct (decide (z ∈ fresh)) as [Hz|]; [|tauto].
  destruct (proj1 (Hf z) Hz) as [Hc Hs]. pose proof (Huniv x z Hc). tauto. }
  rewrite length_app. simpl in Hfuel. lia.
Qed.

Lemma bfs_inv_done roots seen0 seen t :
  seen0 ⊆ list_to_set roots →
  bfs_inv roots seen0 [] seen t →
  ∀ y, y ∈ t ↔ below roots y.
Proof.
  intros Hs (Hexp & Ht & _ & _ & Hsub) y. split; [apply Ht|].
  intros (r & Hr & Hp).
  assert (∀ x, x ∈ seen ∪ list_to_set roots → ∀ z, edge x z → z ∈ t) as Hcl.
  { intros x Hx z Hz. destruct (Hexp x Hx) as [?%elem_of_nil|]; [done|auto]. }
  assert (r ∈ seen ∪ list_to_set roots) as Hr' by set_solver. clear Hr.
  induction Hp as [r z Hz | r z y Hz _ IH]; [by eapply Hcl|].
  apply IH. apply elem_of_union_l. apply Ht. by eapply Hcl.
Qed.

Section Closure.
Context (univ : gset K) (fuel : nat) (roots : list K) (seen0 : gset K).
Hypothesis Huniv : ∀ x y, edge x y → y ∈ univ.
Hypothesis Hseen0 : seen0 ⊆ list_to_set roots.
Hypothesis Hfuel : length roots + size univ ≤ fuel.

Lemma bfs_final :
  let r := bfs (λ c t, t ++ [c]) fuel roots seen0 [] in
  bfs_inv roots seen0 [] r.1 r.2.
Proof.
  apply bfs_fuel_inv with (univ := univ); [done|..].
  - split_and!; set_solver.
  - assert (size (univ ∖ seen0) ≤ size univ); [|lia].
  apply subseteq_size. set_solver.
Qed.

(** The loop body runs for exactly the keys below the roots. *)
Lemma elem_of_bfs_trace y : y ∈ bfs_trace fuel roots seen0 ↔ below roots y.
Proof. eapply bfs_inv_done; [exact Hseen0 | apply bfs_final]. Qed.

(** The closure computes the keys below its roots, together with the
    keys it was told to treat as seen. *)
Lemma elem_of_bfs {S} (on_edge : K → S → S) s y :
  y ∈ (bfs on_edge fuel roots seen0 s).1 ↔ y ∈ seen0 ∨ below roots y.
Proof.
  rewrite bfs_state. simpl. rewrite <- elem_of_bfs_trace. unfold bfs_trace.
  destruct bfs_final as (_ & Ht & Hseen & _ & Hsub). split; [apply Hseen|].
  intros [Hy|Hy]; [by apply Hsub | by apply Ht].
Qed.
End Closure.

(** ** The depth-first cycle check *)

Definition child_of (y x : K) : Prop := edge x y.

(** [visited] holds keys from which no infinite descent exists. *)
Definition dfs_done visited : Prop := ∀ x, x ∈ visited → Acc child_of x.

Section Dfs.
Context (cycle : K → js_error).

Lemma dfs_visit_sound fuel : ∀ visiting visited x vd,
  dfs_done visited →
  dfs_visit cycle fuel visiting visited x = Ok vd →
  dfs_done vd ∧ visited ⊆ vd ∧ x ∈ vd.
Proof.
  induction fuel as [|fuel IH]; intros visiting visited x vd Hdone; simpl; [done|].
  case_decide; [done|]. case_decide as Hv.
  { intros [= <-]. done. }
  intros Hrun. inv_result. rename r into vd, Hr into Hloop.
  assert (∀ cs vd0, dfs_done vd0 →
  foldM (λ vd c, dfs_visit cycle fuel ({[x]} ∪ visiting) vd c) vd0 cs = Ok vd →
  dfs_done vd ∧ vd0 ⊆ vd ∧ ∀ c, c ∈ cs → c ∈ vd) as Hall.
  { clear Hloop Hdone. induction cs as [|c cs IHcs]; intros vd0 Hdone Hcs; simpl in Hcs.
  - inv_result. split_and!; [done|done|]. intros c ?%elem_of_nil. done.
  - inv_result. apply IH in Hr as (Hd & Hsub & Hc); [|done].
  apply IHcs in Hcs as (Hd' & Hsub' & Hcs); [|done].
  split_and!; [done|set_solver|]. intros c' [->|]%elem_of_cons; auto. }
  apply Hall in Hloop as (Hd & Hsub & Hch); [|done].
  split_and!; [|set_solver|set_solver].
  intros y [->%elem_of_singleton|Hy]%elem_of_union; [|auto].
  constructor. intros z Hz. apply Hd, Hch, Hz.
Qed.

(** An accepted graph has no infinite descent from the checked keys. *)
Lemma assert_acyclic_sound fuel keys vd :
  assert_acyclic cycle fuel keys = Ok vd →
  ∀ x, x ∈ keys → Acc child_of x.
Proof.
  unfold assert_acyclic.
  assert (∀ vd0, dfs_done vd0 → foldM (λ vd x, dfs_visit cycle fuel ∅ vd x) vd0 keys = Ok vd →
  dfs_done vd ∧ ∀ x, x ∈ vd0 ∨ x ∈ keys → x ∈ vd) as Hgen.
  { induction keys as [|k keys IH]; intros vd0 Hdone Hrun; simpl in Hrun.
  - inv_result. set_solver.
  - inv_result. apply dfs_visit_sound in Hr as (Hd & Hsub & Hk); [|done].
  apply IH in Hrun as [Hd' Hin]; [|done].
  split; [done|]. intros x. rewrite elem_of_cons. intros [?|[->|?]]; apply Hin; auto. }
  intros Hrun x Hx. destruct (Hgen ∅) as [Hd Hin]; [by intros ? ?%elem_of_empty|done|].
  apply Hd, Hin. by right.
Qed.

Lemma Acc_no_cycle x : Acc child_of x → ¬ tc edge x x.
Proof.
  induction 1 as [x _ IH]. intros Hc.
  assert (∃ y, edge x y ∧ tc edge y y) as (y & Hxy & Hyy).
  { inversion Hc as [? ? Hxx | ? y ? Hxy Hyx]; subst.
  - exists x. split; [done|]. by apply tc_once.
  - exists y. split; [done|]. eapply tc_r; [done|done]. }
  by apply (IH y).
Qed.

(** The only exceptions are a cycle through the reported key, given that
    the keys on the stack all lead to the key being visited. *)
Lemma dfs_visit_complete (univ : gset K) fuel : 
  (∀ x y, edge x y → y ∈ univ) →
  ∀ visiting visited x e,
  x ∈ univ →
  (∀ v, v ∈ visiting → tc edge v x) →
  visiting ⊆ univ →
  size (univ ∖ visiting) < fuel →
  dfs_visit cycle fuel visiting visited x = Throw e →
  ∃ z, e = cycle z ∧ tc edge z z.
Proof.
  intros Huniv. induction fuel as [|fuel IH]; intros visiting visited x e Hx Hvis Hsub Hfuel;
  [lia|]. simpl.
  case_decide as Hcyc.
  { intros [= <-]. eauto. }
  case_decide; [done|]. intros Hrun.
  apply bind_Throw in Hrun as [Hrun | (? & _ & [=])].
  assert (∀ cs vd0, (∀ c, c ∈ cs → edge x c) →
  foldM (λ vd c, dfs_visit cycle fuel ({[x]} ∪ visiting) vd c) vd0 cs = Throw e →
  ∃ z, e = cycle z ∧ tc edge z z) as Hall; [|by eapply Hall].
  clear Hrun. induction cs as [|c cs IHcs]; intros vd0 Hcs Hrun; simpl in Hrun; [done|].
  apply bind_Throw in Hrun as [Hrun | (vd1 & _ & Hrun)].
  - eapply IH; [..|exact Hrun].
  + eapply Huniv, Hcs. by left.
  + intros v [->%elem_of_singleton|Hv]%elem_of_union.
  * apply tc_once, Hcs. by left.
  * eapply tc_r; [by apply Hvis|]. apply Hcs. by left.
  + set_solver.
  + assert (size (univ ∖ visiting) = S (size (univ ∖ ({[x]} ∪ visiting)))); [|lia].
  replace (univ ∖ visiting) with ({[x]} ∪ (univ ∖ ({[x]} ∪ visiting))).
  * rewrite size_union by set_solver. by rewrite size_singleton.
  * apply set_eq. intros z. destruct (decide (z = x)); set_solver.
  - eapply IHcs; [|exact Hrun]. intros ? ?. apply Hcs. by right.
Qed.

(** The check fails only on a cyclic graph. *)
Lemma assert_acyclic_complete (univ : gset K) fuel keys e :
  (∀ x y, edge x y → y ∈ univ) →
  (∀ x, x ∈ keys → x ∈ univ) →
  size univ < fuel →
  assert_acyclic cycle fuel keys = Throw e →
  ∃ z, e = cycle z ∧ tc edge z z.
Proof.
  intros Huniv Hkeys Hfuel. unfold assert_acyclic. generalize (∅ : gset K) at 2.
  induction keys as [|k keys IH]; intros vd Hrun; simpl in Hrun; [done|].
  apply bind_Throw in Hrun as [Hrun | (vd1 & _ & Hrun)].
  - eapply dfs_visit_complete; [done|..|exact Hrun].
  + apply Hkeys. by left.
  + by intros v ?%elem_of_empty.
  + set_solver.
  + by rewrite difference_empty_L.
  - eapply IH; [|exact Hrun]. intros x Hx. apply Hkeys. by right.
Qed.
End Dfs.

(** A graph with finitely many edge targets has a cycle or no infinite
    descent: the check itself decides it. *)
Lemma acyclic_or_cycle (univ : gset K) :
  (∀ x y, edge x y → y ∈ univ) →
  (∀ x, Acc child_of x) ∨ ∃ z, tc edge z z.
Proof.
  intros Huniv.
  destruct (assert_acyclic (λ _, TypeError "cycle") (S (size univ)) (elements univ))
    as [vd|e] eqn:Hrun.
  - left. intros x. constructor. intros y Hy.
    eapply assert_acyclic_sound; [exact Hrun|]. by apply elem_of_elements, (Huniv x).
  - right. eapply (assert_acyclic_complete _ univ) in Hrun as (z & _ & Hz);
      [eauto|done|by intros x ?%elem_of_elements|lia].
Qed.
End Digraph.

(** ** The work-list closure with a stack

    [while (stack.length > 0) { const x = stack.pop(); if (visited.has(x))
    continue; visited.add(x); for (const c of children(x)) stack.push(c); }],
    the top of the stack first. *)

Section StackClosure.
Context {K : Type} `{EqDecision K}.
Variable children : K → list K.

Fixpoint stack_closure (fuel : nat) (stack visited : list K) : list K :=
  match fuel, stack with
  | S fuel, x :: rest =>
      if decide (x ∈ visited) then stack_closure fuel rest visited
      else stack_closure fuel (reverse (children x) ++ rest) (visited ++ [x])
  | _, _ => visited
  end.

Definition child (x y : K) : Prop := y ∈ children x.

Definition closure_inv (root : K) (stack visited : list K) : Prop :=
  NoDup visited ∧
  (∀ x y, x ∈ visited → child x y → y ∈ visited ∨ y ∈ stack) ∧
  (root ∈ visited ∨ root ∈ stack) ∧
  (∀ y, y ∈ visited ∨ y ∈ stack → rtc child root y).

Lemma closure_inv_skip root x rest visited :
  x ∈ visited → closure_inv root (x :: rest) visited → closure_inv root rest visited.
Proof.
  intros Hx (Hnd & Hcl & Hroot & Hre). split_and!; [done|..].
  - intros a b Ha Hab. destruct (Hcl a b Ha Hab) as [?|[->|?]%elem_of_cons]; auto.
  - destruct Hroot as [?|[->|?]%elem_of_cons]; auto.
  - intros y [Hy|Hy]; apply Hre; [by left|right; by right].
Qed.

Lemma closure_inv_visit root x rest visited :
  x ∉ visited → closure_inv root (x :: rest) visited →
  closure_inv root (reverse (children x) ++ rest) (visited ++ [x]).
Proof.
  intros Hx (Hnd & Hcl & Hroot & Hre).
  assert (rtc child root x) as Hrx by (apply Hre; right; by left).
  split_and!.
  - apply NoDup_app. split; [done|]. split; [|apply NoDup_singleton].
    by intros y Hy ->%list_elem_of_singleton.
  - intros a b. rewrite !elem_of_app, elem_of_reverse, !list_elem_of_singleton.
    intros [Ha| ->] Hab; [|by right; left].
    destruct (Hcl a b Ha Hab) as [?|[->|?]%elem_of_cons]; auto.
  - rewrite !elem_of_app, list_elem_of_singleton.
    destruct Hroot as [?|[->|?]%elem_of_cons]; auto.
  - intros y. rewrite !elem_of_app, elem_of_reverse, list_elem_of_singleton.
    intros [[Hy| ->]|[Hy|Hy]]; [apply Hre; by left|done| |apply Hre; right; by right].
    by eapply rtc_r.
Qed.

(** The pushes still to come. *)
Definition pending (univ visited : list K) : nat :=
  sum_list_with (λ x, if decide (x ∈ visited) then 0 else length (children x)) univ.

Lemma pending_visit univ visited x :
  NoDup univ → x ∉ visited → (children x ≠ [] → x ∈ univ) →
  pending univ (visited ++ [x]) + length (children x) = pending univ visited.
Proof.
  intros Hnd Hx Hu. unfold pending.
  induction Hnd as [|y univ Hy Hnd IH]; simpl.
  - destruct (children x) as [|c cs]; [done|]. by destruct (not_elem_of_nil x); apply Hu.
  - destruct (decide (y = x)) as [->|Hyx].
    + rewrite (decide_True (P := x ∈ visited ++ [x])) by (apply elem_of_app; right; by left).
      rewrite decide_False by done. clear IH Hu.
      assert (sum_list_with (λ x0, if decide (x0 ∈ visited ++ [x]) then 0
        else length (children x0)) univ = sum_list_with (λ x0, if decide (x0 ∈ visited) then 0
        else length (children x0)) univ) as ->; [|lia].
      induction univ as [|z univ IHu]; simpl; [done|].
      apply not_elem_of_cons in Hy as [Hz Hy]. inv Hnd.
      rewrite IHu by done. f_equal.
      destruct (decide (z ∈ visited ++ [x])) as [Hd|Hd], (decide (z ∈ visited)) as [He|He];
        rewrite elem_of_app, list_elem_of_singleton in Hd; naive_solver.
    + rewrite <- IH.
      2:{ intros Hc. destruct (proj1 (elem_of_cons _ _ _) (Hu Hc)); [by subst|done]. }
      destruct (decide (y ∈ visited ++ [x])) as [Hd|Hd], (decide (y ∈ visited)) as [He|He];
        rewrite elem_of_app, list_elem_of_singleton in Hd; first [lia|naive_solver].
Qed.

Lemma stack_closure_inv univ root fuel : ∀ stack visited,
  NoDup univ → (∀ x, children x ≠ [] → x ∈ univ) →
  closure_inv root stack visited → length stack + pending univ visited ≤ fuel →
  closure_inv root [] (stack_closure fuel stack visited).
Proof.
  induction fuel as [|fuel IH]; intros stack visited Hnd Hu Hinv Hf.
  { destruct stack; simpl in *; [done|lia]. }
  destruct stack as [|x rest]; [done|]. simpl in *.
  destruct (decide (x ∈ visited)) as [Hx|Hx].
  - apply IH; [done..| |lia]. by eapply closure_inv_skip.
  - apply IH; [done..| |]; [by apply closure_inv_visit|].
    rewrite length_app, length_reverse.
    pose proof (pending_visit univ visited x Hnd Hx (Hu x)). lia.
Qed.

(** The closure visits exactly the keys reachable from the root, once each. *)
Lemma stack_closure_spec univ root fuel :
  NoDup univ → (∀ x, children x ≠ [] → x ∈ univ) → 1 + pending univ [] ≤ fuel →
  NoDup (stack_closure fuel [root] []) ∧
  ∀ y, y ∈ stack_closure fuel [root] [] ↔ rtc child root y.
Proof.
  intros Hnd Hu Hf.
  destruct (stack_closure_inv univ root fuel [root] []) as (Hn & Hcl & Hroot & Hre);
    [done..| |done|].
  { split_and!; [constructor|by intros ?? ?%elem_of_nil|right; by left|].
    by intros y [?%elem_of_nil| ->%list_elem_of_singleton]. }
  split; [done|]. intros y. split; [intros Hy; apply Hre; by left|].
  destruct Hroot as [Hroot|?%elem_of_nil]; [|done].
  intros Hr. revert Hcl Hroot. generalize (stack_closure fuel [root] []).
  clear -Hr. intros vis Hcl Hroot. induction Hr as [|a b c Hab _ IH]; [done|].
  apply IH. by destruct (Hcl a b Hroot Hab) as [?|?%elem_of_nil].
Qed.
End StackClosure.
