(* ===== verification/Host.v ===== *)
(** * What the core asks of its host

    The functions the sources call and do not define: the ICU collation
    behind [String.prototype.localeCompare(_, "en")], [createHash("sha256")]
    of node:crypto, and the host's clock text functions [Date.parse] and
    [Date.prototype.toISOString] (ECMA-262 leaves the set of strings
    [Date.parse] accepts to the implementation).  [Host] packs them,
    [HostLaws] states the documented behaviour the theorems use, and
    [refHost] is a small concrete host for the evaluated examples. *)

From S2P Require Import Prelude.

(** ** The interface *)

Class Host := {
  (** [left.localeCompare(right, "en")], as the sign of the returned number. *)
  localeCompare : string → string → comparison;
  (** [createHash("sha256").update(text, "utf8").digest("hex")]. *)
  sha256_hex : string → string;
  (** [Date.parse(text)]; [None] is [NaN]. *)
  date_parse : string → option Z;
  (** [new Date(t).toISOString()] for a time value [t]. *)
  to_iso_string : Z → string;
}.

(** Time values are integers of at most 8.64e15 milliseconds in magnitude. *)
Definition is_time_value (t : Z) : bool := (Z.abs t <=? 8640000000000000)%Z.

Class HostLaws (H : Host) : Prop := {
  (** Collation is a consistent comparator. *)
  localeCompare_comparator :: Comparator localeCompare;
  (** A SHA-256 digest is 64 lower-case hexadecimal digits. *)
  sha256_hex_length s : String.length (sha256_hex s) = 64;
  sha256_hex_digits s : str_forallb is_hex (sha256_hex s) = true;
  (** Time values that parse are in range, and [toISOString] reads back. *)
  date_parse_range s t : date_parse s = Some t → is_time_value t = true;
  date_parse_iso t : is_time_value t = true → date_parse (to_iso_string t) = Some t;
}.

(** [compareText] of graph.ts, repository.ts and director/validation.ts. *)
Definition compareText `{Host} (left right : string) : comparison :=
  localeCompare left right.

(** ** A concrete host for evaluation *)

Module RefHost.
Definition hex_digit (n : N) : ascii :=
  ascii_of_N (if (n <? 10)%N then 48 + n else 87 + n).

Fixpoint hex_digits (k : nat) (n : N) : string :=
  match k with
  | O => EmptyString
  | S k => String (hex_digit (n mod 16)) (hex_digits k (n / 16))
  end.

Fixpoint rolling (s : string) (h : N) : N :=
  match s with
  | EmptyString => h
  | String c s => rolling s (h + code_unit c)%N
  end.

Definition digest (s : string) : string := hex_digits 64 (rolling s 7).

Fixpoint bits_of (p : positive) : string :=
  match p with
  | xH => "1"
  | xO p => String "0" (bits_of p)
  | xI p => String "1" (bits_of p)
  end.

Fixpoint of_bits (s : string) : option positive :=
  match s with
  | EmptyString => None
  | String c s' =>
    match s' with
    | EmptyString => if Ascii.eqb c "1" then Some xH else None
    | _ =>
        p ← of_bits s';
        if Ascii.eqb c "1" then Some (xI p)
        else if Ascii.eqb c "0" then Some (xO p) else None
    end
  end.

Definition iso (t : Z) : string :=
  match t with
  | Z0 => "Z"
  | Zpos p => String "+" (bits_of p)
  | Zneg p => String "-" (bits_of p)
  end.

Definition parse_raw (s : string) : option Z :=
  match s with
  | EmptyString => None
  | String c s' =>
    if Ascii.eqb c "Z" then if String.eqb s' "" then Some 0%Z else None
    else if Ascii.eqb c "+" then Zpos <$> of_bits s'
    else if Ascii.eqb c "-" then Zneg <$> of_bits s' else None
  end.

Definition parse (s : string) : option Z :=
  t ← parse_raw s; if is_time_value t then Some t else None.
End RefHost.

#[export] Instance refHost : Host := {|
  localeCompare := String.compare;
  sha256_hex := RefHost.digest;
  date_parse := RefHost.parse;
  to_iso_string := RefHost.iso;
|}.

(** ** The concrete host satisfies the laws *)

Lemma string_compare_leb s t : String.compare s t ≠ Gt ↔ String.le s t.
Proof.
  unfold String.le, String.leb. destruct (String.compare s t); simpl; naive_solver.
Qed.

Lemma hex_digit_is_hex n : (n < 16)%N → is_hex (RefHost.hex_digit n) = true.
Proof.
  intros Hn.
  assert (n = 0 ∨ n = 1 ∨ n = 2 ∨ n = 3 ∨ n = 4 ∨ n = 5 ∨ n = 6 ∨ n = 7 ∨ n = 8 ∨
    n = 9 ∨ n = 10 ∨ n = 11 ∨ n = 12 ∨ n = 13 ∨ n = 14 ∨ n = 15)%N as Hcases by lia.
  repeat (destruct Hcases as [-> | Hcases]; [reflexivity|]). by subst.
Qed.

Lemma hex_digits_ok k n :
  String.length (RefHost.hex_digits k n) = k ∧
  str_forallb is_hex (RefHost.hex_digits k n) = true.
Proof.
  revert n; induction k as [|k IH]; intros n; [done|].
  destruct (IH (n / 16)%N) as [Hl Hh].
  cbn [RefHost.hex_digits String.length str_forallb]. rewrite Hl, Hh.
  rewrite hex_digit_is_hex; [done|]. apply N.mod_lt. lia.
Qed.

Lemma of_bits_of p : RefHost.of_bits (RefHost.bits_of p) = Some p.
Proof.
  induction p as [p IH|p IH|]; [..|done];
    cbn [RefHost.bits_of RefHost.of_bits]; rewrite IH;
    destruct (RefHost.bits_of p) eqn:E; try done; destruct p; done.
Qed.

#[export] Instance refHost_laws : HostLaws refHost.
Proof.
  split.
  - split.
    + intros s. simpl. pose proof (String.compare_antisym s s) as E.
      by destruct (String.compare s s).
    + intros s t. apply String.compare_antisym.
    + intros s t u. simpl. rewrite !string_compare_leb. intros. by etrans.
  - intros s. apply hex_digits_ok.
  - intros s. apply hex_digits_ok.
  - intros s t. simpl. unfold RefHost.parse. destruct (RefHost.parse_raw s); simpl; [|done].
    by destruct (is_time_value z) eqn:E; intros [= <-].
  - intros t Ht. simpl. unfold RefHost.parse.
    assert (RefHost.parse_raw (RefHost.iso t) = Some t) as ->; [|simpl; by rewrite Ht].
    destruct t; simpl; [done|..]; by rewrite of_bits_of.
Qed.
