(* ===== verification/JsValue.v ===== *)
(** * JavaScript values and their canonical JSON text

    The values the artifact code receives as [unknown]
    (src/src/research/artifacts/types.ts, [canonicalJson] and
    [serializeCanonical]) and the two JSON writers: the canonical one the
    content hashes are computed from, and [JSON.stringify(_, null, 2)] that
    the repository writes to disk. *)

From S2P Require Import Prelude Host.

(** ** Values *)

(** A number. [NInt z] is the safe integer [z]; every other finite non-zero
    double is kept as the decimal digits and the point position that
    Number::toString (ECMA-262) works on, [0.digits * 10^point]. *)
Inductive jsnum :=
  | NInt (z : Z)
  | NNegZero
  | NDec (negative : bool) (digits : N) (point : Z)
  | NInf (negative : bool)
  | NNaN.

(** Values are trees: a cyclic object graph has no representation, so the
    ancestor check of [serializeCanonical] has no case here.  [JOther] is a
    function, symbol or bigint, with its [typeof]. *)
Inductive jsval :=
  | JUndefined
  | JNull
  | JBool (b : bool)
  | JNum (n : jsnum)
  | JStr (s : string)
  | JArr (l : list jsval)
  | JObj (fields : list (string * jsval))
  | JOther (type_of : string).

#[export] Instance jsnum_eq_dec : EqDecision jsnum.
Proof. solve_decision. Defined.

(** Own enumerable property lookup; absent properties read [undefined]. *)
Definition jget (v : jsval) (key : string) : jsval :=
  match v with
  | JObj fields => default JUndefined (jm_get key fields)
  | _ => JUndefined
  end.

Definition is_nullish (v : jsval) : bool :=
  match v with JUndefined | JNull => true | _ => false end.

Definition is_undefined (v : jsval) : bool :=
  match v with JUndefined => true | _ => false end.

(** [isRecord]: an object that is neither [null] nor an array. *)
Definition isRecord (v : jsval) : bool :=
  match v with JObj _ => true | _ => false end.

(** [typeof v === "object" && v !== null]: arrays are objects too. *)
Definition is_object (v : jsval) : bool :=
  match v with JObj _ | JArr _ => true | _ => false end.

(** [Number.isSafeInteger(v)], with the integer. *)
Definition as_safe_integer (v : jsval) : option Z :=
  match v with
  | JNum (NInt z) => if (Z.abs z <=? 9007199254740991)%Z then Some z else None
  | JNum NNegZero => Some 0%Z
  | _ => None
  end.

Definition as_string (v : jsval) : option string :=
  match v with JStr s => Some s | _ => None end.

(** [v === s] for a string constant [s]. *)
Definition is_str (s : string) (v : jsval) : bool :=
  match v with JStr s' => bool_decide (s' = s) | _ => false end.

(** [v === 1]. *)
Definition is_num (z : Z) (v : jsval) : bool :=
  match v with JNum (NInt z') => (z' =? z)%Z | _ => false end.

(** ** Number and string text *)

Definition is_finite_num (n : jsnum) : bool :=
  match n with NInf _ | NNaN => false | _ => true end.

(** The digits of a number laid out by Number::toString: [k] digits [s],
    decimal point after [p] of them. *)
Definition layout_digits (s : string) (p : Z) : string :=
  let k := Z.of_nat (String.length s) in
  if ((k <=? p) && (p <=? 21))%Z then s +:+ str_repeat (Z.to_nat (p - k)) "0"
  else if ((0 <? p) && (p <=? 21))%Z then
    str_slice 0 (Z.to_nat p) s +:+ "." +:+ str_slice (Z.to_nat p) (String.length s) s
  else if ((-6 <? p) && (p <=? 0))%Z then
    "0." +:+ str_repeat (Z.to_nat (- p)) "0" +:+ s
  else
    let e := (p - 1)%Z in
    let tail := "e" +:+ (if (0 <? e)%Z then "+" else "-") +:+ pretty (Z.abs e) in
    if (k =? 1)%Z then s +:+ tail
    else str_slice 0 1 s +:+ "." +:+ str_slice 1 (String.length s) s +:+ tail.

Definition number_to_string (n : jsnum) : string :=
  match n with
  | NInt z => pretty z
  | NNegZero => "0"
  | NDec neg d p => (if neg then "-" else "") +:+ layout_digits (pretty d) p
  | NInf neg => if neg then "-Infinity" else "Infinity"
  | NNaN => "NaN"
  end.

Definition dquote : string := String (ascii_of_N 34) "".
Definition backslash : string := String (ascii_of_N 92) "".

Definition escape_char (c : ascii) : string :=
  let n := code_unit c in
  if (n =? 34)%N || (n =? 92)%N then backslash +:+ String c ""
  else if (n =? 8)%N then backslash +:+ "b"
  else if (n =? 9)%N then backslash +:+ "t"
  else if (n =? 10)%N then backslash +:+ "n"
  else if (n =? 12)%N then backslash +:+ "f"
  else if (n =? 13)%N then backslash +:+ "r"
  else if (n <? 32)%N then backslash +:+ "u00" +:+ RefHost.hex_digits 1 (n / 16) +:+
                           RefHost.hex_digits 1 n
  else String c "".

Fixpoint escape_string (s : string) : string :=
  match s with
  | EmptyString => ""
  | String c s => escape_char c +:+ escape_string s
  end.

(** [JSON.stringify] of a string. *)
Definition quote (s : string) : string := dquote +:+ escape_string s +:+ dquote.

(** ** [canonicalJson] *)

Section Canonical.
Context `{Host}.

Definition cmp_key {A} : string * A → string * A → comparison :=
  cmp_on fst compareText.

(** An object's [key:text] entries in sorted key order; the first entry
    whose value throws decides the exception. *)
Definition entry_text (entry : string * result string) : result string :=
  text ← entry.2; mret (quote entry.1 +:+ ":" +:+ text).

Definition join_entries (entries : list (string * result string)) : result string :=
  texts ← mapM entry_text (js_sort cmp_key entries);
  mret ("{" +:+ str_join "," texts +:+ "}").

Fixpoint serializeCanonical (value : jsval) : result string :=
  match value with
  | JNull => Ok "null"
  | JStr s => Ok (quote s)
  | JBool b => Ok (if b then "true" else "false")
  | JNum n =>
    if is_finite_num n then Ok (number_to_string n)
    else Throw (TypeError "Research artifact content cannot contain non-finite numbers.")
  | JArr l =>
    texts ← mapM id (map serializeCanonical l);
    mret ("[" +:+ str_join "," texts +:+ "]")
  | JObj fields =>
    join_entries
      (map (λ kv, (kv.1,
         match kv.2 with
         | JUndefined =>
             Throw (TypeError "Research artifact content cannot contain undefined values.")
         | _ => serializeCanonical kv.2
         end)) fields)
  | JUndefined =>
    Throw (TypeError "Research artifact content cannot contain undefined values.")
  | JOther ty =>
    Throw (TypeError ("Research artifact content cannot contain " +:+ ty +:+ " values."))
  end.

Definition canonicalJson (value : jsval) : result string := serializeCanonical value.

(** [sha256:...] of the canonical text. *)
Definition hashResearchArtifactContent (value : jsval) : result string :=
  text ← canonicalJson value; mret ("sha256:" +:+ sha256_hex text).

(** The value [JSON.parse] returns on a canonical text: sorted keys and no
    negative zero. *)
Fixpoint sort_keys (value : jsval) : jsval :=
  match value with
  | JNum NNegZero => JNum (NInt 0)
  | JArr l => JArr (map sort_keys l)
  | JObj fields => JObj (js_sort cmp_key (map (λ kv, (kv.1, sort_keys kv.2)) fields))
  | v => v
  end.

(** [JSON.parse(canonicalJson(value))]. *)
Definition parse_canonical (value : jsval) : result jsval :=
  _ ← canonicalJson value; mret (sort_keys value).
End Canonical.

(** ** [JSON.stringify(value, null, 2)] *)

(** [None] is [undefined]: the property is left out, an array element reads
    [null]. *)
Fixpoint json_stringify (indent : string) (value : jsval) : option string :=
  let inner := indent +:+ "  " in
  let nl := String (ascii_of_N 10) "" in
  match value with
  | JUndefined | JOther _ => None
  | JNull => Some "null"
  | JBool b => Some (if b then "true" else "false")
  | JNum n => Some (if is_finite_num n then number_to_string n else "null")
  | JStr s => Some (quote s)
  | JArr [] => Some "[]"
  | JArr l =>
      let texts := map (λ v, default "null" (json_stringify inner v)) l in
      Some ("[" +:+ nl +:+ inner +:+ str_join ("," +:+ nl +:+ inner) texts +:+ nl
            +:+ indent +:+ "]")
  | JObj fields =>
      let texts := omap id
        (map (λ kv, text ← json_stringify inner kv.2; Some (quote kv.1 +:+ ": " +:+ text))
           fields) in
      match texts with
      | [] => Some "{}"
      | _ => Some ("{" +:+ nl +:+ inner +:+ str_join ("," +:+ nl +:+ inner) texts +:+ nl
                   +:+ indent +:+ "}")
      end
  end.

(** [Buffer.byteLength(text, "utf8")]. *)
Fixpoint utf8_length (s : string) : Z :=
  match s with
  | EmptyString => 0
  | String c s => (if (code_unit c <? 128)%N then 1 else 2) + utf8_length s
  end.

(** ** Lemmas *)

Section jsval_ind.
Variable P : jsval → Prop.
Hypothesis Hundef : P JUndefined.
Hypothesis Hnull : P JNull.
Hypothesis Hbool : ∀ b, P (JBool b).
Hypothesis Hnum : ∀ n, P (JNum n).
Hypothesis Hstr : ∀ s, P (JStr s).
Hypothesis Harr : ∀ l, Forall P l → P (JArr l).
Hypothesis Hobj : ∀ fields, Forall (λ kv, P kv.2) fields → P (JObj fields).
Hypothesis Hother : ∀ ty, P (JOther ty).

Fixpoint jsval_nested_ind (v : jsval) : P v :=
  match v with
  | JUndefined => Hundef
  | JNull => Hnull
  | JBool b => Hbool b
  | JNum n => Hnum n
  | JStr s => Hstr s
  | JArr l => Harr l ((fix go l : Forall P l :=
    match l with
    | [] => Forall_nil_2 P
    | v :: l => Forall_cons_2 P v l (jsval_nested_ind v) (go l)
    end) l)
  | JObj fields => Hobj fields ((fix go fs : Forall (λ kv : string * jsval, P kv.2) fs :=
    match fs with
    | [] => Forall_nil_2 _
    | kv :: fs => Forall_cons_2 _ kv fs (jsval_nested_ind kv.2) (go fs)
    end) fields)
  | JOther ty => Hother ty
  end.
End jsval_ind.

Section CanonicalLemmas.
Context `{Host}.

(** The entry text of one property. *)
Definition field_text (v : jsval) : result string :=
  match v with
  | JUndefined =>
    Throw (TypeError "Research artifact content cannot contain undefined values.")
  | _ => serializeCanonical v
  end.

Lemma serializeCanonical_obj fields :
  serializeCanonical (JObj fields) = join_entries (map (λ kv, (kv.1, field_text kv.2)) fields).
Proof. done. Qed.

Lemma mapM_id_map_ext {A} (f g : A → result string) l :
  Forall (λ x, ∀ t, f x = Ok t → g x = Ok t) l →
  ∀ ts, mapM id (map f l) = Ok ts → mapM id (map g l) = Ok ts.
Proof.
  induction 1 as [|x l Hx Hl IH]; intros ts Hts; simpl in *; [done|].
  inv_result. rewrite (Hx _ Hr). simpl. by rewrite (IH _ Hr0).
Qed.

Lemma join_entries_map (f : jsval → jsval) fields text :
  Forall (λ kv, ∀ t, field_text kv.2 = Ok t → field_text (f kv.2) = Ok t) fields →
  join_entries (map (λ kv, (kv.1, field_text kv.2)) fields) = Ok text →
  join_entries (map (λ kv, (kv.1, field_text (f kv.2))) fields) = Ok text.
Proof.
  intros Hall Hrun. unfold join_entries in *.
  change (map ?h fields) with (h <$> fields) in Hrun.
  change (map ?h fields) with (h <$> fields).
  rewrite js_sort_fmap in Hrun |- *.
  apply bind_Ok in Hrun as (texts & Htexts & Hrun).
  change (js_sort (cmp_on _ cmp_key) fields) with (js_sort (@cmp_key _ jsval) fields) in *.
  assert (Forall (λ kv, ∀ t, field_text kv.2 = Ok t → field_text (f kv.2) = Ok t)
  (js_sort cmp_key fields)) as Hall'.
  { by rewrite js_sort_perm. }
  enough (mapM entry_text
  ((λ kv, (kv.1, field_text (f kv.2))) <$> js_sort cmp_key fields) = Ok texts) as E.
  { by rewrite E. }
  clear -Htexts Hall'. revert texts Htexts.
  induction Hall' as [|[k v] l Hkv Hl IH]; intros texts Htexts; [done|].
  rewrite !fmap_cons in *. simpl in Htexts |- *.
  apply bind_Ok in Htexts as (t & Ht & Htexts).
  apply bind_Ok in Htexts as (ts & Hts & Htexts).
  assert (entry_text (k, field_text (f v)) = Ok t) as ->.
  { unfold entry_text in *. simpl in *. apply bind_Ok in Ht as (t' & Ht & Ht').
  rewrite (Hkv _ Ht). done. }
  simpl. by rewrite (IH _ Hts).
Qed.

Context `{!HostLaws _}.

#[export] Instance cmp_key_comparator {A} : Comparator (@cmp_key _ A).
Proof. unfold cmp_key, compareText. apply _. Qed.

Lemma join_entries_sorted entries :
  join_entries (js_sort cmp_key entries) = join_entries entries.
Proof. unfold join_entries. by rewrite js_sort_idemp by apply _. Qed.

Lemma sort_keys_undefined v : sort_keys v = JUndefined → v = JUndefined.
Proof. by destruct v as [| | |[]| | | |]. Qed.

(** Reading a canonical text back and writing it again gives the same text. *)
Lemma serialize_sort_keys v text :
  serializeCanonical v = Ok text → serializeCanonical (sort_keys v) = Ok text.
Proof.
  revert text. induction v as [| | |n| |l IH|fields IH|] using jsval_nested_ind;
  intros text; try done.
  - destruct n; done.
  - simpl. intros Hrun. inv_result. rewrite map_map.
  by rewrite (mapM_id_map_ext _ _ _ IH _ Hr).
  - cbn [sort_keys]. rewrite !serializeCanonical_obj. intros Hrun.
  replace (map (λ kv, (kv.1, field_text kv.2))
      (js_sort cmp_key (map (λ kv, (kv.1, sort_keys kv.2)) fields)))
    with (js_sort cmp_key (map (λ kv, (kv.1, field_text (sort_keys kv.2))) fields)).
  + rewrite join_entries_sorted. apply join_entries_map; [|done].
    eapply Forall_impl; [exact IH|]. intros [k v]; simpl. intros Hv t Ht.
    assert (v ≠ JUndefined) as Hne by (by intros ->).
    assert (serializeCanonical v = Ok t) as Ht' by (by destruct v).
    specialize (Hv t Ht'). unfold field_text.
    destruct (sort_keys v) eqn:E; try done.
  + assert (map (λ kv, (kv.1, field_text (sort_keys kv.2))) fields =
      (λ kv, (kv.1, field_text kv.2)) <$> ((λ kv, (kv.1, sort_keys kv.2)) <$> fields)) as ->.
    { rewrite <- list_fmap_compose. done. }
    rewrite js_sort_fmap. done.
Qed.

Lemma canonicalJson_parse v v' :
  parse_canonical v = Ok v' → canonicalJson v' = canonicalJson v.
Proof.
  unfold parse_canonical. intros Hrun. inv_result.
  unfold canonicalJson in *. by rewrite (serialize_sort_keys _ _ Hr).
Qed.

(** The canonical text of an object does not depend on the order its
    properties were added in, as long as no two keys collate equal. *)
Lemma canonicalJson_obj_perm fields fields' :
  fields ≡ₚ fields' →
  (∀ x y, x ∈ fields → y ∈ fields → compareText x.1 y.1 = Eq → x = y) →
  canonicalJson (JObj fields) = canonicalJson (JObj fields').
Proof.
  intros Hp Htie. unfold canonicalJson. rewrite !serializeCanonical_obj.
  unfold join_entries.
  change (map ?h ?l) with (h <$> l). rewrite !js_sort_fmap.
  by rewrite (js_sort_unique _ fields fields').
Qed.

Lemma hash_is_content_hash v h :
  hashResearchArtifactContent v = Ok h → is_content_hash h = true.
Proof.
  unfold hashResearchArtifactContent. intros Hrun. inv_result.
  apply is_content_hash_intro; [apply sha256_hex_length | apply sha256_hex_digits].
Qed.
End CanonicalLemmas.
