(* ===== verification/Numbers.v ===== *)
(** * Arithmetic on JavaScript numbers

    The [+], [-], [<], [<=] and [Math.max] the director computes costs and
    durations with (src/src/research/director/planner.ts), and the rounding that
    reading a number from text needs (NumberText.v).  A number is the
    [jsnum] of JsValue.v, the shortest decimal text of a double; an operation
    takes the doubles, computes the exact result, rounds it to the nearest
    binary64 value (ties to even) and reads that double back as the shortest
    decimal that rounds to it (Number::toString, ECMA-262). *)

From S2P Require Import Prelude JsValue.

Local Open Scope Z_scope.

Definition MAX_SAFE_INTEGER : Z := 9007199254740991.

Definition is_safe (z : Z) : bool := Z.abs z <=? MAX_SAFE_INTEGER.

(** ** Rounding a positive rational [a / b] to binary64 *)

(** [a / b] to the nearest integer, ties to even. *)
Definition round_div (a b : Z) : Z :=
  let q := a / b in
  match 2 * (a mod b) ?= b with
  | Lt => q
  | Gt => q + 1
  | Eq => if Z.even q then q else q + 1
  end.

(** [a / b * base^k] as a fraction. *)
Definition scale (base a b k : Z) : Z * Z :=
  (a * base ^ Z.max 0 k, b * base ^ Z.max 0 (- k)).

(** The greatest [l] with [2^l <= a / b]. *)
Definition binary_exponent (a b : Z) : Z :=
  let l := Z.log2 a - Z.log2 b in
  let '(a', b') := scale 2 a b (- l) in
  if a' <? b' then l - 1 else l.

(** Significand and exponent of the nearest double. *)
Definition to_double (a b : Z) : Z * Z :=
  let q := Z.max (-1074) (binary_exponent a b - 52) in
  let '(a', b') := scale 2 a b (- q) in
  let f := round_div a' b' in
  if f =? 2 ^ 53 then (2 ^ 52, q + 1) else (f, q).

(** The [n] with [10^(n-1) <= a / b < 10^n]. *)
Definition decimal_point (a b : Z) : Z :=
  let n := binary_exponent a b * 30103 / 100000 + 1 in
  let '(a', b') := scale 10 a b (- n) in
  if a' <? b' then n else n + 1.

(** The [k]-digit decimals next to [a / b < 10^n], the nearest first. *)
Definition decimal_candidates (a b n k : Z) : list Z :=
  let '(a', b') := scale 10 a b (k - n) in
  let s := a' / b' in
  match 2 * (a' mod b') ?= b' with
  | Lt => [s; s + 1]
  | Gt => [s + 1; s]
  | Eq => if Z.even s then [s; s + 1] else [s + 1; s]
  end.

(** The shortest digits that round to the double [v], at most 17. *)
Fixpoint shortest_from (fuel : nat) (v : Z * Z) (a b n k : Z) : Z * Z :=
  let rounds s :=
    let '(a', b') := scale 10 s 1 (n - k) in bool_decide (to_double a' b' = v) in
  match List.find rounds (decimal_candidates a b n k), fuel with
  | Some s, _ => if s =? 10 ^ k then (1, n + 1) else (s, n)
  | None, O => (a / b, n)
  | None, S fuel => shortest_from fuel v a b n (k + 1)
  end.

(** ** Exact values *)

(** The double a number stands for, as [m * 2^e]. *)
Definition num_value (n : jsnum) : option (Z * Z) :=
  match n with
  | NInt z => Some (z, 0)
  | NNegZero => Some (0, 0)
  | NDec neg d p =>
      let '(a, b) := scale 10 (Z.of_N d) 1 (p - Z.of_nat (String.length (pretty d))) in
      let '(f, q) := to_double a b in
      Some ((if neg then - f else f), q)
  | NInf _ | NNaN => None
  end.

Definition align (x : Z * Z) (e : Z) : Z := x.1 * 2 ^ (x.2 - e).

Definition exact_add (x y : Z * Z) : Z * Z :=
  let e := Z.min x.2 y.2 in (align x e + align y e, e).

Definition exact_compare (x y : Z * Z) : comparison :=
  let e := Z.min x.2 y.2 in (align x e ?= align y e).

(** ** Reading a double back as a number *)

Definition negate_num (neg : bool) (n : jsnum) : jsnum :=
  if neg then
    match n with
    | NInt 0 => NNegZero
    | NInt z => NInt (- z)
    | NNegZero => NInt 0
    | NDec s d p => NDec (negb s) d p
    | NInf s => NInf (negb s)
    | NNaN => NNaN
    end
  else n.

(** The non-negative double [f * 2^q]. *)
Definition double_num (v : Z * Z) : jsnum :=
  let '(f, q) := v in
  if f =? 0 then NInt 0
  else if 2 ^ 1024 <=? f * 2 ^ Z.max 0 q then NInf false
  else
    let '(a, b) := scale 2 f 1 q in
    if (a mod b =? 0) && is_safe (a / b) then NInt (a / b)
    else let '(d, n) := shortest_from 17 v a b (decimal_point a b) 1 in
         NDec false (Z.to_N d) n.

(** The number nearest to [m * 2^e]. *)
Definition round_num (x : Z * Z) : jsnum :=
  let '(m, e) := x in
  let '(a, b) := scale 2 (Z.abs m) 1 e in
  if (b =? 1) && is_safe a then NInt (Z.sgn m * a)
  else negate_num (m <? 0) (double_num (to_double a b)).

(** ** The operators *)

Definition js_add (x y : jsnum) : jsnum :=
  match x, y with
  | NNaN, _ | _, NNaN => NNaN
  | NInf s, NInf s' => if Bool.eqb s s' then NInf s else NNaN
  | NInf s, _ | _, NInf s => NInf s
  | NNegZero, NNegZero => NNegZero
  | _, _ =>
      match num_value x, num_value y with
      | Some v, Some w => round_num (exact_add v w)
      | _, _ => NNaN
      end
  end.

Definition js_sub (x y : jsnum) : jsnum := js_add x (negate_num true y).

(** The sign of [x - y]; [None] when they do not compare. *)
Definition js_compare (x y : jsnum) : option comparison :=
  match x, y with
  | NNaN, _ | _, NNaN => None
  | NInf s, NInf s' => Some (if Bool.eqb s s' then Eq else if s then Lt else Gt)
  | NInf s, _ => Some (if s then Lt else Gt)
  | _, NInf s => Some (if s then Gt else Lt)
  | _, _ => v ← num_value x; w ← num_value y; Some (exact_compare v w)
  end.

Definition js_lt (x y : jsnum) : bool := bool_decide (js_compare x y = Some Lt).

(** [x <= y]. *)
Definition js_le (x y : jsnum) : bool :=
  match js_compare x y with Some Lt | Some Eq => true | _ => false end.

Definition js_max (x y : jsnum) : jsnum :=
  match x, y with
  | NNaN, _ | _, NNaN => NNaN
  | NNegZero, NInt 0 => NInt 0
  | _, _ => if js_lt x y then y else x
  end.

(** [Math.max(...l)] and [l.reduce((sum, x) => sum + x, 0)]. *)
Definition max_of (l : list jsnum) : jsnum := foldl js_max (NInf true) l.
Definition sum_of (l : list jsnum) : jsnum := foldl js_add (NInt 0) l.

(** ** Lemmas: safe integers are exact *)

Lemma round_num_int z : is_safe z = true → round_num (z, 0) = NInt z.
Proof.
  intros Hz. unfold round_num, scale. change (2 ^ Z.max 0 0) with 1.
  change (2 ^ Z.max 0 (- 0)) with 1. rewrite !Z.mul_1_r, Z.eqb_refl.
  unfold is_safe in *. rewrite Z.abs_idemp, Hz. simpl andb. cbn iota.
  f_equal. lia.
Qed.

Lemma js_add_int a b : is_safe (a + b) = true → js_add (NInt a) (NInt b) = NInt (a + b).
Proof.
  intros Hs. cbn [js_add num_value]. unfold exact_add, align.
  cbn [fst snd]. change (Z.min 0 0) with 0. change (2 ^ (0 - 0)) with 1.
  rewrite !Z.mul_1_r. by apply round_num_int.
Qed.

Lemma js_sub_int a b : is_safe (a - b) = true → js_sub (NInt a) (NInt b) = NInt (a - b).
Proof.
  intros Hs. unfold js_sub. destruct b as [|b|b]; cbn [negate_num Z.opp].
  - change (js_add (NInt a) NNegZero) with (js_add (NInt a) (NInt 0)).
    rewrite js_add_int; rewrite ?Z.add_0_r, ?Z.sub_0_r in *; done.
  - by rewrite js_add_int.
  - by rewrite js_add_int.
Qed.

Lemma js_compare_int a b : js_compare (NInt a) (NInt b) = Some (a ?= b).
Proof.
  unfold js_compare. simpl. unfold exact_compare, align. cbn [fst snd].
  change (Z.min 0 0) with 0. change (2 ^ (0 - 0)) with 1. by rewrite !Z.mul_1_r.
Qed.

Lemma js_le_int a b : js_le (NInt a) (NInt b) = (a <=? b).
Proof. unfold js_le. rewrite js_compare_int. unfold Z.leb. by destruct (a ?= b). Qed.

Lemma sum_of_int l : ∀ s,
  Forall (λ z, 0 <= z) l → 0 <= s → is_safe (s + foldr Z.add 0 l) = true →
  foldl js_add (NInt s) (NInt <$> l) = NInt (s + foldr Z.add 0 l).
Proof.
  induction l as [|z l IH]; intros s Hl Hs Hsafe;
    [cbn [fmap list_fmap foldl foldr]; by rewrite Z.add_0_r|].
  rewrite fmap_cons. cbn [foldl foldr] in *. inv Hl. assert (0 <= foldr Z.add 0 l) as Hnn.
  { clear -H2. induction H2; cbn [foldr]; lia. }
  unfold is_safe in *. rewrite js_add_int by (unfold is_safe; lia).
  rewrite IH; [f_equal; lia|done|lia|lia].
Qed.

(** Doubles, not decimals: [0.1 + 0.2] and [0.3 - 0.1]. *)
Example tenth_sum :
  js_add (NDec false 1 0) (NDec false 2 0) = NDec false 30000000000000004 0 ∧
  js_sub (NDec false 3 0) (NDec false 1 0) = NDec false 19999999999999998 0 ∧
  js_add (NInt MAX_SAFE_INTEGER) (NInt 2) = NDec false 9007199254740992 16.
Proof. vm_compute. done. Qed.
