(* ===== verification/NumberText.v ===== *)
(** * Reading a number from text

    [Number(text)] of the language (StringToNumber, ECMA-262), as the
    repository's lock and other readers of text files use it, with the round
    trip on the decimal text of a safe integer. *)

From S2P Require Import Prelude JsValue Numbers.

Local Open Scope Z_scope.

(** The value of a digit in a radix up to 16. *)
Definition digit_value (c : ascii) : Z :=
  let n := Z.of_N (code_unit c) in
  if is_digit c then n - 48
  else if in_range 97 102 c then n - 87
  else if in_range 65 70 c then n - 55
  else 99.

(** The longest run of digits: its value after [acc], how many there are, and
    the rest of the text. *)
Fixpoint read_digits (radix acc : Z) (count : nat) (s : string) : Z * nat * string :=
  match s with
  | String c s' =>
      if digit_value c <? radix then read_digits radix (acc * radix + digit_value c) (S count) s'
      else (acc, count, s)
  | EmptyString => (acc, count, "")
  end.

(** The sign of a literal and what follows it. *)
Definition read_sign (s : string) : bool * string :=
  match s with
  | String "-" s' => (true, s')
  | String "+" s' => (false, s')
  | _ => (false, s)
  end.

(** ExponentPart, up to the end of the text. *)
Definition read_exponent (s : string) : option Z :=
  match s with
  | EmptyString => Some 0
  | String c s' =>
      if bool_decide (c = "e"%char ∨ c = "E"%char) then
        let '(neg, t) := read_sign s' in
        match read_digits 10 0 0 t with
        | (e, S _, EmptyString) => Some (if neg then - e else e)
        | _ => None
        end
      else None
  end.

(** The number nearest to [m * 10^e] for [m >= 0]. *)
Definition decimal_num (m e : Z) : jsnum :=
  let '(a, b) := scale 10 m 1 e in
  if (b =? 1) && is_safe a then NInt a
  else double_num (to_double a b).

(** StrUnsignedDecimalLiteral. *)
Definition read_decimal (s : string) : jsnum :=
  if bool_decide (s = "Infinity") then NInf false
  else
  let '(whole, n, rest) := read_digits 10 0 0 s in
  let '(m, k, tail) :=
    match rest with
    | String "." rest' => read_digits 10 whole 0 rest'
    | _ => (whole, O, rest)
    end in
  match (n + k)%nat, read_exponent tail with
  | S _, Some e => decimal_num m (e - Z.of_nat k)
  | _, _ => NNaN
  end.

(** NonDecimalIntegerLiteral, after its prefix. *)
Definition read_radix (radix : Z) (s : string) : jsnum :=
  match read_digits radix 0 0 s with
  | (m, S _, EmptyString) => decimal_num m 0
  | _ => NNaN
  end.

Definition js_number (s : string) : jsnum :=
  let t := js_trim s in
  let body := str_slice 2 (String.length t) t in
  if bool_decide (t = "") then NInt 0
  else if starts_with "0x" t || starts_with "0X" t then read_radix 16 body
  else if starts_with "0o" t || starts_with "0O" t then read_radix 8 body
  else if starts_with "0b" t || starts_with "0B" t then read_radix 2 body
  else let '(neg, u) := read_sign t in negate_num neg (read_decimal u).

(** ** Decimal digits *)

Lemma digit_value_pretty x : (x < 10)%N → digit_value (pretty_N_char x) = Z.of_N x.
Proof.
  intros Hx. destruct x as [|p]; [done|].
  do 4 (destruct p as [p|p|]; try done; try lia).
Qed.

Lemma read_digits_pretty x : ∀ s,
  ∃ k, read_digits 10 0 0 (pretty_N_go x s) = read_digits 10 (Z.of_N x) k s ∧
    ((0 < x)%N → (0 < k)%nat).
Proof.
  induction (N.lt_wf_0 x) as [x _ IH]; intros s.
  assert (x = 0 ∨ 0 < x)%N as [->|Hx] by lia.
  { exists O. by rewrite pretty_N_go_0. }
  rewrite pretty_N_go_step by done.
  destruct (IH (x `div` 10)%N) with (s := String (pretty_N_char (x `mod` 10)) s)
    as (k & -> & _); [by apply N.div_lt|].
  exists (S k). split; [|lia]. cbn [read_digits].
  assert (x `mod` 10 < 10)%N as Hm by (by apply N.mod_lt).
  rewrite digit_value_pretty by done.
  rewrite (proj2 (Z.ltb_lt _ _)) by exact (proj1 (N2Z.inj_lt _ 10) Hm). f_equal.
  rewrite N2Z.inj_div, N2Z.inj_mod by done. change (Z.of_N 10) with 10.
  pose proof (Z.div_mod (Z.of_N x) 10). lia.
Qed.

Lemma digits_no_prefix c d s :
  is_digit d = false → str_forallb is_digit s = true → starts_with (String c (String d "")) s = false.
Proof.
  intros Hd Hs. destruct s as [|a [|b s]]; [done| |]; unfold starts_with; cbn.
  - by destruct (ascii_dec c a).
  - destruct (ascii_dec c a); [|done]. destruct (ascii_dec d b) as [->|]; [|done].
    cbn in Hs. rewrite Hd in Hs. by destruct (is_digit a).
Qed.

Lemma digits_no_sign s : str_forallb is_digit s = true → read_sign s = (false, s).
Proof.
  destruct s as [|c s]; [done|]. cbn [str_forallb]. intros [Hc _]%andb_true_iff.
  unfold read_sign. by repeat (case_match; try done).
Qed.

Lemma decimal_num_int m : is_safe m = true → decimal_num m 0 = NInt m.
Proof.
  intros Hm. unfold decimal_num, scale. change (10 ^ Z.max 0 0) with 1.
  change (10 ^ Z.max 0 (- 0)) with 1. rewrite !Z.mul_1_r. by rewrite Hm.
Qed.

Lemma read_decimal_int s m k :
  str_forallb is_digit s = true → read_digits 10 0 0 s = (m, S k, "") → is_safe m = true →
  read_decimal s = NInt m.
Proof.
  intros Hd Hr Hm. unfold read_decimal.
  rewrite bool_decide_false by (by intros ->). rewrite Hr. cbn [read_exponent].
  rewrite Nat.add_0_r. by apply decimal_num_int.
Qed.

Lemma pretty_safe_digits z : 0 < z → is_safe z = true → str_forallb is_digit (pretty z) = true.
Proof.
  intros Hz Hs%Z.leb_le. apply (pretty_pos_digits z 17); [done|].
  change (10 ^ Z.of_nat 17) with 100000000000000000. unfold MAX_SAFE_INTEGER in Hs. lia.
Qed.

Lemma as_safe_integer_int z : is_safe z = true → as_safe_integer (JNum (NInt z)) = Some z.
Proof.
  unfold is_safe, MAX_SAFE_INTEGER. intros Hs. unfold as_safe_integer. by rewrite Hs.
Qed.

(** Reading back what [`${z}`] writes. *)
Lemma js_number_pretty z : 0 < z → is_safe z = true → js_number (pretty z) = NInt z.
Proof.
  intros Hz Hs. pose proof (pretty_safe_digits z Hz Hs) as Hd.
  assert (∃ k, read_digits 10 0 0 (pretty z) = (z, S k, "")) as [k Hr].
  { destruct z as [|p|p]; [lia| |lia].
    change (pretty (Zpos p)) with (pretty_N_go (Npos p) "").
    destruct (read_digits_pretty (Npos p) "") as (k & -> & Hk).
    destruct k as [|k]; [exfalso; lia|]. by exists k. }
  unfold js_number. rewrite no_space_trim.
  2:{ eapply str_forallb_weaken; [|done]. intros c Hc.
      destruct c as [[] [] [] [] [] [] [] []]; vm_compute in Hc |- *; congruence. }
  rewrite bool_decide_false by (by intros He; rewrite He in Hr).
  rewrite !digits_no_prefix by done. cbn [orb]. rewrite digits_no_sign by done.
  cbn [negate_num]. by eapply read_decimal_int.
Qed.

Example number_samples :
  js_number " 0x1F " = NInt 31 ∧ js_number "" = NInt 0 ∧ js_number "12.50e1" = NInt 125 ∧
  js_number "-0" = NNegZero ∧ js_number ".1" = NDec false 1 0 ∧ js_number "12px" = NNaN ∧
  js_number "1." = NInt 1 ∧ js_number "." = NNaN ∧ js_number "-Infinity" = NInf true ∧
  js_number "9007199254740993" = NDec false 9007199254740992 16.
Proof. vm_compute. done. Qed.
