(* ===== verification/ArtifactTypes.v ===== *)
(** * Artifact envelopes

    src/src/research/artifacts/types.ts: the artifact data model, the
    constructor [createResearchArtifact] with the normalizers it runs on its
    untyped input, keys, references and the content hash. *)

From S2P Require Import Prelude Host JsValue.

(** ** Enumerations *)

Inductive artifact_kind :=
  | EvidencePack | CandidatePortfolio | LiteratureNoveltyRescan | ChallengeReport
  | DecisionRecord | ResearchBrief | MethodSpec | ImplementationSnapshot
  | ExperimentSpec | ExecutionGrant | RunAttempt | BaselineObservation
  | MetricObservation | FigureTable | CitationSet | ManuscriptVersion
  | RenderRun | ReviewRound | Finding | RevisionDecision.

Definition RESEARCH_ARTIFACT_KINDS : list artifact_kind :=
  [EvidencePack; CandidatePortfolio; LiteratureNoveltyRescan; ChallengeReport;
   DecisionRecord; ResearchBrief; MethodSpec; ImplementationSnapshot;
   ExperimentSpec; ExecutionGrant; RunAttempt; BaselineObservation;
   MetricObservation; FigureTable; CitationSet; ManuscriptVersion;
   RenderRun; ReviewRound; Finding; RevisionDecision].

Definition kind_name (k : artifact_kind) : string :=
  match k with
  | EvidencePack => "evidence_pack"
  | CandidatePortfolio => "candidate_portfolio"
  | LiteratureNoveltyRescan => "literature_novelty_rescan"
  | ChallengeReport => "challenge_report"
  | DecisionRecord => "decision_record"
  | ResearchBrief => "research_brief"
  | MethodSpec => "method_spec"
  | ImplementationSnapshot => "implementation_snapshot"
  | ExperimentSpec => "experiment_spec"
  | ExecutionGrant => "execution_grant"
  | RunAttempt => "run_attempt"
  | BaselineObservation => "baseline_observation"
  | MetricObservation => "metric_observation"
  | FigureTable => "figure_table"
  | CitationSet => "citation_set"
  | ManuscriptVersion => "manuscript_version"
  | RenderRun => "render_run"
  | ReviewRound => "review_round"
  | Finding => "finding"
  | RevisionDecision => "revision_decision"
  end.

Inductive artifact_status := Active | Stale | Superseded | Rejected | Archived.

Definition ARTIFACT_STATUSES : list artifact_status :=
  [Active; Stale; Superseded; Rejected; Archived].

Definition status_name (s : artifact_status) : string :=
  match s with
  | Active => "active" | Stale => "stale" | Superseded => "superseded"
  | Rejected => "rejected" | Archived => "archived"
  end.

Inductive artifact_relation := DerivedFrom | Uses | Supports | Challenges | Supersedes.

Definition ARTIFACT_RELATIONS : list artifact_relation :=
  [DerivedFrom; Uses; Supports; Challenges; Supersedes].

Definition relation_name (r : artifact_relation) : string :=
  match r with
  | DerivedFrom => "derived_from" | Uses => "uses" | Supports => "supports"
  | Challenges => "challenges" | Supersedes => "supersedes"
  end.

(** A reference may also point at a claim-graph node. *)
Inductive ref_kind := ArtifactRef (k : artifact_kind) | ClaimRef.

Definition REF_KINDS : list ref_kind := map ArtifactRef RESEARCH_ARTIFACT_KINDS ++ [ClaimRef].

Definition ref_kind_name (k : ref_kind) : string :=
  match k with ArtifactRef k => kind_name k | ClaimRef => "claim" end.

Inductive producer_kind := ProducerUser | ProducerAgent | ProducerTool | ProducerImport.

Definition PRODUCER_KINDS : list producer_kind :=
  [ProducerUser; ProducerAgent; ProducerTool; ProducerImport].

Definition producer_kind_name (p : producer_kind) : string :=
  match p with
  | ProducerUser => "user" | ProducerAgent => "agent"
  | ProducerTool => "tool" | ProducerImport => "import"
  end.

Inductive invalidation_reason :=
  | UpstreamChanged | EvidenceWithdrawn | RunFailed | ReviewFinding | Manual.

Definition INVALIDATION_REASONS : list invalidation_reason :=
  [UpstreamChanged; EvidenceWithdrawn; RunFailed; ReviewFinding; Manual].

Definition reason_name (r : invalidation_reason) : string :=
  match r with
  | UpstreamChanged => "upstream_changed" | EvidenceWithdrawn => "evidence_withdrawn"
  | RunFailed => "run_failed" | ReviewFinding => "review_finding" | Manual => "manual"
  end.

#[export] Instance artifact_kind_eq_dec : EqDecision artifact_kind.
Proof. solve_decision. Defined.
#[export] Instance artifact_status_eq_dec : EqDecision artifact_status.
Proof. solve_decision. Defined.
#[export] Instance artifact_relation_eq_dec : EqDecision artifact_relation.
Proof. solve_decision. Defined.
#[export] Instance ref_kind_eq_dec : EqDecision ref_kind.
Proof. solve_decision. Defined.
#[export] Instance producer_kind_eq_dec : EqDecision producer_kind.
Proof. solve_decision. Defined.
#[export] Instance invalidation_reason_eq_dec : EqDecision invalidation_reason.
Proof. solve_decision. Defined.

(** [LIST.includes(value)] on a list of string literals, with the literal. *)
Definition parse_enum {A} (all : list A) (name : A → string) (v : jsval) : option A :=
  match v with
  | JStr s => List.find (λ a, bool_decide (name a = s)) all
  | _ => None
  end.

(** ** References, parents, sources, envelopes *)

Record artifact_ref := mkRef {
  ref_artifactId : string;
  ref_revision : Z;
  ref_kind_of : ref_kind;
  ref_contentHash : string;
}.

Record artifact_parent := mkParent {
  p_relation : artifact_relation;
  p_artifact : artifact_ref;
}.

Record artifact_producer := mkProducer {
  prod_kind : producer_kind;
  prod_id : option string;
  prod_toolName : option string;
}.

Record artifact_source := mkSource {
  src_sourceId : string;
  src_recordId : option string;
  src_locator : option string;
  src_retrievedAt : option string;
  src_contentHash : option string;
}.

(** Dates that the code has normalized with [toISOString] are kept as their
    time value; [to_iso_string] is their text in JSON. *)
Record artifact_invalidation := mkInvalidation {
  inv_invalidatedAt : Z;
  inv_reason : invalidation_reason;
  inv_roots : list artifact_ref;
}.

Record artifact_envelope := mkEnvelope {
  a_artifactId : string;
  a_revision : Z;
  a_kind : artifact_kind;
  a_status : artifact_status;
  a_createdAt : Z;
  a_updatedAt : Z;
  a_contentHash : string;
  a_producer : artifact_producer;
  a_parents : list artifact_parent;
  a_sources : list artifact_source;
  a_invalidation : option artifact_invalidation;
  a_payload : jsval;
}.

#[export] Instance artifact_ref_eq_dec : EqDecision artifact_ref.
Proof. solve_decision. Defined.
#[export] Instance artifact_parent_eq_dec : EqDecision artifact_parent.
Proof. solve_decision. Defined.

Definition toResearchArtifactRef (artifact : artifact_envelope) : artifact_ref :=
  mkRef (a_artifactId artifact) (a_revision artifact)
    (ArtifactRef (a_kind artifact)) (a_contentHash artifact).

(** [`${artifactId}@${revision}`]. *)
Definition key_of (artifactId : string) (revision : Z) : string :=
  artifactId +:+ "@" +:+ pretty revision.

Definition researchArtifactKey (artifact : artifact_envelope) : string :=
  key_of (a_artifactId artifact) (a_revision artifact).

Definition refKey (ref : artifact_ref) : string :=
  key_of (ref_artifactId ref) (ref_revision ref).

(** ** JSON images of the records *)

Definition opt_field {A} (key : string) (f : A → jsval) (o : option A) : list (string * jsval) :=
  match o with Some a => [(key, f a)] | None => [] end.

Definition ref_to_json (r : artifact_ref) : jsval :=
  JObj [("artifactId", JStr (ref_artifactId r)); ("revision", JNum (NInt (ref_revision r)));
        ("kind", JStr (ref_kind_name (ref_kind_of r)));
        ("contentHash", JStr (ref_contentHash r))].

Definition parent_to_json (p : artifact_parent) : jsval :=
  JObj [("relation", JStr (relation_name (p_relation p)));
        ("artifact", ref_to_json (p_artifact p))].

Definition source_to_json (s : artifact_source) : jsval :=
  JObj ([("sourceId", JStr (src_sourceId s))] ++
        opt_field "recordId" JStr (src_recordId s) ++
        opt_field "locator" JStr (src_locator s) ++
        opt_field "retrievedAt" JStr (src_retrievedAt s) ++
        opt_field "contentHash" JStr (src_contentHash s)).

Definition producer_to_json (p : artifact_producer) : jsval :=
  JObj ([("kind", JStr (producer_kind_name (prod_kind p)))] ++
        opt_field "id" JStr (prod_id p) ++ opt_field "toolName" JStr (prod_toolName p)).

(** ** Field validators *)

(** The text test shared by [requireText] and the director's [boundedText]. *)
Definition is_bounded_text (maximum : Z) (s : string) : bool :=
  negb (String.eqb (js_trim s) "") && String.eqb s (js_trim s)
  && negb (str_has_char "000" s) && (Z.of_nat (String.length s) <=? maximum)%Z.

Definition requireText (value : jsval) (label : string) : result string :=
  match value with
  | JStr s =>
      if is_bounded_text 16000 s then Ok s
      else Throw (TypeError (label +:+ " must be non-empty trimmed text."))
  | _ => Throw (TypeError (label +:+ " must be non-empty trimmed text."))
  end.

Definition requireIdentifier (value : jsval) (label : string) : result string :=
  normalized ← requireText value label;
  _ ← ensure (is_safe_identifier normalized)
        (TypeError (label +:+ " must be a safe identifier no longer than 256 characters."));
  mret normalized.

Definition requirePositiveInteger (value : jsval) (label : string) : result Z :=
  match as_safe_integer value with
  | Some z =>
      if (z <? 1)%Z then Throw (TypeError (label +:+ " must be a positive integer."))
      else Ok z
  | None => Throw (TypeError (label +:+ " must be a positive integer."))
  end.

Definition requireHash (value : jsval) (label : string) : result string :=
  match value with
  | JStr s =>
      if is_content_hash s then Ok s
      else Throw (TypeError (label +:+ " must be a SHA-256 content hash."))
  | _ => Throw (TypeError (label +:+ " must be a SHA-256 content hash."))
  end.

(** [value === undefined ? {} : { key: f(value) }]. *)
Definition optional {A} (f : jsval → result A) (value : jsval) : result (option A) :=
  if is_undefined value then Ok None else a ← f value; mret (Some a).

Definition requireIsoDate `{Host} (value : jsval) (label : string) : result string :=
  match value with
  | JStr s =>
      match date_parse s with
      | Some _ => Ok s
      | None => Throw (TypeError (label +:+ " must be an ISO date."))
      end
  | _ => Throw (TypeError (label +:+ " must be an ISO date."))
  end.

Definition assertRefKind (value : jsval) : result ref_kind :=
  of_option (TypeError "Unsupported research artifact kind.")
    (parse_enum REF_KINDS ref_kind_name value).

Definition assertArtifactStatus (value : jsval) : result artifact_status :=
  of_option (TypeError "Unsupported research artifact status.")
    (parse_enum ARTIFACT_STATUSES status_name value).

Definition assertRelation (value : jsval) : result artifact_relation :=
  of_option (TypeError "Unsupported research artifact relation.")
    (parse_enum ARTIFACT_RELATIONS relation_name value).

(** ** Normalizers *)

Definition normalizeRef (value : jsval) : result artifact_ref :=
  _ ← ensure (is_object value) (TypeError "Artifact reference must be an object.");
  kind ← assertRefKind (jget value "kind");
  artifactId ← requireIdentifier (jget value "artifactId") "artifact reference ID";
  revision ← requirePositiveInteger (jget value "revision") "artifact reference revision";
  contentHash ← requireHash (jget value "contentHash") "artifact reference contentHash";
  mret (mkRef artifactId revision kind contentHash).

(** [`${parent.relation}:${researchArtifactKey(artifact)}`]. *)
Definition parent_identity (p : artifact_parent) : string :=
  relation_name (p_relation p) +:+ ":" +:+ refKey (p_artifact p).

(** One turn of the [map] callback, with the [seen] set it closes over. *)
Definition normalizeParent (seen : list string) (parent : jsval) :
    result (list string * artifact_parent) :=
  _ ← ensure (is_object parent) (TypeError "Artifact parents must be objects.");
  relation ← assertRelation (jget parent "relation");
  artifact ← normalizeRef (jget parent "artifact");
  let p := mkParent relation artifact in
  _ ← ensure (bool_decide (parent_identity p ∉ seen))
        (TypeError ("Artifact parent " +:+ parent_identity p +:+ " is duplicated."));
  mret (parent_identity p :: seen, p).

Fixpoint normalizeParents (seen : list string) (value : list jsval) :
    result (list artifact_parent) :=
  match value with
  | [] => Ok []
  | parent :: value =>
      r ← normalizeParent seen parent;
      parents ← normalizeParents r.1 value;
      mret (r.2 :: parents)
  end.

Definition normalizeSource `{Host} (source : jsval) : result artifact_source :=
  _ ← ensure (is_object source) (TypeError "Artifact sources must be objects.");
  sourceId ← requireIdentifier (jget source "sourceId") "source.sourceId";
  recordId ← optional (λ v, requireText v "source.recordId") (jget source "recordId");
  locator ← optional (λ v, requireText v "source.locator") (jget source "locator");
  retrievedAt ← optional (λ v, requireIsoDate v "source.retrievedAt")
                  (jget source "retrievedAt");
  contentHash ← optional (λ v, requireHash v "source.contentHash")
                  (jget source "contentHash");
  mret (mkSource sourceId recordId locator retrievedAt contentHash).

Definition normalizeSources `{Host} (value : list jsval) : result (list artifact_source) :=
  mapM normalizeSource value.

Definition normalizeProducer (value : jsval) : result artifact_producer :=
  _ ← ensure (is_object value) (TypeError "Artifact producer kind is invalid.");
  kind ← of_option (TypeError "Artifact producer kind is invalid.")
           (parse_enum PRODUCER_KINDS producer_kind_name (jget value "kind"));
  id ← optional (λ v, requireText v "producer.id") (jget value "id");
  toolName ← optional (λ v, requireText v "producer.toolName") (jget value "toolName");
  mret (mkProducer kind id toolName).

(** ** [createResearchArtifact] *)

(** The object whose canonical text is hashed. *)
Definition content_json (artifactId : string) (revision : Z) (kind : artifact_kind)
    (parents : list artifact_parent) (sources : list artifact_source) (payload : jsval) :
    jsval :=
  JObj [("artifactId", JStr artifactId); ("revision", JNum (NInt revision));
        ("kind", JStr (kind_name kind)); ("parents", JArr (map parent_to_json parents));
        ("sources", JArr (map source_to_json sources)); ("payload", payload)].

Record CreateResearchArtifactInput := mkCreateInput {
  in_kind : artifact_kind;
  in_payload : jsval;
  in_producer : jsval;
  in_parents : jsval;
  in_sources : jsval;
  in_artifactId : jsval;
  in_revision : jsval;
  in_status : jsval;
}.

(** [value ?? fallback]. *)
Definition nullish_or (value fallback : jsval) : jsval :=
  if is_nullish value then fallback else value.

(** [value.map], on what the caller passed for an array. *)
Definition expect_array (value : jsval) : result (list jsval) :=
  match value with
  | JArr l => Ok l
  | _ => Throw (TypeError "value.map is not a function")
  end.

(** [now] is the time value of [input.now ?? new Date()] and [uuid] what
    [randomUUID()] returns. *)
Definition createResearchArtifact `{Host} (now : Z) (uuid : string)
    (input : CreateResearchArtifactInput) : result artifact_envelope :=
  artifactId ← requireIdentifier
    (nullish_or (in_artifactId input) (JStr (kind_name (in_kind input) +:+ "-" +:+ uuid)))
    "artifactId";
  revision ← requirePositiveInteger (nullish_or (in_revision input) (JNum (NInt 1))) "revision";
  rawParents ← expect_array (nullish_or (in_parents input) (JArr []));
  parents ← normalizeParents [] rawParents;
  rawSources ← expect_array (nullish_or (in_sources input) (JArr []));
  sources ← normalizeSources rawSources;
  status ← assertArtifactStatus (nullish_or (in_status input) (JStr "active"));
  producer ← normalizeProducer (in_producer input);
  contentHash ← hashResearchArtifactContent
    (content_json artifactId revision (in_kind input) parents sources (in_payload input));
  mret (mkEnvelope artifactId revision (in_kind input) status now now contentHash
          producer parents sources None (in_payload input)).

(** ** Well-formed records *)

Definition max_safe_integer : Z := 9007199254740991.

Definition wf_ref (r : artifact_ref) : Prop :=
  is_safe_identifier (ref_artifactId r) = true ∧
  (1 ≤ ref_revision r ≤ max_safe_integer)%Z ∧
  is_content_hash (ref_contentHash r) = true.

Definition wf_parents (ps : list artifact_parent) : Prop :=
  Forall (λ p, wf_ref (p_artifact p)) ps ∧ NoDup (parent_identity <$> ps).

Definition opt_all {A} (P : A → Prop) (o : option A) : Prop :=
  match o with Some a => P a | None => True end.

Definition wf_source `{Host} (s : artifact_source) : Prop :=
  is_safe_identifier (src_sourceId s) = true ∧
  opt_all (λ t, is_bounded_text 16000 t = true) (src_recordId s) ∧
  opt_all (λ t, is_bounded_text 16000 t = true) (src_locator s) ∧
  opt_all (λ t, is_Some (date_parse t)) (src_retrievedAt s) ∧
  opt_all (λ t, is_content_hash t = true) (src_contentHash s).

Definition wf_producer (p : artifact_producer) : Prop :=
  opt_all (λ t, is_bounded_text 16000 t = true) (prod_id p) ∧
  opt_all (λ t, is_bounded_text 16000 t = true) (prod_toolName p).

(** What [createResearchArtifact] guarantees of an envelope. *)
Definition wf_content `{Host} (a : artifact_envelope) : Prop :=
  is_safe_identifier (a_artifactId a) = true ∧
  (1 ≤ a_revision a ≤ max_safe_integer)%Z ∧
  wf_parents (a_parents a) ∧
  Forall wf_source (a_sources a) ∧
  wf_producer (a_producer a) ∧
  hashResearchArtifactContent (content_json (a_artifactId a) (a_revision a) (a_kind a)
    (a_parents a) (a_sources a) (a_payload a)) = Ok (a_contentHash a).

(** ** Lemmas: enumerations *)

Lemma parse_enum_Some {A} (all : list A) name v a :
  parse_enum all name v = Some a → v = JStr (name a) ∧ a ∈ all.
Proof.
  destruct v; simpl; try done. intros Hf. apply List.find_some in Hf as [Hin Hn].
  apply bool_decide_eq_true in Hn as <-. split; [done|].
  by apply list_elem_of_In.
Qed.

Lemma parse_kind_name k : parse_enum RESEARCH_ARTIFACT_KINDS kind_name (JStr (kind_name k)) = Some k.
Proof. by destruct k. Qed.
Lemma parse_ref_kind_name k : parse_enum REF_KINDS ref_kind_name (JStr (ref_kind_name k)) = Some k.
Proof. by destruct k as [[]|]. Qed.
Lemma parse_status_name s : parse_enum ARTIFACT_STATUSES status_name (JStr (status_name s)) = Some s.
Proof. by destruct s. Qed.
Lemma parse_relation_name r :
  parse_enum ARTIFACT_RELATIONS relation_name (JStr (relation_name r)) = Some r.
Proof. by destruct r. Qed.
Lemma parse_producer_kind_name p :
  parse_enum PRODUCER_KINDS producer_kind_name (JStr (producer_kind_name p)) = Some p.
Proof. by destruct p. Qed.
Lemma parse_reason_name r :
  parse_enum INVALIDATION_REASONS reason_name (JStr (reason_name r)) = Some r.
Proof. by destruct r. Qed.

Create Rewrite HintDb enums.
#[export] Hint Rewrite parse_kind_name parse_ref_kind_name parse_status_name
  parse_relation_name parse_producer_kind_name parse_reason_name : enums.

Lemma ref_kind_name_inj k1 k2 : ref_kind_name k1 = ref_kind_name k2 → k1 = k2.
Proof.
  intros E. pose proof (parse_ref_kind_name k1) as H1.
  rewrite E, parse_ref_kind_name in H1. congruence.
Qed.

Lemma relation_name_inj r1 r2 : relation_name r1 = relation_name r2 → r1 = r2.
Proof.
  intros E. pose proof (parse_relation_name r1) as H1.
  rewrite E, parse_relation_name in H1. congruence.
Qed.

(** ** Lemmas: keys *)

Lemma identifier_chars s :
  is_safe_identifier s = true → str_forallb is_identifier_char s = true.
Proof.
  unfold is_safe_identifier. intros [Hs _]%andb_true_iff.
  destruct s as [|c s]; [done|]. apply andb_true_iff in Hs as [Hc Hs]. simpl.
  rewrite Hs, andb_true_r. unfold is_identifier_char. by rewrite Hc.
Qed.

Lemma str_forallb_no_char p c s :
  p c = false → str_forallb p s = true → str_has_char c s = false.
Proof.
  intros Hc. induction s as [|d s IH]; simpl; [done|].
  intros [Hd Hs]%andb_true_iff. rewrite IH by done.
  destruct (Ascii.eqb_spec c d) as [->|]; [congruence|done].
Qed.

Lemma identifier_no_char c s :
  is_identifier_char c = false → is_safe_identifier s = true → str_has_char c s = false.
Proof. intros Hc Hs. eapply str_forallb_no_char; [done|]. by apply identifier_chars. Qed.

(** Distinct revisions of artifacts with safe identifiers have distinct keys. *)
Lemma key_of_inj id1 id2 r1 r2 :
  is_safe_identifier id1 = true → is_safe_identifier id2 = true →
  key_of id1 r1 = key_of id2 r2 → id1 = id2 ∧ r1 = r2.
Proof.
  unfold key_of. intros H1 H2 Heq.
  apply (append_sep_inj "@"%char id1 id2) in Heq as [-> Heq].
  - split; [done|]. by apply (inj pretty).
  - by apply identifier_no_char.
  - by apply identifier_no_char.
Qed.

(** ** Lemmas: text *)

Lemma identifier_char_not_space c :
  is_identifier_char c = true → negb (is_js_space c) = true.
Proof. destruct c as [[] [] [] [] [] [] [] []]; vm_compute; congruence. Qed.

Lemma identifier_bounded_text s :
  is_safe_identifier s = true → is_bounded_text 16000 s = true.
Proof.
  intros Hs. unfold is_bounded_text. rewrite no_space_trim.
  - rewrite identifier_no_char by done.
    rewrite String.eqb_refl. simpl. rewrite andb_true_r.
    unfold is_safe_identifier in Hs. apply andb_true_iff in Hs as [Hs Hl].
    apply andb_true_iff. split; [by destruct s|].
    apply Nat.leb_le in Hl. apply Z.leb_le. lia.
  - eapply str_forallb_weaken; [apply identifier_char_not_space|]. by apply identifier_chars.
Qed.

Lemma requireText_intro s label :
  is_bounded_text 16000 s = true → requireText (JStr s) label = Ok s.
Proof. intros Hs. unfold requireText. by rewrite Hs. Qed.

Lemma requireText_Ok v label s :
  requireText v label = Ok s → v = JStr s ∧ is_bounded_text 16000 s = true.
Proof.
  destruct v as [| | | |t| | |]; simpl; try done. destruct (is_bounded_text 16000 t) eqn:E; [|done].
  by intros [= <-].
Qed.

Lemma requireIdentifier_intro s label :
  is_safe_identifier s = true → requireIdentifier (JStr s) label = Ok s.
Proof.
  intros Hs. unfold requireIdentifier.
  rewrite requireText_intro by (by apply identifier_bounded_text). simpl. by rewrite Hs.
Qed.

Lemma requireIdentifier_Ok v label s :
  requireIdentifier v label = Ok s → v = JStr s ∧ is_safe_identifier s = true.
Proof.
  unfold requireIdentifier. intros Hrun. inv_result.
  by apply requireText_Ok in Hr as [-> _].
Qed.

Lemma requirePositiveInteger_intro z label :
  (1 ≤ z ≤ max_safe_integer)%Z → requirePositiveInteger (JNum (NInt z)) label = Ok z.
Proof.
  unfold max_safe_integer. intros Hz. unfold requirePositiveInteger, as_safe_integer.
  rewrite (proj2 (Z.leb_le _ _)) by lia. by rewrite (proj2 (Z.ltb_ge _ _)) by lia.
Qed.

Lemma requirePositiveInteger_Ok v label z :
  requirePositiveInteger v label = Ok z →
  v = JNum (NInt z) ∧ (1 ≤ z ≤ max_safe_integer)%Z.
Proof.
  unfold requirePositiveInteger, as_safe_integer, max_safe_integer.
  destruct v as [| | |[z'| | | |]| | | |]; try done.
  destruct (Z.leb_spec (Z.abs z') 9007199254740991); [|done].
  destruct (Z.ltb_spec z' 1); [done|]. intros [= <-]. split; [done|lia].
Qed.

Lemma requireHash_intro s label : is_content_hash s = true → requireHash (JStr s) label = Ok s.
Proof. intros Hs. unfold requireHash. by rewrite Hs. Qed.

Lemma requireHash_Ok v label s :
  requireHash v label = Ok s → v = JStr s ∧ is_content_hash s = true.
Proof.
  destruct v as [| | | |t| | |]; simpl; try done. destruct (is_content_hash t) eqn:E; [|done].
  by intros [= <-].
Qed.

(** ** Lemmas: reading back the JSON images *)

Lemma normalizeRef_to_json r : wf_ref r → normalizeRef (ref_to_json r) = Ok r.
Proof.
  intros (Hid & Hrev & Hh). destruct r as [id rev k h]. simpl in *.
  unfold normalizeRef. simpl. unfold assertRefKind. rewrite parse_ref_kind_name. simpl.
  rewrite requireIdentifier_intro by done. simpl.
  rewrite requirePositiveInteger_intro by done. simpl.
  unfold is_content_hash in *. by rewrite Hh.
Qed.

Lemma normalizeRef_Ok v r : normalizeRef v = Ok r → wf_ref r.
Proof.
  unfold normalizeRef. intros Hrun. inv_result.
  apply requireIdentifier_Ok in Hr1 as [_ ?].
  apply requirePositiveInteger_Ok in Hr2 as [_ ?].
  apply requireHash_Ok in Hr3 as [_ ?]. done.
Qed.

Lemma normalizeParent_to_json seen p :
  wf_ref (p_artifact p) → parent_identity p ∉ seen →
  normalizeParent seen (parent_to_json p) = Ok (parent_identity p :: seen, p).
Proof.
  intros Hwf Hseen. destruct p as [rel r]. unfold normalizeParent.
  change (jget (parent_to_json (mkParent rel r)) "relation") with (JStr (relation_name rel)).
  change (jget (parent_to_json (mkParent rel r)) "artifact") with (ref_to_json r).
  unfold assertRelation. rewrite parse_relation_name. simpl.
  rewrite normalizeRef_to_json by done. simpl.
  by rewrite bool_decide_eq_true_2.
Qed.

Lemma normalizeParents_to_json ps : ∀ seen,
  wf_parents ps → (∀ p, p ∈ ps → parent_identity p ∉ seen) →
  normalizeParents seen (map parent_to_json ps) = Ok ps.
Proof.
  induction ps as [|p ps IH]; intros seen [Hwf Hnd] Hseen; [done|].
  cbn [map normalizeParents]. rewrite fmap_cons in Hnd.
  apply Forall_cons in Hwf as [Hp Hps]. apply NoDup_cons in Hnd as [Hnin Hnd].
  rewrite normalizeParent_to_json; [|done|apply Hseen; by left]. simpl.
  rewrite IH; [done | by split |].
  intros q Hq [Heq|Hin]%elem_of_cons.
  - apply Hnin. rewrite <- Heq. by apply list_elem_of_fmap_2.
  - eapply Hseen; [|done]. by right.
Qed.

Lemma normalizeParents_Ok l : ∀ seen ps,
  normalizeParents seen l = Ok ps →
  wf_parents ps ∧ (∀ p, p ∈ ps → parent_identity p ∉ seen).
Proof.
  induction l as [|v l IH]; intros seen ps; simpl.
  { intros [= <-]. split; [by split; constructor|]. by intros p ?%elem_of_nil. }
  intros Hrun. inv_result. destruct r as [seen' p]. simpl in *.
  unfold normalizeParent in Hr. inv_result.
  apply bool_decide_eq_true in Hr4.
  apply IH in Hr0 as [[Hwf Hnd] Hseen]. split.
  - split; [constructor; [by eapply normalizeRef_Ok|done]|].
    rewrite fmap_cons. constructor; [|done].
    intros (q & Heq & Hq)%list_elem_of_fmap. apply (Hseen q Hq). rewrite <- Heq. by left.
  - intros q [->|Hq]%elem_of_cons; [done|].
    intros Hin. apply (Hseen q Hq). by right.
Qed.

Lemma optional_some {A} (f : jsval → result A) v a :
  is_undefined v = false → f v = Ok a → optional f v = Ok (Some a).
Proof. intros Hv Hf. unfold optional. rewrite Hv, Hf. done. Qed.

Lemma optional_Ok {A} (P : A → Prop) (f : jsval → result A) v o :
  (∀ a, f v = Ok a → P a) → optional f v = Ok o → opt_all P o.
Proof.
  unfold optional. intros Hf. destruct (is_undefined v); [by intros [= <-]|].
  intros Hrun. inv_result. simpl. auto.
Qed.

Lemma optional_field {A} (f : jsval → result A) (inj : A → jsval) (o : option A) :
  (∀ a, is_undefined (inj a) = false) →
  opt_all (λ a, f (inj a) = Ok a) o →
  optional f (default JUndefined (inj <$> o)) = Ok o.
Proof.
  intros Hinj. destruct o as [a|]; simpl; [|done]. intros Ha.
  by apply optional_some.
Qed.

Lemma opt_all_impl {A} (P Q : A → Prop) o :
  (∀ a, P a → Q a) → opt_all P o → opt_all Q o.
Proof. destruct o; simpl; auto. Qed.

Section WithHost.
Context `{Host}.

Lemma requireIsoDate_intro s label : is_Some (date_parse s) → requireIsoDate (JStr s) label = Ok s.
Proof. intros [t Ht]. unfold requireIsoDate. by rewrite Ht. Qed.

Lemma requireIsoDate_Ok v label s :
  requireIsoDate v label = Ok s → v = JStr s ∧ is_Some (date_parse s).
Proof.
  destruct v as [| | | |t| | |]; simpl; try done.
  destruct (date_parse t) eqn:E; [|done]. intros [= <-]. split; [done|]. by rewrite E.
Qed.

Lemma source_to_json_get s :
  jget (source_to_json s) "recordId" = default JUndefined (JStr <$> src_recordId s) ∧
  jget (source_to_json s) "locator" = default JUndefined (JStr <$> src_locator s) ∧
  jget (source_to_json s) "retrievedAt" = default JUndefined (JStr <$> src_retrievedAt s) ∧
  jget (source_to_json s) "contentHash" = default JUndefined (JStr <$> src_contentHash s).
Proof. destruct s as [? [] [] [] []]; done. Qed.

Lemma normalizeSource_to_json s : wf_source s → normalizeSource (source_to_json s) = Ok s.
Proof.
  intros (Hid & Hr & Hl & Ht & Hh). unfold normalizeSource.
  destruct (source_to_json_get s) as (-> & -> & -> & ->).
  change (is_object (source_to_json s)) with true.
  change (jget (source_to_json s) "sourceId") with (JStr (src_sourceId s)). simpl.
  rewrite requireIdentifier_intro by done. simpl.
  rewrite !optional_field; try done; [by destruct s|..].
  all: eapply opt_all_impl; [|eassumption]; intros.
  all: by (apply requireText_intro || apply requireIsoDate_intro || apply requireHash_intro).
Qed.

Lemma normalizeSource_Ok v s : normalizeSource v = Ok s → wf_source s.
Proof.
  unfold normalizeSource. intros Hrun. inv_result. split_and!; simpl.
  - by apply requireIdentifier_Ok in Hr0 as [_ ?].
  - eapply optional_Ok; [|exact Hr1]. by intros a [_ ?]%requireText_Ok.
  - eapply optional_Ok; [|exact Hr2]. by intros a [_ ?]%requireText_Ok.
  - eapply optional_Ok; [|exact Hr3]. by intros a [_ ?]%requireIsoDate_Ok.
  - eapply optional_Ok; [|exact Hr4]. by intros a [_ ?]%requireHash_Ok.
Qed.

Lemma normalizeSources_to_json ss :
  Forall wf_source ss → normalizeSources (map source_to_json ss) = Ok ss.
Proof.
  intros Hss. apply mapM_Ok. apply Forall2_fmap_l, Forall_Forall2_diag.
  eapply Forall_impl; [exact Hss|]. intros s. apply normalizeSource_to_json.
Qed.

Lemma normalizeSources_Ok l ss : normalizeSources l = Ok ss → Forall wf_source ss.
Proof.
  intros Hrun%mapM_Ok. induction Hrun; constructor; [|done].
  by eapply normalizeSource_Ok.
Qed.

Lemma normalizeProducer_to_json p :
  wf_producer p → normalizeProducer (producer_to_json p) = Ok p.
Proof.
  intros [Hid Htn]. unfold normalizeProducer.
  assert (jget (producer_to_json p) "id" = default JUndefined (JStr <$> prod_id p)) as ->
  by (by destruct p as [? [] []]).
  assert (jget (producer_to_json p) "toolName" = default JUndefined (JStr <$> prod_toolName p))
  as -> by (by destruct p as [? [] []]).
  change (is_object (producer_to_json p)) with true.
  change (jget (producer_to_json p) "kind") with (JStr (producer_kind_name (prod_kind p))).
  rewrite ensure_true, parse_producer_kind_name. cbn [of_option mbind result_bind].
  rewrite !optional_field; try done; [by destruct p|..].
  all: eapply opt_all_impl; [|eassumption]; intros; by apply requireText_intro.
Qed.

Lemma normalizeProducer_Ok v p : normalizeProducer v = Ok p → wf_producer p.
Proof.
  unfold normalizeProducer. intros Hrun. inv_result. split; simpl.
  - eapply optional_Ok; [|exact Hr1]. by intros a [_ ?]%requireText_Ok.
  - eapply optional_Ok; [|exact Hr2]. by intros a [_ ?]%requireText_Ok.
Qed.

(** Every envelope the constructor returns is well formed and carries the
    hash of its own content. *)
Lemma createResearchArtifact_Ok now uuid input a :
  createResearchArtifact now uuid input = Ok a →
  wf_content a ∧ a_kind a = in_kind input ∧ a_payload a = in_payload input ∧
  a_createdAt a = now ∧ a_updatedAt a = now ∧ a_invalidation a = None.
Proof.
  unfold createResearchArtifact. intros Hrun. inv_result. simpl.
  apply requireIdentifier_Ok in Hr as [_ Hid].
  apply requirePositiveInteger_Ok in Hr0 as [_ Hrev].
  apply normalizeParents_Ok in Hr2 as [Hps _].
  apply normalizeSources_Ok in Hr4. apply normalizeProducer_Ok in Hr6. done.
Qed.

(** Rebuilding an envelope from its own fields gives it back. *)
Lemma createResearchArtifact_rebuild uuid a :
  wf_content a →
  createResearchArtifact (a_createdAt a) uuid
  (mkCreateInput (a_kind a) (a_payload a) (producer_to_json (a_producer a))
     (JArr (map parent_to_json (a_parents a))) (JArr (map source_to_json (a_sources a)))
     (JStr (a_artifactId a)) (JNum (NInt (a_revision a)))
     (JStr (status_name (a_status a)))) =
  Ok (mkEnvelope (a_artifactId a) (a_revision a) (a_kind a) (a_status a) (a_createdAt a)
      (a_createdAt a) (a_contentHash a) (a_producer a) (a_parents a) (a_sources a) None
      (a_payload a)).
Proof.
  intros (Hid & Hrev & Hps & Hss & Hp & Hh). unfold createResearchArtifact.
  cbn [in_kind in_payload in_producer in_parents in_sources in_artifactId in_revision
  in_status nullish_or is_nullish].
  rewrite requireIdentifier_intro by done. cbn [mbind result_bind].
  rewrite requirePositiveInteger_intro by done. cbn [mbind result_bind expect_array].
  rewrite normalizeParents_to_json by (done || by intros p _ ?%elem_of_nil).
  cbn [mbind result_bind]. rewrite normalizeSources_to_json by done.
  cbn [mbind result_bind]. unfold assertArtifactStatus. rewrite parse_status_name.
  cbn [mbind result_bind of_option]. rewrite normalizeProducer_to_json by done.
  cbn [mbind result_bind]. rewrite Hh. done.
Qed.
End WithHost.
