(* ===== verification/Samples.v ===== *)
(** * Sample envelopes

    A small artifact history under the concrete host of Host.v: an evidence
    pack, a research brief that uses it, a method specification derived from
    the brief and a second revision of the evidence pack.  The witnesses of
    the artifact theorems are evaluated on it. *)

From S2P Require Import Prelude Host JsValue ArtifactTypes.

Definition sample_producer : jsval := JObj [("kind", JStr "agent"); ("id", JStr "writer")].

Definition sample_input (kind : artifact_kind) (id : string) (revision : Z)
    (parents : list artifact_parent) (payload : jsval) : CreateResearchArtifactInput :=
  mkCreateInput kind payload sample_producer (JArr (map parent_to_json parents))
    (JArr [JObj [("sourceId", JStr "crossref"); ("recordId", JStr "W1")]])
    (JStr id) (JNum (NInt revision)) JUndefined.

Definition blank_envelope : artifact_envelope :=
  mkEnvelope "" 0 Finding Archived 0 0 "" (mkProducer ProducerTool None None) [] [] None JNull.

(** The envelope the constructor returns for the input. *)
Definition sample (now : Z) (input : CreateResearchArtifactInput) : artifact_envelope :=
  match createResearchArtifact now "u" input with Ok a => a | Throw _ => blank_envelope end.

Definition sample_evidence : artifact_envelope := Eval vm_compute in
  sample 1000 (sample_input EvidencePack "ev" 1 [] (JObj [("n", JNum (NInt 3))])).

Definition sample_brief : artifact_envelope := Eval vm_compute in
  sample 2000 (sample_input ResearchBrief "br" 1
    [mkParent Uses (toResearchArtifactRef sample_evidence)] (JStr "brief")).

Definition sample_method : artifact_envelope := Eval vm_compute in
  sample 3000 (sample_input MethodSpec "ms" 1
    [mkParent DerivedFrom (toResearchArtifactRef sample_brief)] (JArr [JBool true; JNull])).

Definition sample_evidence_2 : artifact_envelope := Eval vm_compute in
  sample 4000 (sample_input EvidencePack "ev" 2
    [mkParent Supersedes (toResearchArtifactRef sample_evidence)] (JObj [("n", JNum (NInt 4))])).

Definition sample_artifacts : list artifact_envelope :=
  [sample_evidence; sample_brief; sample_method].

Example sample_evidence_ok :
  createResearchArtifact 1000 "u"
    (sample_input EvidencePack "ev" 1 [] (JObj [("n", JNum (NInt 3))])) = Ok sample_evidence.
Proof. vm_compute. reflexivity. Qed.

Example sample_method_ok :
  createResearchArtifact 3000 "u"
    (sample_input MethodSpec "ms" 1
      [mkParent DerivedFrom (toResearchArtifactRef sample_brief)]
      (JArr [JBool true; JNull])) = Ok sample_method.
Proof. vm_compute. reflexivity. Qed.
