(* ===== verification/ArtifactGraph.v ===== *)
(** * The artifact dependency graph

    src/src/research/artifacts/graph.ts: the child maps built from the
    parents of a set of envelopes, the cycle check, the invalidation of the
    causal descendants of changed artifacts and the selection of the latest
    revisions. *)

From S2P Require Import Prelude Host JsValue Digraph ArtifactTypes Samples.

(** ** Data *)

Record artifact_graph := mkGraph {
  g_artifacts : jmap artifact_envelope;
  g_children : gmap string (list string);
  g_invalidationChildren : gmap string (list string);
  g_roots : list string;
  g_missingParents : list artifact_ref;
}.

(** [map.get(key) ?? []]. *)
Definition children_of (m : gmap string (list string)) (key : string) : list string :=
  default [] (m !! key).

Definition keys_of (artifacts : list artifact_envelope) : list string :=
  researchArtifactKey <$> artifacts.

Section Graph.
Context `{Host}.

(** ** [buildResearchArtifactGraph] *)

(** First loop: index the envelopes, refuse a duplicated key. *)
Definition index_artifact (byKey : jmap artifact_envelope) (artifact : artifact_envelope) :
  result (jmap artifact_envelope) :=
  let key := researchArtifactKey artifact in
  _ ← ensure (negb (jm_has key byKey))
      (TypeError ("Research artifact " +:+ key +:+ " is duplicated."));
  mret (jm_set key artifact byKey).

(** The maps the second loop fills: children, causal children, missing. *)
Record link_state := mkLinks {
  l_children : gmap string (list string);
  l_invalidationChildren : gmap string (list string);
  l_missing : jmap artifact_ref;
}.

Definition push (key child : string) (m : gmap string (list string)) :
  gmap string (list string) :=
  alter (λ l, l ++ [child]) key m.

(** [target.kind !== parent.artifact.kind || target.contentHash !== ...], negated. *)
Definition ref_matches (target : artifact_envelope) (ref : artifact_ref) : bool :=
  bool_decide (ArtifactRef (a_kind target) = ref_kind_of ref)
  && bool_decide (a_contentHash target = ref_contentHash ref).

Definition link_parent (byKey : jmap artifact_envelope) (st : link_state)
  (link : string * artifact_parent) : result link_state :=
  let '(childKey, parent) := link in
  if decide (ref_kind_of (p_artifact parent) = ClaimRef) then Ok st
  else
  let parentKey := refKey (p_artifact parent) in
  match jm_get parentKey byKey with
  | None => Ok (mkLinks (l_children st) (l_invalidationChildren st)
                  (jm_set parentKey (p_artifact parent) (l_missing st)))
  | Some target =>
      _ ← ensure (ref_matches target (p_artifact parent))
            (TypeError ("Research artifact parent " +:+ parentKey +:+
               " does not match its referenced kind or content hash."));
      mret (mkLinks (push parentKey childKey (l_children st))
              (if decide (p_relation parent = Supersedes) then l_invalidationChildren st
               else push parentKey childKey (l_invalidationChildren st))
              (l_missing st))
  end.

Definition link_artifact (byKey : jmap artifact_envelope) (st : link_state)
  (artifact : artifact_envelope) : result link_state :=
  foldM (λ st parent, link_parent byKey st (researchArtifactKey artifact, parent))
  st (a_parents artifact).

Definition empty_children (byKey : jmap artifact_envelope) : gmap string (list string) :=
  list_to_map ((λ key, (key, [])) <$> jm_keys byKey).

Definition cycle_error (key : string) : js_error :=
  TypeError ("Research artifact graph contains a cycle at " +:+ key +:+ ".").

Definition assertAcyclic (byKey : jmap artifact_envelope)
  (children : gmap string (list string)) : result (gset string) :=
  assert_acyclic (children_of children) cycle_error (S (length byKey))
  (js_sort compareText (jm_keys byKey)).

Definition compareRefKeys (left right : artifact_ref) : comparison :=
  compareText (refKey left) (refKey right).

(** [(byKey.get(key)?.parents.length ?? 0) === 0]. *)
Definition is_root (byKey : jmap artifact_envelope) (key : string) : bool :=
  match jm_get key byKey with
  | Some a => (length (a_parents a) =? 0)%nat
  | None => true
  end.

Definition buildResearchArtifactGraph (artifacts : list artifact_envelope) :
  result artifact_graph :=
  byKey ← foldM index_artifact [] artifacts;
  links ← foldM (link_artifact byKey)
          (mkLinks (empty_children byKey) (empty_children byKey) []) artifacts;
  let children := js_sort compareText <$> l_children links in
  let invalidationChildren := js_sort compareText <$> l_invalidationChildren links in
  _ ← assertAcyclic byKey children;
  let roots := js_sort compareText
  (filter (λ key, is_root byKey key = true) (jm_keys byKey)) in
  mret (mkGraph byKey children invalidationChildren roots
        (js_sort compareRefKeys (jm_values (l_missing links)))).

(** ** [invalidateResearchArtifactDescendants] *)

(** The keys the work-list loop adds to [staleKeys]. *)
Definition stale_keys (graph : artifact_graph) (changed : list string) : gset string :=
  (bfs (children_of (g_invalidationChildren graph)) (λ _ u, u)
   (length changed + length (g_artifacts graph)) changed (list_to_set changed) tt).1
  ∖ list_to_set changed.

Definition mark_stale (now : Z) (reason : invalidation_reason) (roots : list artifact_ref)
  (a : artifact_envelope) : artifact_envelope :=
  mkEnvelope (a_artifactId a) (a_revision a) (a_kind a) Stale (a_createdAt a) now
  (a_contentHash a) (a_producer a) (a_parents a) (a_sources a)
  (Some (mkInvalidation now reason roots)) (a_payload a).

Definition invalidateResearchArtifactDescendants (artifacts : list artifact_envelope)
  (roots : list artifact_ref) (reason : invalidation_reason) (now : Z) :
  result (list artifact_envelope) :=
  graph ← buildResearchArtifactGraph artifacts;
  let stale := stale_keys graph (dedup (refKey <$> roots)) in
  if decide (stale = ∅) then Ok artifacts
  else Ok ((λ a, if decide (researchArtifactKey a ∉ stale ∨ a_status a ≠ Active) then a
               else mark_stale now reason roots a) <$> artifacts).

(** ** [latestResearchArtifactRevisions] *)

Definition keep_latest (latest : jmap artifact_envelope) (artifact : artifact_envelope) :
  jmap artifact_envelope :=
  match jm_get (a_artifactId artifact) latest with
  | Some existing =>
    if (a_revision existing <? a_revision artifact)%Z
    then jm_set (a_artifactId artifact) artifact latest else latest
  | None => jm_set (a_artifactId artifact) artifact latest
  end.

Definition latestResearchArtifactRevisions (artifacts : list artifact_envelope) :
  list artifact_envelope :=
  js_sort (cmp_on a_artifactId compareText)
  (jm_values (foldl keep_latest [] artifacts)).
End Graph.

(** ** The dependency relations of a set of envelopes *)

(** [p] refers to the stored envelope with key [k]. *)
Definition resolves (artifacts : list artifact_envelope) (p : artifact_parent) (k : string) : Prop :=
  ref_kind_of (p_artifact p) ≠ ClaimRef ∧ refKey (p_artifact p) = k ∧ k ∈ keys_of artifacts.

Definition parent_edge (artifacts : list artifact_envelope) (k c : string) : Prop :=
  ∃ a p, a ∈ artifacts ∧ researchArtifactKey a = c ∧ p ∈ a_parents a ∧ resolves artifacts p k.

(** Revision lineage ([supersedes]) is not a causal dependency. *)
Definition causal_edge (artifacts : list artifact_envelope) (k c : string) : Prop :=
  ∃ a p, a ∈ artifacts ∧ researchArtifactKey a = c ∧ p ∈ a_parents a ∧
    p_relation p ≠ Supersedes ∧ resolves artifacts p k.

(** Every reference to a stored envelope carries its kind and hash. *)
Definition links_consistent (artifacts : list artifact_envelope) : Prop :=
  ∀ a p t, a ∈ artifacts → p ∈ a_parents a → ref_kind_of (p_artifact p) ≠ ClaimRef →
    t ∈ artifacts → researchArtifactKey t = refKey (p_artifact p) →
    ref_matches t (p_artifact p) = true.

Definition acyclic (artifacts : list artifact_envelope) : Prop :=
  ∀ k, ¬ tc (parent_edge artifacts) k k.

(** Every reference to an artifact is to a stored one. *)
Definition closed_references (artifacts : list artifact_envelope) : Prop :=
  ∀ a p, a ∈ artifacts → p ∈ a_parents a → ref_kind_of (p_artifact p) ≠ ClaimRef →
    refKey (p_artifact p) ∈ keys_of artifacts.

(** ** Lemmas: the two loops *)

Definition by_key (artifacts : list artifact_envelope) : jmap artifact_envelope :=
  (λ a, (researchArtifactKey a, a)) <$> artifacts.

Lemma jm_keys_by_key artifacts : jm_keys (by_key artifacts) = keys_of artifacts.
Proof. unfold jm_keys, by_key, keys_of. by rewrite <- list_fmap_compose. Qed.

Lemma jm_get_by_key artifacts k a :
  jm_get k (by_key artifacts) = Some a → a ∈ artifacts ∧ researchArtifactKey a = k.
Proof.
  intros Hg%jm_get_elem. unfold by_key in Hg.
  apply list_elem_of_fmap in Hg as (b & [= -> ->] & Hb). done.
Qed.

Lemma jm_get_by_key_NoDup artifacts a :
  NoDup (keys_of artifacts) → a ∈ artifacts →
  jm_get (researchArtifactKey a) (by_key artifacts) = Some a.
Proof.
  intros Hnd Ha. apply jm_elem_get; [by rewrite jm_keys_by_key|].
  apply list_elem_of_fmap. eauto.
Qed.

Lemma jm_get_by_key_is_Some artifacts k :
  is_Some (jm_get k (by_key artifacts)) ↔ k ∈ keys_of artifacts.
Proof. rewrite <- elem_of_jm_keys. by rewrite jm_keys_by_key. Qed.

Lemma index_loop artifacts : ∀ m,
  NoDup (jm_keys m) →
  (∀ byKey, foldM index_artifact m artifacts = Ok byKey →
     NoDup (jm_keys m ++ keys_of artifacts) ∧ byKey = m ++ by_key artifacts) ∧
  (NoDup (jm_keys m ++ keys_of artifacts) →
     foldM index_artifact m artifacts = Ok (m ++ by_key artifacts)).
Proof.
  unfold by_key, keys_of.
  induction artifacts as [|a l IH]; intros m Hnd; csimpl.
  { rewrite !app_nil_r. split; [by intros byKey [= <-]|done]. }
  assert (index_artifact m a =
    if jm_get (researchArtifactKey a) m is Some _
    then Throw (TypeError ("Research artifact " +:+ researchArtifactKey a +:+ " is duplicated."))
    else Ok (jm_set (researchArtifactKey a) a m)) as ->.
  { unfold index_artifact, jm_has. by destruct (jm_get _ m). }
  destruct (jm_get (researchArtifactKey a) m) as [b|] eqn:E; simpl.
  - split; [done|]. intros Hnd'. exfalso.
    apply NoDup_app in Hnd' as (_ & Hdis & _).
    eapply (Hdis (researchArtifactKey a)); [|by left].
    apply elem_of_jm_keys. eauto.
  - rewrite jm_keys_set_fresh by done.
    assert (jm_keys (m ++ [(researchArtifactKey a, a)]) = jm_keys m ++ [researchArtifactKey a])
      as Hk by (unfold jm_keys; by rewrite fmap_app).
    destruct (IH (m ++ [(researchArtifactKey a, a)])) as [IH1 IH2].
    { rewrite <- jm_keys_set_fresh by done. by apply jm_keys_set_NoDup. }
    rewrite Hk, <- !app_assoc in *. simpl in *. by split.
Qed.

Lemma index_artifacts_Ok artifacts byKey :
  foldM index_artifact [] artifacts = Ok byKey →
  NoDup (keys_of artifacts) ∧ byKey = by_key artifacts.
Proof. apply (index_loop artifacts []). constructor. Qed.

Lemma index_artifacts_total artifacts :
  NoDup (keys_of artifacts) → foldM index_artifact [] artifacts = Ok (by_key artifacts).
Proof. apply (index_loop artifacts []). constructor. Qed.

(** All the (child, parent) pairs, in the order the nested loops meet them. *)
Definition parent_links (artifacts : list artifact_envelope) : list (string * artifact_parent) :=
  concat ((λ a, (λ p, (researchArtifactKey a, p)) <$> a_parents a) <$> artifacts).

Lemma elem_of_parent_links artifacts c p :
  (c, p) ∈ parent_links artifacts ↔
  ∃ a, a ∈ artifacts ∧ researchArtifactKey a = c ∧ p ∈ a_parents a.
Proof.
  unfold parent_links. rewrite list_elem_of_In, in_concat. split.
  - intros (l & Hl & Hin). apply list_elem_of_In in Hl, Hin.
    apply list_elem_of_fmap in Hl as (a & -> & Ha).
    apply list_elem_of_fmap in Hin as (q & [= -> ->] & Hq). eauto.
  - intros (a & Ha & <- & Hp). exists ((λ p, (researchArtifactKey a, p)) <$> a_parents a).
    split; apply list_elem_of_In; apply list_elem_of_fmap; eauto.
Qed.

Lemma link_artifacts_flat byKey st artifacts :
  foldM (link_artifact byKey) st artifacts = foldM (link_parent byKey) st (parent_links artifacts).
Proof.
  unfold parent_links. rewrite <- foldM_nested. apply foldM_ext. intros s a.
  by rewrite foldM_fmap.
Qed.

Lemma elem_of_push key child m k c :
  is_Some (m !! key) →
  c ∈ children_of (push key child m) k ↔ c ∈ children_of m k ∨ (k = key ∧ c = child).
Proof.
  intros [l Hl]. unfold children_of, push. rewrite lookup_alter. case_decide as Hk.
  - subst. rewrite Hl. simpl. rewrite elem_of_app, list_elem_of_singleton. naive_solver.
  - naive_solver.
Qed.

Lemma push_dom key child m k : is_Some (push key child m !! k) ↔ is_Some (m !! k).
Proof. unfold push. rewrite lookup_alter. case_decide; subst; [by rewrite fmap_is_Some|done]. Qed.

(** A link that the loop records as an edge. *)
Definition link_edge (byKey : jmap artifact_envelope) (p : artifact_parent) (k : string) : Prop :=
  ref_kind_of (p_artifact p) ≠ ClaimRef ∧ refKey (p_artifact p) = k ∧ is_Some (jm_get k byKey).

Definition link_ok (byKey : jmap artifact_envelope) (p : artifact_parent) : Prop :=
  ref_kind_of (p_artifact p) ≠ ClaimRef →
  ∀ t, jm_get (refKey (p_artifact p)) byKey = Some t → ref_matches t (p_artifact p) = true.

(** What the three maps hold after the links [done] were processed. *)
Definition links_inv (byKey : jmap artifact_envelope) (done : list (string * artifact_parent))
    (st : link_state) : Prop :=
  (∀ k, is_Some (jm_get k byKey) →
     is_Some (l_children st !! k) ∧ is_Some (l_invalidationChildren st !! k)) ∧
  (∀ k c, c ∈ children_of (l_children st) k ↔ ∃ p, (c, p) ∈ done ∧ link_edge byKey p k) ∧
  (∀ k c, c ∈ children_of (l_invalidationChildren st) k ↔
     ∃ p, (c, p) ∈ done ∧ p_relation p ≠ Supersedes ∧ link_edge byKey p k) ∧
  (∀ k, k ∈ jm_keys (l_missing st) ↔
     ∃ c p, (c, p) ∈ done ∧ ref_kind_of (p_artifact p) ≠ ClaimRef ∧
       refKey (p_artifact p) = k ∧ jm_get k byKey = None).

Lemma exists_link_snoc (done : list (string * artifact_parent)) child p c
    (Q : artifact_parent → Prop) :
  (∃ q, (c, q) ∈ done ++ [(child, p)] ∧ Q q) ↔
  (∃ q, (c, q) ∈ done ∧ Q q) ∨ (c = child ∧ Q p).
Proof. setoid_rewrite elem_of_app. setoid_rewrite list_elem_of_singleton. naive_solver. Qed.

Lemma exists_link_snoc_any (done : list (string * artifact_parent)) child p
    (Q : artifact_parent → Prop) :
  (∃ c q, (c, q) ∈ done ++ [(child, p)] ∧ Q q) ↔ (∃ c q, (c, q) ∈ done ∧ Q q) ∨ Q p.
Proof. setoid_rewrite exists_link_snoc. naive_solver. Qed.

Lemma links_inv_claim byKey done st child p :
  ref_kind_of (p_artifact p) = ClaimRef →
  links_inv byKey done st → links_inv byKey (done ++ [(child, p)]) st.
Proof.
  intros Hc (Hdom & Hch & Hinv & Hmiss).
  assert (∀ k, ¬ link_edge byKey p k) as Hno by (by intros k (? & _)).
  split_and!; [done|..].
  - intros k c. rewrite Hch, exists_link_snoc. specialize (Hno k). tauto.
  - intros k c. rewrite Hinv, exists_link_snoc. specialize (Hno k). tauto.
  - intros k. rewrite Hmiss, exists_link_snoc_any. tauto.
Qed.

Lemma links_inv_missing byKey done st child p :
  ref_kind_of (p_artifact p) ≠ ClaimRef →
  jm_get (refKey (p_artifact p)) byKey = None →
  links_inv byKey done st →
  links_inv byKey (done ++ [(child, p)])
    (mkLinks (l_children st) (l_invalidationChildren st)
       (jm_set (refKey (p_artifact p)) (p_artifact p) (l_missing st))).
Proof.
  intros Hc Hnone (Hdom & Hch & Hinv & Hmiss).
  assert (∀ k, ¬ link_edge byKey p k) as Hno.
  { intros k (_ & <- & [t Ht]). congruence. }
  split_and!; simpl; [done|..].
  - intros k c. rewrite Hch, exists_link_snoc. specialize (Hno k). tauto.
  - intros k c. rewrite Hinv, exists_link_snoc. specialize (Hno k). tauto.
  - intros k. rewrite elem_of_jm_keys, jm_get_set, exists_link_snoc_any.
    case_decide as Hk.
    + subst. split; [by right|]. by eauto.
    + rewrite <- elem_of_jm_keys, Hmiss. split; [by left|].
      intros [?|(_ & ? & _)]; [done|congruence].
Qed.

Lemma links_inv_push byKey done st child p t :
  ref_kind_of (p_artifact p) ≠ ClaimRef →
  jm_get (refKey (p_artifact p)) byKey = Some t →
  links_inv byKey done st →
  links_inv byKey (done ++ [(child, p)])
    (mkLinks (push (refKey (p_artifact p)) child (l_children st))
       (if decide (p_relation p = Supersedes) then l_invalidationChildren st
        else push (refKey (p_artifact p)) child (l_invalidationChildren st))
       (l_missing st)).
Proof.
  intros Hc Ht (Hdom & Hch & Hinv & Hmiss).
  assert (∀ k, link_edge byKey p k ↔ k = refKey (p_artifact p)) as Hedge.
  { intros k. unfold link_edge. split; [by intros (_ & -> & _)|]. intros ->. by rewrite Ht. }
  destruct (Hdom (refKey (p_artifact p))) as [Hd1 Hd2]; [by rewrite Ht|].
  split_and!; simpl.
  - intros k Hk. destruct (Hdom k Hk). split; [by apply push_dom|].
    case_decide; [done|by apply push_dom].
  - intros k c. rewrite elem_of_push, Hch, exists_link_snoc, Hedge by done. tauto.
  - intros k c. rewrite exists_link_snoc, Hedge. case_decide as Hs.
    + rewrite Hinv. tauto.
    + rewrite elem_of_push, Hinv by done. tauto.
  - intros k. rewrite Hmiss, exists_link_snoc_any. split; [by left|].
    intros [?|(_ & <- & ?)]; [done|congruence].
Qed.

Lemma link_parent_Ok byKey done st st' link :
  links_inv byKey done st → link_parent byKey st link = Ok st' →
  link_ok byKey link.2 ∧ links_inv byKey (done ++ [link]) st'.
Proof.
  destruct link as [child p]. unfold link_parent, link_ok. simpl. intros Hst.
  destruct (decide (ref_kind_of (p_artifact p) = ClaimRef)) as [Hc|Hc].
  { intros [= <-]. split; [done|]. by apply links_inv_claim. }
  destruct (jm_get (refKey (p_artifact p)) byKey) as [t|] eqn:Ht.
  - intros Hrun. inv_result. split; [by intros _ t' [= <-]|]. by eapply links_inv_push.
  - intros [= <-]. split; [done|]. by apply links_inv_missing.
Qed.

Lemma link_parent_total byKey st link :
  link_ok byKey link.2 → ∃ st', link_parent byKey st link = Ok st'.
Proof.
  destruct link as [child p]. unfold link_parent, link_ok. simpl. intros Hok.
  case_decide as Hc; [eauto|]. destruct (jm_get _ byKey) as [t|] eqn:Ht; [|eauto].
  rewrite (Hok Hc t eq_refl). simpl. eauto.
Qed.

Lemma link_loop byKey links : ∀ done st,
  links_inv byKey done st →
  (∀ st', foldM (link_parent byKey) st links = Ok st' →
     Forall (λ l, link_ok byKey l.2) links ∧ links_inv byKey (done ++ links) st') ∧
  (Forall (λ l, link_ok byKey l.2) links →
     ∃ st', foldM (link_parent byKey) st links = Ok st').
Proof.
  induction links as [|link links IH]; intros done st Hst; simpl.
  { rewrite app_nil_r. split; [by intros st' [= <-]|eauto]. }
  split.
  - intros st' Hrun. inv_result.
    destruct (link_parent_Ok _ _ _ _ _ Hst Hr) as [Hok Hr'].
    apply (IH _ _ Hr') in Hrun as [Hall Hfin]. rewrite <- app_assoc in Hfin.
    split; [by constructor|done].
  - intros [Hok Hall]%Forall_cons.
    destruct (link_parent_total byKey st link Hok) as [st1 Hst1]. rewrite Hst1. simpl.
    destruct (link_parent_Ok _ _ _ _ _ Hst Hst1) as [_ Hr'].
    by apply (IH _ _ Hr').
Qed.

(** ** Correctness of the graph *)

Lemma empty_children_lookup byKey k :
  (is_Some (empty_children byKey !! k) ↔ is_Some (jm_get k byKey)) ∧
  children_of (empty_children byKey) k = [].
Proof.
  unfold empty_children, children_of. rewrite <- elem_of_jm_keys.
  induction (jm_keys byKey) as [|k' ks [IH1 IH2]]; csimpl.
  { rewrite lookup_empty. split; [|done]. split; [by intros [? [=]]|by intros ?%elem_of_nil]. }
  rewrite lookup_insert, elem_of_cons. case_decide as Hk; subst.
  - split; [|done]. split; [by left|eauto].
  - split; [|done]. rewrite IH1. split; [by right|by intros [?|?]].
Qed.

Lemma links_inv_init byKey :
  links_inv byKey [] (mkLinks (empty_children byKey) (empty_children byKey) []).
Proof.
  split_and!; simpl.
  - intros k Hk. by split; apply empty_children_lookup.
  - intros k c. rewrite (proj2 (empty_children_lookup _ _)). set_solver.
  - intros k c. rewrite (proj2 (empty_children_lookup _ _)). set_solver.
  - intros k. unfold jm_keys. set_solver.
Qed.

Lemma link_edge_resolves artifacts p k :
  link_edge (by_key artifacts) p k ↔ resolves artifacts p k.
Proof. unfold link_edge, resolves. by rewrite jm_get_by_key_is_Some. Qed.

Lemma links_consistent_alt artifacts :
  NoDup (keys_of artifacts) →
  links_consistent artifacts ↔
  Forall (λ l, link_ok (by_key artifacts) l.2) (parent_links artifacts).
Proof.
  intros Hnd. rewrite Forall_forall. split.
  - intros Hc [c p] (a & Ha & _ & Hp)%elem_of_parent_links Hk t Ht.
    apply jm_get_by_key in Ht as [Ht Hkey]. simpl in *. by apply (Hc a p t).
  - intros Hall a p t Ha Hp Hk Ht Hkey.
    apply (Hall (researchArtifactKey a, p)); [|done|].
    + apply elem_of_parent_links. eauto.
    + simpl. rewrite <- Hkey. by apply jm_get_by_key_NoDup.
Qed.

Section GraphSpec.
Context `{Host}.

(** What a successfully built graph says of its envelopes. *)
Definition graph_spec (artifacts : list artifact_envelope) (g : artifact_graph) : Prop :=
  g_artifacts g = by_key artifacts ∧
  (∀ k c, c ∈ children_of (g_children g) k ↔ parent_edge artifacts k c) ∧
  (∀ k c, c ∈ children_of (g_invalidationChildren g) k ↔ causal_edge artifacts k c) ∧
  (∀ k, k ∈ g_roots g ↔ ∃ a, a ∈ artifacts ∧ researchArtifactKey a = k ∧ a_parents a = []) ∧
  (g_missingParents g = [] ↔ closed_references artifacts).

Definition well_founded_set (artifacts : list artifact_envelope) : Prop :=
  NoDup (keys_of artifacts) ∧ links_consistent artifacts ∧ acyclic artifacts.

Lemma children_of_sorted m k :
  children_of (js_sort compareText <$> m) k = js_sort compareText (children_of m k).
Proof. unfold children_of. rewrite lookup_fmap. by destruct (m !! k). Qed.

Lemma parent_edge_links artifacts k c :
  (∃ p, (c, p) ∈ parent_links artifacts ∧ link_edge (by_key artifacts) p k) ↔
  parent_edge artifacts k c.
Proof.
  unfold parent_edge. setoid_rewrite elem_of_parent_links.
  setoid_rewrite link_edge_resolves. naive_solver.
Qed.

Lemma causal_edge_links artifacts k c :
  (∃ p, (c, p) ∈ parent_links artifacts ∧ p_relation p ≠ Supersedes ∧
  link_edge (by_key artifacts) p k) ↔ causal_edge artifacts k c.
Proof.
  unfold causal_edge. setoid_rewrite elem_of_parent_links.
  setoid_rewrite link_edge_resolves. naive_solver.
Qed.

Lemma parent_edge_keys artifacts k c :
  parent_edge artifacts k c → k ∈ keys_of artifacts ∧ c ∈ keys_of artifacts.
Proof.
  intros (a & p & Ha & <- & Hp & (_ & _ & Hk)). split; [done|].
  by apply list_elem_of_fmap_2.
Qed.

Lemma causal_parent_edge artifacts k c : causal_edge artifacts k c → parent_edge artifacts k c.
Proof. intros (a & p & Ha & Hk & Hp & _ & Hr). by exists a, p. Qed.

Lemma tc_iff {A} (R R' : relation A) x y :
  (∀ x y, R x y ↔ R' x y) → tc R x y ↔ tc R' x y.
Proof. intros HR. split; apply (tc_congruence id); intros; by apply HR. Qed.

Lemma assertAcyclic_spec artifacts children :
  NoDup (keys_of artifacts) →
  (∀ k c, c ∈ children_of children k ↔ parent_edge artifacts k c) →
  is_ok (assertAcyclic (by_key artifacts) children) = true ↔ acyclic artifacts.
Proof.
  intros Hnd Hch. unfold assertAcyclic.
  assert (∀ k c, edge (children_of children) k c ↔ parent_edge artifacts k c) as Hedge.
  { intros k c. apply Hch. }
  split.
  - destruct (assert_acyclic _ _ _ _) as [vd|] eqn:Hrun; [|done]. intros _ k Hcyc.
  assert (k ∈ keys_of artifacts) as Hk.
  { by inversion Hcyc as [? ? He|? ? ? He]; subst; apply parent_edge_keys in He as [? _]. }
  eapply Acc_no_cycle; [eapply assert_acyclic_sound; [exact Hrun|]|].
  + rewrite elem_of_js_sort, jm_keys_by_key. exact Hk.
  + by apply (tc_iff _ _ _ _ Hedge).
  - intros Hac. destruct (assert_acyclic _ _ _ _) as [|e] eqn:Hrun; [done|].
  eapply (assert_acyclic_complete _ _ (list_to_set (keys_of artifacts))) in Hrun
    as (z & _ & Hz).
  + by apply (tc_iff _ _ _ _ Hedge), Hac in Hz.
  + intros x y Hxy%Hedge. apply elem_of_list_to_set.
    by apply parent_edge_keys in Hxy as [_ ?].
  + intros x. rewrite elem_of_js_sort, jm_keys_by_key. apply elem_of_list_to_set.
  + rewrite size_list_to_set by done. unfold keys_of, by_key. rewrite !length_fmap. lia.
Qed.

Lemma roots_spec artifacts k :
  NoDup (keys_of artifacts) →
  k ∈ js_sort compareText
  (filter (λ key, is_root (by_key artifacts) key = true) (jm_keys (by_key artifacts))) ↔
  ∃ a, a ∈ artifacts ∧ researchArtifactKey a = k ∧ a_parents a = [].
Proof.
  intros Hnd. rewrite elem_of_js_sort, list_elem_of_filter, jm_keys_by_key. unfold is_root.
  split.
  - intros [Hr Hk]. apply list_elem_of_fmap in Hk as (a & -> & Ha).
  rewrite jm_get_by_key_NoDup in Hr by done. exists a. split_and!; [done..|].
  by destruct (a_parents a).
  - intros (a & Ha & <- & Hp). rewrite jm_get_by_key_NoDup by done. rewrite Hp.
  split; [done|]. by apply list_elem_of_fmap_2.
Qed.

Lemma missing_spec artifacts (missing : jmap artifact_ref) :
  (∀ k, k ∈ jm_keys missing ↔ ∃ c p, (c, p) ∈ parent_links artifacts ∧
   ref_kind_of (p_artifact p) ≠ ClaimRef ∧ refKey (p_artifact p) = k ∧
   jm_get k (by_key artifacts) = None) →
  js_sort compareRefKeys (jm_values missing) = [] ↔ closed_references artifacts.
Proof.
  intros Hm. rewrite js_sort_nil_iff. unfold jm_values. split.
  - intros Hnil%fmap_nil_inv a p Ha Hp Hk.
  destruct (jm_get (refKey (p_artifact p)) (by_key artifacts)) eqn:E.
  { apply jm_get_by_key_is_Some. eauto. }
  exfalso. eapply (not_elem_of_nil (refKey (p_artifact p))).
  replace [] with (jm_keys missing) by (by rewrite Hnil). apply Hm.
  exists (researchArtifactKey a), p. split_and!; [|done..].
  apply elem_of_parent_links. eauto.
  - intros Hcl. destruct missing as [|[k r] missing]; [done|]. exfalso.
  destruct (proj1 (Hm k)) as (c & p & Hin & Hk & <- & Hnone); [by left|].
  apply elem_of_parent_links in Hin as (a & Ha & _ & Hp).
  specialize (Hcl a p Ha Hp Hk). apply jm_get_by_key_is_Some in Hcl as [? ?]. congruence.
Qed.

Lemma build_graph_Ok artifacts g :
  buildResearchArtifactGraph artifacts = Ok g →
  well_founded_set artifacts ∧ graph_spec artifacts g.
Proof.
  unfold buildResearchArtifactGraph. intros Hrun. inv_result.
  rename r into byKey, r0 into links, r1 into visited.
  apply index_artifacts_Ok in Hr as [Hnd ->]. rewrite link_artifacts_flat in Hr0.
  apply (link_loop _ _ [] _ (links_inv_init _)) in Hr0 as [Hok (Hdom & Hch & Hinv & Hmiss)].
  simpl in *.
  assert (∀ k c, c ∈ children_of (js_sort compareText <$> l_children links) k ↔
  parent_edge artifacts k c) as Hch'.
  { intros k c. by rewrite children_of_sorted, elem_of_js_sort, Hch, parent_edge_links. }
  split; [|split_and!; simpl; [done|exact Hch'|..]].
  - split_and!; [done|by apply links_consistent_alt|].
  apply (assertAcyclic_spec _ _ Hnd Hch'). by rewrite Hr1.
  - intros k c. by rewrite children_of_sorted, elem_of_js_sort, Hinv, causal_edge_links.
  - intros k. by apply roots_spec.
  - by apply missing_spec.
Qed.

Lemma build_graph_total artifacts :
  well_founded_set artifacts → ∃ g, buildResearchArtifactGraph artifacts = Ok g.
Proof.
  intros (Hnd & Hcons & Hac). unfold buildResearchArtifactGraph.
  rewrite index_artifacts_total by done. cbn [mbind result_bind].
  rewrite link_artifacts_flat. apply links_consistent_alt in Hcons; [|done].
  destruct (link_loop _ (parent_links artifacts) [] _ (links_inv_init (by_key artifacts)))
  as [Hsound Htotal].
  destruct (Htotal Hcons) as [links Hl]. rewrite Hl. cbn [mbind result_bind].
  apply Hsound in Hl as [_ (_ & Hch & _ & _)]. simpl in Hch.
  destruct (assertAcyclic (by_key artifacts) (js_sort compareText <$> l_children links))
  as [vd|e] eqn:E; [simpl; eauto|].
  exfalso. assert (is_ok (assertAcyclic (by_key artifacts)
  (js_sort compareText <$> l_children links)) = true) as Hok; [|by rewrite E in Hok].
  apply assertAcyclic_spec; [done| |done]. intros k c.
  by rewrite children_of_sorted, elem_of_js_sort, Hch, parent_edge_links.
Qed.
End GraphSpec.

(** ** Invalidation and latest revisions *)

Section GraphOps.
Context `{Host}.

Lemma causal_edge_keys artifacts k c :
  causal_edge artifacts k c → c ∈ keys_of artifacts.
Proof. intros He%causal_parent_edge. by apply parent_edge_keys in He as [_ ?]. Qed.

Lemma causal_below artifacts g roots k :
  graph_spec artifacts g →
  below (children_of (g_invalidationChildren g)) roots k ↔
  ∃ r, r ∈ roots ∧ tc (causal_edge artifacts) r k.
Proof.
  intros (_ & _ & Hinv & _). unfold below. f_equiv. intros r.
  by rewrite (tc_iff _ _ r k Hinv).
Qed.

Lemma causal_univ artifacts g :
  graph_spec artifacts g →
  ∀ x y, edge (children_of (g_invalidationChildren g)) x y →
  y ∈ list_to_set (C := gset string) (keys_of artifacts).
Proof.
  intros (_ & _ & Hinv & _) x y Hxy. apply elem_of_list_to_set.
  by eapply causal_edge_keys, Hinv.
Qed.

Lemma causal_univ_size artifacts g :
  NoDup (keys_of artifacts) → graph_spec artifacts g →
  size (list_to_set (C := gset string) (keys_of artifacts)) = length (g_artifacts g).
Proof.
  intros Hnd (-> & _). rewrite size_list_to_set by done.
  unfold keys_of, by_key. by rewrite !length_fmap.
Qed.

Lemma elem_of_stale_keys artifacts g changed k :
  NoDup (keys_of artifacts) → graph_spec artifacts g →
  k ∈ stale_keys g changed ↔
  k ∉ changed ∧ (∃ r, r ∈ changed ∧ tc (causal_edge artifacts) r k).
Proof.
  intros Hnd Hg. unfold stale_keys. rewrite elem_of_difference, elem_of_list_to_set.
  rewrite (elem_of_bfs _ (list_to_set (keys_of artifacts))).
  - rewrite elem_of_list_to_set, causal_below by done. tauto.
  - by apply causal_univ.
  - done.
  - by rewrite (causal_univ_size artifacts g).
Qed.

(** P: the invalidation marks stale exactly the active envelopes that are
    causal descendants of a root and are not roots themselves; every other
    envelope, its order and the revision lineage are left as they were. *)
Theorem invalidate_descendants_spec artifacts roots reason now out :
  invalidateResearchArtifactDescendants artifacts roots reason now = Ok out →
  Forall2 (λ a b,
  let hit := ((∃ r, r ∈ roots ∧ tc (causal_edge artifacts) (refKey r) (researchArtifactKey a))
    ∧ researchArtifactKey a ∉ refKey <$> roots ∧ a_status a = Active) in
  (hit → b = mark_stale now reason roots a) ∧ (¬ hit → b = a)) artifacts out.
Proof.
  unfold invalidateResearchArtifactDescendants. intros Hrun. inv_result. rename r into g.
  apply build_graph_Ok in Hr as [(Hnd & _) Hg].
  assert (∀ k, k ∈ stale_keys g (dedup (refKey <$> roots)) ↔
  k ∉ refKey <$> roots ∧ (∃ r, r ∈ roots ∧ tc (causal_edge artifacts) (refKey r) k)) as Hst.
  { intros k. rewrite (elem_of_stale_keys artifacts g) by done. rewrite elem_of_dedup.
  f_equiv. setoid_rewrite elem_of_dedup. setoid_rewrite list_elem_of_fmap. naive_solver. }
  case_decide as Hempty; inv_result.
  - apply Forall_Forall2_diag, Forall_true. intros a. simpl. split; [|done].
  intros (Hr' & Hnr & _). exfalso.
  assert (researchArtifactKey a ∈ stale_keys g (dedup (refKey <$> roots))) as Hin
    by (by apply Hst).
  rewrite Hempty in Hin. by apply elem_of_empty in Hin.
  - apply Forall2_fmap_r, Forall_Forall2_diag, Forall_true. intros a. simpl.
  specialize (Hst (researchArtifactKey a)). case_decide as Hd; split; intros Hit; try done.
  + exfalso. destruct Hit as (Hr' & Hnr & Hact), Hd as [Hd|Hd]; [|done].
    apply Hd, Hst. by split.
  + exfalso. apply Hit. apply Decidable.not_or in Hd as [Hin Hact].
    apply dec_stable in Hin, Hact. apply Hst in Hin as [? ?]. by split_and!.
Qed.

(** The map of latest revisions while the loop runs. *)
Definition latest_inv (seen : list artifact_envelope) (m : jmap artifact_envelope) : Prop :=
  NoDup (jm_keys m) ∧
  (∀ id a, jm_get id m = Some a → a ∈ seen ∧ a_artifactId a = id ∧
   ∀ b, b ∈ seen → a_artifactId b = id → (a_revision b ≤ a_revision a)%Z) ∧
  (∀ b, b ∈ seen → is_Some (jm_get (a_artifactId b) m)).

Lemma latest_inv_set seen m a :
  latest_inv seen m →
  (∀ b, jm_get (a_artifactId a) m = Some b → (a_revision b ≤ a_revision a)%Z) →
  latest_inv (seen ++ [a]) (jm_set (a_artifactId a) a m).
Proof.
  intros (Hnd & Hget & Hcov) Hle. split_and!.
  - by apply jm_keys_set_NoDup.
  - intros id b. rewrite jm_get_set. case_decide as Hid.
  + intros [= <-]. subst. split_and!; [set_solver|done|].
    intros c [Hc| ->%list_elem_of_singleton]%elem_of_app Hcid; [|done].
    destruct (Hcov c Hc) as [d Hd]. rewrite Hcid in Hd.
    destruct (Hget _ _ Hd) as (_ & _ & Hmax). specialize (Hmax c Hc Hcid).
    specialize (Hle d Hd). lia.
  + intros Hb. destruct (Hget _ _ Hb) as (Hin & Hbid & Hmax).
    split_and!; [set_solver|done|].
    intros c [Hc| ->%list_elem_of_singleton]%elem_of_app Hcid; [auto|by subst].
  - intros b Hb. rewrite jm_get_set. case_decide as Hid; [done|].
  apply Hcov. apply elem_of_app in Hb as [Hb|Hb]; [done|].
  apply list_elem_of_singleton in Hb as ->. done.
Qed.

Lemma latest_inv_step seen m a :
  latest_inv seen m → latest_inv (seen ++ [a]) (keep_latest m a).
Proof.
  intros Hinv. unfold keep_latest.
  destruct (jm_get (a_artifactId a) m) as [e|] eqn:E.
  - destruct (Z.ltb_spec (a_revision e) (a_revision a)).
  + apply latest_inv_set; [done|]. intros b. rewrite E. intros [= <-]. lia.
  + destruct Hinv as (Hnd & Hget & Hcov). split_and!; [done|..].
    * intros id b Hb. destruct (Hget _ _ Hb) as (Hin & Hbid & Hmax).
      split_and!; [set_solver|done|].
      intros c [Hc| ->%list_elem_of_singleton]%elem_of_app Hcid; [auto|].
      subst id. rewrite Hcid in E. rewrite Hb in E. injection E as ->. lia.
    * intros b [Hb| ->%list_elem_of_singleton]%elem_of_app; eauto.
  - apply latest_inv_set; [done|]. intros b. by rewrite E.
Qed.

Lemma latest_inv_foldl l : ∀ seen m,
  latest_inv seen m → latest_inv (seen ++ l) (foldl keep_latest m l).
Proof.
  induction l as [|a l IH]; intros seen m Hinv; simpl; [by rewrite app_nil_r|].
  replace (seen ++ a :: l) with ((seen ++ [a]) ++ l) by (by rewrite <- app_assoc).
  apply IH. by apply latest_inv_step.
Qed.

Lemma elem_of_latest artifacts a :
  a ∈ latestResearchArtifactRevisions artifacts ↔
  jm_get (a_artifactId a) (foldl keep_latest [] artifacts) = Some a.
Proof.
  unfold latestResearchArtifactRevisions, jm_values.
  assert (latest_inv ([] ++ artifacts) (foldl keep_latest [] artifacts)) as (Hnd & Hget & _).
  { apply latest_inv_foldl. split_and!; [constructor|done|by intros b ?%elem_of_nil]. }
  rewrite elem_of_js_sort, list_elem_of_fmap. split.
  - intros ([id b] & -> & Hin). simpl. apply jm_elem_get in Hin; [|done].
  by destruct (Hget _ _ Hin) as (_ & -> & _).
  - intros Ha%jm_get_elem. by exists (a_artifactId a, a).
Qed.

(** P: the latest revisions are, for each artifact id that occurs, exactly
    one envelope, and no envelope of that id has a higher revision. *)
Theorem latest_revisions_spec artifacts :
  (∀ a, a ∈ latestResearchArtifactRevisions artifacts →
   a ∈ artifacts ∧ ∀ b, b ∈ artifacts → a_artifactId b = a_artifactId a →
     (a_revision b ≤ a_revision a)%Z) ∧
  (∀ b, b ∈ artifacts → ∃ a, a ∈ latestResearchArtifactRevisions artifacts ∧
   a_artifactId a = a_artifactId b) ∧
  NoDup (a_artifactId <$> latestResearchArtifactRevisions artifacts).
Proof.
  assert (latest_inv ([] ++ artifacts) (foldl keep_latest [] artifacts)) as (Hnd & Hget & Hcov).
  { apply latest_inv_foldl. split_and!; [constructor|done|by intros b ?%elem_of_nil]. }
  simpl in *. split_and!.
  - intros a Ha%elem_of_latest. destruct (Hget _ _ Ha) as (? & _ & ?). done.
  - intros b Hb. destruct (Hcov b Hb) as [a Ha]. exists a.
  destruct (Hget _ _ Ha) as (_ & Hid & _). split; [|done].
  apply elem_of_latest. by rewrite Hid.
  - unfold latestResearchArtifactRevisions. rewrite js_sort_perm.
  replace (a_artifactId <$> jm_values (foldl keep_latest [] artifacts))
    with (jm_keys (foldl keep_latest [] artifacts)); [done|].
  unfold jm_keys, jm_values. rewrite <- list_fmap_compose.
  apply list_fmap_ext. intros i [id a] Hi. simpl.
  apply list_elem_of_lookup_2, jm_elem_get in Hi; [|done].
  by destruct (Hget _ _ Hi) as (_ & -> & _).
Qed.

(** C33: a graph is built for exactly the envelope sets without a duplicated
    key, whose references carry the kind and hash of the stored envelope
    and whose parent relation is acyclic; the built maps then hold exactly
    the parent edges, the causal edges (lineage left out), the roots, and
    report a missing parent exactly when some reference is not stored. *)
Theorem build_graph_spec artifacts :
  ((∃ g, buildResearchArtifactGraph artifacts = Ok g) ↔ well_founded_set artifacts) ∧
  (∀ g, buildResearchArtifactGraph artifacts = Ok g → graph_spec artifacts g).
Proof.
  split.
  - split; [|apply build_graph_total]. by intros [g [? _]%build_graph_Ok].
  - by intros g [_ ?]%build_graph_Ok.
Qed.
End GraphOps.

(** ** Witnesses *)

Lemma build_graph_spec_witness :
  (∃ g, buildResearchArtifactGraph sample_artifacts = Ok g) ∧
  well_founded_set sample_artifacts.
Proof.
  assert (∃ g, buildResearchArtifactGraph sample_artifacts = Ok g) as Hg
    by (eexists; vm_compute; reflexivity).
  split; [exact Hg|]. apply (proj1 (build_graph_spec sample_artifacts)). exact Hg.
Defined.

Lemma invalidate_descendants_spec_witness :
  ∃ out, invalidateResearchArtifactDescendants sample_artifacts
           [toResearchArtifactRef sample_evidence] Manual 9000 = Ok out ∧
    Forall2 (λ a b,
      let hit := ((∃ r, r ∈ [toResearchArtifactRef sample_evidence] ∧
          tc (causal_edge sample_artifacts) (refKey r) (researchArtifactKey a))
        ∧ researchArtifactKey a ∉ refKey <$> [toResearchArtifactRef sample_evidence]
        ∧ a_status a = Active) in
      (hit → b = mark_stale 9000 Manual [toResearchArtifactRef sample_evidence] a) ∧
      (¬ hit → b = a)) sample_artifacts out.
Proof.
  eexists. split; [vm_compute; reflexivity|].
  apply invalidate_descendants_spec. vm_compute. reflexivity.
Defined.
