(* ===== verification/RepoModel.v ===== *)
(** * The repository's records and their validators

    src/src/research/artifacts/repository.ts: the error class, the manifest
    and status-event records, their JSON images, and the functions that turn
    an untyped value read from disk (or supplied by a caller) into one of
    them or throw.  The diagnostics' [path] and [operation] fields are left
    out; their code and message are kept. *)

From S2P Require Import Prelude Host JsValue ArtifactTypes.

(** ** Errors *)

Definition repositoryError (code message : string) : js_error := CodedError code message.

Definition invalidSchema {A} (message : string) : result A :=
  Throw (repositoryError "invalid_schema" message).

(** [if (!test) invalidSchema(message)]. *)
Definition require_schema (test : bool) (message : string) : result unit :=
  if test then Ok tt else invalidSchema message.

Definition is_repository_error (e : js_error) : bool :=
  match e with CodedError _ _ => true | _ => false end.

Definition messageOf (e : js_error) : string :=
  match e with TypeError m | PlainError m | CodedError _ m => m end.

(** ** Data *)

Definition RESEARCH_ARTIFACT_REPOSITORY_SCHEMA_VERSION : Z := 1.
Definition MAX_RESEARCH_ARTIFACT_REPOSITORY_BYTES : Z := 64 * 1024 * 1024.

Inductive event_cause := NewRevision | Invalidation.

Definition cause_name (c : event_cause) : string :=
  match c with NewRevision => "new_revision" | Invalidation => "invalidation" end.

#[export] Instance event_cause_eq_dec : EqDecision event_cause.
Proof. solve_decision. Defined.

Record status_event := mkEvent {
  ev_sequence : Z;
  ev_eventId : string;
  ev_artifact : artifact_ref;
  ev_from : artifact_status;
  ev_to : artifact_status;
  ev_cause : event_cause;
  ev_roots : list artifact_ref;
  ev_reason : option invalidation_reason;
  ev_changedAt : Z;
}.

Record repository_manifest := mkManifest {
  m_repositoryId : string;
  m_revision : Z;
  m_createdAt : Z;
  m_updatedAt : Z;
  m_artifacts : list artifact_envelope;
  m_statusEvents : list status_event;
  m_contentHash : string;
}.

(** ** JSON images *)

Section Json.
Context `{Host}.

Definition date_json (t : Z) : jsval := JStr (to_iso_string t).

Definition invalidation_to_json (i : artifact_invalidation) : jsval :=
  JObj [("invalidatedAt", date_json (inv_invalidatedAt i));
      ("reason", JStr (reason_name (inv_reason i)));
      ("roots", JArr (map ref_to_json (inv_roots i)))].

Definition envelope_to_json (a : artifact_envelope) : jsval :=
  JObj ([("schemaVersion", JNum (NInt 1)); ("artifactId", JStr (a_artifactId a));
       ("revision", JNum (NInt (a_revision a))); ("kind", JStr (kind_name (a_kind a)));
       ("status", JStr (status_name (a_status a)));
       ("createdAt", date_json (a_createdAt a)); ("updatedAt", date_json (a_updatedAt a));
       ("contentHash", JStr (a_contentHash a)); ("producer", producer_to_json (a_producer a));
       ("parents", JArr (map parent_to_json (a_parents a)));
       ("sources", JArr (map source_to_json (a_sources a)));
       ("payload", a_payload a)] ++
      opt_field "invalidation" invalidation_to_json (a_invalidation a)).

(** The event without its [eventId]. *)
Definition event_body_fields (e : status_event) : list (string * jsval) :=
  [("artifact", ref_to_json (ev_artifact e)); ("from", JStr (status_name (ev_from e)));
  ("to", JStr (status_name (ev_to e))); ("cause", JStr (cause_name (ev_cause e)));
  ("roots", JArr (map ref_to_json (ev_roots e)))] ++
  opt_field "reason" (λ r, JStr (reason_name r)) (ev_reason e) ++
  [("changedAt", date_json (ev_changedAt e))].

Definition event_body_to_json (e : status_event) : jsval :=
  JObj (("sequence", JNum (NInt (ev_sequence e))) :: event_body_fields e).

Definition event_to_json (e : status_event) : jsval :=
  JObj (("sequence", JNum (NInt (ev_sequence e))) :: ("eventId", JStr (ev_eventId e))
      :: event_body_fields e).

Definition manifest_body_fields (m : repository_manifest) : list (string * jsval) :=
  [("schemaVersion", JNum (NInt RESEARCH_ARTIFACT_REPOSITORY_SCHEMA_VERSION));
  ("kind", JStr "research_artifact_repository");
  ("repositoryId", JStr (m_repositoryId m)); ("revision", JNum (NInt (m_revision m)));
  ("createdAt", date_json (m_createdAt m)); ("updatedAt", date_json (m_updatedAt m));
  ("artifacts", JArr (map envelope_to_json (m_artifacts m)));
  ("statusEvents", JArr (map event_to_json (m_statusEvents m)))].

Definition manifest_body_to_json (m : repository_manifest) : jsval :=
  JObj (manifest_body_fields m).

Definition manifest_to_json (m : repository_manifest) : jsval :=
  JObj (manifest_body_fields m ++ [("contentHash", JStr (m_contentHash m))]).
End Json.

(** ** References *)

Definition fullRefKey (ref : artifact_ref) : string :=
  ref_kind_name (ref_kind_of ref) +:+ ":" +:+ refKey ref +:+ ":" +:+ ref_contentHash ref.

Section Refs.
Context `{Host}.

Definition compareRefs (left right : artifact_ref) : comparison :=
  compareText (fullRefKey left) (fullRefKey right).

Definition uniqueRefs (refs : list artifact_ref) : list artifact_ref :=
  js_sort compareRefs (jm_values (jm_index fullRefKey refs)).

Definition sortRefs (refs : list artifact_ref) : list artifact_ref := js_sort compareRefs refs.
End Refs.

(** ** Field validators

    The code tests [String(kind)] and [String(reason)] against the literal
    sets; the model reads these fields at their declared type, as strings. *)

Module Repo.
Definition expectRecord (value : jsval) (label : string) : result unit :=
  require_schema (isRecord value) (label +:+ " must be an object.").

(** [/^[A-Za-z0-9][A-Za-z0-9._:-]{0,255}$/]. *)
Definition requireIdentifier (value : jsval) (label : string) : result string :=
  match value with
  | JStr s => if is_safe_identifier s then Ok s
            else invalidSchema (label +:+ " must be a safe identifier.")
  | _ => invalidSchema (label +:+ " must be a safe identifier.")
  end.

Definition requirePositiveInteger (value : jsval) (label : string) : result Z :=
  match as_safe_integer value with
  | Some z => if (z <? 1)%Z then invalidSchema (label +:+ " must be a positive integer.")
            else Ok z
  | None => invalidSchema (label +:+ " must be a positive integer.")
  end.

Definition requireHash (value : jsval) (label : string) : result string :=
  match value with
  | JStr s => if is_content_hash s then Ok s
            else invalidSchema (label +:+ " must be a SHA-256 hash.")
  | _ => invalidSchema (label +:+ " must be a SHA-256 hash.")
  end.

(** The time value; its text is [to_iso_string] of it. *)
Definition requireDate `{Host} (value : jsval) (label : string) : result Z :=
  match value with
  | JStr s => of_option (repositoryError "invalid_schema" (label +:+ " must be a valid date."))
              (date_parse s)
  | _ => invalidSchema (label +:+ " must be a valid date.")
  end.

(** [requireDate] on a [Date] object, given by its time value ([None] is
    an invalid date). *)
Definition requireDateObject (value : option Z) (label : string) : result Z :=
  of_option (repositoryError "invalid_schema" (label +:+ " must be a valid date.")) value.

Definition requireKind (value : jsval) (message : string) : result artifact_kind :=
  of_option (repositoryError "invalid_schema" message)
  (parse_enum RESEARCH_ARTIFACT_KINDS kind_name value).

Definition requireStatus (value : jsval) (label : string) : result artifact_status :=
  of_option (repositoryError "invalid_schema" (label +:+ " is invalid."))
  (parse_enum ARTIFACT_STATUSES status_name value).

Definition requireInvalidationReason (value : jsval) (label : string) :
  result invalidation_reason :=
  of_option (repositoryError "invalid_schema" (label +:+ " is invalid."))
  (parse_enum INVALIDATION_REASONS reason_name value).

Definition normalizeRef (value : jsval) (label : string) : result artifact_ref :=
  _ ← expectRecord value label;
  kind ← requireKind (jget value "kind") (label +:+ ".kind is unsupported.");
  artifactId ← requireIdentifier (jget value "artifactId") (label +:+ ".artifactId");
  revision ← requirePositiveInteger (jget value "revision") (label +:+ ".revision");
  contentHash ← requireHash (jget value "contentHash") (label +:+ ".contentHash");
  mret (mkRef artifactId revision (ArtifactRef kind) contentHash).

Definition non_empty_array (value : jsval) (message : string) : result (list jsval) :=
  match value with
  | JArr (x :: l) => Ok (x :: l)
  | _ => invalidSchema message
  end.

Section WithHost.
Context `{Host}.

Definition normalizeRoots (roots : list jsval) : result (list artifact_ref) :=
  refs ← mapM (λ root, normalizeRef root "roots") roots;
  mret (uniqueRefs refs).

(** [JSON.parse(canonicalJson(value))] with its [catch]. *)
Definition cloneCanonical (value : jsval) : result jsval :=
  match parse_canonical value with
  | Ok v => Ok v
  | Throw e => invalidSchema ("Value is not canonical JSON: " +:+ messageOf e +:+ ".")
  end.

Definition assertCanonicalShape (value normalized : jsval) (message : string) : result unit :=
  match (x ← canonicalJson value; y ← canonicalJson normalized; mret (String.eqb x y)) with
  | Ok same => require_schema same message
  | Throw e => invalidSchema (message +:+ " " +:+ messageOf e)
  end.

(** ** Envelopes *)

Definition hasOwn (value : jsval) (key : string) : bool :=
  match value with JObj fields => jm_has key fields | _ => false end.

Definition isLegacyLiteratureNoveltyRescanEnvelope (kind : artifact_kind) (payload : jsval) :
  bool :=
  bool_decide (kind = CandidatePortfolio) && isRecord payload
  && is_num 1 (jget payload "schemaVersion")
  && is_str "candidate_portfolio" (jget payload "kind")
  && hasOwn payload "rescan".

Definition validateArtifactPayloadContract (kind : artifact_kind) (payload : jsval) :
  result unit :=
  match kind with
  | CandidatePortfolio =>
  _ ← expectRecord payload "candidate_portfolio payload";
  _ ← require_schema (is_num 1 (jget payload "schemaVersion")
      && is_str "candidate_portfolio" (jget payload "kind"))
      "candidate_portfolio payload kind or schemaVersion does not match its envelope.";
  require_schema (negb (hasOwn payload "rescan"))
  "candidate_portfolio payloads must not carry literature novelty rescan data."
  | LiteratureNoveltyRescan =>
  _ ← expectRecord payload "literature_novelty_rescan payload";
  _ ← require_schema (is_num 1 (jget payload "schemaVersion")
      && is_str "literature_novelty_rescan" (jget payload "kind"))
      "literature_novelty_rescan payload kind or schemaVersion does not match its envelope.";
  let rescan := jget payload "rescan" in
  _ ← expectRecord rescan "literature_novelty_rescan result";
  require_schema (is_num 1 (jget rescan "schemaVersion")
  && is_str "candidate_novelty_value_rescan" (jget rescan "kind"))
  "literature_novelty_rescan payload must contain a versioned novelty rescan result."
  | _ => Ok tt
  end.

Definition normalizeInvalidation (value : jsval) : result artifact_invalidation :=
  _ ← expectRecord value "artifact invalidation";
  reason ← of_option (repositoryError "invalid_schema" "Artifact invalidation is invalid.")
       (parse_enum INVALIDATION_REASONS reason_name (jget value "reason"));
  rawRoots ← non_empty_array (jget value "roots") "Artifact invalidation is invalid.";
  invalidatedAt ← requireDate (jget value "invalidatedAt") "invalidatedAt";
  roots ← normalizeRoots rawRoots;
  mret (mkInvalidation invalidatedAt reason roots).

Definition invalidation_in_bounds (createdAt updatedAt : Z)
  (invalidation : option artifact_invalidation) : bool :=
  match invalidation with
  | None => true
  | Some i => (createdAt <=? inv_invalidatedAt i)%Z && (inv_invalidatedAt i <=? updatedAt)%Z
  end.

Definition is_array (value : jsval) : bool :=
  match value with JArr _ => true | _ => false end.

(** [createResearchArtifact] on the envelope's own fields, with its
    [catch].  Only an envelope without an [artifactId] makes the
    constructor draw a random id; its canonical shape refuses it. *)
Definition rebuild (value : jsval) (kind : artifact_kind) (payload : jsval) (createdAt : Z) :
  result artifact_envelope :=
  match createResearchArtifact createdAt ""
    (mkCreateInput kind payload (jget value "producer") (jget value "parents")
       (jget value "sources") (jget value "artifactId") (jget value "revision")
       (jget value "status")) with
  | Ok rebuilt => Ok rebuilt
  | Throw e => invalidSchema ("Artifact envelope is invalid: " +:+ messageOf e +:+ ".")
  end.

Definition normalizeEnvelope (value : jsval) : result artifact_envelope :=
  _ ← expectRecord value "artifact envelope";
  _ ← require_schema (is_num 1 (jget value "schemaVersion")
  && is_array (jget value "parents") && is_array (jget value "sources"))
  "Artifact envelope is incomplete.";
  kind ← requireKind (jget value "kind") "Unsupported artifact kind.";
  createdAt ← requireDate (jget value "createdAt") "createdAt";
  updatedAt ← requireDate (jget value "updatedAt") "updatedAt";
  _ ← require_schema (createdAt <=? updatedAt)%Z
  "Artifact updatedAt must not precede createdAt.";
  payload ← cloneCanonical (jget value "payload");
  _ ← ensure (negb (isLegacyLiteratureNoveltyRescanEnvelope kind payload))
  (repositoryError "migration_required" "Legacy candidate_portfolio novelty-rescan artifacts must be migrated to literature_novelty_rescan and have their hashes and references regenerated.");
  _ ← validateArtifactPayloadContract kind payload;
  rebuilt ← rebuild value kind payload createdAt;
  contentHash ← requireHash (jget value "contentHash") "contentHash";
  _ ← ensure (String.eqb (a_contentHash rebuilt) contentHash)
  (repositoryError "integrity_mismatch" ("Artifact " +:+ researchArtifactKey rebuilt
     +:+ " contentHash does not match its canonical content."));
  invalidation ← optional normalizeInvalidation (jget value "invalidation");
  _ ← require_schema (bool_decide (invalidation = None)
  || bool_decide (a_status rebuilt = Stale))
  "Only a stale artifact may carry invalidation metadata.";
  _ ← require_schema (invalidation_in_bounds createdAt updatedAt invalidation)
  "Artifact invalidation time must fall between createdAt and updatedAt.";
  let normalized := mkEnvelope (a_artifactId rebuilt) (a_revision rebuilt) kind
  (a_status rebuilt) createdAt updatedAt contentHash (a_producer rebuilt)
  (a_parents rebuilt) (a_sources rebuilt) invalidation payload in
  _ ← assertCanonicalShape value (envelope_to_json normalized)
  "Artifact envelope contains unknown or non-canonical fields.";
  mret normalized.

(** ** Status events *)

(** [`artifact-status-${sequence}-${hash.slice(7, 23)}`]. *)
Definition statusEventId (body : status_event) : result string :=
  hash ← hashResearchArtifactContent (event_body_to_json body);
  mret ("artifact-status-" +:+ pretty (ev_sequence body) +:+ "-" +:+ str_slice 7 23 hash).

Definition assertStatusEventId (event : status_event) : result unit :=
  id ← statusEventId event;
  ensure (String.eqb (ev_eventId event) id)
  (repositoryError "integrity_mismatch" ("Status event " +:+ ev_eventId event
  +:+ " does not match its canonical body.")).

Definition requireCause (value : jsval) : result event_cause :=
  of_option (repositoryError "invalid_schema" "Status event cause is invalid.")
  (parse_enum [NewRevision; Invalidation] cause_name value).

Definition cause_matches (cause : event_cause) (to : artifact_status)
  (reason : option invalidation_reason) : bool :=
  match cause, reason with
  | NewRevision, None => bool_decide (to = Superseded)
  | Invalidation, Some _ => bool_decide (to = Stale)
  | _, _ => false
  end.

Definition cause_message (cause : event_cause) : string :=
  match cause with
  | NewRevision =>
  "A new_revision event must transition to superseded without an invalidation reason."
  | Invalidation => "An invalidation event must transition to stale with a reason."
  end.

Definition normalizeStatusEvent (value : jsval) (sequence : Z) : result status_event :=
  _ ← expectRecord value "status event";
  _ ← require_schema (is_num sequence (jget value "sequence"))
  ("Status event sequence must be " +:+ pretty sequence +:+ ".");
  cause ← requireCause (jget value "cause");
  from ← requireStatus (jget value "from") "from";
  to ← requireStatus (jget value "to") "to";
  _ ← require_schema (bool_decide (from ≠ to)) "Status event must change status.";
  rawRoots ← non_empty_array (jget value "roots") "Status event roots must be non-empty.";
  roots ← normalizeRoots rawRoots;
  reason ← optional (λ v, requireInvalidationReason v "reason") (jget value "reason");
  _ ← require_schema (cause_matches cause to reason) (cause_message cause);
  eventId ← requireIdentifier (jget value "eventId") "eventId";
  artifact ← normalizeRef (jget value "artifact") "artifact";
  changedAt ← requireDate (jget value "changedAt") "changedAt";
  let normalized := mkEvent sequence eventId artifact from to cause roots reason changedAt in
  _ ← assertCanonicalShape value (event_to_json normalized)
  "Status event contains unknown or non-canonical fields.";
  _ ← assertStatusEventId normalized;
  mret normalized.

(** [eventsRaw.map((event, index) => normalizeStatusEvent(event, index + 1))]. *)
Fixpoint normalizeStatusEvents (sequence : Z) (values : list jsval) :
  result (list status_event) :=
  match values with
  | [] => Ok []
  | value :: values =>
  event ← normalizeStatusEvent value sequence;
  events ← normalizeStatusEvents (sequence + 1) values;
  mret (event :: events)
  end.
End WithHost.
End Repo.
