(* ===== verification/RepoEvents.v ===== *)
(** * Status events: replay, recording and precise invalidation

    src/src/research/artifacts/repository.ts: the graph and revision checks,
    [replayStatusEvents], [appendStatusEvent], [appendPreciseInvalidationEvents],
    [descendantKeys] and [validateEmbeddedInvalidationRefs]. *)

From S2P Require Import Prelude Host JsValue Digraph ArtifactTypes ArtifactGraph RepoModel.

Section Events.
Context `{Host}.

(** ** The graph and the revision histories *)

(** [buildResearchArtifactGraph] inside the [try] block. *)
Definition validateCompleteArtifactGraph (artifacts : list artifact_envelope) :
  result artifact_graph :=
  match buildResearchArtifactGraph artifacts with
  | Ok graph =>
    match g_missingParents graph with
    | [] => Ok graph
    | missing :: _ => Throw (repositoryError "missing_parent"
        ("Artifact graph has missing parent " +:+ fullRefKey missing +:+ "."))
    end
  | Throw e =>
    if is_repository_error e then Throw e
    else invalidSchema ("Artifact graph is invalid: " +:+ messageOf e +:+ ".")
  end.

Definition compare_revision (left right : artifact_envelope) : comparison :=
  (a_revision left ?= a_revision right)%Z.

(** [result.get(id) ?? []] with the envelope pushed. *)
Definition push_history (groups : jmap (list artifact_envelope))
  (artifact : artifact_envelope) : jmap (list artifact_envelope) :=
  let history := default [] (jm_get (a_artifactId artifact) groups) in
  jm_set (a_artifactId artifact) (history ++ [artifact]) groups.

Definition groupArtifactsById (artifacts : list artifact_envelope) :
  jmap (list artifact_envelope) :=
  (λ group, (group.1, js_sort compare_revision group.2)) <$> foldl push_history [] artifacts.

(** The loop variables: [expectedRevision] and [previousCreatedAt] (minus
    infinity before the first revision). *)
Definition check_revision (kind : artifact_kind) (st : Z * option Z)
  (artifact : artifact_envelope) : result (Z * option Z) :=
  let '(expectedRevision, previousCreatedAt) := st in
  _ ← ensure (a_revision artifact =? expectedRevision)%Z
      (repositoryError "revision_conflict" ("Artifact " +:+ a_artifactId artifact
         +:+ " expected revision " +:+ pretty expectedRevision +:+ ", found "
         +:+ pretty (a_revision artifact) +:+ "."));
  _ ← ensure (bool_decide (a_kind artifact = kind))
      (repositoryError "artifact_conflict" ("Artifact " +:+ a_artifactId artifact
         +:+ " changes kind from " +:+ kind_name kind +:+ " to "
         +:+ kind_name (a_kind artifact) +:+ "."));
  _ ← ensure (match previousCreatedAt with
            | Some t => (t <=? a_createdAt artifact)%Z
            | None => true
            end)
      (repositoryError "revision_conflict" ("Artifact " +:+ a_artifactId artifact
         +:+ " revision " +:+ pretty (a_revision artifact)
         +:+ " predates its previous revision."));
  mret ((expectedRevision + 1)%Z, Some (a_createdAt artifact)).

Definition check_history (_ : unit) (group : string * list artifact_envelope) : result unit :=
  match group.2 with
  | [] => Ok tt
  | first :: _ =>
    _ ← foldM (check_revision (a_kind first)) (1%Z, None) group.2;
    mret tt
  end.

Definition assertAppendOnlyRevisionSequence (existing appended : list artifact_envelope) :
  result unit :=
  foldM check_history tt (groupArtifactsById (existing ++ appended)).

(** ** References and descendants *)

Definition find_by_key (artifacts : list artifact_envelope) (key : string) :
  option artifact_envelope :=
  List.find (λ candidate, String.eqb (researchArtifactKey candidate) key) artifacts.

Definition unresolved (ref : artifact_ref) (label : string) : js_error :=
  repositoryError "missing_parent"
  (label +:+ " " +:+ fullRefKey ref +:+ " does not resolve exactly.").

Definition resolveRef (artifacts : list artifact_envelope) (ref : artifact_ref)
  (label : string) : result artifact_envelope :=
  match find_by_key artifacts (refKey ref) with
  | Some artifact =>
    if ref_matches artifact ref then Ok artifact else Throw (unresolved ref label)
  | None => Throw (unresolved ref label)
  end.

(** The descendants the work-list loop collects; the root is in the set
    only when an edge leads back to it.  The code's cache returns the same
    set for the same root. *)
Definition descendantKeys (graph : artifact_graph) (rootKey : string) : gset string :=
  (bfs (children_of (g_invalidationChildren graph)) (λ _ u, u)
   (S (length (g_artifacts graph))) [rootKey] ∅ tt).1.

Definition check_invalidation_root (artifacts : list artifact_envelope)
  (graph : artifact_graph) (artifact : artifact_envelope) (_ : unit) (root : artifact_ref) :
  result unit :=
  _ ← resolveRef artifacts root "artifact invalidation root";
  require_schema (bool_decide
    (researchArtifactKey artifact ∈ descendantKeys graph (refKey root)))
  ("Artifact invalidation root " +:+ fullRefKey root +:+ " is not an ancestor of "
     +:+ researchArtifactKey artifact +:+ ".").

Definition check_embedded (artifacts : list artifact_envelope) (graph : artifact_graph)
  (_ : unit) (artifact : artifact_envelope) : result unit :=
  match a_invalidation artifact with
  | Some invalidation =>
    foldM (check_invalidation_root artifacts graph artifact) tt (inv_roots invalidation)
  | None => Ok tt
  end.

Definition validateEmbeddedInvalidationRefs (artifacts : list artifact_envelope)
  (graph : artifact_graph) : result unit :=
  foldM (check_embedded artifacts graph) tt artifacts.

(** ** Replay *)

Record MaterializedState := mkState {
  ms_status : artifact_status;
  ms_updatedAt : Z;
  ms_invalidation : option artifact_invalidation;
}.

Definition initial_state (a : artifact_envelope) : MaterializedState :=
  mkState (a_status a) (a_updatedAt a) (a_invalidation a).

Definition initial_states (artifacts : list artifact_envelope) : jmap MaterializedState :=
  foldl (λ m a, jm_set (researchArtifactKey a) (initial_state a) m) [] artifacts.

(** The state an event leaves its artifact in; [event.reason!] is present
    in every invalidation event the validators let through. *)
Definition state_after (to : artifact_status) (cause : event_cause)
  (reason : option invalidation_reason) (roots : list artifact_ref) (changedAt : Z) :
  MaterializedState :=
  mkState to changedAt
  (match cause, reason with
   | Invalidation, Some r => Some (mkInvalidation changedAt r roots)
   | _, _ => None
   end).

Record replay_state := mkReplay {
  rs_states : jmap MaterializedState;
  rs_eventIds : list string;
  rs_count : Z;
  rs_previousTime : option Z;
}.

Definition not_before (t : Z) (previous : option Z) : bool :=
  match previous with Some p => (p <=? t)%Z | None => true end.

Definition valid_replacement (event : status_event) (artifact : artifact_envelope)
  (roots : list artifact_envelope) : bool :=
  match roots with
  | [replacement] =>
    (bool_decide (ev_from event = Active) || bool_decide (ev_from event = Stale))
    && String.eqb (a_artifactId replacement) (a_artifactId artifact)
    && bool_decide (a_kind replacement = a_kind artifact)
    && (a_revision replacement =? a_revision artifact + 1)%Z
    && (a_updatedAt replacement <=? ev_changedAt event)%Z
  | _ => false
  end.

Definition valid_invalidation (graph : artifact_graph) (event : status_event) (key : string)
  (roots : list artifact_envelope) : bool :=
  bool_decide (ev_from event = Active)
  && forallb (λ root, bool_decide (key ∈ descendantKeys graph (researchArtifactKey root))) roots.

Definition event_text (event : status_event) (text : string) : string :=
  "Status event " +:+ ev_eventId event +:+ text.

Definition replay_event (artifacts : list artifact_envelope) (graph : artifact_graph)
  (st : replay_state) (event : status_event) : result replay_state :=
  _ ← require_schema (ev_sequence event =? rs_count st + 1)%Z
      ("Status event sequence " +:+ pretty (ev_sequence event) +:+ " is not contiguous.");
  _ ← require_schema (bool_decide (ev_eventId event ∉ rs_eventIds st))
      (event_text event " is duplicated.");
  artifact ← resolveRef artifacts (ev_artifact event) "status event artifact";
  roots ← mapM (λ root, resolveRef artifacts root "status event root") (ev_roots event);
  let key := researchArtifactKey artifact in
  state ← of_option (TypeError "Cannot read properties of undefined (reading 'status')")
          (jm_get key (rs_states st));
  _ ← require_schema (not_before (ev_changedAt event) (rs_previousTime st))
      (event_text event " is out of chronological order.");
  _ ← require_schema (bool_decide (ms_status state = ev_from event))
      (event_text event (" expected " +:+ status_name (ev_from event) +:+ ", found "
         +:+ status_name (ms_status state) +:+ "."));
  _ ← require_schema (ms_updatedAt state <=? ev_changedAt event)%Z
      (event_text event " predates the artifact state it changes.");
  _ ← match ev_cause event with
    | NewRevision => require_schema (valid_replacement event artifact roots)
        (event_text event " is not a valid adjacent replacement transition.")
    | Invalidation => require_schema (valid_invalidation graph event key roots)
        (event_text event " does not stale a strict descendant of every root.")
    end;
  mret (mkReplay
        (jm_set key (state_after (ev_to event) (ev_cause event) (ev_reason event)
           (ev_roots event) (ev_changedAt event)) (rs_states st))
        (ev_eventId event :: rs_eventIds st) (rs_count st + 1)%Z
        (Some (ev_changedAt event))).

Definition replay_from (artifacts : list artifact_envelope) : replay_state :=
  mkReplay (initial_states artifacts) [] 0 None.

Definition replayStatusEvents (artifacts : list artifact_envelope)
  (events : list status_event) (graph : artifact_graph) : result (jmap MaterializedState) :=
  st ← foldM (replay_event artifacts graph) (replay_from artifacts) events;
  mret (rs_states st).

(** ** Recording *)

(** The event log and the states the transaction builds. *)
Record event_log := mkLog {
  log_events : list status_event;
  log_states : jmap MaterializedState;
}.

Definition with_id (body : status_event) (eventId : string) : status_event :=
  mkEvent (ev_sequence body) eventId (ev_artifact body) (ev_from body) (ev_to body)
  (ev_cause body) (ev_roots body) (ev_reason body) (ev_changedAt body).

Definition appendStatusEvent (log : event_log) (artifact : artifact_envelope)
  (to : artifact_status) (cause : event_cause) (roots : list artifact_ref)
  (reason : option invalidation_reason) (changedAt : Z) : result event_log :=
  let key := researchArtifactKey artifact in
  state ← of_option (TypeError ("Missing status state for " +:+ key +:+ "."))
          (jm_get key (log_states log));
  if decide (ms_status state = to) then Ok log
  else
  _ ← ensure (ms_updatedAt state <=? changedAt)%Z
        (repositoryError "revision_conflict" ("Status transition for " +:+ key
           +:+ " predates its current state."));
  let sequence := (Z.of_nat (length (log_events log)) + 1)%Z in
  let body := mkEvent sequence "" (toResearchArtifactRef artifact) (ms_status state) to
    cause (uniqueRefs roots) reason changedAt in
  eventId ← Repo.statusEventId body;
  let event := with_id body eventId in
  mret (mkLog (log_events log ++ [event])
          (jm_set key (state_after to cause reason (ev_roots event) changedAt)
             (log_states log))).

(** ** Precise invalidation *)

(** [rootsByDescendant]: per descendant, the roots it was reached from. *)
Definition root_map := jmap (jmap artifact_ref).

Definition record_root (explicit : gset string) (root : artifact_ref) (childKey : string)
  (m : root_map) : root_map :=
  if decide (childKey ∈ explicit) then m
  else jm_set childKey
       (jm_set (fullRefKey root) root (default [] (jm_get childKey m))) m.

Definition walk_root (graph : artifact_graph) (explicit : gset string) (m : root_map)
  (root : artifact_ref) : root_map :=
  (bfs (children_of (g_invalidationChildren graph)) (record_root explicit root)
   (S (length (g_artifacts graph))) [refKey root] {[refKey root]} m).2.

Definition roots_by_descendant (graph : artifact_graph) (roots : list artifact_ref) : root_map :=
  foldl (walk_root graph (list_to_set (refKey <$> roots))) [] roots.

Definition stale_step (artifacts : jmap artifact_envelope) (rootsOf : root_map)
  (reason : invalidation_reason) (changedAt : Z)
  (st : event_log * list artifact_ref) (key : string) :
  result (event_log * list artifact_ref) :=
  let '(log, staleRefs) := st in
  match jm_get key artifacts with
  | Some artifact =>
    if decide (ms_status <$> jm_get key (log_states log) = Some Active) then
      log' ← appendStatusEvent log artifact Stale Invalidation
               (jm_values (default [] (jm_get key rootsOf))) (Some reason) changedAt;
      mret (log', staleRefs ++ [toResearchArtifactRef artifact])
    else Ok st
  | None => Ok st
  end.

Definition appendPreciseInvalidationEvents (graph : artifact_graph)
  (artifacts : list artifact_envelope) (log : event_log) (roots : list artifact_ref)
  (reason : invalidation_reason) (changedAt : Z) :
  result (event_log * list artifact_ref) :=
  match roots with
  | [] => Ok (log, [])
  | _ =>
    let rootsOf := roots_by_descendant graph roots in
    st ← foldM (stale_step (jm_index researchArtifactKey artifacts) rootsOf reason changedAt)
           (log, []) (js_sort compareText (jm_keys rootsOf));
    mret (st.1, sortRefs st.2)
  end.

(** ** Materialization *)

Definition materialize_one (states : jmap MaterializedState) (artifact : artifact_envelope) :
  result artifact_envelope :=
  match jm_get (researchArtifactKey artifact) states with
  | Some state =>
    Ok (mkEnvelope (a_artifactId artifact) (a_revision artifact) (a_kind artifact)
          (ms_status state) (a_createdAt artifact) (ms_updatedAt state)
          (a_contentHash artifact) (a_producer artifact) (a_parents artifact)
          (a_sources artifact) (ms_invalidation state) (a_payload artifact))
  | None => invalidSchema ("Artifact " +:+ researchArtifactKey artifact
            +:+ " has no materialized state.")
  end.

Definition materializeArtifacts (artifacts : list artifact_envelope)
  (events : list status_event) : result (list artifact_envelope) :=
  graph ← validateCompleteArtifactGraph artifacts;
  states ← replayStatusEvents artifacts events graph;
  mapM (materialize_one states) artifacts.
End Events.
