(* ===== verification/Repository.v ===== *)
(** * The research artifact repository

    src/src/research/artifacts/repository.ts: the manifest validator, the
    directory and file checks, and the exported operations (load, append,
    invalidate, get, history, list) as functions of the project's file tree.
    What happens between processes (the lock file) is in RepoLock.v. *)

From S2P Require Import Prelude Host JsValue ArtifactTypes ArtifactGraph RepoModel RepoEvents.

(** ** The project's file tree *)

Inductive node := Absent | Directory | OtherNode.

(** What [lstat], [readFile] and [JSON.parse] find at the manifest path. *)
Inductive manifest_file :=
  | NoManifest
  | NotRegular
  | TooLarge
  | NotJson
  | JsonFile (value : jsval).

Record project_tree := mkTree {
  t_root : node;
  t_rigorium : node;
  t_research : node;
  t_artifacts : node;
  t_manifest : manifest_file;
}.

#[export] Instance node_eq_dec : EqDecision node.
Proof. solve_decision. Defined.

(** ** Results *)

Record repository_snapshot := mkSnapshot {
  sn_repositoryId : string;
  sn_revision : Z;
  sn_createdAt : Z;
  sn_updatedAt : Z;
  sn_contentHash : string;
  sn_artifacts : list artifact_envelope;
}.

Record append_result := mkAppendResult {
  ar_snapshot : repository_snapshot;
  ar_appendedRefs : list artifact_ref;
  ar_idempotentRefs : list artifact_ref;
  ar_supersededRefs : list artifact_ref;
  ar_staleRefs : list artifact_ref;
  ar_persisted : bool;
}.

Record invalidate_result := mkInvalidateResult {
  ir_snapshot : repository_snapshot;
  ir_roots : list artifact_ref;
  ir_staleRefs : list artifact_ref;
  ir_persisted : bool;
}.

Section Repository.
Context `{Host}.

(** ** The manifest *)

Definition assert_all_before {A} (time : A → Z) (text : A → string) (limit : Z) (l : list A) :
  result unit :=
  foldM (λ _ x, require_schema (time x <=? limit)%Z (text x)) tt l.

Definition validateResearchArtifactRepositoryManifest (value : jsval) :
  result repository_manifest :=
  _ ← Repo.expectRecord value "repository manifest";
  _ ← require_schema (is_num RESEARCH_ARTIFACT_REPOSITORY_SCHEMA_VERSION
        (jget value "schemaVersion")
      && is_str "research_artifact_repository" (jget value "kind"))
      "Unsupported research artifact repository schema.";
  match jget value "artifacts", jget value "statusEvents" with
  | JArr artifactsRaw, JArr eventsRaw =>
    artifacts ← mapM Repo.normalizeEnvelope artifactsRaw;
    statusEvents ← Repo.normalizeStatusEvents 1 eventsRaw;
    repositoryId ← Repo.requireIdentifier (jget value "repositoryId") "repositoryId";
    revision ← Repo.requirePositiveInteger (jget value "revision") "revision";
    createdAt ← Repo.requireDate (jget value "createdAt") "createdAt";
    updatedAt ← Repo.requireDate (jget value "updatedAt") "updatedAt";
    _ ← require_schema (createdAt <=? updatedAt)%Z
          "Repository updatedAt must not precede createdAt.";
    contentHash ← Repo.requireHash (jget value "contentHash") "contentHash";
    let normalized := mkManifest repositoryId revision createdAt updatedAt artifacts
      statusEvents contentHash in
    hash ← hashResearchArtifactContent (manifest_body_to_json normalized);
    _ ← ensure (String.eqb hash contentHash)
          (repositoryError "integrity_mismatch"
             "Repository contentHash does not match its canonical content.");
    graph ← validateCompleteArtifactGraph artifacts;
    _ ← assertAppendOnlyRevisionSequence [] artifacts;
    _ ← validateEmbeddedInvalidationRefs artifacts graph;
    _ ← replayStatusEvents artifacts statusEvents graph;
    _ ← assert_all_before a_updatedAt
          (λ a, "Artifact " +:+ researchArtifactKey a +:+ " is newer than the repository commit.")
          updatedAt artifacts;
    _ ← assert_all_before ev_changedAt
          (λ e, event_text e " is newer than the repository commit.")
          updatedAt statusEvents;
    _ ← Repo.assertCanonicalShape value (manifest_to_json normalized)
          "Repository manifest contains unknown or non-canonical fields.";
    mret normalized
  | _, _ => invalidSchema "Repository artifacts and statusEvents must be arrays."
  end.

(** The [contentHash] of the argument is ignored. *)
Definition sealManifest (m : repository_manifest) : result repository_manifest :=
  hash ← hashResearchArtifactContent (manifest_body_to_json m);
  mret (mkManifest (m_repositoryId m) (m_revision m) (m_createdAt m) (m_updatedAt m)
        (m_artifacts m) (m_statusEvents m) hash).

Definition createEmptyManifest (now : Z) (uuid : string) : result repository_manifest :=
  sealManifest (mkManifest ("artifact-repository-" +:+ uuid) 1 now now [] [] "").

Definition snapshotOf (manifest : repository_manifest) : result repository_snapshot :=
  artifacts ← materializeArtifacts (m_artifacts manifest) (m_statusEvents manifest);
  mret (mkSnapshot (m_repositoryId manifest) (m_revision manifest) (m_createdAt manifest)
        (m_updatedAt manifest) (m_contentHash manifest) artifacts).

(** ** Directories and the manifest file *)

Definition path_violation (message : string) : js_error :=
  repositoryError "path_violation" message.

Definition getProjectResearchArtifactPaths (projectRoot : jsval) : result unit :=
  let refused := repositoryError "invalid_input" "projectRoot must be a non-empty path." in
  match projectRoot with
  | JStr s => ensure (negb (String.eqb (js_trim s) "")) refused
  | _ => Throw refused
  end.

Definition assertProjectRoot (tree : project_tree) : result unit :=
  ensure (bool_decide (t_root tree = Directory))
  (repositoryError "invalid_project_root" "projectRoot must be an existing regular directory.").

Definition assertExistingDirectoryChain (tree : project_tree) : result unit :=
  _ ← assertProjectRoot tree;
  ensure (forallb (λ n, bool_decide (n ≠ OtherNode))
          [t_rigorium tree; t_research tree; t_artifacts tree])
  (path_violation "Artifact repository directories must not be files or symbolic links.").

(** [mkdir] then [lstat] of each directory. *)
Definition ensureDirectory (n : node) : result node :=
  match n with
  | Absent | Directory => Ok Directory
  | OtherNode => Throw (path_violation
    "Artifact repository directories must be regular project-local directories.")
  end.

Definition ensureDirectories (tree : project_tree) : result project_tree :=
  _ ← assertProjectRoot tree;
  rigorium ← ensureDirectory (t_rigorium tree);
  research ← ensureDirectory (t_research tree);
  artifacts ← ensureDirectory (t_artifacts tree);
  mret (mkTree (t_root tree) rigorium research artifacts (t_manifest tree)).

Definition readBoundedJson (file : manifest_file) : result (option jsval) :=
  match file with
  | NoManifest => Ok None
  | NotRegular => Throw (path_violation "Artifact repository manifest must be a regular file.")
  | TooLarge => Throw (repositoryError "file_too_large"
    "Artifact repository manifest exceeds its size limit.")
  | NotJson => Throw (repositoryError "corrupt_json"
    "Artifact repository manifest is not valid JSON.")
  | JsonFile value => Ok (Some value)
  end.

Definition readManifest (tree : project_tree) : result (option repository_manifest) :=
  value ← readBoundedJson (t_manifest tree);
  match value with
  | None => Ok None
  | Some value =>
    m ← validateResearchArtifactRepositoryManifest value;
    mret (Some m)
  end.

(** [`${JSON.stringify(manifest, null, 2)}\n`]. *)
Definition manifest_text (manifest : repository_manifest) : string :=
  default "" (json_stringify "" (manifest_to_json manifest)) +:+ String (ascii_of_N 10) "".

(** The rename replaces the file as a whole; reading it back parses what
    [JSON.stringify] wrote. *)
Definition writeManifestAtomically (tree : project_tree) (manifest : repository_manifest) :
  result project_tree :=
  _ ← ensure (utf8_length (manifest_text manifest) <=? MAX_RESEARCH_ARTIFACT_REPOSITORY_BYTES)%Z
      (repositoryError "file_too_large" "Artifact repository manifest exceeds its size limit.");
  match t_manifest tree with
  | NotRegular =>
    Throw (path_violation "Artifact repository manifest must be a regular file.")
  | _ => Ok (mkTree (t_root tree) (t_rigorium tree) (t_research tree) (t_artifacts tree)
             (JsonFile (manifest_to_json manifest)))
  end.

(** ** Arguments *)

Definition normalizeExpectedRevision (value : jsval) : result (option Z) :=
  if is_undefined value then Ok None
  else match as_safe_integer value with
     | Some z =>
         if (z <? 0)%Z then
           Throw (repositoryError "invalid_input"
             "expectedRepositoryRevision must be a non-negative integer.")
         else Ok (Some z)
     | None => Throw (repositoryError "invalid_input"
         "expectedRepositoryRevision must be a non-negative integer.")
     end.

Definition assertExpectedRevision (actual : Z) (expected : option Z) : result unit :=
  match expected with
  | None => Ok tt
  | Some e =>
    ensure (e =? actual)%Z (repositoryError "revision_conflict"
      ("Expected repository revision " +:+ pretty e +:+ ", found " +:+ pretty actual +:+ "."))
  end.

Definition assertTransactionTime (manifest : repository_manifest) (now : Z) : result unit :=
  ensure (m_updatedAt manifest <=? now)%Z (repositoryError "revision_conflict"
  "Transaction time predates the repository's latest committed update.").

(** [canonicalJson(a) === canonicalJson(b)]. *)
Definition same_envelope (a b : artifact_envelope) : result bool :=
  x ← canonicalJson (envelope_to_json a);
  y ← canonicalJson (envelope_to_json b);
  mret (String.eqb x y).

Definition supply_step (byKey : jmap artifact_envelope) (value : jsval) :
  result (jmap artifact_envelope) :=
  artifact ← Repo.normalizeEnvelope value;
  let key := researchArtifactKey artifact in
  same ← match jm_get key byKey with
       | Some existing => same_envelope existing artifact
       | None => Ok true
       end;
  _ ← ensure same (repositoryError "artifact_conflict"
      ("Input contains conflicting artifact " +:+ key +:+ "."));
  mret (jm_set key artifact byKey).

Definition normalizeSuppliedArtifacts (artifacts : list jsval) :
  result (list artifact_envelope) :=
  byKey ← foldM supply_step [] artifacts;
  mret (jm_values byKey).

(** ** [appendProjectResearchArtifacts] *)

Record append_state := mkAppend {
  ap_existing : jmap artifact_envelope;
  ap_appended : list artifact_envelope;
  ap_idempotent : list artifact_ref;
}.

(** One supplied envelope: new, or already stored with the same content. *)
Definition append_step (st : append_state) (artifact : artifact_envelope) :
  result append_state :=
  let key := researchArtifactKey artifact in
  match jm_get key (ap_existing st) with
  | None => Ok (mkAppend (jm_set key artifact (ap_existing st)) (ap_appended st ++ [artifact])
                (ap_idempotent st))
  | Some persisted =>
    same ← same_envelope persisted artifact;
    _ ← ensure same (repositoryError "artifact_conflict"
          ("Artifact " +:+ key
           +:+ " already exists with different immutable envelope content."));
    mret (mkAppend (ap_existing st) (ap_appended st)
            (ap_idempotent st ++ [toResearchArtifactRef persisted]))
  end.

Record supersede_state := mkSupersede {
  ss_log : event_log;
  ss_superseded : list artifact_ref;
  ss_updatedRoots : list artifact_ref;
}.

(** A freshly appended revision [current] supersedes its predecessor. *)
Definition supersede_step (appendedKeys : list string) (now : Z) (st : supersede_state)
  (pair : artifact_envelope * artifact_envelope) : result supersede_state :=
  let '(previous, current) := pair in
  if decide (researchArtifactKey current ∉ appendedKeys) then Ok st
  else
  let updatedRoots := ss_updatedRoots st ++ [toResearchArtifactRef previous] in
  let status := ms_status <$> jm_get (researchArtifactKey previous) (log_states (ss_log st)) in
  if decide (status = Some Active ∨ status = Some Stale) then
    log ← appendStatusEvent (ss_log st) previous Superseded NewRevision
            [toResearchArtifactRef current] None now;
    mret (mkSupersede log (ss_superseded st ++ [toResearchArtifactRef previous]) updatedRoots)
  else Ok (mkSupersede (ss_log st) (ss_superseded st) updatedRoots).

(** [history[index - 1], history[index]] for [index >= 1]. *)
Fixpoint adjacent {A} (l : list A) : list (A * A) :=
  match l with
  | x :: ((y :: _) as l') => (x, y) :: adjacent l'
  | _ => []
  end.

(** The roots of the artifacts that are not active after the new revisions. *)
Definition inherited_roots (states : jmap MaterializedState)
  (artifacts : list artifact_envelope) : list artifact_ref :=
  toResearchArtifactRef <$>
  filter (λ a, ms_status <$> jm_get (researchArtifactKey a) states ≠ Some Active) artifacts.

Definition assert_not_after (now : Z) (_ : unit) (artifact : artifact_envelope) : result unit :=
  ensure (a_updatedAt artifact <=? now)%Z (repositoryError "revision_conflict"
  ("Artifact " +:+ researchArtifactKey artifact +:+ " is dated after the transaction time.")).

(** The part of the transaction that computes the next manifest from the
    base one and the new envelopes: the manifest with the superseded and
    the stale references. *)
Definition commit_appended (base : repository_manifest) (nextRevision : Z)
  (appended : list artifact_envelope) (now : Z) :
  result (repository_manifest * list artifact_ref * list artifact_ref) :=
  _ ← assertTransactionTime base now;
  _ ← foldM (assert_not_after now) tt appended;
  _ ← assertAppendOnlyRevisionSequence (m_artifacts base) appended;
  let artifacts := m_artifacts base ++ appended in
  graph ← validateCompleteArtifactGraph artifacts;
  _ ← validateEmbeddedInvalidationRefs artifacts graph;
  states ← replayStatusEvents artifacts (m_statusEvents base) graph;
  superseded ← foldM (supersede_step (researchArtifactKey <$> appended) now)
  (mkSupersede (mkLog (m_statusEvents base) states) [] [])
  (concat (adjacent <$> jm_values (groupArtifactsById artifacts)));
  stale ← appendPreciseInvalidationEvents graph artifacts (ss_log superseded)
  (uniqueRefs (ss_updatedRoots superseded ++
     inherited_roots (log_states (ss_log superseded)) artifacts))
  UpstreamChanged now;
  manifest ← sealManifest (mkManifest (m_repositoryId base) nextRevision (m_createdAt base) now
  artifacts (log_events stale.1) "");
  mret (manifest, ss_superseded superseded, stale.2).

(** The callback [withRepositoryLock] runs. *)
Definition append_transaction (supplied : list artifact_envelope) (expectedRevision : option Z)
  (now : Z) (uuid : string) (tree : project_tree) : result (append_result * project_tree) :=
  existing ← readManifest tree;
  _ ← assertExpectedRevision (default 0%Z (m_revision <$> existing)) expectedRevision;
  base ← match existing with Some m => Ok m | None => createEmptyManifest now uuid end;
  st ← foldM append_step (mkAppend (jm_index researchArtifactKey (m_artifacts base)) [] [])
       supplied;
  match ap_appended st with
  | [] =>
    snapshot ← snapshotOf base;
    mret (mkAppendResult snapshot [] (sortRefs (ap_idempotent st)) [] [] false, tree)
  | appended =>
    r ← commit_appended base
          (match existing with Some m => m_revision m + 1 | None => 1 end)%Z appended now;
    let '(manifest, supersededRefs, staleRefs) := r in
    tree' ← writeManifestAtomically tree manifest;
    snapshot ← snapshotOf manifest;
    mret (mkAppendResult snapshot (sortRefs (toResearchArtifactRef <$> appended))
            (sortRefs (ap_idempotent st)) (uniqueRefs supersededRefs) staleRefs true, tree')
  end.

(** [now] is the time value of [input.now ?? new Date()], [None] when that
    date is invalid. *)
Definition appendProjectResearchArtifacts (projectRoot artifacts expected : jsval)
  (now : option Z) (uuid : string) (tree : project_tree) :
  result (append_result * project_tree) :=
  rawArtifacts ← match artifacts with
  | JArr (x :: l) => Ok (x :: l)
  | _ => Throw (repositoryError "invalid_input" "artifacts must be a non-empty array.")
  end;
  _ ← getProjectResearchArtifactPaths projectRoot;
  now ← Repo.requireDateObject now "now";
  expectedRevision ← normalizeExpectedRevision expected;
  supplied ← normalizeSuppliedArtifacts rawArtifacts;
  tree ← ensureDirectories tree;
  append_transaction supplied expectedRevision now uuid tree.

Definition appendProjectResearchArtifact (projectRoot artifact expected : jsval)
  (now : option Z) (uuid : string) (tree : project_tree) :
  result (append_result * project_tree) :=
  appendProjectResearchArtifacts projectRoot (JArr [artifact]) expected now uuid tree.

(** ** [invalidateProjectResearchArtifactDescendants] *)

Definition invalidate_transaction (roots : list artifact_ref) (reason : invalidation_reason)
  (expectedRevision : option Z) (now : Z) (tree : project_tree) :
  result (invalidate_result * project_tree) :=
  existing ← readManifest tree;
  existing ← of_option (repositoryError "missing_parent"
             "Cannot invalidate artifacts before the repository exists.") existing;
  _ ← assertExpectedRevision (m_revision existing) expectedRevision;
  graph ← validateCompleteArtifactGraph (m_artifacts existing);
  _ ← mapM (λ root, resolveRef (m_artifacts existing) root "invalidation root") roots;
  states ← replayStatusEvents (m_artifacts existing) (m_statusEvents existing) graph;
  stale ← appendPreciseInvalidationEvents graph (m_artifacts existing)
  (mkLog (m_statusEvents existing) states) roots reason now;
  match stale.2 with
  | [] =>
    snapshot ← snapshotOf existing;
    mret (mkInvalidateResult snapshot roots [] false, tree)
  | staleRefs =>
    _ ← assertTransactionTime existing now;
    manifest ← sealManifest (mkManifest (m_repositoryId existing) (m_revision existing + 1)
      (m_createdAt existing) now (m_artifacts existing) (log_events stale.1) "");
    tree' ← writeManifestAtomically tree manifest;
    snapshot ← snapshotOf manifest;
    mret (mkInvalidateResult snapshot roots staleRefs true, tree')
  end.

Definition invalidateProjectResearchArtifactDescendants
  (projectRoot roots reason expected : jsval) (now : option Z) (tree : project_tree) :
  result (invalidate_result * project_tree) :=
  rawRoots ← match roots with
  | JArr (x :: l) => Ok (x :: l)
  | _ => Throw (repositoryError "invalid_input" "roots must be a non-empty array.")
  end;
  reason ← of_option (repositoryError "invalid_input"
             "reason must be a supported artifact invalidation reason.")
           (parse_enum INVALIDATION_REASONS reason_name reason);
  _ ← getProjectResearchArtifactPaths projectRoot;
  roots ← Repo.normalizeRoots rawRoots;
  now ← Repo.requireDateObject now "now";
  expectedRevision ← normalizeExpectedRevision expected;
  tree ← ensureDirectories tree;
  invalidate_transaction roots reason expectedRevision now tree.

(** ** Queries *)

Definition loadProjectResearchArtifactRepository (projectRoot : jsval) (tree : project_tree) :
  result (option repository_snapshot) :=
  _ ← getProjectResearchArtifactPaths projectRoot;
  _ ← assertExistingDirectoryChain tree;
  manifest ← readManifest tree;
  match manifest with
  | None => Ok None
  | Some m => s ← snapshotOf m; mret (Some s)
  end.

Definition stored_artifacts (snapshot : option repository_snapshot) : list artifact_envelope :=
  match snapshot with Some s => sn_artifacts s | None => [] end.

Definition getProjectResearchArtifact (projectRoot artifactId revision : jsval)
  (tree : project_tree) : result (option artifact_envelope) :=
  artifactId ← Repo.requireIdentifier artifactId "artifactId";
  revision ← Repo.requirePositiveInteger revision "revision";
  snapshot ← loadProjectResearchArtifactRepository projectRoot tree;
  mret (List.find (λ a, String.eqb (a_artifactId a) artifactId && (a_revision a =? revision)%Z)
        (stored_artifacts snapshot)).

Definition getProjectResearchArtifactHistory (projectRoot artifactId : jsval)
  (tree : project_tree) : result (list artifact_envelope) :=
  artifactId ← Repo.requireIdentifier artifactId "artifactId";
  snapshot ← loadProjectResearchArtifactRepository projectRoot tree;
  mret (js_sort compare_revision
        (filter (λ a, a_artifactId a = artifactId) (stored_artifacts snapshot))).

Definition getLatestProjectResearchArtifact (projectRoot artifactId : jsval)
  (tree : project_tree) : result (option artifact_envelope) :=
  id ← Repo.requireIdentifier artifactId "artifactId";
  history ← getProjectResearchArtifactHistory projectRoot (JStr id) tree;
  mret (last history).

Definition optional_enum {A} (all : list A) (name : A → string) (value : jsval)
  (message : string) : result (option A) :=
  if is_undefined value then Ok None
  else a ← of_option (repositoryError "invalid_input" message) (parse_enum all name value);
     mret (Some a).

Definition listLatestProjectResearchArtifacts (projectRoot kind status : jsval)
  (tree : project_tree) : result (list artifact_envelope) :=
  kind ← optional_enum RESEARCH_ARTIFACT_KINDS kind_name kind "Unsupported artifact kind.";
  status ← optional_enum ARTIFACT_STATUSES status_name status "Unsupported artifact status.";
  snapshot ← loadProjectResearchArtifactRepository projectRoot tree;
  mret (filter (λ a, (kind = None ∨ kind = Some (a_kind a)) ∧
                   (status = None ∨ status = Some (a_status a)))
        (latestResearchArtifactRevisions (stored_artifacts snapshot))).
End Repository.
