(* ===== verification/RepoJson.v ===== *)
(** * Reading back what the repository writes

    The validators of RepoModel.v accept the JSON image of every well-formed
    record and return it, and every record they return is well formed. *)

From S2P Require Import Prelude Host JsValue ArtifactTypes RepoModel.

(** ** Well-formed records *)

(** A reference to a stored artifact. *)
Definition wf_artifact_ref (r : artifact_ref) : Prop :=
  wf_ref r ∧ ref_kind_of r ≠ ClaimRef.

Definition wf_roots `{Host} (roots : list artifact_ref) : Prop :=
  roots ≠ [] ∧ Forall wf_artifact_ref roots ∧ uniqueRefs roots = roots.

Definition wf_invalidation `{Host} (createdAt updatedAt : Z) (i : artifact_invalidation) : Prop :=
  is_time_value (inv_invalidatedAt i) = true ∧
  (createdAt ≤ inv_invalidatedAt i ≤ updatedAt)%Z ∧ wf_roots (inv_roots i).

(** What [normalizeEnvelope] guarantees. *)
Definition wf_envelope `{Host} (a : artifact_envelope) : Prop :=
  wf_content a ∧
  is_time_value (a_createdAt a) = true ∧ is_time_value (a_updatedAt a) = true ∧
  (a_createdAt a ≤ a_updatedAt a)%Z ∧
  parse_canonical (a_payload a) = Ok (a_payload a) ∧
  Repo.isLegacyLiteratureNoveltyRescanEnvelope (a_kind a) (a_payload a) = false ∧
  Repo.validateArtifactPayloadContract (a_kind a) (a_payload a) = Ok tt ∧
  opt_all (λ i, a_status a = Stale ∧ wf_invalidation (a_createdAt a) (a_updatedAt a) i)
    (a_invalidation a).

(** What [normalizeStatusEvent] guarantees, the spelling of the id apart. *)
Definition event_ok `{Host} (e : status_event) : Prop :=
  wf_artifact_ref (ev_artifact e) ∧
  ev_from e ≠ ev_to e ∧ Repo.cause_matches (ev_cause e) (ev_to e) (ev_reason e) = true ∧
  wf_roots (ev_roots e) ∧ is_time_value (ev_changedAt e) = true ∧
  Repo.statusEventId e = Ok (ev_eventId e).

Definition wf_event `{Host} (e : status_event) : Prop :=
  is_safe_identifier (ev_eventId e) = true ∧ event_ok e.

(** Events numbered from [n]. *)
Fixpoint numbered (P : status_event → Prop) (n : Z) (events : list status_event) : Prop :=
  match events with
  | [] => True
  | e :: events => P e ∧ ev_sequence e = n ∧ numbered P (n + 1) events
  end.

Definition wf_events `{Host} : Z → list status_event → Prop := numbered wf_event.

(** A value [canonicalJson] can print. *)
Definition clean `{Host} (v : jsval) : Prop := is_ok (canonicalJson v) = true.

(** ** Lemmas: values with a canonical text *)

Lemma is_ok_ex {A} (r : result A) : is_ok r = true ↔ ∃ a, r = Ok a.
Proof. destruct r; simpl; split; naive_solver. Qed.

Lemma mapM_is_ok {A B} (f : A → result B) l :
  is_ok (mapM f l) = true ↔ Forall (λ x, is_ok (f x) = true) l.
Proof.
  rewrite is_ok_ex. setoid_rewrite mapM_Ok. split.
  - intros [k Hk]. induction Hk as [|x y ?? Hx]; constructor; [|done]. by rewrite Hx.
  - induction 1 as [|x l Hx _ [k IH]]; [by exists []|].
    apply is_ok_ex in Hx as [y Hy]. exists (y :: k). by constructor.
Qed.

Section Clean.
Context `{Host}.

Lemma clean_arr l : clean (JArr l) ↔ Forall clean l.
Proof.
  unfold clean, canonicalJson. cbn [serializeCanonical].
  transitivity (is_ok (mapM id (map serializeCanonical l)) = true).
  - by destruct (mapM id (map serializeCanonical l)).
  - rewrite mapM_is_ok. change (map serializeCanonical l) with (serializeCanonical <$> l).
  by rewrite Forall_fmap.
Qed.

Lemma field_text_clean v : is_ok (field_text v) = true ↔ v ≠ JUndefined ∧ clean v.
Proof.
  destruct v; [split; [done|by intros [? _]]|..];
  (split; [intros Hok; split; [done|exact Hok] | intros [_ Hok]; exact Hok]).
Qed.

Lemma clean_obj fields :
  clean (JObj fields) ↔ Forall (λ kv, kv.2 ≠ JUndefined ∧ clean kv.2) fields.
Proof.
  unfold clean, canonicalJson. rewrite serializeCanonical_obj. unfold join_entries.
  set (entries := map _ fields).
  transitivity (is_ok (mapM entry_text (js_sort cmp_key entries)) = true).
  { by destruct (mapM entry_text (js_sort cmp_key entries)). }
  rewrite mapM_is_ok, js_sort_perm. unfold entries.
  change (map ?h fields) with (h <$> fields). rewrite Forall_fmap.
  apply Forall_iff. intros [k v]. unfold entry_text, compose. simpl.
  rewrite <- field_text_clean. by destruct (field_text v).
Qed.

Lemma clean_int z : clean (JNum (NInt z)).
Proof. done. Qed.
Lemma clean_str s : clean (JStr s).
Proof. done. Qed.

Lemma clean_not_undefined v : clean v → v ≠ JUndefined.
Proof. by intros Hc ->. Qed.

Lemma clean_opt_field {A} key (f : A → jsval) o :
  (∀ a, o = Some a → clean (f a)) →
  Forall (λ kv, kv.2 ≠ JUndefined ∧ clean kv.2) (opt_field key f o).
Proof.
  destruct o as [a|]; simpl; [|constructor]. intros Ha.
  constructor; [|constructor]. simpl. split; [apply clean_not_undefined|]; auto.
Qed.

Lemma clean_map {A} (f : A → jsval) l : (∀ a, a ∈ l → clean (f a)) → clean (JArr (map f l)).
Proof. rewrite clean_arr, Forall_fmap, Forall_forall. auto. Qed.
End Clean.

(** Cleanness of an object literal, field by field. *)
Ltac solve_clean :=
  repeat (cbn [snd]; match goal with
    | |- clean (JNum (NInt _)) => apply clean_int
    | |- clean (JStr _) => apply clean_str
    | |- clean (JObj _) => apply clean_obj
    | |- clean (JArr (map _ _)) => apply clean_map; intros ? ?
    | |- Forall _ (_ ++ _) => apply Forall_app
    | |- Forall _ (opt_field _ _ _) => apply clean_opt_field; intros ? ?
    | |- Forall _ (_ :: _) => apply Forall_cons
    | |- Forall _ [] => exact (Forall_nil_2 _)
    | |- JStr _ ≠ JUndefined => discriminate
    | |- JNum _ ≠ JUndefined => discriminate
    | |- JArr _ ≠ JUndefined => discriminate
    | |- JObj _ ≠ JUndefined => discriminate
    | |- _ ∧ _ => split
    end).

Section CleanRecords.
Context `{Host}.

Lemma clean_ref r : clean (ref_to_json r).
Proof. unfold ref_to_json. solve_clean. Qed.

Lemma clean_refs l : clean (JArr (map ref_to_json l)).
Proof. apply clean_map. intros r _. apply clean_ref. Qed.

Lemma clean_invalidation i : clean (invalidation_to_json i).
Proof. unfold invalidation_to_json, date_json. solve_clean. apply clean_ref. Qed.

Lemma clean_envelope a : clean (a_payload a) → clean (envelope_to_json a).
Proof.
  intros Hp. unfold envelope_to_json, date_json, producer_to_json, source_to_json,
  parent_to_json, ref_to_json.
  solve_clean; [by apply clean_not_undefined|done|apply clean_invalidation].
Qed.

Lemma clean_event_body e : clean (event_body_to_json e).
Proof. unfold event_body_to_json, event_body_fields, date_json, ref_to_json. solve_clean. Qed.

Lemma clean_event e : clean (event_to_json e).
Proof. unfold event_to_json, event_body_fields, date_json, ref_to_json. solve_clean. Qed.

Lemma clean_manifest_body m :
  Forall (λ a, clean (a_payload a)) (m_artifacts m) → clean (manifest_body_to_json m).
Proof.
  intros Hps. unfold manifest_body_to_json, manifest_body_fields, date_json.
  rewrite Forall_forall in Hps. solve_clean.
  - by apply clean_envelope, Hps.
  - apply clean_event.
Qed.

Lemma clean_manifest m :
  Forall (λ a, clean (a_payload a)) (m_artifacts m) → clean (manifest_to_json m).
Proof.
  intros Hps%clean_manifest_body. unfold manifest_to_json, manifest_body_to_json in *.
  apply clean_obj in Hps. apply clean_obj, Forall_app. split; [done|]. solve_clean.
Qed.

Lemma clean_hash v : clean v → ∃ h, hashResearchArtifactContent v = Ok h.
Proof.
  intros [t Ht]%is_ok_ex. unfold hashResearchArtifactContent. rewrite Ht. simpl. eauto.
Qed.

Lemma assertCanonicalShape_refl v msg : clean v → Repo.assertCanonicalShape v v msg = Ok tt.
Proof.
  intros [t Ht]%is_ok_ex. unfold Repo.assertCanonicalShape. rewrite Ht. simpl.
  by rewrite String.eqb_refl.
Qed.

Lemma assertCanonicalShape_Ok v w msg u :
  Repo.assertCanonicalShape v w msg = Ok u →
  clean v ∧ clean w ∧ canonicalJson v = canonicalJson w.
Proof.
  unfold Repo.assertCanonicalShape, clean.
  destruct (canonicalJson v) as [x|]; [|done]. cbn [mbind result_bind].
  destruct (canonicalJson w) as [y|]; [|done]. cbn [mbind result_bind].
  cbn [mret result_ret]. unfold Repo.assertCanonicalShape.
  destruct (String.eqb_spec x y) as [->|]; done.
Qed.

Lemma parse_canonical_clean v w : parse_canonical v = Ok w → clean v.
Proof. unfold parse_canonical, clean. intros Hrun. inv_result. by rewrite Hr. Qed.
End CleanRecords.

(** ** Lemmas: canonical payloads *)

Section Payloads.
Context `{Hhost : Host} `{!HostLaws Hhost}.

Lemma sort_keys_idemp v : sort_keys (sort_keys v) = sort_keys v.
Proof.
  induction v as [| | |n| |l IH|fields IH|] using jsval_nested_ind; try done.
  - by destruct n.
  - cbn [sort_keys]. f_equal. rewrite map_map. apply map_ext_in. intros v Hv.
  rewrite Forall_forall in IH. apply IH. by apply list_elem_of_In.
  - cbn [sort_keys]. f_equal. set (g := λ kv : string * jsval, (kv.1, sort_keys kv.2)).
  assert (map g (js_sort cmp_key (map g fields)) = js_sort cmp_key (map g fields)) as E;
    [|rewrite E; by rewrite js_sort_idemp by apply _].
  change (g <$> js_sort cmp_key (g <$> fields) = js_sort cmp_key (g <$> fields)).
  rewrite !js_sort_fmap, <- list_fmap_compose. apply list_fmap_ext.
  intros i [k v] Hkv%list_elem_of_lookup_2. rewrite elem_of_js_sort in Hkv.
  rewrite Forall_forall in IH. unfold g, compose. simpl. f_equal. by apply (IH (k, v)).
Qed.

Lemma parse_canonical_idemp v w : parse_canonical v = Ok w → parse_canonical w = Ok w.
Proof.
  intros Hrun. pose proof (canonicalJson_parse _ _ Hrun) as Hc.
  unfold parse_canonical in *. rewrite Hc. inv_result. rewrite Hr. simpl.
  by rewrite sort_keys_idemp.
Qed.

Lemma cloneCanonical_Ok v w : Repo.cloneCanonical v = Ok w → parse_canonical w = Ok w.
Proof.
  unfold Repo.cloneCanonical. destruct (parse_canonical v) eqn:E; [|done].
  intros [= <-]. by eapply parse_canonical_idemp.
Qed.

Lemma cloneCanonical_intro v : parse_canonical v = Ok v → Repo.cloneCanonical v = Ok v.
Proof. intros Hv. unfold Repo.cloneCanonical. by rewrite Hv. Qed.
End Payloads.

(** ** Lemmas: fields *)

Lemma require_schema_Ok b msg u : require_schema b msg = Ok u ↔ b = true.
Proof. destruct b, u; simpl; naive_solver. Qed.

Lemma require_schema_true b msg : b = true → require_schema b msg = Ok tt.
Proof. by intros ->. Qed.

Lemma repo_identifier_intro s label :
  is_safe_identifier s = true → Repo.requireIdentifier (JStr s) label = Ok s.
Proof. intros Hs. unfold Repo.requireIdentifier. by rewrite Hs. Qed.

Lemma repo_identifier_Ok v label s :
  Repo.requireIdentifier v label = Ok s → v = JStr s ∧ is_safe_identifier s = true.
Proof.
  destruct v as [| | | |t| | |]; simpl; try done.
  destruct (is_safe_identifier t) eqn:E; [|done]. by intros [= <-].
Qed.

Lemma repo_hash_intro s label : is_content_hash s = true → Repo.requireHash (JStr s) label = Ok s.
Proof. intros Hs. unfold Repo.requireHash. by rewrite Hs. Qed.

Lemma repo_hash_Ok v label s :
  Repo.requireHash v label = Ok s → v = JStr s ∧ is_content_hash s = true.
Proof.
  destruct v as [| | | |t| | |]; simpl; try done. destruct (is_content_hash t) eqn:E; [|done].
  by intros [= <-].
Qed.

Lemma repo_positive_intro z label :
  (1 ≤ z ≤ max_safe_integer)%Z → Repo.requirePositiveInteger (JNum (NInt z)) label = Ok z.
Proof.
  unfold max_safe_integer. intros Hz. unfold Repo.requirePositiveInteger, as_safe_integer.
  rewrite (proj2 (Z.leb_le _ _)) by lia. by rewrite (proj2 (Z.ltb_ge _ _)) by lia.
Qed.

Lemma repo_positive_Ok v label z :
  Repo.requirePositiveInteger v label = Ok z →
  v = JNum (NInt z) ∧ (1 ≤ z ≤ max_safe_integer)%Z.
Proof.
  unfold Repo.requirePositiveInteger, as_safe_integer, max_safe_integer.
  destruct v as [| | |[z'| | | |]| | | |]; try done.
  destruct (Z.leb_spec (Z.abs z') 9007199254740991); [|done].
  destruct (Z.ltb_spec z' 1); [done|]. intros [= <-]. split; [done|lia].
Qed.

Section Fields.
Context `{Hhost : Host} `{!HostLaws Hhost}.

Lemma repo_date_intro t label :
  is_time_value t = true → Repo.requireDate (date_json t) label = Ok t.
Proof. intros Ht. unfold Repo.requireDate, date_json. by rewrite date_parse_iso. Qed.

Lemma repo_date_Ok v label t : Repo.requireDate v label = Ok t → is_time_value t = true.
Proof.
  destruct v as [| | | |s| | |]; simpl; try done.
  intros Hs. inv_result. by eapply date_parse_range.
Qed.

Lemma repo_ref_intro r label :
  wf_artifact_ref r → Repo.normalizeRef (ref_to_json r) label = Ok r.
Proof.
  intros [(Hid & Hrev & Hh) Hk]. destruct r as [id rev k h]. simpl in *.
  destruct k as [k|]; [|done]. unfold Repo.normalizeRef, Repo.requireKind.
  change (jget (ref_to_json (mkRef id rev (ArtifactRef k) h)) "kind") with (JStr (kind_name k)).
  change (jget (ref_to_json (mkRef id rev (ArtifactRef k) h)) "artifactId") with (JStr id).
  change (jget (ref_to_json (mkRef id rev (ArtifactRef k) h)) "revision") with (JNum (NInt rev)).
  change (jget (ref_to_json (mkRef id rev (ArtifactRef k) h)) "contentHash") with (JStr h).
  rewrite parse_kind_name. cbn [mbind result_bind of_option].
  rewrite repo_identifier_intro by done. cbn [mbind result_bind].
  rewrite repo_positive_intro by done. cbn [mbind result_bind].
  by rewrite repo_hash_intro.
Qed.

Lemma repo_ref_Ok v label r : Repo.normalizeRef v label = Ok r → wf_artifact_ref r.
Proof.
  unfold Repo.normalizeRef. intros Hrun. inv_result.
  apply repo_identifier_Ok in Hr1 as [_ ?]. apply repo_positive_Ok in Hr2 as [_ ?].
  apply repo_hash_Ok in Hr3 as [_ ?]. done.
Qed.

#[export] Instance compareRefs_comparator : Comparator compareRefs.
Proof. change compareRefs with (cmp_on fullRefKey compareText). apply _. Qed.

Lemma elem_of_uniqueRefs_inv r refs : r ∈ uniqueRefs refs → r ∈ refs.
Proof.
  unfold uniqueRefs, jm_values. rewrite elem_of_js_sort, list_elem_of_fmap.
  intros ([k x] & -> & Hin). simpl.
  destruct (jm_get k (jm_index fullRefKey refs)) as [y|] eqn:E.
  - apply jm_elem_get in Hin; [|apply jm_index_keys_NoDup].
  by apply jm_index_Some in Hin as [? _].
  - exfalso. apply jm_get_None in E. apply E. unfold jm_keys.
  apply list_elem_of_fmap. by exists (k, x).
Qed.
End Fields.

(** ** Lemmas: roots and invalidations *)

Section Records.
Context `{Hhost : Host} `{!HostLaws Hhost}.

Lemma uniqueRefs_NoDup refs : NoDup (fullRefKey <$> uniqueRefs refs).
Proof.
  unfold uniqueRefs. rewrite js_sort_perm.
  replace (fullRefKey <$> jm_values (jm_index fullRefKey refs))
  with (jm_keys (jm_index fullRefKey refs)); [apply jm_index_keys_NoDup|].
  unfold jm_keys, jm_values. rewrite <- list_fmap_compose. apply list_fmap_ext.
  intros i [k r] Hi%list_elem_of_lookup_2. simpl.
  apply jm_elem_get in Hi; [|apply jm_index_keys_NoDup]. by apply jm_index_Some in Hi as [_ ?].
Qed.

Lemma content_hash_length h : is_content_hash h = true → String.length h = 71.
Proof.
  unfold is_content_hash. intros [[_ Hl]%andb_true_iff _]%andb_true_iff.
  by apply Nat.eqb_eq.
Qed.

(** The full key of a well-formed reference determines it. *)
Lemma fullRefKey_inj r1 r2 :
  wf_ref r1 → wf_ref r2 → fullRefKey r1 = fullRefKey r2 → r1 = r2.
Proof.
  intros (Hi1 & Hr1 & Hh1) (Hi2 & Hr2 & Hh2) Heq. unfold fullRefKey in Heq.
  apply (append_sep_inj ":"%char (ref_kind_name _) (ref_kind_name _)) in Heq as [Hk Heq];
  [|by destruct (ref_kind_of r1) as [[]|]|by destruct (ref_kind_of r2) as [[]|]].
  change (refKey ?r +:+ (":" +:+ ?h)) with (refKey r +:+ (String ":" h)) in Heq.
  apply append_inj_length in Heq as [Hkey Hh];
  [|cbn; by rewrite !content_hash_length].
  apply key_of_inj in Hkey as [Hid Hrev]; [|done..].
  apply ref_kind_name_inj in Hk. injection Hh as Hh.
  destruct r1, r2; cbn in *; congruence.
Qed.

Lemma elem_of_uniqueRefs r refs :
  Forall wf_ref refs → r ∈ uniqueRefs refs ↔ r ∈ refs.
Proof.
  intros Hwf. split; [apply elem_of_uniqueRefs_inv|]. intros Hr. rewrite Forall_forall in Hwf.
  assert (is_Some (jm_get (fullRefKey r) (jm_index fullRefKey refs))) as [r' Hr'].
  { apply jm_index_is_Some. by apply list_elem_of_fmap_2. }
  pose proof Hr' as [Hin Hk]%jm_index_Some.
  apply fullRefKey_inj in Hk as ->; [|by auto..].
  unfold uniqueRefs, jm_values. rewrite elem_of_js_sort, list_elem_of_fmap.
  exists (fullRefKey r, r). split; [done|]. by apply jm_get_elem.
Qed.

Lemma uniqueRefs_sort refs : NoDup (fullRefKey <$> refs) → uniqueRefs refs = sortRefs refs.
Proof. intros Hnd. unfold uniqueRefs. by rewrite jm_values_index. Qed.

Lemma uniqueRefs_idemp refs : uniqueRefs (uniqueRefs refs) = uniqueRefs refs.
Proof.
  rewrite (uniqueRefs_sort (uniqueRefs refs)) by apply uniqueRefs_NoDup.
  unfold sortRefs, uniqueRefs. by rewrite js_sort_idemp by apply _.
Qed.

Lemma uniqueRefs_nil_inv refs : uniqueRefs refs = [] → refs = [].
Proof.
  unfold uniqueRefs. rewrite js_sort_nil_iff. intros Hv. destruct refs as [|r refs]; [done|].
  assert (is_Some (jm_get (fullRefKey r) (jm_index fullRefKey (r :: refs)))) as Hr.
  { apply jm_index_is_Some. rewrite fmap_cons. by left. }
  unfold jm_values in Hv. apply fmap_nil_inv in Hv. rewrite Hv in Hr.
  by destruct Hr.
Qed.

Lemma normalizeRoots_intro roots :
  Forall wf_artifact_ref roots → uniqueRefs roots = roots →
  Repo.normalizeRoots (map ref_to_json roots) = Ok roots.
Proof.
  intros Hwf Hu. unfold Repo.normalizeRoots.
  assert (mapM (λ root, Repo.normalizeRef root "roots") (map ref_to_json roots) = Ok roots) as ->.
  { apply mapM_Ok, Forall2_fmap_l, Forall_Forall2_diag.
  eapply Forall_impl; [exact Hwf|]. intros r. by apply repo_ref_intro. }
  cbn [mbind result_bind]. by rewrite Hu.
Qed.

Lemma normalizeRoots_Ok l roots :
  Repo.normalizeRoots l = Ok roots → l ≠ [] → wf_roots roots.
Proof.
  unfold Repo.normalizeRoots. intros Hrun Hne. inv_result. apply mapM_Ok in Hr.
  split_and!.
  - intros Hu%uniqueRefs_nil_inv. subst. by inversion Hr; subst.
  - apply Forall_forall. intros x Hx%elem_of_uniqueRefs_inv.
  apply list_elem_of_lookup in Hx as [i Hi].
  destruct (Forall2_lookup_r _ _ _ _ _ Hr Hi) as (v & _ & Hv). by eapply repo_ref_Ok.
  - apply uniqueRefs_idemp.
Qed.

Lemma non_empty_array_Ok v msg l : Repo.non_empty_array v msg = Ok l → v = JArr l ∧ l ≠ [].
Proof. destruct v as [| | | | |[]| |]; simpl; try done. by intros [= <-]. Qed.

Lemma non_empty_array_map {A} (f : A → jsval) l msg :
  l ≠ [] → Repo.non_empty_array (JArr (map f l)) msg = Ok (map f l).
Proof. by destruct l. Qed.

Lemma normalizeInvalidation_intro c u i :
  wf_invalidation c u i → Repo.normalizeInvalidation (invalidation_to_json i) = Ok i.
Proof.
  intros (Ht & _ & Hne & Hwf & Hu). unfold Repo.normalizeInvalidation.
  change (Repo.expectRecord (invalidation_to_json i) "artifact invalidation") with (Ok tt).
  change (jget (invalidation_to_json i) "reason") with (JStr (reason_name (inv_reason i))).
  change (jget (invalidation_to_json i) "roots") with (JArr (map ref_to_json (inv_roots i))).
  change (jget (invalidation_to_json i) "invalidatedAt") with (date_json (inv_invalidatedAt i)).
  rewrite parse_reason_name. cbn [mbind result_bind of_option].
  rewrite non_empty_array_map by done. cbn [mbind result_bind].
  rewrite repo_date_intro by done. cbn [mbind result_bind].
  rewrite normalizeRoots_intro by done. by destruct i.
Qed.

Lemma normalizeInvalidation_Ok v i :
  Repo.normalizeInvalidation v = Ok i →
  is_time_value (inv_invalidatedAt i) = true ∧ wf_roots (inv_roots i).
Proof.
  unfold Repo.normalizeInvalidation. intros Hrun. inv_result. simpl.
  apply non_empty_array_Ok in Hr1 as [_ Hne]. apply repo_date_Ok in Hr2.
  apply normalizeRoots_Ok in Hr3; done.
Qed.
End Records.

(** ** Envelopes *)

Section Envelopes.
Context `{Hhost : Host} `{!HostLaws Hhost}.

Lemma jget_envelope_invalidation a :
  jget (envelope_to_json a) "invalidation" =
  default JUndefined (invalidation_to_json <$> a_invalidation a).
Proof. by destruct a as [? ? ? ? ? ? ? ? ? ? [] ?]. Qed.

Lemma rebuild_intro a :
  wf_content a →
  Repo.rebuild (envelope_to_json a) (a_kind a) (a_payload a) (a_createdAt a) =
  Ok (mkEnvelope (a_artifactId a) (a_revision a) (a_kind a) (a_status a) (a_createdAt a)
      (a_createdAt a) (a_contentHash a) (a_producer a) (a_parents a) (a_sources a) None
      (a_payload a)).
Proof.
  intros Hwf. unfold Repo.rebuild.
  change (jget (envelope_to_json a) "producer") with (producer_to_json (a_producer a)).
  change (jget (envelope_to_json a) "parents") with (JArr (map parent_to_json (a_parents a))).
  change (jget (envelope_to_json a) "sources") with (JArr (map source_to_json (a_sources a))).
  change (jget (envelope_to_json a) "artifactId") with (JStr (a_artifactId a)).
  change (jget (envelope_to_json a) "revision") with (JNum (NInt (a_revision a))).
  change (jget (envelope_to_json a) "status") with (JStr (status_name (a_status a))).
  by rewrite createResearchArtifact_rebuild.
Qed.

Lemma wf_content_hash a : wf_content a → is_content_hash (a_contentHash a) = true.
Proof. intros (_ & _ & _ & _ & _ & Hh). by eapply hash_is_content_hash. Qed.

Lemma invalidation_in_bounds_iff c u o :
  Repo.invalidation_in_bounds c u o = true ↔
  opt_all (λ i, (c ≤ inv_invalidatedAt i ≤ u)%Z) o.
Proof.
  destruct o as [i|]; simpl; [|done]. rewrite andb_true_iff, !Z.leb_le. done.
Qed.

(** The image of a well-formed envelope is read back as that envelope. *)
Lemma normalizeEnvelope_intro a :
  wf_envelope a → Repo.normalizeEnvelope (envelope_to_json a) = Ok a.
Proof.
  intros (Hwf & Hc & Hu & Hcu & Hp & Hleg & Hcon & Hi). unfold Repo.normalizeEnvelope.
  change (Repo.expectRecord (envelope_to_json a) "artifact envelope") with (Ok tt).
  change (is_num 1 (jget (envelope_to_json a) "schemaVersion")) with true.
  change (Repo.is_array (jget (envelope_to_json a) "parents")) with true.
  change (Repo.is_array (jget (envelope_to_json a) "sources")) with true.
  change (jget (envelope_to_json a) "kind") with (JStr (kind_name (a_kind a))).
  change (jget (envelope_to_json a) "createdAt") with (date_json (a_createdAt a)).
  change (jget (envelope_to_json a) "updatedAt") with (date_json (a_updatedAt a)).
  change (jget (envelope_to_json a) "payload") with (a_payload a).
  change (jget (envelope_to_json a) "contentHash") with (JStr (a_contentHash a)).
  rewrite jget_envelope_invalidation. unfold Repo.requireKind.
  rewrite parse_kind_name. cbn [mbind result_bind of_option andb require_schema].
  rewrite !repo_date_intro by done. cbn [mbind result_bind].
  rewrite require_schema_true by by apply Z.leb_le. cbn [mbind result_bind].
  rewrite cloneCanonical_intro by done. cbn [mbind result_bind].
  rewrite Hleg. cbn [negb ensure mbind result_bind]. rewrite Hcon. cbn [mbind result_bind].
  rewrite rebuild_intro by done. cbn [mbind result_bind a_contentHash].
  rewrite repo_hash_intro by by apply wf_content_hash. cbn [mbind result_bind].
  rewrite String.eqb_refl. cbn [ensure mbind result_bind].
  rewrite optional_field; [|done|].
  2: { eapply opt_all_impl; [|exact Hi]. intros i [_ Hinv]. by eapply normalizeInvalidation_intro. }
  cbn [mbind result_bind a_status].
  assert (bool_decide (a_invalidation a = None) || bool_decide (a_status a = Stale) = true)
  as Hst.
  { apply orb_true_iff. destruct (a_invalidation a); [right|by left].
  apply bool_decide_eq_true. by destruct Hi. }
  rewrite (require_schema_true _ _ Hst). cbn [mbind result_bind].
  rewrite (require_schema_true (Repo.invalidation_in_bounds _ _ _)).
  2: { apply invalidation_in_bounds_iff. eapply opt_all_impl; [|exact Hi]. by intros i (_ & _ & ? & _). }
  cbn [mbind result_bind a_artifactId a_revision a_producer a_parents a_sources].
  assert (mkEnvelope (a_artifactId a) (a_revision a) (a_kind a) (a_status a) (a_createdAt a)
  (a_updatedAt a) (a_contentHash a) (a_producer a) (a_parents a) (a_sources a)
  (a_invalidation a) (a_payload a) = a) as -> by by destruct a.
  rewrite assertCanonicalShape_refl; [done|].
  by apply clean_envelope, (parse_canonical_clean _ _ Hp).
Qed.

Lemma normalizeEnvelope_Ok v a : Repo.normalizeEnvelope v = Ok a → wf_envelope a.
Proof.
  unfold Repo.normalizeEnvelope. intros Hrun. inv_result. unfold wf_envelope. simpl.
  unfold Repo.rebuild in Hr8. destruct (createResearchArtifact _ _ _) as [b|] eqn:Eb; [|done].
  injection Hr8 as ->.
  apply createResearchArtifact_Ok in Eb as (Hwf & Hk & Hp & _). simpl in *.
  apply String.eqb_eq in Hr10. apply require_schema_Ok in Hr4, Hr12, Hr13.
  apply Z.leb_le in Hr4. apply invalidation_in_bounds_iff in Hr13.
  apply repo_date_Ok in Hr2, Hr3. split_and!; [|done..| | | |].
  - unfold wf_content in *. simpl. rewrite <- Hk, <- Hp, <- Hr10. done.
  - by eapply cloneCanonical_Ok.
  - by apply negb_true_iff.
  - by destruct r7.
  - destruct r11 as [i|]; simpl in *; [|done].
  apply bool_decide_eq_true in Hr12. split; [done|].
  unfold optional in Hr11. destruct (is_undefined _); [done|]. inv_result.
  match goal with Hn : Repo.normalizeInvalidation _ = Ok _ |- _ =>
    apply normalizeInvalidation_Ok in Hn as [? ?]; done end.
Qed.

Lemma wf_envelope_payload a : wf_envelope a → clean (a_payload a).
Proof. intros (_ & _ & _ & _ & Hp & _). by eapply parse_canonical_clean. Qed.
End Envelopes.

(** ** Status events *)

Section StatusEvents.
Context `{Hhost : Host} `{!HostLaws Hhost}.

Lemma jget_event_reason e :
  jget (event_to_json e) "reason" = default JUndefined ((λ r, JStr (reason_name r)) <$> ev_reason e).
Proof. by destruct e as [? ? ? ? ? ? ? [] ?]. Qed.

Lemma jget_event_changedAt e : jget (event_to_json e) "changedAt" = date_json (ev_changedAt e).
Proof. by destruct e as [? ? ? ? ? ? ? [] ?]. Qed.

Lemma statusEventId_intro e : ∃ id, Repo.statusEventId e = Ok id.
Proof.
  unfold Repo.statusEventId. destruct (clean_hash _ (clean_event_body e)) as [h ->].
  simpl. eauto.
Qed.

Lemma normalizeStatusEvent_intro e :
  wf_event e → Repo.normalizeStatusEvent (event_to_json e) (ev_sequence e) = Ok e.
Proof.
  intros (Hid & Ha & Hft & Hcm & (Hne & Hr & Hur) & Ht & Hh). unfold Repo.normalizeStatusEvent.
  change (Repo.expectRecord (event_to_json e) "status event") with (Ok tt).
  change (jget (event_to_json e) "sequence") with (JNum (NInt (ev_sequence e))).
  change (jget (event_to_json e) "cause") with (JStr (cause_name (ev_cause e))).
  change (jget (event_to_json e) "from") with (JStr (status_name (ev_from e))).
  change (jget (event_to_json e) "to") with (JStr (status_name (ev_to e))).
  change (jget (event_to_json e) "roots") with (JArr (map ref_to_json (ev_roots e))).
  change (jget (event_to_json e) "eventId") with (JStr (ev_eventId e)).
  change (jget (event_to_json e) "artifact") with (ref_to_json (ev_artifact e)).
  rewrite jget_event_reason, jget_event_changedAt.
  assert (is_num (ev_sequence e) (JNum (NInt (ev_sequence e))) = true) as Hseq
  by apply Z.eqb_refl.
  rewrite Hseq. cbn [mbind result_bind require_schema].
  assert (Repo.requireCause (JStr (cause_name (ev_cause e))) = Ok (ev_cause e)) as ->
  by by destruct (ev_cause e).
  unfold Repo.requireStatus. rewrite !parse_status_name. cbn [mbind result_bind of_option].
  rewrite (require_schema_true (bool_decide (ev_from e ≠ ev_to e)))
  by by apply bool_decide_eq_true. cbn [mbind result_bind].
  rewrite non_empty_array_map by done. cbn [mbind result_bind].
  rewrite normalizeRoots_intro by done. cbn [mbind result_bind].
  rewrite optional_field; [|done|].
  2: { destruct (ev_reason e) as [r|]; simpl; [|done]. unfold Repo.requireInvalidationReason.
  by rewrite parse_reason_name. }
  cbn [mbind result_bind]. rewrite Hcm. cbn [mbind result_bind require_schema].
  rewrite repo_identifier_intro by done. cbn [mbind result_bind].
  rewrite repo_ref_intro by done. cbn [mbind result_bind].
  rewrite repo_date_intro by done. cbn [mbind result_bind].
  assert (mkEvent (ev_sequence e) (ev_eventId e) (ev_artifact e) (ev_from e) (ev_to e)
  (ev_cause e) (ev_roots e) (ev_reason e) (ev_changedAt e) = e) as -> by by destruct e.
  rewrite assertCanonicalShape_refl by apply clean_event. cbn [mbind result_bind].
  unfold Repo.assertStatusEventId. rewrite Hh. cbn [mbind result_bind].
  by rewrite String.eqb_refl.
Qed.

Lemma normalizeStatusEvent_Ok v n e :
  Repo.normalizeStatusEvent v n = Ok e → wf_event e ∧ ev_sequence e = n.
Proof.
  unfold Repo.normalizeStatusEvent. intros Hrun. inv_result. split; [|done].
  rewrite require_schema_Ok in *.
  apply non_empty_array_Ok in Hr5 as [_ Hne]. apply normalizeRoots_Ok in Hr6; [|done].
  apply repo_identifier_Ok in Hr9 as [_ Hid]. apply repo_ref_Ok in Hr10.
  apply repo_date_Ok in Hr11. apply bool_decide_eq_true in Hr4.
  unfold Repo.assertStatusEventId in *. inv_result.
  match goal with He : String.eqb _ _ = true |- _ => apply String.eqb_eq in He end.
  unfold wf_event, event_ok. cbn in *. split_and!; try done. congruence.
Qed.

Lemma normalizeStatusEvents_intro events : ∀ n,
  wf_events n events → Repo.normalizeStatusEvents n (map event_to_json events) = Ok events.
Proof.
  induction events as [|e events IH]; intros n; simpl; [done|].
  intros (He & Hn & Hevents). subst n. rewrite normalizeStatusEvent_intro by done.
  cbn [mbind result_bind]. by rewrite IH.
Qed.

Lemma normalizeStatusEvents_Ok l : ∀ n events,
  Repo.normalizeStatusEvents n l = Ok events → wf_events n events.
Proof.
  induction l as [|v l IH]; intros n events; simpl; [by intros [= <-]|].
  intros Hrun. inv_result. apply normalizeStatusEvent_Ok in Hr as [? ?].
  split_and!; [done..|]. by apply IH.
Qed.

End StatusEvents.

(** ** Numbered events *)

Lemma numbered_app P es1 es2 : ∀ n,
  numbered P n (es1 ++ es2) ↔ numbered P n es1 ∧ numbered P (n + Z.of_nat (length es1)) es2.
Proof.
  induction es1 as [|e es1 IH]; intros n; simpl.
  - rewrite Z.add_0_r. tauto.
  - rewrite IH. replace (n + 1 + Z.of_nat (length es1))%Z
      with (n + Z.of_nat (S (length es1)))%Z by lia. tauto.
Qed.

Lemma numbered_impl (P Q : status_event → Prop) es : ∀ n,
  (∀ e, e ∈ es → (n ≤ ev_sequence e < n + Z.of_nat (length es))%Z → P e → Q e) →
  numbered P n es → numbered Q n es.
Proof.
  induction es as [|e es IH]; intros n Himp; simpl; [done|].
  intros (He & Hn & Hes). split_and!; [|done|].
  - apply Himp; [by left|simpl; lia|done].
  - apply IH; [|done]. intros e' Hin Hr. apply Himp; [by right|simpl; lia].
Qed.

Lemma numbered_elem P es e : ∀ n,
  numbered P n es → e ∈ es → P e ∧ (n ≤ ev_sequence e < n + Z.of_nat (length es))%Z.
Proof.
  induction es as [|e' es IH]; intros n; simpl; [by intros _ ?%elem_of_nil|].
  intros (He & Hn & Hes) [->|Hin]%elem_of_cons; [split; [done|lia]|].
  destruct (IH _ Hes Hin). split; [done|lia].
Qed.

(** ** Event ids *)

Lemma pretty_pos_no_dash z : (1 ≤ z)%Z → str_has_char "-" (pretty z) = false.
Proof.
  intros Hz. destruct (pretty_pos_digits z (S (Z.to_nat z))) as [Hd _]; [lia| |].
  - rewrite Nat2Z.inj_succ, Z2Nat.id by lia.
    pose proof (Z.pow_gt_lin_r 10 (Z.succ z)). lia.
  - by apply (str_forallb_no_char is_digit).
Qed.

Section EventIds.
Context `{Hhost : Host} `{!HostLaws Hhost}.

Lemma statusEventId_shape e id :
  Repo.statusEventId e = Ok id →
  ∃ h, id = "artifact-status-" +:+ pretty (ev_sequence e) +:+ "-" +:+ h ∧
  String.length h ≤ 16 ∧ str_forallb is_identifier_char h = true.
Proof.
  unfold Repo.statusEventId, hashResearchArtifactContent. intros Hrun. inv_result.
  rename r0 into text. exists (String.substring 0 16 (sha256_hex text)).
  split_and!; [done|apply length_substring|].
  apply str_forallb_substring. eapply str_forallb_weaken; [|apply sha256_hex_digits].
  intros c. destruct c as [[] [] [] [] [] [] [] []]; vm_compute; congruence.
Qed.

Lemma digit_identifier_char c : is_digit c = true → is_identifier_char c = true.
Proof. destruct c as [[] [] [] [] [] [] [] []]; vm_compute; congruence. Qed.

Lemma event_id_safe e :
  event_ok e → (1 ≤ ev_sequence e ≤ max_safe_integer)%Z →
  is_safe_identifier (ev_eventId e) = true.
Proof.
  intros (_ & _ & _ & _ & _ & Hid) Hseq. unfold max_safe_integer in Hseq.
  apply statusEventId_shape in Hid as (h & -> & Hl & Hh).
  destruct (pretty_pos_digits (ev_sequence e) 16) as [Hd Hdl]; [lia..|].
  unfold is_safe_identifier. set (s := "artifact-status-" +:+ _).
  assert (String.length s <= 49) as Hlen.
  { unfold s. rewrite !length_append. simpl. lia. }
  assert (str_forallb is_identifier_char s = true) as Hs.
  { unfold s. rewrite !str_forallb_append, Hh, !andb_true_r.
  rewrite (str_forallb_weaken _ _ _ digit_identifier_char Hd). done. }
  change s with (String "a" ("rtifact-status-" +:+ pretty (ev_sequence e) +:+ "-" +:+ h)) in Hs |- *.
  cbn [str_forallb] in Hs. apply andb_true_iff in Hs as [_ ->].
  clear Hlen. simpl. apply Nat.leb_le. rewrite append_nil_l, !length_append.
  change (String.length "-") with 1. lia.
Qed.

Lemma event_id_sequence e1 e2 :
  event_ok e1 → event_ok e2 →
  (1 ≤ ev_sequence e1)%Z → (1 ≤ ev_sequence e2)%Z →
  ev_eventId e1 = ev_eventId e2 → ev_sequence e1 = ev_sequence e2.
Proof.
  intros (_ & _ & _ & _ & _ & H1) (_ & _ & _ & _ & _ & H2) Hs1 Hs2 Heq.
  apply statusEventId_shape in H1 as (h1 & E1 & _), H2 as (h2 & E2 & _).
  rewrite Heq, E2 in E1. apply append_cancel_l in E1.
  apply (append_sep_inj "-"%char) in E1 as [E1 _].
  - symmetry. by apply (inj pretty).
  - by apply pretty_pos_no_dash.
  - by apply pretty_pos_no_dash.
Qed.
End EventIds.
