(* ===== verification/RepoLog.v ===== *)
(** * The event log

    What [descendantKeys], [resolveRef] and the precise invalidation compute,
    the soundness of a log (its events replay to its states), and the proof
    that [appendStatusEvent] keeps a log sound. *)

From S2P Require Import Prelude Host JsValue Digraph ArtifactTypes ArtifactGraph RepoModel RepoEvents RepoJson.

(** [k] depends, directly or not, on the artifact with key [r]. *)
Definition descends (artifacts : list artifact_envelope) (r k : string) : Prop :=
  tc (causal_edge artifacts) r k.

(** The transitions of an artifact's status. *)
Definition transition (from to : artifact_status) : Prop :=
  (from = Active ∧ to = Stale) ∨ (from = Active ∧ to = Superseded) ∨
  (from = Stale ∧ to = Superseded).

Definition status_leads (from to : artifact_status) : Prop := from = to ∨ transition from to.

Definition status_at (states : jmap MaterializedState) (key : string) : option artifact_status :=
  ms_status <$> jm_get key states.

#[export] Instance status_leads_preorder : PreOrder status_leads.
Proof.
  split.
  - by left.
  - unfold status_leads, transition. intros x y z. naive_solver.
Qed.

Section Graph.
Context `{Hhost : Host} `{!HostLaws Hhost}.

Lemma validate_graph_Ok artifacts g :
  validateCompleteArtifactGraph artifacts = Ok g →
  well_founded_set artifacts ∧ closed_references artifacts ∧ graph_spec artifacts g.
Proof.
  unfold validateCompleteArtifactGraph.
  destruct (buildResearchArtifactGraph artifacts) as [g'|e] eqn:E.
  - destruct (g_missingParents g') eqn:Em; [|done]. intros [= <-].
  apply build_graph_Ok in E as [Hwf Hg]. split_and!; [done| |done]. by apply Hg.
  - by destruct (is_repository_error e).
Qed.

Lemma validate_graph_total artifacts :
  well_founded_set artifacts → closed_references artifacts →
  ∃ g, validateCompleteArtifactGraph artifacts = Ok g.
Proof.
  intros Hwf Hc. destruct (build_graph_total _ Hwf) as [g Hg].
  unfold validateCompleteArtifactGraph. rewrite Hg. exists g.
  apply build_graph_Ok in Hg as [_ (_ & _ & _ & _ & Hm)]. apply Hm in Hc. by rewrite Hc.
Qed.

Section Complete.
Variables (artifacts : list artifact_envelope) (graph : artifact_graph).
Hypothesis Hnd : NoDup (keys_of artifacts).
Hypothesis Hg : graph_spec artifacts graph.

Lemma closure_spec {S} (on_edge : string → S → S) s r seen k :
  seen = ∅ ∨ seen = {[r]} →
  k ∈ (bfs (children_of (g_invalidationChildren graph)) on_edge
   (Datatypes.S (length (g_artifacts graph))) [r] seen s).1 ↔
  k ∈ seen ∨ descends artifacts r k.
Proof.
  intros Hseen. rewrite (elem_of_bfs _ (list_to_set (keys_of artifacts))).
  - rewrite causal_below by done. setoid_rewrite list_elem_of_singleton.
  unfold descends. naive_solver.
  - by apply causal_univ.
  - destruct Hseen as [-> | ->]; set_solver.
  - rewrite (causal_univ_size artifacts graph) by done. simpl. lia.
Qed.

Lemma elem_of_descendantKeys r k :
  k ∈ descendantKeys graph r ↔ descends artifacts r k.
Proof.
  unfold descendantKeys. rewrite closure_spec by by left.
  split; [|by right]. by intros [?%elem_of_empty|].
Qed.

Lemma trace_spec r k :
  k ∈ bfs_trace (children_of (g_invalidationChildren graph))
  (Datatypes.S (length (g_artifacts graph))) [r] {[r]} ↔ descends artifacts r k.
Proof.
  rewrite (elem_of_bfs_trace _ (list_to_set (keys_of artifacts))).
  - rewrite causal_below by done. setoid_rewrite list_elem_of_singleton.
  unfold descends. naive_solver.
  - by apply causal_univ.
  - set_solver.
  - rewrite (causal_univ_size artifacts graph) by done. simpl. lia.
Qed.

(** ** The roots of each descendant *)

Lemma jm_set_idemp {V} k (v : V) m : jm_set k v (jm_set k v m) = jm_set k v m.
Proof.
  induction m as [|[k' v'] m IH]; simpl; [by rewrite decide_True|].
  destruct (decide (k = k')) as [->|Hne]; simpl; [by rewrite decide_True|].
  rewrite decide_False by done. by rewrite IH.
Qed.

Lemma get_record_root explicit root c m k :
  jm_get k (record_root explicit root c m) =
  if decide (k = c ∧ c ∉ explicit) then
  Some (jm_set (fullRefKey root) root (default [] (jm_get c m)))
  else jm_get k m.
Proof.
  unfold record_root. destruct (decide (c ∈ explicit)) as [Hc|Hc].
  - by rewrite decide_False by tauto.
  - rewrite jm_get_set. destruct (decide (k = c)) as [->|Hk].
  + by rewrite decide_True.
  + by rewrite decide_False by tauto.
Qed.

Lemma get_record_roots explicit root trace : ∀ m k,
  jm_get k (foldl (λ m c, record_root explicit root c m) m trace) =
  if decide (k ∈ trace ∧ k ∉ explicit) then
  Some (jm_set (fullRefKey root) root (default [] (jm_get k m)))
  else jm_get k m.
Proof.
  induction trace as [|c trace IH]; intros m k; cbn [foldl].
  { rewrite decide_False; [done|]. by intros [?%elem_of_nil _]. }
  rewrite IH, get_record_root. destruct (decide (k ∈ trace ∧ k ∉ explicit)) as [[Ht He]|Hn].
  - rewrite (decide_True (P := k ∈ c :: trace ∧ k ∉ explicit)) by (split; [by right|done]).
  destruct (decide (k = c ∧ c ∉ explicit)) as [[-> _]|_]; [|done].
  simpl. by rewrite jm_set_idemp.
  - destruct (decide (k = c ∧ c ∉ explicit)) as [[-> He]|Hn'].
  + rewrite decide_True; [done|]. split; [by left|done].
  + rewrite decide_False; [done|]. rewrite elem_of_cons. intros [[->|?] ?]; tauto.
Qed.

Lemma walk_root_keys explicit root m :
  NoDup (jm_keys m) → NoDup (jm_keys (walk_root graph explicit m root)).
Proof.
  intros Hm. unfold walk_root. rewrite bfs_state. simpl.
  generalize (bfs_trace (children_of (g_invalidationChildren graph))
  (Datatypes.S (length (g_artifacts graph))) [refKey root] {[refKey root]}).
  intros trace. revert m Hm. induction trace as [|c trace IH]; intros m Hm; [done|].
  simpl. apply IH. unfold record_root. case_decide; [done|]. by apply jm_keys_set_NoDup.
Qed.

Lemma get_walk_root explicit root m k :
  jm_get k (walk_root graph explicit m root) =
  if decide (k ∈ descendantKeys graph (refKey root) ∧ k ∉ explicit) then
  Some (jm_set (fullRefKey root) root (default [] (jm_get k m)))
  else jm_get k m.
Proof.
  unfold walk_root. rewrite bfs_state. simpl. rewrite get_record_roots.
  apply decide_ext. by rewrite trace_spec, elem_of_descendantKeys.
Qed.

(** The roots among [roots] that [k] descends from. *)
Definition roots_above (roots : list artifact_ref) (k : string) : list artifact_ref :=
  filter (λ r, k ∈ descendantKeys graph (refKey r)) roots.

Lemma get_walk_roots explicit roots k : ∀ m,
  k ∉ explicit → NoDup (jm_keys (default [] (jm_get k m)) ++ (fullRefKey <$> roots)) →
  default [] (jm_get k (foldl (walk_root graph explicit) m roots)) =
  default [] (jm_get k m) ++ ((λ r, (fullRefKey r, r)) <$> roots_above roots k).
Proof.
  induction roots as [|r roots IH]; intros m Hk Hn; simpl.
  { by rewrite app_nil_r. }
  rewrite fmap_cons in Hn. unfold roots_above. rewrite filter_cons.
  fold (roots_above roots k).
  assert (jm_get (fullRefKey r) (default [] (jm_get k m)) = None) as Hfresh.
  { apply jm_get_None. apply NoDup_app in Hn as (_ & Hd & _). intros Hin.
  apply (Hd _ Hin). by left. }
  rewrite IH; [|done|]; rewrite get_walk_root.
  - destruct (decide (k ∈ descendantKeys graph (refKey r))) as [Hd|Hd].
  + rewrite decide_True by done. simpl. rewrite jm_keys_set_fresh by done.
  by rewrite <- app_assoc.
  + by rewrite decide_False by tauto.
  - destruct (decide (k ∈ descendantKeys graph (refKey r) ∧ k ∉ explicit)); simpl.
  + rewrite jm_keys_set_fresh by done. unfold jm_keys. rewrite fmap_app, <- app_assoc.
  exact Hn.
  + apply NoDup_app in Hn as (? & Hd & [_ ?]%NoDup_cons).
  apply NoDup_app. split_and!; [done| |done]. intros x Hx Hx'. apply (Hd x Hx). by right.
Qed.

Lemma walk_roots_keys explicit roots k : ∀ m,
  k ∈ jm_keys (foldl (walk_root graph explicit) m roots) ↔
  k ∈ jm_keys m ∨ (k ∉ explicit ∧ roots_above roots k ≠ []).
Proof.
  induction roots as [|r roots IH]; intros m; simpl.
  { tauto. }
  rewrite IH, !elem_of_jm_keys, get_walk_root. unfold roots_above. rewrite filter_cons.
  destruct (decide (k ∈ descendantKeys graph (refKey r))) as [Hd|Hd].
  - destruct (decide (k ∈ explicit)) as [He|He].
  + rewrite decide_False by tauto. tauto.
  + rewrite decide_True by done. naive_solver.
  - rewrite decide_False by tauto. done.
Qed.

Lemma roots_by_descendant_NoDup roots : NoDup (jm_keys (roots_by_descendant graph roots)).
Proof.
  unfold roots_by_descendant. generalize (list_to_set (C := gset string) (refKey <$> roots)).
  intros explicit. assert (NoDup (jm_keys ([] : root_map))) as Hm by constructor.
  revert Hm. generalize ([] : root_map).
  induction roots as [|r roots IH]; intros m Hm; [done|]. by apply IH, walk_root_keys.
Qed.

Lemma roots_by_descendant_keys roots k :
  k ∈ jm_keys (roots_by_descendant graph roots) ↔
  k ∉ refKey <$> roots ∧ ∃ r, r ∈ roots ∧ descends artifacts (refKey r) k.
Proof.
  unfold roots_by_descendant. rewrite walk_roots_keys, elem_of_list_to_set.
  unfold roots_above. transitivity (k ∉ refKey <$> roots ∧
  filter (λ r, k ∈ descendantKeys graph (refKey r)) roots ≠ []).
  { simpl. rewrite elem_of_nil. tauto. }
  f_equiv. split.
  - intros Hne. destruct (filter _ roots) as [|r l] eqn:E; [done|].
  assert (r ∈ filter (λ r, k ∈ descendantKeys graph (refKey r)) roots) as Hr
  by (rewrite E; by left).
  apply list_elem_of_filter in Hr as [Hr Hin]. exists r. by rewrite <- elem_of_descendantKeys.
  - intros (r & Hr & Hd) Hnil. apply elem_of_descendantKeys in Hd.
  eapply (not_elem_of_nil r). rewrite <- Hnil. by apply list_elem_of_filter.
Qed.

Lemma roots_by_descendant_values roots k :
  NoDup (fullRefKey <$> roots) → k ∉ refKey <$> roots →
  jm_values (default [] (jm_get k (roots_by_descendant graph roots))) = roots_above roots k.
Proof.
  intros Hn Hk. unfold roots_by_descendant. rewrite get_walk_roots; simpl; [|by rewrite elem_of_list_to_set|done].
  unfold jm_values. rewrite <- list_fmap_compose. apply list_fmap_id.
Qed.
End Complete.

(** ** References *)

Lemma find_by_key_Some artifacts k a :
  find_by_key artifacts k = Some a → a ∈ artifacts ∧ researchArtifactKey a = k.
Proof.
  intros [Hin Hk]%List.find_some. apply String.eqb_eq in Hk. by apply list_elem_of_In in Hin.
Qed.

Lemma find_by_key_intro artifacts a :
  NoDup (keys_of artifacts) → a ∈ artifacts →
  find_by_key artifacts (researchArtifactKey a) = Some a.
Proof.
  unfold find_by_key. intros Hnd Ha.
  destruct (List.find _ artifacts) as [b|] eqn:E.
  - apply find_by_key_Some in E as [Hb Hk]. f_equal.
  pose proof (jm_index_NoDup researchArtifactKey artifacts a Hnd Ha) as E1.
  pose proof (jm_index_NoDup researchArtifactKey artifacts b Hnd Hb) as E2.
  rewrite Hk, E1 in E2. by injection E2.
  - apply list_elem_of_In in Ha. pose proof (List.find_none _ _ E a Ha) as Hf.
  simpl in Hf. by rewrite String.eqb_refl in Hf.
Qed.

Lemma resolveRef_Ok artifacts ref label a :
  resolveRef artifacts ref label = Ok a →
  a ∈ artifacts ∧ researchArtifactKey a = refKey ref ∧ ref_matches a ref = true.
Proof.
  unfold resolveRef. destruct (find_by_key artifacts (refKey ref)) as [b|] eqn:E; [|done].
  destruct (ref_matches b ref) eqn:Em; [|done]. intros [= <-].
  by apply find_by_key_Some in E as [? ?].
Qed.

Lemma resolveRef_intro artifacts ref label a :
  NoDup (keys_of artifacts) → a ∈ artifacts → researchArtifactKey a = refKey ref →
  ref_matches a ref = true → resolveRef artifacts ref label = Ok a.
Proof.
  intros Hnd Ha Hk Hm. unfold resolveRef.
  by rewrite <- Hk, find_by_key_intro, Hm.
Qed.

Lemma refKey_toRef a : refKey (toResearchArtifactRef a) = researchArtifactKey a.
Proof. done. Qed.

Lemma ref_matches_toRef a : ref_matches a (toResearchArtifactRef a) = true.
Proof. unfold ref_matches. by rewrite !bool_decide_eq_true_2. Qed.

Lemma resolveRef_toRef artifacts label a :
  NoDup (keys_of artifacts) → a ∈ artifacts →
  resolveRef artifacts (toResearchArtifactRef a) label = Ok a.
Proof. intros Hnd Ha. apply resolveRef_intro; auto using ref_matches_toRef. Qed.

Lemma wf_toRef a : wf_content a → wf_artifact_ref (toResearchArtifactRef a).
Proof.
  intros (Hid & Hrev & _ & _ & _ & Hh). split; [|done].
  split_and!; [done|apply Hrev|apply Hrev|]. simpl. by eapply hash_is_content_hash.
Qed.
End Graph.
