(* ===== verification/RepoSound.v ===== *)
(** * Sound event logs

    A log is sound when replaying its events succeeds and gives its states.
    [appendStatusEvent] keeps a log sound, statuses only move forward, and
    the loops that record superseded and stale artifacts are followed event
    by event. *)

From S2P Require Import Prelude Host JsValue Digraph ArtifactTypes ArtifactGraph RepoModel RepoEvents RepoJson RepoLog.

(** Every artifact of [artifacts] has a state. *)
Definition covers (artifacts : list artifact_envelope) (states : jmap MaterializedState) : Prop :=
  ∀ a, a ∈ artifacts → is_Some (jm_get (researchArtifactKey a) states).

Section Replay.
Context `{Hhost : Host} `{!HostLaws Hhost}.
Variables (artifacts : list artifact_envelope) (graph : artifact_graph).

(** What one accepted event does to the replay state. *)
Lemma replay_event_Ok st event st' :
  replay_event artifacts graph st event = Ok st' →
  ∃ artifact state,
  artifact ∈ artifacts ∧ researchArtifactKey artifact = refKey (ev_artifact event) ∧
  jm_get (refKey (ev_artifact event)) (rs_states st) = Some state ∧
  ms_status state = ev_from event ∧ (ms_updatedAt state ≤ ev_changedAt event)%Z ∧
  (ev_cause event = NewRevision → ev_from event = Active ∨ ev_from event = Stale) ∧
  (ev_cause event = Invalidation → ev_from event = Active) ∧
  st' = mkReplay
    (jm_set (refKey (ev_artifact event))
       (state_after (ev_to event) (ev_cause event) (ev_reason event) (ev_roots event)
          (ev_changedAt event)) (rs_states st))
    (ev_eventId event :: rs_eventIds st) (rs_count st + 1) (Some (ev_changedAt event)).
Proof.
  unfold replay_event. intros Hrun. inv_result. rewrite require_schema_Ok in *.
  apply resolveRef_Ok in Hr1 as (Hin & Hkey & _). rewrite Hkey in *.
  exists r1, r3. rewrite Z.leb_le in *.
  repeat match goal with Hx : bool_decide _ = true |- _ => apply bool_decide_eq_true in Hx end.
  split_and!; try done.
  - intros Hc. rewrite Hc in *. rewrite require_schema_Ok in *. unfold valid_replacement in *.
  destruct r2 as [|b [|]]; try done.
  repeat match goal with Hx : _ && _ = true |- _ => apply andb_true_iff in Hx as [Hx ?] end.
  match goal with Hx : _ || _ = true |- _ =>
    apply orb_true_iff in Hx as [Hx|Hx]; apply bool_decide_eq_true in Hx; auto end.
  - intros Hc. rewrite Hc in *. rewrite require_schema_Ok in *. unfold valid_invalidation in *.
  match goal with Hx : _ && _ = true |- _ =>
    apply andb_true_iff in Hx as [Hx _]; by apply bool_decide_eq_true in Hx end.
Qed.

(** The log variables of the replay loop. *)
Lemma replay_counters events : ∀ st st',
  foldM (replay_event artifacts graph) st events = Ok st' →
  rs_eventIds st' = reverse (ev_eventId <$> events) ++ rs_eventIds st ∧
  rs_count st' = (rs_count st + Z.of_nat (length events))%Z ∧
  rs_previousTime st' =
  match last events with Some e => Some (ev_changedAt e) | None => rs_previousTime st end.
Proof.
  induction events as [|e events IH]; intros st st'; cbn [foldM].
  - intros [= <-]. split_and!; [done|simpl; lia|done].
  - intros Hrun. rewrite last_cons. inv_result. apply replay_event_Ok in Hr as (a & s & _ & _ & _ & _ & _ & _ & _ & ->).
  apply IH in Hrun as (-> & -> & ->). split_and!.
  + rewrite fmap_cons, reverse_cons, <- app_assoc. done.
  + simpl. lia.
  + by destruct (last events).
Qed.

Lemma covers_initial : covers artifacts (initial_states artifacts).
Proof.
  intros a Ha. unfold initial_states. rewrite jm_get_fold.
  destruct (last _) eqn:E; [done|]. apply last_None in E. exfalso.
  eapply (not_elem_of_nil a). rewrite <- E. by apply list_elem_of_filter.
Qed.

(** ** Statuses only move forward *)

Definition states_lead (s s' : jmap MaterializedState) : Prop :=
  ∀ k x, status_at s k = Some x → ∃ y, status_at s' k = Some y ∧ status_leads x y.

#[export] Instance states_lead_preorder : PreOrder states_lead.
Proof.
  split.
  - intros s k x Hx. by exists x.
  - intros s1 s2 s3 H12 H23 k x Hx. destruct (H12 k x Hx) as (y & Hy & Hxy).
  destruct (H23 k y Hy) as (z & Hz & Hyz). exists z. split; [done|]. by etrans.
Qed.

Lemma states_lead_set s k old new :
  jm_get k s = Some old → status_leads (ms_status old) (ms_status new) →
  states_lead s (jm_set k new s).
Proof.
  intros Hk Hl k' x. unfold status_at. rewrite jm_get_set. case_decide as Heq.
  - subst. rewrite Hk. simpl. intros [= <-]. eauto.
  - intros Hx. by exists x.
Qed.

Lemma event_transition e :
  event_ok e →
  (ev_cause e = NewRevision → ev_from e = Active ∨ ev_from e = Stale) →
  (ev_cause e = Invalidation → ev_from e = Active) → transition (ev_from e) (ev_to e).
Proof.
  intros (_ & _ & Hcm & _) Hn Hi. unfold Repo.cause_matches in Hcm. unfold transition.
  destruct (ev_cause e), (ev_reason e); try done; apply bool_decide_eq_true in Hcm.
  - destruct Hn; auto.
  - left. auto.
Qed.

Lemma replay_leads events : ∀ st st',
  Forall event_ok events →
  foldM (replay_event artifacts graph) st events = Ok st' →
  states_lead (rs_states st) (rs_states st').
Proof.
  induction events as [|e events IH]; intros st st' Hok; simpl; [by intros [= <-]|].
  intros Hrun. inv_result. apply Forall_cons in Hok as [He Hok].
  apply replay_event_Ok in Hr as (a & s & _ & _ & Hget & Hfrom & _ & Hn & Hi & ->).
  etrans; [|by eapply IH]. simpl. eapply states_lead_set; [done|].
  right. rewrite Hfrom. by apply event_transition.
Qed.

(** ** Sound logs *)

(** [now] is the time of the transaction that extends the log. *)
Record log_sound (now : Z) (log : event_log) : Prop := {
  ls_replay : ∃ st, foldM (replay_event artifacts graph) (replay_from artifacts)
              (log_events log) = Ok st ∧ rs_states st = log_states log;
  ls_events : numbered event_ok 1 (log_events log);
  ls_times : Forall (λ e, ev_changedAt e ≤ now)%Z (log_events log);
  ls_covers : covers artifacts (log_states log);
}.

Lemma wf_events_ok n events : wf_events n events → numbered event_ok n events.
Proof. apply numbered_impl. by intros e _ _ [_ ?]. Qed.

Lemma numbered_Forall P n events : numbered P n events → Forall P events.
Proof.
  intros Hn. apply Forall_forall. intros e He. by eapply numbered_elem in Hn as [? _].
Qed.

Lemma covers_set s k x : covers artifacts s → covers artifacts (jm_set k x s).
Proof. intros Hc a Ha. rewrite jm_get_set. case_decide; [done|auto]. Qed.

Lemma replay_covers events : ∀ st st',
  covers artifacts (rs_states st) →
  foldM (replay_event artifacts graph) st events = Ok st' →
  covers artifacts (rs_states st').
Proof.
  intros st st' Hc Hrun. eapply (foldM_inv (λ st, covers artifacts (rs_states st))); [done| |exact Hrun].
  intros s e s' _ Hs Hstep. apply replay_event_Ok in Hstep as (a & x & _ & _ & _ & _ & _ & _ & _ & ->).
  by apply covers_set.
Qed.

(** The log a transaction starts from. *)
Lemma log_sound_initial now events states :
  wf_events 1 events → Forall (λ e, ev_changedAt e ≤ now)%Z events →
  replayStatusEvents artifacts events graph = Ok states →
  log_sound now (mkLog events states).
Proof.
  intros Hwf Ht Hrun. unfold replayStatusEvents in Hrun. inv_result.
  split; cbn [log_events log_states]; [by exists r|by apply wf_events_ok|done|].
  eapply replay_covers; [|exact Hr]. apply covers_initial.
Qed.

(** ** One recorded event *)

(** What the replay asks of a recorded transition. *)
Definition admissible (now : Z) (artifact : artifact_envelope) (from : artifact_status)
  (cause : event_cause) (roots : list artifact_envelope) : Prop :=
  match cause with
  | NewRevision =>
    (from = Active ∨ from = Stale) ∧ ∃ replacement, roots = [replacement] ∧
    a_artifactId replacement = a_artifactId artifact ∧
    a_kind replacement = a_kind artifact ∧
    a_revision replacement = (a_revision artifact + 1)%Z ∧
    (a_updatedAt replacement ≤ now)%Z
  | Invalidation =>
    from = Active ∧ Forall (λ r, researchArtifactKey artifact ∈
      descendantKeys graph (researchArtifactKey r)) roots
  end.

Context (Hnd : NoDup (keys_of artifacts)).

Lemma event_id_fresh events e :
  numbered event_ok 1 events → event_ok e →
  ev_sequence e = (Z.of_nat (length events) + 1)%Z → ev_eventId e ∉ ev_eventId <$> events.
Proof.
  intros Hn He Hs (e' & Heq & Hin)%list_elem_of_fmap.
  destruct (numbered_elem _ _ _ _ Hn Hin) as [He' Hr].
  assert (ev_sequence e = ev_sequence e'); [|lia].
  apply event_id_sequence; try done; lia.
Qed.

Lemma replay_event_intro st e artifact roots state :
  rs_count st = (ev_sequence e - 1)%Z → ev_eventId e ∉ rs_eventIds st →
  artifact ∈ artifacts → ev_artifact e = toResearchArtifactRef artifact →
  Forall2 (λ ref root, resolveRef artifacts ref "status event root" = Ok root)
  (ev_roots e) roots →
  jm_get (researchArtifactKey artifact) (rs_states st) = Some state →
  not_before (ev_changedAt e) (rs_previousTime st) = true →
  ms_status state = ev_from e → (ms_updatedAt state ≤ ev_changedAt e)%Z →
  admissible (ev_changedAt e) artifact (ev_from e) (ev_cause e) roots →
  replay_event artifacts graph st e = Ok (mkReplay
  (jm_set (researchArtifactKey artifact)
     (state_after (ev_to e) (ev_cause e) (ev_reason e) (ev_roots e) (ev_changedAt e))
     (rs_states st)) (ev_eventId e :: rs_eventIds st) (rs_count st + 1)
  (Some (ev_changedAt e))).
Proof.
  intros Hc Hid Ha Hart Hroots Hst Hnb Hfrom Hup Hadm. unfold replay_event.
  rewrite (require_schema_true (ev_sequence e =? _)%Z) by (apply Z.eqb_eq; lia). cbn [mbind result_bind].
  rewrite (require_schema_true (bool_decide (_ ∉ _))) by by apply bool_decide_eq_true. cbn [mbind result_bind].
  rewrite Hart, resolveRef_toRef by done. cbn [mbind result_bind].
  rewrite (proj2 (mapM_Ok _ _ _) Hroots). cbn [mbind result_bind].
  rewrite Hst. cbn [of_option mbind result_bind].
  rewrite Hnb. cbn [require_schema mbind result_bind].
  rewrite (require_schema_true (bool_decide (ms_status state = ev_from e)))
  by by apply bool_decide_eq_true. cbn [mbind result_bind].
  rewrite (require_schema_true (ms_updatedAt state <=? _)%Z) by by apply Z.leb_le. cbn [mbind result_bind].
  destruct (ev_cause e) eqn:Ecause; simpl in Hadm.
  - destruct Hadm as (Hf & b & -> & Hbid & Hbk & Hbr & Hbu).
  rewrite require_schema_true; [done|]. unfold valid_replacement.
  repeat (apply andb_true_iff; split).
  + apply orb_true_iff. destruct Hf; [left|right]; by apply bool_decide_eq_true.
  + by apply String.eqb_eq.
  + by apply bool_decide_eq_true.
  + by apply Z.eqb_eq.
  + by apply Z.leb_le.
  - destruct Hadm as [Hf Hall]. rewrite require_schema_true; [done|].
  unfold valid_invalidation. apply andb_true_iff. split; [by apply bool_decide_eq_true|].
  apply List.forallb_forall. intros r Hr%list_elem_of_In. apply bool_decide_eq_true.
  rewrite Forall_forall in Hall. auto.
Qed.

Lemma log_previous_time now log st :
  log_sound now log →
  foldM (replay_event artifacts graph) (replay_from artifacts) (log_events log) = Ok st →
  not_before now (rs_previousTime st) = true.
Proof.
  intros Hs Hrun. apply replay_counters in Hrun as (_ & _ & ->).
  destruct (last (log_events log)) as [e|] eqn:E; simpl; [|done].
  apply Z.leb_le. pose proof (ls_times _ _ Hs) as Ht. rewrite Forall_forall in Ht.
  by apply Ht, last_Some_elem_of.
Qed.

Lemma admissible_transition now a from to cause reason roots :
  admissible now a from cause roots → Repo.cause_matches cause to reason = true →
  transition from to.
Proof.
  unfold admissible, Repo.cause_matches, transition.
  destruct cause, reason; try done; intros [Hf _] Ht%bool_decide_eq_true; [|by auto].
  destruct Hf; auto.
Qed.

(** Recording an admissible transition keeps the log sound. *)
Lemma append_event_sound now log a to cause refs reason roots state log' :
  log_sound now log → a ∈ artifacts → wf_content a → is_time_value now = true →
  jm_get (researchArtifactKey a) (log_states log) = Some state →
  Repo.cause_matches cause to reason = true →
  refs ≠ [] → Forall wf_artifact_ref refs →
  Forall2 (λ ref root, resolveRef artifacts ref "status event root" = Ok root)
  (uniqueRefs refs) roots →
  admissible now a (ms_status state) cause roots →
  appendStatusEvent log a to cause refs reason now = Ok log' →
  log_sound now log' ∧
  log_states log' = jm_set (researchArtifactKey a)
  (state_after to cause reason (uniqueRefs refs) now) (log_states log) ∧
  ∃ e, log_events log' = log_events log ++ [e] ∧ ev_artifact e = toResearchArtifactRef a ∧
  ev_from e = ms_status state ∧ ev_to e = to ∧ ev_cause e = cause ∧
  ev_roots e = uniqueRefs refs ∧ ev_reason e = reason ∧ ev_changedAt e = now.
Proof.
  intros Hs Ha Hwf Hnow Hst Hcm Hne Hrefs Hres Hadm. unfold appendStatusEvent. rewrite Hst.
  cbn [of_option mbind result_bind].
  pose proof (admissible_transition _ _ _ _ _ _ _ Hadm Hcm) as Htr.
  destruct (decide (ms_status state = to)) as [Heq|Hft].
  { exfalso. rewrite Heq in Htr. unfold transition in Htr. destruct to; naive_solver. }
  intros Hrun. inv_result. apply Z.leb_le in Hr. cbn [with_id ev_roots] in *.
  set (body := mkEvent _ "" _ _ _ _ _ _ _) in *.
  assert (event_ok (with_id body r0)) as Hok.
  { split_and!; [by apply wf_toRef|done|done| |done|done].
  split_and!; [by intros ?%uniqueRefs_nil_inv| |apply uniqueRefs_idemp].
  apply Forall_forall. intros x Hx%elem_of_uniqueRefs_inv.
  rewrite Forall_forall in Hrefs. auto. }
  destruct (ls_replay _ _ Hs) as (st & Hrep & Hstates).
  destruct (replay_counters _ _ _ Hrep) as (Hids & Hcount & _). simpl in Hids, Hcount.
  split_and!; [|done|by eexists].
  split; cbn [log_events log_states].
  - eexists. split.
  + rewrite foldM_app, Hrep. cbn [mbind result_bind foldM].
    rewrite (replay_event_intro st (with_id body r0) a roots state); cbn; try done.
    * lia.
    * rewrite Hids, app_nil_r, elem_of_reverse.
      by apply (event_id_fresh _ (with_id body r0)); [apply Hs|..].
    * by rewrite Hstates.
    * by eapply log_previous_time.
  + cbn. by rewrite Hstates.
  - apply numbered_app. split; [apply Hs|]. split_and!; [done| |done]. cbn. lia.
  - apply Forall_app. split; [apply Hs|]. constructor; [cbn; lia|constructor].
  - apply covers_set, Hs.
Qed.
End Replay.
