(* ===== verification/RepoValid.v ===== *)
(** * Valid manifests

    The invariant of a stored manifest, the proof that
    [validateResearchArtifactRepositoryManifest] decides it, and what it says
    of the artifact set: unique keys, contiguous revision histories, closed
    and acyclic references. *)

From S2P Require Import Prelude Host JsValue Digraph ArtifactTypes ArtifactGraph RepoModel RepoEvents Repository RepoJson.

(** The invariant of a stored manifest. *)
Record valid_manifest `{Host} (m : repository_manifest) : Prop := {
  vm_artifacts : Forall wf_envelope (m_artifacts m);
  vm_events : wf_events 1 (m_statusEvents m);
  vm_repositoryId : is_safe_identifier (m_repositoryId m) = true;
  vm_revision : (1 ≤ m_revision m ≤ max_safe_integer)%Z;
  vm_created : is_time_value (m_createdAt m) = true;
  vm_updated : is_time_value (m_updatedAt m) = true;
  vm_times : (m_createdAt m ≤ m_updatedAt m)%Z;
  vm_hash : hashResearchArtifactContent (manifest_body_to_json m) = Ok (m_contentHash m);
  vm_graph : ∃ graph, validateCompleteArtifactGraph (m_artifacts m) = Ok graph ∧
    validateEmbeddedInvalidationRefs (m_artifacts m) graph = Ok tt ∧
    is_ok (replayStatusEvents (m_artifacts m) (m_statusEvents m) graph) = true;
  vm_revisions : assertAppendOnlyRevisionSequence [] (m_artifacts m) = Ok tt;
  vm_artifact_times : Forall (λ a, a_updatedAt a ≤ m_updatedAt m)%Z (m_artifacts m);
  vm_event_times : Forall (λ e, ev_changedAt e ≤ m_updatedAt m)%Z (m_statusEvents m);
}.

Section Valid.
Context `{Hhost : Host} `{!HostLaws Hhost}.

Lemma assert_all_before_Ok {A} (time : A → Z) text limit l u :
  assert_all_before time text limit l = Ok u ↔ Forall (λ x, time x ≤ limit)%Z l.
Proof.
  unfold assert_all_before. destruct u. induction l as [|x l IH]; simpl.
  - split; [constructor|done].
  - rewrite Forall_cons, <- IH, <- Z.leb_le.
  destruct (time x <=? limit)%Z; simpl; naive_solver.
Qed.

Lemma vm_payloads m :
  Forall wf_envelope (m_artifacts m) → Forall (λ a, clean (a_payload a)) (m_artifacts m).
Proof. intros Hwf. eapply Forall_impl; [exact Hwf|]. intros a. apply wf_envelope_payload. Qed.

(** A valid manifest's JSON image is accepted and read back as itself. *)
Lemma validate_manifest_intro m :
  valid_manifest m → validateResearchArtifactRepositoryManifest (manifest_to_json m) = Ok m.
Proof.
  intros Hv. unfold validateResearchArtifactRepositoryManifest.
  change (Repo.expectRecord (manifest_to_json m) "repository manifest") with (Ok tt).
  change (is_num RESEARCH_ARTIFACT_REPOSITORY_SCHEMA_VERSION
  (jget (manifest_to_json m) "schemaVersion")) with true.
  change (is_str "research_artifact_repository" (jget (manifest_to_json m) "kind")) with true.
  change (jget (manifest_to_json m) "artifacts")
  with (JArr (map envelope_to_json (m_artifacts m))).
  change (jget (manifest_to_json m) "statusEvents")
  with (JArr (map event_to_json (m_statusEvents m))).
  change (jget (manifest_to_json m) "repositoryId") with (JStr (m_repositoryId m)).
  change (jget (manifest_to_json m) "revision") with (JNum (NInt (m_revision m))).
  change (jget (manifest_to_json m) "createdAt") with (date_json (m_createdAt m)).
  change (jget (manifest_to_json m) "updatedAt") with (date_json (m_updatedAt m)).
  change (jget (manifest_to_json m) "contentHash") with (JStr (m_contentHash m)).
  cbn [andb require_schema mbind result_bind].
  assert (mapM Repo.normalizeEnvelope (map envelope_to_json (m_artifacts m))
  = Ok (m_artifacts m)) as ->.
  { apply mapM_Ok, Forall2_fmap_l, Forall_Forall2_diag.
  eapply Forall_impl; [exact (vm_artifacts _ Hv)|]. intros a. apply normalizeEnvelope_intro. }
  cbn [mbind result_bind]. rewrite normalizeStatusEvents_intro by apply Hv.
  cbn [mbind result_bind]. rewrite repo_identifier_intro by apply Hv.
  cbn [mbind result_bind]. rewrite repo_positive_intro by apply Hv.
  cbn [mbind result_bind]. rewrite !repo_date_intro by apply Hv.
  cbn [mbind result_bind]. rewrite require_schema_true by (apply Z.leb_le, Hv).
  cbn [mbind result_bind]. rewrite repo_hash_intro
  by (eapply hash_is_content_hash, vm_hash; done).
  cbn [mbind result_bind].
  assert (mkManifest (m_repositoryId m) (m_revision m) (m_createdAt m) (m_updatedAt m)
  (m_artifacts m) (m_statusEvents m) (m_contentHash m) = m) as -> by by destruct m.
  rewrite (vm_hash _ Hv). cbn [mbind result_bind]. rewrite String.eqb_refl.
  cbn [ensure mbind result_bind].
  destruct (vm_graph _ Hv) as (graph & -> & Hemb & [st Hst]%is_ok_ex).
  cbn [mbind result_bind]. rewrite (vm_revisions _ Hv). cbn [mbind result_bind].
  rewrite Hemb. cbn [mbind result_bind]. rewrite Hst. cbn [mbind result_bind].
  rewrite (proj2 (assert_all_before_Ok _ _ _ _ tt) (vm_artifact_times _ Hv)).
  cbn [mbind result_bind].
  rewrite (proj2 (assert_all_before_Ok _ _ _ _ tt) (vm_event_times _ Hv)).
  cbn [mbind result_bind]. rewrite assertCanonicalShape_refl; [done|].
  apply clean_manifest, vm_payloads, Hv.
Qed.

Lemma validate_manifest_Ok v m :
  validateResearchArtifactRepositoryManifest v = Ok m → valid_manifest m.
Proof.
  unfold validateResearchArtifactRepositoryManifest. intros Hrun. inv_result.
  destruct (jget v "artifacts") as [| | | | |la| |]; try done.
  destruct (jget v "statusEvents") as [| | | | |le| |]; try done.
  inv_result. rewrite require_schema_Ok in *.
  repeat match goal with
  | Hx : assert_all_before _ _ _ _ = Ok _ |- _ => apply assert_all_before_Ok in Hx
  | Hx : String.eqb _ _ = true |- _ => apply String.eqb_eq in Hx
  | Hx : (_ <=? _)%Z = true |- _ => apply Z.leb_le in Hx
  | Hx : Repo.requireDate _ _ = Ok _ |- _ => apply repo_date_Ok in Hx
  | Hx : Repo.requireIdentifier _ _ = Ok _ |- _ => apply repo_identifier_Ok in Hx as [_ Hx]
  | Hx : Repo.requirePositiveInteger _ _ = Ok _ |- _ => apply repo_positive_Ok in Hx as [_ Hx]
  | Hx : Repo.normalizeStatusEvents _ _ = Ok _ |- _ => apply normalizeStatusEvents_Ok in Hx
  | u : unit |- _ => destruct u
  end.
  match goal with Hx : mapM Repo.normalizeEnvelope _ = Ok _ |- _ => apply mapM_Ok in Hx;
  rename Hx into Henv end.
  split; cbn [m_artifacts m_statusEvents m_repositoryId m_revision m_createdAt m_updatedAt
  m_contentHash]; try done.
  - apply Forall_forall. intros a [i Hi]%list_elem_of_lookup.
  destruct (Forall2_lookup_r _ _ _ _ _ Henv Hi) as (w & _ & Hw).
  by eapply normalizeEnvelope_Ok.
  - congruence.
  - match goal with Hx : validateCompleteArtifactGraph _ = Ok ?g,
    Hy : replayStatusEvents _ _ _ = Ok _ |- _ => exists g; rewrite Hy; by split_and! end.
Qed.
End Valid.
