(* ===== verification/RepoCommit.v ===== *)
(** * The transactions

    Revision histories, the loop that supersedes the predecessors of new
    revisions, the loop that records precise invalidations, and the effect of
    one commit on the manifest. *)

From S2P Require Import Prelude Host JsValue Digraph ArtifactTypes ArtifactGraph RepoModel RepoEvents Repository RepoJson RepoLog RepoSound RepoValid.

(** The stored revisions of one artifact. *)
Definition history_of (artifacts : list artifact_envelope) (id : string) :
    list artifact_envelope :=
  filter (λ a, a_artifactId a = id) artifacts.

(** ** Revision histories *)

Section Histories.
Lemma push_histories l : ∀ seen m,
  NoDup (jm_keys m) →
  (∀ id, default [] (jm_get id m) = history_of seen id) →
  (∀ id, is_Some (jm_get id m) → history_of seen id ≠ []) →
  let m' := foldl push_history m l in
  NoDup (jm_keys m') ∧ (∀ id, default [] (jm_get id m') = history_of (seen ++ l) id) ∧
  (∀ id, is_Some (jm_get id m') → history_of (seen ++ l) id ≠ []).
Proof.
  induction l as [|a l IH]; intros seen m Hnd Hget Hne; simpl.
  { by rewrite app_nil_r. }
  replace (seen ++ a :: l) with ((seen ++ [a]) ++ l) by by rewrite <- app_assoc.
  assert (∀ id, default [] (jm_get id (push_history m a)) = history_of (seen ++ [a]) id) as Hpush.
  { intros id. unfold push_history. rewrite jm_get_set. unfold history_of.
  rewrite filter_app, filter_cons, filter_nil. fold (history_of seen id).
  destruct (decide (id = a_artifactId a)) as [->|Hid]; simpl.
  - rewrite decide_True by done. by rewrite Hget.
  - rewrite decide_False by done. by rewrite app_nil_r. }
  apply IH.
  - by apply jm_keys_set_NoDup.
  - done.
  - intros id. unfold push_history. rewrite jm_get_set. unfold history_of.
  rewrite filter_app, filter_cons, filter_nil.
  destruct (decide (id = a_artifactId a)) as [->|Hid].
  + rewrite decide_True by done. by destruct (filter _ seen).
  + rewrite decide_False by done. rewrite app_nil_r. apply Hne.
Qed.

Lemma elem_of_groups l id history :
  (id, history) ∈ groupArtifactsById l →
  history = js_sort compare_revision (history_of l id) ∧ history_of l id ≠ [].
Proof.
  unfold groupArtifactsById. intros ([id' h] & [= -> ->] & Hin)%list_elem_of_fmap.
  destruct (push_histories l [] []) as (Hnd & Hget & Hne); [constructor|done|by intros ? []|].
  simpl in *. apply jm_elem_get in Hin; [|done].
  split; [by rewrite <- Hget, Hin|]. apply Hne. by rewrite Hin.
Qed.

Lemma group_exists l a :
  a ∈ l → (a_artifactId a, js_sort compare_revision (history_of l (a_artifactId a)))
          ∈ groupArtifactsById l.
Proof.
  intros Ha. destruct (push_histories l [] []) as (Hnd & Hget & Hne);
  [constructor|done|by intros ? []|].
  simpl in *. unfold groupArtifactsById. apply list_elem_of_fmap.
  exists (a_artifactId a, history_of l (a_artifactId a)). split; [done|].
  apply jm_get_elem. specialize (Hget (a_artifactId a)).
  destruct (jm_get (a_artifactId a) (foldl push_history [] l)) as [h|]; simpl in Hget;
  [by rewrite Hget|].
  exfalso. eapply (not_elem_of_nil a). rewrite Hget. by apply list_elem_of_filter.
Qed.

(** The revisions of a history count up from [n], of one kind, in time order. *)
Fixpoint counts_up (kind : artifact_kind) (n : Z) (previous : option Z)
  (history : list artifact_envelope) : Prop :=
  match history with
  | [] => True
  | a :: history =>
    a_revision a = n ∧ a_kind a = kind ∧
    (match previous with Some t => (t ≤ a_createdAt a)%Z | None => True end) ∧
    counts_up kind (n + 1) (Some (a_createdAt a)) history
  end.

Lemma check_revision_Ok kind n previous a st :
  check_revision kind (n, previous) a = Ok st ↔
  (a_revision a = n ∧ a_kind a = kind ∧
  match previous with Some t => (t ≤ a_createdAt a)%Z | None => True end) ∧
  st = ((n + 1)%Z, Some (a_createdAt a)).
Proof.
  unfold check_revision. rewrite <- Z.eqb_eq.
  rewrite <- (bool_decide_eq_true (a_kind a = kind)).
  destruct (a_revision a =? n)%Z; simpl; [|by split; [|intros ((? & _) & _)]].
  destruct (bool_decide (a_kind a = kind)); simpl; [|by split; [|intros ((_ & ? & _) & _)]].
  destruct previous as [t|]; simpl; [destruct (Z.leb_spec t (a_createdAt a)); simpl|].
  - split; [by intros [= <-]|by intros (_ & ->)].
  - split; [done|]. intros ((_ & _ & ?) & _). lia.
  - split; [by intros [= <-]|by intros (_ & ->)].
Qed.

Lemma check_revisions_Ok kind history : ∀ n previous,
  is_ok (foldM (check_revision kind) (n, previous) history) = true ↔
  counts_up kind n previous history.
Proof.
  induction history as [|a history IH]; intros n previous; [done|].
  cbn [foldM counts_up].
  destruct (check_revision kind (n, previous) a) as [st|e] eqn:E; cbn [mbind result_bind].
  - apply check_revision_Ok in E as [? ->]. rewrite IH. tauto.
  - split; [done|]. intros (H1 & H2 & H3 & _).
  assert (check_revision kind (n, previous) a = Ok ((n + 1)%Z, Some (a_createdAt a))) as E'
    by by apply check_revision_Ok. by rewrite E in E'.
Qed.

Lemma append_only_Ok existing appended :
  is_ok (assertAppendOnlyRevisionSequence existing appended) = true ↔
  ∀ id history first, (id, history) ∈ groupArtifactsById (existing ++ appended) →
  head history = Some first → counts_up (a_kind first) 1 None history.
Proof.
  unfold assertAppendOnlyRevisionSequence.
  induction (groupArtifactsById (existing ++ appended)) as [|[id h] groups IH]; cbn [foldM].
  { split; [|done]. by intros _ ??? ?%elem_of_nil. }
  assert (is_ok (check_history () (id, h)) = true ↔
  ∀ first, head h = Some first → counts_up (a_kind first) 1 None h) as Hh.
  { unfold check_history. cbn [snd]. destruct h as [|a h]; [done|].
  destruct (foldM (check_revision (a_kind a)) (1%Z, None) (a :: h)) eqn:E.
  - split; [|done]. intros _ first [= <-].
    apply check_revisions_Ok. by rewrite E.
  - split; [done|]. intros Hall. specialize (Hall a eq_refl).
    apply check_revisions_Ok in Hall. by rewrite E in Hall. }
  destruct (check_history () (id, h)) as [[]|e]; cbn [mbind result_bind is_ok] in *.
  - rewrite IH. split.
  + intros Hall id' h' first [[= -> ->]|Hin]%elem_of_cons Hf; [by apply Hh|by eapply Hall].
  + intros Hall id' h' first Hin. eapply Hall. by right.
  - split; [done|]. intros Hall. apply Hh. intros first. apply (Hall id). by left.
Qed.

Lemma elem_of_adjacent {A} (x y : A) l :
  (x, y) ∈ adjacent l → ∃ i, l !! i = Some x ∧ l !! S i = Some y.
Proof.
  induction l as [|z l IH]; [by intros ?%elem_of_nil|].
  destruct l as [|z' l]; [by intros ?%elem_of_nil|].
  intros [[= -> ->]|Hin]%elem_of_cons; [by exists 0|].
  destruct (IH Hin) as (i & ? & ?). by exists (S i).
Qed.

Lemma counts_up_lookup kind history : ∀ n previous i a,
  counts_up kind n previous history → history !! i = Some a →
  a_revision a = (n + Z.of_nat i)%Z ∧ a_kind a = kind.
Proof.
  induction history as [|b history IH]; intros n previous i a Hc Hi; [done|].
  destruct Hc as (Hr & Hk & _ & Hc). destruct i as [|i]; simpl in Hi.
  - injection Hi as <-. split; [lia|done].
  - destruct (IH _ _ _ _ Hc Hi) as [-> ?]. split; [lia|done].
Qed.

(** The pairs the superseding loop visits are adjacent revisions. *)
Lemma adjacent_revisions l previous current :
  is_ok (assertAppendOnlyRevisionSequence [] l) = true →
  (previous, current) ∈ concat (adjacent <$> jm_values (groupArtifactsById l)) →
  previous ∈ l ∧ current ∈ l ∧ a_artifactId current = a_artifactId previous ∧
  a_kind current = a_kind previous ∧ a_revision current = (a_revision previous + 1)%Z.
Proof.
  intros Hok Hin. rewrite append_only_Ok in Hok. simpl in Hok.
  apply list_elem_of_In, in_concat in Hin as (pairs & Hpairs & Hin).
  apply list_elem_of_In, list_elem_of_fmap in Hpairs as (h & -> & Hh).
  unfold jm_values in Hh. apply list_elem_of_fmap in Hh as ([id h'] & -> & Hgroup).
  simpl in *. apply list_elem_of_In, elem_of_adjacent in Hin as (i & Hi & Hi').
  destruct (elem_of_groups _ _ _ Hgroup) as [Hh' _].
  assert (∀ j a, h' !! j = Some a → a ∈ l ∧ a_artifactId a = id) as Hmem.
  { intros j a Hj%list_elem_of_lookup_2. rewrite Hh', elem_of_js_sort in Hj.
  by apply list_elem_of_filter in Hj as [? ?]. }
  destruct (Hmem _ _ Hi) as [? Hid], (Hmem _ _ Hi') as [? Hid'].
  destruct h' as [|first h']; [done|].
  specialize (Hok _ _ _ Hgroup eq_refl).
  destruct (counts_up_lookup _ _ _ _ _ _ Hok Hi) as [Hr Hk].
  destruct (counts_up_lookup _ _ _ _ _ _ Hok Hi') as [Hr' Hk'].
  split_and!; [done|done|congruence|congruence|lia].
Qed.
End Histories.

(** ** The loops *)

Section Loops.
Context `{Hhost : Host} `{!HostLaws Hhost}.
Variables (artifacts : list artifact_envelope) (graph : artifact_graph) (now : Z).
Hypothesis Hnd : NoDup (keys_of artifacts).
Hypothesis Hg : graph_spec artifacts graph.
Hypothesis Hwf : Forall wf_content artifacts.
Hypothesis Hnow : is_time_value now = true.

Lemma wf_of_elem a : a ∈ artifacts → wf_content a.
Proof. rewrite Forall_forall in Hwf. auto. Qed.

Lemma uniqueRefs_singleton r : uniqueRefs [r] = [r].
Proof. done. Qed.

(** The log [log'] extends [log]: more events, statuses moved forward. *)
Definition extends (log log' : event_log) : Prop :=
  (∃ new, log_events log' = log_events log ++ new) ∧
  states_lead (log_states log) (log_states log').

#[local] Instance extends_preorder : PreOrder extends.
Proof.
  split.
  - intros log. split; [exists []; by rewrite app_nil_r|reflexivity].
  - intros l1 l2 l3 [[n1 H1] L1] [[n2 H2] L2]. split; [|by etrans].
  exists (n1 ++ n2). by rewrite H2, H1, app_assoc.
Qed.

(** ** Superseding *)

Record supersede_inv (log0 : event_log) (st : supersede_state) : Prop := {
  si_sound : log_sound artifacts graph now (ss_log st);
  si_extends : extends log0 (ss_log st);
  si_roots : Forall (λ r, ∃ a, a ∈ artifacts ∧ r = toResearchArtifactRef a ∧
  status_at (log_states (ss_log st)) (refKey r) ≠ Some Active) (ss_updatedRoots st);
}.

Lemma lead_not_active s s' k :
  states_lead s s' → is_Some (status_at s k) → status_at s k ≠ Some Active →
  status_at s' k ≠ Some Active.
Proof.
  intros Hl [x Hx] Hne Hact. destruct (Hl k x Hx) as (y & Hy & Hxy).
  rewrite Hact in Hy. injection Hy as <-. rewrite Hx in Hne.
  destruct Hxy as [->|Htr]; [done|]. unfold transition in Htr. naive_solver.
Qed.

Lemma covers_status states a :
  covers artifacts states → a ∈ artifacts → is_Some (status_at states (researchArtifactKey a)).
Proof. intros Hc Ha. unfold status_at. apply fmap_is_Some. auto. Qed.

Lemma roots_not_active_lead log log' roots :
  covers artifacts (log_states log) → extends log log' →
  Forall (λ r, ∃ a, a ∈ artifacts ∧ r = toResearchArtifactRef a ∧
  status_at (log_states log) (refKey r) ≠ Some Active) roots →
  Forall (λ r, ∃ a, a ∈ artifacts ∧ r = toResearchArtifactRef a ∧
  status_at (log_states log') (refKey r) ≠ Some Active) roots.
Proof.
  intros Hc [_ Hl] Hr. eapply Forall_impl; [exact Hr|]. intros r (a & Ha & -> & Hs).
  exists a. split_and!; [done..|]. eapply lead_not_active; [done| |done].
  by apply covers_status.
Qed.

Lemma recorded_extends log log' a to cause reason roots state :
  jm_get (researchArtifactKey a) (log_states log) = Some state →
  status_leads (ms_status state) to →
  log_states log' = jm_set (researchArtifactKey a)
  (state_after to cause reason roots now) (log_states log) →
  (∃ e, log_events log' = log_events log ++ [e]) → extends log log'.
Proof.
  intros Hst Hl Hs [e He]. split; [by exists [e]|]. rewrite Hs.
  by eapply states_lead_set.
Qed.

Lemma supersede_step_inv log0 keys st pair st' :
  is_ok (assertAppendOnlyRevisionSequence [] artifacts) = true →
  (∀ a, a ∈ artifacts → researchArtifactKey a ∈ keys → (a_updatedAt a ≤ now)%Z) →
  pair ∈ concat (adjacent <$> jm_values (groupArtifactsById artifacts)) →
  supersede_inv log0 st → supersede_step keys now st pair = Ok st' → supersede_inv log0 st'.
Proof.
  intros Hseq Hkeys Hpair [Hs He Hr]. destruct pair as [previous current].
  destruct (adjacent_revisions _ _ _ Hseq Hpair) as (Hp & Hc & Hid & Hk & Hrev).
  unfold supersede_step. case_decide as Hin; [by intros [= <-]|].
  case_decide as Hstatus; fold (status_at (log_states (ss_log st)) (researchArtifactKey previous)) in *.
  - intros Hrun. inv_result. rename r into log.
  destruct (ls_covers _ _ _ _ Hs _ Hp) as [state Hst].
  assert (ms_status state = Active ∨ ms_status state = Stale) as Hact.
  { unfold status_at in Hstatus. rewrite Hst in Hstatus. simpl in Hstatus. naive_solver. }
  eapply (append_event_sound artifacts graph Hnd now _ _ _ _ _ _ [current] state)
    in Hr0 as (Hs' & Hstates & e & Hev & _); cbn [ss_log] in *; try done;
    [|by apply wf_of_elem|by repeat constructor; apply wf_toRef, wf_of_elem| |].
  + assert (extends (ss_log st) log) as Hext.
    { eapply recorded_extends; [done| |done|by exists e].
      right. unfold transition. naive_solver. }
    split; cbn [ss_log ss_updatedRoots]; [done|by etrans|]. apply Forall_app. split.
    * eapply roots_not_active_lead; [apply Hs|done|done].
    * constructor; [|constructor]. exists previous. split_and!; [done..|].
      rewrite refKey_toRef, Hstates. unfold status_at. rewrite jm_get_set_eq. done.
  + rewrite uniqueRefs_singleton. repeat constructor. by apply resolveRef_toRef.
  + split; [done|]. exists current. split_and!; try done. by apply Hkeys.
  - intros [= <-]. split; cbn [ss_log ss_updatedRoots]; [done|done|].
  apply Forall_app. split; [done|]. constructor; [|constructor].
  exists previous. split_and!; [done..|]. rewrite refKey_toRef. naive_solver.
Qed.
(** ** Precise invalidation *)

(** A reference that resolves exactly. *)
Definition resolvable (r : artifact_ref) : Prop :=
  wf_artifact_ref r ∧
  ∃ a, a ∈ artifacts ∧ researchArtifactKey a = refKey r ∧ ref_matches a r = true.

Lemma resolvable_toRef a : a ∈ artifacts → resolvable (toResearchArtifactRef a).
Proof.
  intros Ha. split; [by apply wf_toRef, wf_of_elem|].
  exists a. split_and!; [done..|apply ref_matches_toRef].
Qed.

Lemma resolve_all refs (P : artifact_envelope → Prop) :
  Forall resolvable refs →
  (∀ r a, r ∈ refs → a ∈ artifacts → researchArtifactKey a = refKey r → P a) →
  ∃ roots, Forall2 (λ ref root, resolveRef artifacts ref "status event root" = Ok root)
  refs roots ∧ Forall P roots.
Proof.
  induction refs as [|r refs IH]; intros Hr HP; [by exists []|].
  apply Forall_cons in Hr as [(_ & a & Ha & Hk & Hm) Hr].
  destruct IH as (roots & H1 & H2); [done|intros r' a' Hin; apply HP; by right|].
  exists (a :: roots). split; constructor; try done.
  - by apply resolveRef_intro.
  - eapply HP; [by left|done..].
Qed.

(** The state a stale key ends in. *)
Definition stale_state (roots : list artifact_ref) (reason : invalidation_reason)
  (key : string) : MaterializedState :=
  state_after Stale Invalidation (Some reason) (uniqueRefs (roots_above graph roots key)) now.

Record stale_inv (roots : list artifact_ref) (reason : invalidation_reason)
  (log0 : event_log) (done : list string) (st : event_log * list artifact_ref) : Prop := {
  st_sound : log_sound artifacts graph now st.1;
  st_extends : extends log0 st.1;
  st_states : ∀ k, jm_get k (log_states st.1) =
  if decide (k ∈ done ∧ status_at (log_states log0) k = Some Active)
  then Some (stale_state roots reason k) else jm_get k (log_states log0);
  st_refs : ∀ r, r ∈ st.2 ↔ ∃ a, a ∈ artifacts ∧ r = toResearchArtifactRef a ∧
  researchArtifactKey a ∈ done ∧
  status_at (log_states log0) (researchArtifactKey a) = Some Active;
}.

Lemma in_artifacts_key k :
  k ∈ keys_of artifacts → ∃ a, jm_get k (jm_index researchArtifactKey artifacts) = Some a ∧
  a ∈ artifacts ∧ researchArtifactKey a = k.
Proof.
  intros (a & -> & Ha)%list_elem_of_fmap. exists a.
  split_and!; [|done..]. by apply jm_index_NoDup.
Qed.

Lemma descends_key r k : descends artifacts r k → k ∈ keys_of artifacts.
Proof.
  unfold descends. induction 1 as [x y Hxy|x y z _ _ IH]; [by eapply causal_edge_keys|done].
Qed.

Lemma roots_above_spec roots k r :
  r ∈ roots_above graph roots k ↔ r ∈ roots ∧ descends artifacts (refKey r) k.
Proof.
  unfold roots_above. rewrite list_elem_of_filter, elem_of_descendantKeys by done. tauto.
Qed.

(** One key of the loop. *)
Lemma stale_step_inv roots reason log0 done st k st' :
  Forall resolvable roots → NoDup (fullRefKey <$> roots) →
  k ∈ jm_keys (roots_by_descendant graph roots) → k ∉ done →
  stale_inv roots reason log0 done st →
  stale_step (jm_index researchArtifactKey artifacts) (roots_by_descendant graph roots)
  reason now st k = Ok st' →
  stale_inv roots reason log0 (done ++ [k]) st'.
Proof.
  intros Hroots Hu Hk Hfresh [Hs He Hst Hrefs] Hrun.
  apply (roots_by_descendant_keys artifacts graph Hnd Hg) in Hk as (Hexp & r & Hr & Hd).
  destruct (in_artifacts_key k (descends_key _ _ Hd)) as (a & Hget & Ha & <-).
  destruct st as [log staleRefs]. unfold stale_step in Hrun. rewrite Hget in Hrun.
  cbn [fst snd] in *. fold (status_at (log_states log) (researchArtifactKey a)) in Hrun.
  assert (status_at (log_states log) (researchArtifactKey a) =
  status_at (log_states log0) (researchArtifactKey a)) as Hsame.
  { unfold status_at. rewrite Hst, decide_False; [done|]. tauto. }
  case_decide as Hact.
  - rewrite (roots_by_descendant_values artifacts graph Hnd Hg) in Hrun by done. inv_result. rename r0 into log'.
  destruct (ls_covers _ _ _ _ Hs _ Ha) as [state Hstate].
  assert (ms_status state = Active) as Hsa.
  { unfold status_at in Hact. rewrite Hstate in Hact. by injection Hact. }
  assert (Forall resolvable (uniqueRefs (roots_above graph roots (researchArtifactKey a)))) as Hra.
  { apply Forall_forall. intros x Hx%elem_of_uniqueRefs_inv.
    apply roots_above_spec in Hx as [Hx _]. rewrite Forall_forall in Hroots. auto. }
  destruct (resolve_all _ (λ b, researchArtifactKey a ∈ descendantKeys graph (researchArtifactKey b))
    Hra) as (rs & Hrs & Hrsd).
  { intros x b Hx%elem_of_uniqueRefs_inv _ ->. apply roots_above_spec in Hx as [_ Hx].
    by apply (elem_of_descendantKeys artifacts). }
  assert (r ∈ roots_above graph roots (researchArtifactKey a)) as Hin
    by by apply roots_above_spec.
  eapply (append_event_sound artifacts graph Hnd now _ _ _ _ _ _ rs state)
    in Hr0 as (Hs' & Hstates & e & Hev & _); try done;
    [|by apply wf_of_elem|intros Hnil; rewrite Hnil in Hin; by apply elem_of_nil in Hin|].
  + assert (extends log log') as Hext.
    { eapply recorded_extends; [done| |done|by exists e].
      rewrite Hsa. right. by left. }
    split; cbn [fst snd]; [done|by etrans|..].
    * intros k'. rewrite Hstates, jm_get_set, Hst.
      destruct (decide (k' = researchArtifactKey a)) as [->|Hne].
      -- rewrite decide_True; [done|]. rewrite <- Hsame. split; [|done].
         apply elem_of_app. right. by apply list_elem_of_singleton.
      -- apply decide_ext. rewrite elem_of_app, list_elem_of_singleton. tauto.
    * intros x. rewrite elem_of_app, Hrefs, list_elem_of_singleton. split.
      -- intros [(b & ? & ? & ? & ?)| ->].
         ++ exists b. split_and!; try done. apply elem_of_app. by left.
         ++ exists a. split_and!; [done..| |congruence].
            apply elem_of_app. right. by apply list_elem_of_singleton.
      -- intros (b & Hb & -> & [Hbd|Hbk%list_elem_of_singleton]%elem_of_app & Hbs); [left|right].
         ++ by exists b.
         ++ f_equal. pose proof (jm_index_NoDup researchArtifactKey artifacts b Hnd Hb) as E.
            rewrite Hbk, Hget in E. by injection E.
  + apply Forall_forall. intros x Hx. apply roots_above_spec in Hx as [Hx _]. rewrite Forall_forall in Hroots.
    by apply Hroots.
  - injection Hrun as <-. split; cbn [fst snd]; [done|done|..].
  + intros k'. rewrite Hst. apply decide_ext. rewrite elem_of_app, list_elem_of_singleton.
    split; [tauto|]. intros [[?| ->] ?]; [done|]. congruence.
  + intros x. rewrite Hrefs. split; intros (b & ? & ? & Hbd & ?); exists b; split_and!; try done.
    * apply elem_of_app. by left.
    * apply elem_of_app in Hbd as [?|Hbk%list_elem_of_singleton]; [done|]. congruence.
Qed.

Lemma stale_loop_inv roots reason log0 ks : ∀ done st st',
  Forall resolvable roots → NoDup (fullRefKey <$> roots) →
  (∀ k, k ∈ ks → k ∈ jm_keys (roots_by_descendant graph roots)) → NoDup (done ++ ks) →
  stale_inv roots reason log0 done st →
  foldM (stale_step (jm_index researchArtifactKey artifacts) (roots_by_descendant graph roots)
  reason now) st ks = Ok st' →
  stale_inv roots reason log0 (done ++ ks) st'.
Proof.
  induction ks as [|k ks IH]; intros done st st' Hroots Hu Hks Hn Hinv; cbn [foldM].
  { intros [= <-]. by rewrite app_nil_r. }
  intros Hrun. inv_result. replace (done ++ k :: ks) with ((done ++ [k]) ++ ks) in *
  by by rewrite <- app_assoc.
  eapply IH; [done|done|intros k' ?; apply Hks; by right|done| |exact Hrun].
  eapply stale_step_inv; [done|done|apply Hks; by left| |done|exact Hr].
  rewrite <- app_assoc in Hn. apply NoDup_app in Hn as (_ & Hn & _).
  intros Hin. apply (Hn k Hin). by left.
Qed.

(** What precise invalidation does to a sound log: exactly the active
    strict descendants of the roots that are not roots themselves become
    stale, each with the roots it descends from; nothing else changes. *)
Lemma precise_invalidation_spec log roots reason log' staleRefs :
  log_sound artifacts graph now log →
  Forall resolvable roots → NoDup (fullRefKey <$> roots) →
  appendPreciseInvalidationEvents graph artifacts log roots reason now = Ok (log', staleRefs) →
  let hit k := k ∉ refKey <$> roots ∧ (∃ r, r ∈ roots ∧ descends artifacts (refKey r) k) ∧
  status_at (log_states log) k = Some Active in
  log_sound artifacts graph now log' ∧ extends log log' ∧
  (∀ k, hit k → jm_get k (log_states log') = Some (stale_state roots reason k)) ∧
  (∀ k, ¬ hit k → jm_get k (log_states log') = jm_get k (log_states log)) ∧
  (∀ r, r ∈ staleRefs ↔ ∃ a, a ∈ artifacts ∧ r = toResearchArtifactRef a ∧
   hit (researchArtifactKey a)).
Proof.
  intros Hs Hroots Hu Hrun hit. unfold appendPreciseInvalidationEvents in Hrun.
  assert (stale_inv roots reason log [] (log, [])) as Hinit.
  { split; cbn [fst snd]; [done|reflexivity|..].
  - intros k. rewrite decide_False; [done|]. by intros [?%elem_of_nil _].
  - intros r. rewrite elem_of_nil. split; [done|]. by intros (a & _ & _ & ?%elem_of_nil & _). }
  assert (∀ st, stale_inv roots reason log (js_sort compareText
    (jm_keys (roots_by_descendant graph roots))) st →
  log_sound artifacts graph now st.1 ∧ extends log st.1 ∧
  (∀ k, hit k → jm_get k (log_states st.1) = Some (stale_state roots reason k)) ∧
  (∀ k, ¬ hit k → jm_get k (log_states st.1) = jm_get k (log_states log)) ∧
  (∀ r, r ∈ st.2 ↔ ∃ a, a ∈ artifacts ∧ r = toResearchArtifactRef a ∧
     hit (researchArtifactKey a))) as Hdone.
  { intros st [Hs' He Hst Hrefs].
  assert (∀ k, k ∈ js_sort compareText (jm_keys (roots_by_descendant graph roots)) ∧
    status_at (log_states log) k = Some Active ↔ hit k) as Hhit.
  { intros k. unfold hit.
    rewrite elem_of_js_sort, (roots_by_descendant_keys artifacts graph Hnd Hg). tauto. }
  split_and!; [done|done|..].
  - intros k Hk%Hhit. by rewrite Hst, decide_True.
  - intros k Hk. rewrite Hst, decide_False; [done|]. by rewrite Hhit.
  - intros r. rewrite Hrefs. setoid_rewrite <- Hhit. done. }
  destruct roots as [|r0 roots']; [|].
  { assert (log' = log ∧ staleRefs = []) as [-> ->]
    by (clear - Hrun; injection Hrun as <- <-; done).
  by apply (Hdone (log, [])). }
  apply bind_Ok in Hrun as ([l refs] & Hr & Hrun).
  assert (log' = l ∧ staleRefs = sortRefs refs) as [-> ->]
  by (clear - Hrun; injection Hrun as <- <-; done).
  apply stale_loop_inv with (log0 := log) (done := []) in Hr.
  - apply Hdone in Hr as (? & ? & ? & ? & Hrefs). cbn [fst snd] in *.
  split_and!; try done. intros r. unfold sortRefs. by rewrite elem_of_js_sort.
  - done.
  - done.
  - intros k. by rewrite elem_of_js_sort.
  - simpl. rewrite js_sort_perm. apply roots_by_descendant_NoDup.
  - done.
Qed.
End Loops.
