(* ===== verification/RepoTransactions.v ===== *)
(** * What a transaction guarantees

    Every persisted append or invalidation stores a valid manifest, keeps the
    stored envelopes and events, moves statuses only forward, and an append
    leaves no active artifact below a non-active one. *)

From S2P Require Import Prelude Host JsValue Digraph ArtifactTypes ArtifactGraph RepoModel RepoEvents Repository RepoJson RepoLog RepoSound RepoValid RepoCommit.

(** The immutable part of an envelope. *)
Definition same_content (a b : artifact_envelope) : Prop :=
  a_artifactId b = a_artifactId a ∧ a_revision b = a_revision a ∧ a_kind b = a_kind a ∧
  a_createdAt b = a_createdAt a ∧ a_contentHash b = a_contentHash a ∧
  a_producer b = a_producer a ∧ a_parents b = a_parents a ∧ a_sources b = a_sources a ∧
  a_payload b = a_payload a.

(** [b] is [a] after some status events. *)
Definition later (a b : artifact_envelope) : Prop :=
  same_content a b ∧ status_leads (a_status a) (a_status b) ∧ (a_updatedAt a ≤ a_updatedAt b)%Z.

Section States.
Context `{Hhost : Host} `{!HostLaws Hhost}.

(** ** Replay over a larger artifact set *)

Definition agree_on (keys : list string) (s s' : jmap MaterializedState) : Prop :=
  ∀ k, k ∈ keys → jm_get k s = jm_get k s'.

Lemma replay_agree arts arts' g g' keys events : ∀ st1 st2 st1' st2',
  agree_on keys (rs_states st1) (rs_states st2) →
  foldM (replay_event arts g) st1 events = Ok st1' →
  foldM (replay_event arts' g') st2 events = Ok st2' →
  agree_on keys (rs_states st1') (rs_states st2').
Proof.
  induction events as [|e events IH]; intros st1 st2 st1' st2' Hag; cbn [foldM].
  { by intros [= <-] [= <-]. }
  intros H1 H2. apply bind_Ok in H1 as (s1 & E1 & H1). apply bind_Ok in H2 as (s2 & E2 & H2).
  eapply IH; [|exact H1|exact H2].
  apply replay_event_Ok in E1 as (? & ? & _ & _ & _ & _ & _ & _ & _ & ->).
  apply replay_event_Ok in E2 as (? & ? & _ & _ & _ & _ & _ & _ & _ & ->).
  intros k Hk. simpl. rewrite !jm_get_set. case_decide; [done|auto].
Qed.

Lemma initial_states_get artifacts a :
  NoDup (keys_of artifacts) → a ∈ artifacts →
  jm_get (researchArtifactKey a) (initial_states artifacts) = Some (initial_state a).
Proof. intros Hnd Ha. by apply (jm_get_fold_unique researchArtifactKey initial_state). Qed.

Lemma replay_extended base appended g g' events s s' :
  NoDup (keys_of (base ++ appended)) →
  replayStatusEvents base events g = Ok s →
  replayStatusEvents (base ++ appended) events g' = Ok s' →
  agree_on (keys_of base) s s'.
Proof.
  intros Hnd H1 H2. unfold replayStatusEvents in *. inv_result.
  eapply replay_agree; [|exact Hr0|exact Hr]. simpl.
  intros k (a & -> & Ha)%list_elem_of_fmap.
  assert (NoDup (keys_of base)) as Hnb.
  { unfold keys_of in *. rewrite fmap_app in Hnd. by apply NoDup_app in Hnd as [? _]. }
  rewrite !initial_states_get; try done. apply elem_of_app. by left.
Qed.

(** ** Times only move forward *)

Definition time_leads (s s' : jmap MaterializedState) : Prop :=
  ∀ k x, jm_get k s = Some x → ∃ y, jm_get k s' = Some y ∧ (ms_updatedAt x ≤ ms_updatedAt y)%Z.

Lemma replay_times arts g events : ∀ st st',
  foldM (replay_event arts g) st events = Ok st' →
  time_leads (rs_states st) (rs_states st').
Proof.
  induction events as [|e events IH]; intros st st'; cbn [foldM].
  { intros [= <-] k x Hx. exists x. split; [done|lia]. }
  intros Hrun. inv_result. intros k x Hx. apply replay_event_Ok in Hr as
  (? & s & _ & _ & Hs & _ & Ht & _ & _ & ->).
  apply IH in Hrun. simpl in Hrun.
  destruct (decide (k = refKey (ev_artifact e))) as [->|Hne].
  - rewrite Hx in Hs. injection Hs as ->.
  destruct (Hrun (refKey (ev_artifact e)) (state_after (ev_to e) (ev_cause e) (ev_reason e)
    (ev_roots e) (ev_changedAt e))) as (y & Hy & Hle).
  { by rewrite jm_get_set_eq. }
  exists y. split; [done|]. simpl in Hle. lia.
  - apply (Hrun k x). by rewrite jm_get_set_ne.
Qed.

(** ** Materialization *)

Lemma materialize_one_Ok states a b :
  materialize_one states a = Ok b →
  same_content a b ∧ ∃ x, jm_get (researchArtifactKey a) states = Some x ∧
  a_status b = ms_status x ∧ a_updatedAt b = ms_updatedAt x ∧
  a_invalidation b = ms_invalidation x.
Proof.
  unfold materialize_one. destruct (jm_get _ states) as [x|]; [|done].
  intros [= <-]. split; [done|]. by exists x.
Qed.

Lemma snapshot_Ok m s :
  snapshotOf m = Ok s →
  ∃ g states, validateCompleteArtifactGraph (m_artifacts m) = Ok g ∧
  replayStatusEvents (m_artifacts m) (m_statusEvents m) g = Ok states ∧
  Forall2 (λ a b, materialize_one states a = Ok b) (m_artifacts m) (sn_artifacts s) ∧
  s = mkSnapshot (m_repositoryId m) (m_revision m) (m_createdAt m) (m_updatedAt m)
        (m_contentHash m) (sn_artifacts s).
Proof.
  unfold snapshotOf, materializeArtifacts. intros Hrun. inv_result.
  match goal with Hm : mapM _ _ = Ok _ |- _ => apply mapM_Ok in Hm end. by eexists _, _.
Qed.

Lemma snapshot_total m : valid_manifest m → ∃ s, snapshotOf m = Ok s.
Proof.
  intros Hv. destruct (vm_graph _ Hv) as (g & Hg & _ & [states Hst]%is_ok_ex).
  unfold snapshotOf, materializeArtifacts. rewrite Hg. cbn [mbind result_bind].
  rewrite Hst. cbn [mbind result_bind].
  assert (is_ok (mapM (materialize_one states) (m_artifacts m)) = true) as [l ->]%is_ok_ex;
  [|by eexists].
  apply mapM_is_ok, Forall_forall. intros a Ha. unfold replayStatusEvents in Hst. inv_result.
  assert (covers (m_artifacts m) (rs_states r)) as Hc.
  { eapply replay_covers; [|exact Hr]. apply covers_initial. }
  destruct (Hc a Ha) as [x Hx]. unfold materialize_one. by rewrite Hx.
Qed.

Lemma same_content_key a b :
  same_content a b → researchArtifactKey b = researchArtifactKey a.
Proof. intros (Hid & Hrev & _). unfold researchArtifactKey. by rewrite Hid, Hrev. Qed.

Lemma same_content_keys l l' : Forall2 same_content l l' → keys_of l' = keys_of l.
Proof.
  intros Hl. symmetry. apply list_eq_Forall2, Forall2_fmap.
  eapply Forall2_impl; [exact Hl|]. intros a b Hab. symmetry. by apply same_content_key.
Qed.

Lemma same_content_sym a b : same_content a b → same_content b a.
Proof. unfold same_content. intuition congruence. Qed.

Lemma causal_edge_same l l' k c :
  Forall2 same_content l l' → causal_edge l k c → causal_edge l' k c.
Proof.
  intros Hl (a & p & Ha & Hc & Hp & Hrel & Hk & Hkey & Hin).
  apply list_elem_of_lookup in Ha as [i Hi].
  destruct (Forall2_lookup_l _ _ _ _ _ Hl Hi) as (b & Hb & Hab).
  exists b, p. split_and!; [by eapply list_elem_of_lookup_2|..|done|].
  - by rewrite (same_content_key _ _ Hab).
  - destruct Hab as (_ & _ & _ & _ & _ & _ & Hps & _). by rewrite Hps.
  - split_and!; [done..|]. by rewrite (same_content_keys _ _ Hl).
Qed.

Lemma descends_same l l' r k :
  Forall2 same_content l l' → descends l' r k ↔ descends l r k.
Proof.
  intros Hl. apply tc_iff. intros x y. split; apply causal_edge_same; [|done].
  apply Forall2_flip. eapply Forall2_impl; [exact Hl|]. apply same_content_sym.
Qed.

Lemma snapshot_same m s :
  snapshotOf m = Ok s → Forall2 same_content (m_artifacts m) (sn_artifacts s).
Proof.
  intros (g & states & _ & _ & Hf & _)%snapshot_Ok.
  eapply Forall2_impl; [exact Hf|]. by intros a b [? _]%materialize_one_Ok.
Qed.
End States.

(** ** One commit *)

(** No artifact below a non-active one is active. *)
Definition settled (artifacts : list artifact_envelope) (states : jmap MaterializedState) : Prop :=
  ∀ a b, a ∈ artifacts → b ∈ artifacts →
    descends artifacts (researchArtifactKey a) (researchArtifactKey b) →
    status_at states (researchArtifactKey a) ≠ Some Active →
    status_at states (researchArtifactKey b) ≠ Some Active.

Section Commit.
Context `{Hhost : Host} `{!HostLaws Hhost}.

Lemma sealed_Ok m0 m :
  sealManifest m0 = Ok m →
  m = mkManifest (m_repositoryId m0) (m_revision m0) (m_createdAt m0) (m_updatedAt m0)
      (m_artifacts m0) (m_statusEvents m0) (m_contentHash m) ∧
  hashResearchArtifactContent (manifest_body_to_json m) = Ok (m_contentHash m).
Proof.
  unfold sealManifest. intros Hrun. inv_result. split; [done|]. exact Hr.
Qed.

Lemma log_sound_replay artifacts graph now log :
  log_sound artifacts graph now log →
  replayStatusEvents artifacts (log_events log) graph = Ok (log_states log).
Proof.
  intros Hs. destruct (ls_replay _ _ _ _ Hs) as (st & Hst & Heq).
  unfold replayStatusEvents. rewrite Hst. cbn [mbind result_bind]. by rewrite Heq.
Qed.

(** Sealing the state of a transaction gives a valid manifest. *)
Lemma seal_valid id revision createdAt now artifacts graph log m :
  Forall wf_envelope artifacts → is_safe_identifier id = true →
  (1 ≤ revision ≤ max_safe_integer)%Z → is_time_value createdAt = true →
  is_time_value now = true → (createdAt ≤ now)%Z →
  validateCompleteArtifactGraph artifacts = Ok graph →
  validateEmbeddedInvalidationRefs artifacts graph = Ok tt →
  assertAppendOnlyRevisionSequence [] artifacts = Ok tt →
  Forall (λ a, a_updatedAt a ≤ now)%Z artifacts →
  log_sound artifacts graph now log →
  (Z.of_nat (length (log_events log)) ≤ max_safe_integer)%Z →
  sealManifest (mkManifest id revision createdAt now artifacts (log_events log) "") = Ok m →
  valid_manifest m.
Proof.
  intros Hwf Hid Hrev Hc Hn Hcn Hg Hemb Hseq Hat Hs Hlen Hseal.
  apply sealed_Ok in Hseal as [Heq Hhash]. rewrite Heq in Hhash |- *. cbn in *.
  split; cbn [m_artifacts m_statusEvents m_repositoryId m_revision m_createdAt m_updatedAt
  m_contentHash]; try done.
  - eapply numbered_impl; [|by apply Hs]. intros e _ Hr He. split; [|done].
  apply event_id_safe; [done|lia].
  - exists graph. split_and!; [done|done|]. by rewrite (log_sound_replay _ _ now).
  - apply Hs.
Qed.

Lemma assert_not_after_Ok now l u :
  foldM (assert_not_after now) tt l = Ok u → Forall (λ a, a_updatedAt a ≤ now)%Z l.
Proof.
  revert u; induction l as [|a l IH]; intros u; cbn [foldM]; [by constructor|].
  intros Hrun. inv_result. destruct r. unfold assert_not_after in Hr. inv_result.
  constructor; [by apply Z.leb_le|by eapply IH].
Qed.

Lemma settled_states artifacts graph now states log roots reason :
  NoDup (keys_of artifacts) → graph_spec artifacts graph →
  covers artifacts states →
  (∀ a, a ∈ artifacts → status_at states (researchArtifactKey a) ≠ Some Active →
   toResearchArtifactRef a ∈ roots) →
  (∀ r, r ∈ roots → status_at states (refKey r) ≠ Some Active) →
  let hit k := k ∉ refKey <$> roots ∧ (∃ r, r ∈ roots ∧ descends artifacts (refKey r) k) ∧
  status_at states k = Some Active in
  (∀ k, hit k → jm_get k (log_states log) = Some (stale_state graph now roots reason k)) →
  (∀ k, ¬ hit k → jm_get k (log_states log) = jm_get k states) →
  settled artifacts (log_states log).
Proof.
  intros Hnd Hg Hcov Hall Hinact hit Hhit Hmiss a b Ha Hb Hab Hna Hact.
  assert (∀ k, status_at (log_states log) k = Some Active → ¬ hit k) as Hnohit.
  { intros k Hk Hh. unfold status_at in Hk. by rewrite (Hhit k Hh) in Hk. }
  pose proof (Hnohit _ Hact) as Hbn. unfold status_at in Hact. rewrite Hmiss in Hact by done.
  fold (status_at states (researchArtifactKey b)) in Hact.
  assert (researchArtifactKey b ∉ refKey <$> roots) as Hbr.
  { intros (r & Hk & Hr)%list_elem_of_fmap. apply (Hinact r Hr). by rewrite <- Hk. }
  apply Hbn. split_and!; [done| |done].
  destruct (decide (status_at states (researchArtifactKey a) = Some Active)) as [Haa|Han].
  - destruct (roots_above graph roots (researchArtifactKey a)) as [|r rs] eqn:Eabove.
  + exfalso. apply Hna. unfold status_at. rewrite Hmiss; [done|].
    intros (_ & (r & Hr & Hd) & _). apply (not_elem_of_nil r). rewrite <- Eabove.
    by apply (roots_above_spec artifacts).
  + assert (r ∈ roots_above graph roots (researchArtifactKey a)) as Hr
      by (rewrite Eabove; by left).
    apply (roots_above_spec artifacts) in Hr as [Hr Hd]; [|done..].
    exists r. split; [done|]. unfold descends in *. by etrans.
  - exists (toResearchArtifactRef a). split; [by apply Hall|done].
Qed.

Lemma inherited_roots_spec artifacts states a :
  a ∈ artifacts → status_at states (researchArtifactKey a) ≠ Some Active →
  toResearchArtifactRef a ∈ inherited_roots states artifacts.
Proof.
  intros Ha Hs. unfold inherited_roots. apply list_elem_of_fmap_2.
  by apply list_elem_of_filter.
Qed.

Lemma inherited_roots_Ok artifacts states r :
  r ∈ inherited_roots states artifacts →
  ∃ a, a ∈ artifacts ∧ r = toResearchArtifactRef a ∧ status_at states (refKey r) ≠ Some Active.
Proof.
  unfold inherited_roots. intros (a & -> & Ha)%list_elem_of_fmap.
  apply list_elem_of_filter in Ha as [Hs Ha]. by exists a.
Qed.

(** The superseding loop from a sound log. *)
Lemma supersede_loop artifacts graph now keys log st :
  NoDup (keys_of artifacts) → Forall wf_content artifacts → is_time_value now = true →
  is_ok (assertAppendOnlyRevisionSequence [] artifacts) = true →
  (∀ a, a ∈ artifacts → researchArtifactKey a ∈ keys → (a_updatedAt a ≤ now)%Z) →
  log_sound artifacts graph now log →
  foldM (supersede_step keys now) (mkSupersede log [] [])
  (concat (adjacent <$> jm_values (groupArtifactsById artifacts))) = Ok st →
  supersede_inv artifacts graph now log st.
Proof.
  intros Hnd Hwf Hnow Hseq Hkeys Hs Hrun.
  eapply (foldM_inv (supersede_inv artifacts graph now log)); [| |exact Hrun].
  - split; [done|split; [by exists []; rewrite app_nil_r|reflexivity]|constructor].
  - intros s x s' Hx Hinv Hstep. by eapply supersede_step_inv.
Qed.

(** The stored envelopes after a commit are sound input for the loops. *)
Lemma appended_keys_time base appended now :
  NoDup (keys_of (base ++ appended)) → Forall (λ a, a_updatedAt a ≤ now)%Z appended →
  ∀ a, a ∈ base ++ appended → researchArtifactKey a ∈ researchArtifactKey <$> appended →
  (a_updatedAt a ≤ now)%Z.
Proof.
  intros Hnd Ht a Ha (b & Hk & Hb)%list_elem_of_fmap.
  assert (a = b) as ->; [|rewrite Forall_forall in Ht; auto].
  assert (b ∈ base ++ appended) as Hb' by (apply elem_of_app; by right).
  pose proof (find_by_key_intro _ _ Hnd Ha) as E1.
  pose proof (find_by_key_intro _ _ Hnd Hb') as E2. rewrite Hk, E2 in E1. by injection E1.
Qed.

(** What a commit promises. *)
Record commit_spec (base : repository_manifest) (appended : list artifact_envelope)
  (nextRevision now : Z) (m : repository_manifest) : Prop := {
  cs_valid : (Z.of_nat (length (m_statusEvents m)) ≤ max_safe_integer)%Z → valid_manifest m;
  cs_artifacts : m_artifacts m = m_artifacts base ++ appended;
  cs_events : ∃ new, m_statusEvents m = m_statusEvents base ++ new;
  cs_identity : m_repositoryId m = m_repositoryId base ∧ m_createdAt m = m_createdAt base;
  cs_revision : m_revision m = nextRevision ∧ m_updatedAt m = now;
  cs_states : ∃ graph states states',
  validateCompleteArtifactGraph (m_artifacts m) = Ok graph ∧
  replayStatusEvents (m_artifacts m) (m_statusEvents base) graph = Ok states ∧
  replayStatusEvents (m_artifacts m) (m_statusEvents m) graph = Ok states' ∧
  states_lead states states' ∧ settled (m_artifacts m) states';
}.

Lemma commit_Ok base next appended now m superseded stale :
  valid_manifest base → Forall wf_envelope appended → is_time_value now = true →
  (1 ≤ next ≤ max_safe_integer)%Z →
  commit_appended base next appended now = Ok (m, superseded, stale) →
  commit_spec base appended next now m.
Proof.
  intros Hbase Happ Hnow Hnext Hrun. unfold commit_appended in Hrun. inv_result.
  unfold assertTransactionTime in Hr. inv_result. apply Z.leb_le in Hr.
  apply assert_not_after_Ok in Hr0. destruct r1, r3.
  rename r2 into graph, r4 into states, r5 into st, r6 into log_refs.
  change (assertAppendOnlyRevisionSequence [] (m_artifacts base ++ appended) = Ok ()) in Hr1.
  set (artifacts := m_artifacts base ++ appended) in *.
  pose proof (validate_graph_Ok _ _ Hr2) as ((Hnd & _) & _ & Hg).
  assert (Forall wf_envelope artifacts) as Hwfe by by (apply Forall_app; split; [apply Hbase|]).
  assert (Forall wf_content artifacts) as Hwf
  by (eapply Forall_impl; [exact Hwfe|by intros a [? _]]).
  assert (log_sound artifacts graph now (mkLog (m_statusEvents base) states)) as Hs0.
  { apply log_sound_initial; [apply Hbase| |done].
  eapply Forall_impl; [apply (vm_event_times _ Hbase)|]. simpl. lia. }
  apply (supersede_loop artifacts graph) in Hr5 as [Hs [Hnew Hlead] Hupd]; try done;
  [|by rewrite Hr1|by apply appended_keys_time].
  set (refs := ss_updatedRoots st ++ inherited_roots (log_states (ss_log st)) artifacts) in *.
  assert (∀ r, r ∈ refs → ∃ a, a ∈ artifacts ∧ r = toResearchArtifactRef a ∧
  status_at (log_states (ss_log st)) (refKey r) ≠ Some Active) as Hrefs.
  { intros x [Hx|Hx]%elem_of_app; [rewrite Forall_forall in Hupd; by apply Hupd|].
  by apply inherited_roots_Ok. }
  assert (Forall wf_ref refs) as Hwfr.
  { apply Forall_forall. intros x Hx. destruct (Hrefs x Hx) as (a & Ha & -> & _).
  by apply wf_toRef, (wf_of_elem artifacts). }
  destruct log_refs as [log staleRefs].
  apply (precise_invalidation_spec artifacts graph now) in Hr6
  as (Hs' & [[new' Hnew'] Hlead'] & Hhit & Hmiss & _); try done.
  2: { apply Forall_forall. intros x Hx%elem_of_uniqueRefs_inv.
  destruct (Hrefs x Hx) as (a & Ha & -> & _). by apply resolvable_toRef. }
  2: { apply uniqueRefs_NoDup. }
  assert (settled artifacts (log_states log)) as Hset.
  { eapply (settled_states artifacts graph now); [done|done|by apply Hs| | |exact Hhit|exact Hmiss].
  - intros a Ha Hna. apply elem_of_uniqueRefs; [done|]. apply elem_of_app. right.
    by apply inherited_roots_spec.
  - intros x Hx%elem_of_uniqueRefs_inv. by destruct (Hrefs x Hx) as (a & _ & _ & ?). }
  cbn [fst snd log_events] in *. pose proof Hr7 as [Hm _]%sealed_Ok. cbn in Hm.
  destruct Hnew as [new Hnew]. cbn [log_events] in Hnew.
  split; try (rewrite Hm; cbn; done).
  - intros Hlen. eapply seal_valid; [..|exact Hr7]; try done; try apply Hbase.
  + pose proof (vm_times _ Hbase). lia.
  + apply Forall_app. split; [|done].
    eapply Forall_impl; [apply (vm_artifact_times _ Hbase)|]. simpl. lia.
  + rewrite Hm in Hlen. exact Hlen.
  - exists (new ++ new'). rewrite Hm. cbn. by rewrite Hnew', Hnew, app_assoc.
  - exists graph, states, (log_states log). rewrite Hm. cbn [m_artifacts m_statusEvents].
  split_and!; [done|done|by eapply log_sound_replay|by etrans|done].
Qed.
End Commit.
