(* ===== verification/RepoOperations.v ===== *)
(** * The exported operations

    The guarantees of [appendProjectResearchArtifacts],
    [invalidateProjectResearchArtifactDescendants] and the queries, stated on
    what a caller sees: results, snapshots and the next load. *)

From S2P Require Import Prelude Host JsValue Digraph ArtifactTypes Samples ArtifactGraph RepoModel RepoEvents Repository RepoJson RepoLog RepoSound RepoValid RepoCommit RepoTransactions.

(** ** The size limit bounds the number of events *)

Lemma utf8_length_nonneg s : (0 ≤ utf8_length s)%Z.
Proof. induction s as [|c s IH]; simpl; [done|]. destruct (_ <? _)%N; lia. Qed.

Lemma utf8_length_append s t : utf8_length (s +:+ t) = (utf8_length s + utf8_length t)%Z.
Proof. induction s as [|c s IH]; [done|]. rewrite append_cons. cbn. rewrite IH. lia. Qed.

Definition total_length (l : list string) : Z := foldr (λ s n, utf8_length s + n)%Z 0%Z l.

Lemma utf8_length_join sep l : (total_length l ≤ utf8_length (str_join sep l))%Z.
Proof.
  induction l as [|x l IH]; [done|]. destruct l as [|y l]; [simpl; lia|].
  change (str_join sep (x :: y :: l)) with (x +:+ sep +:+ str_join sep (y :: l)).
  rewrite !utf8_length_append. pose proof (utf8_length_nonneg sep). simpl in *. lia.
Qed.

Lemma total_length_elem s l : s ∈ l → (utf8_length s ≤ total_length l)%Z.
Proof.
  assert (∀ l, 0 ≤ total_length l)%Z as Hpos.
  { intros l'. induction l' as [|x l' IH]; simpl; [done|].
    pose proof (utf8_length_nonneg x). lia. }
  induction 1 as [|? ? ? ? IH]; simpl.
  - specialize (Hpos l). lia.
  - pose proof (utf8_length_nonneg y). lia.
Qed.

Lemma total_length_count l :
  Forall (λ s, 1 ≤ utf8_length s)%Z l → (Z.of_nat (length l) ≤ total_length l)%Z.
Proof. induction 1; simpl; lia. Qed.

Lemma utf8_length_cons c s : (1 + utf8_length s ≤ utf8_length (String c s))%Z.
Proof. cbn. destruct (_ <? _)%N; lia. Qed.

Lemma utf8_length_literal c s : (1 + utf8_length s ≤ utf8_length (String c "" +:+ s))%Z.
Proof. rewrite append_cons, append_nil_l. apply utf8_length_cons. Qed.

Lemma json_stringify_obj_pos indent fields s :
  json_stringify indent (JObj fields) = Some s → (1 ≤ utf8_length s)%Z.
Proof.
  simpl. destruct (omap id _) as [|t ts]; intros [= <-]; [done|].
  etrans; [|apply utf8_length_literal].
  match goal with |- (_ ≤ 1 + utf8_length ?t)%Z => pose proof (utf8_length_nonneg t); lia end.
Qed.

Lemma json_stringify_arr indent v l :
  json_stringify indent (JArr (v :: l)) =
  Some ("[" +:+ String (ascii_of_N 10) "" +:+ (indent +:+ "  ") +:+
    str_join ("," +:+ String (ascii_of_N 10) "" +:+ (indent +:+ "  "))
      (map (λ w, default "null" (json_stringify (indent +:+ "  ") w)) (v :: l)) +:+
    String (ascii_of_N 10) "" +:+ indent +:+ "]").
Proof. reflexivity. Qed.

(** An array's text is at least as long as its number of object elements. *)
Lemma json_stringify_arr_length indent l s :
  Forall (λ v, isRecord v = true) l →
  json_stringify indent (JArr l) = Some s → (Z.of_nat (length l) ≤ utf8_length s)%Z.
Proof.
  intros Hl. destruct l as [|v l]; [intros [= <-]; done|].
  rewrite json_stringify_arr. intros Hs. apply (inj Some) in Hs as <-.
  set (texts := map (λ w, default "null" (json_stringify (indent +:+ "  ") w)) (v :: l)).
  assert (Z.of_nat (length (v :: l)) ≤ total_length texts)%Z as Hlen.
  { replace (length (v :: l)) with (length texts) by (unfold texts; by rewrite length_map).
    apply total_length_count. unfold texts. change (map ?f (v :: l)) with (f <$> (v :: l)).
    rewrite Forall_fmap. eapply Forall_impl; [exact Hl|]. intros w Hw. unfold compose.
    destruct w as [| | | | | |fields|]; try done.
    destruct (json_stringify _ (JObj fields)) eqn:E; simpl; [|done].
    by eapply json_stringify_obj_pos. }
  rewrite !utf8_length_append.
  match goal with |- context [str_join ?sep ?l] =>
    change l with texts; pose proof (utf8_length_join sep texts) end.
  repeat match goal with |- context [utf8_length ?t] =>
    lazymatch t with str_join _ _ => fail | _ =>
    pose proof (utf8_length_nonneg t); generalize dependent (utf8_length t); intros end end.
  lia.
Qed.

Lemma json_stringify_field indent fields key v s t :
  json_stringify indent (JObj fields) = Some s → (key, v) ∈ fields →
  json_stringify (indent +:+ "  ") v = Some t → (utf8_length t ≤ utf8_length s)%Z.
Proof.
  intros Hs Hin Ht. simpl in Hs. set (texts := omap id _) in Hs.
  assert (quote key +:+ ": " +:+ t ∈ texts) as Hel.
  { unfold texts. apply list_elem_of_omap. exists (Some (quote key +:+ ": " +:+ t)). split; [|done].
    apply list_elem_of_fmap. exists (key, v). split; [|done]. simpl. by rewrite Ht. }
  apply total_length_elem in Hel. rewrite !utf8_length_append in Hel.
  assert (total_length texts ≤ utf8_length s)%Z.
  { destruct texts as [|x texts]; [injection Hs as <-; done|].
    apply (inj Some) in Hs as <-.
    rewrite !utf8_length_append.
    match goal with |- context [str_join ?sep ?l] => pose proof (utf8_length_join sep l) end.
    repeat match goal with |- context [utf8_length ?t] =>
      lazymatch t with str_join _ _ => fail | _ =>
      pose proof (utf8_length_nonneg t); generalize dependent (utf8_length t); intros end end.
    lia. }
  pose proof (utf8_length_nonneg (quote key)). pose proof (utf8_length_nonneg ": "). lia.
Qed.

(** A manifest within the size limit has fewer events than safe integers. *)
Lemma written_events_bound `{Host} m :
  (utf8_length (manifest_text m) ≤ MAX_RESEARCH_ARTIFACT_REPOSITORY_BYTES)%Z →
  (Z.of_nat (length (m_statusEvents m)) ≤ max_safe_integer)%Z.
Proof.
  unfold manifest_text. intros Hsize. rewrite utf8_length_append in Hsize.
  destruct (json_stringify "" (manifest_to_json m)) as [s|] eqn:Es.
  - destruct (json_stringify ("" +:+ "  ") (JArr (map event_to_json (m_statusEvents m)))) as [t|] eqn:Et.
    + assert (utf8_length t ≤ utf8_length s)%Z as Hts.
      { eapply json_stringify_field; [exact Es| |exact Et]. unfold manifest_body_fields.
        apply elem_of_app. left. do 7 right. by left. }
      apply json_stringify_arr_length in Et; [|by apply Forall_fmap, Forall_true].
      rewrite length_map in Et. cbn [default] in Hsize.
      pose proof (utf8_length_nonneg (String (ascii_of_N 10) "")).
      unfold max_safe_integer, MAX_RESEARCH_ARTIFACT_REPOSITORY_BYTES in *. simpl in Hsize. lia.
    + exfalso. by destruct (m_statusEvents m).
  - exfalso. discriminate Es.
Qed.

(** ** Reading and writing *)

Section Operations.
Context `{Hhost : Host} `{!HostLaws Hhost}.

Lemma readManifest_valid tree m : readManifest tree = Ok (Some m) → valid_manifest m.
Proof.
  unfold readManifest. intros Hrun. inv_result. destruct r as [v|]; [|done]. inv_result.
  by eapply validate_manifest_Ok.
Qed.

Lemma write_Ok tree m tree' :
  writeManifestAtomically tree m = Ok tree' →
  tree' = mkTree (t_root tree) (t_rigorium tree) (t_research tree) (t_artifacts tree)
          (JsonFile (manifest_to_json m)) ∧
  (Z.of_nat (length (m_statusEvents m)) ≤ max_safe_integer)%Z.
Proof.
  unfold writeManifestAtomically. intros Hrun. inv_result. apply Z.leb_le in Hr.
  split; [|by apply written_events_bound]. by destruct (t_manifest tree); inv_result.
Qed.

Lemma read_written tree m :
  valid_manifest m → t_manifest tree = JsonFile (manifest_to_json m) →
  readManifest tree = Ok (Some m).
Proof.
  intros Hv Ht. unfold readManifest. rewrite Ht. cbn [readBoundedJson mbind result_bind].
  by rewrite validate_manifest_intro.
Qed.

Lemma empty_valid now uuid m :
  is_safe_identifier ("artifact-repository-" +:+ uuid) = true → is_time_value now = true →
  createEmptyManifest now uuid = Ok m →
  valid_manifest m ∧ m_artifacts m = [] ∧ m_revision m = 1%Z ∧ m_updatedAt m = now.
Proof.
  intros Hid Hnow Hrun. unfold createEmptyManifest in Hrun.
  apply sealed_Ok in Hrun as [Heq Hh]. rewrite Heq in Hh |- *. cbn in *.
  split; [|done]. split; cbn [m_artifacts m_statusEvents m_repositoryId m_revision
  m_createdAt m_updatedAt m_contentHash]; try done.
  by eexists.
Qed.

Lemma normalizeSupplied_Ok values supplied :
  normalizeSuppliedArtifacts values = Ok supplied →
  Forall wf_envelope supplied ∧ NoDup (keys_of supplied).
Proof.
  unfold normalizeSuppliedArtifacts. intros Hrun. inv_result.
  assert (NoDup (jm_keys r) ∧ Forall (λ kv, wf_envelope kv.2 ∧ kv.1 = researchArtifactKey kv.2) r)
  as [Hnd Hall].
  { apply (foldM_inv (λ m, NoDup (jm_keys m) ∧
    Forall (λ kv, wf_envelope kv.2 ∧ kv.1 = researchArtifactKey kv.2) m)
    supply_step values [] r); [split; constructor| |exact Hr].
  intros m v m' _ [Hm Hw] Hstep. unfold supply_step in Hstep. inv_result.
  apply normalizeEnvelope_Ok in Hr0. split; [by apply jm_keys_set_NoDup|].
  apply Forall_jm_set; [done|done]. }
  unfold jm_values. split.
  - apply Forall_fmap. eapply Forall_impl; [exact Hall|]. by intros ? [? _].
  - unfold keys_of. rewrite <- list_fmap_compose.
  replace ((researchArtifactKey ∘ snd) <$> r) with (jm_keys r); [done|].
  unfold jm_keys. apply list_fmap_ext. intros i kv Hi%list_elem_of_lookup_2.
  rewrite Forall_forall in Hall. by destruct (Hall _ Hi).
Qed.

(** ** The appending loop *)

Definition is_new (base : repository_manifest) (a : artifact_envelope) : Prop :=
  jm_get (researchArtifactKey a) (jm_index researchArtifactKey (m_artifacts base)) = None.

#[local] Instance is_new_dec base a : Decision (is_new base a).
Proof. unfold is_new. apply _. Defined.

(** The envelopes of a call that are not stored yet. *)
Definition new_artifacts (base : repository_manifest) (supplied : list artifact_envelope) :
  list artifact_envelope :=
  filter (is_new base) supplied.

Definition matches_stored (base : repository_manifest) (a : artifact_envelope) : Prop :=
  ∀ p, jm_get (researchArtifactKey a) (jm_index researchArtifactKey (m_artifacts base)) = Some p →
  same_envelope p a = Ok true.

Lemma append_loop_Ok base supplied : ∀ existing appended idempotent st,
  NoDup (keys_of supplied) →
  (∀ a, a ∈ supplied → jm_get (researchArtifactKey a) existing =
   jm_get (researchArtifactKey a) (jm_index researchArtifactKey (m_artifacts base))) →
  foldM append_step (mkAppend existing appended idempotent) supplied = Ok st →
  ap_appended st = appended ++ new_artifacts base supplied ∧
  Forall (matches_stored base) supplied.
Proof.
  induction supplied as [|a supplied IH]; intros existing appended idempotent st Hnd Hex;
  cbn [foldM].
  { intros [= <-]. unfold new_artifacts. split; [by rewrite app_nil_r|constructor]. }
  unfold keys_of in Hnd. rewrite fmap_cons in Hnd. apply NoDup_cons in Hnd as [Hfresh Hnd].
  intros Hrun. inv_result. unfold append_step in Hr. cbn [ap_existing] in Hr.
  rewrite Hex in Hr by by left. unfold new_artifacts. rewrite filter_cons.
  fold (new_artifacts base supplied).
  destruct (jm_get (researchArtifactKey a) _) as [p|] eqn:E.
  - inv_result. cbn [ap_appended ap_idempotent ap_existing] in *. destruct r0; [|done].
  apply IH in Hrun as [-> Hall]; [|done|intros b Hb; apply Hex; by right].
  rewrite decide_False by (unfold is_new; by rewrite E).
  split; [done|]. constructor; [|done]. intros q. rewrite E. by intros [= <-].
  - inv_result. cbn [ap_appended ap_idempotent ap_existing] in *.
  apply IH in Hrun as [-> Hall]; [|done|].
  + rewrite decide_True by done. split; [by rewrite <- app_assoc|].
    constructor; [|done]. intros q. by rewrite E.
  + intros b Hb. rewrite jm_get_set_ne; [apply Hex; by right|].
    intros Heq. apply Hfresh. rewrite <- Heq. by apply list_elem_of_fmap_2.
Qed.

Lemma append_loop_stored base supplied : ∀ idempotent,
  Forall (λ a, ∃ p, jm_get (researchArtifactKey a)
  (jm_index researchArtifactKey (m_artifacts base)) = Some p ∧ same_envelope p a = Ok true)
  supplied →
  ∃ refs, foldM append_step
  (mkAppend (jm_index researchArtifactKey (m_artifacts base)) [] idempotent) supplied =
  Ok (mkAppend (jm_index researchArtifactKey (m_artifacts base)) [] refs).
Proof.
  induction supplied as [|a supplied IH]; intros idempotent Hall; cbn [foldM]; [eauto|].
  apply Forall_cons in Hall as [(p & Hp & Hs) Hall].
  assert (append_step (mkAppend (jm_index researchArtifactKey (m_artifacts base)) [] idempotent) a
  = Ok (mkAppend (jm_index researchArtifactKey (m_artifacts base)) []
      (idempotent ++ [toResearchArtifactRef p]))) as ->.
  { unfold append_step. cbn [ap_existing ap_idempotent ap_appended]. rewrite Hp.
  cbn [mbind result_bind]. by rewrite Hs. }
  cbn [mbind result_bind]. by apply IH.
Qed.

Lemma same_envelope_refl a : clean (a_payload a) → same_envelope a a = Ok true.
Proof.
  intros Hc. apply clean_envelope in Hc. unfold clean in Hc.
  apply is_ok_ex in Hc as [t Ht]. unfold same_envelope. rewrite Ht. simpl.
  by rewrite String.eqb_refl.
Qed.

Lemma new_artifacts_wf base supplied :
  Forall wf_envelope supplied → Forall wf_envelope (new_artifacts base supplied).
Proof.
  rewrite !Forall_forall. intros Hall a [_ Ha]%list_elem_of_filter. auto.
Qed.

(** ** The append transaction *)

(** The manifest the transaction starts from, and the revision it writes. *)
Definition starts_from (tree : project_tree) (now : Z) (uuid : string)
  (base : repository_manifest) (next : Z) : Prop :=
  (readManifest tree = Ok (Some base) ∧ next = (m_revision base + 1)%Z) ∨
  (readManifest tree = Ok None ∧ createEmptyManifest now uuid = Ok base ∧ next = 1%Z).

(** The repository revision a caller sees: zero before the first commit. *)
Definition current_revision (tree : project_tree) (n : Z) : Prop :=
  (∃ m, readManifest tree = Ok (Some m) ∧ n = m_revision m) ∨
  (readManifest tree = Ok None ∧ n = 0%Z).

Definition uuid_ok (uuid : string) : Prop :=
  is_safe_identifier ("artifact-repository-" +:+ uuid) = true.

(** The revision counter has room for one more commit. *)
Definition revision_room (tree : project_tree) : Prop :=
  ∀ m, readManifest tree = Ok (Some m) → (m_revision m < max_safe_integer)%Z.

Lemma append_transaction_Ok supplied expected now uuid tree r tree' :
  Forall wf_envelope supplied → NoDup (keys_of supplied) →
  is_time_value now = true → uuid_ok uuid → revision_room tree →
  append_transaction supplied expected now uuid tree = Ok (r, tree') →
  ∃ base next, starts_from tree now uuid base next ∧ valid_manifest base ∧
  Forall (matches_stored base) supplied ∧
  (∀ e, expected = Some e → current_revision tree e) ∧
  ((new_artifacts base supplied = [] ∧ tree' = tree ∧ ar_persisted r = false ∧
    snapshotOf base = Ok (ar_snapshot r) ∧ ar_appendedRefs r = []) ∨
   (new_artifacts base supplied ≠ [] ∧ ar_persisted r = true ∧ ∃ m,
    commit_spec base (new_artifacts base supplied) next now m ∧ valid_manifest m ∧
    t_manifest tree' = JsonFile (manifest_to_json m) ∧ snapshotOf m = Ok (ar_snapshot r) ∧
    ar_appendedRefs r =
      sortRefs (toResearchArtifactRef <$> new_artifacts base supplied) ∧
    (t_root tree', t_rigorium tree', t_research tree', t_artifacts tree') =
    (t_root tree, t_rigorium tree, t_research tree, t_artifacts tree))).
Proof.
  intros Hwf Hnd Hnow Huuid Hroom Hrun. unfold append_transaction in Hrun.
  apply bind_Ok in Hrun as (existing & Hread & Hrun).
  apply bind_Ok in Hrun as ([] & Hexp & Hrun).
  apply bind_Ok in Hrun as (base & Hbase & Hrun).
  apply bind_Ok in Hrun as (st & Hst & Hrun).
  apply (append_loop_Ok base) in Hst as [Happ Hall]; [|done|done]. simpl in Happ.
  set (next := match existing with Some m => (m_revision m + 1)%Z | None => 1%Z end) in *.
  assert (starts_from tree now uuid base next ∧ valid_manifest base ∧
  (1 ≤ next ≤ max_safe_integer)%Z) as (Hstart & Hvalid & Hnext).
  { unfold starts_from, next. destruct existing as [m|].
  - injection Hbase as <-. pose proof (readManifest_valid _ _ Hread) as Hv.
    pose proof (vm_revision _ Hv). specialize (Hroom _ Hread).
    split_and!; [by left|done|lia..].
  - pose proof (empty_valid _ _ _ Huuid Hnow Hbase) as (Hv & _).
    split_and!; [by right|done|done..]. }
  assert (∀ e, expected = Some e → current_revision tree e) as Hcur.
  { intros e ->. unfold current_revision. unfold assertExpectedRevision in Hexp. inv_result.
  apply Z.eqb_eq in Hexp as ->. destruct existing as [m|]; simpl; [left; by exists m|by right]. }
  exists base, next. split_and!; [done..|]. rewrite Happ in Hrun.
  destruct (new_artifacts base supplied) as [|a0 rest] eqn:Enew.
  - left. inv_result. cbn. by split_and!.
  - right. inv_result. destruct r0 as [[m sup] stale]. inv_result. cbn in *.
  rewrite <- Enew in *. apply commit_Ok in Hr; [|done| |done|done].
  2: { by apply new_artifacts_wf. }
  apply write_Ok in Hr0 as [-> Hlen]. split_and!; [by rewrite Enew|done|].
  exists m. split_and!; try done. by apply Hr.
Qed.
End Operations.
