(* ===== verification/RepoProperties.v ===== *)
(** * Properties of the repository's operations

    What callers of the repository rely on: a persisted append or
    invalidation is what the next load returns, the history is append-only
    and statuses only move forward, an append leaves no active artifact below
    a non-active one, retries change nothing, a stale revision is refused. *)

From S2P Require Import Prelude Host JsValue Digraph ArtifactTypes Samples ArtifactGraph RepoModel RepoEvents Repository RepoJson RepoLog RepoSound RepoValid RepoCommit RepoTransactions RepoOperations.

Section Append.
Context `{Hhost : Host} `{!HostLaws Hhost}.

Lemma ensureDirectories_Ok tree tree1 :
  ensureDirectories tree = Ok tree1 →
  tree1 = mkTree Directory Directory Directory Directory (t_manifest tree) ∧
  t_root tree = Directory.
Proof.
  unfold ensureDirectories, assertProjectRoot. intros Hrun. inv_result.
  apply bool_decide_eq_true in Hr.
  destruct (t_rigorium tree), (t_research tree), (t_artifacts tree); try done;
  cbn in *; inv_result; by rewrite Hr.
Qed.

Lemma read_same tree tree1 : t_manifest tree1 = t_manifest tree →
  readManifest tree1 = readManifest tree.
Proof. intros Ht. unfold readManifest. by rewrite Ht. Qed.

(** The arguments of a successful append, normalized. *)
Lemma append_Ok root artifacts expected now uuid tree r tree' :
  appendProjectResearchArtifacts root artifacts expected (Some now) uuid tree = Ok (r, tree') →
  ∃ raw supplied expectedRevision,
  artifacts = JArr raw ∧ getProjectResearchArtifactPaths root = Ok tt ∧
  normalizeSuppliedArtifacts raw = Ok supplied ∧
  normalizeExpectedRevision expected = Ok expectedRevision ∧ t_root tree = Directory ∧
  append_transaction supplied expectedRevision now uuid
    (mkTree Directory Directory Directory Directory (t_manifest tree)) = Ok (r, tree').
Proof.
  unfold appendProjectResearchArtifacts. intros Hrun. inv_result.
  apply ensureDirectories_Ok in Hr4 as [-> Hroot].
  unfold Repo.requireDateObject in Hr1. inv_result. destruct r1.
  destruct artifacts as [| | | | |[|x l]| |]; try done. inv_result.
  by exists (x :: l), r4, r3.
Qed.

Lemma starts_from_same tree tree1 now uuid base next :
  t_manifest tree1 = t_manifest tree →
  starts_from tree1 now uuid base next → starts_from tree now uuid base next.
Proof. intros Ht. unfold starts_from. by rewrite (read_same tree tree1 Ht). Qed.

(** Everything a successful append says, in one place. *)
Lemma append_facts root artifacts expected now uuid tree r tree' :
  is_time_value now = true → uuid_ok uuid → revision_room tree →
  appendProjectResearchArtifacts root artifacts expected (Some now) uuid tree = Ok (r, tree') →
  ∃ raw supplied base next,
  artifacts = JArr raw ∧ normalizeSuppliedArtifacts raw = Ok supplied ∧
  getProjectResearchArtifactPaths root = Ok tt ∧
  (t_root tree', t_rigorium tree', t_research tree', t_artifacts tree') =
    (Directory, Directory, Directory, Directory) ∧
  starts_from tree now uuid base next ∧ valid_manifest base ∧
  Forall wf_envelope supplied ∧ NoDup (keys_of supplied) ∧
  Forall (matches_stored base) supplied ∧
  (∀ e, normalizeExpectedRevision expected = Ok (Some e) → current_revision tree e) ∧
  ((new_artifacts base supplied = [] ∧ t_manifest tree' = t_manifest tree ∧
    ar_persisted r = false ∧
    snapshotOf base = Ok (ar_snapshot r) ∧ ar_appendedRefs r = []) ∨
   (new_artifacts base supplied ≠ [] ∧ ar_persisted r = true ∧ ∃ m,
    commit_spec base (new_artifacts base supplied) next now m ∧ valid_manifest m ∧
    t_manifest tree' = JsonFile (manifest_to_json m) ∧ snapshotOf m = Ok (ar_snapshot r) ∧
    ar_appendedRefs r =
      sortRefs (toResearchArtifactRef <$> new_artifacts base supplied))).
Proof.
  intros Hnow Huuid Hroom Hrun.
  apply append_Ok in Hrun as (raw & supplied & e & -> & Hroot & Hsup & Hexp & _ & Hrun).
  pose proof (normalizeSupplied_Ok _ _ Hsup) as [Hwf Hnd].
  apply append_transaction_Ok in Hrun as (base & next & Hstart & Hv & Hm & Hcur & Hcase);
  [|done..|].
  - exists raw, supplied, base, next. split_and!; try done.
  + destruct Hcase as [(_ & -> & _)|(_ & _ & m & _ & _ & _ & _ & _ & ->)]; done.
  + intros x Hx. rewrite Hexp in Hx. injection Hx as ->. by apply Hcur.
  + destruct Hcase as [(H1 & -> & H2 & H3 & H4)|(H1 & H2 & m & H3 & H4 & H5 & H6 & H7 & _)];
      [left; by split_and!|right; split_and!; [done..|by exists m]].
  - intros m Hm. apply Hroom. exact Hm.
Qed.

Lemma load_read root tree m s :
  getProjectResearchArtifactPaths root = Ok tt →
  (t_root tree, t_rigorium tree, t_research tree, t_artifacts tree) =
  (Directory, Directory, Directory, Directory) →
  readManifest tree = Ok (Some m) → snapshotOf m = Ok s →
  loadProjectResearchArtifactRepository root tree = Ok (Some s).
Proof.
  intros Hroot [= H1 H2 H3 H4] Hm Hs. unfold loadProjectResearchArtifactRepository.
  rewrite Hroot. cbn [mbind result_bind]. unfold assertExistingDirectoryChain, assertProjectRoot.
  rewrite H1, H2, H3, H4. cbn [mbind result_bind ensure].
  rewrite Hm. cbn -[snapshotOf]. by rewrite Hs.
Qed.

Lemma load_written root tree m s :
  getProjectResearchArtifactPaths root = Ok tt →
  (t_root tree, t_rigorium tree, t_research tree, t_artifacts tree) =
  (Directory, Directory, Directory, Directory) →
  valid_manifest m → t_manifest tree = JsonFile (manifest_to_json m) → snapshotOf m = Ok s →
  loadProjectResearchArtifactRepository root tree = Ok (Some s).
Proof. intros Hroot Hd Hv Ht Hs. eapply load_read; [done|done| |done]. by apply read_written. Qed.

(** C1: a persisted append is exactly what the next load returns: the
    manifest it wrote passes [validateResearchArtifactRepositoryManifest]
    (hashes, schema, graph, histories, event replay) and materializes to the
    snapshot the call returned. *)
Theorem append_then_load root artifacts expected now uuid tree r tree' :
  is_time_value now = true → uuid_ok uuid → revision_room tree →
  appendProjectResearchArtifacts root artifacts expected (Some now) uuid tree = Ok (r, tree') →
  ar_persisted r = true →
  loadProjectResearchArtifactRepository root tree' = Ok (Some (ar_snapshot r)).
Proof.
  intros Hnow Huuid Hroom Hrun Hp.
  destruct (append_facts _ _ _ _ _ _ _ _ Hnow Huuid Hroom Hrun)
  as (raw & supplied & base & next & _ & _ & Hroot & Hdirs & _ & _ & _ & _ & _ & _ &
      [(_ & _ & Hno & _)|(_ & _ & m & _ & Hv & Ht & Hs & _)]); [congruence|].
  by eapply load_written.
Qed.

(** ** Append-only history *)

Lemma load_Ok root tree s :
  loadProjectResearchArtifactRepository root tree = Ok (Some s) →
  ∃ m, readManifest tree = Ok (Some m) ∧ snapshotOf m = Ok s.
Proof.
  unfold loadProjectResearchArtifactRepository. intros Hrun. inv_result.
  destruct r1 as [m|]; [|done]. inv_result. by exists m.
Qed.

Lemma later_refl a : later a a.
Proof. split_and!; [by split_and!|by left|lia]. Qed.

(** The snapshot after a commit, against the snapshot before it. *)
Lemma commit_later base appended next now m s0 s :
  commit_spec base appended next now m → snapshotOf base = Ok s0 → snapshotOf m = Ok s →
  ∃ kept added, sn_artifacts s = kept ++ added ∧ Forall2 later (sn_artifacts s0) kept ∧
  Forall2 same_content appended added.
Proof.
  intros Hc Hs0 Hs.
  destruct (snapshot_Ok _ _ Hs0) as (g0 & st0 & Hg0 & Hr0 & Hf0 & _).
  destruct (snapshot_Ok _ _ Hs) as (g & st & Hg & Hr & Hf & _).
  destruct (cs_states _ _ _ _ _ Hc) as (g' & sb & st' & Hg' & Hrb & Hr' & Hlead & _).
  rewrite Hg in Hg'. injection Hg' as <-. rewrite Hr in Hr'. injection Hr' as <-.
  pose proof (validate_graph_Ok _ _ Hg) as ((Hnd & _) & _).
  rewrite (cs_artifacts _ _ _ _ _ Hc) in *.
  apply Forall2_app_inv_l in Hf as (kept & added & Hkept & Hadded & Heq).
  exists kept, added. split_and!; [done| |].
  - assert (agree_on (keys_of (m_artifacts base)) st0 sb) as Hag
    by by eapply replay_extended.
  assert (time_leads sb st) as Htime.
  { unfold replayStatusEvents in Hrb, Hr. apply bind_Ok in Hrb as (rb & Hrb & Eb).
    apply bind_Ok in Hr as (rr & Hrr & Er). injection Eb as <-. injection Er as <-.
    destruct (cs_events _ _ _ _ _ Hc) as [new Hnew]. rewrite Hnew, foldM_app, Hrb in Hrr.
    cbn [mbind result_bind] in Hrr. by eapply replay_times. }
  apply Forall2_same_length_lookup. split.
  { rewrite <- (Forall2_length _ _ _ Hf0). by eapply Forall2_length. }
  intros i a b Ha Hb.
  destruct (Forall2_lookup_r _ _ _ _ _ Hf0 Ha) as (x & Hx & [Hxa (sx & Hsx & Hst & Hup & _)]%materialize_one_Ok).
  destruct (Forall2_lookup_r _ _ _ _ _ Hkept Hb) as (y & Hy & [Hyb (sy & Hsy & Hst' & Hup' & _)]%materialize_one_Ok).
  rewrite Hx in Hy. injection Hy as <-.
  rewrite Hag in Hsx by (apply list_elem_of_fmap_2; by eapply list_elem_of_lookup_2).
  split_and!.
  + destruct Hxa as (?&?&?&?&?&?&?&?&?), Hyb as (?&?&?&?&?&?&?&?&?). split_and!; congruence.
  + destruct (Hlead (researchArtifactKey x) (ms_status sx)) as (z & Hz & Hl).
    { unfold status_at. by rewrite Hsx. }
    unfold status_at in Hz. rewrite Hsy in Hz. injection Hz as <-. by rewrite Hst, Hst'.
  + destruct (Htime _ _ Hsx) as (z & Hz & Hl). rewrite Hsy in Hz. injection Hz as <-. lia.
  - eapply Forall2_impl; [exact Hadded|]. by intros x y [? _]%materialize_one_Ok.
Qed.

(** C4: the history is append-only.  Whatever the call does, every envelope
    the repository held is still there at its place with its immutable
    content, its status only moved along active, stale, superseded, and its
    update time did not decrease; new envelopes come after them, one per
    reported reference. *)
Theorem append_keeps_history root artifacts expected now uuid tree s0 r tree' :
  is_time_value now = true → uuid_ok uuid → revision_room tree →
  loadProjectResearchArtifactRepository root tree = Ok (Some s0) →
  appendProjectResearchArtifacts root artifacts expected (Some now) uuid tree = Ok (r, tree') →
  sn_repositoryId (ar_snapshot r) = sn_repositoryId s0 ∧
  ∃ kept added, sn_artifacts (ar_snapshot r) = kept ++ added ∧
  Forall2 later (sn_artifacts s0) kept ∧ length added = length (ar_appendedRefs r).
Proof.
  intros Hnow Huuid Hroom Hload Hrun. apply load_Ok in Hload as (m0 & Hm0 & Hs0).
  destruct (append_facts _ _ _ _ _ _ _ _ Hnow Huuid Hroom Hrun)
  as (raw & supplied & base & next & _ & _ & _ & _ & Hstart & _ & _ & _ & _ & _ & Hcase).
  assert (base = m0) as -> by (destruct Hstart as [[? _]|[? _]]; congruence).
  destruct Hcase as [(_ & _ & _ & Hs & Hrefs)|(_ & _ & m & Hc & _ & _ & Hs & Hrefs)].
  - rewrite Hs0 in Hs. injection Hs as <-. split; [done|].
  exists (sn_artifacts s0), []. rewrite app_nil_r, Hrefs. split_and!; [done| |done].
  apply Forall_Forall2_diag, Forall_true, later_refl.
  - destruct (commit_later _ _ _ _ _ _ _ Hc Hs0 Hs) as (kept & added & Heq & Hl & Hsame).
  destruct (snapshot_Ok _ _ Hs0) as (_ & _ & _ & _ & _ & ->).
  destruct (snapshot_Ok _ _ Hs) as (_ & _ & _ & _ & _ & E). rewrite E.
  split; [apply Hc|]. exists kept, added. split_and!; [done|done|].
  unfold sortRefs in Hrefs. rewrite Hrefs, length_js_sort, length_fmap.
  symmetry. by eapply Forall2_length.
Qed.

(** C2: after a persisted append no active artifact depends, directly or
    transitively, on an artifact that is stale, superseded, rejected or
    archived. *)
Theorem append_settles root artifacts expected now uuid tree r tree' :
  is_time_value now = true → uuid_ok uuid → revision_room tree →
  appendProjectResearchArtifacts root artifacts expected (Some now) uuid tree = Ok (r, tree') →
  ar_persisted r = true →
  ∀ a b, a ∈ sn_artifacts (ar_snapshot r) → b ∈ sn_artifacts (ar_snapshot r) →
  tc (causal_edge (sn_artifacts (ar_snapshot r))) (researchArtifactKey a) (researchArtifactKey b) →
  a_status a ≠ Active → a_status b ≠ Active.
Proof.
  intros Hnow Huuid Hroom Hrun Hp a b Ha Hb Hab Hna Hact.
  destruct (append_facts _ _ _ _ _ _ _ _ Hnow Huuid Hroom Hrun)
  as (raw & supplied & base & next & _ & _ & _ & _ & _ & _ & _ & _ & _ & _ &
      [(_ & _ & Hno & _)|(_ & _ & m & Hc & Hv & Ht & Hs & _)]); [congruence|].
  destruct (cs_states _ _ _ _ _ Hc) as (g & sb & st & Hg & _ & Hr & _ & Hset).
  pose proof (snapshot_same _ _ Hs) as Hsame.
  apply (descends_same _ _ _ _ Hsame) in Hab.
  destruct (snapshot_Ok _ _ Hs) as (g' & st' & Hg' & Hr' & Hf & _).
  rewrite Hg in Hg'. injection Hg' as <-. rewrite Hr in Hr'. injection Hr' as <-.
  assert (∀ c, c ∈ sn_artifacts (ar_snapshot r) → ∃ x, x ∈ m_artifacts m ∧
  researchArtifactKey x = researchArtifactKey c ∧
  status_at st (researchArtifactKey c) = Some (a_status c)) as Hstat.
  { intros c [i Hi]%list_elem_of_lookup.
  destruct (Forall2_lookup_r _ _ _ _ _ Hf Hi) as (x & Hx & [Hxc (sx & Hsx & Hst & _)]%materialize_one_Ok).
  exists x. rewrite (same_content_key _ _ Hxc). split_and!; [by eapply list_elem_of_lookup_2|done|].
  unfold status_at. by rewrite Hsx, Hst. }
  destruct (Hstat a Ha) as (xa & Hxa & Hka & Hsa), (Hstat b Hb) as (xb & Hxb & Hkb & Hsb).
  rewrite <- Hka, <- Hkb in Hab. apply (Hset xa xb Hxa Hxb Hab).
  - rewrite Hka, Hsa. congruence.
  - rewrite Hkb, Hsb. congruence.
Qed.

(** ** Retries and conflicts *)

Lemma valid_keys m : valid_manifest m → NoDup (keys_of (m_artifacts m)).
Proof.
  intros Hv. destruct (vm_graph _ Hv) as (g & Hg & _).
  by apply validate_graph_Ok in Hg as ((Hnd & _) & _).
Qed.

Lemma stored_after_commit base supplied next now m a :
  valid_manifest m → commit_spec base (new_artifacts base supplied) next now m →
  Forall wf_envelope supplied → Forall (matches_stored base) supplied → a ∈ supplied →
  ∃ p, jm_get (researchArtifactKey a) (jm_index researchArtifactKey (m_artifacts m)) = Some p ∧
  same_envelope p a = Ok true.
Proof.
  intros Hv Hc Hwf Hm Ha. pose proof (valid_keys _ Hv) as Hnd.
  rewrite (cs_artifacts _ _ _ _ _ Hc) in *.
  rewrite Forall_forall in Hwf, Hm. destruct (jm_get (researchArtifactKey a)
  (jm_index researchArtifactKey (m_artifacts base))) as [p|] eqn:E.
  - exists p. split; [|by apply Hm]. apply jm_index_Some in E as [Hp Hk]. rewrite <- Hk.
  apply jm_index_NoDup; [done|]. apply elem_of_app. by left.
  - exists a. split; [|by apply same_envelope_refl, wf_envelope_payload, Hwf].
  apply jm_index_NoDup; [done|]. apply elem_of_app. right. by apply list_elem_of_filter.
Qed.

(** P: a retry is idempotent.  Repeating a persisted append with the same
    envelopes succeeds at any later time, appends nothing, writes nothing
    and returns the same snapshot. *)
Theorem append_retry root artifacts expected now uuid tree r tree' now2 uuid2 :
  is_time_value now = true → uuid_ok uuid → revision_room tree →
  appendProjectResearchArtifacts root artifacts expected (Some now) uuid tree = Ok (r, tree') →
  ar_persisted r = true →
  ∃ r2, appendProjectResearchArtifacts root artifacts JUndefined (Some now2) uuid2 tree' =
    Ok (r2, tree') ∧
  ar_persisted r2 = false ∧ ar_appendedRefs r2 = [] ∧ ar_snapshot r2 = ar_snapshot r.
Proof.
  intros Hnow Huuid Hroom Hrun Hp.
  pose proof (append_Ok _ _ _ _ _ _ _ _ Hrun) as (raw0 & _ & _ & Hraw & _ & _ & _ & _ & _).
  destruct (append_facts _ _ _ _ _ _ _ _ Hnow Huuid Hroom Hrun)
  as (raw & supplied & base & next & -> & Hsup & Hroot & Hdirs & _ & _ & Hwf & _ & Hm & _ &
      [(_ & _ & Hno & _)|(Hnew & _ & m & Hc & Hv & Ht & Hs & _)]); [congruence|].
  assert (ensureDirectories tree' = Ok tree') as Hens.
  { injection Hdirs as H1 H2 H3 H4. unfold ensureDirectories, assertProjectRoot.
  rewrite H1, H2, H3, H4. cbn. by destruct tree'; cbn in *; subst. }
  destruct (append_loop_stored m supplied []) as [refs Hloop].
  { apply Forall_forall. intros a Ha. by eapply stored_after_commit. }
  unfold appendProjectResearchArtifacts.
  destruct raw as [|x l]; [by injection Hsup as <-; destruct Hnew|].
  cbn [mbind result_bind]. rewrite Hroot. cbn [Repo.requireDateObject of_option mbind result_bind].
  change (normalizeExpectedRevision JUndefined) with (Ok (A := option Z) None).
  cbn [mbind result_bind]. rewrite Hsup. cbn [mbind result_bind].
  rewrite Hens. cbn [mbind result_bind]. unfold append_transaction.
  rewrite (read_written _ m) by done. cbn [mbind result_bind assertExpectedRevision].
  rewrite Hloop. cbn [mbind result_bind ap_appended ap_idempotent].
  rewrite Hs. cbn [mbind result_bind]. eexists. by split_and!.
Qed.

(** C9: optimistic concurrency.  An append that names an expected revision
    succeeds only when that is the current repository revision (zero before
    the first commit), and a persisted append always advances the current
    revision by exactly one. *)
Theorem append_checks_revision root artifacts expected now uuid tree r tree' n :
  is_time_value now = true → uuid_ok uuid → revision_room tree →
  appendProjectResearchArtifacts root artifacts expected (Some now) uuid tree = Ok (r, tree') →
  current_revision tree n →
  (∀ e, as_safe_integer expected = Some e → e = n) ∧
  (ar_persisted r = true → sn_revision (ar_snapshot r) = (n + 1)%Z) ∧
  current_revision tree' (if ar_persisted r then n + 1 else n)%Z.
Proof.
  intros Hnow Huuid Hroom Hrun Hcur.
  pose proof (append_Ok _ _ _ _ _ _ _ _ Hrun) as (_ & _ & x & _ & _ & _ & Hx & _ & _).
  destruct (append_facts _ _ _ _ _ _ _ _ Hnow Huuid Hroom Hrun)
  as (raw & supplied & base & next & -> & _ & _ & _ & Hstart & _ & _ & _ & _ & Hexp & Hcase).
  assert (∀ k, current_revision tree k → k = n) as Huniq.
  { intros k Hk. destruct Hk as [(m & Hm & ->)|[Hm ->]], Hcur as [(m' & Hm' & ->)|[Hm' ->]];
    congruence. }
  split.
  { intros e He. apply Huniq, Hexp. unfold normalizeExpectedRevision in *. rewrite He in *.
  destruct (is_undefined expected) eqn:Eu; [by destruct expected|].
  destruct (e <? 0)%Z; [done|]. done. }
  destruct Hcase as [(_ & Ht & -> & _)|(_ & -> & m & Hc & Hv & Ht & Hs & _)].
  - split; [done|]. unfold current_revision. by rewrite !(read_same tree tree' Ht).
  - assert (m_revision m = (n + 1)%Z) as Hrev.
  { destruct (cs_revision _ _ _ _ _ Hc) as [-> _].
    destruct Hstart as [(Hb & ->)|(Hb & _ & ->)].
    - f_equal. apply Huniq. left. by exists base.
    - assert (0%Z = n) as <-; [|done]. apply Huniq. by right. }
  split.
  + intros _. destruct (snapshot_Ok _ _ Hs) as (_ & _ & _ & _ & _ & ->). done.
  + left. exists m. by rewrite (read_written _ m).
Qed.
End Append.

(** ** Invalidation *)

Section Invalidate.
Context `{Hhost : Host} `{!HostLaws Hhost}.

(** [a] becomes stale when [roots] are invalidated. *)
Definition invalidated_by (artifacts : list artifact_envelope) (roots : list artifact_ref)
  (a : artifact_envelope) : Prop :=
  researchArtifactKey a ∉ refKey <$> roots ∧
  (∃ r, r ∈ roots ∧ descends artifacts (refKey r) (researchArtifactKey a)) ∧
  a_status a = Active.

(** What happens to one envelope of the snapshot. *)
Definition invalidation_effect (artifacts : list artifact_envelope) (roots : list artifact_ref)
  (reason : invalidation_reason) (now : Z) (a b : artifact_envelope) : Prop :=
  same_content a b ∧
  (invalidated_by artifacts roots a →
   a_status b = Stale ∧ a_updatedAt b = now ∧ ∃ i, a_invalidation b = Some i ∧
   inv_invalidatedAt i = now ∧ inv_reason i = reason ∧
   ∀ x, x ∈ inv_roots i ↔ x ∈ roots ∧ descends artifacts (refKey x) (researchArtifactKey a)) ∧
  (¬ invalidated_by artifacts roots a → b = a).

Lemma resolved_roots artifacts roots l :
  Forall wf_artifact_ref roots →
  mapM (λ root, resolveRef artifacts root "invalidation root") roots = Ok l →
  Forall (resolvable artifacts) roots.
Proof.
  intros Hwf Hm%mapM_Ok. rewrite Forall_forall in Hwf |- *. intros r Hr. split; [auto|].
  apply list_elem_of_lookup in Hr as [i Hi].
  destruct (Forall2_lookup_l _ _ _ _ _ Hm Hi) as (a & _ & Ha). exists a.
  by apply resolveRef_Ok in Ha.
Qed.

Lemma wf_roots_NoDup roots : uniqueRefs roots = roots → NoDup (fullRefKey <$> roots).
Proof. intros <-. apply uniqueRefs_NoDup. Qed.

Lemma snapshot_states m g states s :
  validateCompleteArtifactGraph (m_artifacts m) = Ok g →
  replayStatusEvents (m_artifacts m) (m_statusEvents m) g = Ok states →
  snapshotOf m = Ok s →
  Forall2 (λ a b, materialize_one states a = Ok b) (m_artifacts m) (sn_artifacts s).
Proof.
  intros Hg Hr (g' & states' & Hg' & Hr' & Hf & _)%snapshot_Ok.
  rewrite Hg in Hg'. injection Hg' as <-. rewrite Hr in Hr'. by injection Hr' as <-.
Qed.

Lemma invalidated_by_same l l' roots a b :
  Forall2 same_content l l' → researchArtifactKey b = researchArtifactKey a →
  a_status b = a_status a → invalidated_by l' roots b ↔ invalidated_by l roots a.
Proof.
  intros Hl Hk Hs. unfold invalidated_by. rewrite Hk, Hs. f_equiv. f_equiv. f_equiv. intros r.
  by rewrite (descends_same l l').
Qed.

(** The states before and after precise invalidation, envelope by envelope. *)
Lemma effect_of_states artifacts graph roots reason now states states' l0 l :
  NoDup (keys_of artifacts) → graph_spec artifacts graph → Forall wf_artifact_ref roots →
  let hit k := k ∉ refKey <$> roots ∧ (∃ r, r ∈ roots ∧ descends artifacts (refKey r) k) ∧
  status_at states k = Some Active in
  (∀ k, hit k → jm_get k states' = Some (stale_state graph now roots reason k)) →
  (∀ k, ¬ hit k → jm_get k states' = jm_get k states) →
  Forall2 (λ a b, materialize_one states a = Ok b) artifacts l0 →
  Forall2 (λ a b, materialize_one states' a = Ok b) artifacts l →
  Forall2 (invalidation_effect l0 roots reason now) l0 l ∧
  (∀ a, a ∈ artifacts → hit (researchArtifactKey a) ↔
   ∃ b, b ∈ l0 ∧ toResearchArtifactRef b = toResearchArtifactRef a ∧ invalidated_by l0 roots b).
Proof.
  intros Hnd Hg Hwf hit Hhit Hmiss H0 H1.
  assert (Forall2 same_content artifacts l0) as Hsame.
  { eapply Forall2_impl; [exact H0|]. by intros a b [? _]%materialize_one_Ok. }
  assert (∀ x a, x ∈ artifacts → materialize_one states x = Ok a →
  hit (researchArtifactKey x) ↔ invalidated_by l0 roots a) as Hiff.
  { intros x a Hx [Hxa (sx & Hsx & Hst & _)]%materialize_one_Ok. unfold hit, invalidated_by.
  rewrite (same_content_key _ _ Hxa), Hst. unfold status_at. rewrite Hsx. simpl.
  f_equiv. setoid_rewrite (descends_same artifacts l0); [|done..]. f_equiv.
  by split; [intros [= ->]|intros ->]. }
  split.
  - apply Forall2_same_length_lookup. split.
  { rewrite <- (Forall2_length _ _ _ H0). by eapply Forall2_length. }
  intros i a b Ha Hb.
  destruct (Forall2_lookup_r _ _ _ _ _ H0 Ha) as (x & Hx & Hma).
  destruct (Forall2_lookup_r _ _ _ _ _ H1 Hb) as (y & Hy & Hmb).
  rewrite Hx in Hy. injection Hy as <-.
  assert (x ∈ artifacts) as Hxin by by eapply list_elem_of_lookup_2.
  pose proof (Hiff x a Hxin Hma) as Hxa.
  destruct (materialize_one_Ok _ _ _ Hma) as [Hsa (sa & Hga & _)].
  destruct (materialize_one_Ok _ _ _ Hmb) as [Hsb (sb & Hgb & Hst & Hup & Hinv)].
  split_and!.
  + destruct Hsa as (?&?&?&?&?&?&?&?&?), Hsb as (?&?&?&?&?&?&?&?&?). split_and!; congruence.
  + intros Hh%Hxa. rewrite Hhit in Hgb by done. injection Hgb as <-. cbn in Hst, Hup, Hinv.
    split_and!; [done|done|]. eexists. split_and!; [exact Hinv|done|done|]. cbn.
    intros z. rewrite elem_of_uniqueRefs, (roots_above_spec artifacts) by
      (done || (apply Forall_forall; intros z' Hz'; apply (roots_above_spec artifacts) in Hz' as [Hz' _];
        [|done..]; rewrite Forall_forall in Hwf; by destruct (Hwf _ Hz'))).
    rewrite (same_content_key _ _ Hsa). by rewrite (descends_same artifacts l0).
  + intros Hno. assert (¬ hit (researchArtifactKey x)) as Hnh by by rewrite Hxa.
    unfold materialize_one in Hma, Hmb. rewrite Hmiss in Hmb by done.
    rewrite Hma in Hmb. by injection Hmb.
  - intros x Hx. apply list_elem_of_lookup in Hx as [i Hi].
  destruct (Forall2_lookup_l _ _ _ _ _ H0 Hi) as (a & Ha & Hma).
  assert (x ∈ artifacts) as Hxin by by eapply list_elem_of_lookup_2.
  rewrite (Hiff x a Hxin Hma).
  assert (∀ b y, y ∈ artifacts → materialize_one states y = Ok b →
    toResearchArtifactRef b = toResearchArtifactRef y) as Href.
  { intros b y _ [(Hid & Hrev & Hk & _ & Hh & _) _]%materialize_one_Ok.
    unfold toResearchArtifactRef. congruence. }
  split.
  + intros Hinv. exists a. split_and!; [by eapply list_elem_of_lookup_2|by apply Href|done].
  + intros (b & Hb & Hrb & Hinv). apply list_elem_of_lookup in Hb as [j Hj].
    destruct (Forall2_lookup_r _ _ _ _ _ H0 Hj) as (y & Hy & Hmy).
    assert (y ∈ artifacts) as Hyin by by eapply list_elem_of_lookup_2.
    rewrite (Href b y Hyin Hmy) in Hrb.
    assert (researchArtifactKey y = researchArtifactKey x) as Hk
      by (injection Hrb as E1 E2 _ _; unfold researchArtifactKey; by rewrite E1, E2).
    apply (Hiff x a Hxin Hma). rewrite <- Hk. by apply (Hiff y b Hyin Hmy).
Qed.

(** The arguments of a successful invalidation, normalized. *)
Lemma invalidate_Ok root roots reason expected now tree r tree' :
  invalidateProjectResearchArtifactDescendants root roots reason expected (Some now) tree =
  Ok (r, tree') →
  ∃ refs rs e, parse_enum INVALIDATION_REASONS reason_name reason = Some rs ∧
  getProjectResearchArtifactPaths root = Ok tt ∧ wf_roots refs ∧
  invalidate_transaction refs rs e now
    (mkTree Directory Directory Directory Directory (t_manifest tree)) = Ok (r, tree').
Proof.
  unfold invalidateProjectResearchArtifactDescendants. intros Hrun. inv_result.
  apply ensureDirectories_Ok in Hr5 as [-> _].
  unfold Repo.requireDateObject in Hr3. inv_result. destruct r2.
  assert (wf_roots r3) as Hwf.
  { destruct roots as [| | | | |[|x l]| |]; try done. injection Hr as <-.
  by eapply normalizeRoots_Ok. }
  injection Hr3 as <-. exists r3, r1, r5. by split_and!.
Qed.

(** The commit of an invalidation: the manifest it seals is valid. *)
Lemma invalidate_commit_valid m0 graph log now m :
  valid_manifest m0 → (m_revision m0 < max_safe_integer)%Z → is_time_value now = true →
  (m_updatedAt m0 ≤ now)%Z →
  validateCompleteArtifactGraph (m_artifacts m0) = Ok graph →
  log_sound (m_artifacts m0) graph now log →
  (Z.of_nat (length (log_events log)) ≤ max_safe_integer)%Z →
  sealManifest (mkManifest (m_repositoryId m0) (m_revision m0 + 1) (m_createdAt m0) now
  (m_artifacts m0) (log_events log) "") = Ok m →
  valid_manifest m.
Proof.
  intros Hv Hrev Hnow Ht Hg Hs Hlen Hseal.
  pose proof (vm_revision _ Hv). pose proof (vm_times _ Hv).
  destruct (vm_graph _ Hv) as (g & Hg' & Hemb & _). rewrite Hg in Hg'. injection Hg' as <-.
  eapply seal_valid; [..|exact Hseal]; try done; try apply Hv; try lia.
  eapply Forall_impl; [apply (vm_artifact_times _ Hv)|]. simpl. lia.
Qed.

(** The log of the stored manifest, at a transaction time. *)
Lemma stored_log_sound m graph states now :
  valid_manifest m → (m_updatedAt m ≤ now)%Z →
  replayStatusEvents (m_artifacts m) (m_statusEvents m) graph = Ok states →
  log_sound (m_artifacts m) graph now (mkLog (m_statusEvents m) states).
Proof.
  intros Hv Ht Hr. apply log_sound_initial; [apply Hv| |done].
  eapply Forall_impl; [apply (vm_event_times _ Hv)|]. simpl. lia.
Qed.

End Invalidate.
