(* ===== verification/RepoQueries.v ===== *)
(** * Properties of the queries, and the witnesses

    What [getProjectResearchArtifactHistory], [getLatestProjectResearchArtifact]
    and [getProjectResearchArtifact] return from a stored repository, and
    concrete runs of the operations on the sample artifacts. *)

From stdpp Require Import list_numbers.
From S2P Require Import Prelude Host JsValue Digraph ArtifactTypes Samples ArtifactGraph RepoModel RepoEvents Repository RepoJson RepoLog RepoSound RepoValid RepoCommit RepoTransactions RepoOperations RepoProperties.

Section Queries.
Context `{Hhost : Host} `{!HostLaws Hhost}.

Lemma counts_up_revisions kind history : ∀ n previous,
  counts_up kind n previous history → a_revision <$> history = seqZ n (Z.of_nat (length history)).
Proof.
  induction history as [|a history IH]; intros n previous; [done|].
  intros (Hr & _ & _ & Hc). rewrite fmap_cons. cbn [length].
  rewrite seqZ_cons by lia. rewrite Hr. f_equal.
  rewrite (IH _ _ Hc). f_equal; lia.
Qed.

#[local] Instance revision_comparator : Comparator Z.compare.
Proof.
  split.
  - apply Z.compare_refl.
  - intros x y. apply Z.compare_antisym.
  - intros x y z. rewrite <- !Z.le_ngt || idtac. unfold not. rewrite !Z.compare_gt_iff. lia.
Qed.

Lemma filter_same_content id l l' :
  Forall2 same_content l l' →
  a_revision <$> filter (λ a, a_artifactId a = id) l' =
  a_revision <$> filter (λ a, a_artifactId a = id) l.
Proof.
  induction 1 as [|a b l l' Hab _ IH]; [done|]. destruct Hab as (Hid & Hrev & _).
  rewrite !filter_cons, Hid. case_decide; [|done]. by rewrite !fmap_cons, IH, Hrev.
Qed.

(** Sorting a history by revision sorts its revisions. *)
Lemma sorted_revisions l :
  a_revision <$> js_sort compare_revision l = js_sort Z.compare (a_revision <$> l).
Proof. by rewrite js_sort_fmap. Qed.

(** The stored history of an id is numbered 1, 2, ... *)
Lemma stored_history_revisions m s id :
  valid_manifest m → snapshotOf m = Ok s →
  a_revision <$> js_sort compare_revision
  (filter (λ a, a_artifactId a = id) (sn_artifacts s)) =
  seqZ 1 (Z.of_nat (length (filter (λ a, a_artifactId a = id) (sn_artifacts s)))).
Proof.
  intros Hv Hs. pose proof (snapshot_same _ _ Hs) as Hsame.
  rewrite sorted_revisions, (filter_same_content id _ _ Hsame), <- sorted_revisions.
  pose proof (filter_same_content id _ _ Hsame) as Hlen.
  apply (f_equal length) in Hlen. rewrite !length_fmap in Hlen. rewrite Hlen.
  fold (history_of (m_artifacts m) id).
  assert (is_ok (assertAppendOnlyRevisionSequence [] (m_artifacts m)) = true) as Hseq
  by by rewrite (vm_revisions _ Hv).
  rewrite append_only_Ok in Hseq. simpl in Hseq.
  destruct (history_of (m_artifacts m) id) as [|a h] eqn:E; [done|].
  assert (a ∈ history_of (m_artifacts m) id) as Ha by (rewrite E; by left).
  apply list_elem_of_filter in Ha as [<- Ha].
  pose proof (group_exists _ _ Ha) as Hgroup. rewrite E in Hgroup.
  destruct (js_sort compare_revision (a :: h)) as [|f l] eqn:El.
  { by apply js_sort_nil_iff in El. }
  specialize (Hseq _ _ f Hgroup eq_refl). apply counts_up_revisions in Hseq.
  rewrite Hseq. f_equal. f_equal. rewrite <- El. by rewrite length_js_sort.
Qed.

Lemma query_history root id tree s :
  is_safe_identifier id = true →
  loadProjectResearchArtifactRepository root tree = Ok (Some s) →
  getProjectResearchArtifactHistory root (JStr id) tree =
  Ok (js_sort compare_revision (filter (λ a, a_artifactId a = id) (sn_artifacts s))).
Proof.
  intros Hid Hload. unfold getProjectResearchArtifactHistory.
  rewrite repo_identifier_intro by done. cbn [mbind result_bind]. by rewrite Hload.
Qed.

Lemma find_revision id n l h :
  NoDup (a_revision <$> h) → (∀ a, a ∈ h ↔ a_artifactId a = id ∧ a ∈ l) →
  ∀ a, List.find (λ a, String.eqb (a_artifactId a) id && (a_revision a =? n)%Z) l = Some a ↔
  a ∈ h ∧ a_revision a = n.
Proof.
  intros Hnd Hh a.
  assert (∀ b, List.find (λ a, String.eqb (a_artifactId a) id && (a_revision a =? n)%Z) l = Some b →
  b ∈ h ∧ a_revision b = n) as Hsound.
  { intros b [Hin [Hbid%String.eqb_eq Hbr%Z.eqb_eq]%andb_true_iff]%List.find_some.
  split; [|done]. apply Hh. split; [done|]. by apply list_elem_of_In. }
  split; [apply Hsound|]. intros [Ha Hn].
  destruct (List.find _ l) as [b|] eqn:E.
  - destruct (Hsound b eq_refl) as [Hb Hbn]. f_equal.
  apply list_elem_of_lookup in Ha as [i Hi]. apply list_elem_of_lookup in Hb as [j Hj].
  assert (i = j) as ->; [|congruence].
  eapply NoDup_lookup; [exact Hnd|..]; rewrite list_lookup_fmap;
    [by rewrite Hi|rewrite Hj; simpl; congruence].
  - exfalso. apply Hh in Ha as [Hid Hl]. apply list_elem_of_In in Hl.
  pose proof (List.find_none _ _ E a Hl) as Hf. simpl in Hf.
  rewrite Hid, Hn, String.eqb_refl, Z.eqb_refl in Hf. done.
Qed.

(** P: the queries agree with one contiguous history.  For a stored
    repository the history of an id lists exactly its envelopes, numbered 1
    to n without gap; the latest query returns its last entry; and asking
    for revision k returns the k-th entry, or nothing beyond n. *)
Theorem queries_agree root id tree s :
  is_safe_identifier id = true →
  loadProjectResearchArtifactRepository root tree = Ok (Some s) →
  ∃ h, getProjectResearchArtifactHistory root (JStr id) tree = Ok h ∧
  h ≡ₚ filter (λ a, a_artifactId a = id) (sn_artifacts s) ∧
  a_revision <$> h = seqZ 1 (Z.of_nat (length h)) ∧
  getLatestProjectResearchArtifact root (JStr id) tree = Ok (last h) ∧
  ∀ k, (1 ≤ k ≤ max_safe_integer)%Z →
    getProjectResearchArtifact root (JStr id) (JNum (NInt k)) tree =
      Ok (h !! Z.to_nat (k - 1)).
Proof.
  intros Hid Hload. pose proof (query_history _ _ _ _ Hid Hload) as Hh.
  destruct (load_Ok _ _ _ Hload) as (m & Hm & Hs).
  pose proof (stored_history_revisions m s id (readManifest_valid _ _ Hm) Hs) as Hrev.
  set (h := js_sort compare_revision _) in *. exists h.
  assert (length h = length (filter (λ a, a_artifactId a = id) (sn_artifacts s))) as Hlen
  by (unfold h; by rewrite length_js_sort).
  rewrite <- Hlen in Hrev.
  split_and!; [done|unfold h; by rewrite js_sort_perm|done|..].
  - unfold getLatestProjectResearchArtifact. rewrite repo_identifier_intro by done.
  cbn [mbind result_bind]. by rewrite Hh.
  - intros k Hk. unfold getProjectResearchArtifact.
  rewrite repo_identifier_intro by done. cbn [mbind result_bind].
  rewrite repo_positive_intro by done. cbn [mbind result_bind]. rewrite Hload.
  cbn [mbind result_bind stored_artifacts mret result_ret]. f_equal.
  assert (∀ i a, h !! i = Some a → a_revision a = (1 + Z.of_nat i)%Z) as Hat.
  { intros i a Hi. assert ((a_revision <$> h) !! i = Some (a_revision a)) as Hi'
      by by rewrite list_lookup_fmap, Hi.
    pose proof (lookup_lt_Some _ _ _ Hi). rewrite Hrev, lookup_seqZ_lt in Hi' by lia.
    by injection Hi'. }
  apply option_eq. intros a. rewrite (find_revision id k (sn_artifacts s) h).
  + split.
    * intros [[i Hi]%list_elem_of_lookup Hn]. rewrite (Hat _ _ Hi) in Hn.
      replace (Z.to_nat (k - 1)) with i by lia. done.
    * intros Hi. split; [by eapply list_elem_of_lookup_2|]. rewrite (Hat _ _ Hi). lia.
  + rewrite Hrev. apply NoDup_seqZ.
  + intros b. unfold h. by rewrite elem_of_js_sort, list_elem_of_filter.
Qed.
End Queries.

(** ** Concrete runs *)

Definition empty_tree : project_tree := mkTree Directory Absent Absent Absent NoManifest.

Definition sample_root : jsval := JStr "/project".

Definition sample_supply : jsval := JArr (map envelope_to_json sample_artifacts).

Definition no_result : append_result :=
  mkAppendResult (mkSnapshot "none" 0 0 0 "none" []) [] [] [] [] false.

Definition run_append (artifacts : jsval) (expected now : Z) (tree : project_tree) :
    append_result * project_tree :=
  match appendProjectResearchArtifacts sample_root artifacts (JNum (NInt expected))
          (Some now) "u" tree with
  | Ok r => r
  | Throw _ => (no_result, tree)
  end.

(** The first append of the sample artifacts, at time 5000. *)
Definition sample_append_1 : append_result * project_tree := Eval vm_compute in
  run_append sample_supply 0 5000 empty_tree.

(** A second revision of the evidence, appended at time 6000. *)
Definition sample_supply_2 : jsval := JArr [envelope_to_json sample_evidence_2].

Definition sample_append_2 : append_result * project_tree := Eval vm_compute in
  run_append sample_supply_2 1 6000 sample_append_1.2.

Lemma sample_append_1_ok :
  appendProjectResearchArtifacts sample_root sample_supply (JNum (NInt 0)) (Some 5000%Z) "u"
    empty_tree = Ok sample_append_1.
Proof. vm_compute. reflexivity. Qed.

Lemma sample_append_2_ok :
  appendProjectResearchArtifacts sample_root sample_supply_2 (JNum (NInt 1)) (Some 6000%Z) "u"
    sample_append_1.2 = Ok sample_append_2.
Proof. vm_compute. reflexivity. Qed.

(** The new evidence supersedes the old one and makes what used it stale. *)
Example sample_statuses :
  (λ a, (researchArtifactKey a, a_status a)) <$> sn_artifacts (ar_snapshot sample_append_2.1) =
  [("ev@1", Superseded); ("br@1", Stale); ("ms@1", Stale); ("ev@2", Active)].
Proof. vm_compute. reflexivity. Qed.

(** ** Witnesses *)

Definition has_room (tree : project_tree) : bool :=
  match readManifest tree with
  | Ok (Some m) => (m_revision m <? max_safe_integer)%Z
  | _ => true
  end.

Lemma has_room_ok tree : has_room tree = true → revision_room tree.
Proof. unfold has_room. intros Hr m Hm. rewrite Hm in Hr. by apply Z.ltb_lt. Qed.

Lemma sample_room_1 : revision_room empty_tree.
Proof. by apply has_room_ok. Qed.

Lemma sample_room_2 : revision_room sample_append_1.2.
Proof. apply has_room_ok. vm_compute. reflexivity. Qed.

Lemma sample_load_1 :
  loadProjectResearchArtifactRepository sample_root sample_append_1.2 =
    Ok (Some (ar_snapshot sample_append_1.1)).
Proof. vm_compute. reflexivity. Qed.

Lemma append_then_load_witness :
  ar_persisted sample_append_1.1 = true ∧
  loadProjectResearchArtifactRepository sample_root sample_append_1.2 =
    Ok (Some (ar_snapshot sample_append_1.1)).
Proof.
  split; [reflexivity|].
  apply (append_then_load sample_root sample_supply (JNum (NInt 0)) 5000 "u" empty_tree);
    [reflexivity|reflexivity|exact sample_room_1| |reflexivity].
  rewrite <- surjective_pairing. exact sample_append_1_ok.
Defined.

Lemma append_keeps_history_witness :
  ∃ kept added, sn_artifacts (ar_snapshot sample_append_2.1) = kept ++ added ∧
    Forall2 later (sn_artifacts (ar_snapshot sample_append_1.1)) kept ∧
    length added = length (ar_appendedRefs sample_append_2.1).
Proof.
  apply (append_keeps_history sample_root sample_supply_2 (JNum (NInt 1)) 6000 "u"
    sample_append_1.2 (ar_snapshot sample_append_1.1) sample_append_2.1 sample_append_2.2);
    [reflexivity|reflexivity|exact sample_room_2|exact sample_load_1|].
  rewrite <- surjective_pairing. exact sample_append_2_ok.
Defined.

Definition snapshot_2 : list artifact_envelope := sn_artifacts (ar_snapshot sample_append_2.1).

(** The superseded evidence and the brief that uses it. *)
Definition old_evidence : artifact_envelope := nth 0 snapshot_2 blank_envelope.
Definition stale_brief : artifact_envelope := nth 1 snapshot_2 blank_envelope.

Lemma brief_uses_evidence :
  tc (causal_edge snapshot_2) (researchArtifactKey old_evidence) (researchArtifactKey stale_brief).
Proof.
  apply tc_once. exists stale_brief, (mkParent Uses (toResearchArtifactRef old_evidence)).
  split_and!; [by apply (list_elem_of_lookup_2 _ 1)|done|by apply (list_elem_of_lookup_2 _ 0)|done|].
  split_and!; [done|done|]. apply (list_elem_of_lookup_2 _ 0). vm_compute. reflexivity.
Qed.

Lemma append_settles_witness :
  a_status old_evidence = Superseded ∧ a_status stale_brief ≠ Active.
Proof.
  split; [reflexivity|].
  apply (append_settles sample_root sample_supply_2 (JNum (NInt 1)) 6000 "u"
    sample_append_1.2 sample_append_2.1 sample_append_2.2) with (a := old_evidence);
    [reflexivity|reflexivity|exact sample_room_2| |reflexivity| | |exact brief_uses_evidence|].
  - rewrite <- surjective_pairing. exact sample_append_2_ok.
  - by apply (list_elem_of_lookup_2 _ 0).
  - by apply (list_elem_of_lookup_2 _ 1).
  - discriminate.
Defined.

Lemma append_retry_witness :
  ∃ r2, appendProjectResearchArtifacts sample_root sample_supply JUndefined (Some 9000%Z) "v"
      sample_append_1.2 = Ok (r2, sample_append_1.2) ∧
    ar_persisted r2 = false ∧ ar_appendedRefs r2 = [] ∧
    ar_snapshot r2 = ar_snapshot sample_append_1.1.
Proof.
  apply (append_retry sample_root sample_supply (JNum (NInt 0)) 5000 "u" empty_tree);
    [reflexivity|reflexivity|exact sample_room_1| |reflexivity].
  rewrite <- surjective_pairing. exact sample_append_1_ok.
Defined.

Lemma append_checks_revision_witness :
  sn_revision (ar_snapshot sample_append_1.1) = 1%Z ∧ current_revision sample_append_1.2 1.
Proof.
  destruct (append_checks_revision sample_root sample_supply (JNum (NInt 0)) 5000 "u" empty_tree
    sample_append_1.1 sample_append_1.2 0) as (_ & Hrev & Hcur);
    [reflexivity|reflexivity|exact sample_room_1| | |].
  - rewrite <- surjective_pairing. exact sample_append_1_ok.
  - right. split; reflexivity.
  - split; [apply Hrev; reflexivity|exact Hcur].
Defined.

Lemma queries_agree_witness :
  ∃ h, getProjectResearchArtifactHistory sample_root (JStr "br") sample_append_1.2 = Ok h ∧
    getLatestProjectResearchArtifact sample_root (JStr "br") sample_append_1.2 = Ok (last h).
Proof.
  destruct (queries_agree sample_root "br" sample_append_1.2 (ar_snapshot sample_append_1.1))
    as (h & Hh & _ & _ & Hl & _); [reflexivity|exact sample_load_1|].
  exists h. split; [exact Hh|exact Hl].
Defined.

(** Withdrawing the evidence at time 7000. *)
Definition sample_invalidation : result (invalidate_result * project_tree) := Eval vm_compute in
  invalidateProjectResearchArtifactDescendants sample_root
    (JArr [ref_to_json (toResearchArtifactRef sample_evidence)]) (JStr "evidence_withdrawn")
    (JNum (NInt 1)) (Some 7000%Z) sample_append_1.2.

Lemma sample_invalidation_ok :
  invalidateProjectResearchArtifactDescendants sample_root
    (JArr [ref_to_json (toResearchArtifactRef sample_evidence)]) (JStr "evidence_withdrawn")
    (JNum (NInt 1)) (Some 7000%Z) sample_append_1.2 = sample_invalidation.
Proof. vm_compute. reflexivity. Qed.

