(* ===== verification/RepoLock.v ===== *)
(** * The repository's lock

    [withRepositoryLock] and [reclaimStaleRepositoryLock] of
    src/src/research/artifacts/repository.ts, run by any number of concurrent
    calls, of one or several processes.  A call is a state machine whose steps
    are the awaited file operations: between two of them every other call may
    move, the clock may change, and a process may die.

    The callback is abstract here ([transaction]): it reads the manifest, and
    at its end may write it.  RepoConcurrent.v instantiates it with the
    transactions of Repository.v. *)

From stdpp Require Import functions.
From S2P Require Import Prelude JsValue Numbers NumberText RepoModel.

Definition LOCK_RETRIES : nat := 120.
Definition LOCK_RETRY_MS : Z := 25.
Definition LOCK_STALE_MS : Z := 60000.

(** What is at [paths.lockPath]: a regular file, known by the inode an open
    handle refers to, or something else. *)
Inductive lock_entry :=
  | LockFile (ino : nat) (text : string) (mtime : Z)
  | LockOther.

(** ** The owner's text *)

Definition newline : string := String (ascii_of_N 10) "".

(** [`${process.pid}\n${Date.now()}\n`]. *)
Definition lock_text (pid now : Z) : string :=
  pretty pid +:+ newline +:+ pretty now +:+ newline.

(** The first part of [text.split(/\r?\n/u)]. *)
Fixpoint first_line (s : string) : string :=
  match s with
  | EmptyString => EmptyString
  | String c s' =>
      let cr_lf := match s' with
                   | String d _ => (code_unit c =? 13)%N && (code_unit d =? 10)%N
                   | EmptyString => false
                   end in
      if (code_unit c =? 10)%N || cr_lf then EmptyString else String c (first_line s')
  end.

Definition owner_pid (text : string) : option Z :=
  match as_safe_integer (JNum (js_number (first_line text))) with
  | Some pid => if (0 <? pid)%Z then Some pid else None
  | None => None
  end.

(** ** Calls *)

(** Where a call is; each state names the file operation it awaits next.
    [Reading] and [Committing] are the callback's; [None] instead of a handle
    means that the call entered it without one. *)
Inductive call_state (D R : Type) :=
  | Opening (attempt : nat)
  | Writing (ino : nat)
  | Syncing (ino : nat)
  | Aborting (ino : nat) (e : js_error)
  | Inspecting (attempt : nat)
  | ReadingOwner (attempt : nat)
  | Renaming (attempt : nat)
  | Sleeping (attempt : nat) (until : Z)
  | Reading (handle : option nat)
  | Committing (handle : option nat) (seen : D)
  | Releasing (ino : nat) (outcome : result R)
  | Finished (outcome : result R)
  | Killed.
Arguments Opening {_ _} _.
Arguments Writing {_ _} _.
Arguments Syncing {_ _} _.
Arguments Aborting {_ _} _ _.
Arguments Inspecting {_ _} _.
Arguments ReadingOwner {_ _} _.
Arguments Renaming {_ _} _.
Arguments Sleeping {_ _} _ _.
Arguments Reading {_ _} _.
Arguments Committing {_ _} _ _.
Arguments Releasing {_ _} _ _.
Arguments Finished {_ _} _.
Arguments Killed {_ _}.

Record system (D R : Type) := mkSystem {
  sy_lock : option lock_entry;
  sy_disk : D;
  sy_clock : Z;
  sy_alive : gset Z;
  sy_fresh : nat;
  sy_calls : nat → call_state D R;
}.
Arguments mkSystem {_ _} _ _ _ _ _ _.
Arguments sy_lock {_ _} _.
Arguments sy_disk {_ _} _.
Arguments sy_clock {_ _} _.
Arguments sy_alive {_ _} _.
Arguments sy_fresh {_ _} _.
Arguments sy_calls {_ _} _ _.

(** What happens next: call [c] completes the operation it awaits ([ok] is
    false when that operation fails with an error the code does not expect),
    the clock changes, or a process dies. *)
Inductive event :=
  | Call (c : nat) (ok : bool)
  | Tick (dt : Z)
  | Crash (pid : Z).

Definition io_error (operation : string) : js_error :=
  repositoryError "io_error" (operation +:+ " failed: I/O error").

Definition repository_busy : js_error :=
  repositoryError "repository_busy" "Another process is updating the artifact repository.".

Section Lock.
Context {D R : Type}.
Variable pid_of : nat → Z.
Variable transaction : nat → D → result (R * option D).

Definition set_call (c : nat) (s : call_state D R) (w : system D R) : system D R :=
  mkSystem (sy_lock w) (sy_disk w) (sy_clock w) (sy_alive w) (sy_fresh w) (<[c:=s]> (sy_calls w)).

Definition set_lock (l : option lock_entry) (w : system D R) : system D R :=
  mkSystem l (sy_disk w) (sy_clock w) (sy_alive w) (sy_fresh w) (sy_calls w).

Definition set_disk (d : D) (w : system D R) : system D R :=
  mkSystem (sy_lock w) d (sy_clock w) (sy_alive w) (sy_fresh w) (sy_calls w).

(** [continue], or the end of the [for] loop after the last attempt: the
    callback runs although [handle] is still undefined. *)
Definition next_attempt (attempt : nat) : call_state D R :=
  if S attempt <? LOCK_RETRIES then Opening (S attempt) else Reading None.

(** The lock is held by someone else: give up on the last attempt, else wait. *)
Definition not_reclaimed (clock : Z) (attempt : nat) : call_state D R :=
  if attempt =? LOCK_RETRIES - 1 then Finished (Throw repository_busy)
  else Sleeping attempt (clock + LOCK_RETRY_MS).

(** The callback returned or threw: [finally]. *)
Definition leave (handle : option nat) (outcome : result R) : call_state D R :=
  match handle with Some ino => Releasing ino outcome | None => Finished outcome end.

(** [handle.writeFile] reaches the lock only while it is still at its path. *)
Definition write_owner (pid clock : Z) (ino : nat) (l : option lock_entry) : option lock_entry :=
  match l with
  | Some (LockFile i _ _) =>
      if i =? ino then Some (LockFile ino (lock_text pid clock) clock) else l
  | _ => l
  end.

(** [reclaimStaleRepositoryLock] after its [lstat]. *)
Definition inspect (w : system D R) (attempt : nat) : call_state D R :=
  match sy_lock w with
  | None => next_attempt attempt
  | Some LockOther => Finished (Throw (repositoryError "path_violation"
      "Artifact repository lock must be a regular file."))
  | Some (LockFile _ text mtime) =>
      if (sy_clock w - mtime <? LOCK_STALE_MS)%Z then not_reclaimed (sy_clock w) attempt
      else if (utf8_length text <=? 1024)%Z then ReadingOwner attempt
      else Renaming attempt
  end.

Definition isProcessAlive (alive : gset Z) (pid : Z) : bool := bool_decide (pid ∈ alive).

(** [reclaimStaleRepositoryLock] after reading the file. *)
Definition judge_owner (w : system D R) (attempt : nat) : call_state D R :=
  match sy_lock w with
  | None => next_attempt attempt
  | Some LockOther => Finished (Throw (io_error "inspect_repository_lock"))
  | Some (LockFile _ text _) =>
      match owner_pid text with
      | Some pid =>
          if isProcessAlive (sy_alive w) pid then not_reclaimed (sy_clock w) attempt
          else Renaming attempt
      | None => Renaming attempt
      end
  end.

(** The end of the callback: it may write the manifest. *)
Definition finish_transaction (w : system D R) (c : nat) (ok : bool) (seen : D) :
  D * result R :=
  match transaction c seen with
  | Throw e => (sy_disk w, Throw e)
  | Ok (r, None) => (sy_disk w, Ok r)
  | Ok (r, Some d) =>
      if ok then (d, Ok r) else (sy_disk w, Throw (io_error "write_manifest"))
  end.

(** One step of call [c]. *)
Definition call_step (w : system D R) (c : nat) (ok : bool) : option (system D R) :=
  match sy_calls w c with
  | Opening attempt =>
      if negb ok then Some (set_call c (Finished (Throw (io_error "acquire_repository_lock"))) w)
      else match sy_lock w with
           | Some _ => Some (set_call c (Inspecting attempt) w)
           | None =>
               Some (mkSystem (Some (LockFile (sy_fresh w) "" (sy_clock w))) (sy_disk w) (sy_clock w)
                 (sy_alive w) (S (sy_fresh w)) (<[c := Writing (sy_fresh w)]> (sy_calls w)))
           end
  | Writing ino =>
      if negb ok then Some (set_call c (Aborting ino (io_error "acquire_repository_lock")) w)
      else Some (set_call c (Syncing ino)
                   (set_lock (write_owner (pid_of c) (sy_clock w) ino (sy_lock w)) w))
  | Syncing ino =>
      if negb ok then Some (set_call c (Aborting ino (io_error "acquire_repository_lock")) w)
      else Some (set_call c (Reading (Some ino)) w)
  | Aborting ino e =>
      Some (set_call c (Finished (Throw e)) (if ok then set_lock None w else w))
  | Inspecting attempt =>
      if negb ok then Some (set_call c (Finished (Throw (io_error "inspect_repository_lock"))) w)
      else Some (set_call c (inspect w attempt) w)
  | ReadingOwner attempt =>
      if negb ok then Some (set_call c (Finished (Throw (io_error "inspect_repository_lock"))) w)
      else Some (set_call c (judge_owner w attempt) w)
  | Renaming attempt =>
      if negb ok then Some (set_call c (Finished (Throw (io_error "reclaim_repository_lock"))) w)
      else Some (set_call c (next_attempt attempt) (set_lock None w))
  | Sleeping attempt until =>
      if (until <=? sy_clock w)%Z then Some (set_call c (next_attempt attempt) w) else None
  | Reading handle =>
      if negb ok then Some (set_call c (leave handle (Throw (io_error "read_manifest"))) w)
      else Some (set_call c (Committing handle (sy_disk w)) w)
  | Committing handle seen =>
      let '(d, outcome) := finish_transaction w c ok seen in
      Some (set_call c (leave handle outcome) (set_disk d w))
  | Releasing ino outcome =>
      Some (set_call c (Finished outcome) (if ok then set_lock None w else w))
  | Finished _ | Killed => None
  end.

Definition crash (pid : Z) (w : system D R) : system D R :=
  mkSystem (sy_lock w) (sy_disk w) (sy_clock w) (sy_alive w ∖ {[pid]}) (sy_fresh w)
    (λ c, if decide (pid_of c = pid) then Killed else sy_calls w c).

Definition exec (w : system D R) (e : event) : option (system D R) :=
  match e with
  | Call c ok => call_step w c ok
  | Tick dt => Some (mkSystem (sy_lock w) (sy_disk w) (sy_clock w + dt) (sy_alive w) (sy_fresh w)
                       (sy_calls w))
  | Crash pid => Some (crash pid w)
  end.

Definition run (w : system D R) (es : list event) : option (system D R) :=
  foldl (λ w e, w ← w; exec w e) (Some w) es.

(** All calls start together, with no lock. *)
Definition start (d : D) (clock : Z) (alive : gset Z) : system D R :=
  mkSystem None d clock alive 0 (λ _, Opening 0).

(** The systems reached through states that all satisfy [good]. *)
Inductive reaches (good : system D R → Prop) (w0 : system D R) : system D R → Prop :=
  | reaches_start : good w0 → reaches good w0 w0
  | reaches_step w e w' :
      reaches good w0 w → exec w e = Some w' → good w' → reaches good w0 w'.

(** No lock gets as old as [LOCK_STALE_MS]. *)
Definition timely (w : system D R) : Prop :=
  match sy_lock w with
  | Some (LockFile _ _ mtime) => (sy_clock w - mtime < LOCK_STALE_MS)%Z
  | _ => True
  end.

(** The lock a call has taken and not released. *)
Definition handle_of (s : call_state D R) : option nat :=
  match s with
  | Writing ino | Syncing ino | Aborting ino _ | Reading (Some ino) | Committing (Some ino) _
  | Releasing ino _ => Some ino
  | _ => None
  end.

(** A call inside the callback. *)
Definition in_callback (s : call_state D R) : bool :=
  match s with Reading _ | Committing _ _ => true | _ => false end.

(** No call is in the callback without the lock. *)
Definition all_locked (w : system D R) : Prop :=
  ∀ c, in_callback (sy_calls w c) = true → is_Some (handle_of (sy_calls w c)).

(** ** The contract: transactions one after the other *)

(** [serial d h d']: the calls of [h], run one after the other from [d], each
    with the result it is listed with, lead to [d']. *)
Inductive serial (d0 : D) : list (nat * R) → D → Prop :=
  | serial_nil : serial d0 [] d0
  | serial_snoc h d c r write :
      serial d0 h d → transaction c d = Ok (r, write) →
      serial d0 (h ++ [(c, r)]) (default d write).

(** What a call has returned, or is about to. *)
Definition outcome_of (s : call_state D R) : option (result R) :=
  match s with Releasing _ o | Finished o => Some o | _ => None end.

End Lock.
