(* ===== verification/RepoLockSafety.v ===== *)
(** * What the repository's lock guarantees

    Mutual exclusion and serializability of the callbacks of RepoLock.v as
    long as no lock gets old, termination of a call, and the executions in
    which the lock does not exclude. *)

From stdpp Require Import functions.
From S2P Require Import Prelude JsValue Numbers NumberText RepoModel RepoLock.

(** ** The owner's text *)

Lemma first_line_digits s t :
  str_forallb is_digit s = true → first_line (s +:+ newline +:+ t) = s.
Proof.
  induction s as [|c s IH]; [done|]. cbn [str_forallb]. intros [Hc Hs]%andb_true_iff.
  rewrite append_cons. cbn [first_line]. rewrite IH by done.
  assert ((code_unit c =? 10)%N = false ∧ (code_unit c =? 13)%N = false) as [-> ->].
  { destruct c as [[] [] [] [] [] [] [] []]; vm_compute in Hc |- *; done. }
  by destruct (s +:+ newline +:+ t).
Qed.

(** Reading back the owner a lock holder wrote. *)
Lemma owner_pid_lock_text pid now :
  (0 < pid)%Z → is_safe pid = true → owner_pid (lock_text pid now) = Some pid.
Proof.
  intros Hpid Hs. unfold owner_pid, lock_text.
  rewrite first_line_digits by (by apply pretty_safe_digits).
  rewrite js_number_pretty, as_safe_integer_int by done.
  by rewrite (proj2 (Z.ltb_lt _ _) Hpid).
Qed.

Section Safety.
Context {D R : Type}.
Variable pid_of : nat → Z.
Variable transaction : nat → D → result (R * option D).

Local Abbreviation system := (system D R).
Local Abbreviation exec := (exec pid_of transaction).
Local Abbreviation reaches := (reaches pid_of transaction).
Local Abbreviation handle w c := (handle_of (sy_calls w c)).

Implicit Types w : system.

(** ** Induction on executions *)

Lemma reaches_good good w0 w : reaches good w0 w → good w.
Proof. by destruct 1. Qed.

Lemma reaches_ind_inv (good inv : system → Prop) w0 :
  (good w0 → inv w0) →
  (∀ w e w', good w → inv w → exec w e = Some w' → good w' → inv w') →
  ∀ w, reaches good w0 w → inv w.
Proof. intros H0 Hs w Hw. induction Hw as [|w e w' Hw IH He Hg]; [auto|].
  by eapply Hs; [eapply reaches_good| |..].
Qed.

Lemma reaches_weaken (good good' : system → Prop) w0 w :
  (∀ w, good w → good' w) → reaches good w0 w → reaches good' w0 w.
Proof. intros Hg. induction 1; [constructor; auto|]. econstructor; eauto. Qed.

(** ** Mutual exclusion *)

Definition lock_ino (w : system) : option nat :=
  match sy_lock w with Some (LockFile ino _ _) => Some ino | _ => None end.

(** Not on the way to reclaiming a stale lock. *)
Definition quiet (s : call_state D R) : bool :=
  match s with ReadingOwner _ | Renaming _ => false | _ => true end.

(** While locks are young: a handle is the file at the path, nobody else's,
    and nobody is reclaiming. *)
Record lock_inv (w : system) : Prop := {
  li_handle c i : handle w c = Some i → lock_ino w = Some i ∧ i < sy_fresh w;
  li_unique c1 c2 i : handle w c1 = Some i → handle w c2 = Some i → c1 = c2;
  li_quiet c : quiet (sy_calls w c) = true;
  li_regular : sy_lock w ≠ Some LockOther;
}.

(** A step of one call. *)
Definition moves (c : nat) w w' : Prop :=
  (∀ c', c' ≠ c → sy_calls w' c' = sy_calls w c') ∧ sy_fresh w ≤ sy_fresh w' ∧
  quiet (sy_calls w' c) = true ∧ sy_lock w' ≠ Some LockOther.

Lemma lock_inv_keep c w w' :
  lock_inv w → moves c w w' → lock_ino w' = lock_ino w →
  (handle w' c = None ∨ handle w' c = handle w c) → lock_inv w'.
Proof.
  intros [Hh Hu Hq Hr] (Hc & Hf & Hqc & Hr') Hi Hhc.
  assert (∀ c' i, handle w' c' = Some i → handle w c' = Some i) as Hback.
  { intros c' i. destruct (decide (c' = c)) as [->|Hne]; [|by rewrite Hc].
    by destruct Hhc as [-> | ->]. }
  split; [| |intros c'; destruct (decide (c' = c)) as [->|Hne]; [done|by rewrite Hc]|done].
  - intros c' i [Hl Hlt]%Hback%Hh. rewrite Hi. split; [done|lia].
  - intros c1 c2 i H1%Hback H2%Hback. by eapply Hu.
Qed.

Lemma lock_inv_acquire c w w' i :
  lock_inv w → moves c w w' → sy_lock w = None → lock_ino w' = Some i →
  handle w' c = Some i → i < sy_fresh w' → lock_inv w'.
Proof.
  intros [Hh Hu Hq Hr] (Hc & Hf & Hqc & Hr') Hn Hi Hhc Hlt.
  assert (∀ c' j, handle w' c' = Some j → c' = c ∧ j = i) as Honly.
  { intros c' j. destruct (decide (c' = c)) as [->|Hne]; [rewrite Hhc; by intros [= ->]|].
    rewrite Hc by done. intros [Hl _]%Hh. unfold lock_ino in Hl. by rewrite Hn in Hl. }
  split; [| |intros c'; destruct (decide (c' = c)) as [->|Hne]; [done|by rewrite Hc]|done].
  - by intros c' j [-> ->]%Honly.
  - by intros c1 c2 j [-> _]%Honly [-> _]%Honly.
Qed.

Lemma lock_inv_release c w w' i :
  lock_inv w → moves c w w' → handle w c = Some i → handle w' c = None → lock_inv w'.
Proof.
  intros [Hh Hu Hq Hr] (Hc & Hf & Hqc & Hr') Hhc Hno.
  assert (∀ c' j, handle w' c' = Some j → False) as Hnone.
  { intros c' j. destruct (decide (c' = c)) as [->|Hne]; [congruence|]. rewrite Hc by done.
    intros Hj. apply Hne. destruct (Hh _ _ Hj) as [Hl _], (Hh _ _ Hhc) as [Hl' _].
    eapply Hu; [done|]. congruence. }
  split; [| |intros c'; destruct (decide (c' = c)) as [->|Hne]; [done|by rewrite Hc]|done].
  - by intros c' j ?%Hnone.
  - by intros c1 c2 j ?%Hnone.
Qed.

(** The steps, seen by the invariant. *)
Lemma moves_set_call c s l d clock alive w :
  quiet s = true → l ≠ Some LockOther →
  moves c w (mkSystem l d clock alive (sy_fresh w) (<[c:=s]> (sy_calls w))).
Proof.
  intros Hq Hl. split_and!; simpl; [|done|by rewrite fn_lookup_insert|done].
  intros c' Hne. by rewrite fn_lookup_insert_ne.
Qed.

Lemma inspect_quiet w a :
  timely w → sy_lock w ≠ Some LockOther →
  quiet (inspect w a) = true ∧ handle_of (inspect w a) = None.
Proof.
  unfold inspect, timely, next_attempt, not_reclaimed. intros Ht Hr.
  destruct (sy_lock w) as [[ino text mtime|]|]; [|done|].
  - assert (sy_clock w - mtime <? LOCK_STALE_MS = true)%Z as -> by lia. by case_match.
  - by case_match.
Qed.

Lemma next_attempt_quiet a :
  quiet (@next_attempt D R a) = true ∧ handle_of (@next_attempt D R a) = None.
Proof. unfold next_attempt. by case_match. Qed.

Lemma leave_quiet ino o :
  quiet (@leave D R ino o) = true ∧ handle_of (@leave D R ino o) = ino.
Proof. by destruct ino. Qed.

Lemma write_owner_ino p t i l : 
  match write_owner p t i l with Some (LockFile j _ _) => Some j | _ => None end =
  match l with Some (LockFile j _ _) => Some j | _ => None end.
Proof. destruct l as [[j x m|]|]; simpl; [|done..]. by destruct (j =? i) eqn:E; [apply Nat.eqb_eq in E as ->|]. Qed.

Lemma write_owner_regular p t i l : l ≠ Some LockOther → write_owner p t i l ≠ Some LockOther.
Proof. destruct l as [[j x m|]|]; simpl; [|done..]. by destruct (j =? i). Qed.

(** A step that gives up the lock or does not touch it. *)
Ltac keep_lock c :=
  eapply (lock_inv_keep c); [done|apply moves_set_call|..]; try done;
  simpl; rewrite ?fn_lookup_insert; auto.

Ltac free_lock c Hs :=
  eapply (lock_inv_release c); [done|apply moves_set_call; done| |];
  [simpl; rewrite Hs; done|simpl; by rewrite fn_lookup_insert].

Lemma call_step_inv w c ok w' :
  timely w → lock_inv w → call_step pid_of transaction w c ok = Some w' → lock_inv w'.
Proof.
  intros Ht Hinv Hrun. pose proof (li_regular _ Hinv) as Hr. pose proof (li_quiet _ Hinv c) as Hq.
  unfold call_step, set_call, set_lock, set_disk in Hrun. destruct (sy_calls w c) as
    [a|i|i|i e|a|a|a|a u|h|h seen|i o|o|] eqn:Hs; try done.
  - destruct ok; simpl in Hrun; [|injection Hrun as <-; keep_lock c].
    destruct (sy_lock w) as [l|] eqn:Hl; injection Hrun as <-; [keep_lock c; unfold lock_ino; simpl; by rewrite Hl|].
    eapply (lock_inv_acquire c _ _ (sy_fresh w)); [done| |done..| |simpl; lia].
    + split_and!; simpl; [|lia|by rewrite fn_lookup_insert|done].
      intros c' Hne. by rewrite fn_lookup_insert_ne.
    + simpl. by rewrite fn_lookup_insert.
  - destruct ok; injection Hrun as <-; (eapply (lock_inv_keep c); [done|apply moves_set_call|..]).
    all: try done; try (simpl; rewrite fn_lookup_insert, Hs; auto).
    + by apply write_owner_regular.
    + unfold lock_ino. cbn [sy_lock]. apply write_owner_ino.
  - destruct ok; injection Hrun as <-; keep_lock c; rewrite Hs; auto.
  - destruct ok; injection Hrun as <-; [free_lock c Hs|keep_lock c].
  - destruct (inspect_quiet w a Ht Hr).
    destruct ok; injection Hrun as <-; keep_lock c.
  - destruct (u <=? sy_clock w)%Z; [|done]. injection Hrun as <-.
    destruct (next_attempt_quiet a). keep_lock c.
  - destruct ok; injection Hrun as <-; (eapply (lock_inv_keep c); [done|apply moves_set_call| |]);
      try done; try apply leave_quiet; simpl; rewrite fn_lookup_insert, Hs; destruct h; auto.
  - destruct (finish_transaction transaction w c ok seen) as [d o]. injection Hrun as <-.
    eapply (lock_inv_keep c); [done|apply moves_set_call| |]; try done; [apply leave_quiet|].
    simpl. rewrite fn_lookup_insert, Hs. destruct h; auto.
  - destruct ok; injection Hrun as <-; [free_lock c Hs|keep_lock c].
Qed.

Lemma crash_inv pid w : lock_inv w → lock_inv (crash pid_of pid w).
Proof.
  intros [Hh Hu Hq Hr].
  assert (∀ c i, handle (crash pid_of pid w) c = Some i → handle w c = Some i) as Hback.
  { intros c i. simpl. by destruct (decide _). }
  split; [|intros c1 c2 i H1%Hback H2%Hback; by eapply Hu|intros c; simpl; by destruct (decide _)|done].
  intros c i Hi%Hback. by apply (Hh c).
Qed.

Lemma lock_inv_step w e w' : timely w → lock_inv w → exec w e = Some w' → lock_inv w'.
Proof.
  destruct e as [c ok|dt|pid]; simpl.
  - apply call_step_inv.
  - intros _ [Hh Hu Hq Hr] [= <-]. by split.
  - intros _ Hinv [= <-]. by apply crash_inv.
Qed.

Lemma lock_inv_reaches w0 w :
  sy_lock w0 = None → (∀ c, sy_calls w0 c = Opening 0) → reaches timely w0 w → lock_inv w.
Proof.
  intros Hl Hc. apply reaches_ind_inv.
  - intros _. split; [| |intros c|]; try congruence; rewrite ?Hc; try done.
    + intros c i. by rewrite Hc.
    + intros c1 c2 i. by rewrite Hc.
  - intros w1 e w2 Ht Hinv He _. by eapply lock_inv_step.
Qed.

Lemma lock_inv_start d clock alive w : reaches timely (start d clock alive) w → lock_inv w.
Proof. by apply lock_inv_reaches. Qed.

(** C7: mutual exclusion.  As long as no lock gets as old as [LOCK_STALE_MS]
    (calls may fail, wait and retry, processes may die, the clock may jump),
    at most one call at a time is in the callback with the lock it took, and
    the file at the lock's path is that call's. *)
Theorem lock_excludes d clock alive w c1 c2 i1 i2 :
  reaches timely (start d clock alive) w →
  in_callback (sy_calls w c1) = true → handle w c1 = Some i1 →
  in_callback (sy_calls w c2) = true → handle w c2 = Some i2 →
  c1 = c2 ∧ ∃ text mtime, sy_lock w = Some (LockFile i1 text mtime).
Proof.
  intros Hw%lock_inv_start _ H1 _ H2.
  destruct (li_handle _ Hw _ _ H1) as [Hl1 _], (li_handle _ Hw _ _ H2) as [Hl2 _].
  split; [eapply (li_unique _ Hw); [done|congruence]|].
  unfold lock_ino in Hl1. destruct (sy_lock w) as [[i t m|]|]; try done.
  injection Hl1 as ->. by exists t, m.
Qed.

(** ** Serializability *)

Section Serial.
(** What successive transactions keep between their history and the disk, on
    disks that satisfy [room]. *)
Variable keeps : list (nat * R) → D → Prop.
Variable room : D → Prop.
Hypothesis keeps_step : ∀ h d c r write,
  room d → keeps h d → transaction c d = Ok (r, write) → keeps (h ++ [(c, r)]) (default d write).

(** The disk is what the calls that succeeded made of it one after the other,
    and a callback about to write has seen the current disk. *)
Record serial_inv (w : system) (h : list (nat * R)) : Prop := {
  si_keeps : keeps h (sy_disk w);
  si_seen c i d : sy_calls w c = Committing i d → d = sy_disk w;
  si_nodup : NoDup h.*1;
  si_listed c r : (c, r) ∈ h → outcome_of (sy_calls w c) = Some (Ok r) ∨ sy_calls w c = Killed;
  si_outcome c r : outcome_of (sy_calls w c) = Some (Ok r) → (c, r) ∈ h;
}.

Lemma serial_inv_keep w w' h c :
  serial_inv w h → sy_disk w' = sy_disk w →
  (∀ c', c' ≠ c → sy_calls w' c' = sy_calls w c') → sy_calls w c ≠ Killed →
  (∀ r, outcome_of (sy_calls w' c) = Some (Ok r) ↔ outcome_of (sy_calls w c) = Some (Ok r)) →
  (∀ i d, sy_calls w' c = Committing i d → d = sy_disk w') →
  serial_inv w' h.
Proof.
  intros [Hser Hseen Hnd Hin Hout] Hd Hc Hk Ho Hcm.
  split; [by rewrite Hd| |done|..].
  - intros c' i d. destruct (decide (c' = c)) as [->|Hne]; [apply Hcm|].
    rewrite Hc, Hd by done. apply Hseen.
  - intros c' r Hh. destruct (decide (c' = c)) as [->|Hne]; [|rewrite Hc by done; by apply Hin].
    left. apply Ho. by destruct (Hin _ _ Hh).
  - intros c' r. destruct (decide (c' = c)) as [->|Hne]; [rewrite Ho|rewrite Hc by done]; apply Hout.
Qed.

(** The callback of [c] returned [r] and perhaps wrote. *)
Lemma serial_inv_commit w w' h c r write :
  room (sy_disk w) → serial_inv w h → transaction c (sy_disk w) = Ok (r, write) →
  sy_disk w' = default (sy_disk w) write →
  outcome_of (sy_calls w c) = None → sy_calls w c ≠ Killed →
  (∀ c', c' ≠ c → sy_calls w' c' = sy_calls w c') →
  outcome_of (sy_calls w' c) = Some (Ok r) →
  (∀ c' i d, sy_calls w' c' = Committing i d → c' ≠ c → d = sy_disk w') →
  serial_inv w' (h ++ [(c, r)]).
Proof.
  intros Hroom [Hser Hseen Hnd Hin Hout] Ht Hd Ho Hk Hc Ho' Hcm.
  assert (∀ r', (c, r') ∉ h) as Hnew by (intros r' [?|?]%Hin; congruence).
  split.
  - rewrite Hd. by apply keeps_step.
  - intros c' i d Hs. eapply Hcm; [done|]. intros ->. by rewrite Hs in Ho'.
  - rewrite fmap_app. apply NoDup_app. split_and!; [done| |apply NoDup_singleton].
    intros x ((y & r') & -> & Hx)%list_elem_of_fmap Hs%list_elem_of_singleton. simpl in Hs. subst y.
    by eapply Hnew.
  - intros c' r' [Hh|[= -> ->]%list_elem_of_singleton]%elem_of_app; [|by left].
    rewrite Hc; [by apply Hin|]. intros ->. by eapply Hnew.
  - intros c' r' Hr'. apply elem_of_app. destruct (decide (c' = c)) as [->|Hne].
    + right. rewrite Ho' in Hr'. injection Hr' as ->. by left.
    + left. apply Hout. by rewrite <- Hc.
Qed.

Lemma outcome_leave ino o : outcome_of (@leave D R ino o) = Some o.
Proof. by destruct ino. Qed.

Lemma quiet_outcomes w a :
  (∀ r, outcome_of (@next_attempt D R a) ≠ Some (Ok r)) ∧
  (∀ r, outcome_of (inspect w a) ≠ Some (Ok r)) ∧ (∀ r, outcome_of (judge_owner w a) ≠ Some (Ok r)) ∧
  (∀ i d, @next_attempt D R a ≠ Committing i d) ∧ (∀ i d, inspect w a ≠ Committing i d) ∧
  (∀ i d, judge_owner w a ≠ Committing i d).
Proof.
  unfold inspect, judge_owner, next_attempt, not_reclaimed. split_and!; intros; by repeat case_match.
Qed.

Lemma commit_step_serial w h c ok i seen :
  lock_inv w → all_locked w → room (sy_disk w) → serial_inv w h → sy_calls w c = Committing i seen →
  let '(d, o) := finish_transaction transaction w c ok seen in
  ∃ h', serial_inv (set_call c (leave i o) (set_disk d w)) h'.
Proof.
  intros Hl Hg Hroom Hinv Hs. pose proof (si_seen _ _ Hinv _ _ _ Hs) as ->.
  assert (∀ s d' c', c' ≠ c → sy_calls (set_call c s (set_disk d' w)) c' = sy_calls w c') as Hoth.
  { intros s d' c' Hne. simpl. by rewrite fn_lookup_insert_ne. }
  assert (∀ s d', sy_calls (set_call c s (set_disk d' w)) c = s) as Hself.
  { intros. simpl. by rewrite fn_lookup_insert. }
  assert (∀ c' j d', sy_calls w c' = Committing j d' → c' = c) as Honly.
  { intros c' j d' Hs'. destruct (Hg c) as [x Hx]; [by rewrite Hs|].
    destruct (Hg c') as [y Hy]; [by rewrite Hs'|].
    destruct (li_handle _ Hl _ _ Hx) as [H1 _], (li_handle _ Hl _ _ Hy) as [H2 _].
    eapply (li_unique _ Hl); [done|congruence]. }
  unfold finish_transaction. destruct (transaction c (sy_disk w)) as [[r [d|]]|e] eqn:Ht.
  2: { exists (h ++ [(c, r)]). eapply serial_inv_commit; rewrite ?Hs, ?Hself; try done; try apply Hoth.
       - apply outcome_leave.
       - intros c' j d' Hs' Hne. rewrite Hoth in Hs' by done. by apply Honly in Hs'. }
  1: destruct ok.
  { exists (h ++ [(c, r)]). eapply serial_inv_commit; rewrite ?Hs, ?Hself; try done; try apply Hoth.
    - apply outcome_leave.
    - intros c' j d' Hs' Hne. rewrite Hoth in Hs' by done. by apply Honly in Hs'. }
  all: exists h; eapply (serial_inv_keep _ _ _ c); rewrite ?Hs, ?Hself, ?outcome_leave; try done;
    try apply Hoth; intros; destruct i; simplify_eq/=.
Qed.

Lemma call_step_serial w c ok w' h :
  lock_inv w → all_locked w → room (sy_disk w) → serial_inv w h →
  call_step pid_of transaction w c ok = Some w' → ∃ h', serial_inv w' h'.
Proof.
  intros Hl Hg Hroom Hinv Hrun. unfold call_step in Hrun. destruct (sy_calls w c) as
    [a|i|i|i e|a|a|a|a u|hd|hd seen|i o|o|] eqn:Hs; try done.
  10: { pose proof (commit_step_serial w h c ok hd seen Hl Hg Hroom Hinv Hs) as Hc.
        destruct (finish_transaction transaction w c ok seen). by injection Hrun as <-. }
  all: exists h; eapply (serial_inv_keep _ _ _ c); rewrite ?Hs; try done.
  all: destruct (quiet_outcomes w a) as (Hq1 & Hq2 & Hq3 & Hq4 & Hq5 & Hq6) || idtac.
  all: repeat case_match; simplify_eq; simpl; rewrite ?fn_lookup_insert, ?outcome_leave; try done.
  all: try (intros c' Hne; by rewrite fn_lookup_insert_ne).
  all: try (intros r; split; [intros Hx; exfalso; naive_solver|done]).
  all: intros i' d' Hx; first [by destruct (Hq4 _ _ Hx)|by destruct (Hq5 _ _ Hx)|by destruct (Hq6 _ _ Hx)|by simplify_eq|by destruct hd; simplify_eq/=].
Qed.

(** Good executions: locks are young and calls in the callback hold one. *)
Definition orderly (w : system) : Prop := timely w ∧ all_locked w.

Lemma serial_reaches (good : system → Prop) d clock alive w :
  (∀ w, good w → orderly w ∧ room (sy_disk w)) → keeps [] d →
  reaches good (start d clock alive) w → lock_inv w ∧ ∃ h, serial_inv w h.
Proof.
  intros Hgood H0. revert w. apply reaches_ind_inv.
  - intros [[Ht _] _]%Hgood. split; [by eapply lock_inv_start, reaches_start|]. exists [].
    split; simpl; try done; [constructor|by intros c r ?%elem_of_nil].
  - intros w e w' [[Ht Hg] Hr]%Hgood [Hl [h Hinv]] He _. split; [by eapply lock_inv_step|].
    destruct e as [c ok|dt|pid]; simpl in He; [by eapply call_step_serial|..];
      injection He as <-; exists h; destruct Hinv as [H1 H2 H3 H4 H5]; split; try done.
    + intros c i d'. simpl. destruct (decide _); [done|apply H2].
    + intros c r Hin. simpl. destruct (decide _); [by right|by apply H4].
    + intros c r. simpl. destruct (decide _); [done|apply H5].
Qed.

(** The history behind a state reached: who is in it, and what it keeps. *)
Lemma history_reaches (good : system → Prop) d clock alive w :
  (∀ w, good w → orderly w ∧ room (sy_disk w)) → keeps [] d →
  reaches good (start d clock alive) w →
  ∃ h, keeps h (sy_disk w) ∧ NoDup h.*1 ∧
    (∀ c r, outcome_of (sy_calls w c) = Some (Ok r) → (c, r) ∈ h) ∧
    (∀ c r, (c, r) ∈ h → outcome_of (sy_calls w c) = Some (Ok r) ∨ sy_calls w c = Killed).
Proof.
  intros Hg H0 (_ & h & [H1 _ H2 H3 H4])%serial_reaches; [|done..]. exists h. by split_and!.
Qed.

End Serial.

(** C6: serializability.  While no lock gets as old as [LOCK_STALE_MS] and no
    call enters the callback without the lock, the manifest is at every moment
    what the calls that succeeded would have made of it one after the other in
    some order: a call that returned (or is about to return) a result is in
    that order exactly once and with that result, a call that threw is not. *)
Theorem callbacks_serialize d clock alive w :
  reaches orderly (start d clock alive) w →
  ∃ h, serial transaction d h (sy_disk w) ∧ NoDup h.*1 ∧
    (∀ c r, outcome_of (sy_calls w c) = Some (Ok r) → (c, r) ∈ h) ∧
    (∀ c r, (c, r) ∈ h → outcome_of (sy_calls w c) = Some (Ok r) ∨ sy_calls w c = Killed).
Proof.
  apply (history_reaches (serial transaction d) (λ _, True)); [|done|constructor].
  intros h d' c r write _. apply serial_snoc.
Qed.

End Safety.
