(* ===== verification/RepoLockRuns.v ===== *)
(** * Executions of the repository's lock

    A call of RepoLock.v ends after a bounded number of its own steps; and two
    executions, evaluated, in which the lock does not exclude. *)

From stdpp Require Import functions.
From S2P Require Import Prelude JsValue Numbers NumberText RepoModel RepoLock RepoLockSafety.

Section Runs.
Context {D R : Type}.
Variable pid_of : nat → Z.
Variable transaction : nat → D → result (R * option D).

Local Abbreviation system := (system D R).
Local Abbreviation run := (run pid_of transaction).

Implicit Types (w : system) (s : call_state D R).

(** ** Termination *)

(** How many more steps a call can take. *)
Definition rank s : nat :=
  match s with
  | Opening a => 5 * (LOCK_RETRIES - a) + 3
  | Inspecting a => 5 * (LOCK_RETRIES - a) + 2
  | ReadingOwner a => 5 * (LOCK_RETRIES - a) + 1
  | Renaming a | Sleeping a _ => 5 * (LOCK_RETRIES - a)
  | Writing _ => 5
  | Syncing _ => 4
  | Reading _ => 3
  | Committing _ _ => 2
  | Aborting _ _ | Releasing _ _ => 1
  | Finished _ | Killed => 0
  end.

(** The loop's counter stays below its bound. *)
Definition in_bounds s : Prop :=
  match s with
  | Opening a | Inspecting a | ReadingOwner a | Renaming a | Sleeping a _ => a < LOCK_RETRIES
  | _ => True
  end.

Definition ended s : bool :=
  match s with Finished _ | Killed => true | _ => false end.

Lemma next_attempt_rank a n :
  a < LOCK_RETRIES → 5 * (LOCK_RETRIES - a) ≤ n →
  rank (next_attempt a) < n ∧ in_bounds (next_attempt a).
Proof.
  unfold next_attempt. intros Ha Hn. destruct (S a <? LOCK_RETRIES) eqn:E; cbn [rank in_bounds].
  - apply Nat.ltb_lt in E. split; lia.
  - split; [lia|done].
Qed.

Lemma not_reclaimed_rank t a n :
  a < LOCK_RETRIES → 5 * (LOCK_RETRIES - a) < n →
  rank (not_reclaimed t a) < n ∧ in_bounds (not_reclaimed t a).
Proof. unfold not_reclaimed. intros Ha Hn. case_match; cbn [rank in_bounds]; [split; [lia|done]|done]. Qed.

Lemma leave_rank i o : rank (leave i o) ≤ 1 ∧ in_bounds (leave i o).
Proof. destruct i; cbn; auto. Qed.

Lemma call_step_rank w c ok w' :
  in_bounds (sy_calls w c) → call_step pid_of transaction w c ok = Some w' →
  rank (sy_calls w' c) < rank (sy_calls w c) ∧ in_bounds (sy_calls w' c).
Proof.
  unfold call_step, set_call, set_lock, set_disk. intros Hb Hrun.
  destruct (sy_calls w c) as
    [a|i|i|i e|a|a|a|a u|hd|hd seen|i o|o|] eqn:Hs; try done; cbn [in_bounds] in Hb.
  6: unfold judge_owner in Hrun. 5: unfold inspect in Hrun.
  10: destruct (finish_transaction transaction w c ok seen) as [d o]; destruct (leave_rank hd o).
  9: destruct (leave_rank hd (Throw (io_error "read_manifest"))).
  all: repeat case_match; simplify_eq; cbn [sy_calls]; rewrite ?fn_lookup_insert; try done.
  all: try (by apply next_attempt_rank; [done|cbn [rank]; lia]).
  all: try (by apply not_reclaimed_rank; [done|cbn [rank]; lia]).
  all: cbn [rank in_bounds]; split; (done || lia).
Qed.

(** The steps of call [c] in a list of events. *)
Definition is_step (c : nat) (e : event) : bool :=
  match e with Call c' _ => c' =? c | _ => false end.

Definition steps_of (c : nat) (es : list event) : nat := length (List.filter (is_step c) es).

Lemma run_cons w e es : run w (e :: es) = (w' ← exec pid_of transaction w e; run w' es).
Proof.
  unfold RepoLock.run. simpl. destruct (exec _ _ _ _) as [w'|]; [done|]. simpl.
  by induction es.
Qed.

Lemma exec_rank w e w' c :
  in_bounds (sy_calls w c) → exec pid_of transaction w e = Some w' →
  rank (sy_calls w' c) + (if is_step c e then 1 else 0) ≤ rank (sy_calls w c) ∧
  in_bounds (sy_calls w' c).
Proof.
  intros Hb He. destruct e as [c' ok|dt|pid]; simpl in He.
  - cbn [is_step]. destruct (c' =? c) eqn:E; [apply Nat.eqb_eq in E as ->|apply Nat.eqb_neq in E].
    + destruct (call_step_rank _ _ _ _ Hb He). split; [lia|done].
    + assert (sy_calls w' c = sy_calls w c) as ->; [|split; [lia|done]].
      unfold call_step, set_call, set_lock, set_disk in He.
      repeat case_match; simplify_eq; simpl; by rewrite ?fn_lookup_insert_ne.
  - injection He as <-. simpl. split; [lia|done].
  - injection He as <-. simpl. destruct (decide _); cbn; split; (done || lia).
Qed.

Lemma run_rank es : ∀ w w' c,
  in_bounds (sy_calls w c) → run w es = Some w' →
  rank (sy_calls w' c) + steps_of c es ≤ rank (sy_calls w c).
Proof.
  induction es as [|e es IH]; intros w w' c Hb Hrun; [injection Hrun as <-; cbn; lia|].
  rewrite run_cons in Hrun. destruct (exec _ _ w e) as [w1|] eqn:He; [|done].
  destruct (exec_rank _ _ _ c Hb He) as [Hr Hb1]. specialize (IH _ _ _ Hb1 Hrun).
  unfold steps_of in *. simpl. destruct (is_step c e); simpl; lia.
Qed.

(** C8: every call ends.  Whatever the other calls, the clock and the file
    system do, a call takes at most 603 steps of its own; and until it has
    returned, thrown or been killed it can always take its next step, at the
    latest when the clock reaches the end of its sleep. *)
Theorem calls_terminate d clock alive es w c :
  run (start d clock alive) es = Some w →
  steps_of c es ≤ 603 ∧
  (ended (sy_calls w c) = false → ∃ dt w', run w [Tick dt; Call c true] = Some w').
Proof.
  intros Hrun. split.
  - assert (in_bounds (sy_calls (start d clock alive) c)) as Hb by (cbn; unfold LOCK_RETRIES; lia).
    pose proof (run_rank _ _ _ c Hb Hrun) as Hr.
    assert (rank (sy_calls (start d clock alive) c) = 603) as E by done. lia.
  - intros He. set (dt := match sy_calls w c with
      | Sleeping _ u => Z.max 0 (u - sy_clock w) | _ => 0%Z end). exists dt.
    rewrite run_cons. cbn [exec mbind option_bind]. rewrite run_cons. cbn [exec].
    unfold call_step. cbn [sy_calls sy_clock sy_lock].
    destruct (sy_calls w c) eqn:Hs; try done; cbn [negb]; repeat case_match; try (eexists; done).
    exfalso. lia.
Qed.

(** ** Evaluated executions *)

Definition timelyb w : bool :=
  match sy_lock w with
  | Some (LockFile _ _ mtime) => (sy_clock w - mtime <? LOCK_STALE_MS)%Z
  | _ => true
  end.

(** [run], refusing states that are not [good]. *)
Fixpoint run_checked (good : system → bool) (w : system) (es : list event) : option system :=
  if good w then
    match es with
    | [] => Some w
    | e :: es => w' ← exec pid_of transaction w e; run_checked good w' es
    end
  else None.

Lemma run_checked_reaches (good : system → bool) es : ∀ w0 w w',
  (good w = true → reaches pid_of transaction good w0 w) → run_checked good w es = Some w' →
  reaches pid_of transaction good w0 w'.
Proof.
  induction es as [|e es IH]; intros w0 w w' Hw; simpl.
  - destruct (good w); [|done]. intros [= <-]. auto.
  - destruct (good w) eqn:Hg; [|done]. destruct (exec _ _ w e) as [w1|] eqn:He; [|done].
    intros Hrun. eapply IH; [|done]. intros Hg1. eapply reaches_step; eauto.
Qed.

Lemma run_timely w es w' :
  run_checked timelyb w es = Some w' → reaches pid_of transaction timely w w'.
Proof.
  intros Hrun. eapply (reaches_weaken _ _ (λ w, timelyb w)).
  - intros x Hx. unfold timely, timelyb in *. destruct (sy_lock x) as [[]|]; try done.
    by apply Is_true_eq_true, Z.ltb_lt in Hx.
  - eapply run_checked_reaches; [|done]. intros Hg. constructor. by rewrite Hg.
Qed.

(** Executions of the calls below [n] only, checked: the others stay where they
    started. *)
Definition lockedb (n : nat) w : bool :=
  forallb (λ c, negb (in_callback (sy_calls w c)) || bool_decide (is_Some (handle_of (sy_calls w c))))
    (seq 0 n).

Definition orderlyb (n : nat) w : bool := timelyb w && lockedb n w.

Definition only_calls (n : nat) (es : list event) : bool :=
  forallb (λ e, match e with Call c _ => c <? n | Tick _ => true | Crash _ => false end) es.

Definition untouched (n : nat) w : Prop := ∀ c, n ≤ c → sy_calls w c = Opening 0.

Lemma exec_untouched n w e w' :
  only_calls n [e] = true → untouched n w → exec pid_of transaction w e = Some w' → untouched n w'.
Proof.
  intros He Hu Hrun c Hc. destruct e as [c' ok|dt|pid]; [|injection Hrun as <-; by apply Hu|done].
  assert (c' <> c) as Hne by (cbn in He; rewrite andb_true_r in He; apply Nat.ltb_lt in He; lia).
  rewrite <- (Hu c Hc). cbn in Hrun. unfold call_step, set_call, set_lock, set_disk in Hrun.
  repeat case_match; simplify_eq; simpl; by rewrite ?fn_lookup_insert_ne.
Qed.

Lemma orderlyb_spec n w : untouched n w → orderlyb n w = true → orderly w.
Proof.
  unfold orderlyb, timelyb, lockedb. intros Hu [Ht Hl]%andb_true_iff. split.
  - unfold timely. destruct (sy_lock w) as [[]|]; try done. by apply Z.ltb_lt.
  - intros c Hc. destruct (decide (c < n)) as [Hlt|Hge]; [|rewrite Hu in Hc by lia; done].
    rewrite forallb_forall in Hl. specialize (Hl c). rewrite Hc in Hl. cbn in Hl.
    eapply bool_decide_eq_true_1. apply Hl, in_seq. lia.
Qed.

Definition run_orderly_checked (n : nat) (good : system → bool) : system → list event → option system :=
  run_checked (λ w, orderlyb n w && good w).

Lemma run_orderly n (good : system → bool) es : ∀ w0 w w',
  only_calls n es = true → untouched n w →
  (orderly w → good w = true → reaches pid_of transaction (λ w, orderly w ∧ good w = true) w0 w) →
  run_orderly_checked n good w es = Some w' →
  reaches pid_of transaction (λ w, orderly w ∧ good w = true) w0 w'.
Proof.
  unfold run_orderly_checked.
  induction es as [|e es IH]; intros w0 w w' Hn Hu Hw; cbn [run_checked].
  - destruct (orderlyb n w) eqn:Ho; [|done]. destruct (good w) eqn:Hg; [|done]. intros [= <-].
    apply Hw; [by eapply orderlyb_spec|done].
  - destruct (orderlyb n w) eqn:Ho; [|done]. destruct (good w) eqn:Hg; [|done]. cbn [andb].
    destruct (exec _ _ w e) as [w1|] eqn:He; [|done]. cbn [mbind option_bind]. intros Hrun.
    cbn [only_calls forallb] in Hn. apply andb_true_iff in Hn as [Hn1 Hn2].
    eapply (IH w0 w1); [done| | |exact Hrun].
    + eapply exec_untouched; [|done..]. unfold only_calls. cbn [forallb]. by rewrite Hn1.
    + intros Ho1 Hg1. eapply reaches_step; [|done|done]. apply Hw; [by eapply orderlyb_spec|done].
Qed.

End Runs.

(** ** A lock that is not one *)

(** A transaction that counts: it returns what it read and writes the next
    number. *)
Definition count_up (c : nat) (n : Z) : result (Z * option Z) := Ok (n, Some (n + 1)%Z).

Definition steps (c n : nat) : list event := repeat (Call c true) n.

(** Call 0 holds the lock while call 1 uses up 119 attempts; call 0 releases
    it between the last [open] of call 1 and its [lstat]; call 2 takes it. *)
Definition exhausted_retries : list event :=
  steps 0 4 ++ concat (repeat [Call 1 true; Call 1 true; Tick 25; Call 1 true] 119) ++
  steps 1 1 ++ steps 0 2 ++ steps 1 1 ++ steps 2 4 ++ steps 1 1.

Definition pids (c : nat) : Z := Z.of_nat c + 100.

Definition all_pids : gset Z := {[100; 101; 102]}%Z.

Definition both_in (w : system Z Z) (c1 c2 : nat) : bool :=
  in_callback (sy_calls w c1) && in_callback (sy_calls w c2).

(** The three counts read 0, 1 and 1, and the file says 2. *)
Definition update_lost (w : system Z Z) : bool :=
  match sy_calls w 0, sy_calls w 1, sy_calls w 2 with
  | Finished (Ok 0), Finished (Ok 1), Finished (Ok 1) => (sy_disk w =? 2)
  | _, _, _ => false
  end%Z.

Lemma update_lost_spec w : update_lost w = true →
  sy_calls w 0 = Finished (Ok 0%Z) ∧ sy_calls w 1 = Finished (Ok 1%Z) ∧
  sy_calls w 2 = Finished (Ok 1%Z) ∧ sy_disk w = 2%Z.
Proof.
  unfold update_lost. intros H. repeat (case_match; try done). apply Z.eqb_eq in H. by split_and!.
Qed.

Lemma exhausted_retries_run :
  match run_checked pids count_up timelyb (start 0%Z 0%Z all_pids) exhausted_retries with
  | Some w => both_in w 1 2 && negb (bool_decide (is_Some (handle_of (sy_calls w 1)))) &&
      match run pids count_up w (steps 1 1 ++ steps 2 2) with
      | Some w' => update_lost w'
      | None => false
      end
  | None => false
  end = true.
Proof. vm_compute. done. Qed.

(** P: the lock's loop can end without the lock.  When the lock disappears
    between the [open] and the [lstat] of the last of the 120 attempts,
    [continue] ends the loop and the callback runs although no lock was taken.
    So, with young locks, live processes and no failing operation, two calls
    can be in the callback at once: three calls that each add one and succeed
    leave the file at two. *)
Theorem exhausted_call_runs_unlocked :
  ∃ w w', reaches pids count_up timely (start 0%Z 0%Z all_pids) w ∧
    in_callback (sy_calls w 1) = true ∧ handle_of (sy_calls w 1) = None ∧
    in_callback (sy_calls w 2) = true ∧
    run pids count_up w (steps 1 1 ++ steps 2 2) = Some w' ∧
    sy_calls w' 0 = Finished (Ok 0%Z) ∧ sy_calls w' 1 = Finished (Ok 1%Z) ∧
    sy_calls w' 2 = Finished (Ok 1%Z) ∧ sy_disk w' = 2%Z.
Proof.
  pose proof exhausted_retries_run as H.
  destruct (run_checked _ _ _ _ exhausted_retries) as [w|] eqn:Hw; [|done].
  apply andb_true_iff in H as [H Hl]. apply andb_true_iff in H as [H Hn].
  apply andb_true_iff in H as [H1 H2].
  destruct (run _ _ w _) as [w'|] eqn:Hw'; [|done]. exists w, w'.
  split; [by eapply run_timely|]. rewrite negb_true_iff, bool_decide_eq_false in Hn.
  apply eq_None_not_Some in Hn. apply update_lost_spec in Hl.
  split; [exact H1|]. split; [exact Hn|]. split; [exact H2|]. split; [exact Hw'|exact Hl].
Qed.

(** ** Reclaiming a stale lock *)

(** Process 100 dies with the lock.  A minute later calls 1 and 2 both find
    the lock stale and its owner dead; call 1 reclaims it and takes a new one,
    which call 2 then renames away. *)
Definition racing_reclaims : list event :=
  steps 0 3 ++ [Crash 100; Tick LOCK_STALE_MS] ++ steps 1 3 ++ steps 2 3 ++ steps 1 4 ++ steps 2 4.

Lemma racing_reclaims_run :
  match run pids count_up (start 0%Z 0%Z all_pids) racing_reclaims with
  | Some w => match sy_calls w 1, sy_calls w 2 with
              | Reading (Some 1), Reading (Some 2) => true
              | _, _ => false
              end
  | None => false
  end = true.
Proof. vm_compute. done. Qed.

(** P: reclaiming is not atomic: after a crash two calls can both be in the
    callback, each with a handle to a lock it took. *)
Theorem racing_reclaims_both_enter :
  ∃ w, run pids count_up (start 0%Z 0%Z all_pids) racing_reclaims = Some w ∧
    sy_calls w 1 = Reading (Some 1) ∧ sy_calls w 2 = Reading (Some 2).
Proof.
  pose proof racing_reclaims_run as H. destruct (run _ _ _ _) as [w|]; [|done].
  exists w. split; [reflexivity|]. by repeat (case_match; try done).
Qed.

(** ** Witnesses *)

Definition first_in : option (system Z Z) :=
  run_checked pids count_up timelyb (start 0%Z 0%Z all_pids) (steps 0 3).

Definition holds_first (w : system Z Z) : bool :=
  match sy_calls w 0 with Reading (Some 0) => true | _ => false end.

Lemma first_in_run : match first_in with Some w => holds_first w | None => false end = true.
Proof. vm_compute. reflexivity. Qed.

Lemma holds_first_spec w :
  holds_first w = true → in_callback (sy_calls w 0) = true ∧ handle_of (sy_calls w 0) = Some 0.
Proof. unfold holds_first. intros H. by repeat (case_match; try done). Qed.

Lemma lock_excludes_witness :
  match first_in with
  | Some w => handle_of (sy_calls w 0) = Some 0 ∧
      ∃ text mtime, sy_lock w = Some (LockFile 0 text mtime)
  | None => False
  end.
Proof.
  pose proof first_in_run as Hf. destruct first_in as [w|] eqn:Hw; [|discriminate Hf].
  apply holds_first_spec in Hf as [Hin Hh]. split; [exact Hh|].
  refine (proj2 (lock_excludes pids count_up 0%Z 0%Z all_pids w 0 0 0 0 _ Hin Hh Hin Hh)).
  exact (run_timely _ _ _ _ _ Hw).
Defined.

(** Call 1 finds the lock of call 0, waits, and takes it after the release. *)
Definition two_in_turn : list event :=
  steps 0 4 ++ steps 1 2 ++ steps 0 2 ++ [Tick 25] ++ steps 1 1 ++ steps 1 6.

Abbreviation two_done :=
  (run_orderly_checked pids count_up 2 (λ _, true) (start 0%Z 0%Z all_pids) two_in_turn).

Definition counted_two (w : system Z Z) : bool :=
  match sy_calls w 0, sy_calls w 1 with
  | Finished (Ok 0), Finished (Ok 1) => (sy_disk w =? 2)
  | _, _ => false
  end%Z.

Lemma two_done_run :
  match two_done, run pids count_up (start 0%Z 0%Z all_pids) two_in_turn with
  | Some w, Some _ => counted_two w
  | _, _ => false
  end = true.
Proof. vm_compute. reflexivity. Qed.

Lemma counted_two_spec w : counted_two w = true →
  sy_disk w = 2%Z ∧ outcome_of (sy_calls w 0) = Some (Ok 0%Z) ∧
  outcome_of (sy_calls w 1) = Some (Ok 1%Z).
Proof.
  unfold counted_two. intros H. repeat (case_match; try done). apply Z.eqb_eq in H. by split_and!.
Qed.

Lemma two_done_orderly w : two_done = Some w →
  reaches pids count_up orderly (start 0%Z 0%Z all_pids) w.
Proof.
  intros Hw.
  assert (reaches pids count_up (λ w, orderly w ∧ true = true) (start 0%Z 0%Z all_pids) w) as Hr.
  { refine (run_orderly pids count_up 2 (λ _, true) two_in_turn (start 0%Z 0%Z all_pids) _ w eq_refl _ _ Hw).
    - clear Hw. done.
    - clear Hw. intros Ho _. apply reaches_start. by split. }
  revert Hr. apply reaches_weaken. by intros x [? _].
Qed.

Lemma callbacks_serialize_witness :
  match two_done with
  | Some w => sy_disk w = 2%Z ∧ ∃ h, serial count_up 0%Z h (sy_disk w) ∧ (0, 0%Z) ∈ h ∧ (1, 1%Z) ∈ h
  | None => False
  end.
Proof.
  pose proof two_done_run as Hf. destruct two_done as [w|] eqn:Hw; [|discriminate Hf].
  destruct (run _ _ _ _); [|discriminate Hf].
  apply counted_two_spec in Hf as (Hd & H0 & H1). split; [exact Hd|].
  destruct (callbacks_serialize pids count_up 0%Z 0%Z all_pids w (two_done_orderly w Hw))
    as (h & Hh & _ & Hin & _).
  exists h. split; [exact Hh|]. split; [apply Hin, H0|apply Hin, H1].
Defined.

Lemma calls_terminate_witness :
  match run pids count_up (start 0%Z 0%Z all_pids) two_in_turn with
  | Some w => steps_of 1 two_in_turn ≤ 603
  | None => False
  end.
Proof.
  pose proof two_done_run as Hf. destruct two_done; [|discriminate Hf].
  destruct (run _ _ _ two_in_turn) as [w|] eqn:Hrun; [|discriminate Hf].
  exact (proj1 (calls_terminate pids count_up 0%Z 0%Z all_pids two_in_turn w 1 Hrun)).
Defined.
