(* ===== verification/RepoConcurrent.v ===== *)
(** * Concurrent appends and invalidations

    The lock of RepoLock.v around the transactions of Repository.v: calls of
    [appendProjectResearchArtifacts] and
    [invalidateProjectResearchArtifactDescendants], of one or several
    processes, on one repository. *)

From stdpp Require Import functions.
From S2P Require Import Prelude Host JsValue Digraph ArtifactTypes Samples ArtifactGraph RepoModel RepoEvents Repository RepoJson RepoLog RepoSound RepoValid RepoCommit RepoTransactions RepoOperations RepoProperties RepoQueries RepoLock RepoLockSafety RepoLockRuns.

(** What a caller asked for, after the checks made before the lock. *)
Inductive repo_call :=
  | AppendCall (supplied : list artifact_envelope) (expected : option Z) (now : Z) (uuid : string)
  | InvalidateCall (roots : list artifact_ref) (reason : invalidation_reason)
      (expected : option Z) (now : Z).

Definition repo_result : Type := append_result + invalidate_result.

Definition persisted (r : repo_result) : bool :=
  match r with inl a => ar_persisted a | inr i => ir_persisted i end.

(** The references a result reports as appended. *)
Definition appended_keys (r : repo_result) : list string :=
  match r with inl a => refKey <$> ar_appendedRefs a | inr _ => [] end.

(** The directories exist: they were made before the lock was taken. *)
Definition tree_of (file : manifest_file) : project_tree :=
  mkTree Directory Directory Directory Directory file.

Section Concurrent.
Context `{Hhost : Host} `{!HostLaws Hhost}.
Variable pid_of : nat → Z.
Variable calls : nat → repo_call.

(** The callbacks passed to [withRepositoryLock]. *)
Definition repo_transaction (c : nat) (file : manifest_file) :
  result (repo_result * option manifest_file) :=
  match calls c with
  | AppendCall supplied expected now uuid =>
      '(r, tree) ← append_transaction supplied expected now uuid (tree_of file);
      mret (inl r, if ar_persisted r then Some (t_manifest tree) else None)
  | InvalidateCall roots reason expected now =>
      '(r, tree) ← invalidate_transaction roots reason expected now (tree_of file);
      mret (inr r, if ir_persisted r then Some (t_manifest tree) else None)
  end.

(** The arguments passed the checks made before the lock. *)
Definition checked_call (call : repo_call) : Prop :=
  match call with
  | AppendCall supplied _ now uuid =>
      (∃ raw, normalizeSuppliedArtifacts raw = Ok supplied) ∧ is_time_value now = true ∧
      uuid_ok uuid
  | InvalidateCall roots _ _ now => wf_roots roots ∧ is_time_value now = true
  end.

(** What one transaction does to the file: nothing, or one valid manifest with
    the next revision and the new artifacts at its end. *)
Definition transaction_effect (file : manifest_file) (r : repo_result)
  (write : option manifest_file) : Prop :=
  (write = None ∧ persisted r = false ∧ appended_keys r = []) ∨
  (∃ base m next, persisted r = true ∧ write = Some (JsonFile (manifest_to_json m)) ∧
    valid_manifest m ∧ valid_manifest base ∧
    (readManifest (tree_of file) = Ok (Some base) ∧ next = (m_revision base + 1)%Z ∨
     readManifest (tree_of file) = Ok None ∧ m_artifacts base = [] ∧ next = 1%Z) ∧
    m_revision m = next ∧ ∃ added, m_artifacts m = m_artifacts base ++ added ∧
    appended_keys r ≡ₚ keys_of added).

Lemma appended_keys_perm (added : list artifact_envelope) :
  refKey <$> sortRefs (toResearchArtifactRef <$> added) ≡ₚ keys_of added.
Proof.
  unfold sortRefs. rewrite js_sort_perm. rewrite <- list_fmap_compose. unfold keys_of.
  by apply reflexive_eq, list_fmap_ext.
Qed.

Lemma append_effect supplied expected now uuid file r tree' :
  checked_call (AppendCall supplied expected now uuid) → revision_room (tree_of file) →
  append_transaction supplied expected now uuid (tree_of file) = Ok (r, tree') →
  transaction_effect file (inl r) (if ar_persisted r then Some (t_manifest tree') else None).
Proof.
  intros ((raw & Hraw) & Hnow & Huuid) Hroom Hrun.
  apply normalizeSupplied_Ok in Hraw as [Hwf Hnd].
  apply append_transaction_Ok in Hrun
    as (base & next & Hstart & Hvalid & _ & _ & [(_ & _ & Hp & _ & Ha)|(_ & Hp & m & Hc & Hv & Ht & _ & Ha & _)]);
    [| |done..]; rewrite Hp; cbn.
  - left. cbn. by rewrite Ha.
  - right. exists base, m, next. cbn. rewrite Ht. split_and!; [done..| |apply Hc|].
    + destruct Hstart as [[H1 H2]|(H1 & H2 & H3)]; [by left|right].
      destruct (empty_valid _ _ _ Huuid Hnow H2) as (_ & Hnil & _). by split_and!.
    + exists (new_artifacts base supplied). split; [apply Hc|]. rewrite Ha. apply appended_keys_perm.
Qed.
Lemma invalidate_effect roots reason expected now file r tree' :
  checked_call (InvalidateCall roots reason expected now) → revision_room (tree_of file) →
  invalidate_transaction roots reason expected now (tree_of file) = Ok (r, tree') →
  transaction_effect file (inr r) (if ir_persisted r then Some (t_manifest tree') else None).
Proof.
  intros ((_ & Hwf & Huniq) & Hnow) Hroom Hrun. unfold invalidate_transaction in Hrun.
  apply bind_Ok in Hrun as ([m0|] & Hm0 & Hrun); [|by inv_result].
  apply bind_Ok in Hrun as (x & [= <-] & Hrun).
  pose proof (readManifest_valid _ _ Hm0) as Hv. inv_result.
  rename r1 into graph, r3 into states. destruct r4 as [log staleRefs]. cbn [fst snd] in Hrun.
  pose proof (resolved_roots _ _ _ Hwf Hr1) as Hres.
  pose proof (validate_graph_Ok _ _ Hr0) as ((Hnd & _) & _ & Hg).
  destruct staleRefs as [|ref0 refs0]; [by inv_result; left|].
  inv_result. right. unfold assertTransactionTime in *.
  match goal with Hseal : sealManifest _ = Ok ?m |- _ => rename m into m1, Hseal into Hm1 end.
  match goal with Hw : writeManifestAtomically _ _ = Ok _ |- _ =>
    apply write_Ok in Hw as [-> Hlen] end.
  pose proof (sealed_Ok _ _ Hm1) as [Em _]. cbn in Em.
  assert (m_updatedAt m0 ≤ now)%Z as Hle.
  { match goal with Ht : ensure _ _ = Ok _ |- _ => apply ensure_Ok, Z.leb_le in Ht; exact Ht end. }
  pose proof (stored_log_sound _ _ _ _ Hv Hle Hr2) as Hsound.
  assert (Forall wf_content (m_artifacts m0)) as Hwfc
    by (eapply Forall_impl; [apply (vm_artifacts _ Hv)|by intros a [? _]]).
  apply (precise_invalidation_spec _ graph now Hnd Hg Hwfc Hnow) in Hr3
    as (Hs' & _); [|done|done|by apply wf_roots_NoDup].
  exists m0, m1, (m_revision m0 + 1)%Z. cbn. split_and!; [done|done| |done|by left|by rewrite Em|].
  - eapply (invalidate_commit_valid m0 graph log now); try done; [by apply Hroom|].
    rewrite Em in Hlen. exact Hlen.
  - exists []. rewrite app_nil_r. by rewrite Em.
Qed.

Lemma transaction_Ok c file r write :
  checked_call (calls c) → revision_room (tree_of file) →
  repo_transaction c file = Ok (r, write) → transaction_effect file r write.
Proof.
  unfold repo_transaction. intros Hc Hroom Hrun. destruct (calls c).
  - apply bind_Ok in Hrun as ([a tree'] & Ha & Hrun). apply Ok_inj, pair_equal_spec in Hrun as [<- <-].
    by eapply append_effect.
  - apply bind_Ok in Hrun as ([i tree'] & Hi & Hrun). apply Ok_inj, pair_equal_spec in Hrun as [<- <-].
    by eapply invalidate_effect.
Qed.

(** ** Nothing committed is lost *)

(** How many results of a history are commits, and the keys they appended. *)
Definition commits (h : list (nat * repo_result)) : Z :=
  Z.of_nat (length (List.filter (λ x, persisted x.2) h)).

Definition history_keys (h : list (nat * repo_result)) : list string :=
  concat ((λ x, appended_keys x.2) <$> h).

Definition stored (file : manifest_file) (k : string) : Prop :=
  ∃ m, readManifest (tree_of file) = Ok (Some m) ∧ k ∈ keys_of (m_artifacts m).

Definition nothing_lost (n0 : Z) (h : list (nat * repo_result)) (file : manifest_file) : Prop :=
  current_revision (tree_of file) (n0 + commits h)%Z ∧ NoDup (history_keys h) ∧
  ∀ k, k ∈ history_keys h → stored file k.

Lemma current_revision_unique tree n n' :
  current_revision tree n → current_revision tree n' → n = n'.
Proof. intros [(m & H1 & ->)|[H1 ->]] [(m' & H2 & ->)|[H2 ->]]; congruence. Qed.

Lemma nothing_lost_step n0 h file c r write :
  checked_call (calls c) → revision_room (tree_of file) → nothing_lost n0 h file →
  repo_transaction c file = Ok (r, write) →
  nothing_lost n0 (h ++ [(c, r)]) (default file write).
Proof.
  intros Hc Hroom (Hrev & Hnd & Hst) Hrun. apply transaction_Ok in Hrun; [|done..].
  assert (history_keys (h ++ [(c, r)]) = history_keys h ++ appended_keys r) as Hkeys.
  { unfold history_keys. rewrite fmap_app, concat_app. cbn. by rewrite app_nil_r. }
  assert (commits (h ++ [(c, r)]) = commits h + if persisted r then 1 else 0)%Z as Hcommits.
  { unfold commits. rewrite List.filter_app, length_app. cbn. destruct (persisted r); cbn; lia. }
  unfold nothing_lost. rewrite Hkeys, Hcommits.
  destruct Hrun as [(-> & Hp & Ha)|(base & m & next & Hp & -> & Hv & Hvb & Hbase & Hm & added & Harts & Ha)];
    rewrite Hp.
  - rewrite Ha, app_nil_r, Z.add_0_r. done.
  - cbn [default]. assert (readManifest (tree_of (JsonFile (manifest_to_json m))) = Ok (Some m)) as Hread
      by by apply read_written.
    assert (∀ k, k ∈ history_keys h → k ∈ keys_of (m_artifacts base)) as Hold.
    { intros k (m' & Hm' & Hk)%Hst. destruct Hbase as [[Hb _]|(Hb & _)]; congruence. }
    pose proof (valid_keys _ Hv) as Hndm. rewrite Harts in Hndm. unfold keys_of in Hndm.
    rewrite fmap_app in Hndm. apply NoDup_app in Hndm as (_ & Hdis & Hnda). split_and!.
    + left. exists m. split; [done|]. rewrite Hm.
      destruct Hbase as [[Hb ->]|(Hb & _ & ->)].
      * pose proof (current_revision_unique _ _ (m_revision base) Hrev) as E.
        rewrite <- E; [lia|left; by exists base].
      * pose proof (current_revision_unique _ _ 0%Z Hrev) as E.
        rewrite Z.add_assoc, E; [lia|by right].
    + apply NoDup_app. split_and!; [done| |by rewrite Ha]. intros k Hk. rewrite Ha. by apply Hdis, Hold.
    + intros k [Hk|Hk]%elem_of_app; exists m; (split; [done|]); rewrite Harts; unfold keys_of;
        rewrite fmap_app; apply elem_of_app; [left; by apply Hold|right]. by rewrite Ha in Hk.
Qed.

(** C5: concurrent calls lose nothing.  Any number of appends and
    invalidations run at the same time on one repository, in one process or
    several, with failing file operations and dying processes.  As long as no
    lock gets old and nobody runs without it, the calls that succeeded are
    ordered so that the repository's revision is the number of commits past
    the one it started from, every artifact a call reported as appended was
    reported by that call alone, and all of them are in the manifest that the
    next load reads. *)
Theorem concurrent_calls_lose_nothing n0 file clock alive w :
  (∀ c, checked_call (calls c)) → current_revision (tree_of file) n0 →
  reaches pid_of repo_transaction (λ w, orderly w ∧ revision_room (tree_of (sy_disk w)))
    (start file clock alive) w →
  ∃ h, NoDup h.*1 ∧
    (∀ c r, outcome_of (sy_calls w c) = Some (Ok r) → (c, r) ∈ h) ∧
    (∀ c r, (c, r) ∈ h → outcome_of (sy_calls w c) = Some (Ok r) ∨ sy_calls w c = Killed) ∧
    nothing_lost n0 h (sy_disk w).
Proof.
  intros Hcalls Hn0 Hw.
  eapply (history_reaches pid_of repo_transaction (nothing_lost n0)
    (λ file, revision_room (tree_of file))) in Hw as (h & H1 & H2 & H3 & H4).
  - by exists h.
  - intros h d c r write Hroom Hinv. by apply nothing_lost_step.
  - done.
  - split_and!; [|constructor|by intros k ?%elem_of_nil]. by rewrite Z.add_0_r.
Qed.
End Concurrent.

(** ** Two appends at once *)

Definition supplied_of (raw : jsval) : list artifact_envelope :=
  match raw with
  | JArr l => match normalizeSuppliedArtifacts l with Ok s => s | Throw _ => [] end
  | _ => []
  end.

Definition supplied_1 : list artifact_envelope := Eval vm_compute in supplied_of sample_supply.
Definition supplied_2 : list artifact_envelope := Eval vm_compute in supplied_of sample_supply_2.

(** Call 0 makes the repository; the others add a second revision of the
    evidence. *)
Definition sample_calls (c : nat) : repo_call :=
  if c =? 0 then AppendCall supplied_1 (Some 0%Z) 5000 "u" else AppendCall supplied_2 None 6000 "u".

Lemma sample_calls_checked c : checked_call (sample_calls c).
Proof.
  unfold sample_calls. destruct (c =? 0); (split; [|by split]).
  - exists (map envelope_to_json sample_artifacts). vm_compute. reflexivity.
  - exists [envelope_to_json sample_evidence_2]. vm_compute. reflexivity.
Qed.

Definition room_left (w : system manifest_file repo_result) : bool := has_room (tree_of (sy_disk w)).

(** [two_in_turn]: call 1 finds the lock taken and waits for call 0. *)
Abbreviation two_appends :=
  (run_orderly_checked pids (repo_transaction sample_calls) 2 room_left
     (start NoManifest 0%Z all_pids) two_in_turn).

Definition both_appended (w : system manifest_file repo_result) : bool :=
  match sy_calls w 0, sy_calls w 1 with
  | Finished (Ok r), Finished (Ok r') =>
      bool_decide ("ev@1" ∈ appended_keys r) && bool_decide ("ev@2" ∈ appended_keys r')
  | _, _ => false
  end.

Lemma two_appends_run :
  match two_appends with Some w => both_appended w | None => false end = true.
Proof. vm_compute. reflexivity. Qed.

Lemma both_appended_spec w : both_appended w = true →
  ∃ r r', outcome_of (sy_calls w 0) = Some (Ok r) ∧ outcome_of (sy_calls w 1) = Some (Ok r') ∧
    "ev@1" ∈ appended_keys r ∧ "ev@2" ∈ appended_keys r'.
Proof.
  unfold both_appended. intros H. repeat (case_match; try done).
  apply andb_true_iff in H as [?%bool_decide_eq_true ?%bool_decide_eq_true]. by do 2 eexists.
Qed.

Lemma two_appends_orderly w : two_appends = Some w →
  reaches pids (repo_transaction sample_calls) (λ w, orderly w ∧ revision_room (tree_of (sy_disk w)))
    (start NoManifest 0%Z all_pids) w.
Proof.
  intros Hw.
  assert (reaches pids (repo_transaction sample_calls) (λ w, orderly w ∧ room_left w = true)
    (start NoManifest 0%Z all_pids) w) as Hr.
  { pose proof (run_orderly pids (repo_transaction sample_calls) 2 room_left two_in_turn
      (start NoManifest 0%Z all_pids) (start NoManifest 0%Z all_pids) w eq_refl
      (λ c _, eq_refl)) as Hrun.
    apply Hrun; [|exact Hw]. intros Ho Hroom. apply reaches_start. exact (conj Ho Hroom). }
  revert Hr. apply reaches_weaken. intros x [Ho Hr]. split; [exact Ho|]. by apply has_room_ok.
Qed.

Lemma history_key_elem h x k : x ∈ h → k ∈ appended_keys x.2 → k ∈ history_keys h.
Proof.
  intros Hr Hk. unfold history_keys. induction Hr as [|x h Hr IH]; cbn; apply elem_of_app; auto.
Qed.

Lemma concurrent_calls_lose_nothing_witness :
  match two_appends with
  | Some w => stored (sy_disk w) "ev@1" ∧ stored (sy_disk w) "ev@2"
  | None => False
  end.
Proof.
  pose proof two_appends_run as Hf. destruct two_appends as [w|] eqn:Hw; [|discriminate Hf].
  apply both_appended_spec in Hf as (r & r' & H0 & H1 & Hk & Hk').
  destruct (concurrent_calls_lose_nothing pids sample_calls 0%Z NoManifest 0%Z all_pids w
    sample_calls_checked) as (h & _ & Hin & _ & (_ & _ & Hst)).
  - right. split; reflexivity.
  - exact (two_appends_orderly w Hw).
  - split; apply Hst; eapply history_key_elem; [apply Hin, H0|exact Hk|apply Hin, H1|exact Hk'].
Defined.
