(* ===== verification/Text.v ===== *)
(** * String operations of the language

    [String.prototype.split] with a one-character separator, [endsWith],
    [toLowerCase] and [replace] of single characters, as the permission and
    settings code uses them, with the split/join round trips. *)

From S2P Require Import Prelude.

(** ** Operations *)

(** [s.split(c)]: never empty, [""] splits to [[""]]. *)
Fixpoint str_split (c : ascii) (s : string) : list string :=
  match s with
  | EmptyString => [""]
  | String d s =>
      if Ascii.eqb c d then "" :: str_split c s
      else match str_split c s with
           | h :: t => String d h :: t
           | [] => [String d ""]
           end
  end.

Fixpoint str_map (f : ascii → ascii) (s : string) : string :=
  match s with
  | EmptyString => EmptyString
  | String c s => String (f c) (str_map f s)
  end.

(** [s.toLowerCase()] on code units below 256: A-Z and the Latin-1 capitals. *)
Definition lower_char (c : ascii) : ascii :=
  if is_upper c || (in_range 192 222 c && negb (code_unit c =? 215)%N)
  then ascii_of_N (code_unit c + 32) else c.

Definition to_lower : string → string := str_map lower_char.

(** [s.endsWith(suffix)]. *)
Definition ends_with (suffix s : string) : bool :=
  let n := String.length s in let k := String.length suffix in
  (k <=? n)%nat && bool_decide (str_slice (n - k) n s = suffix).

(** The number of occurrences of a character. *)
Fixpoint str_count (c : ascii) (s : string) : nat :=
  match s with
  | EmptyString => 0
  | String d s => (if Ascii.eqb c d then 1 else 0) + str_count c s
  end.

Definition char_str (c : ascii) : string := String c EmptyString.

(** ** Lemmas *)

Lemma str_split_not_nil c s : str_split c s ≠ [].
Proof.
  destruct s as [|d s]; cbn [str_split]; [done|].
  destruct (Ascii.eqb c d); [done|]. by destruct (str_split c s).
Qed.

Lemma str_join_cons sep x l :
  l ≠ [] → str_join sep (x :: l) = x +:+ sep +:+ str_join sep l.
Proof. by destruct l. Qed.

(** Joining the parts gives the string back. *)
Lemma str_join_split c s : str_join (char_str c) (str_split c s) = s.
Proof.
  induction s as [|d s IH]; [done|]. cbn [str_split].
  destruct (Ascii.eqb c d) eqn:E.
  - apply Ascii.eqb_eq in E as <-.
    rewrite str_join_cons by apply str_split_not_nil. by rewrite IH.
  - pose proof (str_split_not_nil c s) as Hne.
    destruct (str_split c s) as [|h t]; [done|]. rewrite <- IH.
    by destruct t.
Qed.

Lemma str_has_char_append c s t :
  str_has_char c (s +:+ t) = str_has_char c s || str_has_char c t.
Proof.
  induction s as [|d s IH]; [done|]. rewrite append_cons. cbn [str_has_char].
  by rewrite IH, orb_assoc.
Qed.

Lemma str_split_no_sep c s : Forall (λ x, str_has_char c x = false) (str_split c s).
Proof.
  induction s as [|d s IH]; [by repeat constructor|]. cbn [str_split].
  destruct (Ascii.eqb c d) eqn:E; [by constructor|].
  destruct (str_split c s) as [|h t]; [by repeat constructor; simpl; rewrite E|].
  inv IH. constructor; [|done]. simpl. by rewrite E.
Qed.

Lemma str_split_word c s : str_has_char c s = false → str_split c s = [s].
Proof.
  induction s as [|d s IH]; [done|]. cbn [str_split str_has_char].
  intros [-> Hs]%orb_false_iff. by rewrite IH.
Qed.

Lemma str_split_append c s t :
  str_has_char c s = false → str_split c (s +:+ char_str c +:+ t) = s :: str_split c t.
Proof.
  induction s as [|d s IH].
  - intros _. change ("" +:+ char_str c +:+ t) with (String c t). cbn [str_split].
    by rewrite Ascii.eqb_refl.
  - rewrite append_cons. cbn [str_split str_has_char].
    intros [-> Hs]%orb_false_iff. by rewrite IH.
Qed.

(** Splitting a joined list of separator-free parts gives the parts back. *)
Lemma str_split_join c l :
  l ≠ [] → Forall (λ x, str_has_char c x = false) l →
  str_split c (str_join (char_str c) l) = l.
Proof.
  intros Hne Hl. induction Hl as [|x l Hx Hl IH]; [done|].
  destruct l as [|y l]; [by apply str_split_word|].
  rewrite str_join_cons by done. rewrite str_split_append by done. by rewrite IH.
Qed.

Lemma str_count_append c s t : str_count c (s +:+ t) = str_count c s + str_count c t.
Proof.
  induction s as [|d s IH]; [done|]. rewrite append_cons. cbn [str_count].
  rewrite IH. lia.
Qed.

Lemma str_count_0 c s : str_count c s = 0 ↔ str_has_char c s = false.
Proof.
  induction s as [|d s IH]; [done|]. cbn [str_count str_has_char].
  destruct (Ascii.eqb c d); simpl; [done|]. done.
Qed.

Lemma js_space_trim_start s c t : trim_start s = String c t → is_js_space c = false.
Proof.
  induction s as [|d s IH]; simpl; [done|].
  destruct (is_js_space d) eqn:E; [done|]. by intros [= -> ->].
Qed.

Lemma trim_end_cons c s :
  is_js_space c = false → trim_end (String c s) = String c (trim_end s).
Proof. intros Hc. cbn. rewrite Hc. by destruct (trim_end s). Qed.

Lemma trim_end_String c s :
  trim_end (String c s) =
  match trim_end s with
  | EmptyString => if is_js_space c then EmptyString else String c EmptyString
  | t => String c t
  end.
Proof. done. Qed.

Lemma trim_end_idemp s : trim_end (trim_end s) = trim_end s.
Proof.
  induction s as [|c s IH]; [done|]. rewrite trim_end_String.
  destruct (trim_end s) as [|d t] eqn:E.
  - destruct (is_js_space c) eqn:Hc; [done|]. cbn. by rewrite Hc.
  - by rewrite trim_end_String, IH.
Qed.

(** Trimming twice is trimming once. *)
Lemma js_trim_idemp s : js_trim (js_trim s) = js_trim s.
Proof.
  unfold js_trim. destruct (trim_start s) as [|c t] eqn:E; [done|].
  apply js_space_trim_start in E. rewrite trim_end_cons by done.
  cbn [trim_start]. rewrite E. rewrite trim_end_cons by done. by rewrite trim_end_idemp.
Qed.

Lemma trim_end_solid s c :
  is_js_space c = false → trim_end (s +:+ char_str c) = s +:+ char_str c.
Proof.
  intros Hc. induction s as [|d s IH].
  { change (trim_end (char_str c) = char_str c). unfold char_str.
    rewrite trim_end_String. cbn [trim_end]. by rewrite Hc. }
  rewrite append_cons, trim_end_String, IH. by destruct s.
Qed.

Lemma substring_skip s t m :
  String.substring (String.length s) m (s +:+ t) = String.substring 0 m t.
Proof. induction s as [|c s IH]; [done|]. rewrite append_cons. apply IH. Qed.

Lemma substring_take s t : String.substring 0 (String.length s) (s +:+ t) = s.
Proof.
  induction s as [|c s IH]; [by destruct t|]. rewrite append_cons. cbn. by rewrite IH.
Qed.

Lemma str_slice_middle s t u :
  str_slice (String.length s) (String.length s + String.length t) (s +:+ t +:+ u) = t.
Proof.
  unfold str_slice. rewrite substring_skip.
  replace (String.length s + String.length t - String.length s) with (String.length t) by lia.
  apply substring_take.
Qed.

Lemma ends_with_append s t : ends_with t (s +:+ t) = true.
Proof.
  unfold ends_with. rewrite length_append. rewrite andb_true_iff, bool_decide_eq_true.
  split; [apply Nat.leb_le; lia|]. unfold str_slice.
  replace (String.length s + String.length t - String.length t) with (String.length s) by lia.
  rewrite substring_skip.
  replace (String.length s + String.length t - String.length s) with (String.length t) by lia.
  apply substring_all.
Qed.
