(* ===== verification/PosixPath.v ===== *)
(** * The POSIX half of node:path

    [isAbsolute], [normalize], [join], [resolve] and [relative], written on
    path segments.  [ProcessEnv] holds what they and [String(_)] read from
    the process. *)

From S2P Require Import Prelude Text.

Class ProcessEnv := {
  (** [process.cwd()]. *)
  process_cwd : string;
  (** [String(f)] of a function, symbol or bigint. *)
  text_of_other : string → string;
}.

(** The working directory is an absolute path. *)
Definition slash : ascii := ascii_of_N 47.

Definition isAbsolute (p : string) : bool :=
  match p with String c _ => Ascii.eqb slash c | EmptyString => false end.

Class ProcessEnvLaws (E : ProcessEnv) : Prop := {
  process_cwd_absolute : isAbsolute process_cwd = true;
}.

(** A concrete process for evaluation. *)
Definition refProcessEnv : ProcessEnv := {| process_cwd := "/w"; text_of_other := id |}.

(** ** [normalizeString] *)

(** One segment, on the reversed list of kept segments. *)
Definition norm_segment (above : bool) (acc : list string) (seg : string) : list string :=
  if bool_decide (seg = "") || bool_decide (seg = ".") then acc
  else if bool_decide (seg = "..") then
    match acc with
    | last :: acc' =>
        if bool_decide (last = "..") then (if above then ".." :: acc else acc) else acc'
    | [] => if above then [".."] else []
    end
  else seg :: acc.

Definition norm_segments (above : bool) (segs : list string) : list string :=
  reverse (foldl (norm_segment above) [] segs).

Definition normalize_string (above : bool) (p : string) : string :=
  str_join (char_str slash) (norm_segments above (str_split slash p)).

Definition normalize (p : string) : string :=
  if bool_decide (p = "") then "."
  else
    let trailing := ends_with (char_str slash) p in
    let body := normalize_string (negb (isAbsolute p)) p in
    if bool_decide (body = "") then
      if isAbsolute p then char_str slash else if trailing then "./" else "."
    else
      let body := if trailing then body +:+ char_str slash else body in
      if isAbsolute p then String slash body else body.

Definition join (args : list string) : string :=
  match filter (λ a, a ≠ "") args with
  | [] => "."
  | args => normalize (str_join (char_str slash) args)
  end.

(** ** [resolve] *)

Section Resolve.
Context `{ProcessEnv}.

(** Right to left until the path is absolute, then the working directory. *)
Fixpoint resolve_text (rev_args : list string) (acc : string) : string :=
  match rev_args with
  | [] => process_cwd +:+ char_str slash +:+ acc
  | p :: rest =>
    if bool_decide (p = "") then resolve_text rest acc
    else
      let acc := p +:+ char_str slash +:+ acc in
      if isAbsolute p then acc else resolve_text rest acc
  end.

Definition resolve (args : list string) : string :=
  String slash (normalize_string false (resolve_text (reverse args) "")).

(** The segments of a resolved path. *)
Definition path_segments (p : string) : list string :=
  filter (λ s, s ≠ "") (str_split slash p).

(** The segments left of two paths after their common prefix. *)
Fixpoint drop_common (l1 l2 : list string) : list string * list string :=
  match l1, l2 with
  | x :: l1', y :: l2' => if decide (x = y) then drop_common l1' l2' else (l1, l2)
  | _, _ => (l1, l2)
  end.

Definition relative (from to : string) : string :=
  if bool_decide (from = to) then ""
  else
  let '(ups, downs) :=
    drop_common (path_segments (resolve [from])) (path_segments (resolve [to])) in
  str_join (char_str slash) (((λ _, "..") <$> ups) ++ downs).
End Resolve.

(** ** Lemmas *)

(** A segment of a resolved path. *)
Definition plain_segment (s : string) : Prop :=
  s ≠ "" ∧ s ≠ "." ∧ s ≠ ".." ∧ str_has_char slash s = false.

Lemma norm_segment_plain acc seg :
  Forall plain_segment acc → str_has_char slash seg = false →
  Forall plain_segment (norm_segment false acc seg).
Proof.
  intros Hacc Hs. unfold norm_segment.
  destruct (decide (seg = "")); [by rewrite bool_decide_true|].
  rewrite (bool_decide_false (seg = "")) by done.
  destruct (decide (seg = ".")); [by rewrite bool_decide_true|].
  rewrite (bool_decide_false (seg = ".")) by done. cbn [orb].
  case_bool_decide; [|by constructor; [repeat split|]].
  destruct acc as [|x acc]; [done|]. case_bool_decide; [done | by inv Hacc].
Qed.

Lemma norm_segments_plain segs :
  Forall (λ s, str_has_char slash s = false) segs →
  Forall plain_segment (norm_segments false segs).
Proof.
  intros Hs. unfold norm_segments. rewrite Forall_reverse.
  assert (Forall plain_segment []) as Hacc by constructor. revert Hacc.
  generalize (@nil string). induction Hs as [|s segs Hs _ IH]; intros acc Hacc; [done|].
  cbn [foldl]. by apply IH, norm_segment_plain.
Qed.

(** Normalizing plain segments changes nothing. *)
Lemma norm_segments_id segs :
  Forall plain_segment segs → norm_segments false segs = segs.
Proof.
  intros Hs. unfold norm_segments.
  assert (∀ acc, foldl (norm_segment false) acc segs = reverse segs ++ acc) as E.
  { induction Hs as [|s segs (H1 & H2 & H3 & _) _ IH]; intros acc; [done|].
    cbn [foldl]. rewrite IH. unfold norm_segment. rewrite !bool_decide_eq_false_2 by done.
    by rewrite reverse_cons, <- app_assoc. }
  by rewrite E, app_nil_r, reverse_involutive.
Qed.

Section ResolveLemmas.
Context `{E : ProcessEnv}.

(** The segments [resolve] keeps. *)
Definition resolved_segments (args : list string) : list string :=
  norm_segments false (str_split slash (resolve_text (reverse args) "")).

Lemma resolved_segments_plain args : Forall plain_segment (resolved_segments args).
Proof. apply norm_segments_plain, str_split_no_sep. Qed.

Lemma resolve_eq args :
  resolve args = String slash (str_join (char_str slash) (resolved_segments args)).
Proof. done. Qed.

Lemma isAbsolute_resolve args : isAbsolute (resolve args) = true.
Proof. done. Qed.

Lemma filter_plain segs : Forall plain_segment segs → filter (λ s, s ≠ "") segs = segs.
Proof.
  induction 1 as [|s segs (H1 & _) _ IH]; [done|].
  rewrite filter_cons, decide_True by done. by rewrite IH.
Qed.

Lemma path_segments_join segs :
  Forall plain_segment segs →
  path_segments (String slash (str_join (char_str slash) segs)) = segs.
Proof.
  intros Hs. unfold path_segments. cbn [str_split]. rewrite Ascii.eqb_refl.
  rewrite filter_cons, decide_False by auto.
  destruct segs as [|s segs]; [done|].
  rewrite str_split_join; [by apply filter_plain|done|].
  eapply Forall_impl; [done|]. by intros ? (_ & _ & _ & ?).
Qed.

Lemma path_segments_resolve args : path_segments (resolve args) = resolved_segments args.
Proof. rewrite resolve_eq. apply path_segments_join, resolved_segments_plain. Qed.

Lemma resolved_segments_resolve args :
  resolved_segments [resolve args] = resolved_segments args.
Proof.
  unfold resolved_segments at 1. rewrite resolve_eq. cbn [reverse rev_append resolve_text].
  rewrite bool_decide_eq_false_2 by done. cbn [isAbsolute]. rewrite Ascii.eqb_refl.
  pose proof (resolved_segments_plain args) as Hp.
  revert Hp. generalize (resolved_segments args). intros segs Hp.
  rewrite append_cons. cbn [str_split]. rewrite Ascii.eqb_refl.
  assert (norm_segments false ("" :: segs ++ [""]) = segs) as Hn.
  { unfold norm_segments.
  change (foldl (norm_segment false) [] ("" :: segs ++ [""]))
    with (foldl (norm_segment false) [] (segs ++ [""])).
  rewrite foldl_app. by apply (norm_segments_id segs). }
  destruct segs as [|s segs]; [done|].
  assert (str_join (char_str slash) (s :: segs) +:+ char_str slash +:+ ""
        = str_join (char_str slash) ((s :: segs) ++ [""])) as ->.
  { clear. revert s. induction segs as [|x segs IH]; intros s; [done|].
  rewrite (str_join_cons _ s (x :: segs)) by done.
  change ((s :: x :: segs) ++ [""]) with (s :: (x :: segs) ++ [""]).
  rewrite (str_join_cons _ s ((x :: segs) ++ [""])) by done.
  rewrite !append_assoc. do 2 f_equal. apply IH. }
  rewrite str_split_join; [done|by destruct segs|].
  apply Forall_app. split; [|by repeat constructor].
  eapply Forall_impl; [done|]. by intros ? (_ & _ & _ & ?).
Qed.

(** Resolving a resolved path changes nothing. *)
Lemma resolve_resolve args : resolve [resolve args] = resolve args.
Proof. by rewrite (resolve_eq [_]), resolved_segments_resolve. Qed.

Lemma drop_common_prefix l1 l2 :
  (drop_common l1 l2).1 = [] → l2 = l1 ++ (drop_common l1 l2).2.
Proof.
  revert l2; induction l1 as [|x l1 IH]; intros [|y l2]; simpl; try done.
  destruct (decide (x = y)) as [->|]; simpl; [|done]. intros Hd. by rewrite <- IH.
Qed.

Lemma drop_common_app l k : drop_common l (l ++ k) = ([], k).
Proof. induction l as [|x l IH]; [by destruct k|]. simpl. by rewrite decide_True. Qed.

Lemma drop_common_head l1 l2 ups downs u us d ds :
  drop_common l1 l2 = (ups, downs) → ups = u :: us → downs = d :: ds → u ≠ d.
Proof.
  revert l2; induction l1 as [|x l1 IH]; intros [|y l2]; simpl; try (intros [= <- <-]; done).
  destruct (decide (x = y)); [by apply IH|]. by intros [= <- <-] [= <- _] [= <- _].
Qed.

(** [path.relative] between resolved paths. *)
Lemma relative_resolved a b :
  relative (resolve a) (resolve b) =
  let '(ups, downs) := drop_common (resolved_segments a) (resolved_segments b) in
  str_join (char_str slash) (((λ _, "..") <$> ups) ++ downs).
Proof.
  unfold relative. rewrite !resolve_resolve, !path_segments_resolve.
  case_bool_decide as Heq; [|done].
  assert (resolved_segments a = resolved_segments b) as <-.
  { by rewrite <- !path_segments_resolve, Heq. }
  assert (drop_common (resolved_segments a) (resolved_segments a) = ([], [])) as ->.
  { rewrite <- (app_nil_r (resolved_segments a)) at 2. apply drop_common_app. }
  done.
Qed.
End ResolveLemmas.
