(* ===== verification/Glob.v ===== *)
(** * Permission globs

    [wildcardToRegExp] of src/src/permission/policy/matchPermissionRule.ts:
    the regular expression it builds, an executable matcher for [RegExp.test]
    on such expressions, and the glob language they recognise. *)

From S2P Require Import Prelude Text PosixPath.

(** ** The regular expressions the compiler emits *)

(** The pieces of [^...$]: [(?:[^/]+/)*], [[^/]*], [[^/]] and an (escaped)
    literal character. *)
Inductive re_item :=
  | ReSegments
  | ReStar
  | ReAny
  | ReLit (c : ascii).

Definition star : ascii := ascii_of_N 42.
Definition question : ascii := ascii_of_N 63.

Fixpoint wildcardToRegExp (pattern : string) : list re_item :=
  match pattern with
  | EmptyString => []
  | String c rest =>
      if Ascii.eqb c star then
        match rest with
        | String d rest2 =>
            if Ascii.eqb d star then
              match rest2 with
              | String e rest3 =>
                  if Ascii.eqb e slash then ReSegments :: wildcardToRegExp rest3
                  else ReSegments :: ReStar :: wildcardToRegExp rest2
              | EmptyString => ReSegments :: ReStar :: wildcardToRegExp rest2
              end
            else ReStar :: wildcardToRegExp rest
        | EmptyString => ReStar :: wildcardToRegExp rest
        end
      else if Ascii.eqb c question then ReAny :: wildcardToRegExp rest
      else ReLit c :: wildcardToRegExp rest
  end.

(** ** [RegExp.test] *)

Definition not_slash (c : ascii) : bool := negb (Ascii.eqb slash c).

(** [[^/]*] followed by [k]. *)
Fixpoint test_star (k : string → bool) (s : string) : bool :=
  k s ||
  match s with
  | String c s => not_slash c && test_star k s
  | EmptyString => false
  end.

(** [(?:[^/]+/)*] followed by [k]; [inside] once a segment has begun. *)
Fixpoint test_segments (k : string → bool) (inside : bool) (s : string) : bool :=
  (negb inside && k s) ||
  match s with
  | String c s =>
      if not_slash c then test_segments k true s
      else inside && test_segments k false s
  | EmptyString => false
  end.

Fixpoint re_test (re : list re_item) (s : string) {struct re} : bool :=
  match re with
  | [] => match s with EmptyString => true | String _ _ => false end
  | ReLit c :: re =>
      match s with String d s => Ascii.eqb c d && re_test re s | EmptyString => false end
  | ReAny :: re =>
      match s with String d s => not_slash d && re_test re s | EmptyString => false end
  | ReStar :: re => test_star (re_test re) s
  | ReSegments :: re => test_segments (re_test re) false s
  end.

(** [wildcardToRegExp(pattern).test(s)]. *)
Definition glob_test (pattern s : string) : bool := re_test (wildcardToRegExp pattern) s.

(** ** The glob language *)

Definition no_slash (s : string) : Prop := str_has_char slash s = false.

(** Text of whole path segments, each closed by its slash. *)
Fixpoint segments_text (us : list string) : string :=
  match us with
  | [] => ""
  | u :: us => u +:+ char_str slash +:+ segments_text us
  end.

Definition segment (u : string) : Prop := u ≠ "" ∧ no_slash u.

Definition head_is (c : ascii) (s : string) : bool :=
  match s with String d _ => Ascii.eqb d c | EmptyString => false end.

(** The semantics the doc comment of [wildcardToRegExp] gives. *)
Inductive glob_matches : string → string → Prop :=
  | glob_nil : glob_matches "" ""
  | glob_globstar_slash p us s :
      Forall segment us → glob_matches p s →
      glob_matches (String star (String star (String slash p))) (segments_text us +:+ s)
  | glob_globstar p us u s :
      head_is slash p = false → Forall segment us → no_slash u → glob_matches p s →
      glob_matches (String star (String star p)) (segments_text us +:+ u +:+ s)
  | glob_star p u s :
      head_is star p = false → no_slash u → glob_matches p s →
      glob_matches (String star p) (u +:+ s)
  | glob_question p c s :
      not_slash c = true → glob_matches p s →
      glob_matches (String question p) (String c s)
  | glob_literal p c s :
      c ≠ star → c ≠ question → glob_matches p s →
      glob_matches (String c p) (String c s).

(** ** Lemmas *)

Lemma not_slash_spec c : not_slash c = true ↔ c ≠ slash.
Proof.
  unfold not_slash. rewrite negb_true_iff, Ascii.eqb_neq. split; congruence.
Qed.

Lemma no_slash_cons c s : no_slash (String c s) ↔ not_slash c = true ∧ no_slash s.
Proof.
  unfold no_slash, not_slash. cbn [str_has_char].
  rewrite orb_false_iff, negb_true_iff. done.
Qed.

Lemma test_star_spec k s :
  test_star k s = true ↔ ∃ u t, s = u +:+ t ∧ no_slash u ∧ k t = true.
Proof.
  induction s as [|c s IH]; cbn [test_star]; rewrite orb_true_iff.
  - split.
    + intros [H|H]; [|done]. by exists "", "".
    + intros ([|d u] & t & Heq & _ & Hk); [|done]. left. by destruct t.
  - rewrite andb_true_iff, IH. split.
    + intros [H|(Hc & u & t & -> & Hu & Hk)]; [by exists "", (String c s)|].
      exists (String c u), t. split; [done|]. split; [by apply no_slash_cons|done].
    + intros ([|d u] & t & Heq & Hu & Hk).
      * left. by rewrite append_nil_l in Heq; subst.
      * rewrite append_cons in Heq. injection Heq as <- ->.
        apply no_slash_cons in Hu as [Hc Hu]. right. eauto 10.
Qed.

(** The rest of the current segment, when one has begun. *)
Lemma test_segments_spec k s : ∀ inside,
  test_segments k inside s = true ↔
  ∃ us t, Forall segment us ∧ k t = true ∧
    if inside then ∃ u, no_slash u ∧ s = u +:+ char_str slash +:+ segments_text us +:+ t
    else s = segments_text us +:+ t.
Proof.
  induction s as [|c s IH]; intros inside; cbn [test_segments].
  { rewrite orb_false_r, andb_true_iff. split.
    - intros [Hi Hk]. apply negb_true_iff in Hi as ->. by exists [], "".
    - intros (us & t & Hus & Hk & Heq). destruct inside.
      + destruct Heq as ([|d u] & _ & Heq); discriminate Heq.
      + destruct us as [|[|d u] us]; [|by inv Hus; destruct H1|discriminate Heq].
        change (segments_text [] +:+ t) with t in Heq. by subst. }
  rewrite orb_true_iff, andb_true_iff, negb_true_iff.
  destruct (not_slash c) eqn:Hc.
  - rewrite IH. split.
    + intros [[-> Hk]|(us & t & Hus & Hk & u & Hu & ->)]; [by exists [], (String c s)|].
      destruct inside.
      * exists us, t. split; [done|]. split; [done|]. exists (String c u).
        split; [by apply no_slash_cons|done].
      * exists (String c u :: us), t. split; [|split; [done|]].
        { constructor; [|done]. split; [done|by apply no_slash_cons]. }
        cbn [segments_text]. by rewrite !append_cons, !append_assoc.
    + intros (us & t & Hus & Hk & Heq). destruct inside.
      * right. destruct Heq as ([|d u] & Hu & Heq).
        { injection Heq as -> _. done. }
        rewrite append_cons in Heq. injection Heq as <- ->.
        apply no_slash_cons in Hu as [_ Hu]. eauto 10.
      * destruct us as [|[|d u] us]; [|by inv Hus; destruct H1|].
        { left. change (segments_text [] +:+ t) with t in Heq. by subst. }
        right. cbn [segments_text] in Heq. rewrite !append_cons in Heq.
        injection Heq as <- ->. inv Hus. destruct H1 as [_ Hu].
        apply no_slash_cons in Hu as [_ Hu]. exists us, t.
        split; [done|]. split; [done|]. exists u. split; [done|].
        by rewrite !append_assoc.
  - assert (c = slash) as ->.
    { unfold not_slash in Hc. apply negb_false_iff, Ascii.eqb_eq in Hc. done. }
    rewrite andb_true_iff, IH. split.
    + intros [[-> Hk]|(-> & us & t & Hus & Hk & ->)]; [by exists [], (String slash s)|].
      exists us, t. split; [done|]. split; [done|]. by exists "".
    + intros (us & t & Hus & Hk & Heq). destruct inside.
      * right. split; [done|]. destruct Heq as ([|d u] & Hu & Heq).
        { rewrite append_nil_l in Heq. injection Heq as ->. eauto. }
        rewrite append_cons in Heq. injection Heq as <- _.
        by apply no_slash_cons in Hu as [Hu _].
      * destruct us as [|[|d u] us]; [|by inv Hus; destruct H1|].
        { left. change (segments_text [] +:+ t) with t in Heq. by subst. }
        cbn [segments_text] in Heq. rewrite !append_cons in Heq. injection Heq as <- _.
        inv Hus. destruct H1 as [_ Hu]. by apply no_slash_cons in Hu as [Hu _].
Qed.

(** The compiled pattern, one construct at a time. *)
Lemma wildcard_star p :
  head_is star p = false → wildcardToRegExp (String star p) = ReStar :: wildcardToRegExp p.
Proof. destruct p as [|d p]; [done|]. cbn -[Ascii.eqb]. by intros ->. Qed.

Lemma wildcard_globstar p :
  head_is slash p = false →
  wildcardToRegExp (String star (String star p)) = ReSegments :: ReStar :: wildcardToRegExp p.
Proof. destruct p as [|d p]; [done|]. intros Hd. cbn in Hd |- *. by rewrite Hd. Qed.

Lemma wildcard_literal c p :
  c ≠ star → c ≠ question → wildcardToRegExp (String c p) = ReLit c :: wildcardToRegExp p.
Proof.
  intros Hs Hq. cbn [wildcardToRegExp]. apply Ascii.eqb_neq in Hs as ->.
  by apply Ascii.eqb_neq in Hq as ->.
Qed.

Lemma glob_test_complete p s : glob_matches p s → glob_test p s = true.
Proof.
  unfold glob_test.
  induction 1 as [|p us s Hus _ IH|p us u s Hp Hus Hu _ IH|p u s Hp Hu _ IH
    |p c s Hc _ IH|p c s Hs Hq _ IH]; [done|..].
  - change (wildcardToRegExp (String star (String star (String slash p))))
      with (ReSegments :: wildcardToRegExp p).
    cbn [re_test]. apply test_segments_spec. eauto.
  - rewrite wildcard_globstar by done. cbn [re_test]. apply test_segments_spec.
    exists us, (u +:+ s). split; [done|]. split; [|done]. apply test_star_spec. eauto.
  - rewrite wildcard_star by done. cbn [re_test]. apply test_star_spec. eauto.
  - change (wildcardToRegExp (String question p)) with (ReAny :: wildcardToRegExp p).
    cbn [re_test]. by rewrite Hc.
  - rewrite wildcard_literal by done. cbn [re_test]. by rewrite Ascii.eqb_refl.
Qed.

Lemma glob_test_sound n : ∀ p s,
  (String.length p < n)%nat → glob_test p s = true → glob_matches p s.
Proof.
  unfold glob_test. induction n as [|n IH]; intros p s Hn Ht; [lia|].
  destruct p as [|c p]; [destruct s; [constructor|discriminate Ht]|].
  cbn [String.length] in Hn.
  destruct (decide (c = star)) as [->|Hs]; [|destruct (decide (c = question)) as [->|Hq]].
  - destruct (head_is star p) eqn:Hp.
    + destruct p as [|d p]; [discriminate Hp|]. apply Ascii.eqb_eq in Hp as ->.
      destruct (head_is slash p) eqn:Hp.
      * destruct p as [|e p]; [discriminate Hp|]. apply Ascii.eqb_eq in Hp as ->.
        cbn [String.length] in Hn.
        change (wildcardToRegExp (String star (String star (String slash p))))
          with (ReSegments :: wildcardToRegExp p) in Ht.
        apply test_segments_spec in Ht as (us & t & Hus & Ht & ->).
        constructor; [done|]. apply IH; [lia|done].
      * rewrite wildcard_globstar in Ht by done. cbn [String.length] in Hn.
        apply test_segments_spec in Ht as (us & t & Hus & Ht & ->).
        apply test_star_spec in Ht as (u & t' & -> & Hu & Ht).
        constructor; try done. apply IH; [lia|done].
    + rewrite wildcard_star in Ht by done.
      apply test_star_spec in Ht as (u & t & -> & Hu & Ht).
      constructor; try done. apply IH; [lia|done].
  - change (wildcardToRegExp (String question p)) with (ReAny :: wildcardToRegExp p) in Ht.
    destruct s as [|d s]; [discriminate Ht|]. cbn [re_test] in Ht.
    apply andb_true_iff in Ht as [Hd Ht]. constructor; [done|]. apply IH; [lia|done].
  - rewrite wildcard_literal in Ht by done.
    destruct s as [|d s]; [discriminate Ht|]. cbn [re_test] in Ht.
    apply andb_true_iff in Ht as [Hd Ht]. apply Ascii.eqb_eq in Hd as <-.
    constructor; try done. apply IH; [lia|done].
Qed.

Lemma glob_test_iff p s : glob_test p s = true ↔ glob_matches p s.
Proof.
  split; [|apply glob_test_complete]. by apply (glob_test_sound (S (String.length p))); lia.
Qed.

(** Slashes only come from whole segments. *)
Lemma no_slash_count s : no_slash s ↔ str_count slash s = 0.
Proof. symmetry. apply str_count_0. Qed.

Lemma segment_head us s c t :
  Forall segment us → segments_text us +:+ s = String c t →
  us = [] ∧ s = String c t ∨ c ≠ slash.
Proof.
  intros Hus Heq. destruct us as [|[|d u] us]; [by left|by inv Hus; destruct H1|].
  right. cbn [segments_text] in Heq. rewrite !append_cons in Heq. injection Heq as <- _.
  inv Hus. destruct H1 as [_ Hu]. by apply no_slash_cons in Hu as [Hu%not_slash_spec _].
Qed.

(** A pattern that begins with [**/] and a non-slash literal matches no
    absolute path. *)
Lemma globstar_relative p s d :
  d ≠ star → d ≠ question → d ≠ slash → isAbsolute s = true →
  glob_test (String star (String star (String slash (String d p)))) s = false.
Proof.
  intros Hd Hq Hsl Hs. apply not_true_iff_false. intros Ht%glob_test_iff.
  destruct s as [|c t]; [discriminate Hs|]. apply Ascii.eqb_eq in Hs as <-.
  inversion Ht as [|? us s' Hus Hm Hp Heq|? ? ? ? Hh|? ? ? Hh| |]; subst;
    [|discriminate Hh..].
  destruct (segment_head us s' _ _ Hus Heq) as [[_ ->]|]; [|done].
  by inversion Hm; subst.
Qed.

(** A pattern without two adjacent stars. *)
Definition no_globstar (p : string) : Prop :=
  str_includes (String star (char_str star)) p = false.

Lemma no_globstar_cons c p :
  no_globstar (String c p) →
  no_globstar p ∧ (c = star → head_is star p = false).
Proof.
  unfold no_globstar. cbn [str_includes]. intros [Hp Hr]%orb_false_iff.
  split; [done|]. intros ->. destruct p as [|d p]; [done|].
  cbn [head_is]. destruct (Ascii.eqb d star) eqn:E; [|done].
  apply Ascii.eqb_eq in E as ->. by destruct p.
Qed.

Lemma glob_matches_depth p s :
  glob_matches p s → no_globstar p → str_count slash s = str_count slash p.
Proof.
  induction 1 as [|p us s Hus _ IH|p us u s Hp Hus Hu _ IH|p u s Hp Hu _ IH
    |p c s Hc _ IH|p c s Hs Hq _ IH]; intros Hng;
    apply no_globstar_cons in Hng as [Hng Hh] || clear Hng.
  - done.
  - by specialize (Hh eq_refl).
  - by specialize (Hh eq_refl).
  - rewrite str_count_append, (proj1 (no_slash_count u) Hu). cbn. by apply IH.
  - cbn [str_count]. rewrite IH by done.
    apply not_slash_spec in Hc. rewrite (proj2 (Ascii.eqb_neq slash c)) by congruence.
    done.
  - cbn [str_count]. by rewrite IH.
Qed.

(** ** Properties *)

(** C36: [wildcardToRegExp(p).test(s)] holds exactly for the strings of the
    glob language the doc comment describes: [**/] spans any number of whole
    segments (none included), [**] any number of segments and a last partial
    one, [*] any text within a segment, [?] one character within a segment,
    anything else itself. *)
Theorem wildcardToRegExp_spec (pattern s : string) :
  re_test (wildcardToRegExp pattern) s = true ↔ glob_matches pattern s.
Proof. exact (glob_test_iff pattern s). Qed.

(** P: A pattern without [**] only matches at its own depth: a single star
    or question mark never crosses a slash. *)
Theorem star_stays_in_segment (pattern s : string) :
  no_globstar pattern → re_test (wildcardToRegExp pattern) s = true →
  str_count slash s = str_count slash pattern.
Proof. intros Hng Ht%glob_test_iff. by apply glob_matches_depth. Qed.

Lemma star_stays_in_segment_witness :
  str_count slash "src/main.ts" = str_count slash "src/*.ts".
Proof. apply (star_stays_in_segment "src/*.ts" "src/main.ts"); vm_compute; reflexivity. Defined.

(** The patterns of the source's tests. *)
Example glob_runs :
  glob_test "src/**" "src/a/b.ts" = true ∧ glob_test "src/*" "src/a/b.ts" = false ∧
  glob_test "**/x.ts" "x.ts" = true ∧ glob_test "**/x.ts" "a/b/x.ts" = true ∧
  glob_test "rm *" "rm -rf /tmp/x" = false ∧ glob_test "a?c" "abc" = true ∧
  glob_test "a?c" "a/c" = false ∧ glob_test "a.c" "abc" = false.
Proof. repeat split. Qed.
