(* ===== verification/PermissionRules.v ===== *)
(** * Permission rules

    src/src/permission/protocol/types.ts (the data, the built-in protected
    paths and [createDefaultPermissionContext]) and
    src/src/permission/policy/matchPermissionRule.ts (when a rule applies to
    a tool call). *)

From S2P Require Import Prelude Host JsValue Text PosixPath Glob.

(** ** Data *)

Inductive permission_mode := ModeDefault | ModePlan | ModeBypass.

Inductive rule_behavior := Allow | Deny | Ask.

Inductive rule_source := SrcUser | SrcProject | SrcSession | SrcPolicy | SrcCli.

Record permission_rule := PermissionRule {
  rule_source_of : rule_source;
  rule_behavior_of : rule_behavior;
  rule_toolName : string;
  rule_pattern : option string;
}.

Record rule_set := RuleSet {
  rs_allow : list permission_rule;
  rs_deny : list permission_rule;
  rs_ask : list permission_rule;
}.

Record permission_context := PermissionContext {
  pc_mode : permission_mode;
  pc_rules : rule_set;
  pc_cwd : string;
  pc_additionalWorkingDirectories : list string;
  pc_canPrompt : bool;
  pc_bypassAvailable : bool;
  pc_planDirectoryPath : option string;
}.

#[export] Instance permission_mode_eq_dec : EqDecision permission_mode.
Proof. solve_decision. Defined.
#[export] Instance rule_behavior_eq_dec : EqDecision rule_behavior.
Proof. solve_decision. Defined.
#[export] Instance rule_source_eq_dec : EqDecision rule_source.
Proof. solve_decision. Defined.
#[export] Instance permission_rule_eq_dec : EqDecision permission_rule.
Proof. solve_decision. Defined.

Definition mode_text (m : permission_mode) : string :=
  match m with
  | ModeDefault => "default"
  | ModePlan => "plan"
  | ModeBypass => "bypassPermissions"
  end.

Inductive decision_reason :=
  | ReasonMode (mode : permission_mode) (message : string)
  | ReasonRule (behavior : rule_behavior) (rule : permission_rule) (message : string)
  | ReasonTool (toolName : string) (message : string)
  | ReasonSafety (message : string)
  | ReasonRuntime (message : string).

Definition reason_message (r : decision_reason) : string :=
  match r with
  | ReasonMode _ m | ReasonRule _ _ m | ReasonTool _ m | ReasonSafety m
  | ReasonRuntime m => m
  end.

Inductive request_option :=
  | OptAllowOnce (label : string)
  | OptAllowSession (label : string) (rules : option (list permission_rule))
  | OptDeny (label : string)
  | OptCancel (label : string).

Record permission_request := PermissionRequest {
  pr_toolCallId : string;
  pr_toolName : string;
  pr_inputSummary : string;
  pr_reason : decision_reason;
  pr_options : list request_option;
  pr_metadata : option jsval;
}.

Inductive permission_decision :=
  | DAllow (reason : decision_reason) (updatedInput : option jsval)
  | DDeny (reason : decision_reason) (message : string)
  | DAsk (reason : decision_reason) (request : permission_request)
  | DCancel (reason : decision_reason) (message : string).

(** What a tool's [checkPermissions] returns: a decision, [passthrough], or
    a value whose [type] is none of these. *)
Inductive permission_result :=
  | PDecision (d : permission_decision)
  | PPassthrough (reason : option decision_reason)
  | PUnrecognized.

Definition emptyPermissionRuleSet : rule_set := RuleSet [] [] [].

Definition BUILTIN_PROTECTED_PATH_RULES : list permission_rule :=
  [ PermissionRule SrcPolicy Deny "write_file" (Some "**/.git/**");
    PermissionRule SrcPolicy Deny "edit_file" (Some "**/.git/**");
    PermissionRule SrcPolicy Deny "write_file" (Some "**/.rigorium/**");
    PermissionRule SrcPolicy Deny "edit_file" (Some "**/.rigorium/**") ].

(** The [options] argument; [Partial<PermissionRuleSet>] field by field. *)
Record context_options := ContextOptions {
  co_cwd : string;
  co_mode : option permission_mode;
  co_canPrompt : option bool;
  co_bypassAvailable : option bool;
  co_additionalWorkingDirectories : option (list string);
  co_planDirectoryPath : option string;
  co_allow : option (list permission_rule);
  co_deny : option (list permission_rule);
  co_ask : option (list permission_rule);
}.

Definition createDefaultPermissionContext (o : context_options) : permission_context :=
  PermissionContext
    (default ModeDefault (co_mode o))
    (RuleSet (default [] (co_allow o))
       (default [] (co_deny o) ++ BUILTIN_PROTECTED_PATH_RULES)
       (default [] (co_ask o)))
    (co_cwd o)
    (default [] (co_additionalWorkingDirectories o))
    (default false (co_canPrompt o))
    (default false (co_bypassAvailable o))
    (match co_planDirectoryPath o with Some "" => None | p => p end).

(** ** Matching a rule *)

Definition FILE_WRITE_TOOLS : list string := ["write_file"; "edit_file"].
Definition FILE_PATH_PATTERN_TOOLS : list string :=
  ["read_file"; "send_attachment"; "write_file"; "edit_file"].

(** [typeof v === "string" ? v : ""] after [record.a ?? record.b]. *)
Definition nullish_or (a b : jsval) : jsval := if is_nullish a then b else a.

Definition string_or_empty (v : jsval) : string := default "" (as_string v).

Definition readFilePath (input : jsval) : string :=
  if is_object input then
    js_trim (string_or_empty (nullish_or (jget input "file_path") (jget input "filePath")))
  else "".

Definition readCommand (input : jsval) : string :=
  if is_object input then js_trim (string_or_empty (jget input "command")) else "".

Definition backslash_to_slash (c : ascii) : ascii :=
  if (code_unit c =? 92)%N then slash else c.

Definition normalizePathForPattern (value : string) : string :=
  str_map backslash_to_slash value.

(** [pattern.replace(/:\*$/, "*")]. *)
Definition fold_colon_star (pattern : string) : string :=
  if ends_with ":*" pattern
  then str_slice 0 (String.length pattern - 2) pattern +:+ "*" else pattern.

Definition wildcard_test (pattern s : string) : bool := re_test (wildcardToRegExp pattern) s.

Definition matchesToolName (ruleToolName toolName : string) : bool :=
  bool_decide (ruleToolName = toolName)
  || (str_has_char star ruleToolName && wildcard_test ruleToolName toolName).

Definition matchBashPattern (pattern : string) (input : jsval) : bool :=
  let command := readCommand input in
  if bool_decide (command = "") then false
  else wildcard_test (fold_colon_star pattern) command.

Section Matching.
Context `{ProcessEnv}.

Definition resolveInputFilePath (input : jsval) (context : option permission_context)
  : option string :=
  let filePath := readFilePath input in
  if bool_decide (filePath = "") || str_has_char (ascii_of_N 0) filePath then None
  else
  context ← context;
  Some (resolve [if isAbsolute filePath then filePath
                 else join [pc_cwd context; filePath]]).

Definition isPathWithinRoot (candidate root : string) : bool :=
  let rel := relative root candidate in
  bool_decide (rel = "") || (negb (starts_with ".." rel) && negb (isAbsolute rel)).

Definition isFileInputInsideWorkspace (input : jsval) (context : option permission_context)
  : bool :=
  match resolveInputFilePath input context, context with
  | Some filePath, Some context =>
    existsb (isPathWithinRoot filePath)
      ((λ root, resolve [root]) <$>
        (pc_cwd context :: pc_additionalWorkingDirectories context))
  | _, _ => false
  end.

Definition matchFilePathPattern (pattern : string) (input : jsval)
  (context : option permission_context) : bool :=
  match resolveInputFilePath input context with
  | Some filePath =>
    wildcard_test (normalizePathForPattern pattern) (normalizePathForPattern filePath)
  | None => false
  end.

(** [rule.pattern] is falsy when absent or empty. *)
Definition pattern_of (rule : permission_rule) : option string :=
  match rule_pattern rule with Some "" => None | p => p end.

Definition matchRulePattern (rule : permission_rule) (toolName : string) (input : jsval)
  (context : option permission_context) : bool :=
  match pattern_of rule with
  | None => true
  | Some pattern =>
    if bool_decide (toolName = "bash") then matchBashPattern pattern input
    else if bool_decide (toolName ∈ FILE_PATH_PATTERN_TOOLS)
    then matchFilePathPattern pattern input context
    else true
  end.

Definition matchPermissionRule (rule : permission_rule) (toolName : string) (input : jsval)
  (context : option permission_context) : bool :=
  if negb (matchesToolName (rule_toolName rule) toolName) then false
  else if bool_decide (toolName ∈ FILE_WRITE_TOOLS) && bool_decide (pattern_of rule = None)
  then isFileInputInsideWorkspace input context
  else match pattern_of rule with
     | Some _ => matchRulePattern rule toolName input context
     | None => true
     end.
End Matching.

(** ** Lemmas *)

Section MatchingLemmas.
Context `{ProcessEnv}.

Lemma starts_with_dots x s :
  plain_segment x → starts_with ".." (x +:+ char_str slash +:+ s) = starts_with ".." x.
Proof.
  intros (H1 & H2 & H3 & H4). unfold starts_with.
  destruct x as [|c [|d x]]; [done| |].
  - cbn. destruct (ascii_dec "." c); [|done]. by destruct s.
  - cbn. by destruct x, s.
Qed.

Lemma starts_with_dots_join x l :
  plain_segment x →
  starts_with ".." (str_join (char_str slash) (x :: l)) = starts_with ".." x.
Proof.
  intros Hx. destruct l as [|y l]; [done|]. rewrite str_join_cons by done.
  by apply starts_with_dots.
Qed.

Lemma isAbsolute_join x l :
  plain_segment x → isAbsolute (str_join (char_str slash) (x :: l)) = false.
Proof.
  intros (H1 & _ & _ & H4). destruct x as [|c x]; [done|].
  cbn [str_has_char] in H4. apply orb_false_iff in H4 as [Hc _]. by destruct l.
Qed.

(** A first segment that does not look like a parent directory. *)
Definition no_dots_head (rest : list string) : Prop :=
  match rest with [] => True | x :: _ => starts_with ".." x = false end.

(** [isPathWithinRoot] on resolved paths: the root's segments are a prefix. *)
Lemma isPathWithinRoot_resolved a b :
  isPathWithinRoot (resolve b) (resolve a) = true ↔
  ∃ rest, resolved_segments b = resolved_segments a ++ rest ∧ no_dots_head rest.
Proof.
  unfold isPathWithinRoot. rewrite relative_resolved.
  pose proof (resolved_segments_plain b) as Hb.
  destruct (drop_common _ _) as [ups downs] eqn:E. split.
  - intros Hw. destruct ups as [|u ups].
  + pose proof (drop_common_prefix (resolved_segments a) (resolved_segments b)) as Hp.
    rewrite E in Hp. specialize (Hp eq_refl). cbn [snd] in Hp. exists downs.
    split; [done|]. destruct downs as [|x downs]; [done|].
    rewrite Hp in Hb. apply Forall_app in Hb as [_ Hb]. apply Forall_cons in Hb as [Hx _].
    cbn [fmap list_fmap app] in Hw. rewrite starts_with_dots_join in Hw by done.
    apply orb_true_iff in Hw as [Hw|Hw].
    * exfalso. apply bool_decide_eq_true in Hw. destruct Hx as (Hx & _).
      destruct x; [done|]. destruct downs; discriminate Hw.
    * apply andb_true_iff in Hw as [Hw _]. by apply negb_true_iff in Hw.
  + exfalso. cbn [fmap list_fmap app] in Hw.
    destruct ((λ _ : string, "..") <$> ups) as [|y l]; [destruct downs|]; discriminate Hw.
  - intros (rest & Hrest & Hd). rewrite Hrest, drop_common_app in E.
  injection E as <- <-. cbn [fmap list_fmap app]. destruct rest as [|x rest]; [done|].
  rewrite Hrest in Hb. apply Forall_app in Hb as [_ Hb]. apply Forall_cons in Hb as [Hx _].
  rewrite starts_with_dots_join, isAbsolute_join by done.
  cbn [no_dots_head] in Hd. rewrite Hd. apply orb_true_r.
Qed.

Lemma isFileInputInsideWorkspace_spec input context :
  isFileInputInsideWorkspace input (Some context) = true ↔
  ∃ path root rest,
  resolveInputFilePath input (Some context) = Some path ∧
  root ∈ pc_cwd context :: pc_additionalWorkingDirectories context ∧
  path_segments path = path_segments (resolve [root]) ++ rest ∧ no_dots_head rest.
Proof.
  unfold isFileInputInsideWorkspace, resolveInputFilePath.
  destruct (_ || _); [split; [done|by intros (? & ? & ? & ? & _)]|].
  cbn [mbind option_bind]. generalize (resolve_eq [if isAbsolute (readFilePath input)
  then readFilePath input else join [pc_cwd context; readFilePath input]]).
  set (args := [if isAbsolute _ then _ else _]). intros _.
  rewrite existsb_exists. split.
  - intros (r & Hr & Hin). apply list_elem_of_In, list_elem_of_fmap in Hr as (root & -> & Hroot).
  apply isPathWithinRoot_resolved in Hin as (rest & Hrest & Hd).
  exists (resolve args), root, rest. by rewrite !path_segments_resolve.
  - intros (path & root & rest & [= <-] & Hroot & Hseg & Hd).
  exists (resolve [root]). split.
  { apply list_elem_of_In, list_elem_of_fmap. eauto. }
  apply isPathWithinRoot_resolved. exists rest. by rewrite <- !path_segments_resolve.
Qed.

(** Resolved paths are absolute, and stay so with slashes normalized. *)
Lemma resolveInputFilePath_absolute input context path :
  resolveInputFilePath input context = Some path →
  isAbsolute (normalizePathForPattern path) = true.
Proof.
  unfold resolveInputFilePath. destruct (_ || _); [done|].
  destruct context; [|done]. by intros [= <-].
Qed.

Lemma matchFilePathPattern_globstar d p input context :
  d ≠ star → d ≠ question → d ≠ slash →
  let pattern := String star (String star (String slash (String d p))) in
  normalizePathForPattern pattern = pattern →
  matchFilePathPattern pattern input context = false.
Proof.
  intros H1 H2 H3 pattern Hn. unfold matchFilePathPattern. rewrite Hn.
  destruct (resolveInputFilePath input context) as [path|] eqn:E; [|done].
  by apply globstar_relative; [..|eapply resolveInputFilePath_absolute].
Qed.
End MatchingLemmas.

(** ** Properties *)

(** P: A rule without a pattern for a file-writing tool applies exactly when
    the call's file path resolves (relative paths against [cwd]) to a path
    whose segments extend those of the working directory or of an additional
    one, the first segment beyond it not beginning with two dots: no [..]
    in the input leads out of the workspace. *)
Theorem workspace_rule_confined `{ProcessEnv} rule toolName input context :
  toolName ∈ FILE_WRITE_TOOLS → pattern_of rule = None →
  matchPermissionRule rule toolName input (Some context) = true ↔
  matchesToolName (rule_toolName rule) toolName = true ∧
  ∃ path root rest,
    resolveInputFilePath input (Some context) = Some path ∧
    root ∈ pc_cwd context :: pc_additionalWorkingDirectories context ∧
    path_segments path = path_segments (resolve [root]) ++ rest ∧ no_dots_head rest.
Proof.
  intros Ht Hp. unfold matchPermissionRule. rewrite Hp.
  rewrite !bool_decide_eq_true_2 by done. cbn [andb].
  rewrite <- isFileInputInsideWorkspace_spec.
  destruct (matchesToolName _ _); cbn [negb]; naive_solver.
Qed.

(** P: On POSIX none of the built-in protected-path rules ever applies: a
    call's file path is resolved to an absolute path, and a pattern that
    begins with [**/] cannot consume the leading slash. *)
Theorem builtin_protected_rules_inert `{ProcessEnv} toolName input context :
  Forall (λ rule, matchPermissionRule rule toolName input context = false)
    BUILTIN_PROTECTED_PATH_RULES.
Proof.
  assert (∀ name p, name = "write_file" ∨ name = "edit_file" →
    p = "**/.git/**" ∨ p = "**/.rigorium/**" →
    matchPermissionRule (PermissionRule SrcPolicy Deny name (Some p)) toolName input context
    = false) as Hrule; [|repeat constructor; apply Hrule; auto].
  intros name p Hname Hp. unfold matchPermissionRule. cbn [rule_toolName].
  destruct (matchesToolName name toolName) eqn:E; [|done]. cbn [negb].
  assert (toolName = name) as ->.
  { unfold matchesToolName in E. apply orb_true_iff in E as [E%bool_decide_eq_true|E]; [done|].
    by destruct Hname as [-> | ->]. }
  destruct Hname as [-> | ->], Hp as [-> | ->];
    (apply matchFilePathPattern_globstar; done).
Qed.

(** An unpatterned write rule and a relative path inside the workspace. *)
Lemma workspace_rule_confined_witness :
  @matchPermissionRule refProcessEnv (PermissionRule SrcUser Allow "write_file" None)
    "write_file" (JObj [("file_path", JStr " a/../b.ts")])
    (Some (createDefaultPermissionContext
      (ContextOptions "/w/p" None None None None None None None None))) = true.
Proof.
  apply (@workspace_rule_confined refProcessEnv); [by left|done|].
  split; [done|]. exists "/w/p/b.ts", "/w/p", ["b.ts"].
  split; [done|]. split; [by left|]. by split.
Defined.
