(* ===== verification/PermissionRuntime.v ===== *)
(** * The permission decision

    src/src/permission/decision/PermissionRuntime.ts: [decide], the order in
    which deny, session, ask and allow rules, the tool's own
    [checkPermissions] and the permission mode settle a tool call, and the
    plan-mode messages of src/src/tool/planModeConstraints.ts. *)

From S2P Require Import Prelude Host JsValue Text PosixPath Glob PermissionRules.

(** ** Plan-mode messages *)

Definition newline : string := char_str (ascii_of_N 10).

Definition PLAN_MODE_ALLOWED_TOOLS : list string :=
  ["read_file"; "get_current_time"; "grep"; "glob"; "web_search";
   "deepseek_native_search"; "web_fetch"; "ask_user_question"; "todo_write";
   "exit_plan_mode"; "read_skill"; "structured_output"; "agent"; "bash"; "task_list";
   "task_output"; "task_wait"; "write_file"; "edit_file"].

Definition PLAN_MODE_VIOLATION_HEADER : string := "[PLAN_MODE_VIOLATION]".

Definition quoted (s : string) : string := dquote +:+ s +:+ dquote.

Definition buildPlanModeViolationMessage (toolName : string) : string :=
  str_join newline
    [ PLAN_MODE_VIOLATION_HEADER +:+ " Tool " +:+ quoted toolName
        +:+ " is BLOCKED in plan mode.";
      "";
      "You are in READ-ONLY plan mode. This tool cannot be executed.";
      "";
      "What you should do instead:";
      "1. Use read-only tools (read_file, grep, glob, bash with read-only commands) to explore";
      "2. Write your plan as markdown under .rigorium/plans/";
      "3. Call exit_plan_mode when your plan is ready";
      "";
      "Do NOT retry this tool. It will fail again." ].

Definition buildPlanModeBashViolationMessage (command : string) : string :=
  let truncated :=
    if (120 <? String.length command)%nat then str_slice 0 120 command +:+ "…" else command in
  str_join newline
    [ PLAN_MODE_VIOLATION_HEADER +:+ " bash command " +:+ quoted truncated
        +:+ " is BLOCKED — write/modify commands are not allowed in plan mode.";
      "";
      "In plan mode, bash is restricted to READ-ONLY commands only (ls, cat, git status, git log, git diff, pwd, find, head, wc, etc.).";
      "";
      "Rewrite your command as a read-only operation, or use read_file/grep/glob instead." ].

Definition isPlanModeViolationText (text : jsval) : bool :=
  match text with JStr s => str_includes PLAN_MODE_VIOLATION_HEADER s | _ => false end.

(** ** [JSON.stringify(value)] without indentation *)

(** [None] is [undefined]; a bigint throws. *)
Fixpoint json_compact (value : jsval) : result (option string) :=
  match value with
  | JUndefined => Ok None
  | JOther ty =>
      if bool_decide (ty = "bigint")
      then Throw (TypeError "Do not know how to serialize a BigInt") else Ok None
  | JNull => Ok (Some "null")
  | JBool b => Ok (Some (if b then "true" else "false"))
  | JNum n => Ok (Some (if is_finite_num n then number_to_string n else "null"))
  | JStr s => Ok (Some (quote s))
  | JArr l =>
      texts ← mapM id (map json_compact l);
      Ok (Some ("[" +:+ str_join "," (default "null" <$> texts) +:+ "]"))
  | JObj fields =>
      texts ← mapM id (map (λ kv, text ← json_compact kv.2;
                                  Ok (t ← text; Some (quote kv.1 +:+ ":" +:+ t))) fields);
      Ok (Some ("{" +:+ str_join "," (omap id texts) +:+ "}"))
  end.

(** ** The tool *)

Inductive tool_kind :=
  | KFilesystem | KShell | KNetwork | KMcp | KSession | KAgent | KStructuredOutput | KCustom.

#[export] Instance tool_kind_eq_dec : EqDecision tool_kind.
Proof. solve_decision. Defined.

(** What [decide] uses of a tool definition.  The rest of the runtime context
    a tool reads in [checkPermissions] is fixed within one decision. *)
Record tool_definition := ToolDefinition {
  td_name : string;
  td_kind : tool_kind;
  td_isReadOnly : jsval → bool;
  td_checkPermissions :
    option (jsval → permission_context → result (option permission_result));
}.

(** ** Requests *)

Section Runtime.
Context `{ProcessEnv}.

Definition readInputString (input : jsval) (key : string) : option string :=
  if is_object input then as_string (jget input key) else None.

Definition countInputChars (input : jsval) (key : string) : nat :=
  match readInputString input key with Some s => String.length s | None => 0 end.

(** [String(value)] where [JSON.stringify] gave [undefined]. *)
Definition text_of_undefined (value : jsval) : string :=
  match value with JOther ty => text_of_other ty | _ => "undefined" end.

Definition summarize_json (input : jsval) : string :=
  match json_compact input with
  | Ok None => text_of_undefined input
  | Ok (Some json) =>
    if (500 <? String.length json)%nat then str_slice 0 500 json +:+ "..." else json
  | Throw _ => "[unserializable input]"
  end.

(** A string that is not empty, as JavaScript's truthiness reads it. *)
Definition truthy_string (s : option string) : option string :=
  match s with Some "" => None | s => s end.

Definition input_file_path (input : jsval) : option string :=
  match readInputString input "file_path" with
  | Some p => Some p
  | None => readInputString input "filePath"
  end.

Definition summarizeInput (input : jsval) (toolName : string) : string :=
  let is_write := bool_decide (toolName = "write_file") in
  match (if bool_decide (toolName = "bash")
       then truthy_string (readInputString input "command") else None) with
  | Some command => "command: " +:+ command
  | None =>
    match (if is_write || bool_decide (toolName = "edit_file")
           then truthy_string (input_file_path input) else None) with
    | Some filePath =>
        (if is_write then "write" else "edit") +:+ " " +:+ filePath +:+
        (if is_write
         then " (" +:+ pretty (countInputChars input "content") +:+ " chars)" else "")
    | None => summarize_json input
    end
  end.

Definition createPermissionRequest (tool : tool_definition) (input : jsval)
  (toolCallId : string) (reason : decision_reason) : permission_request :=
  PermissionRequest toolCallId (td_name tool) (summarizeInput input (td_name tool)) reason
  [OptAllowOnce "Allow once"; OptDeny "Deny"; OptCancel "Cancel"] None.

(** ** Decisions *)

Definition allow (reason : decision_reason) : permission_decision := DAllow reason None.

Definition deny (reason : decision_reason) : permission_decision :=
  DDeny reason (reason_message reason).

Definition ask (tool : tool_definition) (input : jsval) (toolCallId : string)
  (reason : decision_reason) : permission_decision :=
  DAsk reason (createPermissionRequest tool input toolCallId reason).

Definition denyFromRule (rule : permission_rule) : permission_decision :=
  deny (ReasonRule Deny rule ("Deny rule blocks " +:+ rule_toolName rule +:+ ".")).

Definition askFromRule (tool : tool_definition) (input : jsval) (toolCallId : string)
  (rule : permission_rule) : permission_decision :=
  ask tool input toolCallId
  (ReasonRule Ask rule ("Ask rule requires confirmation for " +:+ td_name tool +:+ ".")).

Definition prompts_disabled : string :=
  "Permission prompt denied because prompts are disabled for this session.".

Definition finalizeAsk (decision : permission_decision) (context : permission_context)
  : permission_decision :=
  match decision with
  | DAsk _ _ =>
    match pc_mode context with
    | ModeBypass =>
        allow (ReasonMode ModeBypass "bypassPermissions mode skips permission prompts.")
    | _ =>
        if negb (pc_canPrompt context)
        then DDeny (ReasonRuntime prompts_disabled) prompts_disabled
        else decision
    end
  | _ => decision
  end.

Definition findMatchingRule (rules : list permission_rule) (toolName : string)
  (input : jsval) (context : permission_context) : option permission_rule :=
  List.find (λ rule, matchPermissionRule rule toolName input (Some context)) rules.

Definition normalizeToolPermission (result : option permission_result)
  (tool : tool_definition) (input : jsval) (toolCallId : string)
  (context : permission_context) : option permission_decision :=
  match result with
  | None | Some (PPassthrough _) => None
  | Some (PDecision (DAsk reason request)) =>
    Some (DAsk reason
      (PermissionRequest toolCallId (td_name tool) (pr_inputSummary request)
         (pr_reason request) (pr_options request) (pr_metadata request)))
  | Some (PDecision d) => Some d
  | Some PUnrecognized =>
    Some (ask tool input toolCallId
      (ReasonRuntime ("Permission result for " +:+ td_name tool
        +:+ " was not recognized in mode " +:+ mode_text (pc_mode context) +:+ ".")))
  end.

(** A markdown file below the plan directory. *)
Definition isPlanDirectoryWrite (tool : tool_definition) (input : jsval)
  (context : permission_context) : bool :=
  match td_kind tool, truthy_string (pc_planDirectoryPath context) with
  | KFilesystem, Some planDirectoryPath =>
    match nullish_or (jget input "file_path") (jget input "filePath") with
    | JStr filePath =>
        let absolute := resolve [pc_cwd context; filePath] in
        if negb (ends_with ".md" (to_lower absolute)) then false
        else
          let rel := relative planDirectoryPath absolute in
          negb (bool_decide (rel = "")) && negb (isAbsolute rel)
          && negb (starts_with ".." rel) && negb (starts_with "../" rel)
    | _ => false
    end
  | _, _ => false
  end.

Definition buildPlanModeDenyMessage (toolName : string) (input : jsval) : string :=
  if bool_decide (toolName = "bash")
  then buildPlanModeBashViolationMessage (string_or_empty (jget input "command"))
  else buildPlanModeViolationMessage toolName.

Definition decideByMode (tool : tool_definition) (input : jsval) (toolCallId : string)
  (context : permission_context) : permission_decision :=
  match pc_mode context with
  | ModePlan =>
    if td_isReadOnly tool input then
      allow (ReasonMode ModePlan
        ("Plan mode allows read-only tool " +:+ td_name tool +:+ "."))
    else if isPlanDirectoryWrite tool input context then
      allow (ReasonMode ModePlan
        "Plan mode allows writing markdown plans under the plan directory.")
    else deny (ReasonMode ModePlan (buildPlanModeDenyMessage (td_name tool) input))
  | mode =>
    if td_isReadOnly tool input then
      allow (ReasonMode mode ("Mode " +:+ mode_text mode
        +:+ " allows read-only tool " +:+ td_name tool +:+ "."))
    else ask tool input toolCallId
      (ReasonMode mode ("Mode " +:+ mode_text mode
        +:+ " requires permission for " +:+ td_name tool +:+ "."))
  end.

(** [await tool.checkPermissions?.(input, context)], normalized. *)
Definition check_tool (tool : tool_definition) (input : jsval) (toolCallId : string)
  (context : permission_context) : result (option permission_decision) :=
  toolPermission ← match td_checkPermissions tool with
                 | Some check => check input context
                 | None => Ok None
                 end;
  Ok (normalizeToolPermission toolPermission tool input toolCallId context).

Definition allowSessionRule (tool : tool_definition) (input : jsval) (toolCallId : string)
  (context : permission_context) (rule : permission_rule) : result permission_decision :=
  toolDecision ← check_tool tool input toolCallId context;
  Ok match toolDecision with
   | None | Some (DAsk _ _) =>
       allow (ReasonRule Allow rule
         ("Session allow rule permits " +:+ td_name tool +:+ "."))
   | Some d => d
   end.

(** The part of [decide] after the rules: the tool's check, then the mode. *)
Definition decide_by_tool (tool : tool_definition) (input : jsval) (toolCallId : string)
  (context : permission_context) : result permission_decision :=
  toolDecision ← check_tool tool input toolCallId context;
  Ok match toolDecision with
   | Some (DAsk _ _ as toolDecision) =>
       match pc_mode context with
       | ModeBypass =>
           allow (ReasonMode ModeBypass ("Permission mode bypassPermissions overrides "
             +:+ td_name tool +:+ ".checkPermissions ask."))
       | ModePlan =>
           if td_isReadOnly tool input then
             allow (ReasonMode ModePlan ("Plan mode allows read-only tool "
               +:+ td_name tool +:+ " despite .checkPermissions ask."))
           else if negb (isPlanDirectoryWrite tool input context) then
             deny (ReasonMode ModePlan (buildPlanModeDenyMessage (td_name tool) input))
           else finalizeAsk toolDecision context
       | ModeDefault => finalizeAsk toolDecision context
       end
   | Some toolDecision => toolDecision
   | None =>
       match pc_mode context with
       | ModeBypass =>
           allow (ReasonMode ModeBypass ("Permission mode bypassPermissions allows "
             +:+ td_name tool +:+ "."))
       | _ => finalizeAsk (decideByMode tool input toolCallId context) context
       end
   end.

Definition is_session (rule : permission_rule) : bool :=
  bool_decide (rule_source_of rule = SrcSession).

Definition is_plan (mode : permission_mode) : bool := bool_decide (mode = ModePlan).

(** [PermissionRuntime.decide]. *)
Definition decide_permission (tool : tool_definition) (input : jsval)
  (context : permission_context) (toolCallId : string) : result permission_decision :=
  let find rules := findMatchingRule rules (td_name tool) input context in
  let sessionAllowRule := find (List.filter is_session (rs_allow (pc_rules context))) in
  match find (rs_deny (pc_rules context)) with
  | Some denyRule =>
    match sessionAllowRule, rule_source_of denyRule with
    | Some rule, SrcUser => allowSessionRule tool input toolCallId context rule
    | _, _ => Ok (denyFromRule denyRule)
    end
  | None =>
    match find (rs_ask (pc_rules context)) with
    | Some askRule =>
        Ok (finalizeAsk (askFromRule tool input toolCallId askRule) context)
    | None =>
        match sessionAllowRule with
        | Some rule => allowSessionRule tool input toolCallId context rule
        | None =>
            match find (rs_allow (pc_rules context)) with
            | Some allowRule =>
                if is_plan (pc_mode context) && negb (td_isReadOnly tool input)
                   && negb (isPlanDirectoryWrite tool input context)
                then decide_by_tool tool input toolCallId context
                else Ok (allow (ReasonRule Allow allowRule
                  ("Allow rule permits " +:+ td_name tool +:+ ".")))
            | None => decide_by_tool tool input toolCallId context
            end
        end
    end
  end.
End Runtime.
