(* ===== verification/PermissionSafety.v ===== *)
(** * What a permission decision guarantees

    Theorems about [decide_permission]: deny rules win, plan mode's
    restriction, when a prompt may be raised, what bypass mode cannot skip,
    and how a decision changes when rules are added. *)

From S2P Require Import Prelude Host JsValue Text PosixPath Glob PermissionRules PermissionRuntime.

(** ** Lemmas *)

Section Lemmas.
Context `{ProcessEnv}.

Lemma findMatchingRule_Some rules name input context rule :
  findMatchingRule rules name input context = Some rule →
  rule ∈ rules ∧ matchPermissionRule rule name input (Some context) = true.
Proof.
  unfold findMatchingRule. intros Hf. apply find_some in Hf as [Hin Hm].
  split; [by apply list_elem_of_In|done].
Qed.

Lemma findMatchingRule_None rules name input context :
  findMatchingRule rules name input context = None ↔
  ∀ rule, rule ∈ rules → matchPermissionRule rule name input (Some context) = false.
Proof.
  unfold findMatchingRule. split.
  - intros Hf rule Hin%list_elem_of_In. by apply (find_none _ _ Hf).
  - intros Hall. destruct (List.find _ _) as [r|] eqn:E; [|done].
  apply find_some in E as [Hin%list_elem_of_In Hm]. by rewrite Hall in Hm.
Qed.

Lemma findMatchingRule_is_Some rules name input context rule :
  rule ∈ rules → matchPermissionRule rule name input (Some context) = true →
  is_Some (findMatchingRule rules name input context).
Proof.
  intros Hin Hm. destruct (findMatchingRule _ _ _ _) eqn:E; [done|].
  by rewrite (proj1 (findMatchingRule_None _ _ _ _) E rule Hin) in Hm.
Qed.

Definition is_ask (d : permission_decision) : bool :=
  match d with DAsk _ _ => true | _ => false end.

Definition is_allow (d : permission_decision) : bool :=
  match d with DAllow _ _ => true | _ => false end.

Definition is_deny (d : permission_decision) : bool :=
  match d with DDeny _ _ => true | _ => false end.

(** A request for this call, and only where prompting is possible. *)
Definition ask_for_call (name id : string) (d : permission_decision) : Prop :=
  match d with
  | DAsk _ request => pr_toolCallId request = id ∧ pr_toolName request = name
  | _ => True
  end.

Definition ask_allowed (context : permission_context) (d : permission_decision) : Prop :=
  is_ask d = true → pc_mode context ≠ ModeBypass ∧ pc_canPrompt context = true.

Lemma finalizeAsk_allowed d context : ask_allowed context (finalizeAsk d context).
Proof.
  unfold ask_allowed, finalizeAsk.
  destruct d; [done..| |done]. by destruct (pc_mode context), (pc_canPrompt context).
Qed.

Lemma finalizeAsk_for_call name id d context :
  ask_for_call name id d → ask_for_call name id (finalizeAsk d context).
Proof.
  unfold finalizeAsk. destruct d; [done..| |done].
  by destruct (pc_mode context), (pc_canPrompt context).
Qed.

Lemma check_tool_for_call tool input id context d :
  check_tool tool input id context = Ok (Some d) → ask_for_call (td_name tool) id d.
Proof.
  unfold check_tool. intros Hc. inv_result. unfold normalizeToolPermission in Hc.
  destruct r as [[[| | |]| |]|]; by simplify_eq/=.
Qed.

Lemma decideByMode_for_call tool input id context :
  ask_for_call (td_name tool) id (decideByMode tool input id context).
Proof. unfold decideByMode. by repeat case_match. Qed.

Lemma allowSessionRule_Ok tool input id context rule d :
  allowSessionRule tool input id context rule = Ok d →
  is_ask d = false ∧
  (is_allow d = true ∨ check_tool tool input id context = Ok (Some d)).
Proof.
  unfold allowSessionRule. intros Hs. inv_result.
  destruct r as [[]|]; simplify_eq/=; eauto.
Qed.

Lemma decide_by_tool_ask tool input id context d :
  decide_by_tool tool input id context = Ok d →
  ask_allowed context d ∧ ask_for_call (td_name tool) id d.
Proof.
  unfold decide_by_tool. intros Hd. inv_result.
  destruct r as [[]|]; [done|done| |done|].
  - pose proof (check_tool_for_call _ _ _ _ _ Hr) as Hf.
  destruct (pc_mode context);
    [|destruct (td_isReadOnly tool input); [done|];
      destruct (isPlanDirectoryWrite tool input context); [|done]|done];
    (split; [apply finalizeAsk_allowed | by apply finalizeAsk_for_call]).
  - destruct (pc_mode context); [..|done];
    (split; [apply finalizeAsk_allowed |
      apply finalizeAsk_for_call, decideByMode_for_call]).
Qed.

(** The stage that settles a call. *)
Inductive settled_by (tool : tool_definition) (input : jsval) (context : permission_context)
  (id : string) : result permission_decision → Prop :=
  | by_deny_rule rule :
    rule ∈ rs_deny (pc_rules context) →
    matchPermissionRule rule (td_name tool) input (Some context) = true →
    settled_by tool input context id (Ok (denyFromRule rule))
  | by_ask_rule rule :
    rule ∈ rs_ask (pc_rules context) →
    matchPermissionRule rule (td_name tool) input (Some context) = true →
    settled_by tool input context id
      (Ok (finalizeAsk (askFromRule tool input id rule) context))
  | by_session_rule rule :
    rule ∈ rs_allow (pc_rules context) → rule_source_of rule = SrcSession →
    matchPermissionRule rule (td_name tool) input (Some context) = true →
    settled_by tool input context id (allowSessionRule tool input id context rule)
  | by_allow_rule rule :
    rule ∈ rs_allow (pc_rules context) →
    matchPermissionRule rule (td_name tool) input (Some context) = true →
    is_plan (pc_mode context) && negb (td_isReadOnly tool input)
      && negb (isPlanDirectoryWrite tool input context) = false →
    settled_by tool input context id
      (Ok (allow (ReasonRule Allow rule ("Allow rule permits " +:+ td_name tool +:+ "."))))
  | by_tool :
    settled_by tool input context id (decide_by_tool tool input id context).

Lemma session_rule_spec rules name input context rule :
  findMatchingRule (List.filter is_session rules) name input context = Some rule →
  rule ∈ rules ∧ rule_source_of rule = SrcSession ∧
  matchPermissionRule rule name input (Some context) = true.
Proof.
  intros [Hin Hm]%findMatchingRule_Some. apply list_elem_of_In, filter_In in Hin as [Hin Hs].
  apply bool_decide_eq_true in Hs. by apply list_elem_of_In in Hin.
Qed.

Lemma decide_settled tool input context id :
  settled_by tool input context id (decide_permission tool input context id).
Proof.
  unfold decide_permission.
  destruct (findMatchingRule (rs_deny _) _ _ _) as [rd|] eqn:Hd.
  - apply findMatchingRule_Some in Hd as [??].
  destruct (findMatchingRule (List.filter _ _) _ _ _) as [rs|] eqn:Hs.
  + apply session_rule_spec in Hs as (?&?&?).
    destruct (rule_source_of rd); by econstructor.
  + by econstructor.
  - destruct (findMatchingRule (rs_ask _) _ _ _) as [ra|] eqn:Ha.
  { apply findMatchingRule_Some in Ha as [??]. by econstructor. }
  destruct (findMatchingRule (List.filter _ _) _ _ _) as [rs|] eqn:Hs.
  { apply session_rule_spec in Hs as (?&?&?). by econstructor. }
  destruct (findMatchingRule (rs_allow _) _ _ _) as [rl|] eqn:Hl; [|apply by_tool].
  apply findMatchingRule_Some in Hl as [??].
  destruct (_ && _ && _) eqn:E; [apply by_tool|by econstructor].
Qed.
End Lemmas.

(** ** Adding allow rules *)

(** The context with more allow rules after its own. *)
Definition with_allow_rules (context : permission_context) (extra : list permission_rule)
    : permission_context :=
  PermissionContext (pc_mode context)
    (RuleSet (rs_allow (pc_rules context) ++ extra) (rs_deny (pc_rules context))
       (rs_ask (pc_rules context)))
    (pc_cwd context) (pc_additionalWorkingDirectories context) (pc_canPrompt context)
    (pc_bypassAvailable context) (pc_planDirectoryPath context).

Section MoreRules.
Context `{ProcessEnv}.

Lemma find_app_Some {A} (f : A → bool) l k x :
  List.find f l = Some x → List.find f (l ++ k) = Some x.
Proof.
  induction l as [|y l IH]; [done|]. rewrite <- app_comm_cons. cbn [List.find].
  by destruct (f y).
Qed.

Lemma find_session_app allow_rules extra f :
  Forall (λ r, rule_source_of r ≠ SrcSession) extra →
  List.find f (List.filter is_session (allow_rules ++ extra))
  = List.find f (List.filter is_session allow_rules).
Proof.
  intros Hextra. rewrite List.filter_app.
  assert (List.filter is_session extra = []) as ->; [|by rewrite app_nil_r].
  induction Hextra as [|r extra Hr _ IH]; [done|]. cbn [List.filter].
  unfold is_session at 1. by rewrite bool_decide_eq_false_2.
Qed.

Lemma decide_by_tool_more_rules tool input id context extra :
  (∀ check, td_checkPermissions tool = Some check →
   check input (with_allow_rules context extra) = check input context) →
  decide_by_tool tool input id (with_allow_rules context extra)
  = decide_by_tool tool input id context.
Proof.
  intros Hc. unfold decide_by_tool, check_tool.
  destruct (td_checkPermissions tool) as [check|]; [by rewrite (Hc check)|done].
Qed.

Lemma allowSessionRule_more_rules tool input id context extra rule :
  (∀ check, td_checkPermissions tool = Some check →
   check input (with_allow_rules context extra) = check input context) →
  allowSessionRule tool input id (with_allow_rules context extra) rule
  = allowSessionRule tool input id context rule.
Proof.
  intros Hc. unfold allowSessionRule, check_tool.
  destruct (td_checkPermissions tool) as [check|]; [by rewrite (Hc check)|done].
Qed.
End MoreRules.

(** ** Properties *)

Section Properties.
Context `{ProcessEnv}.

(** C34: When a deny rule matches, the call is denied by a matching deny rule,
    except that a matching session allow rule lifts a deny whose rule comes
    from the user: with no session allow rule, or with only project, policy,
    session or command-line deny rules matching, nothing else (ask and allow
    rules, the tool's own check, bypass mode) changes the outcome. *)
Theorem deny_rules_win tool input context id rule :
  rule ∈ rs_deny (pc_rules context) →
  matchPermissionRule rule (td_name tool) input (Some context) = true →
  (∀ r, r ∈ rs_allow (pc_rules context) → rule_source_of r = SrcSession →
   matchPermissionRule r (td_name tool) input (Some context) = false) ∨
  (∀ r, r ∈ rs_deny (pc_rules context) → rule_source_of r = SrcUser →
   matchPermissionRule r (td_name tool) input (Some context) = false) →
  ∃ r, r ∈ rs_deny (pc_rules context) ∧
     matchPermissionRule r (td_name tool) input (Some context) = true ∧
     decide_permission tool input context id = Ok (denyFromRule r).
Proof.
  intros Hin Hm Hcase.
  destruct (findMatchingRule_is_Some _ _ _ _ _ Hin Hm) as [rd Hd].
  exists rd. pose proof (findMatchingRule_Some _ _ _ _ _ Hd) as [Hrd Hmd].
  split; [done|]. split; [done|]. unfold decide_permission. rewrite Hd.
  destruct (findMatchingRule (List.filter _ _) _ _ _) as [rs|] eqn:Hs; [|done].
  apply session_rule_spec in Hs as (Hrs & Hsrc & Hms).
  destruct Hcase as [Hno|Hno]; [by rewrite Hno in Hms|].
  destruct (rule_source_of rd) eqn:E; try done. by rewrite Hno in Hmd.
Qed.

(** C35: In plan mode a call that is neither read-only nor a markdown write
    below the plan directory is allowed only by a matching session allow
    rule or by the tool's own [checkPermissions] answering allow. *)
Theorem plan_mode_restricts tool input context id d :
  pc_mode context = ModePlan → td_isReadOnly tool input = false →
  isPlanDirectoryWrite tool input context = false →
  decide_permission tool input context id = Ok d → is_allow d = true →
  (∃ rule, rule ∈ rs_allow (pc_rules context) ∧ rule_source_of rule = SrcSession ∧
   matchPermissionRule rule (td_name tool) input (Some context) = true) ∨
  check_tool tool input id context = Ok (Some d).
Proof.
  intros Hplan Hro Hpd Hdec Hallow. pose proof (decide_settled tool input context id) as Hs.
  rewrite Hdec in Hs. inversion Hs as [rule Hin Hm Heq|rule Hin Hm Heq|rule Hin Hsrc Hm Heq
  |rule Hin Hm Hguard Heq|Heq]; subst.
  - done.
  - unfold finalizeAsk, askFromRule, ask in Hallow. rewrite Hplan in Hallow.
  by destruct (pc_canPrompt context).
  - left. eauto.
  - by rewrite Hplan, Hro, Hpd in Hguard.
  - right. unfold decide_by_tool in Heq. inv_result. rewrite Hr.
  destruct r as [[]|]; rewrite ?Hplan in *; simplify_eq/=; try done.
  + by rewrite Hro, Hpd in Hallow.
  + unfold decideByMode in Hallow. by rewrite Hplan, Hro, Hpd in Hallow.
Qed.

(** P: A decision asks only when the mode is not [bypassPermissions] and
    prompts are enabled, and its request names this call and this tool,
    whatever the tool's own check put there. *)
Theorem ask_is_answerable tool input context id reason request :
  decide_permission tool input context id = Ok (DAsk reason request) →
  pc_mode context ≠ ModeBypass ∧ pc_canPrompt context = true ∧
  pr_toolCallId request = id ∧ pr_toolName request = td_name tool.
Proof.
  intros Hdec. pose proof (decide_settled tool input context id) as Hs. rewrite Hdec in Hs.
  enough (ask_allowed context (DAsk reason request) ∧
  ask_for_call (td_name tool) id (DAsk reason request)) as [Ha Hf].
  { by destruct (Ha eq_refl). }
  inversion Hs as [rule Hin Hm Heq|rule Hin Hm Heq|rule Hin Hsrc Hm Heq
  |rule Hin Hm Hguard Heq|Heq].
  - exact (conj (finalizeAsk_allowed (askFromRule tool input id rule) context)
    (finalizeAsk_for_call _ _ (askFromRule tool input id rule) context
      (conj eq_refl eq_refl))).
  - by apply allowSessionRule_Ok in Heq as [? _].
  - by apply decide_by_tool_ask in Heq.
Qed.

(** P: In [bypassPermissions] mode every call is allowed unless a deny rule
    matches or the tool's own check denies or cancels it. *)
Theorem bypass_only_denied_explicitly tool input context id d :
  pc_mode context = ModeBypass → decide_permission tool input context id = Ok d →
  is_allow d = true ∨
  (∃ rule, rule ∈ rs_deny (pc_rules context) ∧
   matchPermissionRule rule (td_name tool) input (Some context) = true ∧
   d = denyFromRule rule) ∨
  check_tool tool input id context = Ok (Some d).
Proof.
  intros Hmode Hdec. pose proof (decide_settled tool input context id) as Hs.
  rewrite Hdec in Hs. inversion Hs as [rule Hin Hm Heq|rule Hin Hm Heq|rule Hin Hsrc Hm Heq
  |rule Hin Hm Hguard Heq|Heq]; subst.
  - right. left. by exists rule.
  - left. unfold finalizeAsk, askFromRule, ask. by rewrite Hmode.
  - apply allowSessionRule_Ok in Heq as [_ [?|?]]; auto.
  - by left.
  - unfold decide_by_tool in Heq. inv_result. rewrite Hr.
  destruct r as [[]|]; rewrite ?Hmode in *; simplify_eq/=; auto.
Qed.

(** P: A decision fails only when the tool's own check throws, with what it
    threw. *)
Theorem decide_throws_only_from_check tool input context id e :
  decide_permission tool input context id = Throw e →
  ∃ check, td_checkPermissions tool = Some check ∧ check input context = Throw e.
Proof.
  intros Hdec. pose proof (decide_settled tool input context id) as Hs. rewrite Hdec in Hs.
  assert (∀ e, check_tool tool input id context = Throw e →
  ∃ check, td_checkPermissions tool = Some check ∧ check input context = Throw e) as Hc.
  { intros e'. unfold check_tool. destruct (td_checkPermissions tool) as [check|]; [|done].
  intros [?|(? & ? & ?)]%bind_Throw; [eauto|done]. }
  inversion Hs as [| |rule Hin Hsrc Hm Heq| |Heq].
  - apply bind_Throw in Heq as [?|(? & ? & ?)]; [by apply Hc|done].
  - apply bind_Throw in Heq as [?|(? & ? & ?)]; [by apply Hc|done].
Qed.

(** P: Adding allow rules that are not session rules never takes a
    permission away: a call that was allowed stays allowed, in every mode,
    for a tool whose own check does not look at the allow rules. *)
Theorem allow_rules_monotone tool input context id extra d :
  Forall (λ r, rule_source_of r ≠ SrcSession) extra →
  (∀ check, td_checkPermissions tool = Some check →
   check input (with_allow_rules context extra) = check input context) →
  decide_permission tool input context id = Ok d → is_allow d = true →
  ∃ d', decide_permission tool input (with_allow_rules context extra) id = Ok d' ∧
      is_allow d' = true.
Proof.
  intros Hextra Hc Hdec Hallow. unfold decide_permission, findMatchingRule in *.
  cbn [with_allow_rules pc_rules rs_allow rs_deny rs_ask pc_mode] in *.
  change (λ rule, matchPermissionRule rule _ _ (Some (with_allow_rules context extra)))
  with (λ rule, matchPermissionRule rule (td_name tool) input (Some context)).
  change (isPlanDirectoryWrite tool input (with_allow_rules context extra))
  with (isPlanDirectoryWrite tool input context).
  rewrite find_session_app by done.
  destruct (List.find _ (rs_deny _)) as [rd|].
  { destruct (List.find _ (List.filter _ _)), (rule_source_of rd);
    rewrite ?allowSessionRule_more_rules; eauto. }
  destruct (List.find _ (rs_ask _)) as [ra|]; [eauto|].
  destruct (List.find _ (List.filter _ _)) as [rs|];
  [rewrite allowSessionRule_more_rules; eauto|].
  rewrite decide_by_tool_more_rules by done.
  destruct (List.find _ (rs_allow _)) as [rl|] eqn:Hl.
  - rewrite (find_app_Some _ _ _ _ Hl). eauto.
  - destruct (List.find _ (_ ++ _)); [|eauto].
  destruct (_ && _ && _); [eauto|]. by eexists.
Qed.
End Properties.

(** ** Concrete runs *)

Definition ruleOf (source : rule_source) (behavior : rule_behavior) (name : string)
    : permission_rule := PermissionRule source behavior name None.

Definition contextOf (mode : permission_mode) (allow deny ask : list permission_rule)
    : permission_context :=
  PermissionContext mode (RuleSet allow deny ask) "/w/p" [] true true (Some "/w/p/.rigorium/plans").

Definition bash_tool : tool_definition := ToolDefinition "bash" KShell (λ _, false) None.

(** A tool that hardcodes an ask in its own check. *)
Definition asking_tool : tool_definition :=
  ToolDefinition "web_fetch" KNetwork (λ _, false)
    (Some (λ _ _, Ok (Some (PDecision (DAsk (ReasonTool "web_fetch" "network")
       (PermissionRequest "" "" "" (ReasonTool "web_fetch" "network") [] None)))))).

Definition throwing_tool : tool_definition :=
  ToolDefinition "custom" KCustom (λ _, false) (Some (λ _ _, Throw (PlainError "boom"))).

Definition ls_input : jsval := JObj [("command", JStr "ls")].

(** A policy deny rule holds against a session allow rule, and adding a user
    deny rule before it lifts both: the first matching deny rule decides. *)
Example user_deny_lifts_policy_deny :
  (∃ d, @decide_permission refProcessEnv bash_tool ls_input
          (contextOf ModeDefault [ruleOf SrcSession Allow "bash"]
             [ruleOf SrcPolicy Deny "bash"] []) "call-1" = Ok d ∧ is_deny d = true) ∧
  (∃ d, @decide_permission refProcessEnv bash_tool ls_input
          (contextOf ModeDefault [ruleOf SrcSession Allow "bash"]
             [ruleOf SrcUser Deny "bash"; ruleOf SrcPolicy Deny "bash"] []) "call-1" = Ok d ∧
        is_allow d = true).
Proof. split; (eexists; split; [vm_compute; reflexivity | reflexivity]). Qed.

Lemma deny_rules_win_witness :
  ∃ r, r ∈ [ruleOf SrcPolicy Deny "bash"] ∧
    @matchPermissionRule refProcessEnv r "bash" ls_input
      (Some (contextOf ModeBypass [ruleOf SrcSession Allow "bash"]
               [ruleOf SrcPolicy Deny "bash"] [])) = true ∧
    @decide_permission refProcessEnv bash_tool ls_input
      (contextOf ModeBypass [ruleOf SrcSession Allow "bash"] [ruleOf SrcPolicy Deny "bash"] [])
      "call-1" = Ok (denyFromRule r).
Proof.
  apply (@deny_rules_win refProcessEnv bash_tool ls_input
    (contextOf ModeBypass [ruleOf SrcSession Allow "bash"] [ruleOf SrcPolicy Deny "bash"] [])
    "call-1" (ruleOf SrcPolicy Deny "bash")); [by left|done|].
  right. intros r Hr. apply list_elem_of_singleton in Hr as ->. discriminate.
Defined.

Definition plan_session_context : permission_context :=
  contextOf ModePlan [ruleOf SrcSession Allow "bash"] [] [].

Lemma plan_mode_restricts_witness :
  (∃ rule, rule ∈ rs_allow (pc_rules plan_session_context) ∧
     rule_source_of rule = SrcSession ∧
     @matchPermissionRule refProcessEnv rule "bash" ls_input (Some plan_session_context)
     = true) ∨
  @check_tool refProcessEnv bash_tool ls_input "call-1" plan_session_context
  = Ok (Some (allow (ReasonRule Allow (ruleOf SrcSession Allow "bash")
      "Session allow rule permits bash."))).
Proof.
  apply (@plan_mode_restricts refProcessEnv bash_tool ls_input plan_session_context "call-1"
    (allow (ReasonRule Allow (ruleOf SrcSession Allow "bash")
      "Session allow rule permits bash."))); vm_compute; reflexivity.
Defined.

Lemma ask_is_answerable_witness :
  pc_mode (contextOf ModeDefault [] [] []) ≠ ModeBypass ∧
  pc_canPrompt (contextOf ModeDefault [] [] []) = true ∧ "call-1" = "call-1" ∧
  "web_fetch" = td_name asking_tool.
Proof.
  apply (@ask_is_answerable refProcessEnv asking_tool (JObj []) (contextOf ModeDefault [] [] [])
    "call-1" (ReasonTool "web_fetch" "network")
    (PermissionRequest "call-1" "web_fetch" "" (ReasonTool "web_fetch" "network") [] None)).
  vm_compute. reflexivity.
Defined.

Lemma bypass_only_denied_explicitly_witness :
  is_allow (denyFromRule (ruleOf SrcUser Deny "bash")) = true ∨
  (∃ rule, rule ∈ [ruleOf SrcUser Deny "bash"] ∧
     @matchPermissionRule refProcessEnv rule "bash" ls_input
       (Some (contextOf ModeBypass [] [ruleOf SrcUser Deny "bash"] [])) = true ∧
     denyFromRule (ruleOf SrcUser Deny "bash") = denyFromRule rule) ∨
  @check_tool refProcessEnv bash_tool ls_input "call-1"
    (contextOf ModeBypass [] [ruleOf SrcUser Deny "bash"] [])
  = Ok (Some (denyFromRule (ruleOf SrcUser Deny "bash"))).
Proof.
  apply (@bypass_only_denied_explicitly refProcessEnv bash_tool ls_input
    (contextOf ModeBypass [] [ruleOf SrcUser Deny "bash"] []) "call-1"); reflexivity.
Defined.

Lemma decide_throws_only_from_check_witness :
  ∃ check, td_checkPermissions throwing_tool = Some check ∧
    check (JObj []) (contextOf ModeDefault [] [] []) = Throw (PlainError "boom").
Proof.
  apply (@decide_throws_only_from_check refProcessEnv throwing_tool (JObj [])
    (contextOf ModeDefault [] [] []) "call-1"). vm_compute. reflexivity.
Defined.

Lemma allow_rules_monotone_witness :
  ∃ d', @decide_permission refProcessEnv bash_tool ls_input
          (with_allow_rules (contextOf ModeDefault [ruleOf SrcUser Allow "bash"] [] [])
             [ruleOf SrcProject Allow "grep"]) "call-1" = Ok d' ∧ is_allow d' = true.
Proof.
  apply (@allow_rules_monotone refProcessEnv bash_tool ls_input
    (contextOf ModeDefault [ruleOf SrcUser Allow "bash"] [] []) "call-1"
    [ruleOf SrcProject Allow "grep"]
    (allow (ReasonRule Allow (ruleOf SrcUser Allow "bash") "Allow rule permits bash.")));
    [by repeat constructor|by intros ?|vm_compute; reflexivity|reflexivity].
Defined.
