(* ===== verification/PermissionSettings.v ===== *)
(** * Permission settings

    src/src/permission/settings.ts: reading, normalizing and writing
    [permissions.json], and the rule set the settings stand for.  The file is
    a [JSON.parse]d value or absent; [None] is a missing or unparsable file. *)

From S2P Require Import Prelude Host JsValue Text PermissionRules.

(** ** Data *)

Record permission_settings := PermissionSettings {
  ps_allowedTools : list string;
  ps_disallowedTools : list string;
  ps_skipPermissions : bool;
  ps_lastUpdated : option string;
}.

Definition DEFAULT_PERMISSION_SETTINGS : permission_settings :=
  PermissionSettings [] [] true None.

Definition TOOL_NAME_ALIASES : jmap string :=
  [("Read", "read_file"); ("Write", "write_file"); ("Edit", "edit_file");
   ("NotebookEdit", "edit_notebook"); ("MultiEdit", "edit_file"); ("Glob", "glob");
   ("Grep", "grep"); ("Bash", "bash"); ("Task", "agent"); ("TodoWrite", "todo_write");
   ("WebFetch", "web_fetch"); ("WebSearch", "web_search");
   ("DeepSeekNativeSearch", "deepseek_native_search")].

(** ** Entries *)

(** A code unit the regular expression [.] does not match, below 256. *)
Definition is_line_end (c : ascii) : bool := (code_unit c =? 10)%N || (code_unit c =? 13)%N.

(** The group of the anchored regular expression for [Bash(...)]: the text
    between the parentheses, without line ends. *)
Definition bash_match (s : string) : option string :=
  let body := str_slice 5 (String.length s - 1) s in
  if starts_with "Bash(" s && ends_with ")" s && (6 <=? String.length s)%nat
     && str_forallb (λ c, negb (is_line_end c)) body
  then Some body else None.

Definition normalizePermissionEntry (entry : string) : string :=
  let trimmed := js_trim entry in
  if bool_decide (trimmed = "") then ""
  else match bash_match trimmed with
       | Some body =>
           let pattern := js_trim body in
           if bool_decide (pattern = "") then "bash" else "bash:" +:+ pattern
       | None => default trimmed (jm_get trimmed TOOL_NAME_ALIASES)
       end.

(** The loop of [normalizeStringArray]: [out] and [seen] hold the same
    entries. *)
Definition normalize_item (out : list string) (item : jsval) : list string :=
  match item with
  | JStr s =>
      let normalized := normalizePermissionEntry s in
      if bool_decide (normalized = "") || bool_decide (normalized ∈ out) then out
      else out ++ [normalized]
  | _ => out
  end.

Definition normalizeStringArray (value : jsval) : list string :=
  match value with JArr items => foldl normalize_item [] items | _ => [] end.

(** [Boolean(v)]. *)
Definition truthy (v : jsval) : bool :=
  match v with
  | JUndefined | JNull | JBool false | JStr "" | JNum NNaN | JNum NNegZero => false
  | JNum (NInt z) => negb (z =? 0)%Z
  | _ => true
  end.

Definition normalizePermissionSettings (value : jsval) : permission_settings :=
  let record := if isRecord value then value else JObj [] in
  PermissionSettings
    (normalizeStringArray (jget record "allowedTools"))
    (normalizeStringArray (jget record "disallowedTools"))
    (truthy (jget record "skipPermissions"))
    (as_string (jget record "lastUpdated")).

(** ** Reading and writing the file *)

Definition settings_to_json (s : permission_settings) : jsval :=
  JObj ([("version", JNum (NInt 1));
         ("allowedTools", JArr (JStr <$> ps_allowedTools s));
         ("disallowedTools", JArr (JStr <$> ps_disallowedTools s));
         ("skipPermissions", JBool (ps_skipPermissions s))] ++
        match ps_lastUpdated s with Some t => [("lastUpdated", JStr t)] | None => [] end).

Definition readPermissionSettings (file : option jsval) : permission_settings :=
  match file with
  | Some parsed => normalizePermissionSettings parsed
  | None => DEFAULT_PERMISSION_SETTINGS
  end.

(** A [Partial<PermissionSettings>] argument: the fields it sets. *)
Record settings_patch := SettingsPatch {
  sp_allowedTools : option (list string);
  sp_disallowedTools : option (list string);
  sp_skipPermissions : option bool;
}.

(** [{ ...read(env), ...settings, lastUpdated }]. *)
Definition merge_settings (current : permission_settings) (settings : settings_patch)
    (now : string) : permission_settings :=
  PermissionSettings
    (default (ps_allowedTools current) (sp_allowedTools settings))
    (default (ps_disallowedTools current) (sp_disallowedTools settings))
    (default (ps_skipPermissions current) (sp_skipPermissions settings))
    (Some now).

(** The returned settings and the file afterwards. *)
Definition writePermissionSettings (settings : settings_patch) (now : string)
    (file : option jsval) : permission_settings * option jsval :=
  let next := normalizePermissionSettings
    (settings_to_json (merge_settings (readPermissionSettings file) settings now)) in
  (next, Some (settings_to_json next)).

(** ** Rules *)

Definition colon : ascii := ascii_of_N 58.

Definition permissionEntryToRule (entry : string) (behavior : rule_behavior)
    (source : rule_source) : permission_rule :=
  let normalized := normalizePermissionEntry entry in
  let parts := str_split colon normalized in
  let toolName := List.hd "" parts in
  let pattern := js_trim (str_join (char_str colon) (List.tl parts)) in
  PermissionRule source behavior
    (if bool_decide (toolName = "") then normalized else toolName)
    (if bool_decide (pattern = "") then None else Some pattern).

Definition permissionSettingsToRuleSet (settings : permission_settings) : rule_set :=
  RuleSet
    ((λ entry, permissionEntryToRule entry Allow SrcUser) <$> ps_allowedTools settings)
    ((λ entry, permissionEntryToRule entry Deny SrcUser) <$> ps_disallowedTools settings)
    [].

(** ** Lemmas *)

Lemma js_trim_bash p : js_trim p = p → js_trim ("bash:" +:+ p) = "bash:" +:+ p.
Proof.
  intros Hp. unfold js_trim in *.
  change (trim_start ("bash:" +:+ p)) with ("bash:" +:+ p).
  assert (trim_end p = p) as Hend by (rewrite <- Hp; apply trim_end_idemp).
  rewrite !append_cons, append_nil_l.
  by rewrite !trim_end_cons, Hend.
Qed.

Lemma normalizePermissionEntry_bash p :
  js_trim p = p →
  normalizePermissionEntry ("bash:" +:+ p) = "bash:" +:+ p.
Proof.
  intros Hp. unfold normalizePermissionEntry. rewrite js_trim_bash by done.
  rewrite bool_decide_eq_false_2 by done.
  change (bash_match ("bash:" +:+ p)) with (@None string).
  cbv beta iota. rewrite (proj2 (jm_get_None _ _)); [done|].
  intros Hin. apply elem_of_jm_keys in Hin as [v Hv]. apply jm_get_elem in Hv.
  assert (Forall (λ kv, starts_with "b" kv.1 = false) TOOL_NAME_ALIASES) as Hall
    by (by repeat constructor).
  rewrite Forall_forall in Hall. by apply Hall in Hv.
Qed.

(** Normalizing an entry again changes nothing. *)
Lemma normalizePermissionEntry_idemp e :
  normalizePermissionEntry (normalizePermissionEntry e) = normalizePermissionEntry e.
Proof.
  unfold normalizePermissionEntry at 2 3. case_bool_decide as He; [done|].
  destruct (bash_match (js_trim e)) as [body|] eqn:Hb.
  - case_bool_decide; [done|]. apply normalizePermissionEntry_bash, js_trim_idemp.
  - destruct (jm_get (js_trim e) TOOL_NAME_ALIASES) as [v|] eqn:Hv; cbn [default].
    + apply jm_get_elem in Hv.
      assert (Forall (λ kv, normalizePermissionEntry kv.2 = kv.2) TOOL_NAME_ALIASES) as Hall
        by (by repeat constructor).
      rewrite Forall_forall in Hall. by apply Hall in Hv.
    + unfold normalizePermissionEntry. rewrite js_trim_idemp.
      rewrite bool_decide_eq_false_2 by done. by rewrite Hb, Hv.
Qed.

(** What [normalizeStringArray] returns. *)
Definition normal_entries (l : list string) : Prop :=
  NoDup l ∧ Forall (λ e, e ≠ "" ∧ normalizePermissionEntry e = e) l.

Lemma normalize_item_normal out item :
  normal_entries out → normal_entries (normalize_item out item).
Proof.
  intros [Hnd Hall]. destruct item; try done. cbn [normalize_item].
  destruct (bool_decide (_ = "")) eqn:E1; [done|].
  destruct (bool_decide (_ ∈ out)) eqn:E2; [done|]. cbn [orb].
  apply bool_decide_eq_false in E1, E2. split.
  - apply NoDup_app. split; [done|]. split; [|apply NoDup_singleton].
    by intros x Hx ->%list_elem_of_singleton.
  - apply Forall_app. split; [done|]. constructor; [|done].
    split; [done|apply normalizePermissionEntry_idemp].
Qed.

Lemma normalizeStringArray_normal v : normal_entries (normalizeStringArray v).
Proof.
  assert (∀ items out, normal_entries out → normal_entries (foldl normalize_item out items))
    as Hfold.
  { induction items as [|item items IH]; intros out Hout; [done|].
    cbn [foldl]. by apply IH, normalize_item_normal. }
  assert (normal_entries []) as Hnil by (split; constructor).
  destruct v; try done. by apply Hfold.
Qed.

Lemma foldl_normal l : ∀ out,
  normal_entries (out ++ l) → foldl normalize_item out (JStr <$> l) = out ++ l.
Proof.
  induction l as [|e l IH]; intros out Hn; [by rewrite app_nil_r|].
  rewrite fmap_cons. cbn [foldl]. destruct Hn as [Hnd Hall].
  apply Forall_app in Hall as Hall'. destruct Hall' as [_ [[He Hne] _]%Forall_cons].
  apply NoDup_app in Hnd as Hnd'. destruct Hnd' as (_ & Hdis & _).
  assert (normalize_item out (JStr e) = out ++ [e]) as ->.
  { cbn [normalize_item]. rewrite Hne, !bool_decide_eq_false_2; [done| |done].
    intros Hin. apply (Hdis e Hin). by left. }
  rewrite IH; rewrite <- app_assoc; by try split.
Qed.

Lemma normalizeStringArray_id l :
  normal_entries l → normalizeStringArray (JArr (JStr <$> l)) = l.
Proof. intros Hl. cbn [normalizeStringArray]. by rewrite foldl_normal. Qed.

(** Settings whose lists are normal are read back as they are. *)
Lemma normalize_settings_to_json s :
  normal_entries (ps_allowedTools s) → normal_entries (ps_disallowedTools s) →
  normalizePermissionSettings (settings_to_json s) = s.
Proof.
  intros Ha Hd. destruct s as [a d b t]. cbn in Ha, Hd.
  unfold normalizePermissionSettings, settings_to_json.
  cbn [isRecord ps_allowedTools ps_disallowedTools ps_skipPermissions ps_lastUpdated].
  assert (jget (JObj ([("version", JNum (NInt 1)); ("allowedTools", JArr (JStr <$> a));
    ("disallowedTools", JArr (JStr <$> d)); ("skipPermissions", JBool b)] ++
    match t with Some t => [("lastUpdated", JStr t)] | None => [] end)) "lastUpdated"
    = match t with Some t => JStr t | None => JUndefined end) as -> by (by destruct t).
  change (jget (JObj _) "allowedTools") with (JArr (JStr <$> a)).
  change (jget (JObj _) "disallowedTools") with (JArr (JStr <$> d)).
  change (jget (JObj _) "skipPermissions") with (JBool b).
  rewrite !normalizeStringArray_id by done. by destruct b, t.
Qed.

Lemma bash_match_call p :
  str_forallb (λ c, negb (is_line_end c)) p = true →
  bash_match ("Bash(" +:+ p +:+ ")") = Some p.
Proof.
  intros Hp. unfold bash_match.
  assert (str_slice 5 (String.length ("Bash(" +:+ p +:+ ")") - 1) ("Bash(" +:+ p +:+ ")") = p)
    as ->.
  { rewrite !length_append. pose proof (str_slice_middle "Bash(" p ")") as Hm.
    cbn [String.length] in *. rewrite <- Hm at 3. f_equal; lia. }
  rewrite Hp, <- append_assoc, ends_with_append.
  rewrite !length_append. cbn [String.length].
  rewrite (proj2 (Nat.leb_le _ _)) by lia. by destruct p.
Qed.

(** ** Properties *)

(** C37: What a write returns is what the next read returns, whatever the file
    held before and whatever entries were passed: the written lists hold no
    duplicates and no empty entry and are already normalized. *)
Theorem settings_write_read settings now file :
  readPermissionSettings (writePermissionSettings settings now file).2
  = (writePermissionSettings settings now file).1 ∧
  normal_entries (ps_allowedTools (writePermissionSettings settings now file).1) ∧
  normal_entries (ps_disallowedTools (writePermissionSettings settings now file).1) ∧
  ps_lastUpdated (writePermissionSettings settings now file).1 = Some now.
Proof.
  unfold writePermissionSettings. cbn [fst snd readPermissionSettings].
  split; [|split; [apply normalizeStringArray_normal|
    split; [apply normalizeStringArray_normal|done]]].
  apply normalize_settings_to_json; apply normalizeStringArray_normal.
Qed.

(** P: An entry [Bash(p)] becomes the rule for the [bash] tool with pattern
    [p] (trimmed), whatever colons, wildcards or parentheses [p] holds. *)
Theorem bash_entry_rule p behavior source :
  str_forallb (λ c, negb (is_line_end c)) p = true → js_trim p ≠ "" →
  permissionEntryToRule ("Bash(" +:+ p +:+ ")") behavior source
  = PermissionRule source behavior "bash" (Some (js_trim p)).
Proof.
  intros Hp Hne.
  assert (normalizePermissionEntry ("Bash(" +:+ p +:+ ")") = "bash:" +:+ js_trim p) as Hn.
  { assert (js_trim ("Bash(" +:+ p +:+ ")") = "Bash(" +:+ p +:+ ")") as Ht.
    { unfold js_trim. change (trim_start ("Bash(" +:+ p +:+ ")")) with ("Bash(" +:+ p +:+ ")").
      rewrite <- append_assoc. by apply trim_end_solid. }
    unfold normalizePermissionEntry. rewrite Ht.
    rewrite bool_decide_eq_false_2 by done. rewrite bash_match_call by done.
    by rewrite bool_decide_eq_false_2. }
  unfold permissionEntryToRule. rewrite Hn.
  change ("bash:" +:+ js_trim p) with ("bash" +:+ char_str colon +:+ js_trim p).
  rewrite str_split_append by done. cbn [List.hd List.tl].
  rewrite str_join_split, js_trim_idemp.
  by rewrite !bool_decide_eq_false_2.
Qed.

Lemma bash_entry_rule_witness :
  permissionEntryToRule "Bash( git log:* )" Allow SrcUser
  = PermissionRule SrcUser Allow "bash" (Some "git log:*").
Proof. apply (bash_entry_rule " git log:* " Allow SrcUser); [reflexivity|discriminate]. Defined.

Example settings_run :
  (writePermissionSettings (SettingsPatch (Some ["Read"; " Read "; "Bash(rm *)"; ""]) None None)
     "2024-01-01" None).1
  = PermissionSettings ["read_file"; "bash:rm *"] [] true (Some "2024-01-01").
Proof. reflexivity. Qed.
