(* ===== verification/CronSchedule.v ===== *)
(** * Cron schedules

    src/src/cron/runtime/CronSchedule.ts: parsing five-field cron expressions
    and the search for the next minute that matches one in a time zone.  The
    time-zone database behind [Intl.DateTimeFormat] is a parameter ([Zones]);
    [UtcZones] is the concrete one used for evaluation.  Delays are whole
    numbers of units. *)

From S2P Require Import Prelude Host Text.
Local Open Scope Z_scope.

Definition MINUTE_MS : Z := 60000.
Definition MAX_SEARCH_MINUTES : Z := 366 * 24 * 60.

(** ** Time zones *)

(** What [readCronDateParts] extracts from [formatToParts]. *)
Record date_parts := DateParts {
  dp_minute : Z;
  dp_hour : Z;
  dp_dayOfMonth : Z;
  dp_month : Z;
  dp_dayOfWeek : Z;
}.

Class Zones := {
  (** [isValidCronTimezone]: the [Intl.DateTimeFormat] constructor accepts it. *)
  valid_zone : string → bool;
  (** The parts of a time value in a zone; [None] when one is not readable. *)
  zone_parts : string → Z → option date_parts;
}.

(** ** Fields *)

(** The decimal digits at the head of a text. *)
Fixpoint digits_prefix (acc : option Z) (s : string) : option Z :=
  match s with
  | String c s =>
      if is_digit c then
        digits_prefix (Some (default 0 acc * 10 + (Z.of_N (code_unit c) - 48))) s
      else acc
  | EmptyString => acc
  end.

(** [Number.parseInt(text, 10)]; [None] is [NaN], or an infinity (a literal of
    over three hundred digits), neither of which is an integer. *)
Definition js_parse_int (s : string) : option Z :=
  let finite z := if Z.abs z <? 2 ^ 1024 - 2 ^ 970 then Some z else None in
  match trim_start s with
  | String "-" t => z ← digits_prefix None t; finite (- z)
  | String "+" t => z ← digits_prefix None t; finite z
  | t => z ← digits_prefix None t; finite z
  end.

(** [for (value = start; value <= end; value += step)]. *)
Fixpoint stepped (fuel : nat) (value stop step : Z) : list Z :=
  match fuel with
  | O => []
  | S fuel => if value <=? stop then value :: stepped fuel (value + step) stop step else []
  end.

Definition range_values (start stop step : Z) : list Z :=
  stepped (Z.to_nat (stop - start + 1)) start stop step.

(** The values one comma-separated part of a field stands for. *)
Definition parse_part (part : string) (min max : Z) : option (list Z) :=
  let trimmed := js_trim part in
  if bool_decide (trimmed = "") then None
  else
    let stepParts := str_split "/" trimmed in
    if (2 <? length stepParts)%nat then None
    else
      let base := nth 0 stepParts "" in
      step ← match stepParts !! 1%nat with None => Some 1 | Some s => js_parse_int s end;
      if step <=? 0 then None
      else
        '(start, stop) ←
          (if bool_decide (base = "*") then Some (min, max)
           else if str_has_char "-" base then
             let pieces := str_split "-" base in
             start ← js_parse_int (nth 0 pieces "");
             stop ← js_parse_int (nth 1 pieces "");
             Some (start, stop)
           else start ← js_parse_int base; Some (start, start));
        if (start <? min) || (max <? stop) || (stop <? start) then None
        else Some (range_values start stop step).

Definition parseField (field : string) (min max : Z) : option (gset Z) :=
  parts ← mapM (λ part, parse_part part min max) (str_split "," field);
  Some (list_to_set (concat parts)).

(** ** Expressions *)

Record parsed_cron := ParsedCron {
  minutes : gset Z;
  hours : gset Z;
  daysOfMonth : gset Z;
  months : gset Z;
  daysOfWeek : gset Z;
}.

(** [text.split(/\s+/)]: [word] is the piece being read, [gap] says that the
    last character was white space. *)
Fixpoint split_spaces (word : string) (gap : bool) (s : string) : list string :=
  match s with
  | EmptyString => [word]
  | String c s =>
      if is_js_space c then
        if gap then split_spaces word true s else word :: split_spaces "" true s
      else split_spaces (word +:+ char_str c) false s
  end.

Definition parseCronExpression (expression : string) : option parsed_cron :=
  match split_spaces "" false (js_trim expression) with
  | [minute; hour; dayOfMonth; month; dayOfWeek] =>
      minutes ← parseField minute 0 59;
      hours ← parseField hour 0 23;
      daysOfMonth ← parseField dayOfMonth 1 31;
      months ← parseField month 1 12;
      daysOfWeek ← parseField dayOfWeek 0 7;
      Some (ParsedCron minutes hours daysOfMonth months
        (if bool_decide (7 ∈ daysOfWeek) then ({[0]} ∪ daysOfWeek) ∖ {[7]} else daysOfWeek))
  | _ => None
  end.

(** ** The search *)

Section Zoned.
Context `{Zones}.

Definition matches_parts (cron : parsed_cron) (p : date_parts) : bool :=
  bool_decide (dp_minute p ∈ minutes cron) && bool_decide (dp_hour p ∈ hours cron)
  && bool_decide (dp_dayOfMonth p ∈ daysOfMonth cron) && bool_decide (dp_month p ∈ months cron)
  && bool_decide (dp_dayOfWeek p ∈ daysOfWeek cron).

Definition matchesCron (zone : string) (cron : parsed_cron) (t : Z) : bool :=
  match zone_parts zone t with
  | Some p => matches_parts cron p
  | None => false
  end.

(** The first whole minute after [after]. *)
Definition first_candidate (after : Z) : Z := (after / MINUTE_MS) * MINUTE_MS + MINUTE_MS.

Fixpoint search (fuel : nat) (zone : string) (cron : parsed_cron) (candidate : Z) : option Z :=
  match fuel with
  | O => None
  | S fuel =>
      if matchesCron zone cron candidate then Some candidate
      else search fuel zone cron (candidate + MINUTE_MS)
  end.

Definition computeNextCronRunAt (expression : string) (after : Z) (timezone : string) : option Z :=
  match parseCronExpression expression with
  | None => None
  | Some parsed =>
      if negb (valid_zone timezone) then None
      else search (Z.to_nat MAX_SEARCH_MINUTES) timezone parsed (first_candidate after)
  end.

(** [resolveCronTimezone] of src/src/cron/CronTimezone.ts. *)
Definition resolveCronTimezone (scheduleTimezone taskTimezone configTimezone : option string) :
    string :=
  let usable z := match z with
                  | Some z => negb (bool_decide (z = "")) && valid_zone z
                  | None => false
                  end in
  match List.find usable [scheduleTimezone; taskTimezone; configTimezone; Some "UTC"] with
  | Some (Some z) => z
  | _ => "UTC"
  end.

(** ** Schedules *)

Inductive delay_unit := Second | Minute | Hour | Day.

Definition DELAY_UNIT_MS (u : delay_unit) : Z :=
  match u with
  | Second => 1000
  | Minute => MINUTE_MS
  | Hour => 60 * MINUTE_MS
  | Day => 24 * 60 * MINUTE_MS
  end.

Definition delayToMilliseconds (amount : Z) (unit : delay_unit) : option Z :=
  if amount <=? 0 then None else Some (amount * DELAY_UNIT_MS unit).

Inductive cron_schedule :=
  | Once (runAt : string)
  | Cron (expression : string) (timezone : option string)
  | Delay (amount : Z) (unit : delay_unit).

(** A [Date]: [None] is an invalid one. *)
Definition js_date : Type := option Z.

(** [new Date(t)]. *)
Definition date_of (t : Z) : js_date := if is_time_value t then Some t else None.

(** The outer option is [undefined]. *)
Definition computeNextRunAt `{Host} (schedule : cron_schedule) (after : Z) (fallbackTimezone : string) :
    option js_date :=
  match schedule with
  | Once runAt => t ← date_parse runAt; Some (Some t)
  | Delay amount unit => ms ← delayToMilliseconds amount unit; Some (date_of (after + ms))
  | Cron expression timezone =>
      t ← computeNextCronRunAt expression after (default fallbackTimezone timezone);
      Some (date_of t)
  end.
End Zoned.

(** ** UTC *)

Module Utc.
(** The civil date of a day number (days since 1970-01-01), by 400-year eras:
    month, day of the month, day of the week. *)
Definition civil (day : Z) : Z * Z * Z :=
  let z := day + 719468 in
  let doe := z mod 146097 in
  let yoe := (doe - doe / 1460 + doe / 36524 - doe / 146096) / 365 in
  let doy := doe - (365 * yoe + yoe / 4 - yoe / 100) in
  let mp := (5 * doy + 2) / 153 in
  (if mp <? 10 then mp + 3 else mp - 9, doy - (153 * mp + 2) / 5 + 1, (day + 4) mod 7).

Definition parts (t : Z) : date_parts :=
  let '(month, day, weekday) := civil (t / 86400000) in
  DateParts ((t / 60000) mod 60) ((t / 3600000) mod 24) day month weekday.
End Utc.

#[export] Instance UtcZones : Zones := {|
  valid_zone z := bool_decide (z = "UTC");
  zone_parts z t := if bool_decide (z = "UTC") then Some (Utc.parts t) else None;
|}.

(** 2024-01-01T10:07:30Z is a Monday. *)
Example next_runs :
  computeNextCronRunAt "*/15 * * * *" 1704103650000 "UTC" = Some 1704104100000 ∧
  computeNextCronRunAt " 10  9-17/5,10 * * 1-5 " 1704103650000 "UTC" = Some 1704103800000 ∧
  computeNextCronRunAt "60 * * * *" 1704103650000 "UTC" = None ∧
  computeNextCronRunAt "* * * *" 1704103650000 "UTC" = None.
Proof. split_and!; reflexivity. Qed.

(** ** Fields *)

Lemma stepped_elem fuel : ∀ start stop step v,
  0 < step → stop - start < Z.of_nat fuel →
  v ∈ stepped fuel start stop step ↔ ∃ k, 0 <= k ∧ v = start + k * step ∧ v <= stop.
Proof.
  induction fuel as [|fuel IH]; intros start stop step v Hs Hf; cbn [stepped].
  - split; [by intros ?%elem_of_nil|]. intros (k & Hk & -> & Hv). nia.
  - destruct (start <=? stop) eqn:E.
    + rewrite elem_of_cons, IH by lia. split.
      * intros [->|(k & Hk & -> & Hv)]; [exists 0; lia|exists (k + 1); lia].
      * intros (k & Hk & -> & Hv). destruct (decide (k = 0)) as [->|Hne]; [left; lia|].
        right. exists (k - 1). lia.
    + split; [by intros ?%elem_of_nil|]. intros (k & Hk & -> & Hv). nia.
Qed.

Lemma range_values_elem start stop step v :
  0 < step → start <= stop →
  v ∈ range_values start stop step ↔ ∃ k, 0 <= k ∧ v = start + k * step ∧ v <= stop.
Proof. intros Hs Hr. unfold range_values. apply stepped_elem; lia. Qed.

Lemma parse_part_Some part min max l :
  parse_part part min max = Some l →
  ∃ start stop step, 0 < step ∧ min <= start ∧ start <= stop ∧ stop <= max ∧
    l = range_values start stop step.
Proof.
  unfold parse_part. intros Hp. case_bool_decide; [done|].
  case_match; [done|]. apply bind_Some in Hp as (step & _ & Hp).
  destruct (step <=? 0) eqn:Hstep; [done|]. apply bind_Some in Hp as ([start stop] & _ & Hp).
  destruct (_ || _) eqn:E in Hp; [done|]. injection Hp as <-.
  apply orb_false_iff in E as [[E1 E2]%orb_false_iff E3].
  exists start, stop, step. split_and!; (done || lia).
Qed.

Lemma parse_part_range part min max l v :
  parse_part part min max = Some l → v ∈ l → min <= v <= max.
Proof.
  intros (start & stop & step & Hs & H1 & H2 & H3 & ->)%parse_part_Some.
  rewrite range_values_elem by done. intros (k & Hk & -> & Hv). nia.
Qed.

Lemma parse_part_nonempty part min max l : parse_part part min max = Some l → ∃ v, v ∈ l.
Proof.
  intros (start & stop & step & Hs & H1 & H2 & H3 & ->)%parse_part_Some.
  exists start. apply range_values_elem; [done..|]. exists 0. lia.
Qed.

Lemma str_split_cons c s : ∃ x l, str_split c s = x :: l.
Proof. induction s as [|d s IH]; cbn; [by do 2 eexists|]. case_match; [by do 2 eexists|]. destruct (str_split c s); by do 2 eexists. Qed.

Lemma parseField_range field min max S :
  parseField field min max = Some S → S ≠ ∅ ∧ ∀ v, v ∈ S → min <= v <= max.
Proof.
  unfold parseField. intros (parts & Hm & [= <-])%bind_Some. apply mapM_Some in Hm. split.
  - destruct (str_split_cons "," field) as (x & l & Hx). rewrite Hx in Hm.
    inv Hm. rename select (parse_part x min max = _) into Hp.
    destruct (parse_part_nonempty _ _ _ _ Hp) as [v Hv]. cbn. set_solver.
  - intros v (l & Hl & Hv)%elem_of_list_to_set%list_elem_of_In%in_concat.
    apply list_elem_of_In in Hl, Hv. apply list_elem_of_lookup in Hl as [i Hi].
    destruct (Forall2_lookup_r _ _ _ _ _ Hm Hi) as (part & _ & Hp).
    by eapply parse_part_range.
Qed.

(** P: an accepted expression names at least one minute, hour, day of the
    month, month and day of the week, all of them within the calendar's
    ranges, Sunday always as zero. *)
Theorem cron_fields_in_range e c :
  parseCronExpression e = Some c →
  (minutes c ≠ ∅ ∧ ∀ v, v ∈ minutes c → 0 <= v <= 59) ∧
  (hours c ≠ ∅ ∧ ∀ v, v ∈ hours c → 0 <= v <= 23) ∧
  (daysOfMonth c ≠ ∅ ∧ ∀ v, v ∈ daysOfMonth c → 1 <= v <= 31) ∧
  (months c ≠ ∅ ∧ ∀ v, v ∈ months c → 1 <= v <= 12) ∧
  (daysOfWeek c ≠ ∅ ∧ ∀ v, v ∈ daysOfWeek c → 0 <= v <= 6).
Proof.
  unfold parseCronExpression. intros Hp.
  destruct (split_spaces _ _ _) as [|m [|h [|d [|mo [|w [|]]]]]]; try done.
  apply bind_Some in Hp as (sm & Hm & Hp). apply bind_Some in Hp as (sh & Hh & Hp).
  apply bind_Some in Hp as (sd & Hd & Hp). apply bind_Some in Hp as (so & Ho & Hp).
  apply bind_Some in Hp as (sw & Hw & [= <-]). cbn.
  apply parseField_range in Hm, Hh, Hd, Ho.
  split; [exact Hm|]. split; [exact Hh|]. split; [exact Hd|]. split; [exact Ho|]. split.
  - apply parseField_range in Hw as [Hw _]. case_bool_decide; [|done]. intros He.
    eapply (not_elem_of_empty (C:=gset Z) 0). rewrite <- He. apply elem_of_difference.
    split; [by apply elem_of_union_l, elem_of_singleton|]. by rewrite elem_of_singleton.
  - apply parseField_range in Hw as [_ Hw]. intros v Hv. case_bool_decide as H7.
    + apply elem_of_difference in Hv as [Hv Hne]. rewrite elem_of_singleton in Hne.
      apply elem_of_union in Hv as [->%elem_of_singleton|Hv]; [lia|]. apply Hw in Hv. lia.
    + assert (v ≠ 7) by (by intros ->). apply Hw in Hv. lia.
Qed.

(** ** The search *)

Section Search.
Context `{Zones}.

Lemma search_spec fuel zone cron : ∀ t,
  match search fuel zone cron t with
  | Some r => ∃ k, 0 <= k < Z.of_nat fuel ∧ r = t + k * MINUTE_MS ∧ matchesCron zone cron r = true ∧
      ∀ i, 0 <= i < k → matchesCron zone cron (t + i * MINUTE_MS) = false
  | None => ∀ i, 0 <= i < Z.of_nat fuel → matchesCron zone cron (t + i * MINUTE_MS) = false
  end.
Proof.
  induction fuel as [|fuel IH]; intros t; cbn [search]; [lia|].
  destruct (matchesCron zone cron t) eqn:E.
  - exists 0. split_and!; [lia..|done|lia].
  - specialize (IH (t + MINUTE_MS)).
    assert (∀ i, matchesCron zone cron (t + MINUTE_MS + (i - 1) * MINUTE_MS) = false →
      matchesCron zone cron (t + i * MINUTE_MS) = false) as Hi.
    { intros i Hi. by replace (t + i * MINUTE_MS) with (t + MINUTE_MS + (i - 1) * MINUTE_MS) by lia. }
    destruct (search fuel zone cron (t + MINUTE_MS)) as [r|].
    + destruct IH as (k & Hk & -> & Hm & Hn). exists (k + 1). split_and!; [lia..|done|].
      intros i Hr. destruct (decide (i = 0)) as [->|Hne]; [by rewrite Z.mul_0_l, Z.add_0_r|].
      apply Hi, Hn. lia.
    + intros i Hr. destruct (decide (i = 0)) as [->|Hne]; [by rewrite Z.mul_0_l, Z.add_0_r|].
      apply Hi, IH. lia.
Qed.

(** A time at which a schedule may run: a whole minute that matches. *)
Definition may_run (zone : string) (cron : parsed_cron) (t : Z) : Prop :=
  t mod MINUTE_MS = 0 ∧ matchesCron zone cron t = true.

(** The last minute the search looks at. *)
Definition horizon (after : Z) : Z := first_candidate after + (MAX_SEARCH_MINUTES - 1) * MINUTE_MS.

Lemma minute_index after t :
  after < t → t mod MINUTE_MS = 0 →
  ∃ i, 0 <= i ∧ t = first_candidate after + i * MINUTE_MS.
Proof.
  unfold first_candidate, MINUTE_MS. intros Ht Hm.
  pose proof (Z.div_mod after 60000). pose proof (Z.mod_pos_bound after 60000).
  pose proof (Z.div_mod t 60000).
  exists (t / 60000 - after / 60000 - 1). split; [|lia].
  assert (after / 60000 < t / 60000); [|lia]. lia.
Qed.

Lemma candidate_minute after i :
  0 <= i → (first_candidate after + i * MINUTE_MS) mod MINUTE_MS = 0 ∧
  after < first_candidate after + i * MINUTE_MS.
Proof.
  unfold first_candidate, MINUTE_MS. intros Hi. split.
  - replace (after / 60000 * 60000 + 60000 + i * 60000) with ((after / 60000 + 1 + i) * 60000) by lia.
    by apply Z.mod_mul.
  - pose proof (Z.div_mod after 60000). pose proof (Z.mod_pos_bound after 60000). lia.
Qed.


Lemma invalid_expression_never_runs e after zone :
  parseCronExpression e = None ∨ valid_zone zone = false → computeNextCronRunAt e after zone = None.
Proof. unfold computeNextCronRunAt. intros [-> | ->]; [done|]. by case_match. Qed.
End Search.

(** ** The leap day *)

Definition leap_day_sets : parsed_cron :=
  ParsedCron {[0]} {[0]} {[29]} {[2]} (list_to_set [0; 1; 2; 3; 4; 5; 6]).

Lemma leap_day_parsed : parseCronExpression "0 0 29 2 *" = Some leap_day_sets.
Proof. vm_compute. reflexivity. Qed.

(** Days 19783 to 20148 are 2024-03-01 to 2025-03-01. *)
Lemma no_leap_day_in_a_year :
  forallb (λ n, let '(month, day, _) := Utc.civil (19783 + Z.of_nat n) in
                negb ((month =? 2) && (day =? 29))) (seq 0 366) = true.
Proof. vm_compute. reflexivity. Qed.

Lemma leap_day_match t :
  1709164800000 < t <= 1740787200000 → t mod MINUTE_MS = 0 →
  matchesCron "UTC" leap_day_sets t ≠ true.
Proof.
  intros Ht Hmod Hm.
  unfold matchesCron, matches_parts in Hm. cbn [zone_parts UtcZones] in Hm.
  rewrite bool_decide_eq_true_2 in Hm by done. unfold Utc.parts in Hm.
  pose proof (Z.div_mod t 86400000) as Hd. pose proof (Z.mod_pos_bound t 86400000) as Hr.
  set (d := t / 86400000) in *. destruct (Utc.civil d) as [[month day] weekday] eqn:Ec.
  cbn in Hm. rewrite !andb_true_iff, !bool_decide_eq_true, !elem_of_singleton in Hm.
  destruct Hm as [[[[H1 H2] H3] H4] _]. subst month day.
  assert (19782 <= d <= 20148) as Hrange by (clear -Ht Hd Hr; lia).
  destruct (decide (d = 19782)) as [E|Hne].
  - unfold MINUTE_MS in Hmod. clear -Ht Hmod Hd Hr H1 H2 E. Z.to_euclidean_division_equations. lia.
  - pose proof no_leap_day_in_a_year as Hall. rewrite forallb_forall in Hall.
    specialize (Hall (Z.to_nat (d - 19783))). rewrite Z2Nat.id in Hall by lia.
    replace (19783 + (d - 19783)) with d in Hall by lia. rewrite Ec in Hall.
    discriminate Hall. apply in_seq. lia.
Qed.

(** P: a schedule for the leap day is never run twice: after its run no minute
    of the next 366 days matches, so it has no next run. *)
Theorem leap_day_runs_once : computeNextCronRunAt "0 0 29 2 *" 1709164800000 "UTC" = None.
Proof.
  unfold computeNextCronRunAt. rewrite leap_day_parsed. cbn [valid_zone UtcZones].
  rewrite bool_decide_eq_true_2 by done. cbn [negb].
  pose proof (search_spec (Z.to_nat MAX_SEARCH_MINUTES) "UTC" leap_day_sets
    (first_candidate 1709164800000)) as Hs.
  destruct (search _ _ _ _) as [t|]; [exfalso|done].
  destruct Hs as (k & Hk & -> & Hm & _).
  destruct (candidate_minute 1709164800000 k) as [Hmod Hlt]; [lia|].
  eapply leap_day_match; [|exact Hmod|exact Hm]. split; [exact Hlt|].
  change (first_candidate 1709164800000) with 1709164860000. unfold MAX_SEARCH_MINUTES, MINUTE_MS in *. lia.
Qed.

(** ** Witnesses *)

Lemma cron_fields_in_range_witness :
  (minutes leap_day_sets ≠ ∅) ∧ ∀ v, v ∈ daysOfWeek leap_day_sets → 0 <= v <= 6.
Proof.
  destruct (cron_fields_in_range "0 0 29 2 *" leap_day_sets leap_day_parsed)
    as ([H1 _] & _ & _ & _ & [_ H2]).
  split; [exact H1|exact H2].
Defined.

Definition quarter_sets : parsed_cron := Eval vm_compute in
  default leap_day_sets (parseCronExpression "*/15 * * * *").

Lemma quarter_parsed : parseCronExpression "*/15 * * * *" = Some quarter_sets.
Proof. vm_compute. reflexivity. Qed.

