(* ===== verification/ProviderHealth.v ===== *)
(** * The provider circuit breaker

    [ProviderHealthTracker] of src/src/router/health/ProviderHealthTracker.ts.
    Counters and times are integers, the failure ratio an exact fraction; the
    injected clock is an argument [now] of each operation, read once. *)

From Stdlib Require Import QArith.
From S2P Require Import Prelude.
Open Scope Z_scope.

(** ** State *)

Inductive health_state := Healthy | Degraded | Open | HalfOpen.

#[export] Instance health_state_eq_dec : EqDecision health_state.
Proof. solve_decision. Defined.

Record probe_results := ProbeResults { probe_success : Z; probe_failure : Z }.

Record provider_record := ProviderRecord {
  pv_state : health_state;
  pv_consecutiveFailures : Z;
  pv_openedAt : Z;
  pv_window : list bool;
  pv_openCount : Z;
  pv_probeResults : probe_results;
}.

Definition STRESS_CODES : list string := ["rate_limit_error"; "overloaded_error"].

(** The constructor's [options]. *)
Record tracker_options := TrackerOptions {
  to_degradeThreshold : option Z;
  to_openThreshold : option Z;
  to_openDurationMs : option Z;
  to_maxOpenDurationMs : option Z;
  to_windowSize : option Z;
  to_halfOpenProbes : option Z;
  to_halfOpenFailureRatio : option Q;
}.

Record tracker_config := TrackerConfig {
  degradeThreshold : Z;
  openThreshold : Z;
  openDurationMs : Z;
  maxOpenDurationMs : Z;
  windowSize : Z;
  halfOpenProbes : Z;
  halfOpenFailureRatio : Q;
}.

Definition tracker_config_of (o : tracker_options) : tracker_config :=
  {| degradeThreshold := default 3 (to_degradeThreshold o);
     openThreshold := default 5 (to_openThreshold o);
     openDurationMs := default 30000 (to_openDurationMs o);
     maxOpenDurationMs := default 300000 (to_maxOpenDurationMs o);
     windowSize := default 20 (to_windowSize o);
     halfOpenProbes := Z.max 1 (default 3 (to_halfOpenProbes o));
     halfOpenFailureRatio := default (1 # 2)%Q (to_halfOpenFailureRatio o) |}.

(** The constructor clamps the probe budget. *)
Class ConfigOk (c : tracker_config) : Prop := {
  probes_positive : 1 <= halfOpenProbes c;
}.

Definition no_probes : probe_results := ProbeResults 0 0.

Definition fresh_record : provider_record := ProviderRecord Healthy 0 0 [] 0 no_probes.

(** The records by provider id. *)
Abbreviation tracker := (jmap provider_record).

(** ** Steps on one record *)

Section Steps.
Context (c : tracker_config).

Definition effectiveOpenDurationMs (r : provider_record) : Z :=
  let backoff := openDurationMs c * 2 ^ Z.max 0 (pv_openCount r - 1) in
  Z.min backoff (maxOpenDurationMs c).

Definition maybeTransitionToHalfOpen (now : Z) (r : provider_record) : provider_record :=
  if bool_decide (pv_state r = Open)
   && (effectiveOpenDurationMs r <=? now - pv_openedAt r)
  then ProviderRecord HalfOpen (pv_consecutiveFailures r) (pv_openedAt r) (pv_window r)
       (pv_openCount r) no_probes
  else r.

Definition probeWindowComplete (r : provider_record) : bool :=
  halfOpenProbes c <=? probe_success (pv_probeResults r) + probe_failure (pv_probeResults r).

Definition open_circuit (now : Z) (r : provider_record) : provider_record :=
  if bool_decide (pv_state r ≠ Open)
  then ProviderRecord Open (pv_consecutiveFailures r) now (pv_window r)
       (pv_openCount r + 1) (pv_probeResults r)
  else r.

Definition with_state (s : health_state) (r : provider_record) : provider_record :=
  ProviderRecord s (pv_consecutiveFailures r) (pv_openedAt r) (pv_window r)
  (pv_openCount r) (pv_probeResults r).

Definition with_probes (p : probe_results) (r : provider_record) : provider_record :=
  ProviderRecord (pv_state r) (pv_consecutiveFailures r) (pv_openedAt r) (pv_window r)
  (pv_openCount r) p.

(** The failure ratio of the probe window against the threshold. *)
Definition ratio_reopens (p : probe_results) : bool :=
  let total := probe_success p + probe_failure p in
  let failureRatio :=
  if 0 <? total then (inject_Z (probe_failure p) / inject_Z total)%Q else 0%Q in
  Qle_bool (halfOpenFailureRatio c) failureRatio.

Definition resolveProbeWindow (now : Z) (r : provider_record) : provider_record :=
  let r :=
  if ratio_reopens (pv_probeResults r) then open_circuit now r
  else ProviderRecord Healthy (pv_consecutiveFailures r) (pv_openedAt r) (pv_window r) 0
         (pv_probeResults r) in
  with_probes no_probes r.

(** [rec.window.push(b); if (rec.window.length > windowSize) rec.window.shift()]. *)
Definition push_window (b : bool) (w : list bool) : list bool :=
  let w := w ++ [b] in
  if windowSize c <? Z.of_nat (length w) then tail w else w.

(** The counters both [recordSuccess] and [recordFailure] update first. *)
Definition count_result (now : Z) (b : bool) (r : provider_record) : provider_record :=
  let r := maybeTransitionToHalfOpen now r in
  ProviderRecord (pv_state r) (if b then 0 else pv_consecutiveFailures r + 1)
  (pv_openedAt r) (push_window b (pv_window r)) (pv_openCount r) (pv_probeResults r).

(** The half-open branch of both. *)
Definition count_probe (now : Z) (b : bool) (r : provider_record) : provider_record :=
  let p := pv_probeResults r in
  let r := with_probes
  (if b then ProbeResults (probe_success p + 1) (probe_failure p)
   else ProbeResults (probe_success p) (probe_failure p + 1)) r in
  if probeWindowComplete r then resolveProbeWindow now r else r.

Definition success_step (now : Z) (r : provider_record) : provider_record :=
  let r := count_result now true r in
  match pv_state r with
  | HalfOpen => count_probe now true r
  | Degraded | Open => with_state Healthy r
  | Healthy => r
  end.

Definition failure_step (now : Z) (errorCode : option string) (r : provider_record)
  : provider_record :=
  let r := count_result now false r in
  match pv_state r with
  | HalfOpen => count_probe now false r
  | _ =>
    let stressed :=
      match errorCode with Some code => bool_decide (code ∈ STRESS_CODES) | None => false end in
    let r := if stressed && bool_decide (pv_state r = Healthy)
             then with_state Degraded r else r in
    if openThreshold c <=? pv_consecutiveFailures r then open_circuit now r
    else if degradeThreshold c <=? pv_consecutiveFailures r then
      (if bool_decide (pv_state r = Healthy) then with_state Degraded r else r)
    else r
  end.

(** ** The tracker *)

Definition getOrCreate (id : string) (t : tracker) : provider_record :=
  default fresh_record (jm_get id t).

Definition recordSuccess (now : Z) (id : string) (t : tracker) : tracker :=
  jm_set id (success_step now (getOrCreate id t)) t.

Definition recordFailure (now : Z) (id : string) (errorCode : option string) (t : tracker)
  : tracker :=
  jm_set id (failure_step now errorCode (getOrCreate id t)) t.

Definition getState (now : Z) (id : string) (t : tracker) : health_state * tracker :=
  match jm_get id t with
  | None => (Healthy, t)
  | Some r =>
    let r := maybeTransitionToHalfOpen now r in (pv_state r, jm_set id r t)
  end.

Definition shouldSkip (now : Z) (id : string) (t : tracker) : bool * tracker :=
  let '(state, t) := getState now id t in
  match state with
  | Open => (true, t)
  | HalfOpen => (probeWindowComplete (getOrCreate id t), t)
  | _ => (false, t)
  end.

Definition isAvailable (now : Z) (id : string) (t : tracker) : bool * tracker :=
  let '(skip, t) := shouldSkip now id t in (negb skip, t).

Definition getSuccessRate (providerId : string) (t : tracker) : Q :=
  match jm_get providerId t with
  | None => 1%Q
  | Some r =>
    match pv_window r with
    | [] => 1%Q
    | w => (inject_Z (Z.of_nat (length (List.filter id w)))
            / inject_Z (Z.of_nat (length w)))%Q
    end
  end.

Definition snapshot (t : tracker) : jmap (health_state * Z * Z) :=
  (λ kv, (kv.1, (pv_state kv.2, pv_consecutiveFailures kv.2, pv_openCount kv.2))) <$> t.

Definition reset (id : string) (t : tracker) : tracker := filter (λ kv, kv.1 ≠ id) t.

Definition resetAll (t : tracker) : tracker := [].
End Steps.

(** ** Runs *)

Inductive health_op :=
  | OpSuccess (now : Z) (id : string)
  | OpFailure (now : Z) (id : string) (errorCode : option string)
  | OpState (now : Z) (id : string)
  | OpSkip (now : Z) (id : string)
  | OpReset (id : string)
  | OpResetAll.

Definition health_step (c : tracker_config) (t : tracker) (op : health_op) : tracker :=
  match op with
  | OpSuccess now id => recordSuccess c now id t
  | OpFailure now id code => recordFailure c now id code t
  | OpState now id => (getState c now id t).2
  | OpSkip now id => (shouldSkip c now id t).2
  | OpReset id => reset id t
  | OpResetAll => resetAll t
  end.

(** The tracker after the operations, from the constructor on. *)
Definition health_run (c : tracker_config) (ops : list health_op) : tracker :=
  foldl (health_step c) [] ops.

(** ** Invariant *)

Record record_ok (c : tracker_config) (r : provider_record) : Prop := {
  ok_failures : 0 <= pv_consecutiveFailures r;
  ok_openCount : 0 <= pv_openCount r;
  ok_opened : pv_state r = Open ∨ pv_state r = HalfOpen → 1 <= pv_openCount r;
  ok_probes : 0 <= probe_success (pv_probeResults r) ∧ 0 <= probe_failure (pv_probeResults r);
  ok_budget : pv_state r = HalfOpen → probeWindowComplete c r = false;
  ok_idle : pv_state r ≠ HalfOpen → pv_probeResults r = no_probes;
  ok_window : Z.of_nat (length (pv_window r)) <= Z.max 0 (windowSize c);
}.

Section Invariant.
Context (c : tracker_config) `{!ConfigOk c}.

Lemma fresh_record_ok : record_ok c fresh_record.
Proof. split; simpl; try lia; try done. naive_solver. Qed.

Lemma push_window_length b w :
  Z.of_nat (length w) <= Z.max 0 (windowSize c) →
  Z.of_nat (length (push_window c b w)) <= Z.max 0 (windowSize c).
Proof.
  intros Hw. unfold push_window. destruct (Z.ltb_spec (windowSize c)
  (Z.of_nat (length (w ++ [b])))) as [Hlt|Hle].
  - destruct w as [|x w]; simpl; [lia|]. rewrite length_app. simpl in Hw |- *. lia.
  - lia.
Qed.

Lemma maybeTransition_ok now r : record_ok c r → record_ok c (maybeTransitionToHalfOpen c now r).
Proof.
  intros Hr. unfold maybeTransitionToHalfOpen. case_bool_decide as Ho; [|done].
  destruct (_ <=? _); [|done]. destruct Hr. pose proof probes_positive.
  split; simpl; auto; try done; try lia.
  intros _. unfold probeWindowComplete. simpl. lia.
Qed.

Lemma count_result_ok now b r : record_ok c r → record_ok c (count_result c now b r).
Proof.
  intros Hr%(maybeTransition_ok now). unfold count_result. destruct Hr.
  split; simpl; auto; [destruct b; lia|]. by apply push_window_length.
Qed.

Lemma open_circuit_ok now r :
  pv_probeResults r = no_probes → record_ok c r → record_ok c (open_circuit now r).
Proof.
  intros Hp Hr. unfold open_circuit. case_bool_decide; [|done]. destruct Hr.
  split; simpl; auto; try done; lia.
Qed.

Lemma with_state_ok s r :
  s = Healthy ∨ s = Degraded → pv_state r ≠ HalfOpen →
  record_ok c r → record_ok c (with_state s r).
Proof.
  intros Hs Hh Hr. destruct Hr. split; simpl; auto; intros; subst; naive_solver.
Qed.

Lemma count_probe_ok now b r :
  pv_state r = HalfOpen → record_ok c r → record_ok c (count_probe c now b r).
Proof.
  intros Hh Hr. unfold count_probe.
  set (p := if b then _ else _).
  assert (0 <= probe_success p ∧ 0 <= probe_failure p) as Hp.
  { destruct Hr. subst p. destruct b; simpl; lia. }
  destruct Hr. destruct (probeWindowComplete c (with_probes p r)) eqn:E.
  - unfold resolveProbeWindow. cbn [with_probes pv_probeResults].
  destruct (ratio_reopens c p).
  + unfold open_circuit. simpl. rewrite Hh, bool_decide_eq_true_2 by done.
    split; simpl; auto; try done; lia.
  + split; simpl; auto; try done; try lia. naive_solver.
  - split; simpl; auto. by rewrite Hh.
Qed.

Lemma success_step_ok now r : record_ok c r → record_ok c (success_step c now r).
Proof.
  intros Hr%(count_result_ok now true). unfold success_step.
  destruct (pv_state (count_result c now true r)) eqn:E; [done|..].
  - apply with_state_ok; [auto|by rewrite E|done].
  - apply with_state_ok; [auto|by rewrite E|done].
  - by apply count_probe_ok.
Qed.

Lemma failure_step_ok now code r : record_ok c r → record_ok c (failure_step c now code r).
Proof.
  intros Hr%(count_result_ok now false). unfold failure_step.
  set (r1 := count_result c now false r) in *. clearbody r1. clear r.
  set (stressed := match code with Some _ => _ | None => _ end).
  destruct (decide (pv_state r1 = HalfOpen)) as [E|E].
  { rewrite E. by apply count_probe_ok. }
  set (r2 := if stressed && _ then _ else _).
  assert (record_ok c r2 ∧ pv_state r2 ≠ HalfOpen) as [H2 E2].
  { subst r2. destruct (stressed && _); [|done].
  split; [apply with_state_ok; auto|done]. }
  assert (record_ok c (if openThreshold c <=? pv_consecutiveFailures r2 then open_circuit now r2
  else if degradeThreshold c <=? pv_consecutiveFailures r2 then
    (if bool_decide (pv_state r2 = Healthy) then with_state Degraded r2 else r2) else r2)).
  { destruct (_ <=? _); [by apply open_circuit_ok; [apply H2|]|].
  destruct (_ <=? _); [|done]. case_bool_decide; [|done]. apply with_state_ok; auto. }
  by destruct (pv_state r1).
Qed.

Definition tracker_ok (t : tracker) : Prop := Forall (λ kv, record_ok c kv.2) t.

Lemma getOrCreate_ok id t : tracker_ok t → record_ok c (getOrCreate id t).
Proof.
  intros Ht. unfold getOrCreate. destruct (jm_get id t) as [r|] eqn:E; [|apply fresh_record_ok].
  apply jm_get_elem in E. unfold tracker_ok in Ht. rewrite Forall_forall in Ht.
  exact (Ht _ E).
Qed.

Lemma getState_ok now id t : tracker_ok t → tracker_ok (getState c now id t).2.
Proof.
  intros Ht. unfold getState. destruct (jm_get id t) as [r|] eqn:E; [|done].
  cbn [snd]. apply Forall_jm_set; [|done]. apply maybeTransition_ok.
  pose proof (getOrCreate_ok id t Ht) as Hr. unfold getOrCreate in Hr. by rewrite E in Hr.
Qed.

Lemma shouldSkip_tracker now id t : (shouldSkip c now id t).2 = (getState c now id t).2.
Proof. unfold shouldSkip. by destruct (getState c now id t) as [[] ?]. Qed.

Lemma health_step_ok t op : tracker_ok t → tracker_ok (health_step c t op).
Proof.
  intros Ht. destruct op as [now id|now id code|now id|now id|id|]; cbn [health_step].
  - apply Forall_jm_set; [|done]. by apply success_step_ok, getOrCreate_ok.
  - apply Forall_jm_set; [|done]. by apply failure_step_ok, getOrCreate_ok.
  - by apply getState_ok.
  - rewrite shouldSkip_tracker. by apply getState_ok.
  - unfold tracker_ok, reset in *. rewrite Forall_forall in *.
  intros kv [_ Hkv]%list_elem_of_filter. by apply Ht.
  - constructor.
Qed.

Lemma health_run_ok ops : tracker_ok (health_run c ops).
Proof.
  unfold health_run. assert (tracker_ok []) as Ht by constructor. revert Ht.
  generalize ([] : tracker). induction ops as [|op ops IH]; intros t Ht; [done|].
  cbn [foldl]. by apply IH, health_step_ok.
Qed.
End Invariant.

#[export] Instance tracker_config_of_ok o : ConfigOk (tracker_config_of o).
Proof. split. simpl. lia. Qed.

(** ** Probe windows *)

(** One reported outcome: its time, whether it succeeded, its error code. *)
Definition outcome : Type := Z * bool * option string.

Definition result_step (c : tracker_config) (r : provider_record) (e : outcome)
    : provider_record :=
  let '(now, b, code) := e in
  if b then success_step c now r else failure_step c now code r.

Definition failures (evs : list outcome) : Z :=
  Z.of_nat (length (List.filter (λ e, negb e.1.2) evs)).

Definition last_time (evs : list outcome) : Z :=
  match last evs with Some e => e.1.1 | None => 0 end.

(** The record after the last probe. *)
Definition resolved_as (c : tracker_config) (r0 r : provider_record) (f : Z) (now : Z) : Prop :=
  pv_probeResults r = no_probes ∧
  ((halfOpenFailureRatio c <= inject_Z f / inject_Z (halfOpenProbes c))%Q →
     pv_state r = Open ∧ pv_openCount r = pv_openCount r0 + 1 ∧ pv_openedAt r = now) ∧
  (¬ (halfOpenFailureRatio c <= inject_Z f / inject_Z (halfOpenProbes c))%Q →
     pv_state r = Healthy ∧ pv_openCount r = 0).

Section Probes.
Context (c : tracker_config) `{!ConfigOk c}.

Lemma maybeTransition_id now r :
  pv_state r ≠ Open → maybeTransitionToHalfOpen c now r = r.
Proof. intros Hr. unfold maybeTransitionToHalfOpen. by rewrite bool_decide_eq_false_2. Qed.

(** In half-open a result is one probe, whatever its code. *)
Lemma result_step_half_open r e :
  pv_state r = HalfOpen →
  result_step c r e = count_probe c e.1.1 e.1.2 (count_result c e.1.1 e.1.2 r).
Proof.
  intros Hh. destruct e as [[now b] code]. cbn [fst snd].
  assert (pv_state (count_result c now b r) = HalfOpen) as Hs.
  { unfold count_result. rewrite maybeTransition_id by (by rewrite Hh). done. }
  destruct b; cbn [result_step]; unfold success_step, failure_step; by rewrite Hs.
Qed.

(** The probe counters after one more probe. *)
Definition add_probe (b : bool) (p : probe_results) : probe_results :=
  if b then ProbeResults (probe_success p + 1) (probe_failure p)
  else ProbeResults (probe_success p) (probe_failure p + 1).

Definition probe_total (p : probe_results) : Z := probe_success p + probe_failure p.

Lemma add_probe_total b p : probe_total (add_probe b p) = probe_total p + 1.
Proof. destruct b; unfold probe_total; simpl; lia. Qed.

(** A probe before the last one. *)
Lemma result_step_pending r e :
  pv_state r = HalfOpen → probe_total (pv_probeResults r) + 1 < halfOpenProbes c →
  pv_state (result_step c r e) = HalfOpen ∧
  pv_probeResults (result_step c r e) = add_probe e.1.2 (pv_probeResults r) ∧
  pv_openCount (result_step c r e) = pv_openCount r.
Proof.
  intros Hh Hn. rewrite result_step_half_open by done. destruct e as [[now b] code].
  unfold count_probe, count_result. rewrite maybeTransition_id by (by rewrite Hh).
  cbn [fst snd pv_probeResults].
  pose proof (add_probe_total b (pv_probeResults r)) as Ht.
  unfold add_probe, probe_total in Ht.
  unfold probeWindowComplete. rewrite (proj2 (Z.leb_gt (halfOpenProbes c) _)); [done|].
  unfold with_probes, probe_total in *. cbn [pv_probeResults]. lia.
Qed.

(** The last probe of the window. *)
Lemma result_step_last r e :
  pv_state r = HalfOpen → probe_total (pv_probeResults r) + 1 = halfOpenProbes c →
  resolved_as c r (result_step c r e) (probe_failure (add_probe e.1.2 (pv_probeResults r)))
  e.1.1.
Proof.
  intros Hh Hn. rewrite result_step_half_open by done. destruct e as [[now b] code].
  unfold count_probe, count_result. rewrite maybeTransition_id by (by rewrite Hh).
  cbn [fst snd pv_probeResults]. fold (add_probe b (pv_probeResults r)).
  pose proof (add_probe_total b (pv_probeResults r)) as Ht. rewrite Hn in Ht.
  set (p := add_probe b (pv_probeResults r)) in *.
  unfold probeWindowComplete, with_probes, resolveProbeWindow. cbn [pv_probeResults].
  unfold probe_total in Ht. rewrite Ht, Z.leb_refl. pose proof probes_positive.
  unfold ratio_reopens. rewrite Ht.
  rewrite (proj2 (Z.ltb_lt 0 _)) by lia.
  destruct (Qle_bool _ _) eqn:Hq; unfold resolved_as; cbn -[Qdiv].
  - apply Qle_bool_iff in Hq. unfold open_circuit. cbn [pv_state].
  rewrite Hh, bool_decide_eq_true_2 by done. done.
  - split; [done|]. split; [|done]. intros Hle%Qle_bool_iff. by rewrite Hle in Hq.
Qed.

Lemma failures_cons (e : outcome) evs : failures (e :: evs) = (if e.1.2 then 0 else 1) + failures evs.
Proof. unfold failures. cbn [List.filter]. destruct e.1.2; simpl length; lia. Qed.

Lemma add_probe_failures (e : outcome) p :
  probe_failure (add_probe e.1.2 p) = probe_failure p + (if e.1.2 then 0 else 1).
Proof. destruct e.1.2; simpl; lia. Qed.

(** A run of probes inside a window. *)
Lemma probe_run evs : ∀ r,
  pv_state r = HalfOpen → evs ≠ [] →
  probe_total (pv_probeResults r) + Z.of_nat (length evs) <= halfOpenProbes c →
  let r' := foldl (result_step c) r evs in
  if bool_decide (probe_total (pv_probeResults r) + Z.of_nat (length evs) = halfOpenProbes c)
  then resolved_as c r r' (probe_failure (pv_probeResults r) + failures evs) (last_time evs)
  else pv_state r' = HalfOpen.
Proof.
  induction evs as [|e evs IH]; intros r Hh Hne Hlen; [done|]. cbn [foldl].
  rewrite length_cons in *. destruct evs as [|e2 evs].
  - cbn [foldl length] in *. rewrite failures_cons.
  change (failures []) with 0. change (last_time [e]) with e.1.1.
  case_bool_decide as Hn.
  + replace (probe_failure (pv_probeResults r) + ((if e.1.2 then 0 else 1) + 0))
      with (probe_failure (add_probe e.1.2 (pv_probeResults r)))
      by (rewrite add_probe_failures; lia).
    apply result_step_last; [done|lia].
  + apply result_step_pending; [done|lia].
  - destruct (result_step_pending r e Hh) as (Hh' & Hp & Hc).
  { cbn [length] in Hlen. lia. }
  specialize (IH (result_step c r e) Hh' ltac:(done)). rewrite Hp, add_probe_total in IH.
  specialize (IH ltac:(lia)).
  replace (probe_total (pv_probeResults r) + Z.of_nat (S (length (e2 :: evs))))
    with (probe_total (pv_probeResults r) + 1 + Z.of_nat (length (e2 :: evs))) by lia.
  cbv zeta in *. case_bool_decide; [|done].
  unfold resolved_as in *. rewrite Hc in IH. rewrite add_probe_failures in IH.
  rewrite failures_cons.
  change (last_time (e :: e2 :: evs)) with (last_time (e2 :: evs)).
  rewrite Z.add_assoc. exact IH.
Qed.

(** An elapsed open record takes its next result in half-open. *)
Lemma result_step_elapsed r e :
  pv_state r = Open → effectiveOpenDurationMs c r <= e.1.1 - pv_openedAt r →
  result_step c r e =
  result_step c (ProviderRecord HalfOpen (pv_consecutiveFailures r) (pv_openedAt r)
  (pv_window r) (pv_openCount r) no_probes) e.
Proof.
  intros Ho He. destruct e as [[now b] code]. cbn [fst] in He.
  assert (maybeTransitionToHalfOpen c now r =
  ProviderRecord HalfOpen (pv_consecutiveFailures r) (pv_openedAt r)
  (pv_window r) (pv_openCount r) no_probes) as Ht.
  { unfold maybeTransitionToHalfOpen. rewrite bool_decide_eq_true_2 by done.
  by rewrite (proj2 (Z.leb_le _ _) He). }
  unfold result_step, success_step, failure_step, count_result.
  by rewrite Ht, (maybeTransition_id now (ProviderRecord HalfOpen _ _ _ _ _)).
Qed.
End Probes.

(** ** Properties *)

(** P: After any operations from the constructor on, with any options: every
    counter is non-negative, an open or half-open circuit has been opened at
    least once, a half-open one has probe budget left, probe counts are zero
    outside half-open, and the window never exceeds its size. *)
Theorem tracker_invariant o ops :
  Forall (λ kv, record_ok (tracker_config_of o) kv.2)
    (health_run (tracker_config_of o) ops).
Proof. apply health_run_ok, _. Qed.

(** P: In every reachable state a provider is skipped exactly while its
    circuit is open and its back-off has not elapsed: a half-open provider is
    never skipped. *)
Theorem skipped_iff_open o ops now id :
  let c := tracker_config_of o in
  (shouldSkip c now id (health_run c ops)).1 = true ↔
  ∃ r, jm_get id (health_run c ops) = Some r ∧ pv_state r = Open ∧
       now - pv_openedAt r < effectiveOpenDurationMs c r.
Proof.
  cbv zeta. set (c := tracker_config_of o). pose proof (health_run_ok c ops) as Hok.
  set (t := health_run c ops) in *. clearbody t.
  unfold shouldSkip, getState. destruct (jm_get id t) as [r|] eqn:E.
  2:{ split; [done|]. by intros (? & ? & _). }
  pose proof (getOrCreate_ok c id t Hok) as Hr. unfold getOrCreate in Hr.
  rewrite E in Hr. cbn [default from_option] in Hr.
  pose proof (maybeTransition_ok c now r Hr) as [_ _ _ _ Hbudget _ _].
  destruct (pv_state (maybeTransitionToHalfOpen c now r)) eqn:Hs.
  1,2: split; [done|]; intros (? & [= <-] & Ho & Hlt); exfalso; revert Hs;
    unfold maybeTransitionToHalfOpen; rewrite (proj2 (Z.leb_gt _ _)) by lia;
    rewrite andb_false_r; congruence.
  - split; [|done]. intros _. exists r. split; [done|]. revert Hs.
    unfold maybeTransitionToHalfOpen. case_bool_decide as Ho; [|done].
    destruct (Z.leb_spec (effectiveOpenDurationMs c r) (now - pv_openedAt r)); [done|].
    by split; [|lia].
  - unfold getOrCreate. rewrite jm_get_set_eq. cbn [default from_option fst].
    change (Datatypes.id ?x) with x. rewrite Hbudget by done. split; [done|].
    intros (? & [= <-] & Ho & Hlt); exfalso; revert Hs.
    unfold maybeTransitionToHalfOpen. rewrite (proj2 (Z.leb_gt _ _)) by lia.
    rewrite andb_false_r. congruence.
Qed.

(** P: Once the back-off of an open circuit has elapsed, the next
    [halfOpenProbes] results decide by their failure ratio alone: at or above
    the threshold the circuit reopens at the last result's time with one more
    open cycle, below it the provider is healthy with the cycles reset; fewer
    results leave it half-open, whatever they are. *)
Theorem probe_window_decides c r e evs :
  ConfigOk c → pv_state r = Open →
  effectiveOpenDurationMs c r <= e.1.1 - pv_openedAt r →
  Z.of_nat (length (e :: evs)) <= halfOpenProbes c →
  let r' := foldl (result_step c) r (e :: evs) in
  if bool_decide (Z.of_nat (length (e :: evs)) = halfOpenProbes c)
  then resolved_as c r r' (failures (e :: evs)) (last_time (e :: evs))
  else pv_state r' = HalfOpen.
Proof.
  intros Hc Ho He Hlen. cbn [foldl]. rewrite result_step_elapsed by done.
  set (r1 := ProviderRecord HalfOpen _ _ _ _ _).
  pose proof (probe_run c (e :: evs) r1 eq_refl ltac:(done) Hlen) as Hrun. exact Hrun.
Qed.

(** P: A provider that keeps failing from the start is healthy below
    [degradeThreshold] failures, degraded from there on, and open at
    [openThreshold], opened at the last failure's time. *)
Theorem failures_escalate c times :
  0 < openThreshold c → 0 < degradeThreshold c →
  Z.of_nat (length times) <= openThreshold c →
  let r := foldl (λ r now, failure_step c now None r) fresh_record times in
  let n := Z.of_nat (length times) in
  pv_consecutiveFailures r = n ∧
  pv_state r = (if n =? openThreshold c then Open
                else if degradeThreshold c <=? n then Degraded else Healthy) ∧
  pv_openCount r = (if n =? openThreshold c then 1 else 0) ∧
  (n = openThreshold c → Some (pv_openedAt r) = last times).
Proof.
  intros Ho Hd. induction times as [|t times IH] using rev_ind; intros Hlen.
  { change (Z.of_nat (length [])) with 0. cbv zeta. cbn [foldl last].
    destruct (Z.eqb_spec 0 (openThreshold c)), (Z.leb_spec (degradeThreshold c) 0);
      try lia; split_and!; (done || lia || (intros; exfalso; lia)). }
  rewrite length_app in *. cbn [length] in *. cbv zeta in *. rewrite foldl_app. cbn [foldl].
  destruct IH as (Hcf & Hst & Hoc & _); [lia|].
  set (r := foldl _ _ times) in *. clearbody r.
  rewrite (proj2 (Z.eqb_neq _ _)) in Hst, Hoc by lia.
  rewrite last_snoc.
  assert (pv_state r ≠ Open) as Hno by (rewrite Hst; by destruct (_ <=? _)).
  unfold failure_step, count_result. rewrite maybeTransition_id by done. cbn [pv_state].
  replace (Z.of_nat (length times + 1)) with (pv_consecutiveFailures r + 1) by lia.
  rewrite <- Hcf in Hst.
  destruct (Z.eqb_spec (pv_consecutiveFailures r + 1) (openThreshold c)) as [En|En].
  - assert (openThreshold c <=? pv_consecutiveFailures r + 1 = true) as Ht
      by (apply Z.leb_le; lia).
    rewrite Hst. destruct (degradeThreshold c <=? pv_consecutiveFailures r);
      cbn [andb pv_consecutiveFailures]; rewrite Ht; unfold open_circuit; cbn [pv_state];
      rewrite bool_decide_eq_true_2 by done; cbn [pv_openCount pv_openedAt pv_state];
      rewrite Hoc; by split_and!.
  - assert (openThreshold c <=? pv_consecutiveFailures r + 1 = false) as Ht
      by (apply Z.leb_gt; lia).
    rewrite Hst. destruct (Z.leb_spec (degradeThreshold c) (pv_consecutiveFailures r));
      cbn [andb pv_consecutiveFailures]; rewrite Ht.
    + rewrite (proj2 (Z.leb_le (degradeThreshold c) _)) by lia. by split_and!.
    + destruct (degradeThreshold c <=? pv_consecutiveFailures r + 1); by split_and!.
Qed.

(** P: Each further open cycle doubles the wait before the next probe window,
    up to the maximum, and the wait stays between the base and the maximum. *)
Theorem backoff_doubles c r r' :
  0 <= openDurationMs c → openDurationMs c <= maxOpenDurationMs c →
  1 <= pv_openCount r → pv_openCount r' = pv_openCount r + 1 →
  effectiveOpenDurationMs c r' =
    Z.min (2 * effectiveOpenDurationMs c r) (maxOpenDurationMs c) ∧
  openDurationMs c <= effectiveOpenDurationMs c r <= maxOpenDurationMs c.
Proof.
  intros Hb Hm Hk Hk'. unfold effectiveOpenDurationMs.
  replace (Z.max 0 (pv_openCount r' - 1)) with (Z.succ (Z.max 0 (pv_openCount r - 1))) by lia.
  rewrite Z.pow_succ_r by lia.
  assert (0 < 2 ^ Z.max 0 (pv_openCount r - 1)) as Hp by (apply Z.pow_pos_nonneg; lia).
  split; [|nia].
  replace (openDurationMs c * (2 * 2 ^ Z.max 0 (pv_openCount r - 1)))
    with (2 * (openDurationMs c * 2 ^ Z.max 0 (pv_openCount r - 1))) by ring.
  assert (0 <= openDurationMs c * 2 ^ Z.max 0 (pv_openCount r - 1)) by nia. lia.
Qed.

(** ** Concrete runs *)

Definition default_config : tracker_config :=
  tracker_config_of (TrackerOptions None None None None None None None).

Definition opened_record : provider_record :=
  ProviderRecord Open 5 1000 [false; false; false; false; false] 1 no_probes.

(** Success, failure, failure after the back-off: the circuit reopens. *)
Lemma probe_window_decides_witness :
  resolved_as default_config opened_record
    (foldl (result_step default_config) opened_record
       [(31000, true, None); (31001, false, None); (31002, false, Some "rate_limit_error")])
    2 31002.
Proof.
  apply (probe_window_decides default_config opened_record (31000, true, None)
    [(31001, false, None); (31002, false, Some "rate_limit_error")]);
    [apply _|reflexivity|discriminate|discriminate].
Defined.

Lemma failures_escalate_witness :
  let r := foldl (λ r now, failure_step default_config now None r) fresh_record
             [1; 2; 3; 4; 5] in
  let n := 5 in
  pv_consecutiveFailures r = n ∧ pv_state r = Open ∧ pv_openCount r = 1 ∧
  (n = 5 → Some (pv_openedAt r) = Some 5).
Proof. apply (failures_escalate default_config [1; 2; 3; 4; 5]); done. Defined.

Lemma backoff_doubles_witness :
  effectiveOpenDurationMs default_config (ProviderRecord Open 6 0 [] 2 no_probes) =
    Z.min (2 * effectiveOpenDurationMs default_config opened_record) 300000 ∧
  30000 <= effectiveOpenDurationMs default_config opened_record <= 300000.
Proof.
  apply (backoff_doubles default_config opened_record (ProviderRecord Open 6 0 [] 2 no_probes));
    done.
Defined.

(** A late success closes an open circuit without a probe window and keeps
    the open cycles. *)
Example success_while_open :
  let r := success_step default_config 1001 opened_record in
  pv_state r = Healthy ∧ pv_openCount r = 1.
Proof. by split. Qed.
