(* ===== verification/ProviderGate.v ===== *)
(** * The provider concurrency gate

    [ProviderConcurrencyGate] of src/src/router/execution/providerConcurrency.ts:
    a semaphore per provider with a bounded FIFO queue.  Calls of [acquire] are
    requests numbered in the order they are made; a step is one of the things
    that can happen to the gate between two turns of the event loop.  Limits
    and times are integers. *)

From stdpp Require Import list_numbers.
From S2P Require Import Prelude.
Open Scope Z_scope.

(** ** Configuration *)

Record concurrency_config := ConcurrencyConfig {
  co_enabled : option bool;
  co_maxPerProvider : option Z;
  co_waitTimeoutMs : option Z;
}.

Record gate_options := GateOptions {
  enabled : bool;
  maxPerProvider : Z;
  waitTimeoutMs : Z;
}.

(** The constructor's defaults and floors. *)
Definition gate_options_of (c : concurrency_config) : gate_options :=
  {| enabled := default false (co_enabled c);
     maxPerProvider := Z.max 1 (default 4 (co_maxPerProvider c));
     waitTimeoutMs := Z.max 1 (default 30000 (co_waitTimeoutMs c)) |}.

(** ** State *)

(** [waiters] holds the numbers of the queued requests. *)
Record provider_slot := ProviderSlot { active : Z; waiters : list nat }.

Inductive rejection :=
  | AbortReason
  | ConcurrencyLimit (provider : string) (waitedSeconds : Z).

(** What became of a call of [acquire].  [Passed] is the no-op of a disabled
    gate; [Queued] has the time its timer may fire. *)
Inductive request :=
  | Passed
  | Queued (provider : string) (deadline : Z)
  | Holding (provider : string)
  | Released (provider : string)
  | Rejected (reason : rejection).

#[export] Instance rejection_eq_dec : EqDecision rejection.
Proof. solve_decision. Defined.
#[export] Instance request_eq_dec : EqDecision request.
Proof. solve_decision. Defined.

Record gate := Gate {
  slots : gmap string provider_slot;
  suppressedUntil : gmap string Z;
  clock : Z;
  requests : list request;
}.

Definition set_slots (m : gmap string provider_slot) (g : gate) : gate :=
  Gate m (suppressedUntil g) (clock g) (requests g).
Definition set_requests (l : list request) (g : gate) : gate :=
  Gate (slots g) (suppressedUntil g) (clock g) l.

Definition initial_gate (now : Z) : gate := Gate ∅ ∅ now [].

Section Gate.
Variable o : gate_options.

(** ** Operations *)

Definition effectiveCap (g : gate) (provider : string) (nowMs : Z) : Z :=
  match suppressedUntil g !! provider with
  | None => maxPerProvider o
  | Some until =>
      if until <=? nowMs then maxPerProvider o
      else Z.max 1 ((maxPerProvider o + 1) / 2)
  end.

Definition is_pressure (code : string) : bool :=
  bool_decide (code = "rate_limit_error" ∨ code = "overloaded_error").

Definition recordProviderFeedback (provider code : string) (retryAfterMs maxSuppressionMs : option Z)
    (g : gate) : gate :=
  if negb (enabled o) then g
  else if negb (is_pressure code) then g
  else
    let rawWindow := default 5000 retryAfterMs in
    let windowMs := Z.min (Z.max 1 rawWindow) (default 60000 maxSuppressionMs) in
    Gate (slots g) (<[provider := clock g + windowMs]> (suppressedUntil g)) (clock g) (requests g).

Definition activeCount (g : gate) (provider : string) : Z :=
  match slots g !! provider with Some s => active s | None => 0 end.

Definition waitingCount (g : gate) (provider : string) : nat :=
  match slots g !! provider with Some s => length (waiters s) | None => 0%nat end.

Definition getOrCreateSlot (g : gate) (provider : string) : provider_slot :=
  default (ProviderSlot 0 []) (slots g !! provider).

(** [acquire], up to its first [await]; [aborted] is the signal's state. *)
Definition acquire (provider : string) (aborted : bool) (g : gate) : gate :=
  if negb (enabled o) then set_requests (requests g ++ [Passed]) g
  else if aborted then set_requests (requests g ++ [Rejected AbortReason]) g
  else
    let slot := getOrCreateSlot g provider in
    if active slot <? effectiveCap g provider (clock g) then
      set_requests (requests g ++ [Holding provider])
        (set_slots (<[provider := ProviderSlot (active slot + 1) (waiters slot)]> (slots g)) g)
    else
      set_requests (requests g ++ [Queued provider (clock g + waitTimeoutMs o)])
        (set_slots (<[provider := ProviderSlot (active slot) (waiters slot ++ [length (requests g)])]>
           (slots g)) g).

(** [indexOf] and [splice]. *)
Fixpoint remove_first (id : nat) (l : list nat) : list nat :=
  match l with
  | [] => []
  | x :: l => if (x =? id)%nat then l else x :: remove_first id l
  end.

(** [cleanup] of a waiter: it leaves the queue (its timer is gone with its
    state). *)
Definition cleanup (provider : string) (id : nat) (g : gate) : gate :=
  match slots g !! provider with
  | Some slot =>
      set_slots (<[provider := ProviderSlot (active slot) (remove_first id (waiters slot))]> (slots g)) g
  | None => g
  end.

(** The abort listener and the timer of a queued request. *)
Definition reject (provider : string) (id : nat) (reason : rejection) (g : gate) : gate :=
  let g := cleanup provider id g in
  set_requests (<[id := Rejected reason]> (requests g)) g.

(** [Math.round(ms / 1000)]. *)
Definition rounded_seconds (ms : Z) : Z := (ms + 500) / 1000.

Definition providerConcurrencyLimitError (provider : string) (ms : Z) : rejection :=
  ConcurrencyLimit provider (rounded_seconds ms).

(** [next.resolve()], on the slot whose [active] was just decremented. *)
Definition resolve_waiter (provider : string) (slot : provider_slot) (id : nat) (g : gate) : gate :=
  match requests g !! id with
  | Some (Queued _ _) =>
      set_requests (<[id := Holding provider]> (requests g))
        (set_slots (<[provider := ProviderSlot (active slot + 1) (remove_first id (waiters slot))]>
           (slots g)) g)
  | _ => set_slots (<[provider := slot]> (slots g)) g
  end.

Definition release (provider : string) (g : gate) : gate :=
  match slots g !! provider with
  | None => g
  | Some slot =>
      if active slot <=? 0 then g
      else
        match waiters slot with
        | next :: rest => resolve_waiter provider (ProviderSlot (active slot - 1) rest) next g
        | [] =>
            if active slot - 1 =? 0 then set_slots (delete provider (slots g)) g
            else set_slots (<[provider := ProviderSlot (active slot - 1) []]> (slots g)) g
        end
  end.

(** ** Steps *)

Inductive event :=
  | Acquire (provider : string) (aborted : bool)
  | Release (id : nat)
  | Abort (id : nat)
  | Timeout (id : nat)
  | Feedback (provider code : string) (retryAfterMs maxSuppressionMs : option Z)
  | Tick (ms : Z).

(** [None] when the event cannot happen.  The function [acquire] returned may
    be called again after it released. *)
Definition step (g : gate) (e : event) : option gate :=
  match e with
  | Acquire provider aborted => Some (acquire provider aborted g)
  | Release id =>
      match requests g !! id with
      | Some (Holding provider) =>
          Some (release provider (set_requests (<[id := Released provider]> (requests g)) g))
      | Some (Released provider) => Some (release provider g)
      | _ => None
      end
  | Abort id =>
      match requests g !! id with
      | Some (Queued provider _) => Some (reject provider id AbortReason g)
      | _ => None
      end
  | Timeout id =>
      match requests g !! id with
      | Some (Queued provider deadline) =>
          if deadline <=? clock g then
            Some (reject provider id (providerConcurrencyLimitError provider (waitTimeoutMs o)) g)
          else None
      | _ => None
      end
  | Feedback provider code retry cap => Some (recordProviderFeedback provider code retry cap g)
  | Tick ms => if 0 <=? ms then Some (Gate (slots g) (suppressedUntil g) (clock g + ms) (requests g)) else None
  end.

(** Every holder calls its release function at most once, as [streamAttempt]
    does in its [finally]. *)
Definition first_release (g : gate) (e : event) : Prop :=
  match e with Release id => ∀ p, requests g !! id ≠ Some (Released p) | _ => True end.

Inductive reachable (now : Z) : gate → Prop :=
  | reachable_initial : reachable now (initial_gate now)
  | reachable_step g e g' :
      reachable now g → first_release g e → step g e = Some g' → reachable now g'.

Definition run (g : gate) (es : list event) : option gate :=
  foldl (λ g e, g ← g; step g e) (Some g) es.

(** ** The invariant *)

Definition is_holding (p : string) (r : request) : bool := bool_decide (r = Holding p).

(** How many requests hold a slot of a provider. *)
Definition holders (p : string) (l : list request) : Z := Z.of_nat (length (List.filter (is_holding p) l)).

Definition one_if (b : bool) : Z := if b then 1 else 0.

Record gate_inv (g : gate) : Prop := {
  gi_active p : active (getOrCreateSlot g p) = holders p (requests g);
  gi_bound p : active (getOrCreateSlot g p) <= maxPerProvider o;
  gi_queue p id : id ∈ waiters (getOrCreateSlot g p) ↔ ∃ d, requests g !! id = Some (Queued p d);
  gi_fifo p : StronglySorted lt (waiters (getOrCreateSlot g p));
  gi_progress p : waiters (getOrCreateSlot g p) ≠ [] → 1 <= active (getOrCreateSlot g p);
  gi_entry p s : slots g !! p = Some s → 1 <= active s;
}.

Lemma holders_app p l r : holders p (l ++ [r]) = holders p l + one_if (is_holding p r).
Proof.
  unfold holders. rewrite List.filter_app, length_app. cbn [List.filter].
  destruct (is_holding p r); cbn [length one_if]; lia.
Qed.

Lemma holders_insert p l i x y :
  l !! i = Some x → holders p (<[i:=y]> l) = holders p l - one_if (is_holding p x) + one_if (is_holding p y).
Proof.
  unfold holders. revert i. induction l as [|z l IH]; intros [|i] Hi; try done.
  - injection Hi as ->. cbn [insert list_insert List.filter].
    destruct (is_holding p x), (is_holding p y); cbn [length one_if]; lia.
  - specialize (IH i Hi). change (<[S i:=y]> (z :: l)) with (z :: <[i:=y]> l). cbn [List.filter].
    destruct (is_holding p z); cbn [length]; rewrite ?Nat2Z.inj_succ, IH; lia.
Qed.

Lemma holders_pos p l i : l !! i = Some (Holding p) → 1 <= holders p l.
Proof.
  unfold holders. revert i. induction l as [|r l IH]; intros [|i] Hi; try done; cbn [List.filter].
  - injection Hi as ->. unfold is_holding at 1. rewrite bool_decide_eq_true_2 by done. cbn [length]. lia.
  - specialize (IH i Hi). destruct (is_holding p r); cbn [length]; lia.
Qed.

Lemma slot_set g p q s l :
  getOrCreateSlot (Gate (<[p:=s]> (slots g)) (suppressedUntil g) (clock g) l) q =
  if decide (q = p) then s else getOrCreateSlot g q.
Proof.
  unfold getOrCreateSlot. cbn. destruct (decide (q = p)) as [->|Hne].
  - by rewrite lookup_insert_eq.
  - by rewrite lookup_insert_ne.
Qed.

Lemma remove_first_elem id x l :
  StronglySorted lt l → x ∈ remove_first id l ↔ x ∈ l ∧ x ≠ id.
Proof.
  induction 1 as [|y l Hs IH Hy]; cbn; [set_solver|].
  rewrite Forall_forall in Hy. destruct (Nat.eqb_spec y id) as [->|Hne].
  - split; [|set_solver]. intros Hx. split; [set_solver|]. apply Hy in Hx. lia.
  - rewrite !elem_of_cons, IH. set_solver.
Qed.

Lemma remove_first_sorted id l : StronglySorted lt l → StronglySorted lt (remove_first id l).
Proof.
  induction 1 as [|y l Hs IH Hy]; cbn; [constructor|]. case_match; [done|].
  constructor; [done|]. rewrite Forall_forall in *. intros x Hx.
  by apply Hy, (remove_first_elem id).
Qed.

(** A queued request leaves its provider's queue. *)
Lemma dequeue_inv g p id d r s' :
  gate_inv g → requests g !! id = Some (Queued p d) → (∀ q, r ≠ Holding q ∧ ∀ d, r ≠ Queued q d) →
  s' = ProviderSlot (active (getOrCreateSlot g p)) (remove_first id (waiters (getOrCreateSlot g p))) →
  gate_inv (Gate (<[p:=s']> (slots g)) (suppressedUntil g) (clock g) (<[id:=r]> (requests g))).
Proof.
  intros [H1 H2 H3 H4 H5 H6] Hid Hr ->.
  assert (1 <= active (getOrCreateSlot g p)) as Hact.
  { apply H5. intros Hn. assert (id ∈ waiters (getOrCreateSlot g p)) as Hin by (apply H3; by eexists).
    rewrite Hn in Hin. by apply elem_of_nil in Hin. }
  split; intros q; rewrite ?slot_set; cbn [requests slots].
  - rewrite (holders_insert _ _ _ _ _ Hid).
    assert (is_holding q (Queued p d) = false) as -> by done.
    assert (is_holding q r = false) as -> by (apply bool_decide_eq_false; apply Hr).
    cbn [one_if]. rewrite Z.sub_0_r, Z.add_0_r. destruct (decide (q = p)) as [->|]; apply H1.
  - destruct (decide (q = p)) as [->|]; apply H2.
  - intros i. destruct (decide (q = p)) as [->|Hne]; cbn.
    + rewrite remove_first_elem, H3 by apply H4. destruct (decide (i = id)) as [->|Hi].
      * rewrite list_lookup_insert_eq by (by eapply lookup_lt_Some). split; [by intros [_ ?]|].
        intros [d' [= Hd]]. by apply (Hr p) in Hd.
      * rewrite list_lookup_insert_ne by done. naive_solver.
    + rewrite H3. destruct (decide (i = id)) as [->|Hi].
      * rewrite list_lookup_insert_eq by (by eapply lookup_lt_Some). split; [|].
        -- intros [d' Hd]. congruence.
        -- intros [d' [= Hd]]. by apply (Hr q) in Hd.
      * by rewrite list_lookup_insert_ne by done.
  - destruct (decide (q = p)) as [->|]; [by apply remove_first_sorted|apply H4].
  - destruct (decide (q = p)) as [->|]; [done|apply H5].
  - intros s. destruct (decide (q = p)) as [->|Hne]; cbn.
    + rewrite lookup_insert_eq. by intros [= <-].
    + rewrite lookup_insert_ne by done. apply H6.
Qed.

Lemma gate_inv_same g g' :
  slots g' = slots g → requests g' = requests g → gate_inv g → gate_inv g'.
Proof.
  intros Hs Hr [H1 H2 H3 H4 H5 H6]. split; unfold getOrCreateSlot in *; rewrite ?Hs, ?Hr; done.
Qed.

(** A request that neither holds nor waits. *)
Lemma append_inv g r :
  (∀ q, r ≠ Holding q ∧ ∀ d, r ≠ Queued q d) → gate_inv g → gate_inv (set_requests (requests g ++ [r]) g).
Proof.
  intros Hr [H1 H2 H3 H4 H5 H6]. split; unfold getOrCreateSlot in *; cbn; try done.
  - intros q. rewrite holders_app, H1. unfold is_holding.
    rewrite bool_decide_eq_false_2 by apply Hr. cbn. lia.
  - intros q id. rewrite H3. split; intros [d Hd]; exists d.
    + by apply lookup_app_l_Some.
    + apply lookup_app_Some in Hd as [Hd|[_ Hd]]; [done|].
      apply list_lookup_singleton_Some in Hd as [_ Hd]. by apply (Hr q) in Hd.
Qed.

Lemma cap_bounds g p now : 1 <= maxPerProvider o → 1 <= effectiveCap g p now <= maxPerProvider o.
Proof.
  unfold effectiveCap. intros Hm. repeat case_match; try lia.
  assert ((maxPerProvider o + 1) / 2 <= maxPerProvider o); [|lia].
  apply Z.div_le_upper_bound; lia.
Qed.

Lemma queued_fresh g p q d : gate_inv g → requests g !! length (requests g) ≠ Some (Queued q d) ∧
  Forall (λ x, x < length (requests g))%nat (waiters (getOrCreateSlot g p)).
Proof.
  intros Hg. split; [by rewrite lookup_ge_None_2|]. rewrite Forall_forall. intros x Hx.
  apply (gi_queue _ Hg) in Hx as [d' Hd]. by eapply lookup_lt_Some.
Qed.

Lemma sorted_snoc l x : StronglySorted lt l → Forall (λ y, y < x)%nat l → StronglySorted lt (l ++ [x]).
Proof.
  induction 1 as [|y l Hs IH Hy]; intros Hx; cbn; [by repeat constructor|]. inv Hx.
  constructor; [by apply IH|]. by apply Forall_app_2; [|constructor].
Qed.

Lemma acquire_inv p aborted g : 1 <= maxPerProvider o → gate_inv g → gate_inv (acquire p aborted g).
Proof.
  intros Hmax Hg. unfold acquire.
  destruct (enabled o); cbn [negb]; [|by apply append_inv].
  destruct aborted; [by apply append_inv|].
  pose proof (cap_bounds g p (clock g) Hmax) as Hcap.
  destruct (queued_fresh g p p 0 Hg) as [_ Hfresh]. destruct Hg as [H1 H2 H3 H4 H5 H6].
  assert (0 <= active (getOrCreateSlot g p)) as H0 by (rewrite H1; unfold holders; lia).
  assert (∀ q id r, (∃ d, (requests g ++ [r]) !! id = Some (Queued q d)) ↔
    (∃ d, requests g !! id = Some (Queued q d)) ∨ id = length (requests g) ∧ ∃ d, r = Queued q d) as Hq.
  { intros q id r. split.
    - intros [d [Hd|[Hge Hd]]%lookup_app_Some]; [left; by exists d|right].
      apply list_lookup_singleton_Some in Hd as [Hi Hd]. split; [lia|by exists d].
    - intros [[d Hd]|[-> [d ->]]]; exists d; [by apply lookup_app_l_Some|].
      by rewrite lookup_app_r, Nat.sub_diag. }
  unfold set_requests, set_slots. cbn [slots requests suppressedUntil clock].
  destruct (active (getOrCreateSlot g p) <? effectiveCap g p (clock g)) eqn:Hlt;
    (split; intros q; rewrite ?slot_set; cbn [requests slots]).
  - rewrite holders_app. unfold is_holding. destruct (decide (q = p)) as [->|Hne].
    + rewrite bool_decide_eq_true_2 by done. cbn. by rewrite H1.
    + rewrite bool_decide_eq_false_2 by (intros [= ?]; congruence). cbn. rewrite H1. lia.
  - destruct (decide (q = p)) as [->|Hne]; [cbn; lia|apply H2].
  - intros id. rewrite Hq. destruct (decide (q = p)) as [->|Hne]; cbn; rewrite H3; naive_solver.
  - destruct (decide (q = p)) as [->|Hne]; apply H4.
  - destruct (decide (q = p)) as [->|Hne]; [cbn; lia|apply H5].
  - intros s. destruct (decide (q = p)) as [->|Hne];
      [rewrite lookup_insert_eq; intros [= <-]; cbn; lia|rewrite lookup_insert_ne by done; apply H6].
  - rewrite holders_app. cbn. rewrite Z.add_0_r. destruct (decide (q = p)) as [->|Hne]; apply H1.
  - destruct (decide (q = p)) as [->|Hne]; apply H2.
  - intros id. rewrite Hq. destruct (decide (q = p)) as [->|Hne]; cbn;
      rewrite ?elem_of_app, ?list_elem_of_singleton, H3; naive_solver.
  - destruct (decide (q = p)) as [->|Hne]; [by apply sorted_snoc|apply H4].
  - destruct (decide (q = p)) as [->|Hne]; [cbn; lia|apply H5].
  - intros s. destruct (decide (q = p)) as [->|Hne];
      [rewrite lookup_insert_eq; intros [= <-]; cbn; lia|rewrite lookup_insert_ne by done; apply H6].
Qed.

Lemma remove_first_absent id l : id ∉ l → remove_first id l = l.
Proof.
  induction l as [|x l IH]; [done|]. intros [Hx Hl]%not_elem_of_cons. cbn.
  destruct (Nat.eqb_spec x id); [congruence|]. by rewrite IH.
Qed.

(** The slots after a release: the entry of [p] is [s], or gone when nobody is
    left. *)
Definition slots_after (p : string) (s : provider_slot) (m : gmap string provider_slot) :=
  if (active s =? 0) then delete p m else <[p:=s]> m.

Lemma slot_after g p s q l :
  (active s = 0 → waiters s = []) →
  getOrCreateSlot (Gate (slots_after p s (slots g)) (suppressedUntil g) (clock g) l) q =
  if decide (q = p) then s else getOrCreateSlot g q.
Proof.
  intros Hs. unfold slots_after. destruct (active s =? 0) eqn:E; [|apply slot_set].
  apply Z.eqb_eq in E. unfold getOrCreateSlot. cbn. destruct (decide (q = p)) as [->|Hne].
  - rewrite lookup_delete_eq. destruct s as [a ws]. cbn in *. by rewrite E, Hs.
  - by rewrite lookup_delete_ne.
Qed.

(** What a holder's release does: the head of the queue takes over the slot,
    or the slot is given back. *)
Lemma release_cases g p id :
  gate_inv g → requests g !! id = Some (Holding p) →
  let slot := getOrCreateSlot g p in
  release p (set_requests (<[id := Released p]> (requests g)) g) =
  match waiters slot with
  | next :: rest =>
      Gate (slots_after p (ProviderSlot (active slot) rest) (slots g)) (suppressedUntil g) (clock g)
        (<[next := Holding p]> (<[id := Released p]> (requests g)))
  | [] =>
      Gate (slots_after p (ProviderSlot (active slot - 1) []) (slots g)) (suppressedUntil g) (clock g)
        (<[id := Released p]> (requests g))
  end.
Proof.
  intros [H1 H2 H3 H4 H5 H6] Hid slot.
  assert (1 <= active slot) as Hact.
  { unfold slot. rewrite H1. by eapply holders_pos. }
  unfold release, set_requests. cbn [slots].
  assert (slots g !! p = Some slot) as Hslot.
  { unfold slot, getOrCreateSlot in *. by destruct (slots g !! p). }
  rewrite Hslot. destruct (active slot <=? 0) eqn:E; [lia|].
  destruct (waiters slot) as [|next rest] eqn:Hw.
  - unfold slots_after, set_slots. cbn. by case_match.
  - pose proof (H4 p) as Hs. fold slot in Hs. rewrite Hw in Hs. inv Hs.
    assert (next ∈ waiters slot) as Hin by (rewrite Hw; left).
    apply H3 in Hin as [d Hd]. unfold resolve_waiter, set_slots, set_requests. cbn.
    assert (next ≠ id) as Hne by congruence.
    rewrite list_lookup_insert_ne, Hd by done.
    rewrite remove_first_absent.
    2:{ intros Hin. rewrite Forall_forall in *. naive_solver lia. }
    unfold slots_after. cbn. destruct (active slot =? 0) eqn:E0; [lia|].
    by replace (active slot - 1 + 1) with (active slot) by lia.
Qed.

Lemma release_inv g p id :
  gate_inv g → requests g !! id = Some (Holding p) →
  gate_inv (release p (set_requests (<[id := Released p]> (requests g)) g)).
Proof.
  intros Hg Hid. rewrite release_cases by done. destruct Hg as [H1 H2 H3 H4 H5 H6].
  set (slot := getOrCreateSlot g p).
  assert (∀ q, holders q (<[id := Released p]> (requests g)) =
    holders q (requests g) - one_if (is_holding q (Holding p))) as Hh.
  { intros q. rewrite (holders_insert _ _ _ _ _ Hid). change (is_holding q (Released p)) with false.
    cbn [one_if]. lia. }
  assert (1 <= active slot) as Hact.
  { unfold slot. rewrite H1. by eapply holders_pos. }
  assert (∀ q i, (∃ d, <[id := Released p]> (requests g) !! i = Some (Queued q d)) ↔
    ∃ d, requests g !! i = Some (Queued q d)) as Hq.
  { intros q i. destruct (decide (i = id)) as [->|Hi].
    - rewrite list_lookup_insert_eq by (by eapply lookup_lt_Some). naive_solver.
    - by rewrite list_lookup_insert_ne. }
  pose proof (H4 p) as Hs. fold slot in Hs.
  destruct (waiters slot) as [|next rest] eqn:Hw.
  - split; intros q; rewrite ?slot_after by done; cbn [requests slots].
    + rewrite Hh. unfold is_holding. destruct (decide (q = p)) as [->|Hne].
      * rewrite bool_decide_eq_true_2 by done. cbn. unfold slot. by rewrite H1.
      * rewrite bool_decide_eq_false_2 by (intros [= ?]; congruence). cbn. rewrite H1. lia.
    + destruct (decide (q = p)) as [->|]; [cbn; specialize (H2 p); fold slot in H2; lia|apply H2].
    + intros i. rewrite Hq, <- H3. destruct (decide (q = p)) as [->|]; [|done].
      fold slot. by rewrite Hw.
    + destruct (decide (q = p)) as [->|]; [constructor|apply H4].
    + destruct (decide (q = p)) as [->|]; [done|apply H5].
    + intros s. unfold slots_after. cbn [active]. destruct (active slot - 1 =? 0) eqn:E.
      * intros [_ Hs']%lookup_delete_Some. by eapply H6.
      * destruct (decide (q = p)) as [->|Hne]; [rewrite lookup_insert_eq; intros [= <-]; cbn; lia|].
        rewrite lookup_insert_ne by done. apply H6.
  - inv Hs. rename select (Forall _ rest) into Hall. rewrite Forall_forall in Hall.
    assert (∃ d, <[id := Released p]> (requests g) !! next = Some (Queued p d)) as [d Hd].
    { apply Hq, H3. fold slot. rewrite Hw. left. }
    assert (active (ProviderSlot (active slot) rest) = 0 → rest = []) as Hz by (cbn; lia).
    split; intros q; rewrite ?slot_after by done; cbn [requests slots].
    + rewrite (holders_insert _ _ _ _ _ Hd), Hh, <- H1.
      change (is_holding q (Queued p d)) with false. unfold slot.
      destruct (decide (q = p)) as [->|Hne]; cbn; lia.
    + destruct (decide (q = p)) as [->|]; [apply (H2 p)|apply H2].
    + intros i. destruct (decide (i = next)) as [->|Hi].
      * rewrite list_lookup_insert_eq by (by eapply lookup_lt_Some).
        split; [|naive_solver]. intros Hin. exfalso. destruct (decide (q = p)) as [->|Hne].
        -- apply Hall in Hin. lia.
        -- apply H3, Hq in Hin as [d' Hd']. congruence.
      * rewrite list_lookup_insert_ne, Hq, <- H3 by done.
        destruct (decide (q = p)) as [->|Hne]; [|done]. fold slot. rewrite Hw, elem_of_cons.
        cbn. naive_solver.
    + destruct (decide (q = p)) as [->|]; [done|apply H4].
    + destruct (decide (q = p)) as [->|]; [done|apply H5].
    + intros s. unfold slots_after. cbn [active]. destruct (active slot =? 0) eqn:E; [lia|].
      destruct (decide (q = p)) as [->|Hne]; [rewrite lookup_insert_eq; intros [= <-]; cbn; lia|].
      rewrite lookup_insert_ne by done. apply H6.
Qed.

Lemma initial_inv now : 1 <= maxPerProvider o → gate_inv (initial_gate now).
Proof.
  intros Hm. split; unfold getOrCreateSlot; cbn [initial_gate slots requests]; intros p;
    rewrite lookup_empty; cbn; [done|lia| |constructor|done|done].
  intros id. split; [by intros ?%elem_of_nil|by intros [? ?]].
Qed.

Lemma reject_inv g p id d reason :
  gate_inv g → requests g !! id = Some (Queued p d) → gate_inv (reject p id reason g).
Proof.
  intros Hg Hid. unfold reject, cleanup.
  destruct (slots g !! p) as [slot|] eqn:Hs.
  - eapply (dequeue_inv g p id d (Rejected reason)); [done..|].
    unfold getOrCreateSlot. by rewrite Hs.
  - exfalso. assert (id ∈ waiters (getOrCreateSlot g p)) as Hin by (apply (gi_queue _ Hg); by eexists).
    unfold getOrCreateSlot in Hin. rewrite Hs in Hin. by apply elem_of_nil in Hin.
Qed.

Lemma step_inv g e g' :
  1 <= maxPerProvider o → gate_inv g → first_release g e → step g e = Some g' → gate_inv g'.
Proof.
  intros Hm Hg Hf Hs. destruct e as [p a|id|id|id|p c r m|ms]; cbn in Hs.
  - injection Hs as <-. by apply acquire_inv.
  - destruct (requests g !! id) as [[|p d|p|p|r]|] eqn:Hid; try done.
    + injection Hs as <-. by apply release_inv.
    + by destruct (Hf p).
  - destruct (requests g !! id) as [[|p d|p|p|r]|] eqn:Hid; try done. injection Hs as <-.
    by eapply reject_inv.
  - destruct (requests g !! id) as [[|p d|p|p|r]|] eqn:Hid; try done.
    destruct (d <=? clock g); [|done]. injection Hs as <-. by eapply reject_inv.
  - injection Hs as <-. unfold recordProviderFeedback. repeat case_match; try done.
    by apply (gate_inv_same g).
  - destruct (0 <=? ms); [|done]. injection Hs as <-. by apply (gate_inv_same g).
Qed.

Lemma reachable_inv now g : 1 <= maxPerProvider o → reachable now g → gate_inv g.
Proof.
  intros Hm. induction 1 as [|g e g' Hg IH Hf Hs]; [by apply initial_inv|]. by eapply step_inv.
Qed.

End Gate.

Definition is_queued (p : string) (r : option request) : bool :=
  match r with Some (Queued q _) => bool_decide (q = p) | _ => false end.

(** The requests queued for a provider, in the order they were made. *)
Definition queue_of (p : string) (l : list request) : list nat :=
  List.filter (λ id, is_queued p (l !! id)) (seq 0 (length l)).

Lemma seq_sorted n : ∀ i, StronglySorted lt (seq i n).
Proof.
  induction n as [|n IH]; intros i; cbn; [constructor|]. constructor; [apply IH|].
  rewrite Forall_forall. intros x Hx%elem_of_seq. lia.
Qed.

Lemma filter_sorted (f : nat → bool) l : StronglySorted lt l → StronglySorted lt (List.filter f l).
Proof.
  induction 1 as [|x l Hs IH Hx]; cbn; [constructor|]. destruct (f x); [|done].
  constructor; [done|]. rewrite Forall_forall in *. intros y Hy%list_elem_of_In%filter_In.
  apply Hx, list_elem_of_In, Hy.
Qed.

Lemma sorted_ext l : ∀ l', StronglySorted lt l → StronglySorted lt l' → (∀ x, x ∈ l ↔ x ∈ l') → l = l'.
Proof.
  induction l as [|x l IH]; intros [|y l'] H1 H2 Hx; try done.
  - exfalso. by eapply (elem_of_nil y), Hx; left.
  - exfalso. by eapply (elem_of_nil x), Hx; left.
  - inv H1. inv H2. rewrite !Forall_forall in *.
    assert (x = y) as <-.
    { assert (x ∈ y :: l') as [?|?]%elem_of_cons by (apply Hx; left); [done|].
      assert (y ∈ x :: l) as [?|?]%elem_of_cons by (apply Hx; left); [done|].
      assert (x < y)%nat by auto. assert (y < x)%nat by auto. lia. }
    f_equal. apply IH; [done..|]. intros z. specialize (Hx z). rewrite !elem_of_cons in Hx.
    split; intros Hz.
    + destruct (proj1 Hx (or_intror Hz)) as [->|]; [|done].
      assert (x < x)%nat by auto. lia.
    + destruct (proj2 Hx (or_intror Hz)) as [->|]; [|done].
      assert (x < x)%nat by auto. lia.
Qed.

Lemma elem_of_queue p l id : id ∈ queue_of p l ↔ ∃ d, l !! id = Some (Queued p d).
Proof.
  unfold queue_of. rewrite list_elem_of_In, filter_In, <- list_elem_of_In, elem_of_seq. split.
  - intros [_ Hq]. destruct (l !! id) as [[|q d|q|q|r]|]; try done. cbn in Hq.
    apply bool_decide_eq_true in Hq as ->. by exists d.
  - intros [d Hd]. rewrite Hd. cbn. rewrite bool_decide_eq_true_2 by done.
    apply lookup_lt_Some in Hd. lia.
Qed.

(** C39: the gate counts its holders.  As long as every holder releases once,
    and whatever is acquired, aborted, timed out or reported by providers: the
    active count of a provider is the number of requests that hold one of its
    slots and never exceeds the limit; its queue is exactly the requests still
    waiting, in the order they were made; a request waits only while another
    one holds a slot, so its turn comes; and a provider has an entry exactly
    while one of its slots is held. *)
Theorem gate_counts_holders c now g p :
  reachable (gate_options_of c) now g →
  activeCount g p = holders p (requests g) ∧
  activeCount g p <= maxPerProvider (gate_options_of c) ∧
  waiters (getOrCreateSlot g p) = queue_of p (requests g) ∧
  (queue_of p (requests g) ≠ [] → 1 <= holders p (requests g)) ∧
  (is_Some (slots g !! p) ↔ 1 <= holders p (requests g)).
Proof.
  intros Hg. apply reachable_inv in Hg; [|cbn; lia].
  assert (activeCount g p = active (getOrCreateSlot g p)) as ->.
  { unfold activeCount, getOrCreateSlot. by destruct (slots g !! p). }
  assert (waiters (getOrCreateSlot g p) = queue_of p (requests g)) as Hq.
  { apply sorted_ext; [apply Hg|apply filter_sorted, seq_sorted|].
    intros id. by rewrite elem_of_queue, (gi_queue _ _ Hg). }
  split_and!; [apply Hg|apply Hg|exact Hq| |].
  - rewrite <- Hq, <- (gi_active _ _ Hg). apply Hg.
  - rewrite <- (gi_active _ _ Hg). unfold getOrCreateSlot. split.
    + intros [s Hs]. rewrite Hs. by eapply gi_entry.
    + destruct (slots g !! p); [done|cbn; lia].
Qed.

(** ** Executions *)

Definition small_gate (n : Z) : gate_options := GateOptions true n 30000.

(** What became of each request, and the active count. *)
Definition outcomes (n : Z) (es : list event) : option (list request * Z) :=
  g ← run (small_gate n) (initial_gate 0) es; Some (requests g, activeCount g "p").

(** P: the queue is not first in, first out once a suppression ends: request 2
    takes the slot for which request 1 is still waiting. *)
Example late_request_overtakes :
  outcomes 2 [Acquire "p" false; Feedback "p" "overloaded_error" None None; Acquire "p" false;
              Tick 5000; Acquire "p" false]
  = Some ([Holding "p"; Queued "p" 30000; Holding "p"], 2).
Proof. vm_compute. reflexivity. Qed.

(** P: a suppressed provider does not shrink while requests wait: each release
    hands its slot to the next request, whatever the halved cap. *)
Example suppression_hands_over :
  outcomes 2 [Acquire "p" false; Acquire "p" false; Acquire "p" false;
              Feedback "p" "rate_limit_error" None None; Release 0]
  = Some ([Released "p"; Holding "p"; Holding "p"], 2).
Proof. vm_compute. reflexivity. Qed.

(** A release function called twice gives back somebody else's slot. *)
Example second_release_frees_another :
  outcomes 1 [Acquire "p" false; Acquire "p" false; Release 0; Release 0; Acquire "p" false]
  = Some ([Released "p"; Holding "p"; Holding "p"], 1).
Proof. vm_compute. reflexivity. Qed.

(** ** A witness *)

Definition first_releaseb (g : gate) (e : event) : bool :=
  match e with
  | Release id => match requests g !! id with Some (Released _) => false | _ => true end
  | _ => true
  end.

Fixpoint run_once (o : gate_options) (g : gate) (es : list event) : option gate :=
  match es with
  | [] => Some g
  | e :: es => if first_releaseb g e then g' ← step o g e; run_once o g' es else None
  end.

Lemma run_once_reachable o now es : ∀ g g',
  reachable o now g → run_once o g es = Some g' → reachable o now g'.
Proof.
  induction es as [|e es IH]; intros g g' Hg; cbn; [by intros [= <-]|].
  destruct (first_releaseb g e) eqn:Hf; [|done]. destruct (step o g e) as [g1|] eqn:Hs; [|done].
  cbn. apply IH. eapply reachable_step; [done| |done].
  destruct e; try done. cbn in *. intros p Hp. by rewrite Hp in Hf.
Qed.

Definition two_slots : concurrency_config := ConcurrencyConfig (Some true) (Some 2) None.

(** Four requests for two slots; the first holder releases, the third request
    takes over and the fourth is still waiting. *)
Definition busy_gate : option gate :=
  run_once (gate_options_of two_slots) (initial_gate 0)
    [Acquire "p" false; Acquire "p" false; Acquire "p" false; Acquire "p" false; Release 0].

Definition busy (g : gate) : bool :=
  (activeCount g "p" =? 2) && bool_decide (queue_of "p" (requests g) = [3%nat]).

Lemma busy_gate_run : match busy_gate with Some g => busy g | None => false end = true.
Proof. vm_compute. reflexivity. Qed.

Lemma gate_counts_holders_witness :
  match busy_gate with
  | Some g => activeCount g "p" = 2 ∧ holders "p" (requests g) = 2 ∧
      waiters (getOrCreateSlot g "p") = [3%nat]
  | None => False
  end.
Proof.
  pose proof busy_gate_run as Hf. destruct busy_gate as [g|] eqn:Hg; [|discriminate Hf].
  apply andb_true_iff in Hf as [Ha%Z.eqb_eq Hq%bool_decide_eq_true].
  destruct (gate_counts_holders two_slots 0 g "p") as (H1 & _ & H2 & _).
  - refine (run_once_reachable _ 0 _ _ _ _ Hg). apply reachable_initial.
  - split; [exact Ha|]. split; [rewrite <- H1; exact Ha|]. rewrite H2. exact Hq.
Defined.
