(* ===== verification/RouterTypes.v ===== *)
(** * The data of the request router

    Messages, requests, model events and errors as the router sees them
    (src/src/model/protocol/canonical.ts, errors.ts, multimodal.ts), its
    configuration (src/src/router/config/schema.ts) and its decisions
    (src/src/router/protocol/decision.ts).  Fields the router only passes on
    ([raw], schemas, provider hints) are left out; counts, sizes and times are
    integers. *)

From Stdlib Require Import QArith.
From S2P Require Import Prelude JsValue.
Open Scope Z_scope.

(** ** Messages *)

(** [InputModality]. *)
Inductive modality := MText | MImage | MPdf | MAudio.

#[export] Instance modality_eq_dec : EqDecision modality.
Proof. solve_decision. Defined.

(** The items of a tool result ([CanonicalToolResultContentBlock]). *)
Inductive result_item :=
  | ItemText (text : string)
  | ItemImage (is_url : bool) (data mimeType : string) (bytes : option Z)
  | ItemPdf (data mimeType : string) (bytes : Z) (pages : option Z).

Inductive content_block :=
  | TextBlock (text : string)
  | ThinkingBlock (text : string)
  | ImageBlock (is_url : bool) (data mimeType : string) (bytes : option Z)
  | PdfBlock (data mimeType : string) (bytes : Z) (pages : option Z)
  | AudioBlock (data mimeType : string)
  | ToolCallBlock (id name : string) (input : jsval)
  | ToolResultBlock (toolCallId : string) (content : list result_item)
  | ToolResultReferenceBlock (toolCallId path preview : string)
  | MediaReferenceBlock (toolCallId : option string) (path preview : string).

Inductive role := User | Assistant.

#[export] Instance role_eq_dec : EqDecision role.
Proof. solve_decision. Defined.

Record message := Message { m_role : role; m_content : list content_block }.

Record model_request := ModelRequest {
  rq_provider : string;
  rq_model : string;
  rq_messages : list message;
  rq_tools : option (list string);
  rq_maxOutputTokens : option Z;
}.

(** ** Events and errors of a model stream *)

Record usage := Usage {
  us_inputTokens : option Z;
  us_outputTokens : option Z;
  us_cacheReadTokens : option Z;
  us_cacheWriteTokens : option Z;
  us_totalTokens : option Z;
}.

Record model_error := ModelError {
  er_provider : string;
  er_model : option string;
  er_protocol : string;
  er_code : string;
  er_message : string;
  er_retryable : bool;
  er_recoverableViaCompact : bool;
  er_recoverableViaImageStrip : bool;
  er_retryAfterMs : option Z;
}.

Inductive model_event :=
  | RequestStarted (provider model : string)
  | MessageStart
  | TextDelta (text : string)
  | ThinkingDelta (text : string)
  | ToolCallStart (id name : string)
  | ToolCallDelta (id delta : string)
  | ToolCallEnd (id name : string)
  | MessageEnd (finishReason : string)
  | UsageEvent (u : usage)
  | ErrorEvent (e : model_error).

#[export] Instance usage_eq_dec : EqDecision usage.
Proof. solve_decision. Defined.
#[export] Instance model_error_eq_dec : EqDecision model_error.
Proof. solve_decision. Defined.
#[export] Instance model_event_eq_dec : EqDecision model_event.
Proof. solve_decision. Defined.

(** ** The model catalog *)

Record model_entry := ModelEntry {
  me_input : list modality;
  me_maxOutputTokens : Z;
}.

Record provider_entry := ProviderEntry {
  pe_protocol : string;
  pe_models : jmap model_entry;
}.

Abbreviation model_config := (jmap provider_entry).

(** [getModel]; it throws on an unknown provider or model. *)
Definition getModel (config : model_config) (providerId modelId : string) : result model_entry :=
  match jm_get providerId config with
  | None => Throw (CodedError "provider_not_found" ("Provider " +:+ providerId +:+ " does not exist."))
  | Some provider =>
    match jm_get modelId (pe_models provider) with
    | None => Throw (CodedError "model_not_found" ("Model " +:+ modelId +:+
                " does not exist in provider " +:+ providerId +:+ "."))
    | Some model => Ok model
    end
  end.

Definition getMultimodal (config : model_config) (providerId modelId : string)
  : result (list modality) :=
  model ← getModel config providerId modelId; mret (me_input model).

Definition getCapabilities_maxOutputTokens (config : model_config) (providerId modelId : string)
  : result Z :=
  model ← getModel config providerId modelId; mret (me_maxOutputTokens model).

Definition getProviderProtocol (config : model_config) (providerId : string) : option string :=
  pe_protocol <$> jm_get providerId config.

(** ** Configuration *)

Record model_ref := ModelRef { ref_id : string; ref_provider : string; ref_model : string }.

#[export] Instance model_ref_eq_dec : EqDecision model_ref.
Proof. solve_decision. Defined.

(** [{ id: `${provider}/${model}`, provider, model }]. *)
Definition ref_of (provider model : string) : model_ref :=
  ModelRef (provider +:+ "/" +:+ model) provider model.

Definition same_model (a b : model_ref) : bool :=
  bool_decide (ref_provider a = ref_provider b ∧ ref_model a = ref_model b).

Inductive scenario_type := ScDefault | ScSubagent | ScExplicit.

#[export] Instance scenario_type_eq_dec : EqDecision scenario_type.
Proof. solve_decision. Defined.

Record fallback_config := FallbackConfig {
  fb_default : option (list model_ref);
  fb_subagent : option (list model_ref);
  fb_explicit : option (list model_ref);
  fb_maxFallbacks : option Z;
}.

(** [fallback[scenarioType]]. *)
Definition fallback_for (f : fallback_config) (s : scenario_type) : option (list model_ref) :=
  match s with
  | ScDefault => fb_default f
  | ScSubagent => fb_subagent f
  | ScExplicit => fb_explicit f
  end.

Record zero_usage_config := ZeroUsageConfig { zu_enabled : bool; zu_maxAttempts : Z }.

Record transient_config := TransientConfig {
  tr_enabled : bool;
  tr_maxAttempts : Z;
  tr_baseDelayMs : Z;
  tr_maxDelayMs : Z;
  tr_retryAfterCapMs : option Z;
}.

Inductive subagent_policy := Skip | Judge.

#[export] Instance subagent_policy_eq_dec : EqDecision subagent_policy.
Proof. solve_decision. Defined.

(** The price of a model in dollars per million tokens. *)
Record model_pricing := ModelPricing {
  pr_input : option Q;
  pr_output : option Q;
  pr_cacheRead : option Q;
}.

Record cache_aware_config := CacheAwareConfig { ca_enabled : bool; ca_minSavingsRatio : Q }.

Record token_saver_config := TokenSaverConfig {
  ts_enabled : bool;
  ts_judge : model_ref;
  ts_defaultTier : string;
  ts_tiers : jmap model_ref;
  ts_subagentPolicy : option subagent_policy;
  ts_cacheAware : option cache_aware_config;
}.

Record sticky_config := StickyConfig {
  st_enabled : option bool;
  st_ttlMs : option Z;
  st_maxQualityFailures : option Z;
}.

Record research_aware_config := ResearchAwareConfig {
  ra_enabled : option bool;
  ra_tierUpgrade : option bool;
}.

Record auto_orchestrate_config := AutoOrchestrateConfig {
  ao_enabled : bool;
  ao_triggerTiers : list string;
  ao_maxContinuationTurns : option Z;
  ao_subagentMaxTokens : option Z;
}.

Record router_config := RouterConfig {
  rc_enabled : option bool;
  rc_default : option model_ref;
  rc_fallback : option fallback_config;
  rc_zeroUsageRetry : option zero_usage_config;
  rc_transientRetry : option transient_config;
  rc_concurrency : option bool;
  rc_tokenSaver : option token_saver_config;
  rc_sticky : option sticky_config;
  rc_researchAware : option research_aware_config;
  rc_autoOrchestrate : option auto_orchestrate_config;
  rc_modelPricing : option (jmap model_pricing);
}.

Definition DEFAULT_STICKY_TTL_MS : Z := 30 * 60 * 1000.
Definition DEFAULT_STICKY_MAX_QUALITY_FAILURES : Z := 2.
Definition LITELLM_ROUTER_MAX_FALLBACKS : Z := 5.
Definition DEFAULT_SUBAGENT_POLICY : subagent_policy := Judge.

(** ** Decisions and the state of a session *)

Inductive resolution :=
  | ByExplicit | ByScenario | ByTokenSaver | ByCustom | ByFallback
  | ByJudge | ByDefault | ByLearned | ByHeuristic | ByContinuation.

#[export] Instance resolution_eq_dec : EqDecision resolution.
Proof. solve_decision. Defined.

Inductive switch_action := KeptSticky | Switched.

#[export] Instance switch_action_eq_dec : EqDecision switch_action.
Proof. solve_decision. Defined.

Record cache_switch := CacheSwitch {
  cs_action : switch_action;
  cs_from : string;
  cs_to : string;
  cs_cachedCost : Q;
  cs_prefillCost : Q;
  cs_estimatedInputTokens : Z;
}.

(** [RouterMutationsLog], the entries the runtime writes. *)
Record mutations_log := MutationsLog {
  mu_orchestrationActivated : option (string * bool);
  mu_subagentTagStripped : bool;
  mu_mediaRerouted : option (list modality * string * string);
  mu_cacheAwareSwitch : option cache_switch;
  mu_researchUpgrade : option (string * string * string);
}.

Definition no_mutations : mutations_log := MutationsLog None false None None None.

Record router_decision := RouterDecision {
  rd_provider : string;
  rd_model : string;
  rd_scenarioType : scenario_type;
  rd_tokenSaverTier : option string;
  rd_isSubagent : bool;
  rd_orchestrating : bool;
  rd_resolvedFrom : resolution;
  rd_mutations : mutations_log;
}.

Record routing_state := RoutingState {
  ss_sessionId : string;
  ss_isSubagent : bool;
  ss_tokenSaverTier : option string;
  ss_stickyProvider : option string;
  ss_stickyModel : option string;
  ss_orchestrating : bool;
  ss_orchestrationContinuations : option Z;
  ss_qualityFailures : option Z;
  ss_updatedAt : Z;
}.

(** JavaScript's truthiness of an optional string, and its value then. *)
Definition truthy (o : option string) : option string :=
  match o with Some "" => None | _ => o end.

(** The truthiness of an optional count. *)
Definition truthy_num (o : option Z) : bool :=
  match o with Some z => negb (z =? 0) | None => false end.
