(* ===== verification/RouterSessions.v ===== *)
(** * The router's session memory

    [SessionRouterStore] and [SessionUsageCache]
    (src/src/router/session/SessionRouterStore.ts, sessionUsageCache.ts) and
    the guard that decides whether a remembered selection may be reused
    (src/src/router/policy/stickyGuard.ts).  A JavaScript [Map] is a [jmap]:
    its order is the insertion order, [delete] then [set] moves a key to the
    end.  The injected clock is an argument [now], read once per operation. *)

From S2P Require Import Prelude RouterTypes.
Open Scope Z_scope.

(** ** [SessionRouterStore] *)

Record slot := Slot { sl_state : routing_state; sl_expiresAt : Z }.

Abbreviation session_store := (jmap slot).

Record store_options := StoreOptions { so_capacity : Z; so_ttlMs : Z }.

(** The constructor: [capacity] and [ttlMs] with their defaults, at least one. *)
Definition store_options_of (capacity ttlMs : option Z) : store_options :=
  StoreOptions (Z.max 1 (default 500 capacity)) (Z.max 1 (default (60 * 60 * 1000) ttlMs)).

Definition makeKey (sessionId : string) (isSubagent : bool) : string :=
  if isSubagent then sessionId +:+ ":sub" else sessionId.

Definition with_updatedAt (t : Z) (s : routing_state) : routing_state :=
  RoutingState (ss_sessionId s) (ss_isSubagent s) (ss_tokenSaverTier s) (ss_stickyProvider s)
    (ss_stickyModel s) (ss_orchestrating s) (ss_orchestrationContinuations s)
    (ss_qualityFailures s) t.

Definition with_qualityFailures (n : Z) (s : routing_state) : routing_state :=
  RoutingState (ss_sessionId s) (ss_isSubagent s) (ss_tokenSaverTier s) (ss_stickyProvider s)
    (ss_stickyModel s) (ss_orchestrating s) (ss_orchestrationContinuations s)
    (Some n) (ss_updatedAt s).

Section Store.
Context (o : store_options).

Definition get (now : Z) (key : string) (m : session_store) : option routing_state * session_store :=
  match jm_get key m with
  | None => (None, m)
  | Some slot =>
    if sl_expiresAt slot <? now then (None, jm_delete key m)
    else (Some (sl_state slot), jm_set key slot (jm_delete key m))
  end.

(** [while (map.size >= capacity) map.delete(oldest)]. *)
Fixpoint evict (m : session_store) : session_store :=
  if so_capacity o <=? Z.of_nat (length m) then
    match m with [] => [] | _ :: m => evict m end
  else m.

Definition set (now : Z) (state : routing_state) (m : session_store) : session_store :=
  let key := makeKey (ss_sessionId state) (ss_isSubagent state) in
  let slot := Slot state (now + so_ttlMs o) in
  let m := if jm_has key m then jm_delete key m else evict m in
  jm_set key slot m.

Definition delete (key : string) (m : session_store) : session_store := jm_delete key m.

Definition touch (now : Z) (key : string) (m : session_store) : session_store :=
  match jm_get key m with
  | None => m
  | Some slot => jm_set key (Slot (with_updatedAt now (sl_state slot)) (now + so_ttlMs o)) m
  end.

Definition recordQualityFailure (key : string) (m : session_store) : session_store :=
  match jm_get key m with
  | None => m
  | Some slot =>
    let count := default 0 (ss_qualityFailures (sl_state slot)) + 1 in
    jm_set key (Slot (with_qualityFailures count (sl_state slot)) (sl_expiresAt slot)) m
  end.

Definition resetQualityFailures (key : string) (m : session_store) : session_store :=
  match jm_get key m with
  | None => m
  | Some slot =>
    if default 0 (ss_qualityFailures (sl_state slot)) =? 0 then m
    else jm_set key (Slot (with_qualityFailures 0 (sl_state slot)) (sl_expiresAt slot)) m
  end.
End Store.

(** ** [SessionUsageCache] *)

Definition usage_observe (capacity : Z) (sessionId : string) (u : option usage) (m : jmap usage)
  : jmap usage :=
  match u with
  | None => m
  | Some u =>
    let m := if jm_has sessionId m then jm_delete sessionId m
             else if capacity <=? Z.of_nat (length m) then tail m else m in
    jm_set sessionId u m
  end.

(** ** [createStickyGuard] *)

Definition isStickyUsable (config : option sticky_config) (now : Z) (state : option routing_state)
  : bool :=
  let enabled := match config ≫= st_enabled with Some false => false | _ => true end in
  let ttlMs := default DEFAULT_STICKY_TTL_MS (config ≫= st_ttlMs) in
  let maxQualityFailures :=
    default DEFAULT_STICKY_MAX_QUALITY_FAILURES (config ≫= st_maxQualityFailures) in
  match state with
  | None => false
  | Some state =>
    enabled
    && match truthy (ss_stickyProvider state), truthy (ss_stickyModel state) with
       | Some _, Some _ => true
       | _, _ => false
       end
    && negb (ttlMs <? now - ss_updatedAt state)
    && negb (maxQualityFailures <=? default 0 (ss_qualityFailures state))
  end.

(** ** Runs *)

Inductive store_op :=
  | OpGet (now : Z) (key : string)
  | OpSet (now : Z) (state : routing_state)
  | OpDelete (key : string)
  | OpTouch (now : Z) (key : string)
  | OpRecordFailure (key : string)
  | OpResetFailures (key : string).

Definition store_step (o : store_options) (m : session_store) (op : store_op) : session_store :=
  match op with
  | OpGet now key => (get now key m).2
  | OpSet now state => set o now state m
  | OpDelete key => delete key m
  | OpTouch now key => touch o now key m
  | OpRecordFailure key => recordQualityFailure key m
  | OpResetFailures key => resetQualityFailures key m
  end.

Definition store_run (o : store_options) (m : session_store) (ops : list store_op) : session_store :=
  foldl (store_step o) m ops.

(** What the operations on one key make of its slot when it is alone. *)
Definition own_step (o : store_options) (key : string) (s : option slot) (op : store_op) : option slot :=
  match op with
  | OpGet now k =>
    if bool_decide (k = key) then s' ← s; if sl_expiresAt s' <? now then None else Some s' else s
  | OpSet now state =>
    if bool_decide (makeKey (ss_sessionId state) (ss_isSubagent state) = key)
    then Some (Slot state (now + so_ttlMs o)) else s
  | OpDelete k => if bool_decide (k = key) then None else s
  | OpTouch now k =>
    if bool_decide (k = key)
    then (λ s, Slot (with_updatedAt now (sl_state s)) (now + so_ttlMs o)) <$> s else s
  | OpRecordFailure k =>
    if bool_decide (k = key)
    then (λ s, Slot (with_qualityFailures (default 0 (ss_qualityFailures (sl_state s)) + 1) (sl_state s))
                 (sl_expiresAt s)) <$> s else s
  | OpResetFailures k =>
    if bool_decide (k = key)
    then (λ s, if default 0 (ss_qualityFailures (sl_state s)) =? 0 then s
               else Slot (with_qualityFailures 0 (sl_state s)) (sl_expiresAt s)) <$> s else s
  end.

(** The keys whose use makes them younger than a given slot. *)
Definition used_keys (ops : list store_op) : list string :=
  omap (λ op, match op with
              | OpGet _ k => Some k
              | OpSet _ s => Some (makeKey (ss_sessionId s) (ss_isSubagent s))
              | _ => None
              end) ops.

(** ** The order of the slots *)

(** The keys younger than [key]. *)
Fixpoint after (key : string) (l : list string) : list string :=
  match l with
  | [] => []
  | k :: l => if decide (k = key) then l else after key l
  end.

Lemma after_sub key l : after key l ⊆ l.
Proof.
  induction l as [|k l IH]; intros x Hx; [done|]. cbn [after] in Hx.
  case_decide; [by right|]. right. by apply IH.
Qed.

Lemma after_NoDup key l : NoDup l → NoDup (after key l).
Proof. induction 1; cbn [after]; [constructor|]. by case_decide. Qed.

Lemma after_notin key l : NoDup l → key ∉ after key l.
Proof.
  induction 1 as [|k l Hk Hnd IH]; cbn [after]; [apply not_elem_of_nil|].
  case_decide; [by subst | done].
Qed.

Lemma after_fresh key l : key ∉ l → after key l = [].
Proof.
  induction l as [|k l IH]; [done|]. intros [Hne Hl]%not_elem_of_cons. cbn [after].
  rewrite decide_False by done. by apply IH.
Qed.

Lemma after_snoc key l k : k ≠ key → after key (l ++ [k]) ⊆ after key l ++ [k].
Proof.
  intros Hk. induction l as [|x l IH]; cbn [after app]; [rewrite decide_False by done; set_solver|].
  case_decide; [done|]. exact IH.
Qed.

Lemma after_self l key : key ∉ l → after key (l ++ [key]) = [].
Proof.
  induction l as [|x l IH]; cbn [after app].
  - by rewrite decide_True.
  - intros [Hne Hl]%not_elem_of_cons. rewrite decide_False by done. by apply IH.
Qed.

Lemma after_filter key k l : k ≠ key → after key (filter (λ x, x ≠ k) l) ⊆ after key l.
Proof.
  intros Hk. induction l as [|x l IH]; [done|]. rewrite filter_cons.
  destruct (decide (x ≠ k)) as [Hx|Hx%dec_stable]; cbn [after]; case_decide; try done.
  - intros y. rewrite list_elem_of_filter. tauto.
  - subst. done.
Qed.

Section Order.
Context (o : store_options).
Implicit Types m : session_store.

Lemma evict_suffix m : ∃ old, m = old ++ evict o m.
Proof.
  induction m as [|x m [old IH]]; cbn [evict].
  - exists []. by destruct (_ <=? _).
  - destruct (_ <=? _); [|by exists []]. exists (x :: old). by rewrite IH at 1.
Qed.

Lemma evict_length m : 1 <= so_capacity o → Z.of_nat (length (evict o m)) < so_capacity o.
Proof.
  intros Hc. induction m as [|x m IH]; cbn [evict].
  - destruct (_ <=? _); cbn [length]; lia.
  - destruct (Z.leb_spec (so_capacity o) (Z.of_nat (length (x :: m)))); [exact IH | lia].
Qed.

(** Eviction stops before a slot with few younger ones. *)
Lemma evict_keeps key m :
  NoDup (jm_keys m) → Z.of_nat (length (after key (jm_keys m))) + 1 < so_capacity o →
  jm_get key (evict o m) = jm_get key m ∧ after key (jm_keys (evict o m)) ⊆ after key (jm_keys m).
Proof.
  unfold jm_keys. induction m as [|[k v] m IH]; intros Hnd Ha; cbn [evict].
  - by destruct (_ <=? _).
  - destruct (Z.leb_spec (so_capacity o) (Z.of_nat (length ((k, v) :: m)))) as [Hle|Hlt]; [|done].
    apply NoDup_cons in Hnd as [Hk Hnd]. rewrite fmap_cons in *. cbn [after fst jm_get] in *.
    case_decide as Hd.
    + subst k. rewrite length_fmap in Ha. cbn [length] in Hle. lia.
    + rewrite (decide_False (P := key = k)) by done. by apply IH.
Qed.

Lemma evict_NoDup m : NoDup (jm_keys m) → NoDup (jm_keys (evict o m)).
Proof.
  destruct (evict_suffix m) as [old Hm]. rewrite Hm at 1. unfold jm_keys. rewrite fmap_app.
  by intros (_ & _ & ?)%NoDup_app.
Qed.

Lemma jm_delete_NoDup k m : NoDup (jm_keys m) → NoDup (jm_keys (jm_delete k m)).
Proof. rewrite jm_delete_keys. apply NoDup_filter. Qed.

Lemma store_step_NoDup m op : NoDup (jm_keys m) → NoDup (jm_keys (store_step o m op)).
Proof.
  intros Hnd. destruct op as [now k|now s|k|now k|k|k]; cbn [store_step].
  - unfold get. destruct (jm_get k m) as [sl|]; [|done]. destruct (_ <? _); cbn [snd].
    + by apply jm_delete_NoDup.
    + by apply jm_keys_set_NoDup, jm_delete_NoDup.
  - unfold set. apply jm_keys_set_NoDup. destruct (jm_has _ _); [by apply jm_delete_NoDup | by apply evict_NoDup].
  - by apply jm_delete_NoDup.
  - unfold touch. destruct (jm_get k m); [by apply jm_keys_set_NoDup | done].
  - unfold recordQualityFailure. destruct (jm_get k m); [by apply jm_keys_set_NoDup | done].
  - unfold resetQualityFailures. destruct (jm_get k m); [|done].
    destruct (_ =? _); [done | by apply jm_keys_set_NoDup].
Qed.
End Order.

(** ** A slot is private to its key *)

Section Private.
Context (o : store_options) (key : string) (U : gset string).
Hypothesis U_small : Z.of_nat (size U) < so_capacity o.
Implicit Types m : session_store.

(** The younger slots all belong to [U]. *)
Definition young (m : session_store) : Prop := ∀ x, x ∈ after key (jm_keys m) → x ∈ U.

Lemma young_length m (k : string) :
  NoDup (jm_keys m) → young m → k ∈ U → k ∉ jm_keys m →
  Z.of_nat (length (after key (jm_keys m))) + 1 < so_capacity o.
Proof.
  intros Hnd Hy Hk Hkm.
  assert (NoDup (k :: after key (jm_keys m))) as Hnd'.
  { constructor; [|by apply after_NoDup]. intros Hin. by apply Hkm, (after_sub key). }
  assert (list_to_set (C := gset string) (k :: after key (jm_keys m)) ⊆ U) as Hsub.
  { intros x Hx%elem_of_list_to_set. apply elem_of_cons in Hx as [->|Hx]; [done | by apply Hy]. }
  apply subseteq_size in Hsub. rewrite size_list_to_set in Hsub by done. cbn [length] in Hsub. lia.
Qed.

(** Replacing a slot in place. *)
Lemma replace_private m k (f : slot → slot) :
  young m →
  let m' := match jm_get k m with None => m | Some s => jm_set k (f s) m end in
  jm_get key m' = (if bool_decide (k = key) then f <$> jm_get key m else jm_get key m) ∧ young m'.
Proof.
  intros Hy. cbn zeta. destruct (jm_get k m) as [s|] eqn:Hk.
  - split; [|unfold young; rewrite jm_keys_set_present by done; exact Hy].
    rewrite jm_get_set. case_bool_decide as Hd; repeat case_decide; try congruence.
    subst k. by rewrite Hk.
  - split; [|done]. case_bool_decide; [|done]. subst k. by rewrite Hk.
Qed.

Lemma delete_private m k :
  NoDup (jm_keys m) → young m →
  jm_get key (jm_delete k m) = (if bool_decide (k = key) then None else jm_get key m) ∧
  young (jm_delete k m).
Proof.
  intros Hnd Hy. split; [rewrite jm_get_delete; repeat case_decide; case_bool_decide; congruence|].
  intros x. rewrite jm_delete_keys. destruct (decide (k = key)) as [->|Hk].
  - rewrite after_fresh; [by intros ?%elem_of_nil|]. rewrite list_elem_of_filter. tauto.
  - intros Hx%after_filter; [|done]. by apply Hy.
Qed.

(** Storing under a key that is not in the map. *)
Lemma store_private m k s :
  young m → jm_get k m = None → (k ≠ key → k ∈ U) →
  jm_get key (jm_set k s m) = (if bool_decide (k = key) then Some s else jm_get key m) ∧
  young (jm_set k s m).
Proof.
  intros Hy Hk HU. split; [rewrite jm_get_set; repeat case_decide; case_bool_decide; congruence|].
  intros x. rewrite jm_keys_set_fresh by done. unfold jm_keys. rewrite fmap_app. cbn [fmap list_fmap fst].
  apply jm_get_None in Hk. destruct (decide (k = key)) as [->|Hne].
  - rewrite after_self by done. by intros ?%elem_of_nil.
  - intros Hx%after_snoc; [|done]. apply elem_of_app in Hx as [Hx|Hx%list_elem_of_singleton].
    + by apply Hy.
    + subst x. by apply HU.
Qed.

Lemma get_private m now k :
  NoDup (jm_keys m) → young m → (k ≠ key → k ∈ U) →
  jm_get key (get now k m).2 = own_step o key (jm_get key m) (OpGet now k) ∧ young (get now k m).2.
Proof.
  intros Hnd Hy HU. unfold get, own_step. destruct (jm_get k m) as [s|] eqn:Hk.
  2: { split; [|done]. case_bool_decide; [|done]. subst k. by rewrite Hk. }
  destruct (delete_private m k Hnd Hy) as [Hget Hy'].
  destruct (sl_expiresAt s <? now) eqn:He; cbn [snd].
  - split; [|done]. rewrite Hget. case_bool_decide; [|done]. subst k. rewrite Hk. cbn. by rewrite He.
  - destruct (store_private (jm_delete k m) k s) as [-> Hy2]; [done| |done|].
    { rewrite jm_get_delete. by rewrite decide_True. }
    split; [|done]. case_bool_decide; [|by rewrite Hget]. subst k. rewrite Hk. cbn. by rewrite He.
Qed.

Lemma set_private m now s :
  NoDup (jm_keys m) → young m →
  (makeKey (ss_sessionId s) (ss_isSubagent s) ≠ key → makeKey (ss_sessionId s) (ss_isSubagent s) ∈ U) →
  jm_get key (set o now s m) = own_step o key (jm_get key m) (OpSet now s) ∧ young (set o now s m).
Proof.
  intros Hnd Hy HU. unfold set, own_step.
  set (k := makeKey _ _) in *. clearbody k. unfold jm_has. destruct (jm_get k m) as [s0|] eqn:Hk.
  - destruct (delete_private m k Hnd Hy) as [Hget Hy'].
    destruct (store_private (jm_delete k m) k (Slot s (now + so_ttlMs o))) as [-> Hy2];
      [done| |done|].
    { rewrite jm_get_delete. by rewrite decide_True. }
    split; [|done]. case_bool_decide; [done | by rewrite Hget].
  - assert (jm_get k (evict o m) = None) as Hke.
    { apply jm_get_None. apply jm_get_None in Hk. intros Hin. apply Hk.
      destruct (evict_suffix o m) as [old Hm]. rewrite Hm. unfold jm_keys in *. rewrite fmap_app.
      apply elem_of_app. by right. }
    destruct (decide (k = key)) as [Heq|Hne].
    + subst k. split; [rewrite jm_get_set_eq; by rewrite bool_decide_true|].
      intros x. rewrite jm_keys_set_fresh by done. unfold jm_keys. rewrite fmap_app.
      cbn [fmap list_fmap fst]. rewrite after_self by (by apply jm_get_None). by intros ?%elem_of_nil.
    + apply jm_get_None in Hk.
      destruct (evict_keeps o key m Hnd) as [Hget Hsub].
      { apply (young_length m k); auto. }
      destruct (store_private (evict o m) k (Slot s (now + so_ttlMs o))) as [-> Hy2]; [|done|done|].
      { intros x Hx. by apply Hy, Hsub. }
      split; [|done]. by rewrite bool_decide_false.
Qed.

Lemma step_private m op :
  NoDup (jm_keys m) → young m → (∀ k, k ∈ used_keys [op] → k ≠ key → k ∈ U) →
  jm_get key (store_step o m op) = own_step o key (jm_get key m) op ∧ young (store_step o m op).
Proof.
  intros Hnd Hy HU. destruct op as [now k|now s|k|now k|k|k]; cbn [store_step].
  - apply get_private; [done..|]. apply HU. by left.
  - apply set_private; [done..|]. apply HU. by left.
  - by apply delete_private.
  - by apply (replace_private m k (λ s, Slot (with_updatedAt now (sl_state s)) (now + so_ttlMs o))).
  - by apply (replace_private m k (λ s, Slot (with_qualityFailures
      (default 0 (ss_qualityFailures (sl_state s)) + 1) (sl_state s)) (sl_expiresAt s))).
  - destruct (replace_private m k (λ s, if default 0 (ss_qualityFailures (sl_state s)) =? 0 then s
      else Slot (with_qualityFailures 0 (sl_state s)) (sl_expiresAt s)) Hy) as [Hget Hy'].
    unfold own_step, resetQualityFailures. cbn zeta in Hget, Hy'.
    destruct (jm_get k m) as [s|] eqn:Hk; [|done].
    destruct (_ =? 0) eqn:Hz; [|done]. split; [|done].
    case_bool_decide; [|done]. subst k. rewrite Hk. cbn. by rewrite Hz.
Qed.

Lemma run_private ops : ∀ m,
  NoDup (jm_keys m) → young m → (∀ k, k ∈ used_keys ops → k ≠ key → k ∈ U) →
  jm_get key (store_run o m ops) = foldl (own_step o key) (jm_get key m) ops.
Proof.
  induction ops as [|op ops IH]; intros m Hnd Hy HU; [done|].
  destruct (step_private m op Hnd Hy) as [Hget Hy'].
  { intros k Hk. apply HU. unfold used_keys in *. cbn [omap list_omap] in *. case_match; [|by apply elem_of_nil in Hk].
    apply elem_of_cons in Hk as [->|Hk%elem_of_nil]; [by left|done]. }
  unfold store_run in *. cbn [foldl]. rewrite IH, Hget; [done|by apply store_step_NoDup|done|].
  intros k Hk. apply HU. unfold used_keys in *. cbn [omap list_omap]. case_match; [by right|done].
Qed.
End Private.

(** ** Properties *)

(** P: The store never holds more slots than its capacity, nor two slots of
    one key. *)
Theorem store_bounded capacity ttl ops :
  let o := store_options_of capacity ttl in
  let m := store_run o [] ops in
  NoDup (jm_keys m) ∧ Z.of_nat (length m) ≤ so_capacity o.
Proof.
  cbn zeta. set (o := store_options_of capacity ttl).
  assert (1 <= so_capacity o) as Ho by (subst o; simpl; lia). unfold store_run.
  assert (NoDup (jm_keys ([] : session_store)) ∧ Z.of_nat (length ([] : session_store)) ≤ so_capacity o)
    as Hinv by (split; [constructor | simpl; lia]).
  revert Hinv. generalize ([] : session_store). induction ops as [|op ops IH]; intros m [Hnd Hl]; [done|].
  cbn [foldl]. apply IH. split; [by apply store_step_NoDup|].
  assert (∀ k s, is_Some (jm_get k m) → length (jm_set k s m) = length m) as Hset.
  { intros k s Hk. rewrite <- !(length_fmap fst). f_equal.
    change (jm_keys (jm_set k s m) = jm_keys m). by apply jm_keys_set_present. }
  assert (∀ k s, length (jm_set k s (jm_delete k m)) = S (length (jm_delete k m))) as Hput.
  { intros k s. rewrite jm_keys_set_fresh; [rewrite length_app; simpl; lia|].
    rewrite jm_get_delete. by rewrite decide_True. }
  destruct op as [now k|now s|k|now k|k|k]; cbn [store_step].
  - unfold get. destruct (jm_get k m) as [sl|] eqn:Hk; [|done].
    pose proof (jm_delete_length k m Hnd) as Hd. rewrite Hk in Hd. specialize (Hd ltac:(done)).
    destruct (_ <? _); cbn [snd]; [lia|]. rewrite Hput. lia.
  - unfold set, jm_has. destruct (jm_get _ m) eqn:Hk.
    + pose proof (jm_delete_length (makeKey (ss_sessionId s) (ss_isSubagent s)) m Hnd) as Hd.
      rewrite Hk in Hd. specialize (Hd ltac:(done)). rewrite Hput. lia.
    + rewrite jm_keys_set_fresh, length_app; [cbn [length]|].
      * pose proof (evict_length o m Ho). rewrite Nat2Z.inj_add. change (Z.of_nat 1) with 1. lia.
      * apply jm_get_None. apply jm_get_None in Hk. intros Hin. apply Hk.
        destruct (evict_suffix o m) as [old Hm]. rewrite Hm. unfold jm_keys in *. rewrite fmap_app.
        apply elem_of_app. by right.
  - unfold delete, jm_delete. pose proof (length_filter (λ kv : string * slot, kv.1 ≠ k) m). lia.
  - unfold touch. destruct (jm_get k m) eqn:Hk; [|done]. by rewrite Hset.
  - unfold recordQualityFailure. destruct (jm_get k m) eqn:Hk; [|done]. by rewrite Hset.
  - unfold resetQualityFailures. destruct (jm_get k m) eqn:Hk; [|done].
    destruct (_ =? _); [done|]. by rewrite Hset.
Qed.

(** C31: What was last stored for a session is what is read later, changed
    only by that session's own reads, touches and failure counts, as long as
    fewer other sessions than the store's capacity are used in between. *)
Theorem session_survives o before now state later :
  let key := makeKey (ss_sessionId state) (ss_isSubagent state) in
  Z.of_nat (size (list_to_set (used_keys later) ∖ {[key]} : gset string)) < so_capacity o →
  jm_get key (store_run o [] (before ++ OpSet now state :: later)) =
  foldl (own_step o key) (Some (Slot state (now + so_ttlMs o))) later.
Proof.
  intros key Hsmall. unfold store_run. rewrite foldl_app. cbn [foldl].
  set (m := foldl (store_step o) [] before).
  assert (NoDup (jm_keys m)) as Hnd.
  { subst m. assert (NoDup (jm_keys ([] : session_store))) as H0 by constructor.
    revert H0. generalize ([] : session_store). induction before as [|op ops IH]; intros m Hm; [done|].
    cbn [foldl]. by apply IH, store_step_NoDup. }
  assert (jm_get key (set o now state m) = Some (Slot state (now + so_ttlMs o)) ∧
          after key (jm_keys (set o now state m)) = []) as [Hget Hafter].
  { unfold set. change (makeKey _ _) with key. split; [apply jm_get_set_eq|].
    set (m' := if jm_has key m then _ else _).
    assert (jm_get key m' = None) as Hm'.
    { subst m'. unfold jm_has. destruct (jm_get key m) eqn:Hk.
      - rewrite jm_get_delete. by rewrite decide_True.
      - apply jm_get_None. apply jm_get_None in Hk. intros Hin. apply Hk.
        destruct (evict_suffix o m) as [old Hm]. rewrite Hm. unfold jm_keys in *. rewrite fmap_app.
        apply elem_of_app. by right. }
    rewrite jm_keys_set_fresh by done. unfold jm_keys. rewrite fmap_app. cbn [fmap list_fmap fst].
    by apply after_self, jm_get_None. }
  cbn [store_step]. rewrite <- Hget.
  apply (run_private o key (list_to_set (used_keys later) ∖ {[key]})).
  - exact Hsmall.
  - by apply (store_step_NoDup o m (OpSet now state)).
  - unfold young. rewrite Hafter. by intros x ?%elem_of_nil.
  - intros k Hk Hne. apply elem_of_difference. split; [by apply elem_of_list_to_set|].
    by rewrite elem_of_singleton.
Qed.

Definition pinned (sessionId model : string) (t : Z) : routing_state :=
  RoutingState sessionId false (Some "medium") (Some "acme") (Some model) false None None t.

(** Two slots; another session is stored and one slot is evicted before the
    pinned session is read. *)
Lemma session_survives_witness :
  jm_get "b" (store_run (store_options_of (Some 2) (Some 100)) []
    ([OpSet 0 (pinned "a" "small" 0)] ++ OpSet 1 (pinned "b" "large" 1) ::
     [OpRecordFailure "b"; OpSet 2 (pinned "c" "small" 2); OpGet 3 "b"; OpTouch 4 "b"])) =
  Some (Slot (with_updatedAt 4 (with_qualityFailures 1 (pinned "b" "large" 1))) 104).
Proof.
  etransitivity; [apply (session_survives (store_options_of (Some 2) (Some 100))
    [OpSet 0 (pinned "a" "small" 0)] 1 (pinned "b" "large" 1)
    [OpRecordFailure "b"; OpSet 2 (pinned "c" "small" 2); OpGet 3 "b"; OpTouch 4 "b"])|].
  - vm_compute. reflexivity.
  - vm_compute. reflexivity.
Defined.

(** P: A selection stops being usable after as many recorded failures as the
    guard allows, however often it is touched. *)
Theorem failures_release_sticky config now s n :
  default 0 (ss_qualityFailures s) = 0 →
  default DEFAULT_STICKY_MAX_QUALITY_FAILURES (config ≫= st_maxQualityFailures) ≤ Z.of_nat n →
  ∀ sl, foldl (own_step (store_options_of None None) "k") (Some (Slot s now))
          (replicate n (OpRecordFailure "k")) = Some sl →
  ∀ now', isStickyUsable config now' (Some (sl_state sl)) = false.
Proof.
  intros H0 Hmax sl Hrun now'.
  assert (∀ n sl0 sl, foldl (own_step (store_options_of None None) "k") (Some sl0)
            (replicate n (OpRecordFailure "k")) = Some sl →
          default 0 (ss_qualityFailures (sl_state sl)) =
          default 0 (ss_qualityFailures (sl_state sl0)) + Z.of_nat n) as Hcount.
  { clear. induction n as [|n IH]; intros sl0 sl; cbn [replicate foldl].
    - intros [= ->]. lia.
    - intros Hrun. cbn [own_step] in Hrun. rewrite bool_decide_true in Hrun by done.
      apply IH in Hrun. rewrite Hrun. cbn. lia. }
  apply Hcount in Hrun. cbn [sl_state] in Hrun. rewrite H0 in Hrun.
  unfold isStickyUsable. rewrite Hrun.
  destruct (Z.leb_spec (default DEFAULT_STICKY_MAX_QUALITY_FAILURES (config ≫= st_maxQualityFailures))
    (0 + Z.of_nat n)); [|lia]. by rewrite andb_false_r.
Qed.
