(* ===== verification/RouterMedia.v ===== *)
(** * Requests, media and attempt plans

    What a request needs of a model and how it is fitted to one: required
    input modalities (src/src/router/utils/mediaRequirements.ts), the media
    checks and the reroute (src/src/router/policy/mediaCapability.ts), text
    placeholders for media a model cannot read
    (src/src/model/protocol/multimodal.ts), the order of the attempts
    (src/src/router/execution/attemptPlanning.ts, src/src/router/fallback),
    token estimates (src/src/router/utils/countTokens.ts) and continuation
    requests (src/src/model/streaming/continuationRequest.ts).  The dash of
    the placeholders is written [-]: its code unit is above 255. *)

From S2P Require Import Prelude JsValue RouterTypes.
Open Scope Z_scope.

(** ** Required modalities *)

Definition MEDIA_MODALITY_ORDER : list modality := [MImage; MPdf; MAudio].

Definition item_modality (i : result_item) : option modality :=
  match i with
  | ItemText _ => None
  | ItemImage _ _ _ _ => Some MImage
  | ItemPdf _ _ _ _ => Some MPdf
  end.

(** What [collectFromBlock] adds to the set. *)
Definition collectFromBlock (block : content_block) : list modality :=
  match block with
  | ImageBlock _ _ _ _ => [MImage]
  | PdfBlock _ _ _ _ => [MPdf]
  | AudioBlock _ _ => [MAudio]
  | ToolResultBlock _ content => omap item_modality content
  | _ => []
  end.

Definition collected (messages : list message) : list modality :=
  concat (map (λ m, concat (map collectFromBlock (m_content m))) messages).

Definition collectRequiredInputModalities (messages : list message) : list modality :=
  filter (λ x, x ∈ collected messages) MEDIA_MODALITY_ORDER.

Definition missingInputModalities (input required : list modality) : list modality :=
  filter (λ x, x ∉ input) required.

Section Checks.
Context (config : model_config).

(** An unknown model misses everything. *)
Definition missingForModel (ref : model_ref) (required : list modality) : list modality :=
  match required with
  | [] => []
  | _ =>
    match getMultimodal config (ref_provider ref) (ref_model ref) with
    | Ok input => missingInputModalities input required
    | Throw _ => required
    end
  end.

Definition supportsMediaRequirements (ref : model_ref) (required : list modality) : bool :=
  bool_decide (missingForModel ref required = []).

(** ** Attempt plans *)

Record attempt_plan := AttemptPlan { ap_attempt : model_ref; ap_downgrade : bool }.

Definition buildAttemptPlans (candidateAttempts : list model_ref) (required : list modality)
  : list attempt_plan :=
  let nativeAttempts :=
    List.filter (λ a, supportsMediaRequirements a required) candidateAttempts in
  let downgradedAttempts :=
    if bool_decide (required ≠ []) then
      List.filter (λ a, negb (supportsMediaRequirements a required)) candidateAttempts
    else [] in
  map (λ a, AttemptPlan a false) nativeAttempts ++ map (λ a, AttemptPlan a true) downgradedAttempts.
End Checks.

Definition capFallbackAttempts (attempts : list model_ref) (maxFallbacks : option Z) : list model_ref :=
  let cap := default LITELLM_ROUTER_MAX_FALLBACKS maxFallbacks in
  if cap <=? 0 then [] else take (Z.to_nat cap) attempts.

Definition planFallback (fallback : option fallback_config) (scenarioType : scenario_type)
  : list model_ref :=
  match fallback with
  | None => []
  | Some f =>
    match scenarioType with
    | ScExplicit => capFallbackAttempts (default [] (fb_default f)) (fb_maxFallbacks f)
    | _ =>
      let attempts := match fallback_for f scenarioType with
                      | Some l => l
                      | None => default [] (fb_default f)
                      end in
      capFallbackAttempts attempts (fb_maxFallbacks f)
    end
  end.

(** [attempts.filter((attempt, index, all) => all.findIndex(same) === index)]:
    the first of every provider and model. *)
Fixpoint first_of_each (seen : list model_ref) (l : list model_ref) : list model_ref :=
  match l with
  | [] => []
  | r :: l =>
    if existsb (same_model r) seen then first_of_each seen l
    else r :: first_of_each (r :: seen) l
  end.

(** ** Fitting a request to a model *)

(** [Math.round(bytes / 1024)]. *)
Definition kilobytes (bytes : Z) : Z := (bytes + 512) / 1024.

Definition image_placeholder (mimeType : string) (bytes : option Z) : string :=
  let sizeHint := match bytes with
                  | Some b => if b =? 0 then "" else ", " +:+ pretty (kilobytes b) +:+ "KB"
                  | None => ""
                  end in
  "[Image: " +:+ mimeType +:+ sizeHint +:+ " - omitted, model does not support image input]".

Definition pdf_placeholder (mimeType : string) (bytes : Z) (pages : option Z) : string :=
  let pagesHint := match pages with
                   | Some p => if p =? 0 then "" else ", " +:+ pretty p +:+ " pages"
                   | None => ""
                   end in
  "[PDF: " +:+ mimeType +:+ ", " +:+ pretty (kilobytes bytes) +:+ "KB" +:+ pagesHint
    +:+ " - omitted, model does not support PDF input]".

Definition item_placeholder (allowed : list modality) (i : result_item) : option string :=
  match i with
  | ItemImage _ _ mime bytes =>
    if bool_decide (MImage ∉ allowed) then Some (image_placeholder mime bytes) else None
  | ItemPdf _ mime bytes pages =>
    if bool_decide (MPdf ∉ allowed) then Some (pdf_placeholder mime bytes pages) else None
  | ItemText _ => None
  end.

Definition mediaBlockToPlaceholder (allowed : list modality) (block : content_block) : option string :=
  match block with
  | ImageBlock _ _ mime bytes =>
    if bool_decide (MImage ∉ allowed) then Some (image_placeholder mime bytes) else None
  | PdfBlock _ mime bytes pages =>
    if bool_decide (MPdf ∉ allowed) then Some (pdf_placeholder mime bytes pages) else None
  | AudioBlock _ mime =>
    if bool_decide (MAudio ∉ allowed)
    then Some ("[Audio: " +:+ mime +:+ " - omitted, model does not support audio input]")
    else None
  | _ => None
  end.

Definition downgrade_item (allowed : list modality) (i : result_item) : result_item :=
  match item_placeholder allowed i with Some text => ItemText text | None => i end.

Definition downgrade_block (allowed : list modality) (block : content_block) : content_block :=
  match block with
  | ToolResultBlock id content => ToolResultBlock id (map (downgrade_item allowed) content)
  | _ => match mediaBlockToPlaceholder allowed block with
         | Some text => TextBlock text
         | None => block
         end
  end.

Definition downgradeUnsupportedContent (messages : list message) (allowed : list modality)
  : list message :=
  if bool_decide (MImage ∈ allowed ∧ MPdf ∈ allowed ∧ MAudio ∈ allowed) then messages
  else map (λ m, Message (m_role m) (map (downgrade_block allowed) (m_content m))) messages.

Definition with_messages (messages : list message) (r : model_request) : model_request :=
  ModelRequest (rq_provider r) (rq_model r) messages (rq_tools r) (rq_maxOutputTokens r).

(** An unknown model leaves the request as it is. *)
Definition downgradeRequestForAttempt (config : model_config) (request : model_request)
  (attempt : model_ref) : model_request :=
  match getMultimodal config (ref_provider attempt) (ref_model attempt) with
  | Throw _ => request
  | Ok input => with_messages (downgradeUnsupportedContent (rq_messages request) input) request
  end.

Definition clampMaxOutputTokensToModelCap (config : model_config) (request : model_request)
  : model_request :=
  match rq_maxOutputTokens request with
  | None => request
  | Some requested =>
    match getCapabilities_maxOutputTokens config (rq_provider request) (rq_model request) with
    | Throw _ => request
    | Ok cap =>
      if (0 <? cap) && (cap <? requested)
      then ModelRequest (rq_provider request) (rq_model request) (rq_messages request)
             (rq_tools request) (Some cap)
      else request
    end
  end.

(** ** Continuing an answer *)

Definition LITELLM_CONTINUATION_INSTRUCTION : string :=
  "You are a helpful assistant. You are given a message and you need to respond to it. " +:+
  "You are also given a generated content. You need to respond to the message in continuation of the generated content. " +:+
  "Do not repeat the same content. Your response should be in continuation of this text:".

Definition is_continuation_tail (secondLast last : message) : bool :=
  bool_decide (m_role last = User) && bool_decide (m_role secondLast = Assistant)
  && match m_content last with
     | [TextBlock text] => bool_decide (text = LITELLM_CONTINUATION_INSTRUCTION)
     | _ => false
     end.

Definition stripLiteLLMContinuationMessages (messages : list message) : list message :=
  match rev messages with
  | last :: secondLast :: front =>
    if is_continuation_tail secondLast last then rev front else messages
  | _ => messages
  end.

Definition buildLiteLLMContinuationRequest (original : model_request) (partialText : string)
  : model_request :=
  with_messages
    (stripLiteLLMContinuationMessages (rq_messages original) ++
     [Message Assistant [TextBlock partialText];
      Message User [TextBlock LITELLM_CONTINUATION_INSTRUCTION]]) original.

(** ** Token estimates *)

(** [JSON.stringify(value)]. *)
Fixpoint json_compact (value : jsval) : option string :=
  match value with
  | JUndefined | JOther _ => None
  | JNull => Some "null"
  | JBool b => Some (if b then "true" else "false")
  | JNum n => Some (if is_finite_num n then number_to_string n else "null")
  | JStr s => Some (quote s)
  | JArr l => Some ("[" +:+ str_join "," (map (λ v, default "null" (json_compact v)) l) +:+ "]")
  | JObj fields =>
    let texts := omap id
      (map (λ kv, text ← json_compact kv.2; Some (quote kv.1 +:+ ":" +:+ text)) fields) in
    Some ("{" +:+ str_join "," texts +:+ "}")
  end.

Definition toolResultContentBlockToText (i : result_item) : string :=
  match i with
  | ItemText text => text
  | ItemImage true data mime _ => "[Image: " +:+ mime +:+ ", " +:+ data +:+ "]"
  | ItemImage false data mime _ =>
    "[Image: " +:+ mime +:+ ", " +:+ pretty (Z.of_nat (String.length data)) +:+ " base64 characters]"
  | ItemPdf data mime _ pages =>
    "[PDF: " +:+ mime +:+ ", " +:+ pretty (Z.of_nat (String.length data)) +:+ " base64 characters" +:+
    (match pages with
     | Some p => if p =? 0 then "" else ", " +:+ pretty p +:+ " pages"
     | None => ""
     end) +:+ "]"
  end.

Definition newline : string := String (ascii_of_N 10) "".

(** [chunks.join("\n")] writes an absent JSON text as the empty string. *)
Definition block_chunk (block : content_block) : option string :=
  match block with
  | TextBlock text | ThinkingBlock text => Some text
  | ToolCallBlock _ _ input =>
    match input with
    | JUndefined => None
    | JStr s => Some s
    | _ => Some (default "" (json_compact input))
    end
  | ToolResultBlock _ content =>
    Some (str_join newline (map toolResultContentBlockToText content))
  | _ => None
  end.

(** The tokenizer is third-party code. *)
Class Tokenizer := { countTokens : string → Z }.

Class TokenizerLaws (T : Tokenizer) : Prop := { countTokens_nonneg text : 0 <= countTokens text }.

Definition countMessagesTokens `{Tokenizer} (messages : list message) : Z :=
  countTokens (str_join newline (concat (map (λ m, omap block_chunk (m_content m)) messages))).

Definition event_chunk (e : model_event) : option string :=
  match e with
  | TextDelta text | ThinkingDelta text => Some text
  | ToolCallDelta _ delta => Some delta
  | _ => None
  end.

Definition countResponseTokens `{Tokenizer} (events : list model_event) : Z :=
  match omap event_chunk events with
  | [] => 0
  | chunks => countTokens (str_join "" chunks)
  end.

(** ** Modalities *)

Lemma elem_of_collected x messages :
  x ∈ collected messages ↔ ∃ m b, m ∈ messages ∧ b ∈ m_content m ∧ x ∈ collectFromBlock b.
Proof.
  unfold collected. rewrite list_elem_of_In, in_concat. setoid_rewrite in_map_iff. split.
  - intros (l & (m & <- & Hm) & (l' & (b & <- & Hb)%in_map_iff & Hx)%in_concat).
    exists m, b. rewrite !list_elem_of_In. done.
  - intros (m & b & Hm & Hb & Hx). rewrite !list_elem_of_In in *. eexists. split; [by exists m|].
    apply in_concat. exists (collectFromBlock b). split; [by apply in_map | done].
Qed.

Lemma elem_of_required x messages :
  x ∈ collectRequiredInputModalities messages ↔ x ∈ collected messages.
Proof.
  unfold collectRequiredInputModalities. rewrite list_elem_of_filter. split; [tauto|]. intros Hx. split; [done|].
  apply elem_of_collected in Hx as (m & b & _ & _ & Hx). destruct b; cbn in Hx.
  all: try by apply elem_of_nil in Hx.
  1-3: apply list_elem_of_singleton in Hx as ->; unfold MEDIA_MODALITY_ORDER; set_solver.
  apply list_elem_of_omap in Hx as (i & _ & Hi). destruct i; simplify_eq/=; unfold MEDIA_MODALITY_ORDER; set_solver.
Qed.

Lemma missing_nil input required : missingInputModalities input required = [] ↔ required ⊆ input.
Proof.
  unfold missingInputModalities. split.
  - intros Hnil x Hx. destruct (decide (x ∈ input)); [done|]. exfalso.
    apply (not_elem_of_nil x). rewrite <- Hnil. by apply list_elem_of_filter.
  - intros Hsub. destruct (filter _ required) as [|x l] eqn:E; [done|]. exfalso.
    assert (x ∈ filter (λ x, x ∉ input) required) as Hx by (rewrite E; by left).
    apply list_elem_of_filter in Hx as [Hx Hr]. by apply Hx, Hsub.
Qed.

Lemma downgrade_item_allowed allowed i x :
  item_modality (downgrade_item allowed i) = Some x → x ∈ allowed.
Proof.
  unfold downgrade_item. destruct i; cbn [item_placeholder]; try done; case_bool_decide as Hd; cbn;
    by intros [= <-].
Qed.

Lemma downgrade_block_allowed allowed b x :
  x ∈ collectFromBlock (downgrade_block allowed b) → x ∈ allowed.
Proof.
  destruct b; cbn [downgrade_block mediaBlockToPlaceholder]; try case_bool_decide as Hd;
    cbn [collectFromBlock]; try by intros ?%elem_of_nil.
  1-3: by intros ->%list_elem_of_singleton.
  intros (i & (j & -> & _)%list_elem_of_fmap & Hi)%list_elem_of_omap. by eapply downgrade_item_allowed.
Qed.

Lemma downgrade_item_id allowed i :
  (∀ x, item_modality i = Some x → x ∈ allowed) → downgrade_item allowed i = i.
Proof.
  unfold downgrade_item. intros Hi. destruct i; cbn; [done| |]; rewrite bool_decide_false; try done;
    intros Hn; by apply Hn, Hi.
Qed.

Lemma map_id_in {A} (f : A → A) l : (∀ x, x ∈ l → f x = x) → map f l = l.
Proof. intros Hf. rewrite <- (map_id l) at 2. apply map_ext_in. intros x Hx. by apply Hf, list_elem_of_In. Qed.

Lemma downgrade_block_id allowed b :
  (∀ x, x ∈ collectFromBlock b → x ∈ allowed) → downgrade_block allowed b = b.
Proof.
  intros Hb. destruct b; cbn in *; try done.
  1-3: rewrite bool_decide_false; [done|]; intros Hn; apply Hn, Hb; by left.
  f_equal. apply map_id_in. intros i Hi. apply downgrade_item_id. intros x Hx.
  apply Hb, list_elem_of_omap. eauto.
Qed.

(** P: The placeholders make a request readable for a model: afterwards the
    request needs no modality the model lacks, every message keeps its role
    and its number of blocks, and a request that needs nothing the model
    lacks is not changed at all. *)
Theorem downgrade_fits messages allowed :
  let messages' := downgradeUnsupportedContent messages allowed in
  missingInputModalities allowed (collectRequiredInputModalities messages') = [] ∧
  map (λ m, (m_role m, length (m_content m))) messages' =
    map (λ m, (m_role m, length (m_content m))) messages ∧
  (missingInputModalities allowed (collectRequiredInputModalities messages) = [] → messages' = messages).
Proof.
  cbn zeta. unfold downgradeUnsupportedContent. case_bool_decide as Hall.
  - split; [|done]. apply missing_nil. intros x [_ Hx]%list_elem_of_filter.
    unfold MEDIA_MODALITY_ORDER in Hx. rewrite !elem_of_cons, elem_of_nil in Hx.
    destruct Hall as (? & ? & ?). destruct Hx as [->|[->|[->|[]]]]; done.
  - split; [|split].
    + apply missing_nil. intros x Hx%elem_of_required.
      apply elem_of_collected in Hx as (m & b & Hm & Hb & Hx).
      apply list_elem_of_fmap in Hm as (m0 & -> & _). cbn in Hb.
      apply list_elem_of_fmap in Hb as (b0 & -> & _). by eapply downgrade_block_allowed.
    + rewrite map_map. apply map_ext. intros m. cbn. by rewrite length_map.
    + intros Hmiss%missing_nil. apply map_id_in. intros m Hm. destruct m as [r content]. cbn. f_equal.
      apply map_id_in. intros b Hb. apply downgrade_block_id. intros x Hx.
      apply Hmiss, elem_of_required, elem_of_collected. by exists (Message r content), b.
Qed.

(** ** Attempt plans *)

Lemma same_model_spec a b :
  same_model a b = true ↔ ref_provider a = ref_provider b ∧ ref_model a = ref_model b.
Proof. unfold same_model. by rewrite bool_decide_eq_true. Qed.

Definition model_key (r : model_ref) : string * string := (ref_provider r, ref_model r).

Lemma same_model_key a b : same_model a b = true ↔ model_key a = model_key b.
Proof. rewrite same_model_spec. unfold model_key. by rewrite pair_equal_spec. Qed.

Lemma existsb_same r l : existsb (same_model r) l = true ↔ model_key r ∈ model_key <$> l.
Proof.
  rewrite existsb_exists, list_elem_of_fmap. setoid_rewrite <- list_elem_of_In.
  setoid_rewrite same_model_key. split; intros (x & ? & ?); exists x; tauto.
Qed.

Lemma first_of_each_keys seen l k :
  k ∈ model_key <$> first_of_each seen l ↔ k ∈ model_key <$> l ∧ k ∉ model_key <$> seen.
Proof.
  revert seen. induction l as [|r l IH]; intros seen; cbn [first_of_each].
  - rewrite !fmap_nil. set_solver.
  - destruct (existsb _ seen) eqn:E.
    + apply existsb_same in E. rewrite IH, fmap_cons, elem_of_cons. split; [tauto|].
      intros [[->|?] ?]; [done|tauto].
    + assert (model_key r ∉ model_key <$> seen) as Hr by (rewrite <- existsb_same, E; done).
      rewrite !fmap_cons, !elem_of_cons, IH, fmap_cons, elem_of_cons.
      destruct (decide (k = model_key r)) as [->|]; tauto.
Qed.

Lemma first_of_each_NoDup seen l : NoDup (model_key <$> first_of_each seen l).
Proof.
  revert seen. induction l as [|r l IH]; intros seen; cbn [first_of_each]; [constructor|].
  destruct (existsb _ seen); [done|]. rewrite fmap_cons. constructor; [|done].
  rewrite first_of_each_keys, fmap_cons. set_solver.
Qed.

Lemma plans_supported config candidates required p :
  p ∈ buildAttemptPlans config candidates required ↔
  ap_attempt p ∈ candidates ∧ ap_downgrade p = negb (supportsMediaRequirements config (ap_attempt p) required).
Proof.
  assert (required = [] → ∀ a, supportsMediaRequirements config a required = true) as Hnone.
  { intros -> a. unfold supportsMediaRequirements. done. }
  unfold buildAttemptPlans. rewrite elem_of_app, !list_elem_of_fmap. split.
  - intros [(a & -> & Ha)|(a & -> & Ha)]; cbn.
    + apply list_elem_of_In, filter_In in Ha as [Ha Hs]. rewrite Hs. by rewrite list_elem_of_In.
    + case_bool_decide; [|by apply elem_of_nil in Ha].
      apply list_elem_of_In, filter_In in Ha as [Ha Hs]. apply negb_true_iff in Hs. rewrite Hs.
      by rewrite list_elem_of_In.
  - destruct p as [a d]. cbn. intros [Ha ->]. destruct (supportsMediaRequirements config a required) eqn:Hs; cbn.
    + left. exists a. split; [done|]. apply list_elem_of_In, filter_In. by rewrite <- list_elem_of_In.
    + right. exists a. split; [done|]. rewrite bool_decide_true; [|intros Hr; by rewrite (Hnone Hr a) in Hs].
      apply list_elem_of_In, filter_In. rewrite <- list_elem_of_In. by rewrite Hs.
Qed.

Lemma filter_perm_split {A} (f : A → bool) l :
  List.filter f l ++ List.filter (λ x, negb (f x)) l ≡ₚ l.
Proof.
  induction l as [|x l IH]; [done|]. cbn [List.filter]. destruct (f x); cbn [negb app].
  - by rewrite IH.
  - rewrite <- Permutation_middle. by rewrite IH.
Qed.

(** The plans are the candidates in another order. *)
Lemma plans_perm config candidates required :
  map ap_attempt (buildAttemptPlans config candidates required) ≡ₚ candidates.
Proof.
  unfold buildAttemptPlans. rewrite map_app, !map_map. cbn. rewrite !map_id.
  case_bool_decide as Hr; [apply filter_perm_split|]. subst required.
  rewrite app_nil_r. induction candidates as [|a l IH]; [done|]. cbn [List.filter].
  unfold supportsMediaRequirements at 1. cbn. by rewrite IH.
Qed.

Lemma plans_nonempty config requested fallbacks required :
  buildAttemptPlans config (first_of_each [] (requested :: fallbacks)) required ≠ [].
Proof.
  intros Hnil. pose proof (plans_perm config (first_of_each [] (requested :: fallbacks)) required) as Hperm.
  rewrite Hnil in Hperm. symmetry in Hperm. apply Permutation_nil_r in Hperm. by cbn in Hperm.
Qed.

(** C32: The attempts of a turn are the requested model and its fallbacks,
    each provider and model once; the models that can read the request come
    first, and exactly the others get placeholders for what they cannot read.
    There is always at least one attempt. *)
Theorem attempts_complete config requested fallbacks required :
  let candidates := first_of_each [] (requested :: fallbacks) in
  let plans := buildAttemptPlans config candidates required in
  NoDup (map (λ p, model_key (ap_attempt p)) plans) ∧
  (∀ k, k ∈ map (λ p, model_key (ap_attempt p)) plans ↔ k ∈ model_key <$> (requested :: fallbacks)) ∧
  (∀ p, p ∈ plans → ap_downgrade p = negb (supportsMediaRequirements config (ap_attempt p) required)) ∧
  StronglySorted (λ p q, ap_downgrade p = true → ap_downgrade q = true) plans ∧
  plans ≠ [].
Proof.
  cbn zeta. set (candidates := first_of_each _ _).
  pose proof (plans_perm config candidates required) as Hperm.
  assert (map (λ p, model_key (ap_attempt p)) (buildAttemptPlans config candidates required)
          ≡ₚ model_key <$> candidates) as Hkeys.
  { apply (Permutation_map model_key) in Hperm. by rewrite map_map in Hperm. }
  assert (∀ k, k ∈ model_key <$> candidates ↔ k ∈ model_key <$> (requested :: fallbacks)) as Hset.
  { intros k. subst candidates. rewrite first_of_each_keys, fmap_nil. set_solver. }
  split; [|split; [|split; [|split]]].
  - rewrite Hkeys. apply first_of_each_NoDup.
  - intros k. by rewrite Hkeys, Hset.
  - by intros p [_ ?]%plans_supported.
  - unfold buildAttemptPlans. generalize (List.filter (λ a, supportsMediaRequirements config a required) candidates) as natives.
    generalize (if bool_decide (required ≠ [])
      then List.filter (λ a, negb (supportsMediaRequirements config a required)) candidates else []) as others.
    intros others natives. induction natives as [|a l IH]; cbn.
    + induction others as [|a l IH]; cbn; constructor; [done|]. apply Forall_forall.
      intros q Hq _. by apply list_elem_of_fmap in Hq as (b & -> & _).
    + constructor; [done|]. by apply Forall_forall.
  - apply plans_nonempty.
Qed.

(** ** Continuations *)

Lemma strip_appended front text :
  stripLiteLLMContinuationMessages (front ++
    [Message Assistant [TextBlock text]; Message User [TextBlock LITELLM_CONTINUATION_INSTRUCTION]]) = front.
Proof.
  unfold stripLiteLLMContinuationMessages. rewrite rev_app_distr. cbn [rev app].
  unfold is_continuation_tail. cbn [m_role m_content]. rewrite !bool_decide_true by done.
  cbn [andb]. apply rev_involutive.
Qed.

(** P: A continuation of a continuation keeps only the latest piece of the
    answer: what the model had written before the first interruption is not
    in the request any more. *)
Theorem continuation_forgets r text1 text2 :
  buildLiteLLMContinuationRequest (buildLiteLLMContinuationRequest r text1) text2 =
  with_messages (stripLiteLLMContinuationMessages (rq_messages r) ++
    [Message Assistant [TextBlock text2]; Message User [TextBlock LITELLM_CONTINUATION_INSTRUCTION]]) r.
Proof.
  unfold buildLiteLLMContinuationRequest at 1. cbn [rq_messages buildLiteLLMContinuationRequest with_messages].
  by rewrite strip_appended.
Qed.

(** ** [rerouteDecisionForMedia] *)

Definition with_model (provider model : string) (r : resolution) (d : router_decision) : router_decision :=
  RouterDecision provider model (rd_scenarioType d) (rd_tokenSaverTier d) (rd_isSubagent d)
    (rd_orchestrating d) r (rd_mutations d).

Definition with_reroute (x : list modality * string * string) (m : mutations_log) : mutations_log :=
  MutationsLog (mu_orchestrationActivated m) (mu_subagentTagStripped m) (Some x)
    (mu_cacheAwareSwitch m) (mu_researchUpgrade m).

(** It changes the decision in place and returns the log. *)
Definition rerouteDecisionForMedia (config : model_config) (candidates : list model_ref)
  (messages : list message) (decision : router_decision) (mutations : mutations_log)
  : router_decision * mutations_log :=
  match collectRequiredInputModalities messages with
  | [] => (decision, mutations)
  | required =>
    let selected := ref_of (rd_provider decision) (rd_model decision) in
    if supportsMediaRequirements config selected required then (decision, mutations)
    else
      match List.find (λ r, supportsMediaRequirements config r required) candidates with
      | None => (decision, mutations)
      | Some r =>
        (with_model (ref_provider r) (ref_model r) ByFallback decision,
         with_reroute (required, ref_id selected,
           default (ref_provider r +:+ "/" +:+ ref_model r) (truthy (Some (ref_id r)))) mutations)
      end
  end.

(** [fallbackCandidatesFor]. *)
Definition fallbackCandidatesFor (fallback : option fallback_config) (scenarioType : scenario_type)
  : list model_ref :=
  let add := foldl (λ candidates ref,
    if existsb (λ c, same_model c ref) candidates then candidates
    else candidates ++ [ModelRef (default (ref_provider ref +:+ "/" +:+ ref_model ref)
                                    (truthy (Some (ref_id ref)))) (ref_provider ref) (ref_model ref)]) in
  match fallback with
  | None => []
  | Some f => add (add [] (default [] (fallback_for f scenarioType))) (default [] (fb_default f))
  end.

(** P: A rerouted decision has a model that reads the request; a decision is
    left alone exactly when its model already does or no candidate does. *)
Theorem reroute_readable config candidates messages decision mutations :
  let required := collectRequiredInputModalities messages in
  let decision' := (rerouteDecisionForMedia config candidates messages decision mutations).1 in
  let ok d := supportsMediaRequirements config (ref_of (rd_provider d) (rd_model d)) required in
  (ok decision = true → decision' = decision) ∧
  (ok decision' = true ↔ ok decision = true ∨
     ∃ r, r ∈ candidates ∧ supportsMediaRequirements config r required = true).
Proof.
  cbn zeta. unfold rerouteDecisionForMedia.
  destruct (collectRequiredInputModalities messages) as [|x l] eqn:Hreq.
  { split; [done|]. unfold supportsMediaRequirements. cbn. split; [by left|done]. }
  destruct (supportsMediaRequirements config (ref_of _ _) (x :: l)) eqn:Hs; [cbn; rewrite Hs; tauto|].
  split; [done|]. destruct (List.find _ candidates) as [r|] eqn:Hf; cbn [fst].
  - apply find_some in Hf as [Hin Hok]. cbn [with_model rd_provider rd_model].
    split; [|intros _; done]. intros _. right. exists r. by rewrite list_elem_of_In.
  - rewrite Hs. split; [done|]. intros [?|(r & Hin & Hok)]; [done|].
    rewrite list_elem_of_In in Hin. by rewrite (find_none _ _ Hf r Hin) in Hok.
Qed.
