(* ===== verification/RouterPolicy.v ===== *)
(** * Routing policies

    The small decisions the router is made of: which errors allow a fallback
    or a retry (src/src/router/fallback/runFallbackChain.ts,
    src/src/router/execution/errors.ts, src/src/router/retry/zeroUsageRetry.ts),
    the retry delays (src/src/model/streaming/backoff.ts), scenarios and
    subagent tags (src/src/router/scenario), capability requirements and tier
    upgrades (src/src/router/policy/capabilityRequirements.ts), orchestration
    runs (src/src/router/orchestrate/applyOrchestration.ts), model prices
    (src/src/router/utils/modelPricing.ts) and the cache-aware switch
    (src/src/router/policy/cacheAwareSwitching.ts), whose costs are exact
    fractions.  Regular expressions are written out as searches. *)

From Stdlib Require Import QArith Qround Qminmax Lqa.
From S2P Require Import Prelude JsValue Text RouterTypes RouterMedia.
Open Scope Z_scope.

(** ** Errors *)

Definition FALLBACK_ELIGIBLE_NON_RETRYABLE : list string :=
  ["billing"; "model_not_found"; "auth_error"; "provider_not_found"].

Definition isFallbackEligible (error : model_error) : bool :=
  if bool_decide (er_code error = "invalid_tool_arguments") then true
  else if bool_decide (er_code error ∈ FALLBACK_ELIGIBLE_NON_RETRYABLE) then true
  else if negb (er_retryable error) then false
  else if er_recoverableViaCompact error then false
  else if er_recoverableViaImageStrip error then false
  else if bool_decide (er_code error ∈ ["prompt_too_long"; "request_too_large"; "context_overflow"])
  then false
  else true.

Definition PROVIDER_FAULT_CODES : list string :=
  ["timeout"; "server_error"; "overloaded_error"; "connection_reset"; "connection_refused";
   "dns_error"; "tls_error"; "proxy_error"; "unknown"].

Definition isProviderFaultCode (code : string) : bool := bool_decide (code ∈ PROVIDER_FAULT_CODES).

(** What a call may throw: an object that carries a canonical error, a
    [ModelRequestError], another [Error], or something else. *)
Inductive thrown :=
  | ThrownCanonical (e : model_error)
  | ThrownRequestError (code msg : string)
  | ThrownError (name msg : string)
  | ThrownOther (text : string).

Definition canonicalizeModelRequestError (provider protocol code msg : string) : model_error :=
  ModelError provider None protocol code msg false false
    (bool_decide (code ∈ ["image_too_large"; "too_many_images"])) None.

Definition protocolForProvider (config : model_config) (providerId : string) : string :=
  default "openai" (getProviderProtocol config providerId).

Definition TRANSIENT_PHRASES : list string :=
  ["econnreset"; "econnrefused"; "etimedout"; "epipe"; "socket hang up"; "network"; "dns";
   "fetch failed"; "abort"].

Definition isNetworkTransient (error : thrown) : bool :=
  let test name msg :=
    existsb (λ phrase, str_includes phrase (to_lower msg)) TRANSIENT_PHRASES
    || bool_decide (name ∈ ["TimeoutError"; "AbortError"]) in
  match error with
  | ThrownOther _ => false
  | ThrownError name msg => test name msg
  | ThrownRequestError _ msg => test "ModelRequestError" msg
  | ThrownCanonical e => false
  end.

Definition classifyNetworkErrorCode (error : thrown) : string :=
  let test name msg :=
    if str_includes "timeout" (to_lower msg) || bool_decide (name = "TimeoutError") then "timeout"
    else if str_includes "abort" (to_lower msg) || bool_decide (name = "AbortError") then "aborted"
    else "network_error" in
  match error with
  | ThrownError name msg => test name msg
  | _ => "unknown"
  end.

Definition thrown_text (error : thrown) : string :=
  match error with
  | ThrownError _ msg | ThrownRequestError _ msg => msg
  | ThrownOther text => text
  | ThrownCanonical e => er_message e
  end.

Definition with_protocol (protocol : string) (e : model_error) : model_error :=
  ModelError (er_provider e) (er_model e) protocol (er_code e) (er_message e) (er_retryable e)
    (er_recoverableViaCompact e) (er_recoverableViaImageStrip e) (er_retryAfterMs e).

(** [fromError ?? canonicalizeModelRequestError(...) ?? { ... }]. *)
Definition error_of_thrown (config : model_config) (provider : string) (error : thrown) : model_error :=
  let protocol := protocolForProvider config provider in
  match error with
  | ThrownCanonical e => e
  | ThrownRequestError code msg => canonicalizeModelRequestError provider protocol code msg
  | _ => ModelError provider None protocol (classifyNetworkErrorCode error) (thrown_text error)
           (isNetworkTransient error) false false None
  end.

(** The same for an error of the concurrency gate, whose protocol is filled in. *)
Definition error_of_gate (config : model_config) (provider : string) (error : thrown) : model_error :=
  match error with
  | ThrownCanonical e => with_protocol (protocolForProvider config provider) e
  | _ => error_of_thrown config provider error
  end.

Inductive retry_reason := RateLimit | ServerError | NetworkError | ZeroUsage | Overloaded.

#[export] Instance retry_reason_eq_dec : EqDecision retry_reason.
Proof. solve_decision. Defined.

Definition classifyRetryReason (errorCode : string) : retry_reason :=
  if bool_decide (errorCode = "rate_limit_error") then RateLimit
  else if bool_decide (errorCode = "overloaded_error") then Overloaded
  else if bool_decide (errorCode = "server_error") then ServerError
  else if bool_decide (errorCode = "network_error" ∨ errorCode = "timeout") then NetworkError
  else ServerError.

Definition createUnsupportedMediaError (attempt : model_ref) (required missing : list string)
  (protocol : string) : model_error :=
  let missingText := str_join ", " (match missing with [] => required | _ => missing end) in
  ModelError (ref_provider attempt) None protocol "unsupported_modality"
    ("Router could not find a configured fallback model for " +:+ ref_provider attempt +:+ "/" +:+
     ref_model attempt +:+ " that supports required input modalities: " +:+ str_join ", " required +:+
     ". Missing: " +:+ missingText +:+ ".") false false false None.

Fixpoint extractPartialText (buffered : list model_event) : string :=
  match buffered with
  | [] => ""
  | TextDelta text :: l => text +:+ extractPartialText l
  | _ :: l => extractPartialText l
  end.

(** ** Retry delays *)

Definition SERVER_RETRY_AFTER_CAP_MS : Z := 60000.

(** [Math.floor(Math.random() * (bound + 1))] is a number of the host. *)
Class Random := { random_upto : nat → Z → Z }.

Class RandomLaws (R : Random) : Prop := {
  random_range n bound : 0 <= bound → 0 <= random_upto n bound <= bound
}.

Definition exponentialBackoffDelay `{Random} (draw : nat) (attempt baseDelayMs maxDelayMs : Z)
  (retryAfterMs : option Z) : Z :=
  match retryAfterMs with
  | Some r => if 0 <? r then Z.min r SERVER_RETRY_AFTER_CAP_MS
              else random_upto draw (Z.min maxDelayMs (baseDelayMs * 2 ^ Z.max 0 attempt))
  | None => random_upto draw (Z.min maxDelayMs (baseDelayMs * 2 ^ Z.max 0 attempt))
  end.

Definition calculateLiteLLMRetryDelay `{Random} (draw : nat) (attempt baseDelayMs maxDelayMs : Z) : Z :=
  exponentialBackoffDelay draw attempt baseDelayMs maxDelayMs None.

(** ** Empty responses *)

Record zero_usage_state := ZeroUsageState {
  zs_observedAnyText : bool;
  zs_observedFinish : bool;
  zs_observedUsage : option usage;
  zs_observedError : bool;
}.

Definition createZeroUsageState : zero_usage_state := ZeroUsageState false false None false.

Definition str_nonempty (s : string) : bool := match s with EmptyString => false | _ => true end.

Definition observeEventForZeroUsage (s : zero_usage_state) (e : model_event) : zero_usage_state :=
  match e with
  | TextDelta t =>
    if str_nonempty t
    then ZeroUsageState true (zs_observedFinish s) (zs_observedUsage s) (zs_observedError s) else s
  | ToolCallDelta _ d =>
    if str_nonempty d
    then ZeroUsageState true (zs_observedFinish s) (zs_observedUsage s) (zs_observedError s) else s
  | ToolCallEnd _ _ => ZeroUsageState true (zs_observedFinish s) (zs_observedUsage s) (zs_observedError s)
  | MessageEnd _ => ZeroUsageState (zs_observedAnyText s) true (zs_observedUsage s) (zs_observedError s)
  | UsageEvent u => ZeroUsageState (zs_observedAnyText s) (zs_observedFinish s) (Some u) (zs_observedError s)
  | ErrorEvent _ => ZeroUsageState (zs_observedAnyText s) (zs_observedFinish s) (zs_observedUsage s) true
  | _ => s
  end.

Definition totalTokens (u : usage) : Z :=
  default 0 (us_totalTokens u) + default 0 (us_inputTokens u) + default 0 (us_outputTokens u)
  + default 0 (us_cacheReadTokens u) + default 0 (us_cacheWriteTokens u).

Definition shouldRetryZeroUsage (s : zero_usage_state) : bool :=
  if zs_observedError s then false
  else if negb (zs_observedFinish s) then false
  else if zs_observedAnyText s then false
  else match zs_observedUsage s with
       | None => true
       | Some u => totalTokens u =? 0
       end.

(** ** Scenarios and subagent tags *)

Definition OPEN_TAGS : list string := ["<rigorium-subagent-model>"; "<ccr-subagent-model>"].
Definition CLOSE_TAGS : list string := ["</rigorium-subagent-model>"; "</ccr-subagent-model>"].

(** The rest of [s] after the first of [tags] it starts with, whatever the case. *)
Definition after_tag (tags : list string) (s : string) : option string :=
  match List.find (λ t, starts_with t (to_lower s)) tags with
  | Some t => Some (str_slice (String.length t) (String.length s) s)
  | None => None
  end.

(** The shortest non-empty text up to a closing tag ([([\s\S]+?)<\/...>]),
    and what follows the tag. *)
Fixpoint lazy_body (s : string) : option (string * string) :=
  match s with
  | EmptyString => None
  | String c s =>
    match after_tag CLOSE_TAGS s with
    | Some rest => Some (String c EmptyString, rest)
    | None => '(body, rest) ← lazy_body s; Some (String c body, rest)
    end
  end.

(** [SUBAGENT_TAG_PATTERN.exec]: what precedes the leftmost match, its group,
    and what follows it. *)
Fixpoint subagent_tag (s : string) : option (string * string * string) :=
  match after_tag OPEN_TAGS s ≫= lazy_body with
  | Some (body, rest) => Some ("", body, rest)
  | None =>
    match s with
    | EmptyString => None
    | String c s => '(before, body, rest) ← subagent_tag s; Some (String c before, body, rest)
    end
  end.

Definition AGENT_TOOL_NAMES : list string :=
  ["agent"; "task"; "launchagent"; "launch_agent"; "launch-agent"; "spawnagent"; "spawn_agent";
   "spawn-agent"].

Record subagent_detection := SubagentDetection {
  sd_isSubagent : bool;
  sd_modelHint : option string;
  sd_missingAgentTool : bool;
  sd_taggedInUserMessage : bool;
}.

(** The user's text blocks, in order. *)
Definition user_texts (messages : list message) : list string :=
  concat (map (λ m, if bool_decide (m_role m = User)
                    then omap (λ b, match b with TextBlock t => Some t | _ => None end) (m_content m)
                    else []) messages).

Definition detectSubagent (messages : list message) (tools : option (list string)) (isMainAgent : bool)
  : subagent_detection :=
  let '(modelHint, tagged) :=
    foldl (λ st text, match subagent_tag text with
                      | Some (_, body, _) => (Some (js_trim body), true)
                      | None => st
                      end) (None, false) (user_texts messages) in
  let missingAgentTool :=
    match tools with
    | None => false
    | Some l => negb (existsb (λ name, bool_decide (to_lower name ∈ AGENT_TOOL_NAMES)) l)
    end in
  SubagentDetection (negb isMainAgent || tagged || missingAgentTool) modelHint missingAgentTool tagged.

Definition strip_tag (text : string) : string :=
  trim_end (match subagent_tag text with
            | Some (before, _, rest) => before +:+ rest
            | None => text
            end).

Definition stripSubagentTagFromMessages (messages : list message) : list message :=
  map (λ m, if bool_decide (m_role m = User)
            then Message (m_role m)
                   (map (λ b, match b with TextBlock t => TextBlock (strip_tag t) | _ => b end) (m_content m))
            else m) messages.

Record scenario_resolution := ScenarioResolution {
  sr_scenarioType : scenario_type;
  sr_selection : option model_ref;
  sr_isSubagent : bool;
  sr_subagentModelHint : option string;
}.

Definition decideScenario (request : model_request) (isMainAgent : bool)
  (explicitProvider explicitModel : option string) (default_model : option model_ref)
  : scenario_resolution :=
  match truthy explicitProvider, truthy explicitModel with
  | Some provider, Some model =>
    ScenarioResolution ScExplicit (Some (ref_of provider model)) (negb isMainAgent) None
  | _, _ =>
    let subagent := detectSubagent (rq_messages request) (rq_tools request) isMainAgent in
    match truthy (sd_modelHint subagent) with
    | Some hint => ScenarioResolution ScSubagent None true (Some hint)
    | None =>
      ScenarioResolution ScDefault default_model (sd_isSubagent subagent) (sd_modelHint subagent)
    end
  end.

(** ** Capability requirements *)

Inductive tool_category := CatSearch | CatContent | CatOrchestration | CatAnalysis | CatFiles | CatOther.

#[export] Instance tool_category_eq_dec : EqDecision tool_category.
Proof. solve_decision. Defined.

Definition categorizeTool (name : string) : tool_category :=
  if bool_decide (name ∈ ["web_search"; "web_fetch"; "literature_search"; "literature_expand";
                          "deepseek_native_search"; "research_artifacts"]) then CatSearch
  else if bool_decide (name = "agent") then CatOrchestration
  else if bool_decide (name ∈ ["experiment_analysis"; "experimentControl"; "execute_code";
                               "research_review"]) then CatAnalysis
  else if existsb (λ p, starts_with p name) ["manuscript"; "figure"; "render"] then CatContent
  else if bool_decide (name ∈ ["read_file"; "write_file"; "edit_file"; "grep"; "glob"; "bash"])
  then CatFiles
  else CatOther.

Record research_hint := ResearchHint { rh_artifactKinds : list string; rh_actionType : option string }.

Record capability_requirements := CapabilityRequirements {
  cr_modalities : list modality;
  cr_toolCategories : list tool_category;
  cr_research : research_hint;
  cr_requiresOrchestration : bool;
  cr_complexitySignal : bool;
}.

Definition COMPLEXITY_TOOL_COUNT : nat := 4.
Definition COMPLEXITY_MESSAGE_CHARS : Z := 12000.

(** The characters of a message's text blocks; the loop stops once the total
    is above the limit. *)
Fixpoint count_chars (total : Z) (content : list content_block) : Z :=
  match content with
  | [] => total
  | TextBlock t :: l =>
    let total := total + Z.of_nat (String.length t) in
    if COMPLEXITY_MESSAGE_CHARS <? total then total else count_chars total l
  | _ :: l => count_chars total l
  end.

Definition computeCapabilityRequirements (request : model_request) (research : research_hint)
  : capability_requirements :=
  let tools := default [] (rq_tools request) in
  let toolCategories :=
    foldl (λ s name, if bool_decide (categorizeTool name ∈ s) then s else s ++ [categorizeTool name])
      [] tools in
  let complexitySignal :=
    (COMPLEXITY_TOOL_COUNT <=? length toolCategories)%nat
    || (COMPLEXITY_MESSAGE_CHARS <? foldl (λ total m, count_chars total (m_content m)) 0 (rq_messages request)) in
  CapabilityRequirements (collectRequiredInputModalities (rq_messages request)) toolCategories research
    (existsb (λ name, bool_decide (name = "agent")) tools) complexitySignal.

Definition is_action (r : capability_requirements) (l : list string) : bool :=
  match rh_actionType (cr_research r) with Some a => bool_decide (a ∈ l) | None => false end.

Definition has_category (r : capability_requirements) (c : tool_category) : bool :=
  bool_decide (c ∈ cr_toolCategories r).

Definition tierPriorForRequirements (r : capability_requirements) : list string :=
  dedup (
    (if cr_requiresOrchestration r || is_action r ["principle_revision"] then ["complex"] else []) ++
    (if has_category r CatSearch || has_category r CatAnalysis
        || is_action r ["run_experiment"; "review"; "literature_search"] then ["reasoning"] else []) ++
    (if cr_complexitySignal r then ["reasoning"] else []) ++
    (if is_action r ["write_section"] || has_category r CatContent then ["reasoning"] else [])).

(** [knownTiers.indexOf(tier)]. *)
Fixpoint index_of (tier : string) (l : list string) : Z :=
  match l with
  | [] => -1
  | t :: l =>
    if bool_decide (t = tier) then 0
    else let i := index_of tier l in if i <? 0 then -1 else i + 1
  end.

Definition applyTierPrior (classifiedTier : string) (priors knownTiers : list string) : string * bool :=
  match priors with
  | [] => (classifiedTier, false)
  | _ =>
    if bool_decide (classifiedTier ∈ priors) then (classifiedTier, false)
    else
      let rank tier := index_of tier knownTiers in
      let classifiedRank := rank classifiedTier in
      let '(target, _) :=
        foldl (λ st tier, let tierRank := rank tier in
                 if (classifiedRank <? tierRank) && (st.2 <? tierRank) then (Some tier, tierRank) else st)
          (None, -1) priors in
      match truthy target with
      | None => (classifiedTier, false)
      | Some tier => (tier, true)
      end
  end.

(** ** Orchestration runs *)

Definition DEFAULT_MAX_ORCHESTRATION_TURNS : Z := 8.

Record orchestration_result := OrchestrationResult {
  or_activated : option (string * bool);
  or_applied : bool;
  or_exited : bool;
}.

Definition applyOrchestration (config : auto_orchestrate_config) (isMainAgent : bool)
  (tier : option string) (alreadyOrchestrating : bool) (continuationCount : Z) : orchestration_result :=
  if negb (ao_enabled config) || negb isMainAgent then OrchestrationResult None false false
  else
    let triggerTiers := ao_triggerTiers config in
    let tierListed := match truthy tier with
                      | Some t => bool_decide (t ∈ triggerTiers)
                      | None => false
                      end in
    let tierTriggers := bool_decide (triggerTiers = []) || tierListed in
    if alreadyOrchestrating then
      let maxContinuationTurns := default DEFAULT_MAX_ORCHESTRATION_TURNS (ao_maxContinuationTurns config) in
      if (maxContinuationTurns <=? continuationCount) || negb tierTriggers
      then OrchestrationResult None false true
      else OrchestrationResult (Some (default "main" tier, true)) true false
    else if bool_decide (triggerTiers ≠ []) && negb tierListed then OrchestrationResult None false false
    else OrchestrationResult (Some (default "main" tier, false)) true false.

(** ** Model prices *)

(** [second] after any characters but line ends. *)
Fixpoint later_on_line (second s : string) : bool :=
  starts_with second s ||
  match s with
  | EmptyString => false
  | String c s => if bool_decide (c ∈ [ascii_of_N 10; ascii_of_N 13]) then false else later_on_line second s
  end.

(** The case-insensitive search of [first.*second] in a lower-case text. *)
Fixpoint find_pair (first second s : string) : bool :=
  (starts_with first s && later_on_line second (str_slice (String.length first) (String.length s) s)) ||
  match s with
  | EmptyString => false
  | String _ s => find_pair first second s
  end.

(** An alternative of a price pattern: [first.*second], or a literal. *)
Definition pattern_test (alternatives : list (string * string)) (text : string) : bool :=
  existsb (λ p, find_pair p.1 p.2 (to_lower text)) alternatives.

Definition price (i o : Q) (c : option Q) : model_pricing := ModelPricing (Some i) (Some o) c.

Definition DEFAULT_PRICING : list (list (string * string) * model_pricing) := [
  ([("deepseek", "flash")], price 0.20 0.60 None);
  ([("deepseek", "chat")], price 0.50 1.50 None);
  ([("deepseek", "reasoner")], price 0.80 2.00 None);
  ([("deepseek", "v3")], price 0.27 1.10 None);
  ([("claude", "opus")], price 15.00 75.00 (Some 1.50%Q));
  ([("claude", "sonnet")], price 3.00 15.00 (Some 0.30%Q));
  ([("claude", "haiku")], price 0.80 4.00 (Some 0.08%Q));
  ([("gpt-4o-mini", "")], price 0.15 0.60 (Some 0.075%Q));
  ([("gpt-4o", "")], price 2.50 10.00 (Some 1.25%Q));
  ([("gpt-4.1", "")], price 2.00 8.00 (Some 0.50%Q));
  ([("gpt-5", "")], price 2.00 8.00 (Some 0.50%Q));
  ([("o1-mini", ""); ("o3-mini", ""); ("o4-mini", "")], price 1.10 4.40 None);
  ([("o1-pro", ""); ("o3-pro", ""); ("o4-pro", "")], price 10.00 40.00 None);
  ([("o1", ""); ("o3", ""); ("o4", "")], price 2.50 10.00 None);
  ([("gemini", "flash")], price 0.10 0.40 None);
  ([("gemini", "pro")], price 1.25 5.00 None);
  ([("glm", "")], price 0.50 1.00 None);
  ([("qwen", "turbo")], price 0.30 0.60 None);
  ([("qwen", "plus")], price 0.80 2.00 None);
  ([("qwen", "max")], price 2.00 6.00 None);
  ([("qwen", "")], price 0.50 1.50 None);
  ([("llama", "70b")], price 0.80 0.80 None);
  ([("llama", "405b")], price 3.00 3.00 None);
  ([("llama", "")], price 0.20 0.20 None);
  ([("mistral", "large")], price 2.00 6.00 None);
  ([("mistral", "small")], price 0.10 0.30 None);
  ([("mistral", "")], price 0.25 0.25 None);
  ([("yi-", "")], price 0.30 0.30 None);
  ([("moonshot", ""); ("kimi", "")], price 1.00 2.00 None);
  ([("doubao", "")], price 0.40 0.80 None)]%Q.

Definition FALLBACK_PRICING : model_pricing := price 0.50 1.50 None.

Definition lookupModelPricing (provider model : string) (modelPricing : option (jmap model_pricing))
  : model_pricing :=
  let combined := provider +:+ "/" +:+ model in
  let built_in :=
    match List.find (λ entry, pattern_test entry.1 combined || pattern_test entry.1 model) DEFAULT_PRICING with
    | Some entry => entry.2
    | None => FALLBACK_PRICING
    end in
  match modelPricing with
  | None => built_in
  | Some prices =>
    match jm_get combined prices with
    | Some exact => exact
    | None =>
      match List.find (λ kv, str_includes kv.1 model || str_includes model kv.1) prices with
      | Some kv => kv.2
      | None => built_in
      end
    end
  end.

Definition calculateInputCost (tokens : Z) (provider model : string)
  (modelPricing : option (jmap model_pricing)) : Q :=
  let pricing := lookupModelPricing provider model modelPricing in
  (inject_Z tokens / 1000000 * default 0 (pr_input pricing))%Q.

Definition calculateCacheReadCost (tokens : Z) (provider model : string)
  (modelPricing : option (jmap model_pricing)) : Q :=
  let pricing := lookupModelPricing provider model modelPricing in
  let rate := match pr_cacheRead pricing with Some r => r | None => default 0%Q (pr_input pricing) end in
  (inject_Z tokens / 1000000 * rate)%Q.

(** ** The cache-aware switch *)

(** [Number.EPSILON]. *)
Definition EPSILON : Q := (1 # 4503599627370496)%Q.

Definition cache_hit_ratio (lastUsage : option usage) : Q :=
  let observedInputTokens := default 0 (lastUsage ≫= us_inputTokens) in
  let observedCacheReadTokens := default 0 (lastUsage ≫= us_cacheReadTokens) in
  if 0 <? observedInputTokens
  then Qmin 1 (Qmax 0 (inject_Z observedCacheReadTokens / inject_Z observedInputTokens))
  else 0%Q.

(** What the current model would cost: cached tokens at the cache price, the
    others at the input price. *)
Definition staying_cost (current : model_ref) (tokens : Z) (ratio : Q)
  (pricing : option (jmap model_pricing)) : Q :=
  let estimatedCacheReadTokens := Qfloor (inject_Z tokens * ratio) in
  let estimatedUncachedTokens := Z.max 0 (tokens - estimatedCacheReadTokens) in
  (calculateCacheReadCost estimatedCacheReadTokens (ref_provider current) (ref_model current) pricing
   + calculateInputCost estimatedUncachedTokens (ref_provider current) (ref_model current) pricing)%Q.

Definition Qltb (x y : Q) : bool := negb (Qle_bool y x).

Definition maybePreserveStickyForCache `{Tokenizer} (current : option model_ref) (next : model_ref)
  (messages : list message) (lastUsage : option usage) (cacheAware : option cache_aware_config)
  (modelPricing : option (jmap model_pricing)) : model_ref * option cache_switch :=
  match current with
  | None => (next, None)
  | Some current =>
    if match cacheAware with Some c => negb (ca_enabled c) | None => false end then (next, None)
    else if same_model current next then (next, None)
    else
      let ratio := cache_hit_ratio lastUsage in
      if Qle_bool ratio 0 then (next, None)
      else
        let estimatedInputTokens := countMessagesTokens messages in
        let cachedCost := staying_cost current estimatedInputTokens ratio modelPricing in
        let prefillCost :=
          calculateInputCost estimatedInputTokens (ref_provider next) (ref_model next) modelPricing in
        let minSavingsRatio := match cacheAware with Some c => ca_minSavingsRatio c | None => 0%Q end in
        let requiredSavings := (cachedCost * minSavingsRatio)%Q in
        let shouldSwitch := Qltb (prefillCost + EPSILON) (cachedCost - requiredSavings) in
        let from := ref_provider current +:+ "/" +:+ ref_model current in
        let to := ref_provider next +:+ "/" +:+ ref_model next in
        if shouldSwitch
        then (next, Some (CacheSwitch Switched from to cachedCost prefillCost estimatedInputTokens))
        else (current, Some (CacheSwitch KeptSticky from to cachedCost prefillCost estimatedInputTokens))
  end.

(** ** Properties *)

Lemma index_of_range tier l : -1 <= index_of tier l < Z.of_nat (length l).
Proof.
  induction l as [|t l IH]; cbn [index_of length]; [lia|]. case_bool_decide; [lia|].
  destruct (Z.ltb_spec (index_of tier l) 0); lia.
Qed.

Lemma prior_found (rank : string → Z) c priors : ∀ st : option string * Z,
  st.1 ≠ None →
  (foldl (λ st tier, if (c <? rank tier) && (st.2 <? rank tier) then (Some tier, rank tier) else st) st priors).1
  ≠ None.
Proof.
  induction priors as [|p priors IH]; intros st Hst; [done|]. cbn [foldl]. apply IH. by destruct (_ && _).
Qed.

(** The search for the strongest prior. *)
Lemma applyTierPrior_fold (rank : string → Z) c priors : ∀ st : option string * Z,
  (∀ t, st.1 = Some t → rank t = st.2 ∧ c < st.2) →
  let r := foldl (λ st tier, if (c <? rank tier) && (st.2 <? rank tier) then (Some tier, rank tier) else st) st priors in
  (∀ t, r.1 = Some t → rank t = r.2 ∧ c < r.2 ∧ (st.1 = Some t ∨ t ∈ priors)) ∧
  st.2 <= r.2 ∧ (∀ t, t ∈ priors → c < rank t → rank t <= r.2) ∧ (r.1 = None → r.2 = st.2).
Proof.
  induction priors as [|p priors IH]; intros st Hst; cbn [foldl].
  - split; [intros t Ht; destruct (Hst t Ht); tauto|]. split; [lia|]. split; [by intros t ?%elem_of_nil|done].
  - set (st' := if _ && _ then _ else st).
    assert (st' = (Some p, rank p) ∧ c < rank p ∧ st.2 < rank p ∨ st' = st ∧ (c < rank p → rank p <= st.2)) as Hst'.
    { unfold st'. destruct (Z.ltb_spec c (rank p)), (Z.ltb_spec st.2 (rank p)); cbn [andb]; [by left|right; split; [done|lia]..]. }
    clearbody st'. destruct Hst' as [(-> & Hc & Hr)|(-> & Hp)].
    + destruct (IH (Some p, rank p)) as (H1 & H2 & H3 & H4); [by intros t [= <-]|]. cbn [fst snd] in *.
      split; [|split; [lia|split]].
      * intros t Ht. destruct (H1 t Ht) as (Ha & Hb & [[= <-]|Hx]); (split; [done|]); (split; [done|]);
          right; [by left|by right].
      * intros t [->|Ht]%elem_of_cons Hlt; [lia|by apply H3].
      * intros Hn. by destruct (prior_found rank c priors (Some p, rank p)).
    + destruct (IH st Hst) as (H1 & H2 & H3 & H4). split; [|split; [lia|split; [|done]]].
      * intros t Ht. destruct (H1 t Ht) as (Ha & Hb & [Hx|Hx]); (split; [done|]); (split; [done|]);
          [by left|right; by right].
      * intros t [->|Ht]%elem_of_cons Hlt; [specialize (Hp Hlt); lia|by apply H3].
Qed.

Lemma priors_named r : Forall (λ t, t ≠ "") (tierPriorForRequirements r).
Proof.
  assert (∀ (b : bool) (x t : string), t ∈ (if b then [x] else []) → t = x) as Hif
    by (intros [] x t Ht; [by apply list_elem_of_singleton | by apply elem_of_nil in Ht]).
  unfold tierPriorForRequirements. apply Forall_forall. intros t Ht. apply (proj1 (elem_of_dedup _ _)) in Ht.
  repeat (apply elem_of_app in Ht as [Ht|Ht]); apply Hif in Ht; by subst.
Qed.

(** P: The tier is only ever raised: an upgraded request gets one of the
    tiers its requirements support, one that is configured and stronger than
    the classified one, and no supported tier is stronger still; a tier that
    is kept is supported itself, or no supported tier is stronger. *)
Theorem tier_prior_upgrades classified r known :
  let priors := tierPriorForRequirements r in
  let '(tier, upgraded) := applyTierPrior classified priors known in
  let rank t := index_of t known in
  if (upgraded : bool)
  then classified ∉ priors ∧ tier ∈ priors ∧ rank classified < rank tier ∧
       ∀ t, t ∈ priors → rank t <= rank tier
  else tier = classified ∧ (classified ∈ priors ∨ ∀ t, t ∈ priors → rank t <= rank classified).
Proof.
  pose proof (priors_named r) as Hne. cbn zeta. generalize dependent (tierPriorForRequirements r). clear r.
  intros priors Hne. unfold applyTierPrior. destruct priors as [|p0 priors'] eqn:Hp.
  { split; [done|]. right. by intros t ?%elem_of_nil. }
  rewrite <- Hp in *. clear p0 priors' Hp. case_bool_decide as Hin; [by split; [|left]|].
  pose proof (applyTierPrior_fold (λ t, index_of t known) (index_of classified known) priors (None, -1)) as Hf.
  cbn [fst snd] in Hf. destruct (foldl _ _ _) as [target best]. cbn zeta in Hf. cbn [fst snd] in Hf.
  destruct Hf as (H1 & _ & H3 & H4); [done|].
  destruct target as [t|].
  - destruct (H1 t eq_refl) as (Hr & Hlt & [|Ht]); [done|].
    rewrite Forall_forall in Hne. specialize (Hne t Ht). destruct t as [|ch t]; [done|]. cbn [truthy].
    split; [done|]. split; [done|]. split; [lia|]. intros t' Ht'.
    destruct (Z.ltb_spec (index_of classified known) (index_of t' known)); [|lia]. specialize (H3 t' Ht' ltac:(done)). lia.
  - cbn [truthy]. split; [done|]. right. intros t Ht.
    destruct (Z.ltb_spec (index_of classified known) (index_of t known)) as [Hlt|]; [|lia].
    specialize (H3 t Ht Hlt). rewrite (H4 eq_refl) in H3. pose proof (index_of_range classified known). lia.
Qed.


(** P: A task classified as complex whose tools include a search, but not the
    agent tool, is moved to the reasoning tier. *)
Example complex_search_upgraded :
  applyTierPrior "complex"
    (tierPriorForRequirements (CapabilityRequirements [] [CatSearch] (ResearchHint [] None) false false))
    ["simple"; "medium"; "complex"; "reasoning"] = ("reasoning", true).
Proof. reflexivity. Qed.

(** P: A connection that is reset while the model streams gets a code that
    does not count against the pinned model. *)
Example connection_reset_not_counted :
  let code := er_code (error_of_thrown [] "acme" (ThrownError "Error" "read ECONNRESET")) in
  code = "network_error" ∧ isProviderFaultCode code = false.
Proof. split; reflexivity. Qed.

Lemma cache_hit_ratio_range u : (0 <= cache_hit_ratio u <= 1)%Q.
Proof.
  unfold cache_hit_ratio. destruct (0 <? _); [|split; discriminate]. split.
  - apply Q.min_glb; [discriminate | apply Q.le_max_l].
  - apply Q.le_min_l.
Qed.

Lemma cached_tokens_range tokens ratio :
  0 <= tokens → (0 <= ratio <= 1)%Q → 0 <= Qfloor (inject_Z tokens * ratio) <= tokens.
Proof.
  intros Ht [H0 H1]. assert (0 <= inject_Z tokens)%Q as Hq by (change 0%Q with (inject_Z 0); by rewrite <- Zle_Qle).
  split.
  - change 0 with (Qfloor 0). apply Qfloor_resp_le. by apply Qmult_le_0_compat.
  - rewrite <- (Qfloor_Z tokens) at 2. apply Qfloor_resp_le. nra.
Qed.

Lemma millionths_nonneg z : 0 <= z → (0 <= inject_Z z / 1000000)%Q.
Proof.
  intros Hz. apply Qle_shift_div_l; [reflexivity|]. rewrite Qmult_0_l. change 0%Q with (inject_Z 0).
  by rewrite <- Zle_Qle.
Qed.

(** The input price of a model, and the price of the tokens it has cached. *)
Definition input_price (prices : option (jmap model_pricing)) (m : model_ref) : Q :=
  default 0%Q (pr_input (lookupModelPricing (ref_provider m) (ref_model m) prices)).

Definition cached_price (prices : option (jmap model_pricing)) (m : model_ref) : Q :=
  match pr_cacheRead (lookupModelPricing (ref_provider m) (ref_model m) prices) with
  | Some r => r
  | None => input_price prices m
  end.

Lemma staying_cost_bound current tokens ratio prices :
  0 <= tokens → (0 <= ratio <= 1)%Q → (cached_price prices current <= input_price prices current)%Q →
  (staying_cost current tokens ratio prices <= inject_Z tokens / 1000000 * input_price prices current)%Q.
Proof.
  intros Ht Hr Hp. pose proof (cached_tokens_range tokens ratio Ht Hr) as [Hc1 Hc2].
  unfold staying_cost, calculateCacheReadCost, calculateInputCost. cbn zeta.
  fold (input_price prices current). fold (cached_price prices current).
  set (c := Qfloor (inject_Z tokens * ratio)) in *.
  rewrite Z.max_r by lia. unfold Zminus. rewrite inject_Z_plus, inject_Z_opp.
  set (q := inject_Z c) in *. set (t := inject_Z tokens). set (pc := cached_price prices current) in *.
  set (pi := input_price prices current) in *.
  assert (q / 1000000 * pc + (t + - q) / 1000000 * pi == t / 1000000 * pi + q / 1000000 * (pc - pi))%Q as ->
    by field.
  pose proof (millionths_nonneg _ Hc1). fold q in H. nra.
Qed.

(** P: The conversation is never moved to a model at the same or a higher
    input price while its current model has tokens cached: a switch is made
    only for a model that is cheaper to prefill. *)
Theorem no_switch_to_dearer `{Tokenizer, !TokenizerLaws _} current next messages lastUsage cacheAware prices :
  (cached_price prices current <= input_price prices current <= input_price prices next)%Q →
  match cacheAware with Some c => 0 <= ca_minSavingsRatio c | None => True end%Q →
  (0 <= cached_price prices current)%Q →
  match maybePreserveStickyForCache (Some current) next messages lastUsage cacheAware prices with
  | (chosen, Some x) => chosen = current ∧ cs_action x = KeptSticky
  | (chosen, None) => chosen = next ∧
      (same_model current next = true ∨ (cache_hit_ratio lastUsage == 0)%Q ∨
       ∃ c, cacheAware = Some c ∧ ca_enabled c = false)
  end.
Proof.
  intros [Hcp Hip] Hmin Hpos. unfold maybePreserveStickyForCache.
  destruct (match cacheAware with Some c => negb (ca_enabled c) | None => false end) eqn:Hen.
  { split; [done|]. right. right. destruct cacheAware as [c|]; [|done]. exists c. by apply negb_true_iff in Hen. }
  destruct (same_model current next); [by split; [|left]|].
  pose proof (cache_hit_ratio_range lastUsage) as Hr. destruct (Qle_bool _ 0) eqn:Hz.
  { apply Qle_bool_iff in Hz. split; [done|]. right. left. lra. }
  set (tokens := countMessagesTokens messages).
  assert (0 <= tokens) as Ht by apply countTokens_nonneg.
  pose proof (staying_cost_bound current tokens _ prices Ht Hr Hcp) as Hcost.
  set (cost := staying_cost _ _ _ _) in *.
  assert (0 <= cost)%Q as Hcost0.
  { unfold cost, staying_cost, calculateCacheReadCost, calculateInputCost. cbn zeta.
    fold (input_price prices current). fold (cached_price prices current).
    pose proof (cached_tokens_range tokens _ Ht Hr) as [Hc _].
    assert (∀ z r, 0 <= z → (0 <= r)%Q → (0 <= inject_Z z / 1000000 * r)%Q) as Hnn.
    { intros z r Hzn Hrn. by apply Qmult_le_0_compat; [apply millionths_nonneg|]. }
    pose proof (Hnn _ _ Hc Hpos). pose proof (Hnn (Z.max 0 (tokens - Qfloor (inject_Z tokens * cache_hit_ratio lastUsage)))
      (input_price prices current) ltac:(lia) ltac:(lra)). lra. }
  assert (Qltb (calculateInputCost tokens (ref_provider next) (ref_model next) prices + EPSILON)
    (cost - cost * match cacheAware with Some c => ca_minSavingsRatio c | None => 0%Q end) = false) as ->.
  { unfold Qltb. apply negb_false_iff, Qle_bool_iff. unfold calculateInputCost. cbn zeta.
    fold (input_price prices next).
    assert (inject_Z tokens / 1000000 * input_price prices current <= inject_Z tokens / 1000000 * input_price prices next)%Q.
    { rewrite !(Qmult_comm (inject_Z tokens / 1000000)). apply Qmult_le_compat_r; [done|].
      by apply millionths_nonneg. }
    assert (0 <= cost * match cacheAware with Some c => ca_minSavingsRatio c | None => 0%Q end)%Q
      by (apply Qmult_le_0_compat; [done|]; by destruct cacheAware).
    assert (0 <= EPSILON)%Q by discriminate. lra. }
  by split.
Qed.

Module Prices.

#[local] Instance by_length : Tokenizer := {| countTokens text := Z.of_nat (String.length text) |}.

#[local] Instance by_length_laws : TokenizerLaws by_length.
Proof. split. intros text. cbn. lia. Qed.

Definition long_talk : list message := [Message User [TextBlock "Compare the two proofs of the theorem."]].

Definition half_cached : usage := Usage (Some 1000) (Some 50) (Some 500) None None.

(** From a cheap model to a dear one, with half of the input cached. *)
Lemma no_switch_to_dearer_witness :
  (maybePreserveStickyForCache (Some (ref_of "deepseek" "chat")) (ref_of "claude" "opus") long_talk
     (Some half_cached) (Some (CacheAwareConfig true (1 # 10))) None).1 = ref_of "deepseek" "chat".
Proof.
  pose proof (no_switch_to_dearer (ref_of "deepseek" "chat") (ref_of "claude" "opus") long_talk
    (Some half_cached) (Some (CacheAwareConfig true (1 # 10))) None) as Hkeep.
  destruct (maybePreserveStickyForCache _ _ _ _ _ _) as [chosen x].
  specialize (Hkeep ltac:(split; vm_compute; discriminate) ltac:(vm_compute; discriminate)
    ltac:(vm_compute; discriminate)).
  destruct x as [x|]; [exact (proj1 Hkeep)|].
  destruct Hkeep as [_ [Hs|[Hr|(c & Hc & He)]]]; exfalso.
  - revert Hs. vm_compute. discriminate.
  - revert Hr. vm_compute. discriminate.
  - injection Hc as <-. discriminate He.
Defined.
End Prices.
