(* ===== verification/RouterRanker.v ===== *)
(** * Tier classification

    The judge (src/src/router/tokenSaver/classifyAndRoute.ts, parseTier.ts),
    the zero-cost heuristic (heuristicTier.ts), the amortized ranker
    (src/src/router/learning/AmortizedRanker.ts) and the classifier that asks
    the judge only when the ranker is unsure (uncertaintyGatedClassifier.ts).
    Scores and costs are exact fractions.  What the judge model answers and
    what [Math.random] returns are arguments.  The continuation words outside
    Latin-1 have no representation. *)

From Stdlib Require Import QArith Lqa.
From S2P Require Import Prelude JsValue Text RouterTypes RouterMedia RouterPolicy.
Open Scope Z_scope.

(** ** The amortized ranker *)

Record tier_counts := TierCounts {
  tc_success : Z;
  tc_failure : Z;
  tc_costSum : Q;
  tc_costObservations : Z;
}.

(** [buckets]: capability signature, then tier. *)
Abbreviation ranker := (jmap (jmap tier_counts)).

Definition no_counts : tier_counts := TierCounts 0 0 0 0.

Inductive tier_outcome := Success | Failure.

#[export] Instance tier_outcome_eq_dec : EqDecision tier_outcome.
Proof. solve_decision. Defined.

Definition count_outcome (outcome : tier_outcome) (costUnits : option Q) (c : tier_counts) : tier_counts :=
  let c := match outcome with
           | Success => TierCounts (tc_success c + 1) (tc_failure c) (tc_costSum c) (tc_costObservations c)
           | Failure => TierCounts (tc_success c) (tc_failure c + 1) (tc_costSum c) (tc_costObservations c)
           end in
  match costUnits with
  | Some u =>
    if Qltb 0 u
    then TierCounts (tc_success c) (tc_failure c) (tc_costSum c + u) (tc_costObservations c + 1)
    else c
  | None => c
  end.

Definition observe (bucket tier : string) (outcome : tier_outcome) (costUnits : option Q) (r : ranker)
  : ranker :=
  let record := default [] (jm_get bucket r) in
  let stat := default no_counts (jm_get tier record) in
  jm_set bucket (jm_set tier (count_outcome outcome costUnits stat) record) r.

Record tier_stat := TierStat {
  ti_tier : string;
  ti_observations : Z;
  ti_success : Z;
  ti_failure : Z;
  ti_score : Q;
  ti_avgCostUnits : Q;
}.

Definition stat_of (smoothing : Q) (entry : string * tier_counts) : tier_stat :=
  let c := entry.2 in
  let observations := tc_success c + tc_failure c in
  TierStat entry.1 observations (tc_success c) (tc_failure c)
    ((inject_Z (tc_success c) + smoothing) / (inject_Z observations + 2 * smoothing))%Q
    (if 0 <? tc_costObservations c then (tc_costSum c / inject_Z (tc_costObservations c))%Q else 0%Q).

(** [(left, right) => right.score - left.score]. *)
Definition compareStats (left right : tier_stat) : comparison :=
  Qcompare (ti_score right) (ti_score left).

Record tier_scores := TierScores {
  ts_entries : list tier_stat;
  ts_topTier : option string;
  ts_topMargin : Q;
  ts_totalObservations : Z;
}.

Definition score (smoothing : Q) (bucket : string) (r : ranker) : tier_scores :=
  match jm_get bucket r with
  | None => TierScores [] None 0 0
  | Some record =>
    let entries := js_sort compareStats (map (stat_of smoothing) record) in
    let topMargin := match entries with
                     | top :: second :: _ => (ti_score top - ti_score second)%Q
                     | [top] => ti_score top
                     | [] => 0%Q
                     end in
    TierScores entries (ti_tier <$> head entries) topMargin
      (foldl (λ n e, n + (tc_success e.2 + tc_failure e.2)) 0 record)
  end.

Definition category_name (c : tool_category) : string :=
  match c with
  | CatSearch => "search"
  | CatContent => "content_generation"
  | CatOrchestration => "orchestration"
  | CatAnalysis => "analysis"
  | CatFiles => "filesystem"
  | CatOther => "other"
  end.

Definition modality_name (m : modality) : string :=
  match m with MText => "text" | MImage => "image" | MPdf => "pdf" | MAudio => "audio" end.

(** The first sixteen hexadecimal digits of a SHA-1 digest, from the host. *)
Class Sha1 := { sha1_prefix : string → string }.

Definition sorted_names (l : list string) : string := str_join "," (js_sort String.compare l).

Definition bucketKey `{Sha1} (salt : string) (r : capability_requirements) : string :=
  let feature := str_join "|"
    [sorted_names (map category_name (cr_toolCategories r));
     sorted_names (map modality_name (cr_modalities r));
     if cr_requiresOrchestration r then "orch" else "";
     default "" (rh_actionType (cr_research r));
     sorted_names (rh_artifactKinds (cr_research r))] in
  "b:" +:+ sha1_prefix (salt +:+ "|" +:+ feature).

(** ** Reading the user's message *)

Definition message_text (m : message) : string :=
  js_trim (str_join newline (omap (λ b, match b with TextBlock t => Some t | _ => None end) (m_content m))).

Definition extractLastUserMessage (messages : list message) : option string :=
  head (omap (λ m, if bool_decide (m_role m = User) then truthy (Some (message_text m)) else None)
          (rev messages)).

Definition SHORT_CONTINUATION_MAX_CHARS : nat := 30.

Definition CONTINUATION_WORDS : list string :=
  ["go"; "ok"; "yes"; "y"; "sure"; "do it"; "proceed"; "continue"; "next"; "done"; "start"; "run"].

Definition isShortContinuation (msg : string) : bool :=
  let trimmed := js_trim msg in
  if (SHORT_CONTINUATION_MAX_CHARS <? String.length trimmed)%nat then false
  else bool_decide (to_lower trimmed ∈ CONTINUATION_WORDS).

Definition is_word_char (c : ascii) : bool := is_alnum c || bool_decide (c = "_"%char).

Definition first_is_word (s : string) : bool :=
  match s with EmptyString => false | String c _ => is_word_char c end.

Fixpoint last_is_word (s : string) : bool :=
  match s with
  | EmptyString => false
  | String c EmptyString => is_word_char c
  | String _ s => last_is_word s
  end.

(** A word boundary between a character that is or is not a word character
    and the text after it. *)
Definition boundary (before : bool) (s : string) : bool := negb (Bool.eqb before (first_is_word s)).

(** The search of [\b word \b] in [s]; [before] tells whether the character
    before [s] is a word character. *)
Fixpoint search_word (word : string) (before : bool) (s : string) : bool :=
  (starts_with word s && boundary before s
   && boundary (match word with EmptyString => before | _ => last_is_word word end)
        (str_slice (String.length word) (String.length s) s))
  || match s with
     | EmptyString => false
     | String c s => search_word word (is_word_char c) s
     end.

Definition has_word (text word : string) : bool := search_word (to_lower word) false (to_lower text).

Definition SIMPLE_INDICATORS : list (list string) := map (λ w, [w])
  ["what is"; "what's"; "define"; "explain briefly"; "hello"; "hi"; "hey"; "thanks"; "thank you";
   "good morning"; "good evening"; "goodbye"; "bye"; "who are you"].

Definition CODE_MARKERS : list (list string) :=
  map (λ w, [w]) ["function"; "class"; "def"; "import"; "async"; "error"; "debug"; "api"; "sql";
    "refactor"; "python"; "docker"; "kubernetes"; "git"; "test"; "implement"; "fix"; "write code"] ++
  [["code"; "coding"; "codebase"]] ++
  map (λ w, [w]) ["bug"; "compile"; "runtime"; "callback"; "regex"].

Definition REASONING_MARKERS : list (list string) := map (λ w, [w])
  ["step by step"; "think through"; "chain of thought"; "pros and cons"; "evaluate"; "derive"; "prove";
   "compare"; "analyze"; "design"; "optimize"; "algorithm"; "mathematical"; "proof"; "hypothesis";
   "experiment"; "literature"; "manuscript"; "review"].

Definition TECHNICAL_MARKERS : list (list string) := map (λ w, [w])
  ["architecture"; "distributed"; "encryption"; "gpu"; "tcp"; "protocol"; "schema"; "concurrency";
   "latency"; "throughput"; "gradient"; "neural"; "baseline"; "metric"; "statistical"].

Definition countHits (patterns : list (list string)) (text : string) : nat :=
  length (List.filter (λ alternatives, existsb (has_word text) alternatives) patterns).

Definition SIMPLE_MAX_CHARS : nat := 60.

Definition hasComplexMarkers (userMessage : string) : bool :=
  let trimmed := js_trim userMessage in
  (0 <? countHits CODE_MARKERS trimmed)%nat || (0 <? countHits REASONING_MARKERS trimmed)%nat
  || (0 <? countHits TECHNICAL_MARKERS trimmed)%nat.

(** The verdict, without its telemetry signals. *)
Definition classifyHeuristicSimple (userMessage : string) : bool :=
  let trimmed := js_trim userMessage in
  if (String.length trimmed =? 0)%nat then false
  else if (countHits SIMPLE_INDICATORS trimmed =? 0)%nat then false
  else if (SIMPLE_MAX_CHARS <? String.length trimmed)%nat then false
  else if (0 <? countHits CODE_MARKERS trimmed)%nat then false
  else if (0 <? countHits REASONING_MARKERS trimmed)%nat then false
  else if (0 <? countHits TECHNICAL_MARKERS trimmed)%nat then false
  else true.

(** ** The judge's answer *)

Inductive fence_mode := Copy | SkipTicks (n : nat) | Letters.

(** [replace(/```[a-z]*\n?/g, "")], or [replace(/```/g, "")] when no letters
    are taken with the fence. *)
Fixpoint remove_fences (letters : bool) (mode : fence_mode) (s : string) : string :=
  match s with
  | EmptyString => EmptyString
  | String c s' =>
    let copy := if starts_with "```" s then remove_fences letters (SkipTicks 2) s'
                else String c (remove_fences letters Copy s') in
    match mode with
    | SkipTicks (S (S n)) => remove_fences letters (SkipTicks (S n)) s'
    | SkipTicks _ => remove_fences letters (if letters then Letters else Copy) s'
    | Letters =>
      if is_lower c then remove_fences letters Letters s'
      else if bool_decide (c = ascii_of_N 10) then remove_fences letters Copy s'
      else copy
    | Copy => copy
    end
  end.

Definition is_tier_char (c : ascii) : bool :=
  is_alnum c || bool_decide (c = "_"%char) || bool_decide (c = "-"%char).

Fixpoint span_string (p : ascii → bool) (s : string) : string * string :=
  match s with
  | EmptyString => ("", "")
  | String c s' =>
    if p c then let '(a, b) := span_string p s' in (String c a, b) else ("", s)
  end.

(** [TIER_TAG_PATTERN.exec]: the group of the leftmost match. *)
Fixpoint tier_tag (s : string) : option string :=
  let here :=
    rest ← after_tag ["<tier>"] s;
    let '(name, rest) := span_string is_tier_char (trim_start rest) in
    if str_nonempty name then _ ← after_tag ["</tier>"] (trim_start rest); Some name else None in
  match here with
  | Some name => Some name
  | None => match s with EmptyString => None | String _ s => tier_tag s end
  end.

Definition parseTier (judgeOutput : string) (knownTiers : list string) : option string :=
  let cleaned := js_trim (remove_fences false Copy (remove_fences true Copy judgeOutput)) in
  let tagged :=
    candidate ← tier_tag cleaned;
    List.find (λ t, bool_decide (to_lower t = to_lower candidate)) knownTiers in
  match truthy tagged with
  | Some found => Some found
  | None => List.find (has_word cleaned) knownTiers
  end.

Inductive failure_reason := JudgeTimedOut | ModelFailed | ParseFailed.

#[export] Instance failure_reason_eq_dec : EqDecision failure_reason.
Proof. solve_decision. Defined.

Record token_saver_decision := TokenSaverDecision {
  td_tier : string;
  td_selection : model_ref;
  td_resolvedFrom : resolution;
  td_failureReason : option failure_reason;
}.

(** What a call of the judge model gives: the text of its answer, the
    classifier's own timeout, or an error. *)
Inductive judge_reply := Reply (text : string) | TimesOut | Fails.

Definition judge_attempts : nat := 3.

(** [for (let attempt = 1; attempt <= maxAttempts; attempt++)] from [attempt]
    on, [remaining] attempts left; the number of calls made comes second. *)
Fixpoint judge_loop (config : token_saver_config) (default_model : model_ref)
  (judge : nat → judge_reply) (attempt remaining : nat) : token_saver_decision * nat :=
  let fallback reason :=
    TokenSaverDecision (ts_defaultTier config) default_model ByFallback (Some reason) in
  match remaining with
  | O => (fallback ParseFailed, (attempt - 1)%nat)
  | S remaining =>
    match judge attempt with
    | TimesOut => (fallback JudgeTimedOut, attempt)
    | Fails =>
      match remaining with
      | O => (fallback ModelFailed, attempt)
      | _ => judge_loop config default_model judge (S attempt) remaining
      end
    | Reply text =>
      match (if str_nonempty text then truthy (parseTier text (jm_keys (ts_tiers config))) else None) with
      | None =>
        match remaining with
        | O => (fallback ParseFailed, attempt)
        | _ => judge_loop config default_model judge (S attempt) remaining
        end
      | Some tier =>
        match jm_get tier (ts_tiers config) with
        | None => (fallback ParseFailed, attempt)
        | Some selection => (TokenSaverDecision tier selection ByJudge None, attempt)
        end
      end
    end
  end.

(** The decision and the number of calls of the judge model. *)
Definition classifyAndRoute (config : token_saver_config) (messages : list message)
  (judge : nat → judge_reply) : option token_saver_decision * nat :=
  if negb (ts_enabled config) then (None, O)
  else match jm_get (ts_defaultTier config) (ts_tiers config) with
       | None => (None, O)
       | Some default_model =>
         match extractLastUserMessage messages with
         | None => (Some (TokenSaverDecision (ts_defaultTier config) default_model ByDefault None), O)
         | Some _ =>
           let '(d, calls) := judge_loop config default_model judge 1 judge_attempts in (Some d, calls)
         end
       end.

(** ** The uncertainty-gated classifier *)

Record gated_options := GatedOptions {
  go_minObservations : Z;
  go_minMargin : Q;
  go_enabled : bool;
  go_explorationRate : Q;
  go_enableZeroCost : bool;
  go_smoothing : Q;
  go_salt : string;
}.

Definition default_gated_options : gated_options :=
  GatedOptions 4 (15 # 100) true (5 # 100) true 1 "rigorium-rank-v1".

Section Gated.
Context `{Sha1} (o : gated_options).

Definition tryZeroCostTier (config : token_saver_config) (messages : list message)
  (previousTier : option string) (requirements : option capability_requirements) (r : ranker)
  : option token_saver_decision :=
  userMessage ← extractLastUserMessage messages;
  let continuation :=
    tier ← truthy previousTier;
    if isShortContinuation userMessage then
      selection ← jm_get tier (ts_tiers config);
      Some (TokenSaverDecision tier selection ByContinuation None)
    else None in
  match continuation with
  | Some d => Some d
  | None =>
    requirements ← requirements;
    if 0 <? ts_totalObservations (score (go_smoothing o) (bucketKey (go_salt o) requirements) r) then None
    else if classifyHeuristicSimple userMessage then
      selection ← jm_get "simple" (ts_tiers config);
      Some (TokenSaverDecision "simple" selection ByHeuristic None)
    else None
  end.

Definition tryLearned (config : token_saver_config) (requirements : capability_requirements) (r : ranker)
  : option token_saver_decision :=
  let scored := score (go_smoothing o) (bucketKey (go_salt o) requirements) r in
  if (2 <=? length (ts_entries scored))%nat && (go_minObservations o <=? ts_totalObservations scored)
     && Qle_bool (go_minMargin o) (ts_topMargin scored)
  then tier ← ts_topTier scored;
       selection ← jm_get tier (ts_tiers config);
       Some (TokenSaverDecision tier selection ByLearned None)
  else None.

(** [classify]; [random] is what [Math.random()] returns if it is called. *)
Definition classify (config : token_saver_config) (messages : list message)
  (previousTier : option string) (requirements : option capability_requirements) (r : ranker)
  (random : Q) (judge : nat → judge_reply) : option token_saver_decision * nat :=
  match (if go_enableZeroCost o then tryZeroCostTier config messages previousTier requirements r else None) with
  | Some d => (Some d, O)
  | None =>
    match requirements with
    | Some req =>
      if go_enabled o then
        match tryLearned config req r with
        | Some learned =>
          if Qle_bool (go_explorationRate o) random then (Some learned, O)
          else
            let '(decision, calls) := classifyAndRoute config messages judge in
            match decision ≫= td_failureReason with
            | Some _ => (Some learned, calls)
            | None => (decision, calls)
            end
        | None => classifyAndRoute config messages judge
        end
      else classifyAndRoute config messages judge
    | None => classifyAndRoute config messages judge
    end
  end.
End Gated.

(** ** The ranker and its observations *)

#[export] Instance compareStats_comparator : Comparator compareStats.
Proof.
  unfold compareStats. split.
  - intros x. apply Qeq_alt. reflexivity.
  - intros x y. symmetry. apply Qcompare_antisym.
  - intros x y z. rewrite <- !Qle_alt. intros Hxy Hyz. by eapply Qle_trans.
Qed.

Record observation := Observation {
  ob_bucket : string;
  ob_tier : string;
  ob_outcome : tier_outcome;
  ob_costUnits : option Q;
}.

Definition observe_one (r : ranker) (x : observation) : ranker :=
  observe (ob_bucket x) (ob_tier x) (ob_outcome x) (ob_costUnits x) r.

Definition observe_all (log : list observation) : ranker := foldl observe_one [] log.

Definition seen_in (bucket : string) (log : list observation) : list observation :=
  List.filter (λ x, bool_decide (ob_bucket x = bucket)) log.

(** How often a tier of a bucket has had an outcome. *)
Definition tally (bucket tier : string) (o : tier_outcome) (log : list observation) : Z :=
  Z.of_nat (length (List.filter (λ x, bool_decide (ob_tier x = tier) && bool_decide (ob_outcome x = o))
    (seen_in bucket log))).

(** The share of successes of a tier, smoothed. *)
Definition success_rate (smoothing : Q) (bucket tier : string) (log : list observation) : Q :=
  let s := tally bucket tier Success log in
  ((inject_Z s + smoothing) / (inject_Z (s + tally bucket tier Failure log) + 2 * smoothing))%Q.

Definition observations (record : jmap tier_counts) : Z :=
  foldl (λ n e, n + (tc_success e.2 + tc_failure e.2)) 0 record.

Lemma observations_from record : ∀ n,
  foldl (λ n e, n + (tc_success e.2 + tc_failure e.2)) n record = n + observations record.
Proof.
  unfold observations. induction record as [|e record IH]; intros n; cbn [foldl]; [lia|].
  rewrite IH, (IH (0 + _)). lia.
Qed.

Lemma observations_cons k c record :
  observations ((k, c) :: record) = tc_success c + tc_failure c + observations record.
Proof. unfold observations at 1. cbn [foldl snd]. rewrite observations_from. lia. Qed.

Lemma count_outcome_counts o u c :
  tc_success (count_outcome o u c) = tc_success c + (if bool_decide (o = Success) then 1 else 0) ∧
  tc_failure (count_outcome o u c) = tc_failure c + (if bool_decide (o = Failure) then 1 else 0).
Proof.
  unfold count_outcome. destruct o, u as [u|]; try destruct (Qltb 0 u);
    repeat (case_bool_decide; try done); cbn; split; lia.
Qed.

Lemma observations_set tier o u record :
  observations (jm_set tier (count_outcome o u (default no_counts (jm_get tier record))) record) =
  observations record + 1.
Proof.
  induction record as [|[k c] record IH].
  - cbn [jm_set jm_get default]. rewrite observations_cons.
    destruct (count_outcome_counts o u no_counts) as [-> ->]. by destruct o.
  - cbn [jm_set jm_get]. case_decide; rewrite !observations_cons; [|rewrite IH; clear; lia].
    change (default no_counts (Some c)) with c. destruct (count_outcome_counts o u c) as [-> ->].
    destruct o; repeat (case_bool_decide; try done); lia.
Qed.

(** A bucket's record counts its observations. *)
Definition counts_log (log : list observation) (bucket : string) (record : jmap tier_counts) : Prop :=
  NoDup (jm_keys record) ∧ observations record = Z.of_nat (length (seen_in bucket log)) ∧
  ∀ tier, let c := default no_counts (jm_get tier record) in
    tc_success c = tally bucket tier Success log ∧ tc_failure c = tally bucket tier Failure log ∧
    (is_Some (jm_get tier record) → ∃ x, x ∈ seen_in bucket log ∧ ob_tier x = tier).

Lemma filter_snoc {A} (f : A → bool) l x :
  List.filter f (l ++ [x]) = List.filter f l ++ (if f x then [x] else []).
Proof. rewrite List.filter_app. cbn. by destruct (f x). Qed.

Lemma tally_snoc bucket tier o log x :
  tally bucket tier o (log ++ [x]) =
  tally bucket tier o log +
    (if bool_decide (ob_bucket x = bucket) && bool_decide (ob_tier x = tier) && bool_decide (ob_outcome x = o)
     then 1 else 0).
Proof.
  unfold tally, seen_in. rewrite filter_snoc. destruct (bool_decide (ob_bucket x = bucket)); cbn [andb].
  - rewrite filter_snoc, length_app. destruct (_ && _); cbn [length]; lia.
  - rewrite app_nil_r. lia.
Qed.

Lemma seen_snoc bucket log x y :
  y ∈ List.filter (λ x, bool_decide (ob_bucket x = bucket)) log ∨ (y = x ∧ ob_bucket x = bucket) →
  y ∈ List.filter (λ x, bool_decide (ob_bucket x = bucket)) (log ++ [x]).
Proof.
  rewrite filter_snoc. intros [Hy|[-> Hb]]; apply elem_of_app; [by left|]. right.
  rewrite bool_decide_true by done. by left.
Qed.

Lemma observe_all_counts log bucket : counts_log log bucket (default [] (jm_get bucket (observe_all log))).
Proof.
  induction log as [|x log IH] using rev_ind; [by repeat split; [constructor|intros []]|].
  unfold observe_all. rewrite foldl_app. fold (observe_all log). cbn [foldl]. unfold observe_one, observe.
  destruct IH as (Hnd & Hobs & Htally). rewrite jm_get_set. unfold counts_log, seen_in.
  unfold seen_in in Hobs. case_decide as Hb.
  - rewrite <- Hb. match goal with |- context [default [] (Some ?x)] => change (default [] (Some x)) with x end.
    split; [by apply jm_keys_set_NoDup|]. split.
    + rewrite observations_set, Hobs, filter_snoc, bool_decide_true, length_app by done. cbn [length]. lia.
    + intros tier. cbn zeta. rewrite !tally_snoc, bool_decide_true by done. cbn [andb].
      rewrite jm_get_set. specialize (Htally tier) as (Hs & Hf & Hx). case_decide as Ht.
      * match goal with |- context [default no_counts (Some ?x)] =>
          change (default no_counts (Some x)) with x end. rewrite (bool_decide_true (ob_tier x = tier)) by done. rewrite <- Ht. cbn [andb].
        destruct (count_outcome_counts (ob_outcome x) (ob_costUnits x)
          (default no_counts (jm_get tier (default [] (jm_get bucket (observe_all log)))))) as [-> ->].
        rewrite Hs, Hf. repeat split. intros _. exists x. split; [|done]. apply seen_snoc. by right.
      * rewrite (bool_decide_false (ob_tier x = tier)) by done. cbn [andb].
        split; [lia|]. split; [lia|]. intros (y & Hy & Hyt)%Hx. exists y. split; [|done]. apply seen_snoc. by left.
  - split; [done|]. rewrite filter_snoc, bool_decide_false, app_nil_r by congruence. split; [done|].
    intros tier. cbn zeta. rewrite !tally_snoc, bool_decide_false by congruence. cbn [andb].
    destruct (Htally tier) as (Hs & Hf & Hx). split; [lia|]. split; [lia|].
    intros (y & Hy & Hyt)%Hx. by exists y.
Qed.

(** The entry with the best score, and its margin over the others. *)
Lemma score_top smoothing bucket r record tier :
  jm_get bucket r = Some record → NoDup (jm_keys record) →
  (2 <= length record)%nat → ts_topTier (score smoothing bucket r) = Some tier →
  ∃ c, jm_get tier record = Some c ∧ (∃ t c', t ≠ tier ∧ jm_get t record = Some c') ∧
    ∀ t c', jm_get t record = Some c' → t ≠ tier →
      (ti_score (stat_of smoothing (t, c')) + ts_topMargin (score smoothing bucket r)
       <= ti_score (stat_of smoothing (tier, c)))%Q.
Proof.
  unfold score. intros -> Hnd Hlen. cbn [ts_topTier ts_topMargin].
  pose proof (js_sort_sorted compareStats (map (stat_of smoothing) record)) as Hs.
  pose proof (js_sort_perm compareStats (map (stat_of smoothing) record)) as Hp.
  rewrite <- (length_map (stat_of smoothing)), <- Hp in Hlen.
  destruct (js_sort _ _) as [|top [|second rest]]; [cbn in Hlen; lia..|]. intros [= <-]. clear Hlen.
  assert (∀ e, e ∈ top :: second :: rest → ∃ c, jm_get (ti_tier e) record = Some c ∧ e = stat_of smoothing (ti_tier e, c))
    as Hin.
  { intros e He. rewrite Hp in He. apply list_elem_of_fmap in He as ([t c] & -> & He).
    exists c. split; [by apply jm_elem_get|done]. }
  assert (NoDup (map ti_tier (top :: second :: rest))) as Hnd'.
  { rewrite Hp, map_map. exact Hnd. }
  destruct (Hin top) as (c & Hc & Htop); [by left|]. exists c. split; [done|].
  cbn [map] in Hnd'. apply NoDup_cons in Hnd' as [Hnotin _]. 
  apply StronglySorted_inv in Hs as [Hs _]. apply StronglySorted_inv in Hs as [_ Hs]. split.
  { destruct (Hin second) as (c2 & Hc2 & _); [by right; left|]. exists (ti_tier second), c2. split; [|done].
    intros Heq. apply Hnotin. rewrite <- Heq. by left. }
  intros t c' Hc' Hne. rewrite <- Htop.
  assert (stat_of smoothing (t, c') ∈ top :: second :: rest) as He.
  { rewrite Hp. apply list_elem_of_fmap. exists (t, c'). split; [done|]. by apply jm_get_elem. }
  apply elem_of_cons in He as [He|He]; [by rewrite <- He in Hne|].
  assert (ti_score (stat_of smoothing (t, c')) <= ti_score second)%Q as Hle.
  { apply elem_of_cons in He as [->|He]; [apply Qle_refl|].
    rewrite Forall_forall in Hs. specialize (Hs _ He). unfold compareStats in Hs. by apply Qle_alt in Hs. }
  lra.
Qed.

(** ** Properties *)

Lemma rate_score smoothing bucket log record tier c :
  counts_log log bucket record → jm_get tier record = Some c →
  ti_score (stat_of smoothing (tier, c)) = success_rate smoothing bucket tier log.
Proof.
  intros (_ & _ & Ht) Hc. specialize (Ht tier) as (Hs & Hf & _). rewrite Hc in *.
  change (default no_counts (Some c)) with c in *. unfold success_rate. by rewrite <- Hs, <- Hf.
Qed.

(** P: A tier is chosen from experience, without asking the judge, only when
    the requests of this kind have been observed often enough, with another
    tier too, and this tier's success rate is above every other tried tier's
    by the configured margin; its model is the configured one. *)
Theorem learned_clear_best `{Sha1} o config requirements log d :
  tryLearned o config requirements (observe_all log) = Some d →
  let bucket := bucketKey (go_salt o) requirements in
  let rate t := success_rate (go_smoothing o) bucket t log in
  jm_get (td_tier d) (ts_tiers config) = Some (td_selection d) ∧
  go_minObservations o ≤ Z.of_nat (length (seen_in bucket log)) ∧
  (∃ x, x ∈ seen_in bucket log ∧ ob_tier x ≠ td_tier d) ∧
  ∀ x, x ∈ seen_in bucket log → ob_tier x ≠ td_tier d →
    (rate (ob_tier x) + go_minMargin o <= rate (td_tier d))%Q.
Proof.
  unfold tryLearned. set (b := bucketKey _ _). pose proof (observe_all_counts log b) as Hlog.
  destruct (jm_get b (observe_all log)) as [record|] eqn:Hrec.
  2: { unfold score. rewrite Hrec. done. }
  change (default [] (Some record)) with record in Hlog.
  destruct (_ && _ && _) eqn:Hb; [|done].
  apply andb_true_iff in Hb as [Hb Hmargin%Qle_bool_iff].
  apply andb_true_iff in Hb as [Hlen%Nat.leb_le Hmin%Z.leb_le].
  destruct (ts_topTier _) as [tier|] eqn:Htop; [|done]. cbn [mbind option_bind].
  destruct (jm_get tier (ts_tiers config)) as [selection|] eqn:Hsel; [|done]. intros [= <-]. cbn zeta.
  cbn [td_tier td_selection].
  pose proof Hlog as (Hnd & Hobs & Htally).
  assert (ts_totalObservations (score (go_smoothing o) b (observe_all log)) = observations record) as Htot
    by (unfold score; by rewrite Hrec).
  assert (2 <= length record)%nat as Hlen'.
  { revert Hlen. unfold score. rewrite Hrec. cbn [ts_entries]. by rewrite js_sort_perm, length_map. }
  destruct (score_top (go_smoothing o) b (observe_all log) record tier Hrec Hnd Hlen' Htop)
    as (c & Hc & (t & c' & Hne & Hc') & Hbest).
  split; [done|]. split; [lia|]. split.
  - destruct (Htally t) as (_ & _ & Hx). destruct Hx as (x & Hx & <-); [by exists c'|]. by exists x.
  - intros x Hx Hxt. rewrite <- (rate_score _ _ _ record tier c) by done.
    destruct (jm_get (ob_tier x) record) as [cx|] eqn:Hcx.
    + rewrite <- (rate_score _ _ _ record (ob_tier x) cx) by done. specialize (Hbest _ _ Hcx Hxt). lra.
    + exfalso. destruct (Htally (ob_tier x)) as (Hs & Hf & _). rewrite Hcx in *.
      change (0 = tally b (ob_tier x) Success log) in Hs. change (0 = tally b (ob_tier x) Failure log) in Hf.
      assert (0 < tally b (ob_tier x) (ob_outcome x) log); [|destruct (ob_outcome x); lia].
      unfold tally. assert (x ∈ List.filter (λ y, bool_decide (ob_tier y = ob_tier x) && bool_decide (ob_outcome y = ob_outcome x))
        (seen_in b log)) as Hin; [|destruct (List.filter _ _); [by apply elem_of_nil in Hin | cbn; lia]].
      apply list_elem_of_In, filter_In. split; [by apply list_elem_of_In|]. by rewrite !bool_decide_true.
Qed.

Definition selects (config : token_saver_config) (d : token_saver_decision) : Prop :=
  jm_get (td_tier d) (ts_tiers config) = Some (td_selection d).

Lemma judge_loop_selects config default_model judge remaining : ∀ attempt,
  jm_get (ts_defaultTier config) (ts_tiers config) = Some default_model → (1 <= attempt)%nat →
  let '(d, calls) := judge_loop config default_model judge attempt remaining in
  selects config d ∧ (calls <= attempt - 1 + remaining)%nat.
Proof.
  unfold selects. induction remaining as [|remaining IH]; intros attempt Hd Ha; cbn [judge_loop];
    [split; [done|lia]|].
  specialize (IH (S attempt) Hd ltac:(lia)).
  destruct (judge attempt) as [text| |]; [|split; [done|cbn; lia]|].
  - destruct (if str_nonempty text then _ else _) as [tier|].
    + destruct (jm_get tier (ts_tiers config)) eqn:Ht; (split; [done|cbn; lia]).
    + destruct remaining; [split; [done|cbn; lia]|]. destruct (judge_loop _ _ _ _ _). split; [tauto|lia].
  - destruct remaining; [split; [done|cbn; lia]|]. destruct (judge_loop _ _ _ _ _). split; [tauto|lia].
Qed.

Lemma classifyAndRoute_selects config messages judge d calls :
  classifyAndRoute config messages judge = (Some d, calls) →
  selects config d ∧ (calls <= judge_attempts)%nat.
Proof.
  unfold classifyAndRoute, selects. destruct (negb _); [done|].
  destruct (jm_get (ts_defaultTier config) (ts_tiers config)) as [dm|] eqn:Hdm; [|done].
  destruct (extractLastUserMessage messages); [|by intros [= <- <-]; split; [|unfold judge_attempts; lia]].
  pose proof (judge_loop_selects config dm judge judge_attempts 1 Hdm (le_n 1)) as Hl.
  destruct (judge_loop _ _ _ _ _). intros [= <- <-]. cbn [Nat.sub Nat.add] in Hl. exact Hl.
Qed.

(** P: A decision of the gated classifier selects the model configured for its
    tier, after at most three calls of the judge. *)
Theorem classify_selects `{Sha1} o config messages previousTier requirements r random judge d calls :
  classify o config messages previousTier requirements r random judge = (Some d, calls) →
  jm_get (td_tier d) (ts_tiers config) = Some (td_selection d) ∧ (calls <= judge_attempts)%nat.
Proof.
  unfold classify. assert (0 <= judge_attempts)%nat as H0 by (unfold judge_attempts; lia).
  destruct (if go_enableZeroCost o then _ else _) as [d0|] eqn:Hz.
  { intros [= <- <-]. split; [|done]. destruct (go_enableZeroCost o); [|done]. revert Hz. unfold tryZeroCostTier.
    destruct (extractLastUserMessage messages); [|done]. cbn [mbind option_bind].
    destruct (truthy previousTier) as [tier|]; cbn [mbind option_bind]; [destruct (isShortContinuation _)|];
      try destruct (jm_get tier (ts_tiers config)) eqn:Ht; cbn [mbind option_bind];
      try (by intros [= <-]); (destruct requirements; [|done]); cbn [mbind option_bind];
      (destruct (_ <? _); [done|]); (destruct (classifyHeuristicSimple _); [|done]);
      (destruct (jm_get "simple" (ts_tiers config)) eqn:Hs; [|done]); by intros [= <-]. }
  assert (∀ req l, tryLearned o config req r = Some l → selects config l) as Hlearned.
  { intros req l. unfold tryLearned, selects. destruct (_ && _ && _); [|done].
    destruct (ts_topTier _) as [tier|]; [|done]. cbn [mbind option_bind].
    destruct (jm_get tier (ts_tiers config)) eqn:Ht; [|done]. by intros [= <-]. }
  destruct requirements as [req|]; [|apply classifyAndRoute_selects].
  destruct (go_enabled o); [|apply classifyAndRoute_selects].
  destruct (tryLearned o config req r) as [learned|] eqn:Hl; [|apply classifyAndRoute_selects].
  destruct (Qle_bool _ _); [intros [= <- <-]; split; [by eapply Hlearned|done]|].
  destruct (classifyAndRoute config messages judge) as [decision n] eqn:Hc.
  destruct (decision ≫= td_failureReason) eqn:Hf; intros [= Hd <-].
  - split; [subst d; by eapply Hlearned|]. destruct decision as [x|]; [|done].
    by apply classifyAndRoute_selects in Hc as [_ ?].
  - subst decision. by apply classifyAndRoute_selects in Hc.
Qed.

(** ** Sample logs *)

Module Sample.

#[local] Instance digest : Sha1 := {| sha1_prefix text := text |}.

Definition two_tiers : token_saver_config :=
  TokenSaverConfig true (ref_of "acme" "judge") "simple"
    [("simple", ref_of "acme" "small"); ("medium", ref_of "acme" "large")] None None.

Definition plain : capability_requirements :=
  CapabilityRequirements [] [CatFiles] (ResearchHint [] None) false false.

Definition outcomes (tier : string) (o : tier_outcome) (n : nat) : list observation :=
  replicate n (Observation (bucketKey (go_salt default_gated_options) plain) tier o None).

Definition mixed_log : list observation := outcomes "medium" Success 3 ++ outcomes "simple" Failure 2.

Lemma learned_clear_best_witness : ∃ d,
  tryLearned default_gated_options two_tiers plain (observe_all mixed_log) = Some d ∧
  (∃ x, x ∈ seen_in (bucketKey (go_salt default_gated_options) plain) mixed_log ∧ ob_tier x ≠ td_tier d).
Proof.
  assert (match tryLearned default_gated_options two_tiers plain (observe_all mixed_log) with
          | Some d => true | None => false end = true) as Hrun by (vm_compute; reflexivity).
  destruct (tryLearned default_gated_options two_tiers plain (observe_all mixed_log)) as [d|] eqn:Hd;
    [|discriminate Hrun].
  exists d. split; [reflexivity|].
  exact (proj1 (proj2 (proj2 (learned_clear_best default_gated_options two_tiers plain mixed_log d Hd)))).
Defined.

(** P: A tier that has only ever failed is chosen without asking the judge,
    once another tier has failed more often. *)
Example only_failures_learned :
  td_tier <$> tryLearned default_gated_options two_tiers plain
    (observe_all (outcomes "medium" Failure 1 ++ outcomes "simple" Failure 10)) = Some "medium".
Proof. vm_compute. reflexivity. Qed.
End Sample.
