(* ===== verification/RouterExecute.v ===== *)
(** * Executing a routed request

    [execute] of src/src/router/RouterRuntime.ts with [streamAttempt] of
    src/src/router/execution/streamAttempt.ts: the attempts of a turn in
    order, each with its retries, over the circuit breaker of
    ProviderHealth.v and the session memory of RouterSessions.v.

    What the generator yields and does is a list of actions.  The outside
    world is a record: what the [n]-th call of the model stream does, whether
    the turn has been aborted by then, and what other sessions do to the
    shared state while the generator waits or is suspended.  Telemetry,
    console output and the times of the statistics records are left out. *)

From Stdlib Require Import QArith.
From S2P Require Import Prelude JsValue ProviderHealth RouterTypes RouterMedia RouterPolicy RouterSessions RouterRanker.
Open Scope Z_scope.

(** ** The outside world *)

(** The state execute shares with the other sessions of the process. *)
Record shared := Shared {
  sh_health : tracker;
  sh_sessions : session_store;
  sh_usage : jmap usage;
  sh_ranker : ranker;
}.

Definition with_health (t : tracker) (s : shared) : shared :=
  Shared t (sh_sessions s) (sh_usage s) (sh_ranker s).
Definition with_sessions (m : session_store) (s : shared) : shared :=
  Shared (sh_health s) m (sh_usage s) (sh_ranker s).
Definition with_usage (m : jmap usage) (s : shared) : shared :=
  Shared (sh_health s) (sh_sessions s) m (sh_ranker s).
Definition with_ranker (r : ranker) (s : shared) : shared :=
  Shared (sh_health s) (sh_sessions s) (sh_usage s) r.

(** The answer of the concurrency gate, and how a stream ends. *)
Inductive slot_answer := SlotGranted | SlotRefused (t : thrown) | SlotAborted.
Inductive stream_end := StreamEnds | StreamThrows (t : thrown) | StreamAborted.

Record call_result := CallResult {
  ca_slot : slot_answer;
  ca_events : list model_event;
  ca_end : stream_end;
}.

(** Indices count the calls made before. *)
Record world := World {
  w_call : nat → model_request → call_result;
  w_aborted : nat → bool;
  w_delay_aborted : nat → bool;
  w_clock : nat → Z;
  w_during_call : nat → shared → shared;
  w_during_yield : nat → shared → shared;
}.

(** ** Actions *)

Inductive router_event :=
  | EvFallback (attempt : nat) (from to : model_ref) (error : model_error)
  | EvTransientRetry (attempt delayMs : Z) (ref : model_ref) (errorCode : string)
  | EvZeroUsageRetry (attempt : Z) (ref : model_ref)
  | EvRetryProgress (attempt maxAttempts delayMs : Z) (reason : retry_reason) (ref : model_ref)
  | EvProviderDegraded (ref : model_ref) (errorCode : string) (consecutiveFailures : Z)
  | EvExecuteFailed (ref : model_ref) (error : model_error).

(** What [stats.observe] receives. *)
Record stats_record := StatsRecord {
  sx_scenarioType : scenario_type;
  sx_resolvedFrom : resolution;
  sx_ref : model_ref;
  sx_tier : option string;
  sx_isSubagent : bool;
  sx_usage : usage;
  sx_errorCode : option string;
  sx_fallbacks : nat;
  sx_estimatedUsage : bool;
}.

Inductive action :=
  | Yield (e : model_event)
  | AcquireSlot (provider : string)
  | ReleaseSlot (provider : string)
  | CallModel (n : nat) (r : model_request)
  | GateFeedback (provider : string) (e : model_error)
  | Delay (ms : Z)
  | Emit (e : router_event)
  | ObserveStats (r : stats_record).

(** ** One call of the model *)

Record attempt_outcome := AttemptOutcome {
  ao_buffered : list model_event;
  ao_error : option model_error;
  ao_usage : option usage;
  ao_shouldRetryZeroUsage : bool;
}.

Definition last_error (events : list model_event) : option model_error :=
  foldl (λ err e, match e with ErrorEvent x => Some x | _ => err end) None events.

Definition isContentEvent (e : model_event) : bool :=
  match e with
  | TextDelta _ | ThinkingDelta _ | ToolCallStart _ _ | ToolCallDelta _ _ | ToolCallEnd _ _ => true
  | _ => false
  end.

(** The consumer loop over the events of one call: what it yields, what it
    keeps back, and whether content has been yielded. *)
Definition deliver_step (st : list model_event * list model_event * bool) (e : model_event)
  : list model_event * list model_event * bool :=
  let '(out, pending, has) := st in
  if negb has && isContentEvent e then (out ++ pending ++ [e], [], true)
  else if (has : bool) then (out ++ [e], pending, true)
  else (out, pending ++ [e], false).

Definition deliver (events : list model_event) : list model_event * list model_event * bool :=
  foldl deliver_step ([], [], false) events.

Section Execute.
Context `{Tokenizer, Random, Sha1}.
Context (models : model_config) (config : router_config) (health : tracker_config)
        (store : store_options) (w : world).

(** A gate exists unless it is switched off; a gate that is not enabled
    grants every slot. *)
Definition gated : bool := match rc_concurrency config with Some false => false | _ => true end.

(** [streamAttempt]: the outcome, or [None] when it throws because the turn
    was aborted. *)
Definition outcome_of (request : model_request) (c : call_result) : option attempt_outcome :=
  let refused t :=
    AttemptOutcome [] (Some (error_of_gate models (rq_provider request) t)) None
      (shouldRetryZeroUsage createZeroUsageState) in
  let streamed err :=
    let state := foldl observeEventForZeroUsage createZeroUsageState (ca_events c) in
    AttemptOutcome (ca_events c) err (zs_observedUsage state) (shouldRetryZeroUsage state) in
  match (if gated then ca_slot c else SlotGranted) with
  | SlotAborted => None
  | SlotRefused t => Some (refused t)
  | SlotGranted =>
    match ca_end c with
    | StreamAborted => None
    | StreamEnds => Some (streamed (last_error (ca_events c)))
    | StreamThrows t => Some (streamed (Some (error_of_thrown models (rq_provider request) t)))
    end
  end.

(** The events the consumer sees of a call, in order. *)
Definition delivered_events (c : call_result) : list model_event :=
  match (if gated then ca_slot c else SlotGranted) with SlotGranted => ca_events c | _ => [] end.

Definition call_actions (n : nat) (request : model_request) (c : call_result) : list action :=
  let '(out, _, _) := deliver (delivered_events c) in
  let streaming := CallModel n request :: map Yield out in
  if gated then
    match ca_slot c with
    | SlotGranted => AcquireSlot (rq_provider request) :: streaming ++ [ReleaseSlot (rq_provider request)]
    | _ => []
    end
  else streaming.

(** ** The configured limits *)

Definition zeroUsageMax : Z := Z.max 1 (default 5 (zu_maxAttempts <$> rc_zeroUsageRetry config)).
Definition zeroUsageEnabled : bool := default true (zu_enabled <$> rc_zeroUsageRetry config).
Definition transientRetryEnabled : bool := default true (tr_enabled <$> rc_transientRetry config).
Definition transientRetryMax : Z := Z.max 1 (default 2 (tr_maxAttempts <$> rc_transientRetry config)).
Definition transientBaseDelayMs : Z := default 500 (tr_baseDelayMs <$> rc_transientRetry config).
Definition transientMaxDelayMs : Z := default 8000 (tr_maxDelayMs <$> rc_transientRetry config).
Definition retryAfterCapMs : Z := default SERVER_RETRY_AFTER_CAP_MS (rc_transientRetry config ≫= tr_retryAfterCapMs).

(** The delay before a transient retry; [draw] numbers the random choice. *)
Definition retry_delay (draw : nat) (error : model_error) (transientRetryCount : Z) : Z :=
  match er_retryAfterMs error with
  | Some ms => Z.min ms retryAfterCapMs
  | None => calculateLiteLLMRetryDelay draw transientRetryCount transientBaseDelayMs transientMaxDelayMs
  end.

(** ** After a call *)

(** The turn that is executed: its decision, the request, the session slot it
    is stored under and the routing context of the ranker. *)
Record turn := Turn {
  tu_decision : router_decision;
  tu_request : model_request;
  tu_sessionId : string;
  tu_storageIsSubagent : bool;
  tu_pending : option (string * string);
}.

(** The attempt in progress. *)
Record attempt := Attempt {
  at_index : nat;
  at_ref : model_ref;
  at_decision : router_decision;
  at_next : option model_ref;
}.

(** The counters of the retry loop. *)
Record retry_state := RetryState {
  re_request : model_request;
  re_zeroUsageAttempt : Z;
  re_transientRetryCount : Z;
  re_calls : nat;
}.

(** [lastBuffered], [lastError], [lastUsage] and [lastHasYieldedContent] when
    the loops are left: the call that leaves them has set them all. *)
Record last_seen := LastSeen {
  ls_buffered : list model_event;
  ls_error : model_error;
  ls_usage : option usage;
  ls_hasYieldedContent : bool;
}.

(** How the body of the retry loop ends: [continue outer], [continue] (after a
    delay), [break outer] or [return]. *)
Inductive verdict :=
  | NextAttempt
  | RetryCall (delayMs : Z) (r : retry_state)
  | BreakOuter (l : last_seen)
  | ReturnDone.

Definition no_tokens (u : option usage) : bool :=
  match u with
  | None => true
  | Some u => negb (truthy_num (us_inputTokens u)) && negb (truthy_num (us_outputTokens u))
  end.

(** The reported usage, or the estimate. *)
Definition final_usage (u : option usage) (messages : list message) (events : list model_event) : usage :=
  match u with
  | Some u' => if no_tokens u
               then let i := countMessagesTokens messages in let n := countResponseTokens events in
                    Usage (Some i) (Some n) None None (Some (i + n))
               else u'
  | None => let i := countMessagesTokens messages in let n := countResponseTokens events in
            Usage (Some i) (Some n) None None (Some (i + n))
  end.

Definition observeRoutingOutcome (t : turn) (outcome : tier_outcome) (costUnits : option Z) (s : shared)
  : shared :=
  match tu_pending t with
  | None => s
  | Some (bucket, tier) => with_ranker (observe bucket tier outcome (inject_Z <$> costUnits) (sh_ranker s)) s
  end.

Definition slot_key (t : turn) : string := makeKey (tu_sessionId t) (tu_storageIsSubagent t).

Definition cost_units (u : usage) : option Z :=
  match us_totalTokens u with
  | Some n => if n =? 0 then None else Some (Z.max 1 ((n + 500) / 1000))
  | None => None
  end.

Definition stats_of (t : turn) (a : attempt) (u : usage) (estimated : bool) (errorCode : option string)
  (fallbacks : nat) : stats_record :=
  StatsRecord (rd_scenarioType (at_decision a)) (rd_resolvedFrom (at_decision a)) (at_ref a)
    (rd_tokenSaverTier (tu_decision t)) (rd_isSubagent (tu_decision t)) u errorCode fallbacks estimated.

(** The end of a call that reported no error and is not repeated. *)
Definition finish_success (t : turn) (a : attempt) (r : retry_state) (o : attempt_outcome)
  (pending : list model_event) (has : bool) (s : shared) : list action * shared :=
  let now := w_clock w (re_calls r) in
  let s := with_health (recordSuccess health now (ref_provider (at_ref a)) (sh_health s)) s in
  let yields := if (has : bool) then [] else pending in
  let s := w_during_yield w (re_calls r) s in
  let finalUsage := final_usage (ao_usage o) (rq_messages (re_request r)) (ao_buffered o) in
  let s := with_usage (usage_observe 500 (tu_sessionId t) (Some finalUsage) (sh_usage s)) s in
  let s :=
    if (at_index a =? 0)%nat then
      observeRoutingOutcome t Success (cost_units finalUsage)
        (with_sessions (resetQualityFailures (slot_key t) (sh_sessions s)) s)
    else s in
  (map Yield yields ++ [ObserveStats (stats_of t a finalUsage (no_tokens (ao_usage o)) None (at_index a))], s).

(** The health bookkeeping of a failed call. *)
Definition record_failure (a : attempt) (r : retry_state) (e : model_error) (s : shared)
  : list action * shared :=
  let now := w_clock w (re_calls r) in
  let provider := ref_provider (at_ref a) in
  let t := recordFailure health now provider (Some (er_code e)) (sh_health s) in
  let '(state, t) := getState health now provider t in
  let degraded :=
    if bool_decide (state = Degraded)
    then [Emit (EvProviderDegraded (at_ref a) (er_code e) (pv_consecutiveFailures (getOrCreate provider t)))]
    else [] in
  ((if gated then [GateFeedback provider e] else []) ++ degraded, with_health t s).

Definition transient_retry_events (a : attempt) (r : retry_state) (e : model_error) (delay : Z) : list action :=
  [Emit (EvTransientRetry (re_transientRetryCount r + 1) delay (at_ref a) (er_code e));
   Emit (EvRetryProgress (re_transientRetryCount r + 1) transientRetryMax delay
           (classifyRetryReason (er_code e)) (at_ref a))].

Definition progress_event (a : attempt) (r : retry_state) (e : model_error) (delay : Z) : list action :=
  [Emit (EvRetryProgress (re_transientRetryCount r + 1) transientRetryMax delay
           (classifyRetryReason (er_code e)) (at_ref a))].

Definition count_transient (request : model_request) (r : retry_state) : retry_state :=
  RetryState request (re_zeroUsageAttempt r) (re_transientRetryCount r + 1) (re_calls r).

(** What the loop does with an error: fall back, retry, continue the answer,
    or give up. *)
Definition after_error (a : attempt) (r : retry_state) (o : attempt_outcome) (e : model_error)
  (pending : list model_event) (has : bool) : list action * verdict :=
  let mid_stream :=
    if has && (re_transientRetryCount r <? transientRetryMax) && er_retryable e then
      let partialText := extractPartialText (ao_buffered o) in
      if str_nonempty partialText then
        let delay := retry_delay (3 * re_calls r) e (re_transientRetryCount r) in
        Some (progress_event a r e delay,
              RetryCall delay (count_transient (buildLiteLLMContinuationRequest (re_request r) partialText) r))
      else None
    else None in
  let stop_here := (map Yield pending, BreakOuter (LastSeen (ao_buffered o) e (ao_usage o) has)) in
  if negb has && isFallbackEligible e then
    match at_next a with
    | Some next => ([Emit (EvFallback (at_index a + 1) (at_ref a) next e)], NextAttempt)
    | None =>
      if transientRetryEnabled && (re_transientRetryCount r <? transientRetryMax) then
        let delay := retry_delay (3 * re_calls r) e (re_transientRetryCount r) in
        (transient_retry_events a r e delay, RetryCall delay (count_transient (re_request r) r))
      else stop_here
    end
  else match mid_stream with Some x => x | None => stop_here end.

Definition zero_usage_events (a : attempt) (r : retry_state) : list action :=
  let delay := exponentialBackoffDelay (3 * re_calls r + 1) (re_zeroUsageAttempt r) 500 8000 None in
  [Emit (EvZeroUsageRetry (re_zeroUsageAttempt r) (at_ref a));
   Emit (EvRetryProgress (re_zeroUsageAttempt r) zeroUsageMax delay ZeroUsage (at_ref a))].

(** The part of the loop's body after the call; [r] already counts the call. *)
Definition after_call (t : turn) (a : attempt) (r : retry_state) (c : call_result) (o : attempt_outcome)
  (s : shared) : list action * shared * verdict :=
  let '(_, pending, has) := deliver (delivered_events c) in
  match ao_error o with
  | Some e =>
    let '(acts, s) := record_failure a r e s in
    let '(acts', v) := after_error a r o e pending has in
    (acts ++ acts', s, v)
  | None =>
    if negb has && zeroUsageEnabled && ao_shouldRetryZeroUsage o
       && (re_zeroUsageAttempt r <? zeroUsageMax) then
      let delay := exponentialBackoffDelay (3 * re_calls r + 2) (re_zeroUsageAttempt r) 500 8000 None in
      (zero_usage_events a r, s, RetryCall delay r)
    else
      let '(acts, s) := finish_success t a r o pending has s in
      (acts, s, ReturnDone)
  end.

(** ** The loops *)

(** How the retry loop of an attempt ends; a thrown abort is [Aborted]. *)
Inductive loop_end := GoOn (calls : nat) | Leave (calls : nat) (l : last_seen) | Done | Aborted.

(** [while (true)], at most [fuel] times. *)
Fixpoint retry_loop (fuel : nat) (t : turn) (a : attempt) (r : retry_state) (s : shared)
  : option (list action * shared * loop_end) :=
  match fuel with
  | O => None
  | S fuel =>
    let n := re_calls r in
    let c := w_call w n (re_request r) in
    let s := w_during_call w n s in
    let acts := call_actions n (re_request r) c in
    let r := RetryState (re_request r) (re_zeroUsageAttempt r + 1) (re_transientRetryCount r) (S n) in
    match outcome_of (re_request r) c with
    | None => Some (acts, s, Aborted)
    | Some o =>
      let '(acts', s, v) := after_call t a r c o s in
      match v with
      | NextAttempt => Some (acts ++ acts', s, GoOn (re_calls r))
      | BreakOuter l => Some (acts ++ acts', s, Leave (re_calls r) l)
      | ReturnDone => Some (acts ++ acts', s, Done)
      | RetryCall delay r =>
        if w_delay_aborted w (re_calls r) then Some (acts ++ acts' ++ [Delay delay], s, Aborted)
        else
          '(acts'', s, e) ← retry_loop fuel t a r s;
          Some (acts ++ acts' ++ Delay delay :: acts'', s, e)
      end
    end
  end.

(** [applyDecisionToRequest]. *)
Definition applyDecisionToRequest (decision : router_decision) (request : model_request) : model_request :=
  let messages :=
    if mu_subagentTagStripped (rd_mutations decision)
    then stripSubagentTagFromMessages (rq_messages request) else rq_messages request in
  clampMaxOutputTokensToModelCap models
    (ModelRequest (rd_provider decision) (rd_model decision) messages (rq_tools request)
       (rq_maxOutputTokens request)).

Definition attempt_decision (index : nat) (ref : model_ref) (d : router_decision) : router_decision :=
  with_model (ref_provider ref) (ref_model ref)
    (if (index =? 0)%nat then rd_resolvedFrom d else ByFallback) d.

Definition attempt_request (p : attempt_plan) (d : router_decision) (request : model_request) : model_request :=
  let r := applyDecisionToRequest d request in
  if ap_downgrade p then downgradeRequestForAttempt models r (ap_attempt p) else r.

(** The subagent budget, and the error when an attempt's request is above it. *)
Definition over_budget (t : turn) (provider : string) (request : model_request) : option model_error :=
  budget ← (if rd_isSubagent (tu_decision t)
            then rc_autoOrchestrate config ≫= ao_subagentMaxTokens else None);
  let estimated := countMessagesTokens (rq_messages request) in
  if truthy_num (Some budget) && (budget <? estimated) then
    Some (ModelError provider None (protocolForProvider models provider) "subagent_budget_exceeded"
      ("Sub-agent budget exceeded (" +:+ pretty estimated +:+ " estimated tokens > " +:+ pretty budget
       +:+ " limit).") false false false None)
  else None.

(** After [break outer]: the turn has failed. *)
Definition finish_failure (t : turn) (plans : nat) (a : attempt) (calls : nat) (l : last_seen) (s : shared)
  : list action * shared :=
  let s := w_during_yield w calls s in
  let s := if isProviderFaultCode (er_code (ls_error l))
           then with_sessions (recordQualityFailure (slot_key t) (sh_sessions s)) s else s in
  let s := observeRoutingOutcome t Failure None s in
  let failUsage := final_usage (ls_usage l) (rq_messages (tu_request t)) (ls_buffered l) in
  let e := ls_error l in
  let replayed :=
    if ls_hasYieldedContent l then []
    else List.filter (λ ev, match ev with ErrorEvent _ => false | _ => true end) (ls_buffered l) in
  let final := ModelError (ref_provider (at_ref a)) (Some (ref_model (at_ref a))) (er_protocol e) (er_code e)
                 (er_message e) (er_retryable e) (er_recoverableViaCompact e)
                 (er_recoverableViaImageStrip e) (er_retryAfterMs e) in
  ([Emit (EvExecuteFailed (at_ref a) e);
    ObserveStats (stats_of t a failUsage (no_tokens (ls_usage l)) (Some (er_code e)) (plans - 1))]
   ++ map Yield replayed ++ [Yield (ErrorEvent final)], s).

(** How the generator ends: it returns after an answer, after a failure, or
    without either (the turn was aborted or is over its budget), or it throws
    because of an abort. *)
Inductive execute_end := Answered | Failed | Stopped | ThrewAbort.

Definition loop_fuel : nat := Z.to_nat (transientRetryMax + zeroUsageMax).

(** [outer: for (...)], from the attempt with index [index] on. *)
Fixpoint attempt_loop (t : turn) (total index calls : nat) (plans : list attempt_plan) (s : shared)
  : option (list action * shared * execute_end) :=
  match plans with
  | [] => Some ([], s, Stopped)
  | p :: plans' =>
    if w_aborted w calls then Some ([], s, Stopped)
    else
      let ref := ap_attempt p in
      let '(skip, s) :=
        if (0 <? index)%nat then
          let '(b, tracker) := shouldSkip health (w_clock w calls) (ref_provider ref) (sh_health s) in
          (b, with_health tracker s)
        else (false, s) in
      if skip && bool_decide (plans' ≠ []) then attempt_loop t total (S index) calls plans' s
      else
        let d := attempt_decision index ref (tu_decision t) in
        let request := attempt_request p d (tu_request t) in
        match over_budget t (ref_provider ref) request with
        | Some e => Some ([Yield (ErrorEvent e)], s, Stopped)
        | None =>
          let a := Attempt index ref d (ap_attempt <$> head plans') in
          '(acts, s, e) ← retry_loop loop_fuel t a (RetryState request 0 0 calls) s;
          match e with
          | Done => Some (acts, s, Answered)
          | Aborted => Some (acts, s, ThrewAbort)
          | GoOn calls =>
            '(acts', s, e) ← attempt_loop t total (S index) calls plans' s;
            Some (acts ++ acts', s, e)
          | Leave calls l =>
            let '(acts', s) := finish_failure t total a calls l s in
            Some (acts ++ acts', s, Failed)
          end
        end
  end.

(** The attempts of a turn. *)
Definition attempt_plans (d : router_decision) (request : model_request) : list attempt_plan :=
  let baseRequest := applyDecisionToRequest d request in
  let required := collectRequiredInputModalities (rq_messages baseRequest) in
  let candidates :=
    first_of_each [] (ref_of (rd_provider d) (rd_model d) :: planFallback (rc_fallback config) (rd_scenarioType d)) in
  buildAttemptPlans models candidates required.

(** [execute] with the router enabled. *)
Definition execute (t : turn) (s : shared) : option (list action * shared * execute_end) :=
  let plans := attempt_plans (tu_decision t) (tu_request t) in
  match plans with
  | [] =>
    let requested := ref_of (rd_provider (tu_decision t)) (rd_model (tu_decision t)) in
    let required := collectRequiredInputModalities
      (rq_messages (applyDecisionToRequest (tu_decision t) (tu_request t))) in
    let e := createUnsupportedMediaError requested (map modality_name required)
      (map modality_name (missingForModel models requested required))
      (protocolForProvider models (ref_provider requested)) in
    Some ([Emit (EvExecuteFailed requested e); Yield (ErrorEvent e)], s, Failed)
  | _ => attempt_loop t (length plans) 0 0 plans s
  end.

(** [execute] with the router disabled: the request is passed through. *)
Definition execute_passthrough (d : router_decision) (request : model_request) : list action * execute_end :=
  let r := ModelRequest (rd_provider d) (rd_model d) (rq_messages request) (rq_tools request)
             (rq_maxOutputTokens request) in
  let r := clampMaxOutputTokensToModelCap models
             (downgradeRequestForAttempt models r (ref_of (rd_provider d) (rd_model d))) in
  let c := w_call w 0 r in
  let events := CallModel 0 r :: map Yield (ca_events c) in
  match ca_end c with
  | StreamAborted => (events, ThrewAbort)
  | StreamEnds => (events, match last_error (ca_events c) with Some _ => Failed | None => Answered end)
  | StreamThrows th =>
    let sawErrorEvent := existsb (λ e, match e with ErrorEvent _ => true | _ => false end) (ca_events c) in
    (events ++ (if sawErrorEvent then []
                else [Yield (ErrorEvent (error_of_thrown models (rq_provider r) th))]), Failed)
  end.
End Execute.
