(* ===== verification/RouterRuns.v ===== *)
(** * What the consumer of a routed request sees

    Properties of the runs of [execute] (RouterExecute.v): which calls are
    made, for which models and how often, what is yielded of them, and that
    concurrency slots are given back. *)

From Stdlib Require Import QArith.
From S2P Require Import Prelude JsValue ProviderHealth RouterTypes RouterMedia RouterPolicy RouterSessions RouterRanker RouterExecute.
Open Scope Z_scope.

(** ** Reading a run *)

Definition yielded (a : action) : option model_event := match a with Yield e => Some e | _ => None end.
Definition called (a : action) : option (nat * model_request) :=
  match a with CallModel n r => Some (n, r) | _ => None end.

(** The events the consumer receives, and the calls of the model. *)
Definition yields (acts : list action) : list model_event := omap yielded acts.
Definition calls (acts : list action) : list (nat * model_request) := omap called acts.

Lemma yields_app l k : yields (l ++ k) = yields l ++ yields k.
Proof. apply omap_app. Qed.
Lemma calls_app l k : calls (l ++ k) = calls l ++ calls k.
Proof. apply omap_app. Qed.
Lemma yields_map l : yields (map Yield l) = l.
Proof. induction l as [|e l IH]; [done|]. unfold yields in *. cbn. by rewrite IH. Qed.
Lemma calls_map l : calls (map Yield l) = [].
Proof. induction l as [|e l IH]; [done|]. exact IH. Qed.

Create Rewrite HintDb runs.
#[export] Hint Rewrite yields_app calls_app yields_map calls_map @app_nil_r @map_app concat_app : runs.

(** Computes the events and calls of a concrete shape of actions. *)
Ltac read_run := autorewrite with runs; cbn [yields calls omap list_omap yielded called app]; autorewrite with runs.

(** ** The events of one call *)

Definition has_content (events : list model_event) : bool := existsb isContentEvent events.

Lemma deliver_app events : ∀ out pending has,
  foldl deliver_step (out, pending, has) events =
  if (has : bool) then (out ++ events, pending, true)
  else if has_content events then (out ++ pending ++ events, [], true)
  else (out, pending ++ events, false).
Proof.
  unfold has_content. induction events as [|e l IH]; intros out pending has; cbn [foldl existsb].
  - destruct has; by rewrite !app_nil_r.
  - destruct has; cbn [deliver_step negb andb]; [rewrite IH; by rewrite <- app_assoc|].
    destruct (isContentEvent e); cbn [orb]; rewrite IH; [by rewrite <- !app_assoc|].
    destruct (existsb isContentEvent l); by rewrite <- !app_assoc.
Qed.

Lemma deliver_spec events :
  deliver events = if has_content events then (events, [], true) else ([], events, false).
Proof. unfold deliver. by rewrite deliver_app. Qed.

Section Runs.
Context `{Tokenizer, Random, Sha1}.
Context (models : model_config) (config : router_config) (health : tracker_config)
        (store : store_options) (w : world).

(** What a call shows once it is abandoned: everything, or nothing. *)
Definition shown (call : nat * model_request) : list model_event :=
  let events := ca_events (w_call w call.1 call.2) in
  if has_content events then events else [].

(** A call that broke off: it has reported an error. *)
Definition interrupted (call : nat * model_request) : bool :=
  match outcome_of models config call.2 (w_call w call.1 call.2) with
  | Some o => match ao_error o with Some _ => true | None => false end
  | None => true
  end.

(** What was shown of the calls. *)
Definition shown_of (acts : list action) : list model_event := concat (map shown (calls acts)).

Lemma shown_of_app l k : shown_of (l ++ k) = shown_of l ++ shown_of k.
Proof. unfold shown_of. by autorewrite with runs. Qed.

(** The calls of a run that showed something were interrupted. *)
Definition broken (acts : list action) : Prop :=
  Forall (λ c, shown c = [] ∨ interrupted c = true) (calls acts).

Lemma broken_app l k : broken (l ++ k) ↔ broken l ∧ broken k.
Proof. unfold broken. by rewrite calls_app, Forall_app. Qed.

Lemma broken_nil acts : calls acts = [] → broken acts.
Proof. unfold broken. intros ->. constructor. Qed.

Lemma call_actions_read n r :
  let c := w_call w n r in
  let acts := call_actions config n r c in
  yields acts = (if has_content (delivered_events config c) then delivered_events config c else []) ∧
  yields acts = shown_of acts ∧
  (calls acts = [(n, r)] ∧ delivered_events config c = ca_events c ∨
   calls acts = [] ∧ ∀ o, outcome_of models config r c = Some o → is_Some (ao_error o)).
Proof.
  cbn zeta. unfold call_actions, shown_of, outcome_of. rewrite deliver_spec. unfold delivered_events.
  destruct (gated config); [destruct (ca_slot (w_call w n r))|].
  2-3: split; [done|split; [done|right; split; [done|]]]; intros o [= <-]; eauto.
  all: destruct (has_content _) eqn:Hc; read_run; unfold shown; cbn [map concat fst snd]; rewrite Hc.
  all: split; [done|split; [|by left]]; read_run; rewrite ?yields_map; by autorewrite with runs.
Qed.

(** ** After a call *)

Lemma outcome_buffered q c o :
  outcome_of models config q c = Some o → ao_buffered o = delivered_events config c.
Proof.
  unfold outcome_of, delivered_events. destruct (if gated config then ca_slot c else SlotGranted); [|by intros [= <-]|done].
  by destruct (ca_end c); intros [= <-].
Qed.

(** The retries still possible. *)
Definition budget (r : retry_state) : Z :=
  (transientRetryMax config - re_transientRetryCount r) + Z.max 1 (zeroUsageMax config - re_zeroUsageAttempt r).

(** The loop's counter is raised before the call. *)
Definition raise (r : retry_state) : retry_state :=
  RetryState (re_request r) (re_zeroUsageAttempt r + 1) (re_transientRetryCount r) (S (re_calls r)).

Definition same_target (q q' : model_request) : Prop := rq_provider q' = rq_provider q ∧ rq_model q' = rq_model q.

Lemma record_failure_read a r e s :
  yields (record_failure config health w a r e s).1 = [] ∧ calls (record_failure config health w a r e s).1 = [].
Proof.
  unfold record_failure. destruct (getState _ _ _ _) as [state tr]. cbn [fst].
  destruct (gated config); case_bool_decide; done.
Qed.

Lemma after_error_read a r o e pending has :
  re_transientRetryCount r <= transientRetryMax config →
  let '(acts, v) := after_error config a r o e pending has in
  calls acts = [] ∧
  match v with
  | NextAttempt => yields acts = [] ∧ has = false ∧ is_Some (at_next a)
  | RetryCall _ r' =>
    yields acts = [] ∧ same_target (re_request r) (re_request r') ∧ re_calls r' = re_calls r ∧
    budget r' = budget r - 1 ∧ re_transientRetryCount r' <= transientRetryMax config
  | BreakOuter l => yields acts = pending ∧ l = LastSeen (ao_buffered o) e (ao_usage o) has
  | ReturnDone => False
  end.
Proof.
  intros Hle. unfold after_error.
  assert (∀ q, budget (count_transient q r) = budget r - 1) as Hb by (intros q; unfold budget; cbn; lia).
  destruct (Z.ltb_spec (re_transientRetryCount r) (transientRetryMax config)) as [Hlt|Hge].
  all: destruct (negb has && isFallbackEligible e) eqn:Hf; [destruct (at_next a) as [next|] eqn:Hn|].
  all: repeat match goal with
       | |- context [if ?b then _ else _] => destruct b eqn:?
       end; cbn [negb andb] in *; try discriminate.
  all: read_run; repeat split; try done; try (cbn; lia); try (by destruct has).
  all: try (rewrite Hb; done).
  all: by destruct has, (isFallbackEligible e).
Qed.

Lemma finish_success_read t a r o pending has s :
  let '(acts, _) := finish_success health w t a r o pending has s in
  calls acts = [] ∧ yields acts = if (has : bool) then [] else pending.
Proof. unfold finish_success. destruct has; read_run; done. Qed.

Lemma after_call_read t a r q c o s :
  outcome_of models config q c = Some o → re_transientRetryCount r <= transientRetryMax config →
  let '(acts, s', v) := after_call config health w t a (raise r) c o s in
  let has := has_content (delivered_events config c) in
  calls acts = [] ∧
  match v with
  | NextAttempt => yields acts = [] ∧ has = false ∧ is_Some (at_next a)
  | RetryCall _ r' =>
    yields acts = [] ∧ (has = false ∨ is_Some (ao_error o)) ∧
    same_target (re_request r) (re_request r') ∧ re_calls r' = S (re_calls r) ∧
    budget r' <= budget r - 1 ∧ re_transientRetryCount r' <= transientRetryMax config
  | BreakOuter l =>
    yields acts = (if has then [] else delivered_events config c) ∧
    (∃ e, ao_error o = Some e ∧ l = LastSeen (delivered_events config c) e (ao_usage o) has)
  | ReturnDone => yields acts = (if has then [] else delivered_events config c) ∧ ao_error o = None
  end.
Proof.
  intros Ho Hle. unfold after_call. rewrite deliver_spec. apply outcome_buffered in Ho as Hbuf.
  set (ev := delivered_events config c) in *. set (has := has_content ev).
  replace (if has then (ev, [], true) else ([], ev, false))
    with ((if has then ev else []) : list model_event, (if has then [] else ev) : list model_event, has) by by destruct has.
  destruct (ao_error o) as [e|] eqn:He.
  - destruct (record_failure _ _ _ _ _ _ _) as [acts s1] eqn:Hrec.
    pose proof (record_failure_read a (raise r) e s) as [Hy Hc]. rewrite Hrec in Hy, Hc. cbn [fst] in Hy, Hc.
    pose proof (after_error_read a (raise r) o e (if has then [] else ev) has Hle) as Ha.
    destruct (after_error _ _ _ _ _ _ _) as [acts' v]. destruct Ha as [Hc' Hv].
    rewrite yields_app, calls_app, Hy, Hc, Hc'. cbn [app]. split; [done|].
    destruct v as [|d r'|l|]; [done| | |done].
    + destruct Hv as (Hy' & Ht & Hn & Hb & Hr).
      split_and!; [done|by right|done|done| |done].
      unfold budget in *. cbn [raise re_transientRetryCount re_zeroUsageAttempt] in *. lia.
    + destruct Hv as [-> ->]. split; [done|]. exists e. by rewrite Hbuf.
  - destruct (negb has && zeroUsageEnabled config && ao_shouldRetryZeroUsage o &&
      (re_zeroUsageAttempt (raise r) <? zeroUsageMax config)) eqn:Hz.
    + apply andb_true_iff in Hz as [Hz Hlt%Z.ltb_lt]. apply andb_true_iff in Hz as [Hz _].
      apply andb_true_iff in Hz as [Hz _]. apply negb_true_iff in Hz. cbn [raise re_zeroUsageAttempt] in Hlt.
      read_run. split; [done|]. split_and!; [done|by left|done|done| |done]. unfold budget. cbn. lia.
    + pose proof (finish_success_read t a (raise r) o (if has then [] else ev) has s) as Hs.
      destruct (finish_success _ _ _ _ _ _ _ _ _) as [acts s1]. destruct Hs as [Hc Hy].
      split; [done|]. split; [|done]. rewrite Hy. by destruct has.
Qed.

(** ** The retry loop *)

(** What a run of the retry loop has shown by the time it ends. *)
Definition loop_read (a : attempt) (acts : list action) (e : loop_end) : Prop :=
  match e with
  | Done => ∃ front n q, calls acts = front ++ [(n, q)] ∧
      Forall (λ c, shown c = [] ∨ interrupted c = true) front ∧
      yields acts = concat (map shown front) ++ ca_events (w_call w n q)
  | GoOn _ => broken acts ∧ yields acts = shown_of acts ∧ is_Some (at_next a)
  | Leave _ l => broken acts ∧ yields acts = shown_of acts ++ (if ls_hasYieldedContent l then [] else ls_buffered l) ∧
      (ls_hasYieldedContent l = false → has_content (ls_buffered l) = false)
  | Aborted => broken acts ∧ yields acts = shown_of acts
  end.

(** Calls that showed what they were to show, put before a run. *)
Lemma loop_read_app a acts acts' e :
  broken acts → yields acts = shown_of acts → loop_read a acts' e → loop_read a (acts ++ acts') e.
Proof.
  intros Hb Hy. destruct e as [n|n l| |]; cbn [loop_read];
    rewrite ?broken_app, ?yields_app, ?shown_of_app, ?calls_app, Hy.
  - intros (Hb' & -> & ?). done.
  - intros (Hb' & -> & ?). by rewrite app_assoc.
  - intros (front & n & q & -> & Hf & ->). exists (calls acts ++ front), n, q.
    rewrite !app_assoc. split; [done|]. split; [apply Forall_app; done|].
    by rewrite map_app, concat_app.
  - intros (Hb' & ->). done.
Qed.

Lemma call_broken n r :
  (has_content (delivered_events config (w_call w n r)) = false ∨
   ∃ o, outcome_of models config r (w_call w n r) = Some o ∧ is_Some (ao_error o)) ∨
  outcome_of models config r (w_call w n r) = None →
  broken (call_actions config n r (w_call w n r)).
Proof.
  intros Ho. pose proof (call_actions_read n r) as (Hy & Hs & [[Hc _]|[Hc _]]); [|by apply broken_nil].
  unfold broken. rewrite Hc. constructor; [|constructor]. unfold interrupted. cbn [fst snd].
  destruct Ho as [[Hno|(o & -> & [e ->])]| ->]; [|by right|by right].
  left. cbn zeta in Hy. rewrite Hno in Hy. unfold shown_of in Hs. rewrite Hc, Hy in Hs.
  cbn [map concat] in Hs. by rewrite app_nil_r in Hs.
Qed.

Lemma same_target_trans q1 q2 q3 : same_target q1 q2 → same_target q2 q3 → same_target q1 q3.
Proof. intros [? ?] [? ?]. split; congruence. Qed.

Lemma retry_loop_read t a fuel : ∀ r s,
  budget r <= Z.of_nat fuel → re_transientRetryCount r <= transientRetryMax config →
  ∃ acts s' e, retry_loop models config health w fuel t a r s = Some (acts, s', e) ∧
    Forall (λ c, same_target (re_request r) c.2) (calls acts) ∧
    Z.of_nat (length (calls acts)) <= budget r ∧ loop_read a acts e.
Proof.
  induction fuel as [|fuel IH]; intros r s Hfuel Htc; [unfold budget in Hfuel; lia|].
  cbn [retry_loop]. set (n := re_calls r). set (q := re_request r).
  change (RetryState q (re_zeroUsageAttempt r + 1) (re_transientRetryCount r) (S n)) with (raise r).
  change (re_request (raise r)) with q.
  set (s1 := w_during_call w n s). pose proof (call_actions_read n q) as (Hy & Hs & Hc). cbn zeta in Hy.
  pose proof (call_broken n q) as Hbr.
  set (acts := call_actions config n q (w_call w n q)) in *.
  assert (Forall (λ c, same_target q c.2) (calls acts)) as Htarget.
  { destruct Hc as [[-> _]|[-> _]]; [|constructor]. by repeat constructor. }
  assert (Z.of_nat (length (calls acts)) <= 1) as Hone.
  { destruct Hc as [[-> _]|[-> _]]; cbn; lia. }
  assert (1 <= budget r) as Hpos by (unfold budget; lia).
  destruct (outcome_of models config q (w_call w n q)) as [o|] eqn:Ho.
  2: { exists acts, s1, Aborted. cbn [loop_read]. split_and!; [done|done|lia| |done]. apply Hbr. by right. }
  pose proof (after_call_read t a r q (w_call w n q) o s1 Ho Htc) as Hv.
  destruct (after_call _ _ _ _ _ _ _ _ _) as [[acts' s2] v]. destruct Hv as [Hc' Hv].
  assert (calls (acts ++ acts') = calls acts) as Hcc by (by rewrite calls_app, Hc', app_nil_r).
  destruct v as [|delay r'|l|].
  - destruct Hv as (Hy' & Hno & Hnext). eexists _, _, _. split; [done|]. rewrite Hcc. split_and!; [done|lia|].
    cbn [loop_read]. split_and!; [|rewrite yields_app, shown_of_app, Hy', app_nil_r, Hs|done].
    + apply broken_app. split; [apply Hbr; left; by left | by apply broken_nil].
    + unfold shown_of at 3. by rewrite Hc', app_nil_r.
  - destruct Hv as (Hy' & Hno & Ht & Hn & Hb & Htc'). fold n in Hn. rewrite Hn.
    assert (broken (acts ++ acts' ++ [Delay delay]) ∧
            yields (acts ++ acts' ++ [Delay delay]) = shown_of (acts ++ acts' ++ [Delay delay]) ∧
            calls (acts ++ acts' ++ [Delay delay]) = calls acts) as (Hb1 & Hy1 & Hc1).
    { rewrite !broken_app, !yields_app, !shown_of_app, !calls_app, Hy', Hc', Hs. unfold shown_of at 3 4.
      rewrite Hc'. cbn [calls yields omap list_omap called yielded map concat]. rewrite !app_nil_r.
      split_and!; [|by apply broken_nil|by apply broken_nil|done|done].
      apply Hbr. left. destruct Hno as [?|?]; [by left|right; by exists o]. }
    destruct (w_delay_aborted w (S n)).
    + eexists _, _, _. split; [done|]. rewrite Hc1. split_and!; [done|lia|]. by cbn [loop_read].
    + destruct (IH r' s2) as (acts2 & s3 & e & -> & Ht2 & Hl2 & Hr2); [lia|done|].
      cbn [mbind option_bind]. eexists _, _, _. split; [done|].
      replace (acts ++ acts' ++ Delay delay :: acts2) with ((acts ++ acts' ++ [Delay delay]) ++ acts2)
        by by rewrite <- !app_assoc.
      rewrite calls_app, Hc1, Forall_app, length_app. split_and!; [done| |lia|by apply loop_read_app].
      eapply Forall_impl; [exact Ht2|]. intros c. by apply same_target_trans.
  - destruct Hv as (Hy' & e & He & ->). eexists _, _, _. split; [done|]. rewrite Hcc. split_and!; [done|lia|].
    cbn [loop_read ls_hasYieldedContent ls_buffered]. split; [|split; [|done]].
    + apply broken_app. split; [apply Hbr; left; right; exists o; by rewrite He | by apply broken_nil].
    + rewrite yields_app, shown_of_app, Hy', Hs. unfold shown_of at 3. rewrite Hc'. cbn [map concat].
      by rewrite app_nil_r.
  - destruct Hv as (Hy' & He). eexists _, _, _. split; [done|]. rewrite Hcc. split_and!; [done|lia|].
    destruct Hc as [[Hc1 Hd]|[_ Hc]]; [|by destruct (Hc o eq_refl) as [? ?]; simplify_eq].
    cbn [loop_read]. exists [], n, q. split_and!; [by rewrite Hcc, Hc1|constructor|].
    cbn [map concat app]. rewrite yields_app, Hy, Hy', Hd. destruct (has_content (ca_events (w_call w n q))); [by rewrite app_nil_r|done].
Qed.

(** ** The attempts *)

Definition target (q : model_request) : string * string := (rq_provider q, rq_model q).

Lemma clamp_target q : target (clampMaxOutputTokensToModelCap models q) = target q.
Proof.
  unfold clampMaxOutputTokensToModelCap. destruct (rq_maxOutputTokens q); [|done].
  destruct (getCapabilities_maxOutputTokens _ _ _); [|done]. by destruct (_ && _).
Qed.

Lemma attempt_target index p d q :
  target (attempt_request models p (attempt_decision index (ap_attempt p) d) q) = model_key (ap_attempt p).
Proof.
  unfold attempt_request, downgradeRequestForAttempt. destruct (ap_downgrade p).
  1: destruct (getMultimodal _ _ _).
  all: cbn [target with_messages rq_provider rq_model].
  all: apply (clamp_target (ModelRequest _ _ _ _ _)).
Qed.

(** What a run of the attempts has shown by the time it ends. *)
Definition turn_read (t : turn) (acts : list action) (e : execute_end) : Prop :=
  match e with
  | Answered => ∃ front n q, calls acts = front ++ [(n, q)] ∧
      Forall (λ c, shown c = [] ∨ interrupted c = true) front ∧
      yields acts = concat (map shown front) ++ ca_events (w_call w n q)
  | Failed => broken acts ∧ ∃ l final,
      yields acts = shown_of acts ++
        (if ls_hasYieldedContent l then []
         else ls_buffered l ++ List.filter (λ ev, match ev with ErrorEvent _ => false | _ => true end) (ls_buffered l))
        ++ [ErrorEvent final] ∧
      (ls_hasYieldedContent l = false → has_content (ls_buffered l) = false)
  | Stopped => broken acts ∧
      ((∃ n, w_aborted w n = true) ∧ yields acts = shown_of acts ∨
       rd_isSubagent (tu_decision t) = true ∧
       ∃ e, er_code e = "subagent_budget_exceeded" ∧ yields acts = shown_of acts ++ [ErrorEvent e])
  | ThrewAbort => broken acts ∧ yields acts = shown_of acts
  end.

Lemma turn_read_app t acts acts' e :
  broken acts → yields acts = shown_of acts → turn_read t acts' e → turn_read t (acts ++ acts') e.
Proof.
  intros Hb Hy. destruct e; cbn [turn_read];
    rewrite ?broken_app, ?yields_app, ?shown_of_app, ?calls_app, Hy.
  - intros (front & n & q & -> & Hf & ->). exists (calls acts ++ front), n, q.
    rewrite !app_assoc. split; [done|]. split; [apply Forall_app; done|].
    by rewrite map_app, concat_app.
  - intros (Hb' & l & final & -> & Hno). split; [done|]. exists l, final. by rewrite app_assoc.
  - intros (Hb' & [[Ha ->]|(Hs & er & Her & ->)]); (split; [done|]); [by left|right].
    split; [done|]. exists er. by rewrite app_assoc.
  - intros (Hb' & ->). done.
Qed.

Lemma finish_failure_read t plans a n l s :
  let acts := (finish_failure w t plans a n l s).1 in
  calls acts = [] ∧ ∃ final, yields acts =
    (if ls_hasYieldedContent l then []
     else List.filter (λ ev, match ev with ErrorEvent _ => false | _ => true end) (ls_buffered l)) ++ [ErrorEvent final].
Proof.
  cbn zeta. unfold finish_failure. cbn [fst]. read_run. split; [done|]. eexists.
  destruct (ls_hasYieldedContent l); done.
Qed.

(** The models called for each attempt. *)
Definition follows (acts : list action) (plans : list attempt_plan) : Prop :=
  ∃ counts, length counts = length plans ∧
    Forall (λ k, Z.of_nat k <= transientRetryMax config + zeroUsageMax config) counts ∧
    map (λ c, target c.2) (calls acts) =
      concat (zip_with (λ k p, replicate k (model_key (ap_attempt p))) counts plans).

Lemma follows_none acts plans : calls acts = [] → follows acts plans.
Proof.
  intros Hc. exists (replicate (length plans) O). rewrite length_replicate, Hc. split_and!; [done| |].
  - apply Forall_replicate. unfold transientRetryMax, zeroUsageMax. lia.
  - induction plans as [|p plans IH]; [done|]. cbn. exact IH.
Qed.

Lemma follows_cons p acts acts' plans :
  Forall (λ c, target c.2 = model_key (ap_attempt p)) (calls acts) →
  Z.of_nat (length (calls acts)) <= transientRetryMax config + zeroUsageMax config →
  follows acts' plans → follows (acts ++ acts') (p :: plans).
Proof.
  intros Hp Hl (counts & Hlen & Hle & Hmap). exists (length (calls acts) :: counts). split_and!.
  - cbn. by rewrite Hlen.
  - by constructor.
  - cbn [zip_with concat]. rewrite calls_app, map_app, Hmap. f_equal. clear -Hp.
    induction Hp as [|c l Hc _ IH]; [done|]. cbn. by rewrite Hc, IH.
Qed.

Lemma loop_budget q n : budget (RetryState q 0 0 n) <= Z.of_nat (loop_fuel config).
Proof. unfold budget, loop_fuel, transientRetryMax, zeroUsageMax. cbn. lia. Qed.

Lemma attempt_loop_read t total plans : ∀ index n s,
  plans ≠ [] →
  ∃ acts s' e, attempt_loop models config health w t total index n plans s = Some (acts, s', e) ∧
    follows acts plans ∧ turn_read t acts e.
Proof.
  induction plans as [|p plans IH]; intros index n s; [done|]. intros _. cbn [attempt_loop].
  destruct (w_aborted w n) eqn:Hab.
  { exists [], s, Stopped. split; [done|]. split; [by apply follows_none|]. cbn. split; [constructor|].
    left. split; [by exists n|done]. }
  destruct (if (0 <? index)%nat then _ else _) as [skip s1].
  destruct (skip && bool_decide (plans ≠ [])) eqn:Hskip.
  { apply andb_true_iff in Hskip as [_ Hp%bool_decide_eq_true].
    destruct (IH (S index) n s1 Hp) as (acts & s' & e & -> & Hf & Hr). exists acts, s', e.
    split; [done|]. split; [|done]. change acts with ([] ++ acts). apply follows_cons; [constructor| |done].
    cbn. unfold transientRetryMax, zeroUsageMax. lia. }
  set (q := attempt_request _ _ _ _). set (d := attempt_decision _ _ _) in *.
  destruct (over_budget models config t (ref_provider (ap_attempt p)) q) as [e|] eqn:Hbud.
  { eexists _, _, _. split; [done|]. split; [by apply follows_none|]. cbn [turn_read].
    split; [by apply broken_nil|]. right. unfold over_budget in Hbud.
    destruct (rd_isSubagent (tu_decision t)); [|done]. split; [done|].
    destruct (rc_autoOrchestrate config ≫= ao_subagentMaxTokens); [|done]. cbn [mbind option_bind] in Hbud.
    repeat case_match; [|done..]. injection Hbud as <-. eexists. split; [|reflexivity]. done. }
  set (a := Attempt index (ap_attempt p) d (ap_attempt <$> head plans)).
  destruct (retry_loop_read t a (loop_fuel config) (RetryState q 0 0 n) s1) as (acts & s2 & e & -> & Ht & Hl & Hr).
  { apply loop_budget. }
  { cbn. unfold transientRetryMax. lia. }
  cbn [mbind option_bind].
  assert (∀ acts', calls acts' = [] ∨ follows acts' plans → follows (acts ++ acts') (p :: plans)) as Hfol.
  { intros acts' Hacts'. apply follows_cons.
    - eapply Forall_impl; [exact Ht|]. intros c [Hp Hm]. cbn [re_request] in Hp, Hm. unfold target.
      rewrite Hp, Hm. apply attempt_target.
    - unfold budget in Hl. cbn in Hl. unfold transientRetryMax, zeroUsageMax in *. lia.
    - destruct Hacts' as [?|?]; [by apply follows_none|done]. }
  destruct e as [n'|n' l| |]; cbn [loop_read] in Hr.
  - destruct Hr as (Hb & Hy & Hnext). assert (plans ≠ []) as Hp by (intros ->; by destruct Hnext).
    destruct (IH (S index) n' s2 Hp) as (acts' & s3 & e & -> & Hf & Hr'). cbn [mbind option_bind].
    eexists _, _, _. split; [done|]. split; [by apply Hfol; right|]. by apply turn_read_app.
  - destruct Hr as (Hb & Hy & Hno). pose proof (finish_failure_read t total a n' l s2) as (Hc & final & Hy').
    destruct (finish_failure _ _ _ _ _ _ _) as [acts' s3]. cbn [fst] in Hc, Hy'.
    eexists _, _, _. split; [done|]. split; [by apply Hfol; left|]. cbn [turn_read]. split.
    + apply broken_app. split; [done|by apply broken_nil].
    + exists l, final. split; [|done]. assert (shown_of acts' = []) as Hs by (unfold shown_of; by rewrite Hc).
      rewrite yields_app, shown_of_app, Hy, Hy', Hs, app_nil_r, <- !app_assoc. destruct (ls_hasYieldedContent l); by rewrite <- ?app_assoc.
  - eexists _, _, _. split; [done|]. split; [|done]. rewrite <- (app_nil_r acts). apply Hfol. by left.
  - eexists _, _, _. split; [done|]. split; [|done]. rewrite <- (app_nil_r acts). apply Hfol. by left.
Qed.

(** ** A whole turn *)

Lemma execute_read t s :
  ∃ acts s' e, execute models config health w t s = Some (acts, s', e) ∧
    follows acts (attempt_plans models config (tu_decision t) (tu_request t)) ∧ turn_read t acts e.
Proof.
  unfold execute. destruct (attempt_plans models config (tu_decision t) (tu_request t)) as [|p plans] eqn:Hp.
  - exfalso. revert Hp. apply plans_nonempty.
  - by apply attempt_loop_read.
Qed.

(** ** Concurrency slots *)

(** Follows the slot the turn holds; [None] when it takes a second one, gives
    one back that it does not hold, or calls a model without its slot. *)
Fixpoint slots (held : option string) (acts : list action) : option (option string) :=
  match acts with
  | [] => Some held
  | AcquireSlot p :: l => match held with None => slots (Some p) l | Some _ => None end
  | ReleaseSlot p :: l => if bool_decide (held = Some p) then slots None l else None
  | CallModel _ r :: l =>
    if negb (gated config) || bool_decide (held = Some (rq_provider r)) then slots held l else None
  | _ :: l => slots held l
  end.

Lemma slots_app held l k : slots held (l ++ k) = held' ← slots held l; slots held' k.
Proof.
  revert held. induction l as [|a l IH]; intros held; [done|].
  destruct a; cbn [slots app]; try apply IH.
  - by destruct held.
  - by case_bool_decide.
  - by destruct (_ || _).
Qed.

Definition no_slots (acts : list action) : Prop :=
  Forall (λ a, match a with AcquireSlot _ | ReleaseSlot _ | CallModel _ _ => False | _ => True end) acts.

Lemma slots_neutral held acts : no_slots acts → slots held acts = Some held.
Proof. induction 1 as [|a l Ha _ IH]; [done|]. by destruct a. Qed.

Lemma no_slots_yields l : no_slots (map Yield l).
Proof. induction l; by constructor. Qed.

Lemma no_slots_app l k : no_slots l → no_slots k → no_slots (l ++ k).
Proof. intros. by apply Forall_app. Qed.

Lemma call_actions_slots n r c : slots None (call_actions config n r c) = Some None.
Proof.
  unfold call_actions. destruct (deliver _) as [[out pending] has].
  destruct (gated config) eqn:Hg; [destruct (ca_slot c); [|done..]|].
  - cbn [app slots]. rewrite bool_decide_true by done. rewrite orb_true_r, slots_app, slots_neutral by apply no_slots_yields.
    cbn. by rewrite bool_decide_true.
  - cbn [slots]. rewrite Hg. cbn. by apply slots_neutral, no_slots_yields.
Qed.

Lemma record_failure_slots a r e s : no_slots (record_failure config health w a r e s).1.
Proof.
  unfold record_failure. destruct (getState _ _ _ _) as [state tr]. cbn [fst].
  apply no_slots_app; [destruct (gated config)|case_bool_decide]; by repeat constructor.
Qed.

Lemma after_error_slots a r o e pending has : no_slots (after_error config a r o e pending has).1.
Proof.
  unfold after_error. repeat case_match; cbn [fst]; simplify_eq; try apply no_slots_yields; by repeat constructor.
Qed.

Lemma after_call_slots t a r c o s : no_slots (after_call config health w t a r c o s).1.1.
Proof.
  unfold after_call. destruct (deliver _) as [[out pending] has]. destruct (ao_error o) as [e|].
  - pose proof (record_failure_slots a r e s) as Hrec. destruct (record_failure _ _ _ _ _ _ _) as [acts s1].
    pose proof (after_error_slots a r o e pending has) as Herr. destruct (after_error _ _ _ _ _ _ _) as [acts' v].
    by apply no_slots_app.
  - case_match; [by repeat constructor|]. unfold finish_success. cbn [fst].
    apply no_slots_app; [|by repeat constructor]. destruct has; [constructor|apply no_slots_yields].
Qed.

Lemma retry_loop_slots t a fuel : ∀ r s acts s' e,
  retry_loop models config health w fuel t a r s = Some (acts, s', e) → slots None acts = Some None.
Proof.
  induction fuel as [|fuel IH]; intros r s acts s' e; [done|]. cbn [retry_loop].
  pose proof (call_actions_slots (re_calls r) (re_request r) (w_call w (re_calls r) (re_request r))) as Hcall.
  set (call := call_actions _ _ _ _) in *.
  destruct (outcome_of _ _ _ _) as [o|]; [|by intros [= <- <- <-]].
  match goal with |- context [after_call ?c ?h ?w ?t ?a ?r ?x ?o ?s] =>
    pose proof (after_call_slots t a r x o s) as Hac; destruct (after_call c h w t a r x o s) as [[acts1 s1] v] end.
  cbn [fst] in Hac.
  assert (∀ l, slots None (call ++ acts1 ++ l) = slots None l) as Hpre.
  { intros l. rewrite slots_app, Hcall. cbn [mbind option_bind]. by rewrite slots_app, slots_neutral. }
  assert (slots None (call ++ acts1) = Some None) as Hpre0.
  { specialize (Hpre []). by rewrite app_nil_r in Hpre. }
  destruct v as [|delay r'|l|]; [by intros [= <- <- <-]| |by intros [= <- <- <-]..].
  destruct (w_delay_aborted _ _); [intros [= <- <- <-]; by rewrite Hpre|].
  destruct (retry_loop _ _ _ _ _ _ _ _ _) as [[[acts2 s2] e2]|] eqn:Hl; [|done]. cbn [mbind option_bind].
  intros [= <- <- <-]. rewrite Hpre. cbn [slots]. by eapply IH.
Qed.

Lemma attempt_loop_slots t total plans : ∀ index n s acts s' e,
  attempt_loop models config health w t total index n plans s = Some (acts, s', e) → slots None acts = Some None.
Proof.
  induction plans as [|p plans IH]; intros index n s acts s' e; cbn [attempt_loop]; [by intros [= <- <- <-]|].
  destruct (w_aborted w n); [by intros [= <- <- <-]|].
  destruct (if (0 <? index)%nat then _ else _) as [skip s1].
  destruct (skip && _); [apply IH|].
  destruct (over_budget _ _ _ _ _); [by intros [= <- <- <-]|].
  destruct (retry_loop _ _ _ _ _ _ _ _ _) as [[[acts1 s2] e1]|] eqn:Hl; [|done]. cbn [mbind option_bind].
  apply retry_loop_slots in Hl. destruct e1 as [n'|n' l| |]; [| |by intros [= <- <- <-]..].
  - destruct (attempt_loop _ _ _ _ _ _ _ _ _ _) as [[[acts2 s3] e2]|] eqn:Hl2; [|done]. cbn [mbind option_bind].
    intros [= <- <- <-]. rewrite slots_app, Hl. cbn. by eapply IH.
  - destruct (finish_failure _ _ _ _ _ _ _) as [acts2 s3] eqn:Hf. intros [= <- <- <-].
    rewrite slots_app, Hl. cbn [mbind option_bind]. apply slots_neutral. unfold finish_failure in Hf. injection Hf as <- _.
    constructor; [done|]. constructor; [done|]. apply no_slots_app; [apply no_slots_yields|by repeat constructor].
Qed.
End Runs.
