(* ===== verification/RouterProperties.v ===== *)
(** * Properties of routed requests

    The theorems about [execute] (RouterExecute.v), with a small outside world
    for their witnesses and for the executions that show where the router
    repeats itself. *)

From Stdlib Require Import QArith.
From S2P Require Import Prelude JsValue ProviderHealth RouterTypes RouterMedia RouterPolicy RouterSessions RouterRanker RouterExecute RouterRuns.
Open Scope Z_scope.

(** ** The session slot of a turn *)

Lemma record_own o key m :
  jm_get key (recordQualityFailure key m) = own_step o key (jm_get key m) (OpRecordFailure key).
Proof.
  unfold recordQualityFailure, own_step. rewrite bool_decide_true by done.
  destruct (jm_get key m) as [s|] eqn:Hk; [by rewrite jm_get_set_eq | by rewrite Hk].
Qed.

Lemma reset_own o key m :
  jm_get key (resetQualityFailures key m) = own_step o key (jm_get key m) (OpResetFailures key).
Proof.
  unfold resetQualityFailures, own_step. rewrite bool_decide_true by done.
  destruct (jm_get key m) as [s|] eqn:Hk; [|by rewrite Hk]. cbn.
  destruct (_ =? 0); [by rewrite Hk | by rewrite jm_get_set_eq].
Qed.

Section Slot.
Context `{Tokenizer, Random, Sha1}.
Context (models : model_config) (config : router_config) (health : tracker_config)
        (store : store_options) (w : world) (t : turn).

Definition slot_of (s : shared) : option slot := jm_get (slot_key t) (sh_sessions s).

(** Other sessions leave the turn's slot alone. *)
Definition undisturbed : Prop :=
  ∀ n s, slot_of (w_during_call w n s) = slot_of s ∧ slot_of (w_during_yield w n s) = slot_of s.

Hypothesis Hquiet : undisturbed.

Lemma observeRoutingOutcome_sessions x c s : sh_sessions (observeRoutingOutcome t x c s) = sh_sessions s.
Proof. unfold observeRoutingOutcome. by destruct (tu_pending t) as [[? ?]|]. Qed.

(** What the end of the retry loop has done to the slot. *)
Definition loop_slot (a : attempt) (acts : list action) (s s' : shared) (e : loop_end) : Prop :=
  match e with
  | Done => ∃ r, last acts = Some (ObserveStats r) ∧ sx_fallbacks r = at_index a ∧
      slot_of s' = if (at_index a =? 0)%nat
                   then own_step store (slot_key t) (slot_of s) (OpResetFailures (slot_key t)) else slot_of s
  | _ => slot_of s' = slot_of s
  end.

Lemma record_failure_slot a r e s : slot_of (record_failure config health w a r e s).2 = slot_of s.
Proof. unfold record_failure. by destruct (getState _ _ _ _) as [state tr]. Qed.

Lemma finish_success_slot a r o pending has s :
  let '(acts, s') := finish_success health w t a r o pending has s in
  ∃ x, last acts = Some (ObserveStats x) ∧ sx_fallbacks x = at_index a ∧
    slot_of s' = if (at_index a =? 0)%nat
                 then own_step store (slot_key t) (slot_of s) (OpResetFailures (slot_key t)) else slot_of s.
Proof.
  unfold finish_success. set (s1 := w_during_yield _ _ _).
  assert (slot_of s1 = slot_of s) as Hs by (unfold s1; by rewrite (proj2 (Hquiet _ _))).
  eexists. split; [by apply last_snoc|]. split; [done|]. destruct (at_index a =? 0)%nat.
  - unfold slot_of in *. rewrite observeRoutingOutcome_sessions. cbn [with_sessions with_usage sh_sessions].
    by rewrite (reset_own store), Hs.
  - unfold slot_of in *. by cbn [with_usage sh_sessions].
Qed.

Lemma after_call_slot a r c o s :
  let '(acts, s', v) := after_call config health w t a r c o s in
  match v with
  | ReturnDone => ∃ x, last acts = Some (ObserveStats x) ∧ sx_fallbacks x = at_index a ∧
      slot_of s' = if (at_index a =? 0)%nat
                   then own_step store (slot_key t) (slot_of s) (OpResetFailures (slot_key t)) else slot_of s
  | _ => slot_of s' = slot_of s
  end.
Proof.
  unfold after_call. destruct (deliver _) as [[out pending] has]. destruct (ao_error o) as [e|].
  - pose proof (record_failure_slot a r e s) as Hrec. destruct (record_failure _ _ _ _ _ _ _) as [acts s1].
    destruct (after_error config a r o e pending has) as [acts' v] eqn:Herr.
    assert (v ≠ ReturnDone) as Hv.
    { unfold after_error in Herr. repeat case_match; simplify_eq; done. }
    by destruct v.
  - destruct (negb has && zeroUsageEnabled config && ao_shouldRetryZeroUsage o && _); [done|].
    pose proof (finish_success_slot a r o pending has s) as Hs.
    by destruct (finish_success _ _ _ _ _ _ _ _ _).
Qed.

Lemma last_app_Some {A} (l k : list A) x : last k = Some x → last (l ++ k) = Some x.
Proof. rewrite last_app. by intros ->. Qed.

Lemma retry_loop_slot a fuel : ∀ r s acts s' e,
  retry_loop models config health w fuel t a r s = Some (acts, s', e) → loop_slot a acts s s' e.
Proof.
  induction fuel as [|fuel IH]; intros r s acts s' e; [done|]. cbn [retry_loop].
  set (call := call_actions _ _ _ _). set (s1 := w_during_call _ _ _).
  assert (slot_of s1 = slot_of s) as Hs1 by (unfold s1; by rewrite (proj1 (Hquiet _ _))).
  destruct (outcome_of _ _ _ _) as [o|]; [|by intros [= <- <- <-]].
  match goal with |- context [after_call ?c ?h ?w ?t ?a ?r ?x ?o ?s] =>
    pose proof (after_call_slot a r x o s) as Hac; destruct (after_call c h w t a r x o s) as [[acts1 s2] v] end.
  destruct v as [|delay r'|l|].
  - intros [= <- <- <-]. cbn [loop_slot]. by rewrite Hac.
  - destruct (w_delay_aborted _ _); [intros [= <- <- <-]; cbn [loop_slot]; by rewrite Hac|].
    destruct (retry_loop _ _ _ _ _ _ _ _ _) as [[[acts2 s3] e2]|] eqn:Hl; [|done]. cbn [mbind option_bind].
    intros [= <- <- <-]. apply IH in Hl. unfold loop_slot in *. rewrite Hac, Hs1 in Hl.
    destruct e2; try done. destruct Hl as (x & Hlast & Hx). exists x. split; [|done].
    apply last_app_Some, last_app_Some. destruct acts2; [done|]. by rewrite last_cons_cons.
  - intros [= <- <- <-]. cbn [loop_slot]. by rewrite Hac.
  - intros [= <- <- <-]. destruct Hac as (x & Hlast & Hx & Hs). exists x. rewrite Hs, Hs1.
    split; [by apply last_app_Some|done].
Qed.

(** What a turn has done to the slot by its end. *)
Definition turn_slot (acts : list action) (s s' : shared) (e : execute_end) : Prop :=
  match e with
  | Answered => ∃ x, last acts = Some (ObserveStats x) ∧
      slot_of s' = if (sx_fallbacks x =? 0)%nat
                   then own_step store (slot_key t) (slot_of s) (OpResetFailures (slot_key t)) else slot_of s
  | Failed => ∃ final, last acts = Some (Yield (ErrorEvent final)) ∧
      slot_of s' = if isProviderFaultCode (er_code final)
                   then own_step store (slot_key t) (slot_of s) (OpRecordFailure (slot_key t)) else slot_of s
  | _ => slot_of s' = slot_of s
  end.

Lemma turn_slot_app acts acts' s s' e : turn_slot acts' s s' e → turn_slot (acts ++ acts') s s' e.
Proof.
  destruct e; cbn; [| |done..]; intros (x & Hlast & Hs); exists x; (split; [by apply last_app_Some|done]).
Qed.

Lemma finish_failure_slot plans a n l s :
  let '(acts, s') := finish_failure w t plans a n l s in turn_slot acts s s' Failed.
Proof.
  unfold finish_failure. set (s1 := w_during_yield _ _ _).
  assert (slot_of s1 = slot_of s) as Hs by (unfold s1; by rewrite (proj2 (Hquiet _ _))).
  cbn [turn_slot]. eexists. split; [rewrite app_assoc; by apply last_snoc|]. cbn [er_code].
  unfold slot_of in *. rewrite observeRoutingOutcome_sessions.
  destruct (isProviderFaultCode _); [|done]. cbn [with_sessions sh_sessions]. by rewrite (record_own store), Hs.
Qed.

Lemma attempt_loop_slot total plans : ∀ index n s acts s' e,
  plans ≠ [] → attempt_loop models config health w t total index n plans s = Some (acts, s', e) →
  turn_slot acts s s' e.
Proof.
  induction plans as [|p plans IH]; intros index n s acts s' e Hne; [done|]. cbn [attempt_loop].
  destruct (w_aborted w n); [by intros [= <- <- <-]|].
  destruct (if (0 <? index)%nat then _ else _) as [skip s1] eqn:Hskip.
  assert (slot_of s1 = slot_of s) as Hs1.
  { destruct (0 <? index)%nat; [|by injection Hskip as _ <-].
    destruct (shouldSkip _ _ _ _) as [b tr]. by injection Hskip as _ <-. }
  assert (∀ acts s' e, turn_slot acts s1 s' e → turn_slot acts s s' e) as Hmove.
  { intros l x y. unfold turn_slot. by rewrite Hs1. }
  destruct (skip && bool_decide (plans ≠ [])) eqn:Hgo.
  { apply andb_true_iff in Hgo as [_ Hp%bool_decide_eq_true]. intros Hl. apply Hmove. by eapply IH. }
  destruct (over_budget _ _ _ _ _); [by intros [= <- <- <-]|].
  set (a := Attempt _ _ _ _).
  destruct (retry_loop _ _ _ _ _ _ _ _ _) as [[[acts1 s2] e1]|] eqn:Hl; [|done]. cbn [mbind option_bind].
  pose proof (retry_loop_slot _ _ _ _ _ _ _ Hl) as Hslot. destruct e1 as [n'|n' l| |]; cbn [loop_slot] in Hslot.
  - destruct (attempt_loop _ _ _ _ _ _ _ _ _ _) as [[[acts2 s3] e2]|] eqn:Hl2; [|done]. cbn [mbind option_bind].
    intros [= <- <- <-]. apply Hmove, turn_slot_app.
    assert (plans ≠ []) as Hp.
    { intros ->. destruct (retry_loop_read models config health w t a (loop_fuel config)
        (RetryState (attempt_request models p (at_decision a) (tu_request t)) 0 0 n) s1) as (x & y & z & Hx & _ & _ & Hz).
      - apply loop_budget.
      - cbn. unfold transientRetryMax. lia.
      - unfold a in Hx, Hz. cbn [at_decision] in Hx. unfold a in Hl. rewrite Hl in Hx.
        injection Hx as <- <- <-. destruct Hz as (_ & _ & Hz). by destruct Hz. }
    apply IH in Hl2; [|done]. unfold turn_slot in *. by rewrite Hslot in Hl2.
  - pose proof (finish_failure_slot total a n' l s2) as Hf. destruct (finish_failure _ _ _ _ _ _ _) as [acts2 s3].
    intros [= <- <- <-]. apply Hmove, turn_slot_app. unfold turn_slot in *. by rewrite Hslot in Hf.
  - intros [= <- <- <-]. apply Hmove. destruct Hslot as (x & Hlast & Hx & Hs). exists x. by rewrite Hx.
  - intros [= <- <- <-]. by apply Hmove.
Qed.
End Slot.

(** ** Properties *)

(** C10: A turn always ends. It calls only the models of its attempt plan, in
    the plan's order and each as often as its retries allow, at most the
    transient retries and the empty-response retries together; so it makes at
    most that many calls per planned model. *)
Theorem turn_follows_plan `{Tokenizer, Random, Sha1} models config health w t s :
  let plans := attempt_plans models config (tu_decision t) (tu_request t) in
  ∃ acts s' e, execute models config health w t s = Some (acts, s', e) ∧
    ∃ counts, length counts = length plans ∧
      Forall (λ k, Z.of_nat k <= transientRetryMax config + zeroUsageMax config) counts ∧
      map (λ c, target c.2) (calls acts) =
        concat (zip_with (λ k p, replicate k (model_key (ap_attempt p))) counts plans).
Proof.
  cbn zeta. destruct (execute_read models config health w t s) as (acts & s' & e & Hrun & Hf & _).
  exists acts, s', e. by split.
Qed.


(** C15: A turn holds at most one concurrency slot at a time, calls a model only
    while it holds a slot of that model's provider, and has given every slot
    back when it ends, however it ends. *)
Theorem slots_given_back `{Tokenizer, Random, Sha1} models config health w t s acts s' e :
  execute models config health w t s = Some (acts, s', e) → slots config None acts = Some None.
Proof.
  unfold execute. destruct (attempt_plans _ _ _ _) as [|p plans]; [by intros [= <- <- <-]|].
  apply attempt_loop_slots.
Qed.

(** C16: The failure count of the session's pinned selection: an answer of the
    first attempt clears it, a failed turn raises it by one exactly when the
    final error is the provider's fault, and nothing else changes it; so no
    turn is counted twice. *)
Theorem failures_counted_once `{Tokenizer, Random, Sha1} models config health store w t s acts s' e :
  undisturbed w t → execute models config health w t s = Some (acts, s', e) →
  match e with
  | Answered => ∃ x, last acts = Some (ObserveStats x) ∧
      slot_of t s' = if (sx_fallbacks x =? 0)%nat
                     then own_step store (slot_key t) (slot_of t s) (OpResetFailures (slot_key t)) else slot_of t s
  | Failed => ∃ final, last acts = Some (Yield (ErrorEvent final)) ∧
      slot_of t s' = if isProviderFaultCode (er_code final)
                     then own_step store (slot_key t) (slot_of t s) (OpRecordFailure (slot_key t)) else slot_of t s
  | _ => slot_of t s' = slot_of t s
  end.
Proof.
  intros Hq. unfold execute. destruct (attempt_plans _ _ _ _) as [|p plans] eqn:Hp.
  - exfalso. revert Hp. apply plans_nonempty.
  - intros Hl. by apply (attempt_loop_slot models config health store w t Hq) in Hl.
Qed.

(** ** A small outside world *)

Module Sample.

#[local] Instance tokenizer : Tokenizer := {| countTokens text := Z.of_nat (String.length text) |}.
#[local] Instance random : Random := {| random_upto _ bound := bound |}.
#[local] Instance sha1 : Sha1 := {| sha1_prefix text := text |}.

Definition catalog : model_config :=
  [("acme", ProviderEntry "openai" [("large", ModelEntry [MText] 4096)]);
   ("backup", ProviderEntry "openai" [("small", ModelEntry [MText; MImage] 4096)])].

Definition routing : router_config :=
  RouterConfig None (Some (ref_of "acme" "large"))
    (Some (FallbackConfig (Some [ref_of "backup" "small"]) None None None)) None None None None None None None None.

Definition circuit : tracker_config := tracker_config_of (TrackerOptions None None None None None None None).

Definition sticky_slot : slot :=
  Slot (RoutingState "s" false None (Some "acme") (Some "large") false None (Some 1) 0) 1000000.

Definition before : shared := Shared [] [("s", sticky_slot)] [] [].

Definition hello : model_request :=
  ModelRequest "acme" "large" [Message User [TextBlock "Hi"]] None None.

Definition turn_hello : turn :=
  Turn (RouterDecision "acme" "large" ScDefault None false false ByScenario no_mutations) hello "s" false None.

Definition overloaded : model_error :=
  ModelError "acme" None "openai" "server_error" "overloaded" true false false None.

(** A world in which nothing else happens; the calls are given by number. *)
Definition quiet_world (answer : nat → call_result) : world :=
  World (λ n _, answer n) (λ _, false) (λ _, false) (λ _, 0) (λ _ s, s) (λ _ s, s).

Definition run (answer : nat → call_result) : option (list action * shared * execute_end) :=
  execute catalog routing circuit (quiet_world answer) turn_hello before.

Definition texts (acts : list action) : list string :=
  omap (λ e, match e with TextDelta t => Some t | ErrorEvent e => Some (er_code e)
             | MessageStart => Some "start" | _ => None end) (yields acts).

Definition summary (r : option (list action * shared * execute_end))
  : option (list string * list (string * string) * execute_end) :=
  '(acts, _, e) ← r; Some (texts acts, map (λ c, target c.2) (calls acts), e).

Definition answer_text (text : string) : call_result :=
  CallResult SlotGranted [MessageStart; TextDelta text; MessageEnd "stop"] StreamEnds.

(** P: The first provider breaks off in the middle of its answer and its
    continuation fails before any content: the router then asks the fallback
    for the whole answer, after the consumer has received half of it. *)
Example continuation_falls_back :
  summary (run (λ n, match n with
    | O => CallResult SlotGranted [MessageStart; TextDelta "Hel"] (StreamThrows (ThrownCanonical overloaded))
    | 1%nat => CallResult SlotGranted [] (StreamThrows (ThrownCanonical overloaded))
    | _ => answer_text "Hello!"
    end)) =
  Some (["start"; "Hel"; "start"; "Hello!"],
        [("acme", "large"); ("acme", "large"); ("backup", "small")], Answered).
Proof. vm_compute. reflexivity. Qed.

(** P: A turn that fails before any content yields the events of its last
    call twice, and its error twice. *)
Example failure_repeats_events :
  summary (run (λ n, CallResult SlotGranted
    [MessageStart; ErrorEvent (ModelError "acme" None "openai" "invalid_request" "bad" false false false None)]
    StreamEnds)) =
  Some (["start"; "invalid_request"; "start"; "invalid_request"], [("acme", "large")], Failed).
Proof. vm_compute. reflexivity. Qed.

(** P: Two interruptions: the second continuation is asked without the first
    piece of the answer. *)
Example second_continuation_forgets :
  match run (λ n, match n with
    | O => CallResult SlotGranted [TextDelta "one "] (StreamThrows (ThrownCanonical overloaded))
    | 1%nat => CallResult SlotGranted [TextDelta "two "] (StreamThrows (ThrownCanonical overloaded))
    | _ => answer_text "three"
    end) with
  | Some (acts, _, _) =>
    (texts acts, omap (λ c, match rev (rq_messages c.2) with
                            | _ :: Message Assistant [TextBlock t] :: _ => Some t
                            | _ => None
                            end) (calls acts))
  | None => ([], [])
  end = (["one "; "two "; "start"; "three"], ["one "; "two "]).
Proof. vm_compute. reflexivity. Qed.

(** P: Five empty responses in a row end as an answer and clear the failure
    count of the pinned model. *)
Example empty_answers_clear_failures :
  match run (λ n, CallResult SlotGranted [MessageStart; MessageEnd "stop"] StreamEnds) with
  | Some (acts, s, e) =>
    (length (calls acts), e, slot_of turn_hello s ≫= (λ x, ss_qualityFailures (sl_state x)))
  | None => (O, Stopped, None)
  end = (5%nat, Answered, Some 0).
Proof. vm_compute. reflexivity. Qed.

(** ** Witnesses *)

Abbreviation rescued := (λ n : nat, match n with
  | O => CallResult SlotGranted [MessageStart] (StreamThrows (ThrownCanonical overloaded))
  | _ => answer_text "Hello!"
  end).

Lemma rescued_run : match run rescued with Some (_, _, Answered) => true | _ => false end = true.
Proof. vm_compute. reflexivity. Qed.


Lemma slots_given_back_witness : ∃ acts, slots routing None acts = Some None ∧ calls acts ≠ [].
Proof.
  destruct (run rescued) as [[[acts s] e]|] eqn:Hrun.
  - exists acts. split.
    + exact (slots_given_back catalog routing circuit (quiet_world rescued) turn_hello before acts s e Hrun).
    + intros Hc. pose proof (execute_read catalog routing circuit (quiet_world rescued) turn_hello before) as (a & x & y & Hr & _ & Ht).
      unfold run in Hrun. rewrite Hrun in Hr. injection Hr as <- <- <-.
      pose proof rescued_run as Hend. unfold run in Hend. rewrite Hrun in Hend. destruct e; try discriminate Hend.
      destruct Ht as (front & n & q & Hc' & _). rewrite Hc in Hc'. by destruct front.
  - pose proof rescued_run as Hend. rewrite Hrun in Hend. discriminate Hend.
Defined.

Abbreviation refused := (λ _ : nat, CallResult SlotGranted [] (StreamThrows (ThrownCanonical overloaded))).

Lemma refused_run : match run refused with Some (_, _, Failed) => true | _ => false end = true.
Proof. vm_compute. reflexivity. Qed.

(** The turn fails and the count of the pinned model is raised from one to two. *)
Lemma failures_counted_once_witness : ∃ acts s final,
  last acts = Some (Yield (ErrorEvent final)) ∧
  slot_of turn_hello s =
    if isProviderFaultCode (er_code final)
    then own_step (store_options_of None None) "s" (Some sticky_slot) (OpRecordFailure "s") else Some sticky_slot.
Proof.
  destruct (run refused) as [[[acts s] e]|] eqn:Hrun.
  - assert (undisturbed (quiet_world refused) turn_hello) as Hq by (intros n x; split; reflexivity).
    pose proof (failures_counted_once catalog routing circuit (store_options_of None None) (quiet_world refused)
      turn_hello before acts s e Hq Hrun) as Hcount.
    pose proof refused_run as Hend. rewrite Hrun in Hend. destruct e; try discriminate Hend.
    destruct Hcount as (final & Hlast & Hs). exists acts, s, final. split; [exact Hlast|exact Hs].
  - pose proof refused_run as Hend. rewrite Hrun in Hend. discriminate Hend.
Defined.
End Sample.
