(* ===== verification/RouterDecide.v ===== *)
(** * Deciding the model of a request

    [decide], [stream] and [invalidateSticky] of src/src/router/RouterRuntime.ts: the
    custom router, the scenario, the session's pinned selection, the tier
    classifier, tier upgrades, orchestration, the media reroute, and what is
    remembered for the next turn.  Events, telemetry and the usage hint that
    only custom routers read are left out; what other sessions do to the
    shared state during the two waits is an argument. *)

From Stdlib Require Import QArith.
From S2P Require Import Prelude JsValue ProviderHealth RouterTypes RouterMedia RouterPolicy RouterSessions RouterRanker RouterExecute.
Open Scope Z_scope.

Record route_input := RouteInput {
  di_request : model_request;
  di_sessionId : string;
  di_isMainAgent : bool;
  di_explicitProvider : option string;
  di_explicitModel : option string;
  di_previousTier : option string;
  di_previousProvider : option string;
  di_previousModel : option string;
  di_research : option research_hint;
}.

(** The provider and model of a custom router's partial decision. *)
Record custom_decision := CustomDecision { cu_provider : option string; cu_model : option string }.

(** Any tier classifier: the judge, or the uncertainty-gated one. *)
Definition tier_classifier : Type :=
  token_saver_config → list message → option string → option capability_requirements → ranker →
  option token_saver_decision.

(** What is chosen on the way. *)
Record selection_state := SelectionState {
  se_selection : option model_ref;
  se_resolvedFrom : resolution;
  se_tier : option string;
  se_switch : option cache_switch;
}.

(** What happens while a decision is made: the clock before the custom
    router is asked, after it has answered, and when the decision is stored;
    the custom router's answer; what other sessions do during the two waits. *)
Record decide_world := DecideWorld {
  dw_start : Z;
  dw_resumed : Z;
  dw_end : Z;
  dw_custom : option custom_decision;
  dw_during_custom : shared → shared;
  dw_during_classify : shared → shared;
}.

Section Decide.
Context `{Tokenizer, Sha1}.
Context (models : model_config) (config : router_config) (health : tracker_config)
        (store : store_options) (classifier : tier_classifier) (learning : option string).

(** The slot a decision reads and writes. *)
Definition input_key (i : route_input) : string := makeKey (di_sessionId i) (negb (di_isMainAgent i)).

Definition get_session (now : Z) (key : string) (s : shared) : option routing_state * shared :=
  let '(state, m) := get now key (sh_sessions s) in (state, with_sessions m s).

(** [isProviderUnhealthy]. *)
Definition isProviderUnhealthy (now : Z) (provider : string) (s : shared) : bool * shared :=
  let '(state, t) := getState health now provider (sh_health s) in
  (bool_decide (state ≠ Healthy), with_health t s).

(** The pin of the session when it may be reused; a reused pin is touched. *)
Definition reuse_pin (now : Z) (i : route_input) (policy : subagent_policy) (s : shared)
  : option selection_state * shared :=
  if (1 <? length (rq_messages (di_request i)))%nat
     && (di_isMainAgent i || bool_decide (policy = Judge)) then
    let '(state, s) := get_session now (input_key i) s in
    match state with
    | Some pin =>
      if isStickyUsable (rc_sticky config) now (Some pin) then
        let provider := default "" (ss_stickyProvider pin) in
        let '(unhealthy, s) := isProviderUnhealthy now provider s in
        if unhealthy then (None, s)
        else
          (Some (SelectionState (Some (ref_of provider (default "" (ss_stickyModel pin)))) ByTokenSaver
                   (ss_tokenSaverTier pin) None),
           with_sessions (touch store now (input_key i) (sh_sessions s)) s)
      else (None, s)
    | None => (None, s)
    end
  else (None, s).

(** The classifier's choice, unless the warm cache of the previous model is
    worth more. *)
Definition classified (i : route_input) (ts : token_saver_config) (requirements : option capability_requirements)
  (sticky : option routing_state) (previous : option model_ref) (baseUsage : option usage)
  (st : selection_state) (s : shared) : selection_state :=
  match classifier ts (rq_messages (di_request i)) (di_previousTier i) requirements (sh_ranker s) with
  | None => st
  | Some d =>
    let '(selection, switch) :=
      maybePreserveStickyForCache previous (td_selection d) (rq_messages (di_request i)) baseUsage
        (ts_cacheAware ts) (rc_modelPricing config) in
    let kept := match switch with Some x => bool_decide (cs_action x = KeptSticky) | None => false end in
    let tier :=
      if kept then
        match sticky ≫= ss_tokenSaverTier with
        | Some t => t
        | None => default (td_tier d) (di_previousTier i)
        end
      else td_tier d in
    SelectionState (Some selection) (td_resolvedFrom d) (Some tier) switch
  end.

(** The [tokenSaver] block. *)
Definition token_saver_choice (w : decide_world) (i : route_input) (scenarioType : scenario_type)
  (requirements : option capability_requirements) (sticky : option routing_state) (previous : option model_ref)
  (baseUsage : option usage) (st : selection_state) (s : shared) : selection_state * shared :=
  match rc_tokenSaver config with
  | None => (st, s)
  | Some ts =>
    let policy := default DEFAULT_SUBAGENT_POLICY (ts_subagentPolicy ts) in
    if bool_decide (scenarioType ≠ ScExplicit) && ts_enabled ts
       && (di_isMainAgent i || bool_decide (policy ≠ Skip)) then
      let '(reused, s) := reuse_pin (dw_resumed w) i policy s in
      match reused with
      | Some st => (st, s)
      | None =>
        (classified i ts requirements sticky previous baseUsage st s, dw_during_classify w s)
      end
    else (st, s)
  end.

(** [hint.indexOf("/")] and the two parts around it. *)
Fixpoint split_slash (s : string) : option (string * string) :=
  match s with
  | EmptyString => None
  | String c s' =>
    if bool_decide (c = "/"%char) then Some ("", s')
    else '(a, b) ← split_slash s'; Some (String c a, b)
  end.

(** A subagent's model hint, then the default scenario. *)
Definition hinted (hint : option string) (st : selection_state) : selection_state :=
  match se_selection st with
  | Some _ => st
  | None =>
    match truthy hint ≫= split_slash with
    | Some (provider, model) =>
      match truthy (Some provider), truthy (Some model) with
      | Some _, Some _ =>
        SelectionState (Some (ModelRef (default "" hint) provider model)) ByExplicit (se_tier st) (se_switch st)
      | _, _ => st
      end
    | None => st
    end
  end.

Definition researchAwareEnabled : bool :=
  match rc_researchAware config ≫= ra_enabled with Some true => true | _ => false end.

(** The tier upgrade: the new selection, tier and log entry. *)
Definition research_upgrade (requirements : option capability_requirements) (tier : option string)
  (selection : model_ref) : model_ref * option string * option (string * string * string) :=
  let keep := (selection, tier, None) in
  let allowed := match rc_researchAware config ≫= ra_tierUpgrade with Some false => false | _ => true end in
  match requirements, truthy tier with
  | Some r, Some t =>
    if researchAwareEnabled && allowed then
      let tiers := match rc_tokenSaver config with Some ts => ts_tiers ts | None => [] end in
      let priors := tierPriorForRequirements r in
      let '(targetTier, upgraded) := applyTierPrior t priors (jm_keys tiers) in
      if upgraded && bool_decide (targetTier ≠ t) then
        match jm_get targetTier tiers with
        | Some model => (model, Some targetTier, Some (t, targetTier, "requirements: " +:+ str_join "," priors))
        | None => keep
        end
      else keep
    else keep
  | _, _ => keep
  end.

Definition with_orchestrating (d : router_decision) : router_decision :=
  RouterDecision (rd_provider d) (rd_model d) (rd_scenarioType d) (rd_tokenSaverTier d) (rd_isSubagent d)
    true (rd_resolvedFrom d) (rd_mutations d).

Definition with_mutations (m : mutations_log) (d : router_decision) : router_decision :=
  RouterDecision (rd_provider d) (rd_model d) (rd_scenarioType d) (rd_tokenSaverTier d) (rd_isSubagent d)
    (rd_orchestrating d) (rd_resolvedFrom d) m.

(** Whether this turn is orchestrated, with the log entry. *)
Definition orchestrate (i : route_input) (tier : option string) (sticky : option routing_state)
  : option (option (string * bool)) :=
  let alreadyOrchestrating := match sticky with Some s => ss_orchestrating s | None => false end in
  let tokenSaverActive := match rc_tokenSaver config with Some ts => ts_enabled ts | None => false end
                          && match tier with Some _ => true | None => false end in
  match rc_autoOrchestrate config with
  | Some ao =>
    if ao_enabled ao && (tokenSaverActive || alreadyOrchestrating) then
      let o := applyOrchestration ao (di_isMainAgent i) tier alreadyOrchestrating
                 (default 0 (sticky ≫= ss_orchestrationContinuations)) in
      if or_applied o then Some (or_activated o) else None
    else None
  | None => None
  end.

(** The end of [decide]: the decision that is built from a selection. *)
Definition build_decision (i : route_input) (scenario : scenario_resolution) (scenarioType : scenario_type)
  (requirements : option capability_requirements) (sticky : option routing_state) (st : selection_state)
  (selection : model_ref) : router_decision :=
  let '(selection, tier, upgrade) := research_upgrade requirements (se_tier st) selection in
  let d := RouterDecision (ref_provider selection) (ref_model selection) scenarioType tier
             (sr_isSubagent scenario) false (se_resolvedFrom st) no_mutations in
  let orchestrated := orchestrate i tier sticky in
  let d := match orchestrated with Some _ => with_orchestrating d | None => d end in
  let stripped := match truthy (sr_subagentModelHint scenario) with Some _ => true | None => rd_isSubagent d end in
  let mutations := MutationsLog (default None orchestrated) stripped None (se_switch st) upgrade in
  let '(d, mutations) :=
    rerouteDecisionForMedia models (fallbackCandidatesFor (rc_fallback config) (rd_scenarioType d))
      (rq_messages (di_request i)) d mutations in
  with_mutations mutations d.

(** What is remembered of a decision. *)
Definition remembered (now : Z) (i : route_input) (sticky : option routing_state) (d : router_decision)
  : routing_state :=
  let same := bool_decide ((sticky ≫= ss_stickyProvider) = Some (rd_provider d))
              && bool_decide ((sticky ≫= ss_stickyModel) = Some (rd_model d)) in
  RoutingState (di_sessionId i) (negb (di_isMainAgent i)) (rd_tokenSaverTier d) (Some (rd_provider d))
    (Some (rd_model d)) (rd_orchestrating d)
    (if rd_orchestrating d then Some (default 0 (sticky ≫= ss_orchestrationContinuations) + 1) else None)
    (if same then sticky ≫= ss_qualityFailures else None) now.

Definition no_model : js_error :=
  PlainError "Router: no default scenario configured and no model could be resolved".

(** [decide] with the router enabled; the ranker's context comes with the
    decision. *)
Definition decide_request (w : decide_world) (i : route_input) (s : shared)
  : result (router_decision * option (string * string)) * shared :=
  let '(sticky, s) := get_session (dw_start w) (input_key i) s in
  let baseUsage := jm_get (di_sessionId i) (sh_usage s) in
  let s := dw_during_custom w s in
  let custom := dw_custom w in
  let scenario :=
    decideScenario (di_request i) (di_isMainAgent i) (di_explicitProvider i) (di_explicitModel i) (rc_default config) in
  let requirements :=
    if researchAwareEnabled || match learning with Some _ => true | None => false end
    then Some (computeCapabilityRequirements (di_request i) (default (ResearchHint [] None) (di_research i)))
    else None in
  let previous :=
    match truthy (di_previousProvider i), truthy (di_previousModel i) with
    | Some p, Some m => Some (ref_of p m)
    | _, _ => if isStickyUsable (rc_sticky config) (dw_resumed w) sticky
              then pin ← sticky; Some (ref_of (default "" (ss_stickyProvider pin)) (default "" (ss_stickyModel pin)))
              else None
    end in
  let customProvider := truthy (custom ≫= cu_provider) in
  let selection := match customProvider, truthy (custom ≫= cu_model) with
                   | Some p, Some m => Some (ref_of p m)
                   | _, _ => sr_selection scenario
                   end in
  let resolvedFrom := match customProvider with
                      | Some _ => ByCustom
                      | None => if bool_decide (sr_scenarioType scenario = ScExplicit) then ByExplicit else ByScenario
                      end in
  let st := SelectionState selection resolvedFrom None None in
  let '(st, s) := match customProvider with
                  | Some _ => (st, s)
                  | None => token_saver_choice w i (sr_scenarioType scenario) requirements sticky previous baseUsage st s
                  end in
  let st := hinted (sr_subagentModelHint scenario) st in
  let scenarioType := match se_selection st with
                      | Some _ => sr_scenarioType scenario
                      | None => if bool_decide (sr_scenarioType scenario = ScExplicit) then ScExplicit else ScDefault
                      end in
  match (match se_selection st with Some x => Some x | None => rc_default config end) with
  | None => (Throw no_model, s)
  | Some selection =>
    let d := build_decision i scenario scenarioType requirements sticky st selection in
    let pending :=
      salt ← learning; r ← requirements;
      Some (bucketKey salt r, default "default" (research_upgrade requirements (se_tier st) selection).1.2) in
    (Ok (d, pending), with_sessions (set store (dw_end w) (remembered (dw_end w) i sticky d) (sh_sessions s)) s)
  end.

(** [decide] with the router disabled. *)
Definition decide_passthrough (i : route_input) : router_decision :=
  RouterDecision (rq_provider (di_request i)) (rq_model (di_request i)) ScDefault None
    (negb (di_isMainAgent i)) false ByScenario no_mutations.

(** [invalidateSticky], with what it returns left out. *)
Definition invalidateSticky (now : Z) (sessionId : string) (s : shared) : shared :=
  let '(current, s) := get_session now (makeKey sessionId false) s in
  let orchestrating := match current with Some c => ss_orchestrating c | None => false end in
  let previousTier := current ≫= ss_tokenSaverTier in
  let state :=
    match truthy previousTier with
    | Some _ =>
      if (orchestrating : bool) then
        RoutingState sessionId false previousTier (current ≫= ss_stickyProvider) (current ≫= ss_stickyModel)
          orchestrating (current ≫= ss_orchestrationContinuations) (current ≫= ss_qualityFailures) now
      else RoutingState sessionId false None None None orchestrating None None now
    | None => RoutingState sessionId false None None None orchestrating None None now
    end in
  with_sessions (set store now state (sh_sessions s)) s.

(** [observeUsage]. *)
Definition observeUsage (sessionId : string) (u : option usage) (s : shared) : shared :=
  with_usage (usage_observe 500 sessionId u (sh_usage s)) s.

(** [shutdown], but for the statistics and the ranker it writes to files: an
    injected session store or circuit breaker is left alone. *)
Definition shutdown (externalStore sharedHealthTracker : bool) (s : shared) : shared :=
  Shared (if sharedHealthTracker then sh_health s else []) (if externalStore then sh_sessions s else []) []
    (sh_ranker s).

(** ** [stream] *)

(** The input of the decision [stream] makes. *)
Definition stream_input (request : model_request) (sessionId : string) (isMainAgent : bool)
  (previousTier : option string) : route_input :=
  RouteInput request sessionId isMainAgent None None (truthy previousTier) None None None.

(** The turn that executes a decision made from an input. *)
Definition turn_of (i : route_input) (d : router_decision) (pending : option (string * string)) : turn :=
  Turn d (di_request i) (di_sessionId i) (negb (di_isMainAgent i)) pending.

(** [stream] with the router enabled; [None] is a decision that throws. *)
Definition stream `{Random} (w : decide_world) (x : world) (request : model_request) (sessionId : string)
  (isMainAgent : bool) (previousTier : option string) (s : shared)
  : option (list action * shared * execute_end) :=
  let i := stream_input request sessionId isMainAgent previousTier in
  match decide_request w i s with
  | (Ok (d, pending), s) => execute models config health x (turn_of i d pending) s
  | (Throw _, _) => None
  end.
End Decide.

(** ** Lemmas about the slot of a session *)

Section Slots.
Context `{Tokenizer, Sha1}.
Context (models : model_config) (config : router_config) (health : tracker_config)
        (store : store_options) (classifier : tier_classifier) (learning : option string).

(** The slot of an input's session. *)
Definition input_slot (i : route_input) (s : shared) : option slot := jm_get (input_key i) (sh_sessions s).

(** The state that is still alive at [now]. *)
Definition live_state (now : Z) (x : option slot) : option routing_state :=
  sl ← x; if sl_expiresAt sl <? now then None else Some (sl_state sl).

Lemma get_live now key m : (get now key m).1 = live_state now (jm_get key m).
Proof. unfold get. destruct (jm_get key m) as [sl|]; [|done]. cbn. by destruct (_ <? _). Qed.

Lemma get_session_live now key s :
  (get_session now key s).1 = live_state now (jm_get key (sh_sessions s)).
Proof. rewrite <- get_live. unfold get_session. by destruct (get now key (sh_sessions s)). Qed.

(** A decision that is made stores what it remembers. *)
Lemma decide_stores w i s d p s' :
  decide_request models config health store classifier learning w i s = (Ok (d, p), s') →
  input_slot i s' =
    Some (Slot (remembered (dw_end w) i (live_state (dw_start w) (input_slot i s)) d)
            (dw_end w + so_ttlMs store)).
Proof.
  unfold decide_request, input_slot. rewrite <- get_session_live.
  destruct (get_session _ _ s) as [sticky s1]. cbn [fst].
  match goal with |- context [let '(st, s) := ?x in _] => destruct x as [st s2] end.
  destruct (match se_selection _ with Some _ => _ | None => _ end) as [selection|]; [|done].
  intros [= <- _ <-]. cbn [with_sessions sh_sessions]. unfold set.
  change (makeKey _ _) with (input_key i). apply jm_get_set_eq.
Qed.
End Slots.

Section Pins.
Context `{Tokenizer, Sha1}.
Context (models : model_config) (config : router_config) (health : tracker_config)
        (store : store_options) (classifier : tier_classifier) (learning : option string).

(** The request may reuse the pin of its session: the tier classifier is on
    and applies to this agent, no model was asked for explicitly, no custom
    router has answered, and the conversation has begun. *)
Definition may_reuse (w : decide_world) (i : route_input) : bool :=
  match rc_tokenSaver config with
  | Some ts =>
    ts_enabled ts
    && (di_isMainAgent i || bool_decide (default DEFAULT_SUBAGENT_POLICY (ts_subagentPolicy ts) = Judge))
  | None => false
  end
  && match truthy (dw_custom w ≫= cu_provider) with None => true | Some _ => false end
  && match truthy (di_explicitProvider i), truthy (di_explicitModel i) with
     | Some _, Some _ => false
     | _, _ => true
     end
  && (1 <? length (rq_messages (di_request i)))%nat.

Lemma not_explicit i :
  match truthy (di_explicitProvider i), truthy (di_explicitModel i) with Some _, Some _ => false | _, _ => true end = true →
  sr_scenarioType (decideScenario (di_request i) (di_isMainAgent i) (di_explicitProvider i) (di_explicitModel i)
    (rc_default config)) ≠ ScExplicit.
Proof.
  unfold decideScenario. destruct (truthy (di_explicitProvider i)), (truthy (di_explicitModel i)); try done;
    intros _; by destruct (truthy (sd_modelHint _)).
Qed.

(** The slot is read in both of its reads while it is alive. *)
Lemma input_slot_get i now s s0 :
  input_slot i s = Some s0 → now <= sl_expiresAt s0 →
  input_slot i (get_session now (input_key i) s).2 = Some s0 ∧
  (get_session now (input_key i) s).1 = Some (sl_state s0).
Proof.
  unfold input_slot, get_session, get. intros -> Ht.
  destruct (Z.ltb_spec (sl_expiresAt s0) now); [lia|]. cbn [fst snd with_sessions sh_sessions].
  by rewrite jm_get_set_eq.
Qed.

(** What [reuse_pin] makes of a usable pin. *)
Lemma reuse_pin_usable now i policy s sl :
  (1 <? length (rq_messages (di_request i)))%nat = true → di_isMainAgent i || bool_decide (policy = Judge) = true →
  input_slot i s = Some sl → now <= sl_expiresAt sl →
  isStickyUsable (rc_sticky config) now (Some (sl_state sl)) = true →
  (isProviderUnhealthy health now (default "" (ss_stickyProvider (sl_state sl))) s).1 = false →
  (reuse_pin config health store now i policy s).1 =
    Some (SelectionState
      (Some (ref_of (default "" (ss_stickyProvider (sl_state sl))) (default "" (ss_stickyModel (sl_state sl)))))
      ByTokenSaver (ss_tokenSaverTier (sl_state sl)) None).
Proof.
  intros Hm Hp Hsl Ht Hu Hh. unfold reuse_pin. rewrite Hm, Hp. cbn [andb].
  destruct (input_slot_get i now s sl Hsl Ht) as [_ Hget].
  destruct (get_session now (input_key i) s) as [state s1] eqn:Hg. cbn [fst] in Hget. subst state. rewrite Hu.
  assert (sh_health s1 = sh_health s) as Hs1.
  { unfold get_session in Hg. destruct (get now (input_key i) (sh_sessions s)). by injection Hg as _ <-. }
  unfold isProviderUnhealthy in *. rewrite Hs1. destruct (getState _ _ _ _) as [state tr]. cbn [fst] in Hh.
  by rewrite Hh.
Qed.

(** An unusable pin is not reused, whatever else holds. *)
Lemma reuse_pin_unusable now i policy s :
  (∀ sl, input_slot i s = Some sl → isStickyUsable (rc_sticky config) now (Some (sl_state sl)) = false) →
  (reuse_pin config health store now i policy s).1 = None.
Proof.
  intros Hu. unfold reuse_pin. destruct (_ && _); [|done].
  unfold get_session, get, input_slot in *. destruct (jm_get (input_key i) (sh_sessions s)) as [sl|]; [|done].
  destruct (sl_expiresAt sl <? now); [done|]. by rewrite Hu.
Qed.

Lemma no_upgrade requirements tier selection :
  researchAwareEnabled config = false →
  research_upgrade config requirements tier selection = (selection, tier, None).
Proof. unfold research_upgrade. intros ->. by destruct requirements, (truthy tier). Qed.

Lemma reroute_keeps candidates messages d mutations :
  let '(d', _) := rerouteDecisionForMedia models candidates messages d mutations in
  rd_tokenSaverTier d' = rd_tokenSaverTier d ∧ rd_orchestrating d' = rd_orchestrating d ∧
  (supportsMediaRequirements models (ref_of (rd_provider d) (rd_model d))
     (collectRequiredInputModalities messages) = true → d' = d).
Proof.
  unfold rerouteDecisionForMedia. destruct (collectRequiredInputModalities messages) as [|x l]; [done|].
  destruct (supportsMediaRequirements _ _ _); [done|]. by destruct (List.find _ _).
Qed.

(** Without tier upgrades a selection is kept, unless it cannot read the request. *)
Lemma build_keeps i scenario scenarioType requirements sticky st selection :
  researchAwareEnabled config = false →
  let d := build_decision models config i scenario scenarioType requirements sticky st selection in
  rd_tokenSaverTier d = se_tier st ∧
  (supportsMediaRequirements models (ref_of (ref_provider selection) (ref_model selection))
     (collectRequiredInputModalities (rq_messages (di_request i))) = true →
   rd_provider d = ref_provider selection ∧ rd_model d = ref_model selection ∧
   rd_resolvedFrom d = se_resolvedFrom st).
Proof.
  intros Hra. cbn zeta. unfold build_decision. rewrite no_upgrade by done.
  set (d0 := match orchestrate _ _ _ _ with Some _ => _ | None => _ end).
  assert (rd_provider d0 = ref_provider selection ∧ rd_model d0 = ref_model selection ∧
          rd_resolvedFrom d0 = se_resolvedFrom st ∧ rd_tokenSaverTier d0 = se_tier st) as (Hp & Hm & Hr & Ht)
    by (unfold d0; by destruct (orchestrate _ _ _ _)).
  clearbody d0. match goal with |- context [rerouteDecisionForMedia ?c ?cs ?ms ?d ?mu] =>
    pose proof (reroute_keeps cs ms d mu) as Hk; destruct (rerouteDecisionForMedia c cs ms d mu) as [d' mu'] end.
  destruct Hk as (Hk1 & _ & Hk2). cbn [with_mutations rd_tokenSaverTier rd_provider rd_model rd_resolvedFrom].
  rewrite Hk1. split; [done|]. intros Hs. rewrite Hp, Hm in Hk2. by rewrite Hk2.
Qed.

(** A reused pin decides the model and the tier. *)
Lemma decide_reuses w i s sl :
  may_reuse w i = true → researchAwareEnabled config = false →
  let s1 := dw_during_custom w (get_session (dw_start w) (input_key i) s).2 in
  input_slot i s1 = Some sl → dw_resumed w <= sl_expiresAt sl →
  isStickyUsable (rc_sticky config) (dw_resumed w) (Some (sl_state sl)) = true →
  (isProviderUnhealthy health (dw_resumed w) (default "" (ss_stickyProvider (sl_state sl))) s1).1 = false →
  let pin := ref_of (default "" (ss_stickyProvider (sl_state sl))) (default "" (ss_stickyModel (sl_state sl))) in
  ∃ d p s', decide_request models config health store classifier learning w i s = (Ok (d, p), s') ∧
    rd_tokenSaverTier d = ss_tokenSaverTier (sl_state sl) ∧
    (supportsMediaRequirements models pin (collectRequiredInputModalities (rq_messages (di_request i))) = true →
     rd_provider d = ref_provider pin ∧ rd_model d = ref_model pin ∧ rd_resolvedFrom d = ByTokenSaver).
Proof.
  intros Hm Hra s1 Hsl Ht Hu Hh pin. unfold may_reuse in Hm.
  apply andb_true_iff in Hm as [Hm Hlen]. apply andb_true_iff in Hm as [Hm Hex]. apply andb_true_iff in Hm as [Hts Hcu].
  destruct (rc_tokenSaver config) as [ts|] eqn:Hcfg; [|done]. apply andb_true_iff in Hts as [Hen Hpol].
  destruct (truthy (dw_custom w ≫= cu_provider)) eqn:Hcp; [done|].
  apply not_explicit in Hex. unfold decide_request. unfold s1 in *.
  destruct (get_session (dw_start w) (input_key i) s) as [sticky s0]. cbn [snd] in *. rewrite Hcp.
  set (scenario := decideScenario _ _ _ _ _) in *. unfold token_saver_choice. rewrite Hcfg, Hen.
  rewrite (bool_decide_true (sr_scenarioType scenario ≠ ScExplicit)) by done.
  assert (di_isMainAgent i || bool_decide (default DEFAULT_SUBAGENT_POLICY (ts_subagentPolicy ts) ≠ Skip) = true) as ->.
  { destruct (di_isMainAgent i); [done|]. cbn [orb] in *. apply bool_decide_eq_true in Hpol. by rewrite Hpol. }
  cbn [andb].
  pose proof (reuse_pin_usable (dw_resumed w) i _ _ sl Hlen Hpol Hsl Ht Hu Hh) as Hr.
  destruct (reuse_pin _ _ _ _ _ _ _) as [reused s2]. cbn [fst] in Hr. subst reused. cbn [hinted se_selection].
  eexists _, _, _. split; [reflexivity|]. apply build_keeps, Hra.
Qed.
End Pins.
