(* ===== verification/RouterAffinity.v ===== *)
(** * What a session remembers between routed turns

    The theorems about sequences of turns: [decide] (RouterDecide.v), then
    [execute] (RouterExecute.v), then the next [decide] of the same session,
    over the same session memory. *)

From Stdlib Require Import QArith.
From S2P Require Import Prelude JsValue ProviderHealth RouterTypes RouterMedia RouterPolicy RouterSessions RouterRanker RouterExecute RouterRuns RouterProperties RouterDecide.
Open Scope Z_scope.

(** The failures after which a pin is no longer used. *)
Definition max_failures (config : router_config) : Z :=
  default DEFAULT_STICKY_MAX_QUALITY_FAILURES (rc_sticky config ≫= st_maxQualityFailures).

Definition failures (x : option slot) : Z := default 0 (sl ← x; ss_qualityFailures (sl_state sl)).

(** The pinned model of a slot. *)
Definition pinned_to (provider model : string) (x : option slot) : Prop :=
  ∃ sl, x = Some sl ∧ ss_stickyProvider (sl_state sl) = Some provider ∧
    ss_stickyModel (sl_state sl) = Some model.

Lemma broken_pin_unusable config now sl :
  max_failures config ≤ failures (Some sl) → isStickyUsable (rc_sticky config) now (Some (sl_state sl)) = false.
Proof.
  unfold max_failures, failures, isStickyUsable. cbn [mbind option_bind]. intros H.
  rewrite (proj2 (Z.leb_le _ _) H). by rewrite andb_false_r.
Qed.

Section Turns.
Context `{Tokenizer, Random, Sha1}.
Context (models : model_config) (config : router_config) (health : tracker_config)
        (store : store_options) (classifier : tier_classifier) (learning : option string).

Abbreviation decide_with := (decide_request models config health store classifier learning).
Abbreviation execute_with := (execute models config health).

(** [n] turns of one session, one after the other, that all choose the same
    model and all end in a failure the provider is to blame for.  Between and
    during the turns other sessions may do anything but use this slot. *)
Inductive failing_turns (key provider model : string) : nat → shared → Prop :=
  | no_turn s : 0 ≤ failures (jm_get key (sh_sessions s)) → failing_turns key provider model 0 s
  | one_more n s0 s w i d p s1 x acts s2 final :
      failing_turns key provider model n s0 →
      jm_get key (sh_sessions s) = jm_get key (sh_sessions s0) →
      (∀ sl, jm_get key (sh_sessions s) = Some sl → dw_start w ≤ sl_expiresAt sl) →
      input_key i = key →
      decide_with w i s = (Ok (d, p), s1) →
      rd_provider d = provider → rd_model d = model →
      undisturbed x (turn_of i d p) →
      execute_with x (turn_of i d p) s1 = Some (acts, s2, Failed) →
      last acts = Some (Yield (ErrorEvent final)) → isProviderFaultCode (er_code final) = true →
      failing_turns key provider model (S n) s2.

(** The state a turn's decision leaves in the slot. *)
Lemma decided_slot w i s d p s1 :
  decide_with w i s = (Ok (d, p), s1) →
  slot_of (turn_of i d p) s1 =
    Some (Slot (remembered (dw_end w) i (live_state (dw_start w) (input_slot i s)) d)
            (dw_end w + so_ttlMs store)).
Proof. intros Hd. exact (decide_stores models config health store classifier learning w i s d p s1 Hd). Qed.

Lemma execute_slot x t s acts s' e :
  undisturbed x t → execute_with x t s = Some (acts, s', e) → turn_slot store t acts s s' e.
Proof.
  intros Hq. unfold execute. destruct (attempt_plans _ _ _ _) as [|pl plans] eqn:Hp.
  - exfalso. revert Hp. apply plans_nonempty.
  - apply attempt_loop_slot; done.
Qed.

Lemma failing_turns_count key provider model n s :
  failing_turns key provider model n s →
  let x := jm_get key (sh_sessions s) in
  Z.of_nat n ≤ failures x ∧ ((0 < n)%nat → pinned_to provider model x).
Proof.
  induction 1 as [s Hbase|n s0 s w i d p s1 x acts s2 final Hft [IH IHp] Hsame Hlive Hkey Hd Hp Hm Hq He Hlast Hf];
    [split; [exact Hbase|lia]|].
  apply execute_slot in He as (final' & Hlast' & Hslot); [|done]. rewrite Hlast in Hlast'. injection Hlast' as <-.
  rewrite Hf, (decided_slot _ _ _ _ _ _ Hd) in Hslot. unfold slot_of in Hslot.
  change (slot_key (turn_of i d p)) with (input_key i) in Hslot. rewrite Hkey in Hslot.
  unfold input_slot in Hslot. rewrite Hkey, Hsame in Hslot.
  cbn [own_step] in Hslot. rewrite bool_decide_true in Hslot by done. cbn [fmap option_fmap option_map sl_state sl_expiresAt] in Hslot.
  rewrite Hslot. split; [|intros _; eexists; split; [reflexivity|]; cbn; by rewrite Hp, Hm].
  match goal with |- context [with_qualityFailures _ ?x] =>
    change (Z.of_nat (S n) ≤ default 0 (ss_qualityFailures x) + 1) end.
  cut (Z.of_nat n ≤ default 0 (ss_qualityFailures
    (remembered (dw_end w) i (live_state (dw_start w) (jm_get key (sh_sessions s0))) d))); [lia|].
  unfold remembered, live_state. cbn [ss_qualityFailures]. destruct (decide (n = O)) as [->|Hn].
  - destruct (_ && _); [|done]. destruct (jm_get key (sh_sessions s0)) as [sl|]; [|done].
    cbn [mbind option_bind]. destruct (_ <? _); [done|]. exact IH.
  - destruct (IHp ltac:(lia)) as (sl & Hsl & Hsp & Hsm). rewrite Hsl in *. cbn [mbind option_bind].
    rewrite (proj2 (Z.ltb_ge _ _)) by (by apply Hlive). cbn [mbind option_bind].
    rewrite Hsp, Hsm, Hp, Hm, !bool_decide_true by done. exact IH.
Qed.

(** P: A model that fails the whole turn through its provider's fault
    [maxQualityFailures] times in a row loses its pin: the next decision of the
    session, whenever and with whatever policy it is made, does not reuse it,
    so the tier is classified again.  The new classification, or the switch
    that prefers a warm cache, may still choose the model it was pinned to. *)
Theorem failing_pin_released key provider model n s s' now i policy :
  failing_turns key provider model n s → (0 < n)%nat → max_failures config ≤ Z.of_nat n →
  input_key i = key → jm_get key (sh_sessions s') = jm_get key (sh_sessions s) →
  (reuse_pin config health store now i policy s').1 = None ∧
  isStickyUsable (rc_sticky config) now (live_state now (input_slot i s')) = false.
Proof.
  intros Hft Hn Hmax Hkey Hsame. apply failing_turns_count in Hft as [Hc _]. unfold input_slot.
  assert (∀ sl, jm_get key (sh_sessions s') = Some sl →
            isStickyUsable (rc_sticky config) now (Some (sl_state sl)) = false) as Hu.
  { intros sl Hsl. apply broken_pin_unusable. rewrite <- Hsame, Hsl in Hc. lia. }
  split.
  - apply reuse_pin_unusable. unfold input_slot. by rewrite Hkey.
  - rewrite Hkey. unfold live_state. destruct (jm_get key (sh_sessions s')) as [sl|]; [|done]. cbn.
    destruct (_ <? _); [done|]. by apply Hu.
Qed.

(** C13: A model that has answered as the turn's first attempt keeps the
    conversation: the session's next decision chooses the same model and tier
    without asking the tier classifier, if it may reuse a pin at all, comes
    before the pin's age limits, finds the provider healthy and the model able
    to read the request, and no research-aware upgrade is configured. *)
Theorem answering_model_kept w1 i1 s1 d1 p1 s1' x acts s2 r w2 i2 :
  decide_with w1 i1 s1 = (Ok (d1, p1), s1') →
  undisturbed x (turn_of i1 d1 p1) →
  execute_with x (turn_of i1 d1 p1) s1' = Some (acts, s2, Answered) →
  last acts = Some (ObserveStats r) → sx_fallbacks r = O →
  input_key i2 = input_key i1 → (∀ s, input_slot i2 (dw_during_custom w2 s) = input_slot i2 s) →
  Z.max (dw_start w2) (dw_resumed w2) ≤ dw_end w1 + so_ttlMs store →
  dw_resumed w2 - dw_end w1 ≤ default DEFAULT_STICKY_TTL_MS (rc_sticky config ≫= st_ttlMs) →
  (rc_sticky config ≫= st_enabled) ≠ Some false → 0 < max_failures config →
  rd_provider d1 ≠ "" → rd_model d1 ≠ "" →
  may_reuse config w2 i2 = true → researchAwareEnabled config = false →
  (isProviderUnhealthy health (dw_resumed w2) (rd_provider d1)
     (dw_during_custom w2 (get_session (dw_start w2) (input_key i2) s2).2)).1 = false →
  supportsMediaRequirements models (ref_of (rd_provider d1) (rd_model d1))
    (collectRequiredInputModalities (rq_messages (di_request i2))) = true →
  ∃ d2 p2 s3, decide_with w2 i2 s2 = (Ok (d2, p2), s3) ∧
    rd_provider d2 = rd_provider d1 ∧ rd_model d2 = rd_model d1 ∧
    rd_tokenSaverTier d2 = rd_tokenSaverTier d1 ∧ rd_resolvedFrom d2 = ByTokenSaver.
Proof.
  intros Hd1 Hq He Hlast Hfb Hkey Hquiet Ht Hage Hen Hmax Hp Hm Hmay Hra Hh Hs.
  apply execute_slot in He as (r' & Hlast' & Hslot); [|done]. rewrite Hlast in Hlast'. injection Hlast' as <-.
  rewrite Hfb in Hslot. cbn [Nat.eqb] in Hslot. rewrite (decided_slot _ _ _ _ _ _ Hd1) in Hslot.
  change (slot_of (turn_of i1 d1 p1) s2) with (input_slot i1 s2) in Hslot.
  change (slot_key (turn_of i1 d1 p1)) with (input_key i1) in Hslot.
  cbn [own_step] in Hslot. rewrite bool_decide_true in Hslot by done.
  cbn [fmap option_fmap option_map sl_state sl_expiresAt] in Hslot.
  assert (∃ sl, input_slot i2 s2 = Some sl ∧ sl_expiresAt sl = dw_end w1 + so_ttlMs store ∧
    ss_stickyProvider (sl_state sl) = Some (rd_provider d1) ∧ ss_stickyModel (sl_state sl) = Some (rd_model d1) ∧
    ss_tokenSaverTier (sl_state sl) = rd_tokenSaverTier d1 ∧ ss_updatedAt (sl_state sl) = dw_end w1 ∧
    default 0 (ss_qualityFailures (sl_state sl)) = 0) as (sl & Hsl & Hex & Hsp & Hsm & Hst & Hup & Hqf).
  { unfold input_slot at 1. rewrite Hkey. change (jm_get (input_key i1) (sh_sessions s2)) with (input_slot i1 s2).
    rewrite Hslot. destruct (_ =? 0) eqn:Hz; eexists; (split; [reflexivity|]); cbn; [|done].
    repeat split; try done. by apply Z.eqb_eq in Hz. }
  assert (isStickyUsable (rc_sticky config) (dw_resumed w2) (Some (sl_state sl)) = true) as Hu.
  { unfold isStickyUsable. rewrite Hsp, Hsm, Hup, Hqf. fold (max_failures config).
    rewrite (proj2 (Z.ltb_ge _ _) Hage), (proj2 (Z.leb_gt _ _) Hmax).
    destruct (rc_sticky config ≫= st_enabled) as [[]|]; [|done|];
      destruct (rd_provider d1), (rd_model d1); done. }
  destruct (input_slot_get i2 (dw_start w2) s2 sl Hsl) as [Hget _]; [lia|].
  destruct (decide_reuses models config health store classifier learning w2 i2 s2 sl Hmay Hra)
    as (d2 & p2 & s3 & Hd2 & Htier & Hmodel); [by rewrite Hquiet|lia|done|by rewrite Hsp|].
  exists d2, p2, s3. rewrite Hsp, Hsm in Hmodel. destruct (Hmodel Hs) as (Hmp & Hmm & Hmr).
  repeat split; [done..| |done]. by rewrite Htier.
Qed.
End Turns.

(** ** Orchestration runs *)

(** The configured length of a run; the first turn always belongs to it. *)
Definition run_limit (config : router_config) : Z :=
  Z.max 1 (default DEFAULT_MAX_ORCHESTRATION_TURNS (rc_autoOrchestrate config ≫= ao_maxContinuationTurns)).

Lemma orchestrate_limit config i tier sticky x :
  orchestrate config i tier sticky = Some x →
  let turns := default 0 (sticky ≫= ss_orchestrationContinuations) in
  (0 < turns → ss_orchestrating <$> sticky = Some true) → turns + 1 ≤ run_limit config.
Proof.
  unfold orchestrate, run_limit. destruct (rc_autoOrchestrate config) as [ao|]; [|done]. cbn [mbind option_bind].
  destruct (ao_enabled ao && _); [|done]. unfold applyOrchestration.
  destruct (negb (ao_enabled ao) || _); [done|]. cbn zeta. intros Hx Ho.
  destruct (Z.ltb_spec 0 (default 0 (sticky ≫= ss_orchestrationContinuations))) as [Hpos|]; [|lia].
  specialize (Ho Hpos). destruct sticky as [s|]; [|done]. injection Ho as Ho. rewrite Ho in Hx.
  destruct (Z.leb_spec (default DEFAULT_MAX_ORCHESTRATION_TURNS (ao_maxContinuationTurns ao))
    (default 0 (Some s ≫= ss_orchestrationContinuations))); cbn [orb] in Hx; [done|]. lia.
Qed.

Section Runs.
Context `{Tokenizer, Random, Sha1}.
Context (models : model_config) (config : router_config) (health : tracker_config)
        (store : store_options) (classifier : tier_classifier) (learning : option string).

Lemma build_orchestrates i scenario scenarioType requirements sticky st selection :
  rd_orchestrating (build_decision models config i scenario scenarioType requirements sticky st selection) = true →
  ∃ tier x, orchestrate config i tier sticky = Some x.
Proof.
  unfold build_decision. destruct (research_upgrade _ _ _ _) as [[sel tier] up].
  destruct (orchestrate config i tier sticky) as [x|] eqn:Ho; [intros _; by exists tier, x|].
  match goal with |- context [rerouteDecisionForMedia ?c ?cs ?ms ?d ?mu] =>
    pose proof (reroute_keeps c cs ms d mu) as Hk; destruct (rerouteDecisionForMedia c cs ms d mu) as [d' mu'] end.
  destruct Hk as (_ & Hk & _). cbn [with_mutations rd_orchestrating]. by rewrite Hk.
Qed.

Lemma decide_orchestrates w i s d p s1 :
  decide_request models config health store classifier learning w i s = (Ok (d, p), s1) →
  rd_orchestrating d = true →
  ∃ tier x, orchestrate config i tier (live_state (dw_start w) (input_slot i s)) = Some x.
Proof.
  unfold decide_request, input_slot. rewrite <- get_session_live.
  destruct (get_session _ _ s) as [sticky s0]. cbn [fst].
  match goal with |- context [let '(st, s) := ?x in _] => destruct x as [st s2] end.
  destruct (match se_selection _ with Some _ => _ | None => _ end) as [selection|]; [|done].
  intros [= <- _ _]. apply build_orchestrates.
Qed.

(** A run of orchestrated turns of one session: each is decided, executed and
    ends in any way; before each the user may have sent a message, which calls
    [invalidateSticky] on a slot that knows its tier. *)
Inductive orchestrated_run (key : string) : nat → shared → Prop :=
  | run_begins s :
      (∀ sl, jm_get key (sh_sessions s) = Some sl → ss_orchestrationContinuations (sl_state sl) = None) →
      orchestrated_run key 0 s
  | run_turn n s w i d p s1 x acts s2 e :
      orchestrated_run key n s → input_key i = key →
      (∀ sl, jm_get key (sh_sessions s) = Some sl → dw_start w ≤ sl_expiresAt sl) →
      decide_request models config health store classifier learning w i s = (Ok (d, p), s1) →
      rd_orchestrating d = true →
      undisturbed x (turn_of i d p) →
      execute models config health x (turn_of i d p) s1 = Some (acts, s2, e) →
      orchestrated_run key (S n) s2
  | run_message n s sessionId now tier sl :
      orchestrated_run key n s → (0 < n)%nat → makeKey sessionId false = key →
      jm_get key (sh_sessions s) = Some sl → now ≤ sl_expiresAt sl →
      truthy (ss_tokenSaverTier (sl_state sl)) = Some tier →
      orchestrated_run key n (invalidateSticky store now sessionId s).

(** What a run of [n] turns has left in the slot. *)
Definition run_slot (n : nat) (x : option slot) : Prop :=
  default 0 (x ≫= ss_orchestrationContinuations ∘ sl_state) = Z.of_nat n ∧
  ((0 < n)%nat → ss_orchestrating ∘ sl_state <$> x = Some true).

Lemma run_slot_own n key x op :
  match op with OpRecordFailure _ | OpResetFailures _ => True | _ => False end →
  run_slot n x → run_slot n (own_step store key x op).
Proof.
  intros Hop Hx. destruct op as [| | | |k|k]; try done; cbn [own_step]; (case_bool_decide; [|done]);
    destruct x as [sl|]; try done; cbn; by destruct (_ =? 0).
Qed.

Lemma run_slot_turn n t acts s s' e :
  turn_slot store t acts s s' e → run_slot n (slot_of t s) → run_slot n (slot_of t s').
Proof.
  intros Ht Hr. destruct e; cbn [turn_slot] in Ht; [| |by rewrite Ht..]; destruct Ht as (x & _ & ->);
    (case_match; [|done]); by apply run_slot_own.
Qed.

Lemma live_slot now x :
  (∀ sl, x = Some sl → now ≤ sl_expiresAt sl) → live_state now x = sl_state <$> x.
Proof.
  destruct x as [sl|]; [|done]. intros Hl. cbn. by rewrite (proj2 (Z.ltb_ge _ _) (Hl sl eq_refl)).
Qed.

Lemma run_slot_message n s sessionId now tier sl :
  let key := makeKey sessionId false in
  jm_get key (sh_sessions s) = Some sl → now ≤ sl_expiresAt sl →
  truthy (ss_tokenSaverTier (sl_state sl)) = Some tier →
  run_slot n (Some sl) → (0 < n)%nat →
  run_slot n (jm_get key (sh_sessions (invalidateSticky store now sessionId s))).
Proof.
  intros key Hsl Ht Htier [Hc Ho] Hn. specialize (Ho Hn). injection Ho as Ho. unfold invalidateSticky.
  pose proof (get_session_live now key s) as Hg. rewrite Hsl, live_slot in Hg by (by intros ? [= <-]).
  fold key. destruct (get_session now key s) as [current s1]. cbn [fst fmap option_fmap option_map] in Hg. subst current.
  cbn [mbind option_bind]. rewrite Htier, Ho. cbn [with_sessions sh_sessions]. unfold set.
  change (makeKey _ _) with key. rewrite jm_get_set_eq. split; [exact Hc|done].
Qed.

Lemma orchestrated_run_slot key n s :
  orchestrated_run key n s → run_slot n (jm_get key (sh_sessions s)) ∧ Z.of_nat n ≤ run_limit config.
Proof.
  induction 1 as [s Hs|n s w i d p s1 x acts s2 e Hrun [[IHc IHo] Hn] Hkey Hlive Hd Ho Hq He
    |n s sessionId now tier sl Hrun [IH Hn] Hpos Hkey Hsl Ht Htier].
  - split; [|unfold run_limit; lia]. split; [|lia].
    destruct (jm_get key (sh_sessions s)) as [sl|]; [|done]. cbn. by rewrite (Hs sl eq_refl).
  - set (x0 := jm_get key (sh_sessions s)) in *.
    assert (live_state (dw_start w) (input_slot i s) = sl_state <$> x0) as Hls
      by (unfold input_slot; rewrite Hkey; by apply live_slot).
    pose proof (decide_orchestrates _ _ _ _ _ _ Hd Ho) as (tier & y & Hor). rewrite Hls in Hor.
    pose proof (decided_slot models config health store classifier learning _ _ _ _ _ _ Hd) as Hslot.
    rewrite Hls in Hslot.
    assert (default 0 ((sl_state <$> x0) ≫= ss_orchestrationContinuations) = Z.of_nat n) as Hturns
      by (rewrite <- IHc; by destruct x0).
    split.
    + apply (execute_slot models config health store) in He; [|done].
      eapply run_slot_turn in He; [rewrite <- Hkey; exact He|]. rewrite Hslot. split.
      * unfold remembered. cbn [mbind option_bind compose sl_state ss_orchestrationContinuations].
        rewrite Ho. unfold compose. cbn [sl_state ss_orchestrationContinuations]. rewrite Hturns.
        change (Z.of_nat n + 1 = Z.of_nat (S n)). lia.
      * intros _. cbn. by rewrite Ho.
    + apply orchestrate_limit in Hor; rewrite Hturns in *; [lia|]. intros Hpos.
      rewrite <- option_fmap_compose. apply IHo. lia.
  - split; [|done]. subst key. rewrite Hsl in IH. by eapply run_slot_message.
Qed.

(** P: No more than [maxContinuationTurns] consecutive turns of a session are
    orchestrated, however they end, while its slot does not expire and, at
    every message of the user in between, knows its tier.  Without a tier a
    message resets the count ([chosen_model_uncaps_run] below). *)
Theorem orchestration_bounded key n s : orchestrated_run key n s → Z.of_nat n ≤ run_limit config.
Proof. intros Hr. by apply orchestrated_run_slot in Hr as [_ Hn]. Qed.
End Runs.

(** ** A conversation *)

Module Talk.

#[local] Existing Instance RouterProperties.Sample.tokenizer.
#[local] Existing Instance RouterProperties.Sample.random.
#[local] Existing Instance RouterProperties.Sample.sha1.

Abbreviation catalog := RouterProperties.Sample.catalog.
Abbreviation circuit := RouterProperties.Sample.circuit.
Abbreviation quiet_world := RouterProperties.Sample.quiet_world.

Definition tiers : token_saver_config :=
  TokenSaverConfig true (ref_of "acme" "large") "medium" [("medium", ref_of "acme" "large")] None None.

(** Orchestration is triggered by every tier and may last two turns. *)
Definition routing : router_config :=
  RouterConfig None (Some (ref_of "acme" "large")) None None None None (Some tiers) None None
    (Some (AutoOrchestrateConfig true [] (Some 2) None)) None.

(** A judge that always answers the same tier. *)
Definition judge : tier_classifier := λ ts _ _ _ _,
  m ← jm_get "medium" (ts_tiers ts); Some (TokenSaverDecision "medium" m ByJudge None).

Definition store : store_options := store_options_of None None.

Definition question : model_request :=
  ModelRequest "acme" "large"
    [Message User [TextBlock "Hi"]; Message Assistant [TextBlock "Hello"]; Message User [TextBlock "Why?"]] None None.

Definition asked : route_input := RouteInput question "s" true None None None None None None.

(** The same question for a model the user has chosen. *)
Definition chosen : route_input :=
  RouteInput question "s" true (Some "acme") (Some "large") None None None None.

Definition at_time (now : Z) : decide_world := DecideWorld now now now None id id.

Definition blank : shared := Shared [] [] [] [].

Definition decide_asked (i : route_input) (now : Z) (s : shared) :=
  decide_request catalog routing circuit store judge None (at_time now) i s.

(** One turn with the given answers of the model. *)
Definition turn (answer : nat → call_result) (i : route_input) (now : Z) (s : shared)
  : option (router_decision * list action * shared * execute_end) :=
  match decide_asked i now s with
  | (Ok (d, p), s1) =>
    '(acts, s2, e) ← execute catalog routing circuit (quiet_world answer) (turn_of i d p) s1;
    Some (d, acts, s2, e)
  | _ => None
  end.

Lemma quiet_undisturbed answer t : undisturbed (quiet_world answer) t.
Proof. by split. Qed.

Abbreviation refused := (λ _ : nat,
  CallResult SlotGranted [] (StreamThrows (ThrownCanonical RouterProperties.Sample.overloaded))).
Abbreviation answered := (λ _ : nat, RouterProperties.Sample.answer_text "Because.").

Definition alive (now : Z) (s : shared) : bool :=
  match jm_get "s" (sh_sessions s) with Some sl => now <=? sl_expiresAt sl | None => true end.

Definition fails_again (now : Z) (s : shared) : option shared :=
  match turn refused asked now s with
  | Some (d, acts, s', Failed) =>
    match last acts with
    | Some (Yield (ErrorEvent final)) =>
      if isProviderFaultCode (er_code final) && alive now s
         && bool_decide (rd_provider d = "acme") && bool_decide (rd_model d = "large")
      then Some s' else None
    | _ => None
    end
  | _ => None
  end.

Lemma fails_again_turn n now s s' :
  failing_turns catalog routing circuit store judge None "s" "acme" "large" n s →
  fails_again now s = Some s' →
  failing_turns catalog routing circuit store judge None "s" "acme" "large" (S n) s'.
Proof.
  intros Hn. unfold fails_again, turn. destruct (decide_asked asked now s) as [[[d p]|] s1] eqn:Hd; [|done].
  destruct (execute _ _ _ _ _ _) as [[[acts s2] e]|] eqn:He; [|done]. cbn [mbind option_bind].
  destruct e; try done. destruct (last acts) as [[[]| | | | | | |]|] eqn:Hl; try done.
  destruct (_ && _ && _ && _) eqn:Hb; [|done]. intros [= <-].
  apply andb_true_iff in Hb as [Hb Hm%bool_decide_eq_true]. apply andb_true_iff in Hb as [Hb Hp%bool_decide_eq_true].
  apply andb_true_iff in Hb as [Hf Ha].
  eapply (one_more _ _ _ _ _ _ _ _ _ n s s (at_time now) asked d p s1 (quiet_world refused) acts s2);
    try done.
  intros sl Hsl. unfold alive in Ha. rewrite Hsl in Ha. by apply Z.leb_le.
Qed.

Lemma two_failures : match fails_again 0 blank ≫= fails_again 1 with Some _ => true | None => false end = true.
Proof. vm_compute. reflexivity. Qed.

(** The third decision may still choose the model: here the judge knows no
    other. *)
Example failing_model_chosen_again :
  match fails_again 0 blank ≫= fails_again 1 with
  | Some s => match (decide_asked asked 2 s).1 with
              | Ok (d, _) => rd_model d = "large" ∧ rd_resolvedFrom d = ByJudge
              | Throw _ => False
              end
  | None => False
  end.
Proof. vm_compute. done. Qed.

(** The model fails two turns; the third decision does not reuse its pin. *)
Lemma failing_pin_released_witness : ∃ s : shared,
  is_Some (input_slot asked s) ∧ (reuse_pin routing circuit store 2 asked Judge s).1 = None.
Proof.
  pose proof two_failures as Hrun. destruct (fails_again 0 blank) as [s1|] eqn:H1; [|discriminate Hrun].
  cbn [mbind option_bind] in Hrun. destruct (fails_again 1 s1) as [s2|] eqn:H2; [|discriminate Hrun].
  assert (failing_turns catalog routing circuit store judge None "s" "acme" "large" 2 s2) as Hft.
  { apply (fails_again_turn 1 1 s1); [|exact H2]. apply (fails_again_turn 0 0 blank); [|exact H1].
    apply no_turn. vm_compute. discriminate. }
  exists s2. split.
  - destruct (failing_turns_count _ _ _ _ _ _ _ _ _ _ _ Hft) as [_ (sl & Hsl & _)]; [lia|]. exists sl. exact Hsl.
  - refine (proj1 (failing_pin_released catalog routing circuit store judge None "s" "acme" "large" 2 s2 s2 2
      asked Judge Hft _ _ eq_refl eq_refl)); [lia | vm_compute; discriminate].
Defined.

(** The first turn is judged and answered; the second keeps its model. *)
Lemma answering_model_kept_witness : ∃ d1 s2 d2 p2 s3,
  decide_asked asked 2 s2 = (Ok (d2, p2), s3) ∧ rd_model d1 = "large" ∧ rd_model d2 = rd_model d1 ∧
  rd_resolvedFrom d1 = ByJudge ∧ rd_resolvedFrom d2 = ByTokenSaver.
Proof.
  assert (match decide_asked asked 0 blank with
          | (Ok (d1, p1), s1) =>
            match execute catalog routing circuit (quiet_world answered) (turn_of asked d1 p1) s1 with
            | Some (acts, s2, Answered) =>
              bool_decide (rd_provider d1 = "acme") && bool_decide (rd_model d1 = "large")
              && bool_decide (rd_resolvedFrom d1 = ByJudge)
              && match last acts with Some (ObserveStats r) => (sx_fallbacks r =? 0)%nat | _ => false end
              && negb (isProviderUnhealthy circuit 2 "acme" (get_session 2 "s" s2).2).1
            | _ => false
            end
          | _ => false
          end = true) as Hcheck by (vm_compute; reflexivity).
  destruct (decide_asked asked 0 blank) as [[[d1 p1]|] s1] eqn:Hd1; [|discriminate Hcheck].
  destruct (execute _ _ _ _ _ _) as [[[acts s2] e]|] eqn:He; [|discriminate Hcheck].
  destruct e; try discriminate Hcheck.
  apply andb_true_iff in Hcheck as [Hcheck Hh%negb_true_iff]. apply andb_true_iff in Hcheck as [Hcheck Hl].
  apply andb_true_iff in Hcheck as [Hcheck Hj%bool_decide_eq_true].
  apply andb_true_iff in Hcheck as [Hp%bool_decide_eq_true Hm%bool_decide_eq_true].
  destruct (last acts) as [[| | | | | | |r]|] eqn:Hlast; try discriminate Hl. apply Nat.eqb_eq in Hl.
  destruct (answering_model_kept catalog routing circuit store judge None (at_time 0) asked blank d1 p1 s1
    (quiet_world answered) acts s2 r (at_time 2) asked Hd1 (quiet_undisturbed _ _) He Hlast Hl)
    as (d2 & p2 & s3 & Hd2 & _ & Hm2 & _ & Hr2).
  - reflexivity.
  - intros s. reflexivity.
  - vm_compute. discriminate.
  - vm_compute. discriminate.
  - vm_compute. discriminate.
  - vm_compute. reflexivity.
  - rewrite Hp. discriminate.
  - rewrite Hm. discriminate.
  - vm_compute. reflexivity.
  - vm_compute. reflexivity.
  - rewrite Hp. exact Hh.
  - rewrite Hp, Hm. vm_compute. reflexivity.
  - exists d1, s2, d2, p2, s3. by repeat split.
Defined.

Definition orchestrated_turn (now : Z) (s : shared) : option shared :=
  match turn answered asked now s with
  | Some (d, _, s', _) => if rd_orchestrating d && alive now s then Some s' else None
  | None => None
  end.

Lemma two_orchestrated :
  match orchestrated_turn 0 blank with
  | Some s => match orchestrated_turn 2 (invalidateSticky store 1 "s" s) with Some _ => true | None => false end
              && match jm_get "s" (sh_sessions s) with
                 | Some sl => (1 <=? sl_expiresAt sl)
                              && bool_decide (ss_tokenSaverTier (sl_state sl) = Some "medium")
                 | None => false
                 end
  | None => false
  end = true.
Proof. vm_compute. reflexivity. Qed.

Lemma orchestrated_turn_run n now s s' :
  orchestrated_run catalog routing circuit store judge None "s" n s → orchestrated_turn now s = Some s' →
  orchestrated_run catalog routing circuit store judge None "s" (S n) s'.
Proof.
  intros Hn. unfold orchestrated_turn, turn. destruct (decide_asked asked now s) as [[[d p]|] s1] eqn:Hd; [|done].
  destruct (execute _ _ _ _ _ _) as [[[acts s2] e]|] eqn:He; [|done]. cbn [mbind option_bind].
  destruct (_ && _) eqn:Hb; [|done]. intros [= <-]. apply andb_true_iff in Hb as [Ho Ha].
  eapply (run_turn _ _ _ _ _ _ _ n s (at_time now) asked d p s1 (quiet_world answered) acts s2 e); try done.
  intros sl Hsl. unfold alive in Ha. rewrite Hsl in Ha. by apply Z.leb_le.
Qed.

(** Two turns with a message in between are a run, and the longest one. *)
Lemma orchestration_bounded_witness : ∃ s,
  orchestrated_run catalog routing circuit store judge None "s" 2 s ∧ 2 ≤ run_limit routing.
Proof.
  pose proof two_orchestrated as Hrun. destruct (orchestrated_turn 0 blank) as [s1|] eqn:H1; [|discriminate Hrun].
  apply andb_true_iff in Hrun as [Hrun Hsl].
  destruct (jm_get "s" (sh_sessions s1)) as [sl|] eqn:Hslot; [|discriminate Hsl].
  apply andb_true_iff in Hsl as [Hex%Z.leb_le Htier%bool_decide_eq_true].
  destruct (orchestrated_turn 2 (invalidateSticky store 1 "s" s1)) as [s2|] eqn:H2; [|discriminate Hrun].
  assert (orchestrated_run catalog routing circuit store judge None "s" 2 s2) as Hr.
  { apply (orchestrated_turn_run 1 2 _ _) with (2 := H2).
    refine (run_message _ _ _ _ _ _ "s" 1 s1 "s" 1 "medium" sl _ _ eq_refl Hslot Hex _);
      [|lia|by rewrite Htier].
    apply (orchestrated_turn_run 0 0 blank); [|exact H1]. by apply run_begins. }
  exists s2. split; [exact Hr|]. exact (orchestration_bounded catalog routing circuit store judge None "s" 2 s2 Hr).
Defined.

(** The end of [n] turns with a chosen model, each after a message of the
    user, that are all orchestrated. *)
Fixpoint chosen_turns (n : nat) (s : shared) : option shared :=
  match n with
  | O => Some s
  | S n =>
    match turn answered chosen 2 (invalidateSticky store 1 "s" s) with
    | Some (d, _, s, Answered) => if rd_orchestrating d then chosen_turns n s else None
    | _ => None
    end
  end.

(** P: Once the user has chosen a model, a run has no tier, and every message
    of the user forgets how long it has lasted: with no trigger tiers, ten
    turns are orchestrated where two are allowed. *)
Example chosen_model_uncaps_run :
  match orchestrated_turn 0 blank ≫= chosen_turns 10 with Some _ => true | None => false end = true.
Proof. vm_compute. reflexivity. Qed.
End Talk.
