(* ===== verification/MessagePairs.v ===== *)
(** * Tool calls and their results in a message history

    The helpers that keep calls and results paired when a history is cut
    (src/src/context/compaction/toolPairIntegrity.ts), the calls of a reply
    and the results of a batch (src/src/agent/loop/collectToolCalls.ts,
    ensureToolResultPairing.ts, decideLoopContinuation.ts) and the history a
    forked subagent starts with (src/src/agent/sub/filterIncompleteToolCalls.ts).
    Messages are those of RouterTypes.v; the fields these functions only pass
    on ([metadata], [isError], [raw]) are left out.  A [Set] of strings is its
    list of members in insertion order. *)

From S2P Require Import Prelude JsValue RouterTypes.
Open Scope Z_scope.

(** ** Blocks *)

(** [block.type === "tool_call"], with the id. *)
Definition call_id (b : content_block) : option string :=
  match b with ToolCallBlock id _ _ => Some id | _ => None end.

Definition is_call (b : content_block) : bool := bool_decide (is_Some (call_id b)).

(** [isDirectToolResultBlock], with the id. *)
Definition result_id (b : content_block) : option string :=
  match b with
  | ToolResultBlock id _ | ToolResultReferenceBlock id _ _ => Some id
  | _ => None
  end.

Definition isDirectToolResultBlock (b : content_block) : bool := bool_decide (is_Some (result_id b)).

(** [isMediaReferenceWithId], with the id. *)
Definition media_id (b : content_block) : option string :=
  match b with
  | MediaReferenceBlock (Some id) _ _ => if bool_decide (id = "") then None else Some id
  | _ => None
  end.

Definition isMediaReferenceWithId (b : content_block) : bool := bool_decide (is_Some (media_id b)).

(** The ids an accessor reads in the messages of one role, in order. *)
Definition ids_in (r : role) (f : content_block → option string) (messages : list message)
  : list string :=
  concat (map (λ m, if bool_decide (m_role m = r) then omap f (m_content m) else []) messages).

Definition collectToolCallIds (messages : list message) : list string :=
  dedup (ids_in Assistant call_id messages).

Definition collectToolResultIds (messages : list message) : list string :=
  dedup (ids_in User result_id messages).

(** ** Removing what lost its partner *)

Definition has_content (m : message) : bool := bool_decide (m_content m ≠ []).

Definition filter_content (r : role) (keep : content_block → bool) (m : message) : message :=
  if bool_decide (m_role m = r) then Message (m_role m) (List.filter keep (m_content m)) else m.

Definition call_paired (pairedIds : list string) (b : content_block) : bool :=
  match call_id b with Some id => bool_decide (id ∈ pairedIds) | None => true end.

Definition stripUnpairedToolCalls (messages : list message) (pairedIds : list string) : list message :=
  List.filter has_content (map (filter_content Assistant (call_paired pairedIds)) messages).

Definition result_paired (pairedIds : list string) (b : content_block) : bool :=
  match result_id b, media_id b with
  | Some id, _ | None, Some id => bool_decide (id ∈ pairedIds)
  | None, None => true
  end.

Definition stripUnpairedToolResults (messages : list message) (pairedIds : list string) : list message :=
  List.filter has_content (map (filter_content User (result_paired pairedIds)) messages).

(** The three steps SnipEngine and CompactionEngine both take. *)
Definition strip_unpaired (messages : list message) : list message :=
  let toolResultIds := collectToolResultIds messages in
  let withoutDanglingCalls := stripUnpairedToolCalls messages toolResultIds in
  let pairedToolCallIds := collectToolCallIds withoutDanglingCalls in
  stripUnpairedToolResults withoutDanglingCalls pairedToolCallIds.

Definition CONTINUATION_TEXT : string :=
  "[system: the conversation above has been compacted. please continue with the current task.]".

Definition ensureTrailingUserMessage (messages : list message) : list message :=
  match last messages with
  | Some (Message Assistant _) => messages ++ [Message User [TextBlock CONTINUATION_TEXT]]
  | _ => messages
  end.

(** ** The calls of one reply *)

Definition tool_call : Type := string * string * jsval.
Definition tc_id (c : tool_call) : string := c.1.1.

Fixpoint calls_unseen (seen : list string) (blocks : list content_block) : list tool_call :=
  match blocks with
  | [] => []
  | ToolCallBlock id name input :: blocks =>
    if bool_decide (id ∈ seen) then calls_unseen seen blocks
    else (id, name, input) :: calls_unseen (set_add id seen) blocks
  | _ :: blocks => calls_unseen seen blocks
  end.

Definition collectToolCalls (m : message) : list tool_call := calls_unseen [] (m_content m).

Fixpoint duplicates_from (seen : list string) (blocks : list content_block) : Z :=
  match blocks with
  | [] => 0
  | ToolCallBlock id _ _ :: blocks =>
    if bool_decide (id ∈ seen) then 1 + duplicates_from seen blocks
    else duplicates_from (set_add id seen) blocks
  | _ :: blocks => duplicates_from seen blocks
  end.

Definition countDuplicateToolCalls (m : message) : Z := duplicates_from [] (m_content m).

(** [decideLoopContinuation]: [true] is [continue]. *)
Definition decideLoopContinuation (m : message) : bool :=
  (0 <? length (collectToolCalls m))%nat.

(** ** The results of a batch

    [resultsByCallId] is the map from an id to the queue of its results;
    [shift] takes the first of a queue.  [missing] is [createMissingToolResult]. *)
Section Results.
Context {R : Type} (r_id : R → string) (missing : tool_call → R).

Definition queue_result (queues : jmap (list R)) (result : R) : jmap (list R) :=
  match jm_get (r_id result) queues with
  | Some queue => jm_set (r_id result) (queue ++ [result]) queues
  | None => jm_set (r_id result) [result] queues
  end.

Fixpoint pair_calls (queues : jmap (list R)) (calls : list tool_call) : list R :=
  match calls with
  | [] => []
  | call :: calls =>
    match jm_get (tc_id call) queues with
    | Some (result :: queue) => result :: pair_calls (jm_set (tc_id call) queue queues) calls
    | _ => missing call :: pair_calls queues calls
    end
  end.

Definition ensureToolResultPairing (calls : list tool_call) (results : list R) : list R :=
  pair_calls (foldl queue_result [] results) calls.
End Results.

(** ** The history of a forked subagent *)

Definition completed_ids (messages : list message) : list string :=
  dedup (concat (map (λ m, omap result_id (m_content m)) messages)).

Definition scrub_calls (completedIds : list string) (m : message) : option message :=
  match m_role m with
  | User => Some m
  | Assistant =>
    match List.filter (call_paired completedIds) (m_content m) with
    | [] => None
    | filtered => Some (Message Assistant filtered)
    end
  end.

Definition filterIncompleteToolCalls (messages : list message) : list message :=
  omap (scrub_calls (completed_ids messages)) messages.

(** ** Blocks with the role of their message *)

Definition tagged (messages : list message) : list (role * content_block) :=
  concat (map (λ m, map (pair (m_role m)) (m_content m)) messages).

Lemma tagged_cons m messages :
  tagged (m :: messages) = map (pair (m_role m)) (m_content m) ++ tagged messages.
Proof. done. Qed.

Lemma tagged_app l1 l2 : tagged (l1 ++ l2) = tagged l1 ++ tagged l2.
Proof. unfold tagged. by rewrite map_app, concat_app. Qed.

Lemma elem_of_tagged r b messages :
  (r, b) ∈ tagged messages ↔ ∃ m, m ∈ messages ∧ m_role m = r ∧ b ∈ m_content m.
Proof.
  induction messages as [|m l IH].
  - split; [by intros ?%elem_of_nil|]. intros (m & Hm%elem_of_nil & _). done.
  - rewrite tagged_cons, elem_of_app, IH, list_elem_of_fmap. split.
    + intros [(b' & [= -> ->] & Hb)|(m' & ? & ? & ?)]; [exists m|exists m']; set_solver.
    + intros (m' & [->|Hm']%elem_of_cons & Hr & Hb); [left; exists b; by rewrite <- Hr|right; eauto].
Qed.

Definition tag_id (r : role) (f : content_block → option string) (rb : role * content_block)
  : option string :=
  if bool_decide (rb.1 = r) then f rb.2 else None.

Lemma ids_in_tagged r f messages : ids_in r f messages = omap (tag_id r f) (tagged messages).
Proof.
  unfold ids_in. induction messages as [|m l IH]; [done|]. cbn [map concat].
  rewrite tagged_cons, omap_app, <- IH. f_equal.
  induction (m_content m) as [|b bs IHb]; cbn; [by case_bool_decide|].
  unfold tag_id at 1; cbn. case_bool_decide as Hr; cbn; rewrite <- IHb; done.
Qed.

Lemma elem_of_ids_in r f messages id :
  id ∈ ids_in r f messages ↔ ∃ b, (r, b) ∈ tagged messages ∧ f b = Some id.
Proof.
  rewrite ids_in_tagged, list_elem_of_omap. unfold tag_id. split.
  - intros ([r' b] & Hin & Hf). cbn in Hf. case_bool_decide; naive_solver.
  - intros (b & Hin & Hf). exists (r, b). cbn. by rewrite bool_decide_true.
Qed.

Lemma tagged_has_content messages : tagged (List.filter has_content messages) = tagged messages.
Proof.
  induction messages as [|m l IH]; [done|]. cbn [List.filter]. unfold has_content at 1.
  case_bool_decide as Hm; rewrite !tagged_cons, ?IH; [done|].
  destruct (m_content m); [done|]. done.
Qed.

Lemma filter_map_pair (p : role * content_block → bool) r l :
  List.filter p (map (pair r) l) = map (pair r) (List.filter (λ b, p (r, b)) l).
Proof. induction l as [|b l IH]; [done|]. cbn. rewrite IH. by destruct (p (r, b)). Qed.

Lemma tagged_filter_content r keep messages :
  tagged (map (filter_content r keep) messages) =
  List.filter (λ rb, negb (bool_decide (rb.1 = r)) || keep rb.2) (tagged messages).
Proof.
  induction messages as [|m l IH]; [done|]. cbn [map].
  rewrite !tagged_cons, List.filter_app, IH, filter_map_pair. f_equal. unfold filter_content. cbn [fst snd].
  case_bool_decide as Hr; cbn [m_role m_content negb orb]; [done|]. f_equal.
  symmetry. by apply forallb_filter_id, forallb_forall.
Qed.

(** ** What the removal keeps *)

(** The calls that have a result and the results that have a call. *)
Definition pair_kept (messages : list message) (rb : role * content_block) : bool :=
  let answered id := bool_decide (id ∈ ids_in Assistant call_id messages
                                  ∧ id ∈ ids_in User result_id messages) in
  match rb with
  | (Assistant, b) => match call_id b with Some id => answered id | None => true end
  | (User, b) =>
    match result_id b, media_id b with
    | Some id, _ | None, Some id => answered id
    | None, None => true
    end
  end.

Lemma call_ids_without_dangling messages id :
  id ∈ collectToolCallIds (stripUnpairedToolCalls messages (collectToolResultIds messages))
  ↔ id ∈ ids_in Assistant call_id messages ∧ id ∈ ids_in User result_id messages.
Proof.
  unfold collectToolCallIds, stripUnpairedToolCalls.
  rewrite elem_of_dedup, !elem_of_ids_in, tagged_has_content, tagged_filter_content.
  setoid_rewrite elem_of_bfilter. unfold call_paired, collectToolResultIds. cbn.
  split.
  - intros (b & [Hin Hp] & Hb). rewrite Hb in Hp. apply bool_decide_eq_true_1 in Hp.
    rewrite elem_of_dedup, elem_of_ids_in in Hp. eauto.
  - intros [(b & Hin & Hb) Hr]. exists b. rewrite Hb. repeat split; try done.
    apply bool_decide_eq_true_2. by rewrite elem_of_dedup, elem_of_ids_in.
Qed.

Lemma filter_filter {A} (p q : A → bool) l :
  List.filter p (List.filter q l) = List.filter (λ x, q x && p x) l.
Proof. induction l as [|x l IH]; [done|]. cbn. destruct (q x); cbn; by rewrite IH. Qed.

Lemma tagged_strip_unpaired messages :
  tagged (strip_unpaired messages) = List.filter (pair_kept messages) (tagged messages).
Proof.
  unfold strip_unpaired, stripUnpairedToolResults.
  rewrite tagged_has_content, tagged_filter_content. unfold stripUnpairedToolCalls at 2.
  rewrite tagged_has_content, tagged_filter_content, filter_filter.
  apply filter_ext_in. intros [r b] Hin%list_elem_of_In. cbn [fst snd].
  destruct r; cbn [pair_kept]; rewrite ?bool_decide_true, ?bool_decide_false by done; cbn [negb orb andb].
  - unfold result_paired. destruct (result_id b) as [id|]; [|destruct (media_id b) as [id|]; [|done]];
      apply bool_decide_ext, call_ids_without_dangling.
  - rewrite andb_true_r. unfold call_paired. destruct (call_id b) as [id|] eqn:Hb; [|done].
    apply bool_decide_ext. unfold collectToolResultIds. rewrite elem_of_dedup.
    assert (id ∈ ids_in Assistant call_id messages) by (apply elem_of_ids_in; eauto). tauto.
Qed.

Lemma media_not_result b : is_Some (media_id b) → result_id b = None.
Proof. destruct b; cbn; intros [? ?]; done. Qed.

Lemma result_not_media b id : result_id b = Some id → media_id b = None.
Proof. destruct b; cbn; congruence. Qed.

Lemma call_ids_strip messages id :
  id ∈ ids_in Assistant call_id (strip_unpaired messages)
  ↔ id ∈ ids_in Assistant call_id messages ∧ id ∈ ids_in User result_id messages.
Proof.
  rewrite elem_of_ids_in, tagged_strip_unpaired. setoid_rewrite elem_of_bfilter.
  cbn [pair_kept]. split.
  - intros (b & [Hin Hk] & Hb). rewrite Hb in Hk. by apply bool_decide_eq_true_1 in Hk.
  - intros Hboth. pose proof (proj1 Hboth) as (b & Hin & Hb)%elem_of_ids_in. exists b.
    by rewrite Hb, bool_decide_true.
Qed.

Lemma result_ids_strip messages id :
  id ∈ ids_in User result_id (strip_unpaired messages)
  ↔ id ∈ ids_in Assistant call_id messages ∧ id ∈ ids_in User result_id messages.
Proof.
  rewrite elem_of_ids_in, tagged_strip_unpaired. setoid_rewrite elem_of_bfilter.
  cbn [pair_kept]. split.
  - intros (b & [Hin Hk] & Hb). rewrite Hb in Hk. by apply bool_decide_eq_true_1 in Hk.
  - intros Hboth. pose proof (proj2 Hboth) as (b & Hin & Hb)%elem_of_ids_in. exists b.
    by rewrite Hb, bool_decide_true.
Qed.

Lemma media_ids_strip messages id :
  id ∈ ids_in User media_id (strip_unpaired messages)
  → id ∈ ids_in Assistant call_id (strip_unpaired messages).
Proof.
  rewrite call_ids_strip, elem_of_ids_in, tagged_strip_unpaired.
  setoid_rewrite elem_of_bfilter. cbn [pair_kept].
  intros (b & [Hin Hk] & Hb). rewrite media_not_result, Hb in Hk by done.
  by apply bool_decide_eq_true_1 in Hk.
Qed.

(** A history in which every call has a result, every result a call. *)
Definition all_paired (messages : list message) : Prop :=
  (∀ id, id ∈ ids_in Assistant call_id messages ↔ id ∈ ids_in User result_id messages) ∧
  (∀ id, id ∈ ids_in User media_id messages → id ∈ ids_in Assistant call_id messages).

Lemma strip_all_paired messages : all_paired (strip_unpaired messages).
Proof.
  split; [|apply media_ids_strip]. intros id. by rewrite call_ids_strip, result_ids_strip.
Qed.

Lemma strip_has_content messages : Forall (λ m, m_content m ≠ []) (strip_unpaired messages).
Proof.
  apply Forall_forall. unfold strip_unpaired, stripUnpairedToolResults. intros m Hm.
  apply list_elem_of_In, filter_In in Hm as [_ Hc]. by apply bool_decide_eq_true_1 in Hc.
Qed.

Lemma filter_content_id r keep m :
  (m_role m = r → ∀ b, b ∈ m_content m → keep b = true) → filter_content r keep m = m.
Proof.
  intros Hk. unfold filter_content. case_bool_decide as Hr; [|done]. destruct m as [r' c]. cbn in *. f_equal.
  apply forallb_filter_id, forallb_forall. intros b Hb%list_elem_of_In. by apply Hk.
Qed.

Lemma strip_calls_id messages ids :
  (∀ id, id ∈ ids_in Assistant call_id messages → id ∈ ids) →
  stripUnpairedToolCalls messages ids = List.filter has_content messages.
Proof.
  intros Hids. unfold stripUnpairedToolCalls. f_equal. rewrite <- (map_id messages) at 2.
  apply map_ext_in. intros m Hm%list_elem_of_In. apply filter_content_id. intros Hr b Hb.
  unfold call_paired. destruct (call_id b) as [id|] eqn:Hid; [|done]. apply bool_decide_eq_true_2, Hids.
  apply elem_of_ids_in. exists b. split; [|done]. apply elem_of_tagged. eauto.
Qed.

Lemma strip_results_id messages ids :
  (∀ id, id ∈ ids_in User result_id messages ∨ id ∈ ids_in User media_id messages → id ∈ ids) →
  stripUnpairedToolResults messages ids = List.filter has_content messages.
Proof.
  intros Hids. unfold stripUnpairedToolResults. f_equal. rewrite <- (map_id messages) at 2.
  apply map_ext_in. intros m Hm%list_elem_of_In. apply filter_content_id. intros Hr b Hb.
  assert ((User, b) ∈ tagged messages) as Hin by (apply elem_of_tagged; eauto).
  unfold result_paired. destruct (result_id b) as [id|] eqn:Hid;
    [|destruct (media_id b) as [id|] eqn:Hmid; [|done]];
    apply bool_decide_eq_true_2, Hids; [left|right]; apply elem_of_ids_in; eauto.
Qed.

Lemma ids_in_has_content r f messages :
  ids_in r f (List.filter has_content messages) = ids_in r f messages.
Proof. by rewrite !ids_in_tagged, tagged_has_content. Qed.

Lemma strip_paired_id messages :
  all_paired messages → strip_unpaired messages = List.filter has_content messages.
Proof.
  intros [Hc Hm]. unfold strip_unpaired. rewrite strip_calls_id.
  - rewrite strip_results_id.
    + rewrite filter_filter. apply filter_ext. intros m. by destruct (has_content m).
    + intros id. unfold collectToolCallIds. rewrite elem_of_dedup, !ids_in_has_content, <- Hc. naive_solver.
  - intros id Hid. unfold collectToolResultIds. by rewrite elem_of_dedup, <- Hc.
Qed.

(** C23: What snipping and full compaction do to the calls and results they cut
    apart: the blocks that remain are exactly those of the history, in order
    and with their roles, less the calls without a result and the results and
    media references without a call that has one.  Afterwards calls and
    results name the same ids, no message is empty, and a history that is
    paired already only loses its empty messages. *)
Theorem strip_pairs messages :
  let out := strip_unpaired messages in
  tagged out = List.filter (pair_kept messages) (tagged messages) ∧
  all_paired out ∧ Forall (λ m, m_content m ≠ []) out ∧
  strip_unpaired out = out ∧
  (all_paired messages → out = List.filter has_content messages).
Proof.
  cbn zeta. repeat split.
  - apply tagged_strip_unpaired.
  - by apply strip_all_paired.
  - by apply strip_all_paired.
  - apply strip_all_paired.
  - apply strip_has_content.
  - rewrite (strip_paired_id (strip_unpaired messages)) by apply strip_all_paired.
    apply forallb_filter_id, forallb_forall. intros m Hm%list_elem_of_In.
    apply bool_decide_eq_true_2. by eapply Forall_forall in Hm; [|apply strip_has_content].
  - apply strip_paired_id.
Qed.

(** ** The calls of a reply and the results of a batch *)

Lemma set_add_app x seen : x ∉ seen → set_add x seen = seen ++ [x].
Proof. unfold set_add. by case_decide. Qed.

Lemma set_add_in x seen : x ∈ seen → set_add x seen = seen.
Proof. unfold set_add. by case_decide. Qed.

Lemma calls_unseen_ids seen blocks :
  seen ++ map tc_id (calls_unseen seen blocks) = foldl (λ s x, set_add x s) seen (omap call_id blocks).
Proof.
  revert seen. induction blocks as [|b bs IH]; intros seen; cbn; [by rewrite app_nil_r|].
  destruct b; cbn; try apply IH. case_bool_decide as Hs; [rewrite set_add_in by done; apply IH|].
  rewrite <- IH. rewrite set_add_app by done. by rewrite <- app_assoc.
Qed.

Lemma collectToolCalls_ids m : map tc_id (collectToolCalls m) = dedup (omap call_id (m_content m)).
Proof. apply (calls_unseen_ids [] (m_content m)). Qed.

Lemma calls_unseen_first seen pre id name input post :
  id ∉ seen → id ∉ omap call_id pre →
  (id, name, input) ∈ calls_unseen seen (pre ++ ToolCallBlock id name input :: post).
Proof.
  revert seen. induction pre as [|b bs IH]; intros seen Hs Hp; cbn.
  - rewrite bool_decide_false by done. by left.
  - destruct b; cbn in Hp |- *; try by apply IH.
    rewrite not_elem_of_cons in Hp. destruct Hp as [Hne Hp].
    case_bool_decide; [by apply IH|]. right. apply IH; [|done].
    unfold set_add. case_decide; set_solver.
Qed.

Lemma duplicates_length seen blocks :
  Z.of_nat (length (calls_unseen seen blocks)) + duplicates_from seen blocks
  = Z.of_nat (length (omap call_id blocks)).
Proof.
  revert seen. induction blocks as [|b bs IH]; intros seen; [done|].
  destruct b; cbn [calls_unseen duplicates_from omap list_omap call_id]; try apply IH.
  case_bool_decide; cbn [length]; [pose proof (IH seen)|pose proof (IH (set_add id seen))]; cbn in *; lia.
Qed.

(** P: The calls a reply asks for are run once per id: the first call of every
    id, in order, and the rest are counted as duplicates.  The loop goes on
    exactly when the reply has a call. *)
Theorem calls_once m :
  NoDup (map tc_id (collectToolCalls m)) ∧
  map tc_id (collectToolCalls m) = dedup (omap call_id (m_content m)) ∧
  (∀ pre id name input post, m_content m = pre ++ ToolCallBlock id name input :: post →
     id ∉ omap call_id pre → (id, name, input) ∈ collectToolCalls m) ∧
  Z.of_nat (length (collectToolCalls m)) + countDuplicateToolCalls m
    = Z.of_nat (length (omap call_id (m_content m))) ∧
  (decideLoopContinuation m = true ↔ ∃ b, b ∈ m_content m ∧ is_call b = true).
Proof.
  repeat split.
  - rewrite collectToolCalls_ids. apply dedup_NoDup.
  - apply collectToolCalls_ids.
  - intros pre id name input post Hm Hp. unfold collectToolCalls. rewrite Hm.
    apply calls_unseen_first; [set_solver|done].
  - apply duplicates_length.
  - unfold decideLoopContinuation. intros Hl%Nat.ltb_lt.
    destruct (collectToolCalls m) as [|c cs] eqn:E; [cbn in Hl; lia|].
    assert (tc_id c ∈ map tc_id (collectToolCalls m)) as Hin by (rewrite E; by left).
    rewrite collectToolCalls_ids, elem_of_dedup, list_elem_of_omap in Hin.
    destruct Hin as (b & Hb & Hid). exists b. split; [done|]. apply bool_decide_eq_true_2. by exists (tc_id c).
  - intros (b & Hb & [id Hid]%bool_decide_eq_true_1). unfold decideLoopContinuation. apply Nat.ltb_lt.
    assert (id ∈ map tc_id (collectToolCalls m)) as Hin
      by (rewrite collectToolCalls_ids, elem_of_dedup, list_elem_of_omap; eauto).
    destruct (collectToolCalls m); [by apply elem_of_nil in Hin|cbn; lia].
Qed.

Section Batches.
Context {R : Type} (r_id : R → string) (missing : tool_call → R).

Definition of_id (k : string) (results : list R) : list R :=
  List.filter (λ r, bool_decide (r_id r = k)) results.

Definition calls_of (k : string) (calls : list tool_call) : list tool_call :=
  List.filter (λ c, bool_decide (tc_id c = k)) calls.

Lemma of_id_cons k r l :
  of_id k (r :: l) = if bool_decide (r_id r = k) then r :: of_id k l else of_id k l.
Proof. done. Qed.

Lemma calls_of_cons k c l :
  calls_of k (c :: l) = if bool_decide (tc_id c = k) then c :: calls_of k l else calls_of k l.
Proof. done. Qed.

Lemma queues_of results k : ∀ queues,
  default [] (jm_get k (foldl (queue_result r_id) queues results))
  = default [] (jm_get k queues) ++ of_id k results.
Proof.
  induction results as [|r l IH]; intros queues; cbn [foldl of_id List.filter]; [by rewrite app_nil_r|].
  rewrite IH. unfold queue_result.
  assert (default [] (jm_get k (match jm_get (r_id r) queues with
    | Some queue => jm_set (r_id r) (queue ++ [r]) queues
    | None => jm_set (r_id r) [r] queues end))
    = default [] (jm_get k queues) ++ (if bool_decide (r_id r = k) then [r] else [])) as ->.
  { case_bool_decide as Hk; [subst k|];
      (destruct (jm_get (r_id r) queues) as [q|] eqn:Hq; rewrite jm_get_set; case_decide; try done);
      rewrite ?Hq; cbn; by rewrite ?app_nil_r. }
  rewrite <- app_assoc. f_equal. by case_bool_decide.
Qed.

Lemma pair_calls_of k calls :
  (∀ c, r_id (missing c) = tc_id c) →
  ∀ queues, (∀ k q, jm_get k queues = Some q → Forall (λ r, r_id r = k) q) →
  of_id k (pair_calls missing queues calls) =
  take (length (calls_of k calls)) (default [] (jm_get k queues)) ++
  map missing (drop (length (default [] (jm_get k queues))) (calls_of k calls)).
Proof.
  intros Hmiss. induction calls as [|c calls IH]; intros queues Hq; [cbn; by rewrite drop_nil|].
  rewrite calls_of_cons. cbn [pair_calls].
  destruct (jm_get (tc_id c) queues) as [[|r q]|] eqn:Hc; rewrite of_id_cons.
  1,3: rewrite Hmiss; case_bool_decide as Hk; [|by apply IH];
    subst k; rewrite IH by done; rewrite Hc; cbn; by rewrite ?drop_0, ?take_nil.
  pose proof (Hq _ _ Hc) as Hr. inversion Hr as [|? ? Hid Hrest]; subst.
  assert (∀ k q', jm_get k (jm_set (tc_id c) q queues) = Some q' → Forall (λ r, r_id r = k) q') as Hq'.
  { intros k' q'. rewrite jm_get_set. case_decide as Hd; [|apply Hq]. subst k'. by intros [= <-]. }
  rewrite Hid. case_bool_decide as Hk.
  - subst k. rewrite IH by done. rewrite jm_get_set. rewrite decide_True by done. rewrite Hc. done.
  - rewrite IH by done. rewrite jm_get_set. by rewrite decide_False by done.
Qed.

Lemma pair_calls_ids calls :
  (∀ c, r_id (missing c) = tc_id c) →
  ∀ queues, (∀ k q, jm_get k queues = Some q → Forall (λ r, r_id r = k) q) →
  map r_id (pair_calls missing queues calls) = map tc_id calls.
Proof.
  intros Hmiss. induction calls as [|c calls IH]; intros queues Hq; [done|]. cbn [pair_calls].
  destruct (jm_get (tc_id c) queues) as [[|r q]|] eqn:Hc; cbn [map].
  1,3: by rewrite Hmiss, IH.
  pose proof (Hq _ _ Hc) as Hr. inversion Hr as [|? ? Hid Hrest]; subst.
  rewrite Hid, IH; [done|]. intros k' q'. rewrite jm_get_set. case_decide as Hd; [|apply Hq].
  subst k'. by intros [= <-].
Qed.

Lemma queues_ids results :
  ∀ k q, jm_get k (foldl (queue_result r_id) [] results) = Some q → Forall (λ r, r_id r = k) q.
Proof.
  intros k q Hk. pose proof (queues_of results k []) as Hd. rewrite Hk in Hd. cbn in Hd. subst q.
  apply Forall_forall. intros r Hr. apply elem_of_bfilter in Hr as [_ Hr]. by apply bool_decide_eq_true_1 in Hr.
Qed.
End Batches.

(** P: Whatever results a batch of calls came back with, the loop gets one
    result per call and in the order of the calls: the calls of an id receive
    the results of that id in their order, and each call beyond them an error
    result of its own. *)
Theorem batch_paired {R} (r_id : R → string) (missing : tool_call → R) calls results
  (Hmissing : ∀ c, r_id (missing c) = tc_id c) :
  let paired := ensureToolResultPairing r_id missing calls results in
  map r_id paired = map tc_id calls ∧
  ∀ k, of_id r_id k paired =
       take (length (calls_of k calls)) (of_id r_id k results) ++
       map missing (drop (length (of_id r_id k results)) (calls_of k calls)).
Proof.
  cbn zeta. unfold ensureToolResultPairing. split.
  - apply pair_calls_ids; [done|]. apply queues_ids.
  - intros k. rewrite (pair_calls_of r_id missing k) by (done || apply queues_ids).
    by rewrite (queues_of r_id results k []).
Qed.

Lemma batch_paired_witness :
  map fst (ensureToolResultPairing (R := string * string) fst (λ c, (tc_id c, "missing"))
    [("a", "read", JNull); ("b", "bash", JNull)] [("b", "done"); ("b", "again")]) = ["a"; "b"].
Proof.
  exact (proj1 (batch_paired (R := string * string) fst (λ c, (tc_id c, "missing"))
    [("a", "read", JNull); ("b", "bash", JNull)] [("b", "done"); ("b", "again")] (λ c, eq_refl))).
Defined.

(** ** Forked histories *)

Lemma tagged_scrub ids messages :
  tagged (omap (scrub_calls ids) messages) =
  List.filter (λ rb, match rb.1 with Assistant => call_paired ids rb.2 | User => true end) (tagged messages).
Proof.
  induction messages as [|[r c] l IH]; [done|]. rewrite tagged_cons, List.filter_app, filter_map_pair, <- IH.
  change (omap (scrub_calls ids) (Message r c :: l)) with
    (match scrub_calls ids (Message r c) with
     | Some m => m :: omap (scrub_calls ids) l | None => omap (scrub_calls ids) l end).
  destruct r; cbn [scrub_calls m_role m_content fst snd].
  - rewrite tagged_cons. cbn [m_role m_content]. do 2 f_equal. symmetry.
    by apply forallb_filter_id, forallb_forall.
  - destruct (List.filter (call_paired ids) c) eqn:E; [done|]. by rewrite tagged_cons.
Qed.

(** P: A forked history advertises no call without a result, keeps every other
    block in order, and keeps every message of the user. *)
Theorem forked_calls_answered messages :
  let out := filterIncompleteToolCalls messages in
  (∀ id, id ∈ ids_in Assistant call_id out ↔
         id ∈ ids_in Assistant call_id messages ∧ id ∈ completed_ids messages) ∧
  List.filter (λ rb, negb (is_call rb.2)) (tagged out) =
    List.filter (λ rb, negb (is_call rb.2)) (tagged messages) ∧
  List.filter (λ m, bool_decide (m_role m = User)) out =
    List.filter (λ m, bool_decide (m_role m = User)) messages.
Proof.
  cbn zeta. unfold filterIncompleteToolCalls. repeat split.
  - apply elem_of_ids_in in H as (b & Hin & Hb). rewrite tagged_scrub, elem_of_bfilter in Hin.
    apply elem_of_ids_in. exists b. tauto.
  - apply elem_of_ids_in in H as (b & Hin & Hb). rewrite tagged_scrub, elem_of_bfilter in Hin.
    destruct Hin as [_ Hk]. cbn in Hk. unfold call_paired in Hk. rewrite Hb in Hk.
    by apply bool_decide_eq_true_1 in Hk.
  - intros [(b & Hin & Hb)%elem_of_ids_in Hc]. apply elem_of_ids_in. exists b.
    rewrite tagged_scrub, elem_of_bfilter. cbn. unfold call_paired. rewrite Hb. by rewrite bool_decide_true.
  - rewrite tagged_scrub, filter_filter. apply filter_ext. intros [r b]. cbn.
    destruct r; [done|]. unfold call_paired, is_call. destruct (call_id b); cbn; [|done].
    by rewrite andb_comm.
  - generalize (completed_ids messages) as ids. intros ids.
    induction messages as [|[r c] l IH]; [done|].
    cbn [omap list_omap scrub_calls m_role m_content]. destruct r; cbn.
    + by rewrite IH.
    + destruct (List.filter (call_paired ids) c); [done|]. cbn. done.
Qed.
