(* ===== verification/MessageProjector.v ===== *)
(** * From a history to the messages of a model request

    What AgentLoop.createModelRequest does to a history before a provider sees
    it: src/src/agent/loop/recovery/messages.ts strips calls that were cut off
    and merges replies, then src/src/context/projection/MessageProjector.ts
    applies the sliding window and repairs the pairing of calls and results.
    The bookkeeping of one recovery (truncation, image stripping, removing a
    failed exchange) is here too.  [metadata] is left out. *)

From Stdlib Require Import QArith Qround.
From S2P Require Import Prelude JsValue RouterTypes MessagePairs.
Open Scope Z_scope.

(** ** Recovery *)

Definition hasToolCallBlock (m : message) : bool := existsb is_call (m_content m).

(** [block.type === "tool_result"], with the id. *)
Definition inline_result_id (b : content_block) : option string :=
  match b with ToolResultBlock id _ => Some id | _ => None end.

(** The ids answered by the message after a reply. *)
Definition executed_ids (next : option message) : list string :=
  match next with
  | Some (Message User content) => dedup (omap inline_result_id content)
  | _ => []
  end.

Fixpoint stripOrphanToolCalls (messages : list message) : list message :=
  match messages with
  | [] => []
  | m :: rest =>
    (if bool_decide (m_role m = Assistant) && hasToolCallBlock m
     then Message (m_role m) (List.filter (call_paired (executed_ids (head rest))) (m_content m))
     else m) :: stripOrphanToolCalls rest
  end.

Definition canMergeAssistantMessages (first second : message) : bool :=
  negb (hasToolCallBlock first) && negb (hasToolCallBlock second).

(** One message of the second pass; [out] holds the result so far in reverse. *)
Definition normalize_step (out : list message) (m : message) : list message :=
  let append :=
    if bool_decide (m_role m = Assistant) && bool_decide (m_content m = []) then out else m :: out in
  match out with
  | l :: out' =>
    if bool_decide (m_role l = Assistant) && bool_decide (m_role m = Assistant)
       && canMergeAssistantMessages l m
    then Message Assistant (m_content l ++ m_content m) :: out'
    else append
  | [] => append
  end.

Definition normalizeMessagesForModelRequest (messages : list message) : list message :=
  rev (foldl normalize_step [] (stripOrphanToolCalls messages)).

Definition textFromMessage (m : message) : string :=
  str_join (String (ascii_of_N 10) "")
    (omap (λ b, match b with TextBlock t => Some t | _ => None end) (m_content m)).

(** [messages.slice(-n)] for [n >= 1]. *)
Definition slice_last {A} (n : Z) (messages : list A) : list A :=
  drop (length messages - Z.to_nat n) messages.

(** [Math.max(lo, Math.min(hi, value))]; a ratio is an exact fraction. *)
Definition clamp (value lo hi : Q) : Q :=
  let capped := if Qle_bool value hi then value else hi in
  if Qle_bool lo capped then capped else lo.

(** [truncateHeadKeepRatio] and CompactionEngine's [truncateHead]. *)
Definition truncateHead {A} (messages : list A) (keepRatio : Q) : list A :=
  let ratio := clamp keepRatio (1 # 20) 1 in
  let keep := Z.max 1 (Qfloor (inject_Z (Z.of_nat (length messages)) * ratio)) in
  slice_last keep messages.

(** [view] reads the message of an element: the agent loop keeps its messages
    with their metadata. *)
Definition stripTrailingErrorPair {A} (view : A → message) (messages : list A) : list A :=
  let out := match view <$> last messages with
             | Some (Message User content) =>
               if forallb (λ b, bool_decide (is_Some (inline_result_id b))) content
               then removelast messages else messages
             | _ => messages
             end in
  match view <$> last out with Some (Message Assistant _) => removelast out | _ => out end.

Definition IMAGE_REMOVED : string := "[Image removed: multimodal processor error recovery]".

Definition strip_item_image (i : result_item) : result_item :=
  match i with ItemImage _ _ _ _ => ItemText IMAGE_REMOVED | _ => i end.

Definition strip_block_images (b : content_block) : content_block :=
  match b with
  | ImageBlock _ _ _ _ => TextBlock IMAGE_REMOVED
  | ToolResultBlock id content => ToolResultBlock id (map strip_item_image content)
  | _ => b
  end.

Definition strip_message_images (m : message) : message :=
  Message (m_role m) (map strip_block_images (m_content m)).

Definition stripImagesFromMessages (messages : list message) : list message :=
  map strip_message_images messages.

(** ** The sliding window *)

(** [isToolResultOnly] of MessageProjector and SnipEngine. *)
Definition is_result_block (b : content_block) : bool :=
  isDirectToolResultBlock b || isMediaReferenceWithId b.

Definition isToolResultOnly (m : message) : bool :=
  bool_decide (m_content m ≠ []) && forallb is_result_block (m_content m).

(** The while loop that moves the cut past tool results. *)
Fixpoint skip_results (messages : list message) : nat :=
  match messages with
  | m :: rest => if isToolResultOnly m then S (skip_results rest) else O
  | [] => O
  end.

(** The messages kept and the number dropped; [max] is at least 0. *)
Definition toolPairSafeTruncate (messages : list message) (max : nat) : list message * nat :=
  if (length messages <=? max)%nat then (messages, O)
  else
    let naive := (length messages - max)%nat in
    let cutIndex := (naive + skip_results (drop naive messages))%nat in
    (drop cutIndex messages, cutIndex).

(** ** Repairing the pairing *)

Inductive projection_warning :=
  | ContextTruncated (droppedCount maxMessages : nat)
  | ToolResultOrphaned (toolCallId : string)
  | ToolResultInjected (toolCallId : string).

(** [collectToolCallIds] of one message. *)
Definition message_call_ids (m : message) : list string := omap call_id (m_content m).

Definition visible_call_ids (messages : list message) : list string :=
  dedup (ids_in Assistant call_id messages).

Definition RESULT_TRUNCATED : string := "[result truncated]".

Definition placeholder (id : string) : content_block :=
  ToolResultBlock id [ItemText RESULT_TRUNCATED].

(** [injectPlaceholderResults], and what its callers test before it. *)
Definition inject (toolCallIds : list string) : list message * list projection_warning :=
  match toolCallIds with
  | [] => ([], [])
  | _ => ([Message User (map placeholder toolCallIds)], map ToolResultInjected toolCallIds)
  end.

(** A block whose call is gone, with the id. *)
Definition orphan_id (pending visible : list string) (b : content_block) : option string :=
  match result_id b, media_id b with
  | Some id, _ => if bool_decide (id ∈ pending) then None else Some id
  | None, Some id => if bool_decide (id ∈ visible) then None else Some id
  | None, None => None
  end.

Definition not_orphan (pending visible : list string) (b : content_block) : bool :=
  bool_decide (orphan_id pending visible b = None).

(** One message of the walk: what is pushed, the warnings and the calls that
    still wait for a result. *)
Definition repair_step (visible pending : list string) (m : message)
  : list message * list projection_warning * list string :=
  match m_role m with
  | Assistant =>
    let '(injected, warnings) := inject pending in
    (injected ++ [m], warnings, message_call_ids m)
  | User =>
    let seen := omap result_id (m_content m) in
    let mediaRefs := omap media_id (m_content m) in
    let hasOrphans := existsb (λ id, bool_decide (id ∉ pending)) seen
                      || existsb (λ id, bool_decide (id ∉ visible)) mediaRefs in
    let kept := List.filter (not_orphan pending visible) (m_content m) in
    let warnings := if hasOrphans
                    then map ToolResultOrphaned (omap (orphan_id pending visible) (m_content m))
                    else [] in
    if hasOrphans && bool_decide (kept = [])
    then ([], warnings, List.filter (λ id, bool_decide (id ∉ seen)) pending)
    else
      let cleaned := if hasOrphans then Message (m_role m) kept else m in
      let matched := List.filter (λ id, bool_decide (id ∈ pending)) seen in
      ([cleaned], warnings, List.filter (λ id, bool_decide (id ∉ matched)) pending)
  end.

Fixpoint repair_from (visible pending : list string) (messages : list message)
  : list message * list projection_warning :=
  match messages with
  | [] => inject pending
  | m :: rest =>
    let '(pushed, warnings, pending') := repair_step visible pending m in
    let '(output, warnings') := repair_from visible pending' rest in
    (pushed ++ output, warnings ++ warnings')
  end.

Definition repairToolResultPairing (messages : list message)
  : list message * list projection_warning :=
  repair_from (visible_call_ids messages) [] messages.

Record projection := Projection {
  pj_messages : list message;
  pj_droppedCount : nat;
  pj_warnings : list projection_warning;
}.

Definition project (messages : list message) (maxMessages : option nat) : projection :=
  let '(projected, droppedCount, warnings) :=
    match maxMessages with
    | Some max =>
      if (max <? length messages)%nat then
        let '(kept, droppedCount) := toolPairSafeTruncate messages max in
        (kept, droppedCount,
         if (0 <? droppedCount)%nat then [ContextTruncated droppedCount max] else [])
      else (messages, O, [])
    | None => (messages, O, [])
    end in
  let '(output, warnings') := repairToolResultPairing projected in
  Projection output droppedCount (warnings ++ warnings').

(** The messages of a request ([createModelRequest] up to [prepareForModel]). *)
Definition request_messages (messages : list message) (maxMessages : option nat) : list message :=
  pj_messages (project (normalizeMessagesForModelRequest messages) maxMessages).

(** ** Pairing

    What the walk establishes: a reply's calls are answered in user messages
    before the next reply, possibly after other user messages, and a user
    message answers only calls of the reply before it. *)
Fixpoint well_paired (pending : list string) (messages : list message) : bool :=
  match messages with
  | [] => bool_decide (pending = [])
  | m :: rest =>
    match m_role m with
    | Assistant => bool_decide (pending = []) && well_paired (message_call_ids m) rest
    | User =>
      let answers := omap result_id (m_content m) in
      forallb (λ id, bool_decide (id ∈ pending)) answers &&
      well_paired (List.filter (λ id, bool_decide (id ∉ answers)) pending) rest
    end
  end.

(** Every media reference names a call of the history. *)
Definition media_visible (visible : list string) (messages : list message) : bool :=
  forallb (λ id, bool_decide (id ∈ visible)) (ids_in User media_id messages).

(** A history the walk leaves as it is. *)
Definition paired_up (messages : list message) : bool :=
  well_paired [] messages && media_visible (visible_call_ids messages) messages.

(** The rule of the providers: the message right after a reply answers all its
    calls, and no other message answers anything. *)
Fixpoint answered_next (waiting : list string) (messages : list message) : bool :=
  match messages with
  | [] => bool_decide (waiting = [])
  | m :: rest =>
    match m_role m with
    | Assistant => bool_decide (waiting = []) && answered_next (message_call_ids m) rest
    | User =>
      let answers := omap result_id (m_content m) in
      forallb (λ id, bool_decide (id ∈ waiting)) answers &&
      forallb (λ id, bool_decide (id ∈ answers)) waiting && answered_next [] rest
    end
  end.

(** A history a provider accepts. *)
Definition acceptable (messages : list message) : bool :=
  answered_next [] messages && media_visible (visible_call_ids messages) messages.

Lemma all_answered_nil (answers waiting : list string) :
  forallb (λ id, bool_decide (id ∈ answers)) waiting = true →
  List.filter (λ id, bool_decide (id ∉ answers)) waiting = [].
Proof.
  rewrite forallb_forall. intros Ha. destruct (List.filter _ waiting) as [|id l] eqn:He; [done|].
  assert (id ∈ List.filter (λ id, bool_decide (id ∉ answers)) waiting) as Hid by (rewrite He; by left).
  apply elem_of_bfilter in Hid as [Hin Hn%bool_decide_eq_true_1]. destruct Hn.
  specialize (Ha id). rewrite <- list_elem_of_In in Ha. by apply Ha, bool_decide_eq_true_1 in Hin.
Qed.

Lemma answered_next_well_paired messages : ∀ waiting,
  answered_next waiting messages = true → well_paired waiting messages = true.
Proof.
  induction messages as [|m l IH]; intros waiting; [done|]. cbn [answered_next well_paired]. destruct (m_role m).
  - intros [[Ha Hw]%andb_prop Hl]%andb_prop. rewrite Ha, (all_answered_nil _ _ Hw). cbn [andb]. by apply IH.
  - intros [-> Hl]%andb_prop. cbn [andb]. by apply IH.
Qed.

Lemma acceptable_paired_up messages : acceptable messages = true → paired_up messages = true.
Proof. intros [Ha Hm]%andb_prop. unfold paired_up. by rewrite (answered_next_well_paired _ _ Ha), Hm. Qed.

(** ** The walk *)

Lemma orphan_id_id pending visible b id :
  orphan_id pending visible b = Some id → result_id b = Some id ∨ media_id b = Some id.
Proof.
  unfold orphan_id. destruct (result_id b); [|destruct (media_id b)]; try case_bool_decide; naive_solver.
Qed.

Lemma existsb_omap {A B} (f : A → option B) (p : B → bool) l :
  existsb p (omap f l) = existsb (λ x, match f x with Some y => p y | None => false end) l.
Proof. induction l as [|x l IH]; [done|]. cbn. rewrite <- IH. by destruct (f x). Qed.

Lemma existsb_orb {A} (p q : A → bool) l :
  existsb p l || existsb q l = existsb (λ x, p x || q x) l.
Proof.
  induction l as [|x l IH]; [done|]. cbn. rewrite <- IH.
  destruct (p x), (q x), (existsb p l), (existsb q l); done.
Qed.

Lemma has_orphans_iff pending visible content :
  existsb (λ id, bool_decide (id ∉ pending)) (omap result_id content)
  || existsb (λ id, bool_decide (id ∉ visible)) (omap media_id content)
  = negb (forallb (not_orphan pending visible) content).
Proof.
  rewrite !existsb_omap, existsb_orb.
  induction content as [|b l IH]; [done|]. cbn [existsb forallb]. rewrite IH, negb_andb. f_equal.
  unfold not_orphan, orphan_id. destruct (result_id b) as [id|] eqn:Hr.
  - assert (media_id b = None) as -> by (by eapply result_not_media). repeat case_bool_decide; done.
  - destruct (media_id b); repeat case_bool_decide; done.
Qed.

Lemma answers_kept pending visible content :
  omap result_id (List.filter (not_orphan pending visible) content)
  = List.filter (λ id, bool_decide (id ∈ pending)) (omap result_id content).
Proof.
  induction content as [|b l IH]; [done|]. cbn [List.filter]. rewrite omap_cons.
  unfold not_orphan at 1, orphan_id. destruct (result_id b) as [id|] eqn:Hr.
  - cbn [List.filter]. destruct (decide (id ∈ pending)) as [Hp|Hp].
    + rewrite !(bool_decide_eq_true_2 (id ∈ pending)) by done.
      rewrite (bool_decide_eq_true_2 (None = None)) by done. by rewrite omap_cons, Hr, IH.
    + rewrite !(bool_decide_eq_false_2 (id ∈ pending)) by done.
      by rewrite (bool_decide_eq_false_2 (Some id = None)).
  - destruct (media_id b); repeat case_bool_decide; rewrite ?omap_cons, ?Hr; done.
Qed.

Lemma orphan_ids_nil pending visible content :
  forallb (not_orphan pending visible) content = true →
  omap (orphan_id pending visible) content = [].
Proof.
  induction content as [|b l IH]; [done|]. cbn. intros [Hb Hl]%andb_prop.
  apply bool_decide_eq_true_1 in Hb. rewrite Hb. by apply IH.
Qed.

(** What a step does to a user message. *)
Definition cleaned (pending visible : list string) (content : list content_block) : list content_block :=
  List.filter (not_orphan pending visible) content.

Definition user_pushed (pending visible : list string) (content : list content_block) : list message :=
  if bool_decide (content ≠ [] ∧ cleaned pending visible content = []) then []
  else [Message User (cleaned pending visible content)].

Lemma repair_step_user visible pending content :
  repair_step visible pending (Message User content) =
  (user_pushed pending visible content,
   map ToolResultOrphaned (omap (orphan_id pending visible) content),
   List.filter (λ id, bool_decide (id ∉ omap result_id (cleaned pending visible content))) pending).
Proof.
  unfold repair_step, user_pushed. cbn [m_role m_content]. rewrite has_orphans_iff. unfold cleaned.
  destruct (forallb (not_orphan pending visible) content) eqn:Hall; cbn [negb andb].
  - rewrite answers_kept. rewrite (forallb_filter_id _ _ Hall), (orphan_ids_nil _ _ _ Hall).
    case_bool_decide as Hn; [naive_solver|]. done.
  - destruct (decide (List.filter (not_orphan pending visible) content = [])) as [Hk|Hk].
    + rewrite !bool_decide_true by (destruct content; done). f_equal. rewrite Hk. cbn [omap list_omap].
      pose proof (answers_kept pending visible content) as Ha. rewrite Hk in Ha.
      apply filter_ext_in. intros id Hid%list_elem_of_In. apply bool_decide_ext.
      split; [intros _; apply not_elem_of_nil|]. intros _ Hin.
      apply (not_elem_of_nil id). change ([] : list string) with (omap result_id ([] : list content_block)).
      rewrite Ha. apply elem_of_bfilter. split; [done|]. by apply bool_decide_eq_true_2.
    + rewrite !bool_decide_false by naive_solver. by rewrite answers_kept.
Qed.

Lemma inject_user pending : Forall (λ m, m_role m = User) (inject pending).1.
Proof. destruct pending; repeat constructor. Qed.

Lemma omap_placeholder pending : omap result_id (map placeholder pending) = pending.
Proof. induction pending as [|id l IH]; [done|]. cbn. by rewrite <- IH at 2. Qed.

Lemma omap_placeholder_media pending : omap media_id (map placeholder pending) = [].
Proof. by induction pending. Qed.

Lemma filter_none {A} (p : A → bool) l : (∀ x, x ∈ l → p x = false) → List.filter p l = [].
Proof.
  induction l as [|x l IH]; intros Hp; [done|]. cbn. rewrite Hp by (by left).
  apply IH. intros y Hy. apply Hp. by right.
Qed.

Lemma well_paired_inject pending rest :
  well_paired pending ((inject pending).1 ++ rest) = well_paired [] rest.
Proof.
  destruct pending as [|id l]; [done|]. set (p := id :: l). change (inject p).1 with [Message User (map placeholder p)].
  cbn [app well_paired m_role m_content]. rewrite omap_placeholder, filter_none.
  - rewrite (proj2 (forallb_forall _ _)); [done|]. intros x Hx%list_elem_of_In. by apply bool_decide_eq_true_2.
  - intros x Hx. apply bool_decide_eq_false_2. tauto.
Qed.

Lemma repair_from_cons visible pending m rest :
  (repair_from visible pending (m :: rest)).1 =
  (repair_step visible pending m).1.1 ++
  (repair_from visible (repair_step visible pending m).2 rest).1.
Proof.
  cbn [repair_from]. destruct (repair_step visible pending m) as [[pushed w] pending'].
  cbn [fst snd]. by destruct (repair_from visible pending' rest).
Qed.

Lemma repair_step_assistant visible pending content :
  repair_step visible pending (Message Assistant content) =
  ((inject pending).1 ++ [Message Assistant content], (inject pending).2, omap call_id content).
Proof. unfold repair_step. cbn [m_role]. by destruct (inject pending). Qed.

Lemma well_paired_user pending content rest :
  well_paired pending (Message User content :: rest) =
  forallb (λ id, bool_decide (id ∈ pending)) (omap result_id content) &&
  well_paired (List.filter (λ id, bool_decide (id ∉ omap result_id content)) pending) rest.
Proof. done. Qed.

Lemma filter_notin_nil (l : list string) : List.filter (λ id, bool_decide (id ∉ [])) l = l.
Proof. apply forallb_filter_id, forallb_forall. intros id _. apply bool_decide_eq_true_2, not_elem_of_nil. Qed.

Lemma well_paired_user_pushed pending visible content rest :
  well_paired pending (user_pushed pending visible content ++ rest) =
  well_paired (List.filter (λ id, bool_decide (id ∉ omap result_id (cleaned pending visible content))) pending) rest.
Proof.
  unfold user_pushed. case_bool_decide as Hc.
  - destruct Hc as [_ ->]. cbn [app]. f_equal. symmetry. apply filter_notin_nil.
  - cbn [app]. rewrite well_paired_user, (proj2 (forallb_forall _ _)); [done|].
    unfold cleaned. rewrite answers_kept. intros id Hid%list_elem_of_In.
    by apply elem_of_bfilter in Hid as [_ Hid].
Qed.

(** Whatever the history, the walk answers every call. *)
Lemma repair_well_paired visible messages : ∀ pending,
  well_paired pending (repair_from visible pending messages).1 = true.
Proof.
  induction messages as [|[r content] rest IH]; intros pending.
  - cbn [repair_from]. rewrite <- (app_nil_r (inject pending).1). by rewrite well_paired_inject.
  - rewrite repair_from_cons. destruct r.
    + rewrite repair_step_user. cbn [fst snd]. rewrite well_paired_user_pushed. apply IH.
    + rewrite repair_step_assistant. cbn [fst snd]. rewrite <- app_assoc, well_paired_inject.
      cbn [app well_paired m_role m_content]. apply IH.
Qed.

(** A history whose answers already fit is left alone. *)
Lemma repair_from_id visible messages : ∀ pending,
  well_paired pending messages = true → media_visible visible messages = true →
  repair_from visible pending messages = (messages, []).
Proof.
  induction messages as [|[r content] rest IH]; intros pending Hw Hm.
  - cbn in Hw. apply bool_decide_eq_true_1 in Hw. by subst.
  - unfold media_visible in Hm, IH. cbn [ids_in map concat] in Hm. fold (ids_in User media_id) in Hm.
    unfold ids_in in Hm. cbn [map concat m_role m_content] in Hm. fold (ids_in User media_id rest) in Hm.
    rewrite forallb_app in Hm. apply andb_prop in Hm as [Hmc Hmr].
    cbn [repair_from]. destruct r.
    + rewrite well_paired_user in Hw. apply andb_prop in Hw as [Ha Hw].
      rewrite bool_decide_true in Hmc by done.
      assert (forallb (not_orphan pending visible) content = true) as Hall.
      { apply forallb_forall. intros b Hb. apply bool_decide_eq_true_2. unfold orphan_id.
        rewrite forallb_forall in Ha, Hmc.
        assert (∀ (f : content_block → option string) id, f b = Some id → In id (omap f content)) as Hin.
        { intros f id Hf. apply list_elem_of_In, list_elem_of_omap. exists b. by rewrite list_elem_of_In. }
        destruct (result_id b) as [id|] eqn:Hr; [by rewrite (Ha id) by eauto|].
        destruct (media_id b) as [id|] eqn:Hd; [by rewrite (Hmc id) by eauto|done]. }
      rewrite repair_step_user, (orphan_ids_nil _ _ _ Hall). unfold user_pushed, cleaned.
      rewrite (forallb_filter_id _ _ Hall), bool_decide_false by naive_solver.
      by rewrite IH.
    + cbn [well_paired m_role] in Hw. apply andb_prop in Hw as [->%bool_decide_eq_true_1 Hw].
      rewrite repair_step_assistant. cbn [inject fst snd app]. by rewrite IH.
Qed.

(** ** What the walk keeps *)

(** Everything but the results and media references of the user's messages. *)
Definition untouched (rb : role * content_block) : bool :=
  match rb with (User, b) => negb (is_result_block b) | (Assistant, _) => true end.

Lemma orphan_is_result pending visible b :
  not_orphan pending visible b = false → is_result_block b = true.
Proof.
  unfold not_orphan, orphan_id, is_result_block, isDirectToolResultBlock, isMediaReferenceWithId.
  intros Ho%bool_decide_eq_false_1. destruct (result_id b); [by rewrite bool_decide_true by eauto|].
  destruct (media_id b); [|done]. by rewrite orb_comm, bool_decide_true by eauto.
Qed.

Lemma tagged_user_pushed pending visible content :
  tagged (user_pushed pending visible content) = map (pair User) (cleaned pending visible content).
Proof.
  unfold user_pushed. case_bool_decide as Hc; [by destruct Hc as [_ ->]|].
  rewrite tagged_cons. cbn. by rewrite app_nil_r.
Qed.

Lemma untouched_cleaned pending visible content :
  List.filter untouched (map (pair User) (cleaned pending visible content))
  = List.filter untouched (map (pair User) content).
Proof.
  unfold cleaned. rewrite !filter_map_pair, filter_filter. f_equal. apply filter_ext. intros b. cbn.
  destruct (not_orphan pending visible b) eqn:Ho; [done|]. cbn. by rewrite (orphan_is_result _ _ _ Ho).
Qed.

Lemma untouched_inject pending : List.filter untouched (tagged (inject pending).1) = [].
Proof.
  destruct pending as [|id l]; [done|]. apply filter_none. intros [r b].
  rewrite elem_of_tagged. intros (m & ->%list_elem_of_singleton & <- & Hb). cbn in Hb.
  change (placeholder id :: map placeholder l) with (placeholder <$> (id :: l)) in Hb.
  by apply list_elem_of_fmap in Hb as (? & -> & _).
Qed.

Lemma repair_untouched visible messages : ∀ pending,
  List.filter untouched (tagged (repair_from visible pending messages).1)
  = List.filter untouched (tagged messages).
Proof.
  induction messages as [|[r content] rest IH]; intros pending; [apply untouched_inject|].
  rewrite repair_from_cons, tagged_app, tagged_cons, !List.filter_app, IH. f_equal. destruct r.
  - rewrite repair_step_user. cbn [fst snd m_role m_content].
    by rewrite tagged_user_pushed, untouched_cleaned.
  - rewrite repair_step_assistant. cbn [fst snd m_role m_content].
    rewrite tagged_app, List.filter_app, untouched_inject, tagged_cons. cbn. by rewrite app_nil_r.
Qed.

Lemma repair_media visible messages id : ∀ pending,
  id ∈ ids_in User media_id (repair_from visible pending messages).1 → id ∈ visible.
Proof.
  assert (∀ pending, id ∉ ids_in User media_id (inject pending).1) as Hinj.
  { intros [|x l]; [apply not_elem_of_nil|]. unfold ids_in. cbn [inject fst map concat m_role m_content].
    rewrite app_nil_r. change (placeholder x :: map placeholder l) with (map placeholder (x :: l)).
    rewrite omap_placeholder_media. apply not_elem_of_nil. }
  induction messages as [|[r content] rest IH]; intros pending Hid; [by apply Hinj in Hid|].
  rewrite repair_from_cons, elem_of_ids_in, tagged_app in Hid.
  destruct Hid as (b & [Hin|Hin]%elem_of_app & Hb); [|eapply IH, elem_of_ids_in; eauto].
  destruct r.
  - rewrite repair_step_user in Hin. cbn [fst] in Hin. rewrite tagged_user_pushed in Hin.
    apply list_elem_of_fmap in Hin as (b' & [= ->] & Hin). unfold cleaned in Hin.
    apply elem_of_bfilter in Hin as [_ Ho%bool_decide_eq_true_1]. unfold orphan_id in Ho.
    rewrite media_not_result, Hb in Ho by eauto. by case_bool_decide.
  - rewrite repair_step_assistant in Hin. cbn [fst] in Hin. rewrite tagged_app in Hin.
    apply elem_of_app in Hin as [Hin|Hin].
    + exfalso. apply (Hinj pending), elem_of_ids_in. eauto.
    + apply elem_of_tagged in Hin as (m & ->%list_elem_of_singleton & Hr & _). done.
Qed.

Lemma call_ids_untouched messages :
  ids_in Assistant call_id messages = omap (tag_id Assistant call_id) (List.filter untouched (tagged messages)).
Proof.
  rewrite ids_in_tagged. induction (tagged messages) as [|[r b] l IH]; [done|].
  cbn [List.filter]. rewrite omap_cons. unfold untouched at 1. destruct r.
  - unfold tag_id at 1. cbn. destruct (negb _); [rewrite omap_cons|]; done.
  - by rewrite omap_cons, IH.
Qed.

Lemma repair_paired_up messages :
  paired_up (repairToolResultPairing messages).1 = true.
Proof.
  unfold paired_up, repairToolResultPairing. rewrite repair_well_paired. cbn [andb].
  apply forallb_forall. intros id Hid%list_elem_of_In%repair_media. apply bool_decide_eq_true_2.
  unfold visible_call_ids in *. rewrite call_ids_untouched, repair_untouched. by rewrite <- call_ids_untouched.
Qed.

Lemma project_messages messages maxMessages :
  let p := project messages maxMessages in
  pj_messages p = (repairToolResultPairing (drop (pj_droppedCount p) messages)).1 ∧
  (pj_droppedCount p ≤ length messages)%nat ∧
  (∀ max, maxMessages = Some max → (length messages - pj_droppedCount p ≤ max)%nat).
Proof.
  cbn zeta. unfold project.
  assert (∀ l, (skip_results l ≤ length l)%nat) as Hskip.
  { induction l as [|m l IH]; cbn; [done|]. destruct (isToolResultOnly m); cbn in *; lia. }
  destruct maxMessages as [max|].
  - destruct (max <? length messages)%nat eqn:Hlt; [apply Nat.ltb_lt in Hlt|apply Nat.ltb_ge in Hlt].
    + unfold toolPairSafeTruncate. destruct (length messages <=? max)%nat eqn:Hle;
        [apply Nat.leb_le in Hle; lia|].
      set (naive := (length messages - max)%nat). set (cut := (naive + skip_results (drop naive messages))%nat).
      assert (cut ≤ length messages)%nat as Hcut.
      { pose proof (Hskip (drop naive messages)) as Hs. rewrite length_drop in Hs. lia. }
      destruct (repairToolResultPairing (drop cut messages)) as [o w] eqn:Hr. cbn [pj_messages pj_droppedCount].
      rewrite Hr. repeat split; [exact Hcut|]. intros ? [= <-]. lia.
    + destruct (repairToolResultPairing messages) as [o w] eqn:Hr. cbn [pj_messages pj_droppedCount]. rewrite drop_0, Hr.
      repeat split; [lia|]. intros ? [= <-]. lia.
  - destruct (repairToolResultPairing messages) as [o w] eqn:Hr. cbn [pj_messages pj_droppedCount]. rewrite drop_0, Hr.
    repeat split; [lia|done].
Qed.

(** P: Whatever history it is given, the projector sends one whose calls are
    all answered before the next reply, in which nothing answers a call that
    is not waiting and every media reference names a call that is sent.  It
    drops a prefix that leaves at most [maxMessages] messages; of the rest it
    keeps every reply and every block that is not a result, in order, and it
    changes nothing in a history that is paired up already. *)
Theorem projection_paired_up messages maxMessages :
  let p := project messages maxMessages in
  let kept := drop (pj_droppedCount p) messages in
  paired_up (pj_messages p) = true ∧
  List.filter untouched (tagged (pj_messages p)) = List.filter untouched (tagged kept) ∧
  (paired_up kept = true → pj_messages p = kept) ∧
  (∀ max, maxMessages = Some max → (length kept ≤ max)%nat).
Proof.
  cbn zeta. destruct (project_messages messages maxMessages) as (Hm & Hd & Hmax). cbn zeta in *.
  rewrite Hm. repeat split.
  - apply repair_paired_up.
  - apply repair_untouched.
  - intros Ha. unfold paired_up in Ha. apply andb_prop in Ha as [Hw Hv].
    unfold repairToolResultPairing. by rewrite repair_from_id.
  - intros max Hmx. rewrite length_drop. by apply Hmax.
Qed.

(** On its own the projector does not keep the rule of the providers: the
    placeholder of a call comes after the user messages that follow it, not
    immediately. *)
Example placeholder_after_text :
  let call := Message Assistant [ToolCallBlock "call-1" "read_file" JNull] in
  let text := Message User [TextBlock "never mind"] in
  pj_messages (project [call; text] None) = [call; text; Message User [placeholder "call-1"]] ∧
  acceptable (pj_messages (project [call; text] None)) = false.
Proof. split; reflexivity. Qed.

(** ** Normalizing *)

Lemma normalize_tagged messages : ∀ out,
  tagged (rev (foldl normalize_step out messages)) = tagged (rev out) ++ tagged messages.
Proof.
  induction messages as [|m l IH]; intros out; cbn [foldl]; [by rewrite app_nil_r|].
  rewrite IH, tagged_cons, app_assoc. f_equal.
  assert (∀ out, tagged (rev (if bool_decide (m_role m = Assistant) && bool_decide (m_content m = [])
                              then out else m :: out)) = tagged (rev out) ++ map (pair (m_role m)) (m_content m)) as Ha.
  { intros o. destruct (bool_decide (m_content m = [])) eqn:He.
    - apply bool_decide_eq_true_1 in He. rewrite He. cbn [map]. rewrite app_nil_r.
      case_bool_decide; [done|]. cbn [andb rev]. rewrite tagged_app, tagged_cons, He. by rewrite app_nil_r.
    - rewrite andb_false_r. cbn [rev]. rewrite tagged_app, tagged_cons. by rewrite app_nil_r. }
  unfold normalize_step. destruct out as [|h out]; [apply Ha|].
  destruct (bool_decide (m_role h = Assistant)) eqn:Hh, (bool_decide (m_role m = Assistant)) eqn:Hm;
    cbn [andb]; try apply Ha.
  destruct (canMergeAssistantMessages h m); [|apply Ha].
  apply bool_decide_eq_true_1 in Hh, Hm. cbn [rev]. rewrite !tagged_app, !tagged_cons. cbn [m_role m_content].
  rewrite Hh, Hm, map_app, !app_nil_r. by rewrite <- app_assoc.
Qed.

Lemma strip_orphans_noncall messages :
  List.filter (λ rb, negb (is_call rb.2)) (tagged (stripOrphanToolCalls messages))
  = List.filter (λ rb, negb (is_call rb.2)) (tagged messages).
Proof.
  induction messages as [|m l IH]; [done|]. cbn [stripOrphanToolCalls].
  rewrite !tagged_cons, !List.filter_app, IH. f_equal.
  destruct (bool_decide (m_role m = Assistant) && hasToolCallBlock m); [|done]. cbn [m_role m_content].
  rewrite !filter_map_pair, filter_filter. f_equal. apply filter_ext. intros b. cbn.
  unfold call_paired, is_call. destruct (call_id b); cbn; [by rewrite andb_comm|done].
Qed.

(** Every reply's calls are answered by inline results in the next message. *)
Fixpoint answered_inline (messages : list message) : bool :=
  match messages with
  | [] => true
  | m :: rest =>
    (bool_decide (m_role m = User) ||
     forallb (λ id, bool_decide (id ∈ executed_ids (head rest))) (message_call_ids m))
    && answered_inline rest
  end.

Lemma strip_orphans_id messages :
  answered_inline messages = true → stripOrphanToolCalls messages = messages.
Proof.
  induction messages as [|m l IH]; [done|]. cbn [answered_inline stripOrphanToolCalls]. intros [Hm Hl]%andb_prop.
  rewrite IH by done. f_equal. destruct (bool_decide (m_role m = Assistant)) eqn:Hr; [|done].
  cbn [andb]. destruct (hasToolCallBlock m); [|done]. apply bool_decide_eq_true_1 in Hr.
  destruct m as [r c]. cbn [m_role m_content] in *. subst r. f_equal.
  apply forallb_filter_id, forallb_forall. intros b Hb. unfold call_paired.
  destruct (call_id b) as [id|] eqn:Hid; [|done].
  rewrite bool_decide_false in Hm by done. cbn [orb] in Hm. rewrite forallb_forall in Hm. apply Hm.
  apply list_elem_of_In, list_elem_of_omap. exists b. by rewrite list_elem_of_In.
Qed.

(** The automaton of [well_paired], one message at a time. *)
Definition pair_step (state : option (list string)) (m : message) : option (list string) :=
  match state with
  | None => None
  | Some pending =>
    match m_role m with
    | Assistant => if bool_decide (pending = []) then Some (message_call_ids m) else None
    | User =>
      let answers := omap result_id (m_content m) in
      if forallb (λ id, bool_decide (id ∈ pending)) answers
      then Some (List.filter (λ id, bool_decide (id ∉ answers)) pending) else None
    end
  end.

Lemma pair_steps_None messages : foldl pair_step None messages = None.
Proof. by induction messages. Qed.

Lemma well_paired_steps messages : ∀ pending,
  well_paired pending messages = true ↔ foldl pair_step (Some pending) messages = Some [].
Proof.
  induction messages as [|[r c] l IH]; intros pending; cbn [well_paired foldl].
  - rewrite bool_decide_eq_true. naive_solver.
  - destruct r; cbn [m_role]; rewrite andb_true_iff, IH; unfold pair_step at 3; cbn [m_role].
    + destruct (forallb _ _); [tauto|]. rewrite pair_steps_None. naive_solver.
    + rewrite bool_decide_eq_true. case_bool_decide; [tauto|]. rewrite pair_steps_None. naive_solver.
Qed.

Lemma no_calls m : hasToolCallBlock m = false → message_call_ids m = [].
Proof.
  unfold hasToolCallBlock, message_call_ids. induction (m_content m) as [|b l IH]; [done|].
  cbn [existsb]. intros [Hb Hl]%orb_false_elim. rewrite omap_cons, IH by done.
  unfold is_call in Hb. apply bool_decide_eq_false_1 in Hb. destruct (call_id b); [|done]. exfalso. eauto.
Qed.

Lemma pair_step_normalize out m :
  pair_step (foldl pair_step (Some []) (rev out)) m ≠ None →
  foldl pair_step (Some []) (rev (normalize_step out m)) =
  pair_step (foldl pair_step (Some []) (rev out)) m.
Proof.
  intros Hok.
  assert (foldl pair_step (Some []) (rev (if bool_decide (m_role m = Assistant) && bool_decide (m_content m = [])
                              then out else m :: out)) = pair_step (foldl pair_step (Some []) (rev out)) m) as Ha.
  { destruct (bool_decide (m_role m = Assistant) && bool_decide (m_content m = [])) eqn:Hm.
    - apply andb_prop in Hm as [Hr%bool_decide_eq_true_1 Hc%bool_decide_eq_true_1].
      destruct (foldl pair_step (Some []) (rev out)) as [pending|]; [|done]. cbn in *. rewrite Hr in *.
      case_bool_decide; [|done]. unfold message_call_ids. rewrite Hc. by subst.
    - cbn [rev]. by rewrite foldl_app. }
  unfold normalize_step. destruct out as [|h out]; [apply Ha|].
  destruct (bool_decide (m_role h = Assistant)) eqn:Hh, (bool_decide (m_role m = Assistant)) eqn:Hm;
    cbn [andb]; try apply Ha.
  destruct (canMergeAssistantMessages h m) eqn:Hmerge; [|apply Ha].
  apply bool_decide_eq_true_1 in Hh, Hm. unfold canMergeAssistantMessages in Hmerge.
  apply andb_prop in Hmerge as [Hch%negb_true_iff%no_calls Hcm%negb_true_iff%no_calls].
  clear Ha. cbn [rev] in *. rewrite !foldl_app in *. cbn [foldl] in *.
  destruct (foldl pair_step (Some []) (rev out)) as [pending|]; [|done].
  unfold pair_step in *. cbn [m_role]. rewrite Hh, Hm in *.
  destruct (decide (pending = [])) as [->|Hp]; [|by rewrite bool_decide_false in Hok].
  rewrite bool_decide_true by done. rewrite Hch, Hcm. f_equal. cbn [m_content].
  unfold message_call_ids in *. cbn [m_content]. by rewrite omap_app, Hch, Hcm.
Qed.

Lemma normalize_pairs messages : ∀ out,
  foldl pair_step (foldl pair_step (Some []) (rev out)) messages ≠ None →
  foldl pair_step (Some []) (rev (foldl normalize_step out messages)) =
  foldl pair_step (foldl pair_step (Some []) (rev out)) messages.
Proof.
  induction messages as [|m l IH]; intros out Hok; [done|]. cbn [foldl] in *.
  assert (pair_step (foldl pair_step (Some []) (rev out)) m ≠ None) as Hm
    by (intros Hn; rewrite Hn, pair_steps_None in Hok; done).
  rewrite IH; rewrite pair_step_normalize by done; done.
Qed.

Lemma normalize_paired_up messages :
  answered_inline messages = true → paired_up messages = true →
  paired_up (normalizeMessagesForModelRequest messages) = true.
Proof.
  intros Hi Ha. unfold paired_up in *. apply andb_prop in Ha as [Hw Hm].
  unfold normalizeMessagesForModelRequest. rewrite strip_orphans_id by done.
  pose proof (normalize_tagged messages []) as Ht. cbn [rev tagged] in Ht. 
  apply andb_true_intro. split.
  { rewrite well_paired_steps in Hw |- *. rewrite normalize_pairs; [done|]. cbn [rev foldl]. by rewrite Hw. }
  unfold media_visible, visible_call_ids in *. rewrite !ids_in_tagged, Ht in *. exact Hm.
Qed.

(** What a request never loses: everything but calls, results and media references. *)
Definition plain (rb : role * content_block) : bool := negb (is_call rb.2) && untouched rb.

Lemma plain_filter l :
  List.filter plain l = List.filter (λ rb, negb (is_call rb.2)) (List.filter untouched l).
Proof. rewrite filter_filter. apply filter_ext. intros rb. apply andb_comm. Qed.

Lemma plain_filter_noncall l :
  List.filter plain l = List.filter untouched (List.filter (λ rb, negb (is_call rb.2)) l).
Proof. by rewrite filter_filter. Qed.

(** Replies keep their answers in the next message when the message after a
    prefix is replaced by one that answers at least as much. *)
Lemma answered_inline_replace pre l l' :
  (∀ id, id ∈ executed_ids (head l) → id ∈ executed_ids (head l')) →
  answered_inline l' = true → answered_inline (pre ++ l) = true → answered_inline (pre ++ l') = true.
Proof.
  intros Hids Hl'. induction pre as [|m pre IH]; [done|]. cbn [app answered_inline].
  intros [Hm Hrest]%andb_prop. rewrite IH by done. rewrite andb_true_r.
  apply orb_true_iff in Hm as [->|Hm]; [done|]. apply orb_true_iff. right.
  rewrite forallb_forall in *. intros id Hid. specialize (Hm id Hid). apply bool_decide_eq_true_1 in Hm.
  apply bool_decide_eq_true_2. destruct pre; [by apply Hids|exact Hm].
Qed.

Lemma answered_inline_suffix pre l : answered_inline (pre ++ l) = true → answered_inline l = true.
Proof. induction pre as [|m pre IH]; [done|]. cbn. by intros [_ Hl]%andb_prop; apply IH. Qed.

Lemma user_role m : bool_decide (m_role m = User) = negb (bool_decide (m_role m = Assistant)).
Proof. by destruct (m_role m). Qed.

(** The answers of a message are not touched by the first pass. *)
Lemma strip_orphans_head rest : executed_ids (head (stripOrphanToolCalls rest)) = executed_ids (head rest).
Proof.
  destruct rest as [|[r c] rest]; [done|]. cbn [stripOrphanToolCalls head m_role m_content].
  destruct r; [done|]. by destruct (_ && _).
Qed.

(** After the first pass every call is answered by the next message. *)
Lemma strip_orphans_answered messages : answered_inline (stripOrphanToolCalls messages) = true.
Proof.
  induction messages as [|m l IH]; [done|]. cbn [stripOrphanToolCalls answered_inline].
  rewrite IH, strip_orphans_head, andb_true_r. apply orb_true_iff. rewrite user_role.
  destruct (bool_decide (m_role m = Assistant)) eqn:Hr; cbn [andb negb].
  - right. apply forallb_forall. intros id Hid%list_elem_of_In. apply bool_decide_eq_true_2.
    destruct (hasToolCallBlock m) eqn:Hc; [|by rewrite (no_calls _ Hc) in Hid; apply not_elem_of_nil in Hid].
    unfold message_call_ids in Hid. cbn [m_content] in Hid.
    apply list_elem_of_omap in Hid as (b & [_ Hb]%elem_of_bfilter & Hid).
    unfold call_paired in Hb. rewrite Hid in Hb. by apply bool_decide_eq_true_1 in Hb.
  - left. by rewrite Hr.
Qed.

Lemma reply_executes_nothing m : m_role m = Assistant → executed_ids (Some m) = [].
Proof. destruct m as [[]]; done. Qed.

(** The second pass only drops and merges replies without calls. *)
Lemma normalize_step_answered out m rest :
  answered_inline (rev out ++ m :: rest) = true →
  answered_inline (rev (normalize_step out m) ++ rest) = true.
Proof.
  intros Ha.
  assert (answered_inline (rev (if bool_decide (m_role m = Assistant) && bool_decide (m_content m = [])
                              then out else m :: out) ++ rest) = true) as Happ.
  { destruct (bool_decide (m_role m = Assistant)) eqn:Hr; cbn [andb];
      [|by cbn [rev]; rewrite <- app_assoc].
    apply bool_decide_eq_true_1 in Hr. case_bool_decide; [|by cbn [rev]; rewrite <- app_assoc].
    eapply answered_inline_replace; [| |exact Ha].
    - cbn [head]. rewrite reply_executes_nothing by done. intros id Hid. by apply not_elem_of_nil in Hid.
    - by apply answered_inline_suffix in Ha as [_ Ha]%andb_prop. }
  unfold normalize_step. destruct out as [|h out]; [exact Happ|].
  destruct (bool_decide (m_role h = Assistant)) eqn:Hh, (bool_decide (m_role m = Assistant)) eqn:Hm;
    cbn [andb]; try exact Happ.
  destruct (canMergeAssistantMessages h m) eqn:Hmerge; [|exact Happ]. clear Happ.
  apply bool_decide_eq_true_1 in Hh, Hm. unfold canMergeAssistantMessages in Hmerge.
  apply andb_prop in Hmerge as [Hch%negb_true_iff%no_calls Hcm%negb_true_iff%no_calls].
  cbn [rev] in *. rewrite <- !app_assoc in *. cbn [app] in *.
  eapply answered_inline_replace; [| |exact Ha].
  - cbn [head]. rewrite reply_executes_nothing by done. intros id Hid. by apply not_elem_of_nil in Hid.
  - apply answered_inline_suffix in Ha. cbn [answered_inline] in *.
    apply andb_prop in Ha as [_ [_ Ha]%andb_prop]. rewrite Ha, andb_true_r. apply orb_true_iff. right.
    unfold message_call_ids in *. cbn [m_content]. by rewrite omap_app, Hch, Hcm.
Qed.

Lemma normalize_answered messages : answered_inline (normalizeMessagesForModelRequest messages) = true.
Proof.
  assert (∀ l out, answered_inline (rev out ++ l) = true →
            answered_inline (rev (foldl normalize_step out l)) = true) as Hfold.
  { induction l as [|m l IH]; intros out Ha; [by rewrite app_nil_r in Ha|].
    cbn [foldl]. by apply IH, normalize_step_answered. }
  apply Hfold. apply strip_orphans_answered.
Qed.

Lemma executed_is_answer id content :
  id ∈ executed_ids (Some (Message User content)) → id ∈ omap result_id content.
Proof.
  cbn. rewrite elem_of_dedup, !list_elem_of_omap. intros (b & Hb & Hid). exists b. split; [done|].
  destruct b; try done.
Qed.

(** The walk answers at once what was answered inline. *)
Lemma repair_answers_next visible messages : ∀ pending,
  answered_inline messages = true →
  (∀ id, id ∈ pending → id ∈ executed_ids (head messages)) →
  answered_next pending (repair_from visible pending messages).1 = true.
Proof.
  assert (∀ pending, (∀ id, id ∈ pending → id ∈ ([] : list string)) → pending = []) as Hnone.
  { intros [|id p] Hp; [done|]. destruct (not_elem_of_nil id). apply Hp. by left. }
  induction messages as [|[r content] rest IH]; intros pending Ha Hp; [by rewrite (Hnone _ Hp)|].
  cbn [answered_inline m_role] in Ha. apply andb_prop in Ha as [Hm Ha].
  rewrite repair_from_cons. destruct r.
  - rewrite repair_step_user. cbn [fst snd].
    assert (∀ id, id ∈ pending → id ∈ omap result_id (cleaned pending visible content)) as Hc.
    { intros id Hid. unfold cleaned. rewrite answers_kept. apply elem_of_bfilter.
      split; [by apply executed_is_answer, Hp|by apply bool_decide_eq_true_2]. }
    assert (forallb (λ id, bool_decide (id ∈ omap result_id (cleaned pending visible content))) pending = true) as Hall.
    { apply forallb_forall. intros id Hid%list_elem_of_In. by apply bool_decide_eq_true_2, Hc. }
    rewrite (all_answered_nil _ _ Hall).
    specialize (IH [] Ha ltac:(intros id Hid; by apply not_elem_of_nil in Hid)).
    unfold user_pushed. destruct (decide (content ≠ [] ∧ cleaned pending visible content = [])) as [[Hne He]|He].
    + rewrite bool_decide_true by done. rewrite He in Hc. by rewrite (Hnone _ Hc).
    + rewrite bool_decide_false by done. cbn [app answered_next m_role m_content]. rewrite Hall, IH, !andb_true_r.
      unfold cleaned. rewrite answers_kept. apply forallb_forall.
      intros id Hid%list_elem_of_In. by apply elem_of_bfilter in Hid as [_ Hid].
  - rewrite (Hnone _ Hp), repair_step_assistant. cbn [inject fst snd app answered_next m_role m_content andb].
    rewrite bool_decide_true by done. apply IH; [done|]. intros id Hid.
    rewrite bool_decide_false in Hm by done. cbn [orb] in Hm. rewrite forallb_forall in Hm.
    specialize (Hm id). rewrite <- list_elem_of_In in Hm. by apply Hm, bool_decide_eq_true_1 in Hid.
Qed.

Lemma request_repaired messages maxMessages : ∃ n,
  request_messages messages maxMessages
  = (repairToolResultPairing (drop n (normalizeMessagesForModelRequest messages))).1.
Proof.
  destruct (project_messages (normalizeMessagesForModelRequest messages) maxMessages) as (Hm & _). eauto.
Qed.

Lemma request_acceptable messages maxMessages : acceptable (request_messages messages maxMessages) = true.
Proof.
  destruct (request_repaired messages maxMessages) as (n & ->). set (l := drop n _).
  pose proof (repair_paired_up l) as [_ Hv]%andb_prop. unfold acceptable. rewrite Hv, andb_true_r.
  apply repair_answers_next; [|intros id Hid; by apply not_elem_of_nil in Hid].
  apply (answered_inline_suffix (take n (normalizeMessagesForModelRequest messages))).
  unfold l. rewrite take_drop. apply normalize_answered.
Qed.

Lemma request_untouched messages :
  List.filter untouched (tagged (request_messages messages None))
  = List.filter untouched (tagged (stripOrphanToolCalls messages)).
Proof.
  unfold request_messages, project. destruct (repairToolResultPairing _) as [o w] eqn:Hr. cbn [pj_messages].
  change o with (o, w).1. rewrite <- Hr. unfold repairToolResultPairing. rewrite repair_untouched. f_equal.
  unfold normalizeMessagesForModelRequest. by rewrite normalize_tagged.
Qed.

Lemma strip_orphans_app pre m rest :
  ∃ pre', stripOrphanToolCalls (pre ++ m :: rest) = pre' ++ stripOrphanToolCalls (m :: rest).
Proof.
  induction pre as [|x pre [pre' IH]]; [by exists []|]. cbn [app stripOrphanToolCalls]. rewrite IH. by eexists (_ :: _).
Qed.


(** A small exchange: a question, a call, its result and the answer. *)
Definition exchange : list message :=
  [Message User [TextBlock "what is in the file?"];
   Message Assistant [TextBlock "let me look"; ToolCallBlock "call-1" "read_file" JNull];
   Message User [ToolResultBlock "call-1" [ItemText "forty-two"]];
   Message Assistant [TextBlock "it says forty-two"]].


(** A call that was cut off is not sent, so the provider accepts the request. *)
Example cut_off_call_dropped :
  tagged (request_messages
    [Message User [TextBlock "go on"];
     Message Assistant [TextBlock "first"; ToolCallBlock "call-1" "read_file" JNull];
     Message User [TextBlock "never mind"]] None)
  = [(User, TextBlock "go on"); (Assistant, TextBlock "first"); (User, TextBlock "never mind")].
Proof. reflexivity. Qed.

(** P: A result that was moved to a file is lost to the model: the reply's
    call counts as unanswered, because only inline results are looked at, and
    once the call is gone the reference is dropped as orphaned. *)
Theorem persisted_result_lost question id name input path preview :
  request_messages
    [Message User [TextBlock question];
     Message Assistant [ToolCallBlock id name input];
     Message User [ToolResultReferenceBlock id path preview]] None
  = [Message User [TextBlock question]].
Proof. reflexivity. Qed.

(** ** Truncation *)

Lemma slice_last_spec {A} n (messages : list A) :
  1 <= n → slice_last n messages `suffix_of` messages ∧
  Z.of_nat (length (slice_last n messages)) = Z.min n (Z.of_nat (length messages)).
Proof.
  intros Hn. unfold slice_last. split.
  - exists (take (length messages - Z.to_nat n) messages). by rewrite take_drop.
  - rewrite length_drop. lia.
Qed.

(** P: Truncating the head keeps a suffix of the history, the latest message at
    least and never more than there was; a single message is never cut, so
    truncating again changes nothing from there on. *)
Theorem truncation_bounds {A} (messages : list A) keepRatio :
  let out := truncateHead messages keepRatio in
  out `suffix_of` messages ∧ (length out ≤ length messages)%nat ∧
  (messages ≠ [] → out ≠ []) ∧ (∀ m : A, truncateHead [m] keepRatio = [m]) ∧
  ((keepRatio < 1)%Q → (2 ≤ length messages)%nat → (length out < length messages)%nat).
Proof.
  cbn zeta. unfold truncateHead. set (keep := Z.max 1 _). assert (1 <= keep) as Hk by lia.
  destruct (slice_last_spec keep messages Hk) as [Hsuf Hlen]. split; [done|]. split; [lia|]. split; [|split].
  - intros Hne Hnil. rewrite Hnil in Hlen. cbn in Hlen. destruct messages; [done|cbn in Hlen; lia].
  - intros m. set (k := Z.max 1 _). assert (1 <= k) as Hk1 by lia.
    destruct (slice_last_spec k [m] Hk1) as [[pre Hpre] Hl]. cbn [length] in Hl.
    rewrite Z.min_r in Hl by lia. destruct (slice_last k [m]) as [|x [|y l]]; cbn [length] in Hl; try lia.
    destruct pre as [|p [|p' pre]]; cbn in Hpre; congruence.
  - intros Hr Hl2. cut (keep < Z.of_nat (length messages)); [lia|].
    subst keep. apply Z.max_lub_lt; [lia|].
    assert (clamp keepRatio (1 # 20) 1 < 1)%Q as Hclamp.
    { unfold clamp. destruct (Qle_bool keepRatio 1) eqn:E1.
      - destruct (Qle_bool (1 # 20) keepRatio); [done|reflexivity].
      - apply Qlt_le_weak, Qle_bool_iff in Hr. by rewrite E1 in Hr. }
    set (n := Z.of_nat (length messages)) in *. set (q := clamp _ _ _) in *.
    assert (inject_Z n * q < inject_Z n)%Q as Hq.
    { rewrite <- (Qmult_1_r (inject_Z n)) at 2. apply Qmult_lt_l; [|done].
      change 0%Q with (inject_Z 0). rewrite <- Zlt_Qlt. lia. }
    pose proof (Qfloor_le (inject_Z n * q)) as Hf.
    rewrite Zlt_Qlt. eapply Qle_lt_trans; eassumption.
Qed.
