(* ===== verification/ContextSnip.v ===== *)
(** * Snipping the middle of a conversation

    Turns and the messages that must survive a compaction
    (src/src/context/compaction/protectedContext.ts) and the engine that drops
    middle turns (src/src/context/compaction/SnipEngine.ts).  A set of turn
    indexes is a [gset nat]; a turn is its list of messages. *)

From stdpp Require Import gmap.
From S2P Require Import Prelude JsValue RouterTypes MessagePairs MessageProjector.
Open Scope Z_scope.

(** ** Turns *)

(** The loop of [splitIntoTurns] and [splitMessagesIntoTurns]: a user message
    that is not only results starts a turn. *)
Fixpoint turns_from (result_only : message → bool) (current : list message) (messages : list message)
  : list (list message) :=
  match messages with
  | [] => match current with [] => [] | _ => [current] end
  | m :: rest =>
    if bool_decide (m_role m = User) && negb (result_only m) && bool_decide (current ≠ [])
    then current :: turns_from result_only [m] rest
    else turns_from result_only (current ++ [m]) rest
  end.

(** [isToolResultOnly] of protectedContext.ts: media references do not count. *)
Definition protected_result_only (m : message) : bool :=
  bool_decide (m_content m ≠ []) && forallb isDirectToolResultBlock (m_content m).

Definition splitMessagesIntoTurns (messages : list message) : list (list message) :=
  turns_from protected_result_only [] messages.

Definition splitIntoTurns (messages : list message) : list (list message) :=
  turns_from isToolResultOnly [] messages.

(** ** Protected messages *)

Definition DEFAULT_PROTECTED_TOOL_RESULT_NAMES : list string :=
  ["read_skill"; "ReadSkill"; "ask_user_question"; "AskUserQuestion"; "todo_write"; "TodoWrite";
   "structured_output"; "StructuredOutput"; "agent"; "Agent"; "Task"; "task_create"; "TaskCreate";
   "task_list"; "TaskList"; "task_output"; "TaskOutput"; "task_wait"; "TaskWait"; "task_stop"; "TaskStop"].

Definition protectedToolNameSet (names : option (list string)) : list string :=
  default DEFAULT_PROTECTED_TOOL_RESULT_NAMES names.

Definition note_tool_names (names : jmap string) (m : message) : jmap string :=
  match m_role m with
  | User => names
  | Assistant =>
    foldl (λ names b, match b with ToolCallBlock id name _ => jm_set id name names | _ => names end)
      names (m_content m)
  end.

Definition collectToolNamesByCallId (messages : list message) : jmap string :=
  foldl note_tool_names [] messages.

Definition hasMemoryContext (m : message) : bool :=
  existsb (λ b, match b with
                | TextBlock text => starts_with "<memory-context>" (trim_start text)
                | _ => false
                end) (m_content m).

Definition isProtectedToolCallId (toolCallId : string) (toolNamesByCallId : jmap string)
  (protectedNames : list string) : bool :=
  match jm_get toolCallId toolNamesByCallId with
  | Some toolName => bool_decide (toolName ∈ protectedNames)
  | None => false
  end.

Definition is_protected_block (toolNamesByCallId : jmap string) (protectedNames : list string)
  (b : content_block) : bool :=
  match b with
  | ToolCallBlock _ name _ => bool_decide (name ∈ protectedNames)
  | ToolResultBlock id _ | ToolResultReferenceBlock id _ _ =>
    isProtectedToolCallId id toolNamesByCallId protectedNames
  | _ => false
  end.

Definition isProtectedContextMessage (toolNamesByCallId : jmap string) (protectedNames : list string)
  (m : message) : bool :=
  hasMemoryContext m || existsb (is_protected_block toolNamesByCallId protectedNames) (m_content m).

(** The indexes of the elements of a list that satisfy a test. *)
Fixpoint indexes_from {A} (p : A → bool) (i : nat) (l : list A) : gset nat :=
  match l with
  | [] => ∅
  | x :: l => (if p x then {[ i ]} else ∅) ∪ indexes_from p (S i) l
  end.

Definition collectProtectedTurnIndexes (messages : list message) (protectedNames : list string)
  : gset nat :=
  let toolNamesByCallId := collectToolNamesByCallId messages in
  indexes_from (existsb (isProtectedContextMessage toolNamesByCallId protectedNames)) 0
    (splitMessagesIntoTurns messages).

(** ** The engine *)

Record snip_engine := SnipEngine {
  sn_keepHeadTurns : nat;
  sn_keepTailTurns : nat;
  sn_enabled : bool;
  sn_protectedToolNames : list string;
}.

(** The constructor, with its defaults. *)
Definition new_SnipEngine (keepHeadTurns keepTailTurns : option Z) (enabled : option bool)
  (protectedToolNames : option (list string)) : snip_engine :=
  SnipEngine (Z.to_nat (Z.max 0 (default 2 keepHeadTurns)))
    (Z.to_nat (Z.max 1 (default 4 keepTailTurns))) (default true enabled)
    (protectedToolNameSet protectedToolNames).

Record snip_result := SnipResult {
  sr_messages : list message;
  sr_applied : bool;
  sr_turnsSnipped : nat;
  sr_danglingToolCallIds : list string;
}.

Definition SNIP_BOUNDARY_TEXT_PREFIX : string := "<snip-boundary".

Definition createSnipBoundary (turnsSnipped headTurns tailTurns : nat) : message :=
  Message User [TextBlock (SNIP_BOUNDARY_TEXT_PREFIX
    +:+ " turnsSnipped=" +:+ dquote +:+ pretty turnsSnipped +:+ dquote
    +:+ " headTurns=" +:+ dquote +:+ pretty headTurns +:+ dquote
    +:+ " tailTurns=" +:+ dquote +:+ pretty tailTurns +:+ dquote +:+ " />")].

Definition isSnipBoundaryMessage (m : message) : bool :=
  bool_decide (m_role m = User) &&
  match m_content m with
  | [TextBlock text] => starts_with SNIP_BOUNDARY_TEXT_PREFIX text
  | _ => false
  end.

(** A boundary stands for each run of dropped turns. *)
Fixpoint stitch_from (keep : gset nat) (headTurns tailTurns : nat) (index skipped : nat)
  (turns : list (list message)) : list message :=
  let boundary := if (0 <? skipped)%nat then [createSnipBoundary skipped headTurns tailTurns] else [] in
  match turns with
  | [] => boundary
  | turn :: rest =>
    if bool_decide (index ∈ keep)
    then boundary ++ turn ++ stitch_from keep headTurns tailTurns (S index) 0 rest
    else stitch_from keep headTurns tailTurns (S index) (S skipped) rest
  end.

Definition stitchKeptTurnsWithBoundaries (turns : list (list message)) (keepIndexes : gset nat)
  (headTurns tailTurns : nat) : list message :=
  stitch_from keepIndexes headTurns tailTurns 0 0 turns.

Section Snip.
Context (engine : snip_engine).

(** The head and the tail of [n] turns. *)
Definition anchor_indexes (n : nat) : gset nat :=
  let head := sn_keepHeadTurns engine in
  let tail_start := Nat.max head (n - sn_keepTailTurns engine) in
  set_seq 0 (Nat.min head n) ∪ set_seq tail_start (n - tail_start).

Definition keep_indexes (messages : list message) : gset nat :=
  anchor_indexes (length (splitIntoTurns messages))
    ∪ collectProtectedTurnIndexes messages (sn_protectedToolNames engine).

Definition snip (messages : list message) : snip_result :=
  let unchanged := SnipResult messages false 0 [] in
  if negb (sn_enabled engine) then unchanged
  else
    let turns := splitIntoTurns messages in
    if (length turns <=? sn_keepHeadTurns engine + sn_keepTailTurns engine)%nat then unchanged
    else
      let keepIndexes := keep_indexes messages in
      if (length turns <=? size keepIndexes)%nat then unchanged
      else
        let turnsSnipped := (length turns - size keepIndexes)%nat in
        let projected := stitchKeptTurnsWithBoundaries turns keepIndexes
                           (sn_keepHeadTurns engine) (sn_keepTailTurns engine) in
        let cleaned := strip_unpaired projected in
        let toolResultIds := collectToolResultIds projected in
        let dangling := List.filter (λ id, bool_decide (id ∉ toolResultIds)) (collectToolCallIds projected) in
        SnipResult (ensureTrailingUserMessage cleaned) true turnsSnipped dangling.
End Snip.

Definition projectSnippedView (messages : list message) (engine : snip_engine) : list message :=
  sr_messages (snip engine messages).

(** ** Turns *)

Lemma concat_turns_from p messages : ∀ current, concat (turns_from p current messages) = current ++ messages.
Proof.
  induction messages as [|m l IH]; intros current; cbn [turns_from].
  - destruct current; cbn; by rewrite ?app_nil_r.
  - destruct (_ && _ && _); cbn [concat]; rewrite IH; [done|by rewrite <- app_assoc].
Qed.

Lemma turns_from_nonempty p messages : ∀ current,
  Forall (λ turn, turn ≠ []) (turns_from p current messages).
Proof.
  induction messages as [|m l IH]; intros current; cbn [turns_from].
  - destruct current; repeat constructor. done.
  - destruct (_ && _ && _) eqn:Hs; [|apply IH]. constructor; [|apply IH].
    apply andb_prop in Hs as [_ Hs]. by apply bool_decide_eq_true_1 in Hs.
Qed.

Lemma turns_nonempty messages : Forall (λ turn, turn ≠ []) (splitIntoTurns messages).
Proof. apply turns_from_nonempty. Qed.

Lemma turns_from_ext p q messages : ∀ current,
  (∀ m, m ∈ messages → p m = q m) → turns_from p current messages = turns_from q current messages.
Proof.
  induction messages as [|m l IH]; intros current Hpq; [done|]. cbn [turns_from].
  rewrite (Hpq m) by (by left). rewrite !IH by (intros; apply Hpq; by right). done.
Qed.

Lemma elem_of_turns p messages k turn m :
  turns_from p [] messages !! k = Some turn → m ∈ turn → m ∈ messages.
Proof.
  intros Hk Hm. pose proof (concat_turns_from p messages []) as Hc. cbn [app] in Hc.
  rewrite <- Hc, list_elem_of_In. apply in_concat.
  exists turn. rewrite <- !list_elem_of_In. split; [by eapply list_elem_of_lookup_2|done].
Qed.

(** Without media references the two splits agree. *)
Lemma splits_agree messages :
  (∀ m b, m ∈ messages → b ∈ m_content m → media_id b = None) →
  splitIntoTurns messages = splitMessagesIntoTurns messages.
Proof.
  intros Hm. apply turns_from_ext. intros m Hin. unfold isToolResultOnly, protected_result_only. f_equal.
  apply eq_true_iff_eq. rewrite !forallb_forall.
  assert (∀ b, In b (m_content m) → is_result_block b = isDirectToolResultBlock b) as Heq.
  { intros b Hb%list_elem_of_In. unfold is_result_block, isMediaReferenceWithId.
    rewrite (Hm m b) by done. by rewrite (bool_decide_eq_false_2 (is_Some None)), orb_false_r
      by (intros [? ?]; done). }
  split; intros Hf b Hb; [rewrite <- Heq by done|rewrite Heq by done]; by apply Hf.
Qed.

Lemma elem_of_indexes {A} (p : A → bool) l : ∀ i k,
  k ∈ indexes_from p i l ↔ ∃ x, (i ≤ k)%nat ∧ l !! (k - i)%nat = Some x ∧ p x = true.
Proof.
  induction l as [|x l IH]; intros i k; cbn [indexes_from].
  - rewrite elem_of_empty. split; [done|]. by intros (? & _ & ? & _).
  - rewrite elem_of_union, IH. split.
    + intros [Hk|(y & Hle & Hy & Hp)].
      * destruct (p x) eqn:Hpx; [|by apply elem_of_empty in Hk]. apply elem_of_singleton in Hk as ->.
        exists x. rewrite Nat.sub_diag. done.
      * exists y. split; [lia|]. split; [|done]. by replace (k - i)%nat with (S (k - S i)) by lia.
    + intros (y & Hle & Hy & Hp). destruct (k - i)%nat as [|d] eqn:Hd; cbn in Hy.
      * left. injection Hy as ->. rewrite Hp. apply elem_of_singleton. lia.
      * right. exists y. split; [lia|]. split; [|done]. by replace (k - S i)%nat with d by lia.
Qed.

(** ** Stitching *)

Lemma boundary_marked n h t : isSnipBoundaryMessage (createSnipBoundary n h t) = true.
Proof. reflexivity. Qed.

Definition boundaries (skipped h t : nat) : list message :=
  if (0 <? skipped)%nat then [createSnipBoundary skipped h t] else [].

Lemma elem_of_boundaries m skipped h t :
  m ∈ boundaries skipped h t → ∃ n, m = createSnipBoundary n h t.
Proof. unfold boundaries. destruct (_ <? _)%nat; [intros ->%list_elem_of_singleton; eauto|by intros ?%elem_of_nil]. Qed.

Lemma stitch_from_cons keep h t index skipped turn rest :
  stitch_from keep h t index skipped (turn :: rest) =
  if bool_decide (index ∈ keep)
  then boundaries skipped h t ++ turn ++ stitch_from keep h t (S index) 0 rest
  else stitch_from keep h t (S index) (S skipped) rest.
Proof. done. Qed.

Lemma stitch_inv keep h t turns : ∀ index skipped m,
  m ∈ stitch_from keep h t index skipped turns →
  (∃ n, m = createSnipBoundary n h t) ∨
  ∃ k turn, turns !! k = Some turn ∧ (index + k)%nat ∈ keep ∧ m ∈ turn.
Proof.
  induction turns as [|turn rest IH]; intros index skipped m Hm.
  - left. by apply elem_of_boundaries in Hm.
  - rewrite stitch_from_cons in Hm. case_bool_decide as Hi.
    + rewrite !elem_of_app in Hm. destruct Hm as [Hm|[Hm|Hm]].
      * left. by apply elem_of_boundaries in Hm.
      * right. exists O, turn. by rewrite Nat.add_0_r.
      * apply IH in Hm as [?|(k & turn' & ? & ? & ?)]; [by left|]. right. exists (S k), turn'.
        by rewrite Nat.add_succ_r.
    + apply IH in Hm as [?|(k & turn' & ? & ? & ?)]; [by left|]. right. exists (S k), turn'.
      by rewrite Nat.add_succ_r.
Qed.

Lemma stitch_keeps keep h t turns : ∀ index skipped k turn m,
  turns !! k = Some turn → (index + k)%nat ∈ keep → m ∈ turn →
  m ∈ stitch_from keep h t index skipped turns.
Proof.
  induction turns as [|turn rest IH]; intros index skipped k turn' m Hk Hkeep Hm; [done|].
  rewrite stitch_from_cons. destruct k as [|k]; cbn in Hk.
  - injection Hk as ->. rewrite Nat.add_0_r in Hkeep. rewrite bool_decide_true by done.
    rewrite !elem_of_app. tauto.
  - rewrite Nat.add_succ_r in Hkeep. case_bool_decide; rewrite ?elem_of_app; [right; right|];
      by eapply IH.
Qed.

Lemma stitch_nonempty keep h t turns : ∀ index skipped,
  Forall (λ turn, turn ≠ []) turns → (0 < skipped)%nat ∨ turns ≠ [] →
  stitch_from keep h t index skipped turns ≠ [].
Proof.
  induction turns as [|turn rest IH]; intros index skipped Hne Hs.
  - destruct Hs as [Hs|?]; [|done]. destruct skipped; [lia|done].
  - inversion Hne as [|? ? Ht Hrest]; subst. rewrite stitch_from_cons. case_bool_decide.
    + intros [_ [? _]%app_eq_nil]%app_eq_nil. done.
    + apply IH; [done|left; lia].
Qed.

Lemma elem_of_ids_messages r f messages id :
  id ∈ ids_in r f messages ↔ ∃ m b, m ∈ messages ∧ m_role m = r ∧ b ∈ m_content m ∧ f b = Some id.
Proof. rewrite elem_of_ids_in. setoid_rewrite elem_of_tagged. naive_solver. Qed.

Lemma stitch_ids keep h t turns r f :
  (∀ n b, b ∈ m_content (createSnipBoundary n h t) → f b = None) →
  ∀ id, id ∈ ids_in r f (stitch_from keep h t 0 0 turns) ↔
        ∃ k turn, turns !! k = Some turn ∧ k ∈ keep ∧ id ∈ ids_in r f turn.
Proof.
  intros Hf id. rewrite elem_of_ids_messages. split.
  - intros (m & b & Hm & Hr & Hb & Hid). apply stitch_inv in Hm as [(n & ->)|(k & turn & Ht & Hk & Hm)].
    + by rewrite (Hf n b Hb) in Hid.
    + exists k, turn. repeat split; try done. apply elem_of_ids_messages. eauto 10.
  - intros (k & turn & Ht & Hk & (m & b & ?)%elem_of_ids_messages). exists m, b.
    split; [eapply stitch_keeps; naive_solver|naive_solver].
Qed.

Lemma boundary_ids n h t b :
  b ∈ m_content (createSnipBoundary n h t) → call_id b = None ∧ result_id b = None ∧ media_id b = None.
Proof. by intros ->%list_elem_of_singleton. Qed.

Lemma stitch_all_paired keep h t turns :
  Forall all_paired turns → all_paired (stitch_from keep h t 0 0 turns).
Proof.
  intros Ht. rewrite Forall_lookup in Ht.
  split; intros id; rewrite !stitch_ids by (intros n b Hb; apply boundary_ids in Hb; tauto).
  - split; intros (k & turn & Hk & Hkeep & Hid); exists k, turn; 
      (split; [done|split; [done|]]); destruct (Ht k turn Hk) as [Hc _]; by apply Hc.
  - intros (k & turn & Hk & Hkeep & Hid). exists k, turn. (split; [done|split; [done|]]).
    destruct (Ht k turn Hk) as [_ Hm]. by apply Hm.
Qed.

Lemma filter_has_content_id messages :
  Forall (λ m, m_content m ≠ []) messages → List.filter has_content messages = messages.
Proof.
  intros Hm. apply forallb_filter_id, forallb_forall. intros m Hin. apply bool_decide_eq_true_2.
  rewrite Forall_forall in Hm. by apply Hm, list_elem_of_In.
Qed.

Lemma trailing_elem m messages :
  m ∈ ensureTrailingUserMessage messages ↔
  m ∈ messages ∨ (m = Message User [TextBlock CONTINUATION_TEXT]
                  ∧ m_role <$> last messages = Some Assistant).
Proof.
  unfold ensureTrailingUserMessage. destruct (last messages) as [[[] c]|]; cbn.
  1,3: naive_solver. rewrite elem_of_app, list_elem_of_singleton. naive_solver.
Qed.

Lemma trailing_user messages :
  messages ≠ [] → m_role <$> last (ensureTrailingUserMessage messages) = Some User.
Proof.
  intros Hne. unfold ensureTrailingUserMessage. destruct (last messages) as [[[] c]|] eqn:Hl.
  - by rewrite Hl.
  - by rewrite last_snoc.
  - by apply last_None in Hl.
Qed.

Lemma trailing_ids r f messages :
  f (TextBlock CONTINUATION_TEXT) = None →
  ∀ id, id ∈ ids_in r f (ensureTrailingUserMessage messages) ↔ id ∈ ids_in r f messages.
Proof.
  intros Hf id. rewrite !elem_of_ids_messages. setoid_rewrite trailing_elem. split.
  - intros (m & b & [Hm|[-> _]] & Hr & Hb & Hid); [eauto 10|].
    apply list_elem_of_singleton in Hb as ->. by rewrite Hf in Hid.
  - intros (m & b & ?). exists m, b. naive_solver.
Qed.

Lemma trailing_all_paired messages :
  all_paired messages → all_paired (ensureTrailingUserMessage messages).
Proof. intros [Hc Hm]. split; intros id; rewrite !trailing_ids by done; auto. Qed.

(** ** What snipping keeps *)

Definition snip_projected (engine : snip_engine) (messages : list message) : list message :=
  stitchKeptTurnsWithBoundaries (splitIntoTurns messages) (keep_indexes engine messages)
    (sn_keepHeadTurns engine) (sn_keepTailTurns engine).

Lemma snip_cases engine messages :
  snip engine messages = SnipResult messages false 0 [] ∨
  (sn_keepHeadTurns engine + sn_keepTailTurns engine < length (splitIntoTurns messages))%nat ∧
  (size (keep_indexes engine messages) < length (splitIntoTurns messages))%nat ∧
  sr_messages (snip engine messages) =
    ensureTrailingUserMessage (strip_unpaired (snip_projected engine messages)) ∧
  sr_applied (snip engine messages) = true ∧
  sr_danglingToolCallIds (snip engine messages) =
    List.filter (λ id, bool_decide (id ∉ collectToolResultIds (snip_projected engine messages)))
      (collectToolCallIds (snip_projected engine messages)).
Proof.
  unfold snip. destruct (sn_enabled engine); [|by left]. cbn [negb].
  destruct (_ <=? _)%nat eqn:H1; [by left|]. apply Nat.leb_gt in H1.
  destruct (_ <=? size _)%nat eqn:H2; [by left|]. apply Nat.leb_gt in H2. right. done.
Qed.

Lemma strip_snip_projected engine messages :
  Forall all_paired (splitIntoTurns messages) → Forall (λ m, m_content m ≠ []) messages →
  strip_unpaired (snip_projected engine messages) = snip_projected engine messages.
Proof.
  intros Ht Hm. rewrite strip_paired_id by (by apply stitch_all_paired). apply filter_has_content_id.
  apply Forall_forall. intros m [(n & ->)|(k & turn & Hk & _ & Hin)]%stitch_inv; [done|].
  rewrite Forall_forall in Hm. apply Hm. by eapply elem_of_turns.
Qed.

Lemma kept_turn_stays engine messages k turn m :
  Forall all_paired (splitIntoTurns messages) → Forall (λ m, m_content m ≠ []) messages →
  splitIntoTurns messages !! k = Some turn → m ∈ turn → k ∈ keep_indexes engine messages →
  m ∈ sr_messages (snip engine messages).
Proof.
  intros Ht Hm Hk Hin Hkeep. destruct (snip_cases engine messages) as [->|(_ & _ & -> & _)].
  - by eapply elem_of_turns.
  - apply trailing_elem. left. rewrite strip_snip_projected by done. by eapply stitch_keeps.
Qed.

(** ** The exact result *)

(** What remains of turns, numbered from [i], when those that [keep] holds of
    stay and each longest run of others gives way to one marker. *)
Inductive left_out (keep : nat → Prop) (marker : nat → message) : nat → list (list message) → list message → Prop :=
  | out_end i : left_out keep marker i [] []
  | out_kept i turn rest out :
      keep i → left_out keep marker (S i) rest out → left_out keep marker i (turn :: rest) (turn ++ out)
  | out_run i gone rest out :
      gone ≠ [] → (∀ k, (k < length gone)%nat → ¬ keep (i + k)%nat) →
      rest = [] ∨ keep (i + length gone)%nat → left_out keep marker (i + length gone) rest out →
      left_out keep marker i (gone ++ rest) (marker (length gone) :: out).

Lemma stitch_left_out keep h t turns : ∀ index,
  let kept := λ k, k ∈ keep in
  let marker := λ n, createSnipBoundary n h t in
  left_out kept marker index turns (stitch_from keep h t index 0 turns) ∧
  ∀ skipped, (0 < skipped)%nat → ∃ gone rest out,
    turns = gone ++ rest ∧ stitch_from keep h t index skipped turns = marker (skipped + length gone)%nat :: out ∧
    (∀ k, (k < length gone)%nat → (index + k)%nat ∉ keep) ∧
    (rest = [] ∨ (index + length gone)%nat ∈ keep) ∧ left_out kept marker (index + length gone) rest out.
Proof.
  cbn zeta. induction turns as [|turn turns IH]; intros index.
  { split; [constructor|]. intros [|n] Hs; [lia|]. exists [], [], []. cbn [length]. rewrite !Nat.add_0_r.
    split_and!; try done; [cbn; lia|by left|constructor]. }
  destruct (IH (S index)) as [IH0 IHs]. rewrite stitch_from_cons. case_bool_decide as Hi.
  - split; [by apply (out_kept _ _ index turn)|]. intros skipped Hs. exists [], (turn :: turns).
    eexists. rewrite stitch_from_cons, bool_decide_true by done. cbn [length app]. rewrite !Nat.add_0_r.
    split; [done|]. split; [unfold boundaries; by rewrite (proj2 (Nat.ltb_lt _ _) Hs)|].
    split; [lia|]. split; [by right|]. by apply (out_kept _ _ index turn).
  - assert (∀ skipped, ∃ gone rest out, turn :: turns = gone ++ rest ∧ gone ≠ [] ∧
      stitch_from keep h t (S index) (S skipped) turns = createSnipBoundary (skipped + length gone)%nat h t :: out ∧
      (∀ k, (k < length gone)%nat → (index + k)%nat ∉ keep) ∧
      (rest = [] ∨ (index + length gone)%nat ∈ keep) ∧
      left_out (λ k, k ∈ keep) (λ n, createSnipBoundary n h t) (index + length gone) rest out) as Hrun.
    { intros skipped. destruct (IHs (S skipped) ltac:(lia)) as (gone & rest & out & -> & -> & Hgone & Hrest & Hout).
      exists (turn :: gone), rest, out. cbn [length]. rewrite !Nat.add_succ_r, <- !Nat.add_succ_l.
      split_and!; try done. intros [|k] Hk; [by rewrite Nat.add_0_r|]. rewrite Nat.add_succ_r. apply Hgone. lia. }
    split.
    + destruct (Hrun O) as (gone & rest & out & -> & Hne & -> & Hgone & Hrest & Hout). by constructor.
    + intros skipped _. destruct (Hrun skipped) as (gone & rest & out & Hturns & _ & Hst & ?).
      exists gone, rest, out. rewrite stitch_from_cons, bool_decide_false by done. done.
Qed.

Lemma left_out_ext keep keep' marker i turns out :
  (∀ k, keep k ↔ keep' k) → left_out keep marker i turns out → left_out keep' marker i turns out.
Proof. intros Hk. induction 1; constructor; try done; setoid_rewrite <- Hk; done. Qed.

(** The turns a snip keeps: the head, the tail, and the indexes of the turns
    with protected content, which are turns of the other split. *)
Definition kept_turn (engine : snip_engine) (messages : list message) (k : nat) : Prop :=
  let n := length (splitIntoTurns messages) in
  (k < Nat.min (sn_keepHeadTurns engine) n)%nat ∨
  (Nat.max (sn_keepHeadTurns engine) (n - sn_keepTailTurns engine) ≤ k < n)%nat ∨
  ∃ turn, splitMessagesIntoTurns messages !! k = Some turn ∧
    ∃ m, m ∈ turn ∧ isProtectedContextMessage (collectToolNamesByCallId messages)
                       (sn_protectedToolNames engine) m = true.

Lemma elem_of_keep_indexes engine messages k : k ∈ keep_indexes engine messages ↔ kept_turn engine messages k.
Proof.
  unfold keep_indexes, anchor_indexes, kept_turn, collectProtectedTurnIndexes.
  rewrite !elem_of_union, !elem_of_set_seq, elem_of_indexes, Nat.sub_0_r.
  setoid_rewrite existsb_exists. setoid_rewrite <- list_elem_of_In.
  split.
  - intros [[?|?]|(turn & _ & ? & ?)]; [left; lia|right; left; lia|right; right; by exists turn].
  - intros [?|[?|(turn & ? & ?)]]; [left; left; lia|left; right; lia|right; exists turn; split; [lia|done]].
Qed.

(** Some turn is left out, so a marker is there. *)
Lemma left_out_marker keep marker i turns out :
  left_out keep marker i turns out → (∃ k, (k < length turns)%nat ∧ ¬ keep (i + k)%nat) →
  ∃ n, marker n ∈ out.
Proof.
  induction 1 as [i|i turn rest out Hk _ IH|i gone rest out Hne _ _ _ _]; intros (k & Hlt & Hn).
  - cbn in Hlt. lia.
  - destruct k as [|k]; [by rewrite Nat.add_0_r in Hn|]. destruct IH as [n Hin].
    { exists k. cbn in Hlt. rewrite Nat.add_succ_r in Hn. split; [lia|done]. }
    exists n. apply elem_of_app. by right.
  - exists (length gone). by left.
Qed.

Lemma some_left_out engine messages :
  (size (keep_indexes engine messages) < length (splitIntoTurns messages))%nat →
  ∃ k, (k < length (splitIntoTurns messages))%nat ∧ ¬ kept_turn engine messages (0 + k).
Proof.
  intros Hs. set (n := length _) in *.
  destruct (set_choose_or_empty (C := gset nat) (set_seq 0 n ∖ keep_indexes engine messages)) as [[k Hk]|He].
  - apply elem_of_difference in Hk as [Hk%elem_of_set_seq Hn]. exists k.
    split; [lia|]. by rewrite <- elem_of_keep_indexes.
  - assert (set_seq 0 n ⊆ keep_indexes engine messages) as Hsub%subseteq_size.
    { intros k Hk. destruct (decide (k ∈ keep_indexes engine messages)) as [|Hn]; [done|].
      destruct (not_elem_of_empty (C := gset nat) k). rewrite <- He. by apply elem_of_difference. }
    rewrite size_set_seq in Hsub. lia.
Qed.

Lemma marker_survives messages m :
  m ∈ messages → isSnipBoundaryMessage m = true → strip_unpaired messages ≠ [].
Proof.
  intros Hm Hb Hnil. unfold isSnipBoundaryMessage in Hb.
  apply andb_prop in Hb as [Hr%bool_decide_eq_true_1 Hc].
  destruct m as [r [|[] [|? ?]]]; try done. cbn in Hr. subst r.
  assert ((User, TextBlock text) ∈ tagged (strip_unpaired messages)) as Hin.
  { rewrite tagged_strip_unpaired. apply elem_of_bfilter. split; [|done].
    apply elem_of_tagged. eexists. split; [exact Hm|]. split; [done|]. by left. }
  rewrite Hnil in Hin. by apply not_elem_of_nil in Hin.
Qed.


(** A question and its answer. *)
Definition talk (n : nat) : list message :=
  [Message User [TextBlock ("question " +:+ pretty n)]; Message Assistant [TextBlock "answer"]].

Definition conversation : list message := concat (map talk (seq 1 7)).

Definition small_engine : snip_engine := new_SnipEngine (Some 1) (Some 2) None None.


(** P: Snipping a snipped conversation again takes its marker for a turn of the
    user: the new marker only counts the turns dropped this time (the old
    marker among them), so the note that four turns were dropped is gone. *)
Theorem snip_again_undercounts :
  let asked := List.filter (λ m, bool_decide (m_role m = User)) in
  let question n := Message User [TextBlock ("question " +:+ pretty (n : nat))] in
  let once := sr_messages (snip small_engine conversation) in
  asked once = [question 1%nat; createSnipBoundary 4 1 2; question 6%nat; question 7%nat;
                Message User [TextBlock CONTINUATION_TEXT]] ∧
  asked (sr_messages (snip small_engine once)) =
    [question 1%nat; createSnipBoundary 2 1 2; question 7%nat; Message User [TextBlock CONTINUATION_TEXT]].
Proof. vm_compute. split; reflexivity. Qed.

(** A snapshot saved as a media reference only starts no turn for the engine
    and starts one for the protection. *)
Definition protected_conversation : list message :=
  [Message User [TextBlock "one"];
   Message Assistant [ToolCallBlock "c1" "read_file" JNull];
   Message User [ToolResultBlock "c1" [ItemText "shot"]];
   Message User [MediaReferenceBlock (Some "c1") "shot.png" "[image]"];
   Message Assistant [TextBlock "seen"];
   Message User [TextBlock "two"];
   Message Assistant [ToolCallBlock "c2" "todo_write" JNull];
   Message User [ToolResultBlock "c2" [ItemText "1. prove it"]];
   Message User [TextBlock "three"]; Message Assistant [TextBlock "ok"];
   Message User [TextBlock "four"]; Message Assistant [TextBlock "ok"];
   Message User [TextBlock "five"]; Message Assistant [TextBlock "ok"]].

(** P: One message that holds only a media reference shifts the indexes of the
    protected turns: the todo list of the second turn is snipped and the third
    turn, which nothing protects, is kept in its place. *)
Theorem media_reference_shifts_protection :
  let r := sr_messages (snip small_engine protected_conversation) in
  isProtectedContextMessage (collectToolNamesByCallId protected_conversation)
    (sn_protectedToolNames small_engine)
    (Message Assistant [ToolCallBlock "c2" "todo_write" JNull]) = true ∧
  ids_in Assistant call_id r = ["c1"] ∧
  List.filter (λ m, bool_decide (m_role m = User)) r =
    [Message User [TextBlock "one"];
     Message User [ToolResultBlock "c1" [ItemText "shot"]];
     Message User [MediaReferenceBlock (Some "c1") "shot.png" "[image]"];
     createSnipBoundary 1 1 2;
     Message User [TextBlock "three"];
     Message User [TextBlock "four"];
     Message User [TextBlock "five"];
     Message User [TextBlock CONTINUATION_TEXT]].
Proof. vm_compute. repeat split; reflexivity. Qed.
