(* ===== verification/ContextMicro.v ===== *)
(** * Shortening old tool results

    The engine that rewrites old tool results
    (src/src/context/compaction/MicroCompactionEngine.ts), the engine that
    only marks them for the provider's cache
    (src/src/context/compaction/CachedMicroCompactionEngine.ts) and the media
    stripping of the summarizer's input
    (src/src/context/compaction/stripMultimedia.ts).  The ellipsis of a
    shortened preview is one code unit; its own is above 255. *)

From stdpp Require Import gmap.
From S2P Require Import Prelude JsValue Text RouterTypes RouterMedia MessagePairs MessageProjector ContextSnip.
Open Scope Z_scope.

Definition COMPACTABLE_TOOL_NAMES : list string :=
  ["read_file"; "Read"; "bash"; "Bash"; "grep"; "Grep"; "glob"; "Glob"; "web_search"; "WebSearch";
   "web_fetch"; "WebFetch"; "edit_file"; "Edit"; "write_file"; "Write"].

(** The ids of the compactable calls of the replies. *)
Definition compactable_call_id (b : content_block) : option string :=
  match b with
  | ToolCallBlock id name _ => if bool_decide (name ∈ COMPACTABLE_TOOL_NAMES) then Some id else None
  | _ => None
  end.

Definition collectCompactableToolCallIds (messages : list message) : list string :=
  dedup (ids_in Assistant compactable_call_id messages).

(** [block.type === "tool_result" && compactableCallIds.has(block.toolCallId)]. *)
Definition is_compactable_result (compactableCallIds : list string) (b : content_block) : bool :=
  match b with ToolResultBlock id _ => bool_decide (id ∈ compactableCallIds) | _ => false end.

Definition has_compactable_result (compactableCallIds : list string) (m : message) : bool :=
  bool_decide (m_role m = User) && existsb (is_compactable_result compactableCallIds) (m_content m).

(** The indexes, in order, of the elements that satisfy a test. *)
Fixpoint positions {A} (p : A → bool) (i : nat) (l : list A) : list nat :=
  match l with
  | [] => []
  | x :: l => (if p x then [i] else []) ++ positions p (S i) l
  end.

Definition collectCompactableToolResultIndices (messages : list message)
  (compactableCallIds : list string) : list nat :=
  positions (has_compactable_result compactableCallIds) 0 messages.

(** ** Rewriting *)

Definition MICROCOMPACT_CLEARED : string := "[Old tool result content compacted]".
Definition ELLIPSIS : string := String (ascii_of_N 133) "".
Definition two_newlines : string := newline +:+ newline.

Definition preview_budget (trimToBytes : Z) : Z := Z.max 256 (Z.min trimToBytes 4000).

Definition compactToolResultText (text : string) (trimToBytes : Z) : string :=
  let normalized := js_trim text in
  if (String.length normalized =? 0)%nat then MICROCOMPACT_CLEARED
  else
    let previewBudget := Z.to_nat (preview_budget trimToBytes) in
    let preview := if (previewBudget <? String.length normalized)%nat
                   then str_slice 0 previewBudget normalized +:+ ELLIPSIS
                   else normalized in
    MICROCOMPACT_CLEARED +:+ two_newlines +:+ "Preview:" +:+ newline +:+ preview.

Definition flattenToolResultContentText (content : list result_item) : string :=
  str_join newline (map toolResultContentBlockToText content).

Definition item_size (i : result_item) : Z :=
  match i with
  | ItemText text => Z.of_nat (String.length text)
  | ItemImage _ data _ _ | ItemPdf data _ _ _ => Z.of_nat (String.length data)
  end.

Definition estimateToolResultSize (content : list result_item) : Z :=
  foldr Z.add 0 (map item_size content).

Record micro_engine := MicroEngine {
  mi_keepLatest : nat;
  mi_trimToBytes : Z;
  mi_protectedToolNames : list string;
}.

(** The constructor, with the defaults [apply] reads. *)
Definition new_MicroCompactionEngine (keepLatest : option nat) (trimToBytes : option Z)
  (protectedToolNames : option (list string)) : micro_engine :=
  MicroEngine (default 1%nat keepLatest) (default 1536 trimToBytes)
    (protectedToolNameSet protectedToolNames).

Record micro_result := MicroResult {
  mr_messages : list message;
  mr_rewritten : nat;
  mr_rewrittenBytes : Z;
  mr_toolCallIds : list string;
  mr_time_based : bool;
}.

Section Micro.
Context (engine : micro_engine) (compactableCallIds : list string) (toolNamesByCallId : jmap string).

(** One block of a message in the window: the new block, the id of a
    rewritten result and the bytes counted. *)
Definition rewrite_block (b : content_block) : content_block * option string * Z :=
  match b with
  | ImageBlock _ data _ _ => (TextBlock "[image cleared]", None, Z.of_nat (String.length data))
  | PdfBlock data _ _ _ => (TextBlock "[document cleared]", None, Z.of_nat (String.length data))
  | ToolResultBlock id content =>
    if negb (bool_decide (id ∈ compactableCallIds)) then (b, None, 0)
    else if isProtectedToolCallId id toolNamesByCallId (mi_protectedToolNames engine) then (b, None, 0)
    else
      let size := estimateToolResultSize content in
      if size <=? mi_trimToBytes engine then (b, None, 0)
      else (ToolResultBlock id [ItemText (compactToolResultText (flattenToolResultContentText content)
                                            (mi_trimToBytes engine))], Some id, size)
  | _ => (b, None, 0)
  end.

(** [index > rewriteUntil]; without a bound (an engine that keeps none) the
    comparison is with NaN and every message is rewritten. *)
Definition beyond_window (rewriteBefore : option nat) (index : nat) : bool :=
  match rewriteBefore with Some limit => (limit <=? index)%nat | None => false end.

Definition rewrite_message (rewriteBefore : option nat) (index : nat) (m : message) : message :=
  if beyond_window rewriteBefore index then m
  else match m_role m with
       | Assistant => m
       | User => Message (m_role m) (map (λ b, (rewrite_block b).1.1) (m_content m))
       end.

(** The blocks the pass looks at, in order. *)
Fixpoint window_blocks (rewriteBefore : option nat) (index : nat) (messages : list message)
  : list content_block :=
  match messages with
  | [] => []
  | m :: rest =>
    (if beyond_window rewriteBefore index then []
     else match m_role m with User => m_content m | Assistant => [] end)
    ++ window_blocks rewriteBefore (S index) rest
  end.
End Micro.

Definition micro_apply (engine : micro_engine) (messages : list message) : micro_result :=
  let toolNamesByCallId := collectToolNamesByCallId messages in
  let compactableCallIds := collectCompactableToolCallIds messages in
  let toolResultIndices := collectCompactableToolResultIndices messages compactableCallIds in
  if (length toolResultIndices <=? mi_keepLatest engine)%nat
  then MicroResult messages 0 0 [] false
  else
    let rewriteBefore := toolResultIndices !! (length toolResultIndices - mi_keepLatest engine)%nat in
    let touched := window_blocks rewriteBefore 0 messages in
    let rewrite := rewrite_block engine compactableCallIds toolNamesByCallId in
    let rewrittenIds := omap (λ b, (rewrite b).1.2) touched in
    MicroResult
      (imap (rewrite_message engine compactableCallIds toolNamesByCallId rewriteBefore) messages)
      (length rewrittenIds) (foldr Z.add 0 (map (λ b, (rewrite b).2) touched)) rewrittenIds
      (0 <? length rewrittenIds)%nat.

(** ** Cache breakpoints *)

Record cached_micro_result := CachedMicroResult {
  cm_cacheBreakpoints : list nat;
  cm_eligibleToolCallIds : list string;
  cm_applied : bool;
}.

Definition compactable_result_id (compactableIds : list string) (b : content_block) : option string :=
  match b with
  | ToolResultBlock id _ => if bool_decide (id ∈ compactableIds) then Some id else None
  | _ => None
  end.

(** [Array.from(new Set(l)).sort((a, b) => a - b)]. *)
Definition sorted_set (l : list nat) : list nat := js_sort Nat.compare (remove_dups l).

Definition cached_micro_apply (enabled : bool) (liveThreshold : nat)
  (messages : list message) : cached_micro_result :=
  let empty := CachedMicroResult [] [] false in
  if negb enabled then empty
  else
    let compactableIds := collectCompactableToolCallIds messages in
    if bool_decide (compactableIds = []) then empty
    else
      let eligibleMessageIndices :=
        positions (has_compactable_result compactableIds) 0 messages in
      let eligibleToolCallIds := ids_in User (compactable_result_id compactableIds) messages in
      if (length eligibleMessageIndices <=? liveThreshold)%nat then empty
      else
        let aged := take (length eligibleMessageIndices - liveThreshold)%nat eligibleMessageIndices in
        let cacheBreakpoints :=
          sorted_set (omap (λ idx, match idx with S before => Some before | O => None end) aged) in
        CachedMicroResult cacheBreakpoints eligibleToolCallIds (bool_decide (cacheBreakpoints ≠ [])).

Definition validateCacheHit (u : option usage) : bool :=
  match u with Some u => 0 <? default 0 (us_cacheReadTokens u) | None => false end.

(** ** Stripping media for the summarizer *)

Definition strip_item_media (i : result_item) : result_item :=
  match i with
  | ItemImage _ _ _ _ => ItemText "[image]"
  | ItemPdf _ _ _ _ => ItemText "[document]"
  | ItemText _ => i
  end.

Definition strip_block_media (b : content_block) : content_block :=
  match b with
  | ImageBlock _ _ _ _ => TextBlock "[image]"
  | PdfBlock _ _ _ _ => TextBlock "[document]"
  | ToolResultBlock id content => ToolResultBlock id (map strip_item_media content)
  | _ => b
  end.

Definition stripMultimediaFromMessages (messages : list message) : list message :=
  map (λ m, match m_role m with
            | User => Message (m_role m) (map strip_block_media (m_content m))
            | Assistant => m
            end) messages.

(** ** What a pass keeps *)

(** Two blocks that answer to the same ids. *)
Definition same_ids (b b' : content_block) : Prop :=
  call_id b' = call_id b ∧ result_id b' = result_id b ∧ media_id b' = media_id b
  ∧ inline_result_id b' = inline_result_id b.

Definition same_shape (m m' : message) : Prop :=
  m_role m' = m_role m ∧ Forall2 same_ids (m_content m) (m_content m').

Lemma Forall2_diag {A} (R : A → A → Prop) l : (∀ x, R x x) → Forall2 R l l.
Proof. intros HR. induction l; constructor; auto. Qed.

Lemma same_shape_refl m : same_shape m m.
Proof. split; [done|]. by apply Forall2_diag. Qed.

Lemma rewrite_block_ids engine ids names b : same_ids b (rewrite_block engine ids names b).1.1.
Proof.
  destruct b; try done. unfold rewrite_block. destruct (negb _); [done|].
  destruct (isProtectedToolCallId _ _ _); [done|]. by destruct (_ <=? _).
Qed.

Lemma map_same_ids (f : content_block → content_block) l :
  (∀ b, same_ids b (f b)) → Forall2 same_ids l (map f l).
Proof. intros Hf. induction l; constructor; auto. Qed.

Lemma rewrite_message_shape engine ids names before i m :
  same_shape m (rewrite_message engine ids names before i m).
Proof.
  unfold rewrite_message. destruct (beyond_window before i); [apply same_shape_refl|].
  destruct m as [[] c]; cbn [m_role]; [|apply same_shape_refl]. split; [done|].
  apply map_same_ids, rewrite_block_ids.
Qed.

Lemma imap_Forall2 {A B} (R : A → B → Prop) (f : nat → A → B) l :
  (∀ i x, R x (f i x)) → Forall2 R l (imap f l).
Proof.
  intros Hf. revert f Hf. induction l as [|x l IH]; intros f Hf; cbn; constructor; [done|].
  apply IH. intros i y. apply Hf.
Qed.

Lemma micro_shape engine messages :
  Forall2 same_shape messages (mr_messages (micro_apply engine messages)).
Proof.
  unfold micro_apply. destruct (_ <=? _)%nat; cbn [mr_messages].
  - apply Forall2_diag. intros m. apply same_shape_refl.
  - apply imap_Forall2. intros i m. apply rewrite_message_shape.
Qed.

(** An accessor that sees no difference between such blocks. *)
Definition shape_blind (f : content_block → option string) : Prop :=
  ∀ b b', same_ids b b' → f b' = f b.

Lemma same_ids_omap f l l' : shape_blind f → Forall2 same_ids l l' → omap f l' = omap f l.
Proof. intros Hf. induction 1 as [|b b' l l' Hb _ IH]; [done|]. by rewrite !omap_cons, (Hf _ _ Hb), IH. Qed.

Lemma shape_ids r f messages messages' :
  shape_blind f → Forall2 same_shape messages messages' → ids_in r f messages' = ids_in r f messages.
Proof.
  intros Hf. unfold ids_in. induction 1 as [|m m' l l' [Hr Hc] _ IH]; [done|].
  cbn [map concat]. by rewrite IH, Hr, (same_ids_omap f _ _ Hf Hc).
Qed.

Lemma blind_call : shape_blind call_id. Proof. by intros b b' (? & ? & ? & ?). Qed.
Lemma blind_result : shape_blind result_id. Proof. by intros b b' (? & ? & ? & ?). Qed.
Lemma blind_media : shape_blind media_id. Proof. by intros b b' (? & ? & ? & ?). Qed.
Lemma blind_inline : shape_blind inline_result_id. Proof. by intros b b' (? & ? & ? & ?). Qed.

Lemma shape_well_paired messages messages' : Forall2 same_shape messages messages' →
  ∀ pending, well_paired pending messages' = well_paired pending messages.
Proof.
  induction 1 as [|m m' l l' [Hr Hc] _ IH]; intros pending; [done|]. cbn [well_paired].
  unfold message_call_ids. rewrite Hr, (same_ids_omap _ _ _ blind_result Hc), (same_ids_omap _ _ _ blind_call Hc).
  by destruct (m_role m); rewrite IH.
Qed.

Lemma shape_answered_next messages messages' : Forall2 same_shape messages messages' →
  ∀ waiting, answered_next waiting messages' = answered_next waiting messages.
Proof.
  induction 1 as [|m m' l l' [Hr Hc] _ IH]; intros waiting; [done|]. cbn [answered_next].
  unfold message_call_ids. rewrite Hr, (same_ids_omap _ _ _ blind_result Hc), (same_ids_omap _ _ _ blind_call Hc).
  by destruct (m_role m); rewrite IH.
Qed.

Lemma shape_media messages messages' : Forall2 same_shape messages messages' →
  media_visible (visible_call_ids messages') messages' = media_visible (visible_call_ids messages) messages.
Proof.
  intros Hs. unfold media_visible, visible_call_ids.
  by rewrite (shape_ids User _ _ _ blind_media Hs), (shape_ids Assistant _ _ _ blind_call Hs).
Qed.

Lemma shape_paired_up messages messages' :
  Forall2 same_shape messages messages' → paired_up messages' = paired_up messages.
Proof. intros Hs. unfold paired_up. by rewrite (shape_well_paired _ _ Hs), (shape_media _ _ Hs). Qed.

Lemma shape_acceptable messages messages' :
  Forall2 same_shape messages messages' → acceptable messages' = acceptable messages.
Proof. intros Hs. unfold acceptable. by rewrite (shape_answered_next _ _ Hs), (shape_media _ _ Hs). Qed.

Lemma shape_answered messages messages' :
  Forall2 same_shape messages messages' → answered_inline messages' = answered_inline messages.
Proof.
  induction 1 as [|m m' l l' [Hr Hc] Hl IH]; [done|]. cbn [answered_inline].
  unfold message_call_ids. rewrite IH, Hr, (same_ids_omap _ _ _ blind_call Hc). do 3 f_equal.
  destruct Hl as [|n n' ? ? [Hrn Hcn] ?]; [done|]. cbn [head].
  destruct n as [rn cn], n' as [rn' cn']; cbn in *. subst rn'. destruct rn; [|done].
  cbn [executed_ids]. by rewrite (same_ids_omap _ _ _ blind_inline Hcn).
Qed.

(** ** The window *)

Lemma positions_app {A} (p : A → bool) l l' : ∀ i,
  positions p i (l ++ l') = positions p i l ++ positions p (i + length l) l'.
Proof.
  induction l as [|x l IH]; intros i; cbn; [by rewrite Nat.add_0_r|].
  by rewrite IH, <- app_assoc, Nat.add_succ_r.
Qed.

Lemma positions_length {A} (p : A → bool) l : ∀ i, length (positions p i l) = length (List.filter p l).
Proof. induction l as [|x l IH]; intros i; cbn; [done|]. rewrite length_app, IH. by destruct (p x). Qed.

Lemma positions_lt {A} (p : A → bool) l : ∀ i k, k ∈ positions p i l → (i ≤ k < i + length l)%nat.
Proof.
  induction l as [|x l IH]; intros i k Hk; cbn in *; [by apply elem_of_nil in Hk|].
  apply elem_of_app in Hk as [Hk|Hk]; [|apply IH in Hk; lia].
  destruct (p x); [apply list_elem_of_singleton in Hk as ->; lia|by apply elem_of_nil in Hk].
Qed.

(** A position is before the [k]-th latest one of those that satisfy a test
    exactly when at least [k] of them come after it. *)
Lemma before_latest {A} (p : A → bool) l i k limit :
  (i < length l)%nat → (k ≤ length (positions p 0 l))%nat →
  positions p 0 l !! (length (positions p 0 l) - k)%nat = Some limit →
  (limit ≤ i ↔ length (List.filter p (drop (S i) l)) < k)%nat.
Proof.
  intros Hi Hk Hlim. rewrite <- (positions_length p (drop (S i) l) (S i)).
  rewrite <- (take_drop (S i) l), positions_app, length_app, length_take in Hlim, Hk.
  rewrite Nat.min_l, Nat.add_0_l in Hlim, Hk by lia. apply lookup_app_Some in Hlim as [Hlim|[Hge Hlim]].
  - pose proof (lookup_lt_Some _ _ _ Hlim) as Hlt. apply list_elem_of_lookup_2, positions_lt in Hlim.
    rewrite length_take in Hlim. lia.
  - apply list_elem_of_lookup_2, positions_lt in Hlim. lia.
Qed.

(** ** What a pass changes *)

Section Shortened.
Context (engine : micro_engine) (messages : list message).

Let compactable := collectCompactableToolCallIds messages.
Let names := collectToolNamesByCallId messages.

(** The blocks a pass replaces, and what replaces them. *)
Inductive replaced : content_block → content_block → Prop :=
  | image_cleared is_url data mimeType bytes :
      replaced (ImageBlock is_url data mimeType bytes) (TextBlock "[image cleared]")
  | document_cleared data mimeType bytes pages :
      replaced (PdfBlock data mimeType bytes pages) (TextBlock "[document cleared]")
  | result_shortened id content :
      id ∈ compactable → isProtectedToolCallId id names (mi_protectedToolNames engine) = false →
      mi_trimToBytes engine < estimateToolResultSize content →
      replaced (ToolResultBlock id content)
        (ToolResultBlock id [ItemText (compactToolResultText (flattenToolResultContentText content)
                                         (mi_trimToBytes engine))]).

(** A block of an earlier message after a pass. *)
Definition passed (b b' : content_block) : Prop := replaced b b' ∨ (b' = b ∧ ∀ c, ¬ replaced b c).

Lemma rewrite_block_passed b : passed b (rewrite_block engine compactable names b).1.1.
Proof.
  unfold passed.
  destruct b; cbn; try (left; constructor; fail); try (right; split; [done|]; intros ? Hr; by inversion Hr).
  case_bool_decide as Hid; cbn [negb]; [|right; split; [done|]; intros ? Hr; by inversion Hr].
  destruct (isProtectedToolCallId _ _ _) eqn:Hp; [right; split; [done|]; intros ? Hr; inversion Hr; congruence|].
  destruct (Z.leb_spec (estimateToolResultSize content) (mi_trimToBytes engine)); cbn [fst].
  - right. split; [done|]. intros ? Hr. inversion Hr. lia.
  - left. by constructor.
Qed.

(** The messages that hold a result of a compactable call. *)
Definition with_result (l : list message) : list message := List.filter (has_compactable_result compactable) l.

(** Messages a pass works on: those before the [keepLatest] latest messages
    with such a result, if there are more of these than are kept. *)
Definition older (i : nat) : Prop :=
  (mi_keepLatest engine < length (with_result messages))%nat ∧
  (mi_keepLatest engine ≤ length (with_result (drop (S i) messages)))%nat.

Lemma micro_message i m : messages !! i = Some m → ∃ m',
  mr_messages (micro_apply engine messages) !! i = Some m' ∧ m_role m' = m_role m ∧
  (m_role m = Assistant ∨ ¬ older i → m' = m) ∧
  (m_role m = User → older i → Forall2 passed (m_content m) (m_content m')).
Proof.
  intros Hi. pose proof (lookup_lt_Some _ _ _ Hi) as Hlt. unfold micro_apply. fold compactable names.
  set (idx := collectCompactableToolResultIndices messages compactable).
  assert (length idx = length (with_result messages)) as Hlen by apply positions_length.
  destruct (Nat.leb_spec (length idx) (mi_keepLatest engine)) as [Hfew|Hmany]; cbn [mr_messages].
  { exists m. split_and!; try done. intros _ [Hlate _]. lia. }
  rewrite list_lookup_imap, Hi. cbn. eexists. split; [reflexivity|].
  assert (beyond_window (idx !! (length idx - mi_keepLatest engine)%nat) i = false ↔ older i) as Hwin.
  { unfold older. rewrite <- Hlen. destruct (idx !! _) as [limit|] eqn:Hlim; cbn [beyond_window].
    - pose proof (before_latest _ _ _ _ _ Hlt (Nat.lt_le_incl _ _ Hmany) Hlim) as Hb. fold (with_result (drop (S i) messages)) in Hb.
      rewrite Nat.leb_gt. lia.
    - apply lookup_ge_None in Hlim. split; [|done]. intros _. lia. }
  unfold rewrite_message. destruct (beyond_window _ _) eqn:Hb.
  - split_and!; try done. intros _ Ho%Hwin. done.
  - destruct m as [[] c]; cbn [m_role m_content].
    + split_and!; [done| |].
      * intros [?|Hn]; [done|]. by destruct Hn; apply Hwin.
      * intros _ _. clear. induction c as [|b c IH]; cbn; constructor; [apply rewrite_block_passed|done].
    + by split_and!.
Qed.
End Shortened.

(** C22: A pass changes nothing but old results and media.  The replies, and
    the messages from the [keepLatest] latest ones with a compactable result
    on, stay as they are.  In the earlier user messages exactly the images,
    the documents and the results that are compactable, not protected and
    over the size limit are replaced: the media by a fixed text and a result
    by its shortened text under the same id; every other block stays as it
    is.  So no message is added or lost and what was answered, or acceptable
    to a provider, stays so. *)
Theorem micro_preserves engine messages :
  let r := micro_apply engine messages in
  length (mr_messages r) = length messages ∧
  (∀ i m, messages !! i = Some m → ∃ m', mr_messages r !! i = Some m' ∧ m_role m' = m_role m ∧
     (m_role m = Assistant ∨ ¬ older engine messages i → m' = m) ∧
     (m_role m = User → older engine messages i →
      Forall2 (passed engine messages) (m_content m) (m_content m'))) ∧
  paired_up (mr_messages r) = paired_up messages ∧
  acceptable (mr_messages r) = acceptable messages ∧
  answered_inline (mr_messages r) = answered_inline messages.
Proof.
  cbn zeta. pose proof (micro_shape engine messages) as Hs.
  split; [symmetry; by eapply Forall2_length|]. split; [apply micro_message|].
  split; [by apply shape_paired_up|]. split; [by apply shape_acceptable|by apply shape_answered].
Qed.

(** ** The shortened text *)

Lemma length_prefix n s : (n ≤ String.length s)%nat → String.length (String.substring 0 n s) = n.
Proof.
  revert n. induction s as [|c s IH]; intros [|n] Hn; cbn in *; try done; [lia|].
  rewrite IH; [done|lia].
Qed.

Lemma compact_text_long text trim :
  preview_budget trim < Z.of_nat (String.length (js_trim text)) →
  compactToolResultText text trim =
    MICROCOMPACT_CLEARED +:+ two_newlines +:+ "Preview:" +:+ newline +:+
    str_slice 0 (Z.to_nat (preview_budget trim)) (js_trim text) +:+ ELLIPSIS ∧
  Z.of_nat (String.length (compactToolResultText text trim)) = preview_budget trim + 47.
Proof.
  intros Hl. assert (0 <= preview_budget trim) as Hb by (unfold preview_budget; lia).
  assert (compactToolResultText text trim =
    MICROCOMPACT_CLEARED +:+ two_newlines +:+ "Preview:" +:+ newline +:+
    str_slice 0 (Z.to_nat (preview_budget trim)) (js_trim text) +:+ ELLIPSIS) as Heq.
  { unfold compactToolResultText. rewrite (proj2 (Nat.eqb_neq _ _)) by lia.
    by rewrite (proj2 (Nat.ltb_lt _ _)) by lia. }
  split; [done|]. rewrite Heq, !length_append. unfold str_slice. rewrite Nat.sub_0_r, length_prefix by lia.
  change (String.length MICROCOMPACT_CLEARED) with 35%nat. change (String.length two_newlines) with 2%nat.
  change (String.length "Preview:") with 8%nat. change (String.length newline) with 1%nat.
  change (String.length ELLIPSIS) with 1%nat. lia.
Qed.

Lemma compact_text_bound text trim :
  Z.of_nat (String.length (compactToolResultText text trim)) <= preview_budget trim + 47.
Proof.
  destruct (decide (preview_budget trim < Z.of_nat (String.length (js_trim text)))) as [Hl|Hl].
  - destruct (compact_text_long _ _ Hl). lia.
  - assert (0 <= preview_budget trim) as Hb by (unfold preview_budget; lia).
    unfold compactToolResultText. destruct (_ =? 0)%nat; [change (String.length MICROCOMPACT_CLEARED) with 35%nat; lia|].
    rewrite (proj2 (Nat.ltb_ge _ _)) by lia. rewrite !length_append.
    change (String.length MICROCOMPACT_CLEARED) with 35%nat. change (String.length two_newlines) with 2%nat.
    change (String.length "Preview:") with 8%nat. change (String.length newline) with 1%nat. lia.
Qed.

Lemma compact_text_trimmed text trim :
  preview_budget trim < Z.of_nat (String.length (js_trim text)) →
  js_trim (compactToolResultText text trim) = compactToolResultText text trim.
Proof.
  intros Hl. destruct (compact_text_long _ _ Hl) as [-> _].
  set (body := str_slice _ _ _). unfold js_trim.
  assert (∀ s, trim_start (MICROCOMPACT_CLEARED +:+ s) = MICROCOMPACT_CLEARED +:+ s) as -> by done.
  rewrite <- !append_assoc. by apply trim_end_solid.
Qed.

(** P: The size limit bounds what a rewritten result can still hold, but not
    below itself: with a limit from 256 to 4000 a result whose text is over
    the limit is rewritten to a text that is over the limit again, so the next
    pass rewrites it once more, to a text of the same length. *)
Theorem micro_never_settles text trim (Htrim : 256 <= trim <= 4000)
  (Hlong : trim < Z.of_nat (String.length (js_trim text))) :
  let once := compactToolResultText text trim in
  let twice := compactToolResultText once trim in
  Z.of_nat (String.length once) = trim + 47 ∧
  String.length twice = String.length once ∧
  ∃ rest, twice = MICROCOMPACT_CLEARED +:+ two_newlines +:+ "Preview:" +:+ newline
                  +:+ MICROCOMPACT_CLEARED +:+ rest.
Proof.
  cbn zeta. assert (preview_budget trim = trim) as Hb by (unfold preview_budget; lia).
  rewrite <- Hb in Hlong. pose proof (compact_text_long _ _ Hlong) as [Hform Hone].
  assert (preview_budget trim < Z.of_nat (String.length (js_trim (compactToolResultText text trim)))) as Hlong'.
  { rewrite compact_text_trimmed by done. lia. }
  pose proof (compact_text_long _ _ Hlong') as [Hform' Htwo]. split; [lia|]. split; [lia|].
  rewrite Hform', compact_text_trimmed by done. rewrite Hform.
  generalize (str_slice 0 (Z.to_nat (preview_budget trim)) (js_trim text) +:+ ELLIPSIS) as s. intros s.
  replace (Z.to_nat (preview_budget trim)) with (35 + (Z.to_nat (preview_budget trim) - 35))%nat by lia.
  generalize (Z.to_nat (preview_budget trim) - 35)%nat as k. intros k.
  exists (String.substring 0 k (two_newlines +:+ "Preview:" +:+ newline +:+ s) +:+ ELLIPSIS). reflexivity.
Qed.

Lemma micro_never_settles_witness :
  Z.of_nat (String.length (compactToolResultText (str_repeat 300 "x") 256)) = 303.
Proof.
  apply (micro_never_settles (str_repeat 300 "x") 256); [lia|].
  apply Z.ltb_lt. vm_compute. reflexivity.
Defined.

(** Two reads of 300 characters, the first of them old. *)
Definition two_reads : list message :=
  [Message User [TextBlock "read both"];
   Message Assistant [ToolCallBlock "r1" "read_file" JNull];
   Message User [ToolResultBlock "r1" [ItemText (str_repeat 300 "x")]];
   Message Assistant [ToolCallBlock "r2" "read_file" JNull];
   Message User [ToolResultBlock "r2" [ItemText (str_repeat 300 "y")]]].

Definition trimming_engine : micro_engine := new_MicroCompactionEngine None (Some 256) None.

Lemma micro_preserves_witness :
  mr_messages (micro_apply trimming_engine two_reads) !! 4%nat
  = Some (Message User [ToolResultBlock "r2" [ItemText (str_repeat 300 "y")]]).
Proof.
  destruct (micro_preserves trimming_engine two_reads) as (_ & Hm & _).
  destruct (Hm 4%nat _ eq_refl) as (m' & Hm' & _ & Hsame & _). rewrite Hm'. f_equal. apply Hsame. right.
  intros [_ Hle]. revert Hle. apply Nat.nle_gt, Nat.ltb_lt. vm_compute. reflexivity.
Defined.

(** The second pass over the two reads reports a rewrite again; the total size
    went from 600 to 603 and stays there. *)
Example two_passes :
  let total messages := foldr Z.add 0 (map (λ m, foldr Z.add 0
    (map (λ b, match b with ToolResultBlock _ c => estimateToolResultSize c | _ => 0 end) (m_content m))) messages) in
  let once := micro_apply trimming_engine two_reads in
  let twice := micro_apply trimming_engine (mr_messages once) in
  (mr_rewritten once, mr_rewritten twice) = (1, 1)%nat ∧
  (total two_reads, total (mr_messages once), total (mr_messages twice)) = (600, 603, 603).
Proof. vm_compute. split; reflexivity. Qed.

(** ** Breakpoints *)

Lemma elem_of_positions {A} (p : A → bool) l : ∀ i k,
  k ∈ positions p i l ↔ ∃ x, (i ≤ k)%nat ∧ l !! (k - i)%nat = Some x ∧ p x = true.
Proof.
  induction l as [|x l IH]; intros i k; cbn [positions].
  - rewrite elem_of_nil. split; [done|]. by intros (? & _ & ? & _).
  - rewrite elem_of_app, IH. split.
    + intros [Hk|(y & Hle & Hy & Hp)].
      * destruct (p x) eqn:Hpx; [|by apply elem_of_nil in Hk]. apply list_elem_of_singleton in Hk as ->.
        exists x. rewrite Nat.sub_diag. done.
      * exists y. split; [lia|]. split; [|done]. by replace (k - i)%nat with (S (k - S i)) by lia.
    + intros (y & Hle & Hy & Hp). destruct (k - i)%nat as [|d] eqn:Hd; cbn in Hy.
      * left. injection Hy as ->. rewrite Hp. apply list_elem_of_singleton. lia.
      * right. exists y. split; [lia|]. split; [|done]. by replace (k - S i)%nat with d by lia.
Qed.

#[local] Instance index_comparator : Comparator Nat.compare.
Proof.
  split.
  - apply Nat.compare_refl.
  - intros x y. apply Nat.compare_antisym.
  - intros x y z. rewrite !Nat.compare_gt_iff. lia.
Qed.

(** P: The cache breakpoints are strictly increasing positions of the history,
    each right before a message with a compactable result that is not among
    the [liveThreshold] latest of them. *)
Theorem breakpoints_before_aged enabled liveThreshold messages :
  let r := cached_micro_apply enabled liveThreshold messages in
  StronglySorted lt (cm_cacheBreakpoints r) ∧
  (cm_applied r = true ↔ cm_cacheBreakpoints r ≠ []) ∧
  ∀ k, k ∈ cm_cacheBreakpoints r →
    ∃ m, messages !! S k = Some m ∧
         has_compactable_result (collectCompactableToolCallIds messages) m = true ∧
         ∃ aged live, aged ++ live =
           positions (has_compactable_result (collectCompactableToolCallIds messages)) 0 messages ∧
           length live = liveThreshold ∧ S k ∈ aged.
Proof.
  cbn zeta. unfold cached_micro_apply.
  destruct enabled; cbn [negb]; [|split; [constructor|split; [done|by intros k ?%elem_of_nil]]].
  case_bool_decide; [split; [constructor|split; [done|by intros k ?%elem_of_nil]]|].
  set (idx := positions _ _ _). destruct (_ <=? _)%nat eqn:Hle;
    [split; [constructor|split; [done|by intros k ?%elem_of_nil]]|]. apply Nat.leb_gt in Hle.
  cbn [cm_cacheBreakpoints cm_applied]. split; [|split].
  - unfold sorted_set. set (l := remove_dups _). assert (NoDup l) as Hnd by apply NoDup_remove_dups.
    pose proof (js_sort_sorted Nat.compare l) as Hs.
    assert (NoDup (js_sort Nat.compare l)) as Hnd' by (by rewrite js_sort_perm).
    clear - Hs Hnd'. induction Hs as [|x l' Hl IH Hx]; [constructor|].
    apply NoDup_cons in Hnd' as [Hn Hnd]. constructor; [by apply IH|].
    rewrite Forall_forall in Hx |- *. intros y Hy. specialize (Hx y Hy). rewrite Nat.compare_gt_iff in Hx.
    assert (x ≠ y) by (by intros ->). lia.
  - rewrite bool_decide_eq_true. done.
  - intros k Hk. unfold sorted_set in Hk. rewrite elem_of_js_sort in Hk. 
    apply elem_of_remove_dups, list_elem_of_omap in Hk as (i & Hi & Hik). destruct i as [|i]; [done|].
    injection Hik as ->.
    assert (S k ∈ idx) as Hin by (eapply elem_of_take in Hi as (j & Hj & _); by eapply list_elem_of_lookup_2).
    apply elem_of_positions in Hin as (m & _ & Hm & Hp). rewrite Nat.sub_0_r in Hm.
    exists m. split; [done|]. split; [done|].
    exists (take (length idx - liveThreshold) idx), (drop (length idx - liveThreshold) idx).
    rewrite take_drop, length_drop. split; [done|]. split; [lia|done].
Qed.

(** ** Stripped media *)

(** P: The summarizer reads no image and no document, and the conversation it
    reads has the shape of the one it summarizes. *)
Theorem summarizer_reads_no_media messages :
  Forall2 same_shape messages (stripMultimediaFromMessages messages) ∧
  ∀ m b x, m ∈ stripMultimediaFromMessages messages → m_role m = User → b ∈ m_content m →
    x ∈ collectFromBlock b → x = MAudio.
Proof.
  split.
  - unfold stripMultimediaFromMessages. induction messages as [|[[] c] l IH]; cbn [map]; constructor; try done.
    + split; [done|]. apply map_same_ids. by intros [].
    + split; [done|]. by apply Forall2_diag.
  - intros m b x Hm Hr Hb Hx. unfold stripMultimediaFromMessages in Hm.
    apply list_elem_of_fmap in Hm as ([[] c] & -> & _); [|done]. cbn [m_role m_content] in *.
    apply list_elem_of_fmap in Hb as (b' & -> & _). destruct b'; cbn in Hx; try by apply elem_of_nil in Hx.
    + by apply list_elem_of_singleton in Hx.
    + apply list_elem_of_omap in Hx as (i & Hi & Hx). apply list_elem_of_fmap in Hi as (j & -> & _).
      by destruct j.
Qed.
