(* ===== verification/ContextBudget.v ===== *)
(** * Token budgets and the decisions they drive

    Token estimates and budget snapshots
    (src/src/context/budget/TokenBudgetManager.ts, effectiveContext.ts), the
    counts of a request with their cache
    (src/src/context/budget/TokenAccountingRuntime.ts), the policy that asks
    for a compaction (src/src/context/compaction/AutoCompactionPolicy.ts), the
    answer to an overflow (src/src/context/recovery/ContextOverflowRecovery.ts)
    and the output cap of a retry (src/src/agent/loop/outputTokenRetry.ts).
    Counts are integers, ratios exact fractions; the tokenizer is a parameter. *)

From Stdlib Require Import QArith Lqa.
From S2P Require Import Prelude JsValue RouterTypes RouterMedia MessagePairs MessageProjector.
Open Scope Z_scope.

(** ** Estimates *)

Record token_budget := TokenBudget {
  tb_multimediaTokens : Z;
  tb_warningRatio : Q;
  tb_blockingRatio : Q;
  tb_perMessageOverhead : Z;
}.

Definition IMAGE_MAX_TOKEN_SIZE : Z := 2000.

Definition new_TokenBudgetManager (multimediaTokens : option Z) (warningRatio blockingRatio : option Q)
  (perMessageOverhead : option Z) : token_budget :=
  TokenBudget (default IMAGE_MAX_TOKEN_SIZE multimediaTokens) (default (8 # 10) warningRatio)
    (default (95 # 100) blockingRatio) (default 4 perMessageOverhead).

Definition safeJsonStringify (value : jsval) : string :=
  match value with JUndefined | JNull => "" | _ => default "" (json_compact value) end.

Section Estimates.
Context `{Tokenizer} (tb : token_budget).

Definition estimateForBlock (b : content_block) : Z :=
  match b with
  | TextBlock text | ThinkingBlock text => countTokens text
  | ImageBlock _ _ _ _ | PdfBlock _ _ _ _ | AudioBlock _ _ | MediaReferenceBlock _ _ _ =>
    tb_multimediaTokens tb
  | ToolCallBlock _ name input => countTokens (name +:+ safeJsonStringify input)
  | ToolResultBlock _ content => countTokens (str_join newline (map toolResultContentBlockToText content))
  | ToolResultReferenceBlock _ _ preview => countTokens preview
  end.

Definition estimateForMessage (m : message) : Z :=
  foldl (λ total b, total + estimateForBlock b) (tb_perMessageOverhead tb) (m_content m).

Definition estimateForMessages (messages : list message) : Z :=
  foldl (λ total m, total + estimateForMessage m) 0 messages.

(** [Math.ceil((raw * 4) / 3)]. *)
Definition pad (raw : Z) : Z := - ((- (raw * 4)) / 3).

Definition estimateForMessagesWithPadding (messages : list message) : Z :=
  let raw := estimateForMessages messages in
  if raw =? 0 then 0 else pad raw.
End Estimates.

(** ** Snapshots *)

Definition effectiveInputContextTokens (maxContextTokens : Z) (maxOutputTokens : option Z) : Z :=
  if maxContextTokens <=? 0 then maxContextTokens
  else
    let output := match maxOutputTokens with Some n => if 0 <? n then n else 0 | None => 0 end in
    Z.max 1 (maxContextTokens - output).

Inductive warning_state := StateOk | StateWarning | StateBlocking.

#[export] Instance warning_state_eq_dec : EqDecision warning_state.
Proof. solve_decision. Defined.

(** The fields of [TokenBudgetSnapshot] that decide something. *)
Record budget_snapshot := BudgetSnapshot {
  bs_tokens : Z;
  bs_displayTokens : option Z;
  bs_budgetTokens : Z;
  bs_usageTokens : option Z;
  bs_maxContextTokens : Z;
  bs_maxOutputTokens : Z;
  bs_state : warning_state;
  bs_ratio : Q;
}.

Definition snapshotFromTokens (tb : token_budget) (tokens maxContextTokens : Z)
  (reservedOutputTokens usageTokens displayTokens budget : option Z) : budget_snapshot :=
  let budgetTokens := match budget with Some b => Z.max b tokens | None => tokens end in
  let reserved := Z.max 0 (default 0 reservedOutputTokens) in
  let promptBudget := effectiveInputContextTokens maxContextTokens (Some reserved) in
  let ratio : Q := if 0 <? promptBudget then (inject_Z budgetTokens / inject_Z promptBudget)%Q else 0%Q in
  let state := if Qle_bool (tb_blockingRatio tb) ratio then StateBlocking
               else if Qle_bool (tb_warningRatio tb) ratio then StateWarning
               else StateOk in
  let display := match displayTokens with
                 | Some d => if d =? tokens then None else Some d
                 | None => None
                 end in
  BudgetSnapshot tokens display budgetTokens usageTokens promptBudget reserved state ratio.

Definition tokensFromUsage (u : option usage) : option Z :=
  match u with
  | None => None
  | Some u =>
    match us_inputTokens u with
    | Some input =>
      if 0 <? input then
        Some (input + match us_outputTokens u with Some o => if 0 <? o then o else 0 | None => 0 end)
      else None
    | None => None
    end
  end.

Definition evaluate `{Tokenizer} (tb : token_budget) (messages : list message) (maxContextTokens : Z)
  (usePadding : bool) (reservedOutputTokens : option Z) (lastUsage : option usage) : budget_snapshot :=
  let estimatedTokens := if usePadding then estimateForMessagesWithPadding tb messages
                         else estimateForMessages tb messages in
  let usageTokens := tokensFromUsage lastUsage in
  let tokens := match usageTokens with Some u => Z.max u estimatedTokens | None => estimatedTokens end in
  snapshotFromTokens tb tokens maxContextTokens reservedOutputTokens usageTokens None None.

(** ** The policy *)

Inductive compaction_reason := WarningThreshold | BlockingThreshold.

Inductive compaction_decision :=
  | SkipCompaction (snapshot : budget_snapshot)
  | TriggerCompaction (snapshot : budget_snapshot) (reason : compaction_reason).

Definition evaluateSnapshot (snapshot : budget_snapshot) : compaction_decision :=
  match bs_state snapshot with
  | StateBlocking => TriggerCompaction snapshot BlockingThreshold
  | StateWarning => TriggerCompaction snapshot WarningThreshold
  | StateOk => SkipCompaction snapshot
  end.

(** ** Counting a request *)

Record tool_schema := ToolSchema {
  sc_name : string;
  sc_description : option string;
  sc_inputSchema : jsval;
}.

Record count_request := CountRequest {
  cq_messages : list message;
  cq_systemPrompt : option string;
  cq_tools : option (list tool_schema);
}.

Record token_count := TokenCount {
  tc_tokens : Z;
  tc_provider : bool;
  tc_exact : bool;
  tc_estimatorError : option string;
}.

(** [error instanceof Error ? error.message : String(error)]. *)
Definition error_text (e : js_error) : string :=
  match e with TypeError msg | PlainError msg | CodedError _ msg => msg end.

Section Accounting.
Context `{Tokenizer} (tb : token_budget) (cacheSize : nat).

(** [JSON.stringify(value) ?? empty]: unlike the estimates', it writes [null]. *)
Definition schema_text (value : jsval) : string := default "" (json_compact value).

Definition estimateToolSchemas (tools : list tool_schema) : Z :=
  foldl (λ total t, total + countTokens (sc_name t +:+ default "" (sc_description t)
                                           +:+ schema_text (sc_inputSchema t))) 0 tools.

Definition estimateRequestInput (request : count_request) (usePadding : bool) : Z :=
  let messages := if usePadding then estimateForMessagesWithPadding tb (cq_messages request)
                  else estimateForMessages tb (cq_messages request) in
  let system := match truthy (cq_systemPrompt request) with Some s => countTokens s | None => 0 end in
  messages + system + estimateToolSchemas (default [] (cq_tools request)).

(** The cache is a [Map] in insertion order; the key is the digest of the
    request. *)
Definition getCachedProviderCount (key : string) (cache : jmap token_count)
  : option token_count * jmap token_count :=
  if (cacheSize =? 0)%nat then (None, cache)
  else
    match jm_get key cache with
    | None => (None, cache)
    | Some cached => (Some cached, jm_set key cached (jm_delete key cache))
    end.

(** The while loop that deletes the oldest keys. *)
Definition evict (cache : jmap token_count) : jmap token_count :=
  drop (length cache - cacheSize) cache.

Definition setCachedProviderCount (key : string) (count : token_count) (cache : jmap token_count)
  : jmap token_count :=
  if (cacheSize =? 0)%nat || negb (tc_provider count) then cache
  else evict (jm_set key count cache).

(** [counted] is the provider's answer: an error, no answer (a provider that
    cannot count) or a number. *)
Definition countRequestInput (request : count_request) (key : string) (useProviderCount : bool)
  (counted : result (option Z)) (cache : jmap token_count) : token_count * jmap token_count :=
  let local error := TokenCount (estimateRequestInput request true) false false error in
  if negb useProviderCount then (local None, cache)
  else
    match getCachedProviderCount key cache with
    | (Some cached, cache) => (cached, cache)
    | (None, cache) =>
      match counted with
      | Throw error => (local (Some (error_text error)), cache)
      | Ok None => (local None, cache)
      | Ok (Some tokens) =>
        let count := TokenCount tokens true true None in
        (count, setCachedProviderCount key count cache)
      end
    end.

Definition evaluateRequestBudget (request : count_request) (key : string) (useProviderCount usePadding : bool)
  (counted : result (option Z)) (maxContextTokens : Z) (reservedOutputTokens : option Z)
  (cache : jmap token_count) : budget_snapshot * jmap token_count :=
  let '(count, cache) := countRequestInput request key useProviderCount counted cache in
  (snapshotFromTokens tb (tc_tokens count) maxContextTokens reservedOutputTokens None
     (if tc_exact count then None else Some (estimateRequestInput request false))
     (if usePadding then Some (estimateRequestInput request true) else None), cache).
End Accounting.

(** ** Overflows *)

(** What a provider's error says of its limits. *)
Record overflow_error := OverflowError {
  oe_error : model_error;
  oe_availableOutputTokens : option Z;
  oe_maxOutputTokens : option Z;
  oe_maxContextTokens : option Z;
}.

Inductive recovery_decision :=
  | StripImagesAndRetry (reason : string)
  | CompactAndRetry (maxContextTokens maxOutputTokens : option Z) (reason : string)
  | TruncateHeadAndRetry (keepRatio : Q) (reason : string)
  | AdjustOutputAndRetry (maxOutputTokens : Z) (reason : string) (hard_cap : bool)
  | GiveUp (reason : string).

Definition MIN_SAFE_AVAILABLE_OUTPUT_TOKENS : Z := 4096.

Definition is_context_error (e : model_error) : bool :=
  bool_decide (er_code e = "prompt_too_long") || bool_decide (er_code e = "context_overflow")
  || er_recoverableViaCompact e.

(** A count that is given and positive. *)
Definition positive (o : option Z) : option Z :=
  match o with Some n => if 0 <? n then Some n else None | None => None end.

Record overflow_recovery := OverflowRecovery { or_first : Q; or_second : Q }.

Definition new_ContextOverflowRecovery (first second : option Q) : overflow_recovery :=
  OverflowRecovery (default (1 # 2) first) (default (1 # 4) second).

Definition decide_recovery (r : overflow_recovery) (e : overflow_error) (hasAttemptedCompact : bool)
  : recovery_decision :=
  let err := oe_error e in
  if er_recoverableViaImageStrip err then StripImagesAndRetry "multimodal-processor-error"
  else if bool_decide (er_code err = "image_too_large") then StripImagesAndRetry "image-too-large"
  else
    match positive (oe_availableOutputTokens e) with
    | Some available =>
      if available <? MIN_SAFE_AVAILABLE_OUTPUT_TOKENS then
        if hasAttemptedCompact
        then TruncateHeadAndRetry (or_second r) "provider-available-output-too-small-after-compact"
        else CompactAndRetry (positive (oe_maxContextTokens e)) (Some MIN_SAFE_AVAILABLE_OUTPUT_TOKENS)
               "provider-available-output-too-small"
      else AdjustOutputAndRetry (Z.max 1 available) "provider-output-cap" false
    | None =>
      match positive (oe_maxOutputTokens e) with
      | Some parsedOutput => AdjustOutputAndRetry (Z.max 1 parsedOutput) "provider-output-cap" true
      | None =>
        if negb (is_context_error err) then GiveUp ("non_recoverable_model_error:" +:+ er_code err)
        else if hasAttemptedCompact then TruncateHeadAndRetry (or_second r) "ptl-second-attempt"
        else
          match positive (oe_maxContextTokens e) with
          | Some n => CompactAndRetry (Some n) None "provider-context-cap"
          | None => TruncateHeadAndRetry (or_first r) "ptl-first-attempt"
          end
      end
    end.

(** The fallback of [DefaultContextRuntime.recoverFromModelError]. *)
Definition fallback_recovery (truncateFirstKeepRatio : Q) (e : overflow_error) (hasAttemptedCompact : bool)
  : recovery_decision :=
  let err := oe_error e in
  if er_recoverableViaImageStrip err then StripImagesAndRetry "multimodal-processor-error"
  else if bool_decide (er_code err = "image_too_large") then StripImagesAndRetry "image-too-large"
  else if negb (is_context_error err) then GiveUp ("non_recoverable_model_error:" +:+ er_code err)
  else if hasAttemptedCompact then GiveUp "ptl-exhausted-after-two-attempts"
  else TruncateHeadAndRetry truncateFirstKeepRatio "ptl-first-attempt".

(** ** The output cap of a retry *)

Definition resolveOutputTokenRetryBump (currentMaxOutputTokens modelMaxOutputTokens : option Z) : option Z :=
  match currentMaxOutputTokens with
  | None => None
  | Some current =>
    if current <=? 0 then None
    else
      match modelMaxOutputTokens with
      | Some modelCap =>
        if modelCap <=? 0 then None
        else if modelCap <=? current then None
        else Some (Z.min (current * 2) modelCap)
      | None => Some (current * 2)
      end
  end.

(** ** Estimates *)

Lemma foldl_sum {A} (f : A → Z) l : ∀ z, foldl (λ total x, total + f x) z l = z + foldr Z.add 0 (map f l).
Proof. induction l as [|x l IH]; intros z; cbn; [lia|]. rewrite IH. lia. Qed.

Lemma sum_nonneg {A} (f : A → Z) l : (∀ x, 0 <= f x) → 0 <= foldr Z.add 0 (map f l).
Proof. intros Hf. induction l as [|x l IH]; cbn; [lia|]. pose proof (Hf x). lia. Qed.

Lemma pad_bounds raw : 4 * raw <= 3 * pad raw < 4 * raw + 3.
Proof.
  unfold pad. pose proof (Z.div_mod (- (raw * 4)) 3 ltac:(lia)).
  pose proof (Z.mod_pos_bound (- (raw * 4)) 3 ltac:(lia)). lia.
Qed.

Section EstimateLaws.
Context `{!Tokenizer} `{!TokenizerLaws _} (tb : token_budget).

Lemma estimateForMessages_sum messages :
  estimateForMessages tb messages = foldr Z.add 0 (map (estimateForMessage tb) messages).
Proof. unfold estimateForMessages. rewrite foldl_sum. lia. Qed.

Lemma estimateForMessages_app l1 l2 :
  estimateForMessages tb (l1 ++ l2) = estimateForMessages tb l1 + estimateForMessages tb l2.
Proof.
  rewrite !estimateForMessages_sum, map_app, foldr_app.
  generalize (foldr Z.add 0 (map (estimateForMessage tb) l2)) as z. intros z.
  induction (map (estimateForMessage tb) l1) as [|x l IH]; cbn; [lia|]. rewrite IH. lia.
Qed.

Lemma estimateForBlock_nonneg b : 0 <= tb_multimediaTokens tb → 0 <= estimateForBlock tb b.
Proof. intros Hm. destruct b; cbn; try apply countTokens_nonneg; done. Qed.

Lemma estimateForMessage_nonneg m :
  0 <= tb_multimediaTokens tb → 0 <= tb_perMessageOverhead tb → 0 <= estimateForMessage tb m.
Proof.
  intros Hm Ho. unfold estimateForMessage. rewrite foldl_sum.
  pose proof (sum_nonneg (estimateForBlock tb) (m_content m) (λ b, estimateForBlock_nonneg b Hm)). lia.
Qed.

Lemma estimateForMessages_nonneg messages :
  0 <= tb_multimediaTokens tb → 0 <= tb_perMessageOverhead tb → 0 <= estimateForMessages tb messages.
Proof.
  intros Hm Ho. rewrite estimateForMessages_sum. apply sum_nonneg.
  intros m. by apply estimateForMessage_nonneg.
Qed.
End EstimateLaws.

(** ** Thresholds *)

Lemma effective_positive maxContextTokens o :
  0 < maxContextTokens → 0 < effectiveInputContextTokens maxContextTokens o.
Proof. unfold effectiveInputContextTokens. intros Hm. rewrite (proj2 (Z.leb_gt _ _)) by lia. lia. Qed.

Lemma Qle_bool_ratio (r : Q) (n d : Z) :
  0 < d → Qle_bool r (inject_Z n / inject_Z d) = true ↔ (r * inject_Z d <= inject_Z n)%Q.
Proof.
  intros Hd. rewrite Qle_bool_iff.
  assert (0 < inject_Z d)%Q as Hd' by (rewrite (Zlt_Qlt 0 d) in Hd; exact Hd).
  split; intros Hr.
  - apply Qmult_le_r with (z := inject_Z d) in Hr; [|done].
    unfold Qdiv in Hr. rewrite <- Qmult_assoc, (Qmult_comm (/ inject_Z d)), Qmult_inv_r, Qmult_1_r in Hr; [done|].
    intros Hz. rewrite Hz in Hd'. by apply Qlt_irrefl in Hd'.
  - by apply Qle_shift_div_l.
Qed.

(** The snapshot of [tokens] blocks from here on. *)
Definition blocks_at (tb : token_budget) (promptBudget tokens : Z) : Prop :=
  (tb_blockingRatio tb * inject_Z promptBudget <= inject_Z tokens)%Q.

Definition warns_at (tb : token_budget) (promptBudget tokens : Z) : Prop :=
  (tb_warningRatio tb * inject_Z promptBudget <= inject_Z tokens)%Q.

(** P: A budget of a model with a known window blocks exactly from the
    blocking share of what is left after the reserved output, warns from the
    warning share on, and asks for a compaction in both cases; more tokens
    never unblock it. *)
Theorem budget_thresholds tb tokens maxContextTokens reserved usage display budget
  (Hmax : 0 < maxContextTokens) :
  let s := snapshotFromTokens tb tokens maxContextTokens reserved usage display budget in
  let promptBudget := Z.max 1 (maxContextTokens - Z.max 0 (default 0 reserved)) in
  bs_maxContextTokens s = promptBudget ∧
  (bs_state s = StateBlocking ↔ blocks_at tb promptBudget (bs_budgetTokens s)) ∧
  (bs_state s = StateWarning ↔
     ¬ blocks_at tb promptBudget (bs_budgetTokens s) ∧ warns_at tb promptBudget (bs_budgetTokens s)) ∧
  ((∃ reason, evaluateSnapshot s = TriggerCompaction s reason) ↔ bs_state s ≠ StateOk) ∧
  (∀ more, tokens <= more → bs_state s = StateBlocking →
     bs_state (snapshotFromTokens tb more maxContextTokens reserved usage display budget) = StateBlocking).
Proof.
  cbn zeta.
  assert (effectiveInputContextTokens maxContextTokens (Some (Z.max 0 (default 0 reserved)))
          = Z.max 1 (maxContextTokens - Z.max 0 (default 0 reserved))) as Heff.
  { unfold effectiveInputContextTokens. rewrite (proj2 (Z.leb_gt _ _)) by lia.
    destruct (0 <? Z.max 0 (default 0 reserved)) eqn:Hr; [lia|]. apply Z.ltb_ge in Hr. lia. }
  set (promptBudget := Z.max 1 (maxContextTokens - Z.max 0 (default 0 reserved))) in *.
  assert (0 < promptBudget) as Hpos by lia.
  unfold snapshotFromTokens. rewrite Heff. rewrite (proj2 (Z.ltb_lt 0 promptBudget)) by lia.
  cbn [bs_maxContextTokens bs_state bs_budgetTokens]. unfold blocks_at, warns_at, evaluateSnapshot.
  cbn [bs_state]. rewrite <- !Qle_bool_ratio by done.
  set (q := (inject_Z _ / inject_Z promptBudget)%Q).
  split; [done|]. split; [|split; [|split]].
  - destruct (Qle_bool _ q); [naive_solver|]. destruct (Qle_bool _ q); naive_solver.
  - destruct (Qle_bool (tb_blockingRatio tb) q); [naive_solver|]. destruct (Qle_bool _ q); naive_solver.
  - destruct (Qle_bool (tb_blockingRatio tb) q); [naive_solver|]. destruct (Qle_bool _ q); naive_solver.
  - intros more Hmore. subst q. destruct (Qle_bool (tb_blockingRatio tb) _) eqn:Hb;
      [|destruct (Qle_bool (tb_warningRatio tb) _); intros Hx; discriminate Hx]. intros _.
    apply Qle_bool_ratio in Hb; [|done]. rewrite (proj2 (Qle_bool_ratio _ _ _ Hpos)); [done|].
    eapply Qle_trans; [exact Hb|]. rewrite <- Zle_Qle. destruct budget; lia.
Qed.

Lemma budget_thresholds_witness :
  bs_state (snapshotFromTokens (new_TokenBudgetManager None None None None) 97000 100000 None None None None)
  = StateBlocking.
Proof.
  refine (proj2 (proj1 (proj2 (budget_thresholds (new_TokenBudgetManager None None None None)
    97000 100000 None None None None _))) _); [lia|vm_compute; discriminate].
Defined.

(** ** Counting *)

Section Cache.
Context `{Tokenizer} (tb : token_budget) (cacheSize : nat).

Definition cache_ok (cache : jmap token_count) : Prop :=
  NoDup (jm_keys cache) ∧ (length cache ≤ cacheSize)%nat.

Lemma jm_keys_drop n (cache : jmap token_count) : jm_keys (drop n cache) = drop n (jm_keys cache).
Proof. unfold jm_keys. by rewrite skipn_map. Qed.

Lemma jm_set_length_le k v (cache : jmap token_count) :
  (length (jm_set k v cache) ≤ S (length cache))%nat.
Proof.
  induction cache as [|[k' v'] l IH]; cbn; [lia|]. case_decide; cbn in *; lia.
Qed.

Lemma get_cached_spec key cache : cache_ok cache → cacheSize ≠ 0%nat →
  (getCachedProviderCount cacheSize key cache).1 = jm_get key cache ∧
  cache_ok (getCachedProviderCount cacheSize key cache).2 ∧
  (∀ k, jm_get k (getCachedProviderCount cacheSize key cache).2 = jm_get k cache).
Proof.
  intros [Hnd Hlen] Hsize. unfold getCachedProviderCount.
  rewrite (proj2 (Nat.eqb_neq _ _)) by done. destruct (jm_get key cache) as [c|] eqn:Hc; [|done].
  cbn [fst snd]. split; [done|]. split.
  - assert (jm_get key (jm_delete key cache) = None) as Hn by (rewrite jm_get_delete; by case_decide).
    split.
    + apply jm_keys_set_NoDup. rewrite jm_delete_keys. by apply NoDup_filter.
    + rewrite jm_keys_set_fresh by done. rewrite length_app. cbn.
      assert (is_Some (jm_get key cache)) as His by (by rewrite Hc).
      pose proof (jm_delete_length _ _ Hnd His). lia.
  - intros k. rewrite jm_get_set, jm_get_delete. by case_decide; subst.
Qed.

Lemma set_cached_spec key count cache : cache_ok cache → cacheSize ≠ 0%nat → tc_provider count = true →
  cache_ok (setCachedProviderCount cacheSize key count cache) ∧
  (jm_get key cache = None → last (setCachedProviderCount cacheSize key count cache) = Some (key, count)) ∧
  (∀ k c, k ≠ key → jm_get k (setCachedProviderCount cacheSize key count cache) = Some c → jm_get k cache = Some c).
Proof.
  intros [Hnd Hlen] Hsize Hp. unfold setCachedProviderCount.
  rewrite (proj2 (Nat.eqb_neq _ _)) by done. rewrite Hp. cbn [orb negb]. unfold evict.
  pose proof (jm_keys_set_NoDup key count cache Hnd) as Hnd'.
  set (new := jm_set key count cache) in *.
  assert (NoDup (jm_keys (drop (length new - cacheSize) new))) as Hnd''.
  { rewrite jm_keys_drop. eapply sublist_NoDup; [done|apply sublist_drop]. }
  split; [|split].
  - split; [done|]. rewrite length_drop. lia.
  - intros Hn. subst new. rewrite jm_keys_set_fresh in * by done. rewrite length_app. cbn [length].
    rewrite drop_app_le by lia. by rewrite last_snoc.
  - intros k c Hk Hc. apply jm_get_elem in Hc.
    assert ((k, c) ∈ new) as Hin by (rewrite <- (take_drop (length new - cacheSize) new);
      apply elem_of_app; by right).
    apply (jm_elem_get _ _ _ Hnd') in Hin. subst new. rewrite jm_get_set in Hin. by case_decide.
Qed.
End Cache.

(** P: The cache of provider counts stays within its size and never answers
    with another request's count.  A request the provider counted is answered
    from the cache until it is evicted, a failed count falls back to the padded
    estimate and is not remembered, and only the provider's counts are. *)
Theorem counts_cached `{Tokenizer} tb cacheSize request key counted (cache : jmap token_count)
  (Hsize : cacheSize ≠ 0%nat) (Hok : cache_ok cacheSize cache) :
  let '(count, cache') := countRequestInput tb cacheSize request key true counted cache in
  cache_ok cacheSize cache' ∧
  (∀ k c, k ≠ key → jm_get k cache' = Some c → jm_get k cache = Some c) ∧
  match jm_get key cache with
  | Some cached => count = cached ∧ jm_get key cache' = Some cached
  | None =>
    match counted with
    | Ok (Some tokens) => count = TokenCount tokens true true None ∧ jm_get key cache' = Some count
    | Ok None | Throw _ => cache' = cache ∧ tc_tokens count = estimateRequestInput tb request true
                           ∧ tc_exact count = false
    end
  end.
Proof.
  unfold countRequestInput. cbn [negb].
  pose proof (get_cached_spec cacheSize key cache Hok Hsize) as (Hfst & Hok' & Hget).
  destruct (getCachedProviderCount cacheSize key cache) as [[cached|] cache1] eqn:Hg; cbn [fst snd] in *.
  - rewrite <- Hfst. split; [done|]. split; [intros k c _; by rewrite Hget|]. by rewrite Hget, <- Hfst.
  - rewrite <- Hfst. assert (cache1 = cache) as ->.
    { unfold getCachedProviderCount in Hg. rewrite <- Hfst in Hg. destruct (_ =? _)%nat; by injection Hg. }
    destruct counted as [[tokens|]|e]; [|done..].
    pose proof (set_cached_spec cacheSize key (TokenCount tokens true true None) cache Hok Hsize eq_refl)
      as (Hok2 & Hlast & Hother).
    split; [done|]. split; [done|]. split; [done|].
    apply jm_elem_get; [apply Hok2|]. apply last_Some_elem_of. by apply Hlast.
Qed.

Definition no_tokens : Tokenizer := {| countTokens _ := 0 |}.

Lemma counts_cached_witness :
  cache_ok 1 (@countRequestInput no_tokens (new_TokenBudgetManager None None None None) 1
    (CountRequest [] None None) "a" true (Ok (Some 7)) []).2.
Proof.
  apply (@counts_cached no_tokens (new_TokenBudgetManager None None None None) 1
           (CountRequest [] None None) "a" (Ok (Some 7)) []); [done|]. split; [constructor|cbn; lia].
Defined.

(** ** Overflows *)

(** P: The recovery gives up exactly on errors that are about neither images
    nor an output cap nor the context.  In particular it never gives up on a
    prompt that is too long: after a compaction every further overflow is
    answered by the same truncation, although the class comment promises that
    a third one ends the turn. *)
Theorem overflow_never_gives_up r e attempted :
  ((∃ reason, decide_recovery r e attempted = GiveUp reason) ↔
     er_recoverableViaImageStrip (oe_error e) = false ∧ er_code (oe_error e) ≠ "image_too_large" ∧
     positive (oe_availableOutputTokens e) = None ∧ positive (oe_maxOutputTokens e) = None ∧
     is_context_error (oe_error e) = false) ∧
  (is_context_error (oe_error e) = true → er_recoverableViaImageStrip (oe_error e) = false →
   er_code (oe_error e) ≠ "image_too_large" →
   positive (oe_availableOutputTokens e) = None → positive (oe_maxOutputTokens e) = None →
   decide_recovery r e true = TruncateHeadAndRetry (or_second r) "ptl-second-attempt" ∧
   fallback_recovery (or_first r) e true = GiveUp "ptl-exhausted-after-two-attempts").
Proof.
  unfold decide_recovery, fallback_recovery. split.
  - destruct (er_recoverableViaImageStrip _); [naive_solver|]. case_bool_decide; [naive_solver|].
    destruct (positive (oe_availableOutputTokens e)) as [n|].
    { split; [intros [? Hd]|naive_solver]. destruct (n <? _), attempted; discriminate Hd. }
    destruct (positive (oe_maxOutputTokens e)); [naive_solver|].
    destruct (is_context_error _); cbn [negb]; [|naive_solver].
    split; [intros [? Hd]|naive_solver]. destruct attempted; [discriminate Hd|]; destruct (positive (oe_maxContextTokens e)); discriminate Hd.
  - intros Hc Hi Hcode Ha Hm. rewrite Hi, Ha, Hm, Hc, bool_decide_false by done. done.
Qed.

(** ** Retried output caps *)

(** P: A raised output cap is larger than the one that was reached, at most
    twice as large and within the model's; there is none exactly when the cap
    is the catalog's, the model's is reached or one of them is not positive. *)
Theorem bump_raises current cap :
  match resolveOutputTokenRetryBump current cap with
  | Some next => ∃ c, current = Some c ∧ 0 < c < next ∧ next <= 2 * c ∧
                      (∀ k, cap = Some k → next <= k)
  | None => match current with
            | None => True
            | Some c => c <= 0 ∨ ∃ k, cap = Some k ∧ (k <= 0 ∨ k <= c)
            end
  end.
Proof.
  unfold resolveOutputTokenRetryBump. destruct current as [c|]; [|done].
  destruct (c <=? 0) eqn:Hc; [apply Z.leb_le in Hc; by left|apply Z.leb_gt in Hc].
  destruct cap as [k|].
  - destruct (k <=? 0) eqn:Hk; [apply Z.leb_le in Hk; right; exists k; auto|apply Z.leb_gt in Hk].
    destruct (k <=? c) eqn:Hkc; [apply Z.leb_le in Hkc; right; exists k; auto|apply Z.leb_gt in Hkc].
    exists c. repeat split; try lia. intros ? [= <-]. lia.
  - exists c. repeat split; try lia. done.
Qed.
