(* ===== verification/ContextCompaction.v ===== *)
(** * Summarizing a conversation

    The engine that replaces the early history by a model's summary
    (src/src/context/compaction/CompactionEngine.ts).  The model is a
    parameter: the events it streams for a request and the error it throws
    after them, if any.  The lifecycle hooks and the event emitter, whose
    failures the engine swallows, are left out. *)

From Stdlib Require Import QArith Qround.
From stdpp Require Import gmap.
From S2P Require Import Prelude JsValue Text RouterTypes RouterMedia MessagePairs MessageProjector.
From S2P Require Import ContextSnip ContextMicro ContextBudget.
Open Scope Z_scope.

Inductive compaction_trigger := Manual | Auto | Reactive.

Definition trigger_name (t : compaction_trigger) : string :=
  match t with Manual => "manual" | Auto => "auto" | Reactive => "reactive" end.

Definition COMPACT_SYSTEM_PROMPT_DEFAULT : string :=
  "You are a conversation summarizer for a coding agent. Your summary will replace " +:+
  "the early conversation history, so it MUST preserve all information the agent " +:+
  "needs to continue working without repeating past steps.".

Definition COMPACT_MAX_OUTPUT_TOKENS : Z := 20000.
Definition DEFAULT_KEEP_TAIL_RATIO : Q := 35 # 100.

Definition SUMMARY_MARKDOWN_HEADINGS : list string :=
  ["Objective"; "Current State"; "Completed"; "Remaining"; "Decisions"; "Files And Artifacts";
   "Tool Findings"; "Errors And Recovery"; "Open Questions"].

Definition CORE_SUMMARY_MARKDOWN_HEADINGS : list string :=
  ["Objective"; "Current State"; "Remaining"; "Files And Artifacts"].

(** ** The plan *)

Record compaction_plan := CompactionPlan {
  pl_messagesToSummarize : list message;
  pl_messagesToKeep : list message;
}.

(** The turns whose index is in a set, and the others. *)
Fixpoint split_turns (protectedIndexes : gset nat) (index : nat) (turns : list (list message))
  : list message * list message :=
  match turns with
  | [] => ([], [])
  | turn :: rest =>
    let '(protected, summarized) := split_turns protectedIndexes (S index) rest in
    if bool_decide (index ∈ protectedIndexes) then (turn ++ protected, summarized)
    else (protected, turn ++ summarized)
  end.

Definition planFullCompactionMessages (messages : list message) (keepCount : nat)
  (protectedToolNames : list string) : compaction_plan :=
  let summarizeLimit := (length messages - keepCount)%nat in
  let prefix := take summarizeLimit messages in
  let tail := drop summarizeLimit messages in
  let protectedIndexes := collectProtectedTurnIndexes prefix protectedToolNames in
  let '(protectedMessages, messagesToSummarize) :=
    split_turns protectedIndexes 0 (splitMessagesIntoTurns prefix) in
  CompactionPlan messagesToSummarize (strip_unpaired (protectedMessages ++ tail)).

(** ** The summary *)

Definition buildMarkdownSummaryPrompt (userInstruction : option string) : string :=
  let headings := str_join newline (map (λ h, "## " +:+ h) SUMMARY_MARKDOWN_HEADINGS) in
  let additional :=
    match truthy (js_trim <$> userInstruction) with
    | Some text => newline +:+ newline +:+ "Additional summary instructions:" +:+ newline +:+ text
    | None => ""
    end in
  "Summarize the conversation so far as a concise Markdown handoff for the next coding agent."
  +:+ newline +:+ newline +:+
  "Prefer this section structure, using the headings exactly when they apply:" +:+ newline +:+
  headings +:+ newline +:+ newline +:+
  "If a section has no content, write `None` under that heading. Preserve exact file paths, URLs, " +:+
  "commands, data values, user decisions, failed attempts and recovery steps, and unfinished TODOs. " +:+
  "End the summary with a `## Working Surface` section listing the paths of the most recently " +:+
  "read or written files and the exact step that was in progress when the conversation was cut off."
  +:+ newline +:+ newline +:+
  "Do not replay unrelated chat, and do not expand large raw tool outputs that are easy to re-read or rerun."
  +:+ additional.

(** [new RegExp(`^#{1,6}\\s+heading\\s*$`, "im").test(text)], one position at a
    time: the hashes, the heading after white space, then white space up to
    the end of a line. *)
Fixpoint skip_spaces (s : string) : string :=
  match s with
  | String c s' => if is_js_space c then skip_spaces s' else s
  | EmptyString => s
  end.

Fixpoint skip_hashes (s : string) : nat * string :=
  match s with
  | String c s' =>
    if bool_decide (c = ascii_of_N 35) then let '(n, rest) := skip_hashes s' in (S n, rest) else (O, s)
  | EmptyString => (O, s)
  end.

Definition is_newline (c : ascii) : bool := (code_unit c =? 10)%N || (code_unit c =? 13)%N.

Fixpoint at_line_end (s : string) : bool :=
  match s with
  | EmptyString => true
  | String c s' => is_newline c || (is_js_space c && at_line_end s')
  end.

Fixpoint strip_prefix (p s : string) : option string :=
  match p, s with
  | EmptyString, _ => Some s
  | String a p, String b s => if Ascii.eqb a b then strip_prefix p s else None
  | String _ _, EmptyString => None
  end.

Definition heading_here (heading line : string) : bool :=
  let '(hashes, rest) := skip_hashes line in
  (1 <=? hashes)%nat && (hashes <=? 6)%nat
  && match rest with String c _ => is_js_space c | EmptyString => false end
  && match strip_prefix (to_lower heading) (to_lower (skip_spaces rest)) with
     | Some after => at_line_end after
     | None => false
     end.

Fixpoint hasMarkdownHeading_from (line_start : bool) (heading text : string) : bool :=
  (line_start && heading_here heading text) ||
  match text with
  | EmptyString => false
  | String c text' => hasMarkdownHeading_from (is_newline c) heading text'
  end.

Definition hasMarkdownHeading (text heading : string) : bool := hasMarkdownHeading_from true heading text.

(** A diagnostic: its code and its message. *)
Definition diagnostic : Type := string * string.

Definition validateSummaryMarkdownStructure (summary : message) : list diagnostic :=
  let text := textFromMessage summary in
  match List.filter (λ h, negb (hasMarkdownHeading text h)) CORE_SUMMARY_MARKDOWN_HEADINGS with
  | [] => []
  | missing => [("compact_summary_structure_weak",
      "Compact summary is missing recommended Markdown heading(s): " +:+ str_join ", " missing +:+ ".")]
  end.

Record summary_request := SummaryRequest {
  sq_request : model_request;
  sq_systemPrompt : string;
}.

(** The events of a stream and the error thrown after them. *)
Definition summary_stream : Type := summary_request → list model_event * option js_error.

(** The loop over the events: the text and the last usage. *)
Fixpoint collect_summary (text : string) (u : option usage) (events : list model_event)
  : result (string * option usage) :=
  match events with
  | [] => Ok (text, u)
  | TextDelta delta :: events => collect_summary (text +:+ delta) u events
  | UsageEvent u' :: events => collect_summary text (Some u') events
  | ErrorEvent e :: _ => Throw (PlainError (er_message e))
  | _ :: events => collect_summary text u events
  end.

Record compaction_engine := CompactionEngine {
  ce_provider : string;
  ce_model : string;
  ce_systemPrompt : option string;
  ce_maxOutputTokens : option Z;
  ce_protectedToolNames : list string;
  ce_tokenBudget : token_budget;
}.

Definition summarize (engine : compaction_engine) (stream : summary_stream) (messages : list message)
  (userInstruction : option string) : result (message * option usage) :=
  let trailingPrompt := Message User [TextBlock (buildMarkdownSummaryPrompt userInstruction)] in
  let request := SummaryRequest
    (ModelRequest (ce_provider engine) (ce_model engine)
       (stripMultimediaFromMessages messages ++ [trailingPrompt]) None
       (Some (default COMPACT_MAX_OUTPUT_TOKENS (ce_maxOutputTokens engine))))
    (default COMPACT_SYSTEM_PROMPT_DEFAULT (ce_systemPrompt engine)) in
  let '(events, thrown) := stream request in
  '(text, u) ← collect_summary "" None events;
  match thrown with
  | Some e => Throw e
  | None =>
    let text := if (0 <? String.length (js_trim text))%nat then text else "(empty summary)" in
    Ok (Message Assistant [TextBlock text], u)
  end.

(** ** A run *)

Record compaction_result := CompactionResult {
  co_trigger : compaction_trigger;
  co_preTokens : Z;
  co_postTokens : option Z;
  co_summaryMessage : option message;
  co_boundaryMarker : message;
  co_messagesToKeep : list message;
  co_attachments : list message;
  co_hookResults : list message;
  co_diagnostics : list diagnostic;
  co_error : option string;
}.

Definition createBoundaryMarker (trigger : compaction_trigger) (preTokens : Z) (messagesSummarized : nat)
  (summarySucceeded : bool) : message :=
  Message User [TextBlock ("<compact-boundary trigger=" +:+ dquote +:+ trigger_name trigger +:+ dquote
    +:+ " preTokens=" +:+ dquote +:+ pretty preTokens +:+ dquote
    +:+ " messagesSummarized=" +:+ dquote +:+ pretty messagesSummarized +:+ dquote
    +:+ " status=" +:+ dquote +:+ (if summarySucceeded then "ok" else "summary_failed") +:+ dquote +:+ " />")].

Definition buildPostCompactMessages (r : compaction_result) : list message :=
  ensureTrailingUserMessage
    (co_boundaryMarker r :: option_list (co_summaryMessage r)
     ++ co_messagesToKeep r ++ co_attachments r ++ co_hookResults r).

Record compaction_input := CompactionInput {
  in_trigger : compaction_trigger;
  in_messages : list message;
  in_keepTailRatio : option Q;
  in_userInstruction : option string;
  in_attachments : list message;
  in_hookResults : list message;
}.

Definition keep_count (input : compaction_input) : nat :=
  let tailRatio := clamp (default DEFAULT_KEEP_TAIL_RATIO (in_keepTailRatio input)) 0 1 in
  Z.to_nat (Z.max 1 (Qfloor (inject_Z (Z.of_nat (length (in_messages input))) * tailRatio))).

Definition run `{Tokenizer} (engine : compaction_engine) (stream : summary_stream)
  (input : compaction_input) : compaction_result :=
  let preTokens := estimateForMessages (ce_tokenBudget engine) (in_messages input) in
  let plan := planFullCompactionMessages (in_messages input) (keep_count input)
                (ce_protectedToolNames engine) in
  let '(summaryMessage, summaryError) :=
    match pl_messagesToSummarize plan with
    | [] => (None, None)
    | messagesToSummarize =>
      match summarize engine stream messagesToSummarize (in_userInstruction input) with
      | Ok (m, _) => (Some m, None)
      | Throw e => (None, Some (error_text e))
      end
    end in
  let boundaryMarker := createBoundaryMarker (in_trigger input) preTokens
    (length (pl_messagesToSummarize plan))
    (bool_decide (summaryError = None) && bool_decide (is_Some summaryMessage)) in
  let diagnostics :=
    match truthy summaryError with
    | Some text => [("compact_summary_failed", text)]
    | None => match summaryMessage with
              | Some m => validateSummaryMarkdownStructure m
              | None => []
              end
    end in
  let r := CompactionResult (in_trigger input) preTokens None summaryMessage boundaryMarker
    (pl_messagesToKeep plan) (in_attachments input) (in_hookResults input) diagnostics summaryError in
  match summaryMessage with
  | Some _ =>
    CompactionResult (in_trigger input) preTokens
      (Some (estimateForMessages (ce_tokenBudget engine) (buildPostCompactMessages r)))
      summaryMessage boundaryMarker (pl_messagesToKeep plan) (in_attachments input)
      (in_hookResults input) diagnostics summaryError
  | None => r
  end.

(** ** The plan *)

Lemma split_turns_spec idx turns : ∀ i,
  let '(protected, summarized) := split_turns idx i turns in
  protected ++ summarized ≡ₚ concat turns ∧
  protected `sublist_of` concat turns ∧ summarized `sublist_of` concat turns ∧
  (∀ m, m ∈ summarized → ∃ k turn, turns !! k = Some turn ∧ (i + k)%nat ∉ idx ∧ m ∈ turn) ∧
  (∀ m, m ∈ protected → ∃ k turn, turns !! k = Some turn ∧ (i + k)%nat ∈ idx ∧ m ∈ turn).
Proof.
  induction turns as [|turn rest IH]; intros i; cbn [split_turns concat].
  - repeat split; try constructor; intros m Hm; by apply elem_of_nil in Hm.
  - specialize (IH (S i)). destruct (split_turns idx (S i) rest) as [p s].
    destruct IH as (Hperm & Hp & Hs & Hin & Hprot).
    assert (∀ m, m ∈ s → ∃ k t, (turn :: rest) !! k = Some t ∧ (i + k)%nat ∉ idx ∧ m ∈ t) as Hin'.
    { intros m (k & t & ? & ? & ?)%Hin. exists (S k), t. by rewrite Nat.add_succ_r. }
    assert (∀ m, m ∈ p → ∃ k t, (turn :: rest) !! k = Some t ∧ (i + k)%nat ∈ idx ∧ m ∈ t) as Hprot'.
    { intros m (k & t & ? & ? & ?)%Hprot. exists (S k), t. by rewrite Nat.add_succ_r. }
    case_bool_decide as Hi.
    + split; [by rewrite <- app_assoc, Hperm|]. split; [by apply sublist_app|].
      split; [by apply sublist_inserts_l|]. split; [done|].
      intros m [Hm|Hm]%elem_of_app; [|by apply Hprot']. exists O, turn. by rewrite Nat.add_0_r.
    + split; [|split; [by apply sublist_inserts_l|split; [by apply sublist_app|split; [|done]]]].
      * rewrite <- Hperm, !app_assoc. f_equiv. apply Permutation_app_comm.
      * intros m [Hm|Hm]%elem_of_app; [|by apply Hin']. exists O, turn. by rewrite Nat.add_0_r.
Qed.

(** A turn of a history that holds protected content. *)
Definition protected_turn (history : list message) (names : list string) (turn : list message) : Prop :=
  turn ∈ splitMessagesIntoTurns history ∧
  ∃ m, m ∈ turn ∧ isProtectedContextMessage (collectToolNamesByCallId history) names m = true.

(** The prefix that a plan splits and the rest. *)
Definition plan_limit (messages : list message) (keepCount : nat) : nat := (length messages - keepCount)%nat.

Lemma plan_spec messages keepCount names :
  let plan := planFullCompactionMessages messages keepCount names in
  let prefix := take (plan_limit messages keepCount) messages in
  let tail := drop (plan_limit messages keepCount) messages in
  ∃ protected,
    protected ++ pl_messagesToSummarize plan ≡ₚ prefix ∧
    protected `sublist_of` prefix ∧ pl_messagesToSummarize plan `sublist_of` prefix ∧
    pl_messagesToKeep plan = strip_unpaired (protected ++ tail) ∧
    Forall (λ m, isProtectedContextMessage (collectToolNamesByCallId prefix) names m = false)
      (pl_messagesToSummarize plan) ∧
    Forall (λ m, ∃ turn, protected_turn prefix names turn ∧ m ∈ turn) protected.
Proof.
  cbn zeta. unfold planFullCompactionMessages. fold (plan_limit messages keepCount).
  set (prefix := take _ messages). set (tail := drop _ messages).
  pose proof (split_turns_spec (collectProtectedTurnIndexes prefix names) (splitMessagesIntoTurns prefix) 0) as Hs.
  destruct (split_turns _ _ _) as [protected summarized]. cbn [pl_messagesToSummarize pl_messagesToKeep].
  unfold splitMessagesIntoTurns in Hs. rewrite concat_turns_from in Hs. cbn [app] in Hs.
  destruct Hs as (Hperm & Hp & Hsum & Hin & Hturn). exists protected. split_and!; try done.
  - apply Forall_forall. intros m (k & turn & Hk & Hn & Hm)%Hin.
    destruct (isProtectedContextMessage _ _ m) eqn:Hprot; [|done]. exfalso. apply Hn.
    unfold collectProtectedTurnIndexes. apply elem_of_indexes. exists turn. rewrite Nat.add_0_l, Nat.sub_0_r.
    split; [lia|]. split; [done|]. apply existsb_exists. exists m. by rewrite <- list_elem_of_In.
  - apply Forall_forall. intros m (k & turn & Hk & Hi & Hm)%Hturn. exists turn. split; [|done].
    unfold collectProtectedTurnIndexes in Hi. apply elem_of_indexes in Hi as (t & _ & Ht & Hex).
    rewrite Nat.add_0_l, Nat.sub_0_r in Ht. unfold splitMessagesIntoTurns in Ht. rewrite Hk in Ht. injection Ht as <-.
    split; [by eapply list_elem_of_lookup_2|]. apply existsb_exists in Hex as (m' & Hm' & Hp').
    exists m'. by rewrite list_elem_of_In.
Qed.

(** ** A run *)

Lemma run_fields `{Tokenizer} engine stream input :
  let r := run engine stream input in
  let plan := planFullCompactionMessages (in_messages input) (keep_count input) (ce_protectedToolNames engine) in
  co_messagesToKeep r = pl_messagesToKeep plan ∧ co_attachments r = in_attachments input ∧
  co_hookResults r = in_hookResults input ∧
  (co_summaryMessage r, co_error r) =
    match pl_messagesToSummarize plan with
    | [] => (None, None)
    | l => match summarize engine stream l (in_userInstruction input) with
           | Ok (m, _) => (Some m, None)
           | Throw e => (None, Some (error_text e))
           end
    end ∧
  co_boundaryMarker r = createBoundaryMarker (in_trigger input)
    (estimateForMessages (ce_tokenBudget engine) (in_messages input))
    (length (pl_messagesToSummarize plan))
    (bool_decide (co_error r = None) && bool_decide (is_Some (co_summaryMessage r))).
Proof.
  cbn zeta. unfold run. destruct (pl_messagesToSummarize _) as [|m l]; [done|].
  destruct (summarize _ _ _ _) as [[s u]|e]; done.
Qed.

(** What a stream says, and why it failed if it did: the message of its first
    error event, or the error thrown after the events. *)
Definition streamed_text (events : list model_event) : string :=
  foldr String.append "" (omap (λ e, match e with TextDelta delta => Some delta | _ => None end) events).

Definition stream_failure (answer : list model_event * option js_error) : option string :=
  match omap (λ e, match e with ErrorEvent e => Some (er_message e) | _ => None end) answer.1 with
  | text :: _ => Some text
  | [] => error_text <$> answer.2
  end.

Lemma collect_summary_spec events : ∀ text u,
  match omap (λ e, match e with ErrorEvent e => Some (er_message e) | _ => None end) events with
  | msg :: _ => collect_summary text u events = Throw (PlainError msg)
  | [] => ∃ u', collect_summary text u events = Ok (text +:+ streamed_text events, u')
  end.
Proof.
  assert (∀ s : string, s +:+ "" = s) as Hnil.
  { intros s. induction s as [|c s IH]; [done|]. rewrite append_cons. by rewrite IH. }
  induction events as [|e events IH]; intros text u; [exists u; by rewrite Hnil|].
  unfold streamed_text. rewrite !omap_cons. destruct e; cbn [collect_summary];
    try exact (IH _ _); [|reflexivity].
  specialize (IH (text +:+ text0) u). destruct (omap _ events); [|exact IH].
  destruct IH as [u' ->]. exists u'. do 2 f_equal. cbn [foldr]. fold (streamed_text events). by rewrite append_assoc.
Qed.

(** The summary of a stream that says [text]. *)
Definition summary_of (text : string) : message :=
  Message Assistant [TextBlock (if bool_decide (js_trim text = "") then "(empty summary)" else text)].

Lemma summarize_spec engine stream messages instruction : ∃ q,
  sq_request q = ModelRequest (ce_provider engine) (ce_model engine)
    (stripMultimediaFromMessages messages ++ [Message User [TextBlock (buildMarkdownSummaryPrompt instruction)]])
    None (Some (default COMPACT_MAX_OUTPUT_TOKENS (ce_maxOutputTokens engine))) ∧
  match stream_failure (stream q) with
  | Some text => ∃ e, summarize engine stream messages instruction = Throw e ∧ error_text e = text
  | None => ∃ u, summarize engine stream messages instruction = Ok (summary_of (streamed_text (stream q).1), u)
  end.
Proof.
  eexists (SummaryRequest _ (default COMPACT_SYSTEM_PROMPT_DEFAULT (ce_systemPrompt engine))). split; [reflexivity|]. unfold summarize, stream_failure. cbn zeta.
  destruct (stream _) as [events thrown]. cbn [fst snd].
  pose proof (collect_summary_spec events "" None) as Hc.
  destruct (omap _ events) as [|msg l]; [|by rewrite Hc; eexists].
  destruct Hc as [u' ->]. change ("" +:+ streamed_text events) with (streamed_text events).
  destruct thrown as [e|]; [by eexists|]. exists u'. unfold summary_of. cbn -[streamed_text js_trim].
  case_bool_decide as Hb; [by rewrite Hb|]. by destruct (js_trim (streamed_text events)).
Qed.

Lemma compaction_keeps_paired `{Tokenizer} engine stream input :
  all_paired (co_messagesToKeep (run engine stream input)).
Proof.
  destruct (run_fields engine stream input) as [-> _].
  destruct (plan_spec (in_messages input) (keep_count input) (ce_protectedToolNames engine))
    as (? & _ & _ & _ & -> & _ & _). apply strip_all_paired.
Qed.


(** A model that answers with a summary, and one that breaks off. *)
Definition answering : summary_stream := λ _, ([TextDelta "## Objective"; MessageEnd "stop"], None).
Definition breaking : summary_stream := λ _, ([TextDelta "## Obj"], Some (PlainError "socket closed")).

Definition summarizer : compaction_engine :=
  CompactionEngine "p" "m" None None DEFAULT_PROTECTED_TOOL_RESULT_NAMES
    (new_TokenBudgetManager None None None None).

Definition small_run (stream : summary_stream) : compaction_result :=
  @run no_tokens summarizer stream (CompactionInput Auto conversation None None [] []).

Example compaction_runs :
  length (pl_messagesToSummarize (planFullCompactionMessages conversation 4 [])) = 10%nat ∧
  co_summaryMessage (small_run answering) = Some (Message Assistant [TextBlock "## Objective"]) ∧
  length (buildPostCompactMessages (small_run answering)) = 7%nat ∧
  co_diagnostics (small_run answering) =
    [("compact_summary_structure_weak",
      "Compact summary is missing recommended Markdown heading(s): Current State, Remaining, Files And Artifacts.")] ∧
  co_error (small_run breaking) = Some "socket closed" ∧ co_summaryMessage (small_run breaking) = None.
Proof. vm_compute. repeat split; reflexivity. Qed.
