(* ===== verification/ContextRuntime.v ===== *)
(** * The context runtime

    How the pieces are put together in
    src/src/context/DefaultContextRuntime.ts: the messages of a request, the
    three tiers of an automatic compaction and the answer to a model error.
    Memory retrieval, instruction files and the system prompt are left out. *)

From Stdlib Require Import QArith.
From S2P Require Import Prelude JsValue RouterTypes RouterMedia MessagePairs MessageProjector.
From S2P Require Import ContextSnip ContextMicro ContextBudget ContextCompaction.
Open Scope Z_scope.

Record context_runtime := ContextRuntimeOptions {
  cr_tokenBudget : option token_budget;
  cr_autoCompactionPolicy : bool;
  cr_microCompaction : option micro_engine;
  cr_snipEngine : option snip_engine;
  cr_compactionEngine : option compaction_engine;
  cr_overflowRecovery : option overflow_recovery;
  cr_cachedMicro : option (bool * nat);
  cr_maxContextTokens : Z;
  cr_truncateFirstKeepRatio : Q;
}.

(** ** [prepareForModel] *)

Record model_context := ModelContext {
  mc_messages : list message;
  mc_droppedCount : nat;
  mc_warnings : list projection_warning;
  mc_cacheBreakpoints : option (list nat);
}.

Definition prepareForModel (rt : context_runtime) (messages : list message) (maxMessages : option nat)
  : model_context :=
  let projection := project messages maxMessages in
  ModelContext (pj_messages projection) (pj_droppedCount projection) (pj_warnings projection)
    ((λ '(enabled, liveThreshold),
        cm_cacheBreakpoints (cached_micro_apply enabled liveThreshold (pj_messages projection)))
     <$> cr_cachedMicro rt).

(** ** [tryAutoCompact] *)

Inductive compaction_tier := TierMicro | TierSnip | TierFull.

#[export] Instance compaction_tier_eq_dec : EqDecision compaction_tier.
Proof. solve_decision. Defined.

Inductive auto_compact_result :=
  | Skipped (snapshot : budget_snapshot)
  | Compacted (messages : list message) (tier : compaction_tier) (snapshot : budget_snapshot)
      (result : option compaction_result).

Record auto_compact_input := AutoCompactInput {
  ac_messages : list message;
  ac_maxContextTokens : option Z;
  ac_reservedOutputTokens : option Z;
  ac_lastUsage : option usage;
  ac_budgetEvaluator : option (list message → option usage → budget_snapshot);
}.

Section AutoCompact.
Context `{Tokenizer} (rt : context_runtime) (stream : summary_stream).

(** The snapshot of a runtime without a policy or a budget. *)
Definition empty_snapshot (maxContextTokens : Z) : budget_snapshot :=
  BudgetSnapshot 0 None 0 None maxContextTokens 0 StateOk 0.

Definition evaluateBudget (tb : token_budget) (input : auto_compact_input) (candidate : list message)
  (lastUsage : option usage) : budget_snapshot :=
  match ac_budgetEvaluator input with
  | Some evaluator => evaluator candidate lastUsage
  | None => evaluate tb candidate (default (cr_maxContextTokens rt) (ac_maxContextTokens input))
              true (ac_reservedOutputTokens input) lastUsage
  end.

(** Tier 3, on the messages the earlier tiers left. *)
Definition full_tier (evaluate_budget : list message → option usage → budget_snapshot)
  (initial : budget_snapshot) (messages : list message) : auto_compact_result :=
  match cr_compactionEngine rt with
  | None => Skipped initial
  | Some engine =>
    let result := run engine stream (CompactionInput Auto messages None None [] []) in
    match truthy (co_error result), co_summaryMessage result with
    | None, Some _ =>
      let postCompactMessages := ensureTrailingUserMessage (buildPostCompactMessages result) in
      let snapshot := evaluate_budget postCompactMessages None in
      if bool_decide (bs_state snapshot = StateBlocking) then Skipped snapshot
      else Compacted postCompactMessages TierFull snapshot (Some result)
    | _, _ => Skipped initial
    end
  end.

(** Tier 2. *)
Definition snip_tier (evaluate_budget : list message → option usage → budget_snapshot)
  (initial : budget_snapshot) (messages : list message) : auto_compact_result :=
  match cr_snipEngine rt with
  | None => full_tier evaluate_budget initial messages
  | Some engine =>
    let r := snip engine messages in
    if sr_applied r then
      let snap := evaluate_budget (sr_messages r) None in
      if bool_decide (bs_state snap = StateBlocking) then full_tier evaluate_budget initial (sr_messages r)
      else Compacted (ensureTrailingUserMessage (sr_messages r)) TierSnip snap None
    else full_tier evaluate_budget initial messages
  end.

(** What follows tier 1: a mere warning stops here. *)
Definition after_micro (evaluate_budget : list message → option usage → budget_snapshot)
  (reason : compaction_reason) (initial : budget_snapshot) (messages : list message) : auto_compact_result :=
  match reason with
  | WarningThreshold => Skipped initial
  | BlockingThreshold => snip_tier evaluate_budget initial messages
  end.

Definition tryAutoCompact (input : auto_compact_input) : auto_compact_result :=
  match cr_autoCompactionPolicy rt, cr_tokenBudget rt with
  | true, Some tb =>
    let evaluate_budget := evaluateBudget tb input in
    let messages := ac_messages input in
    match evaluateSnapshot (evaluate_budget messages (ac_lastUsage input)) with
    | SkipCompaction snapshot => Skipped snapshot
    | TriggerCompaction initial reason =>
      match cr_microCompaction rt with
      | None => after_micro evaluate_budget reason initial messages
      | Some engine =>
        let r := micro_apply engine messages in
        if (0 <? mr_rewritten r)%nat then
          let snap := evaluate_budget (mr_messages r) None in
          if bool_decide (bs_state snap = StateBlocking)
          then after_micro evaluate_budget reason initial (mr_messages r)
          else Compacted (ensureTrailingUserMessage (mr_messages r)) TierMicro snap None
        else after_micro evaluate_budget reason initial messages
      end
    end
  | _, _ => Skipped (empty_snapshot (default (cr_maxContextTokens rt) (ac_maxContextTokens input)))
  end.
End AutoCompact.

(** ** [recoverFromModelError] *)

Definition recoverFromModelError (rt : context_runtime) (e : overflow_error) (hasAttemptedCompact : bool)
  : recovery_decision :=
  match cr_overflowRecovery rt with
  | Some r => decide_recovery r e hasAttemptedCompact
  | None => fallback_recovery (cr_truncateFirstKeepRatio rt) e hasAttemptedCompact
  end.

(** ** Compactions *)

Lemma trailing_idemp messages :
  ensureTrailingUserMessage (ensureTrailingUserMessage messages) = ensureTrailingUserMessage messages.
Proof.
  destruct messages as [|m l]; [done|]. pose proof (trailing_user (m :: l)) as Hu.
  set (out := ensureTrailingUserMessage (m :: l)) in *. unfold ensureTrailingUserMessage.
  destruct (last out) as [[[] c]|]; try done. by specialize (Hu ltac:(done)).
Qed.

Lemma foldl_pair_step_trailing messages state :
  foldl pair_step state (messages ++ [Message User [TextBlock CONTINUATION_TEXT]]) = foldl pair_step state messages.
Proof.
  rewrite foldl_app. cbn [foldl]. destruct (foldl pair_step state messages) as [pending|]; [|done].
  cbn. by rewrite filter_notin_nil.
Qed.

Lemma trailing_media messages :
  media_visible (visible_call_ids messages) messages = true →
  media_visible (visible_call_ids (ensureTrailingUserMessage messages)) (ensureTrailingUserMessage messages) = true.
Proof.
  intros Hm. unfold media_visible, visible_call_ids in *. apply forallb_forall. rewrite forallb_forall in Hm.
  intros id Hid%list_elem_of_In. rewrite trailing_ids in Hid by done.
  apply list_elem_of_In, Hm in Hid. apply bool_decide_eq_true_1 in Hid. apply bool_decide_eq_true_2.
  rewrite elem_of_dedup in Hid |- *. by rewrite trailing_ids.
Qed.

Lemma trailing_paired_up messages :
  paired_up messages = true → paired_up (ensureTrailingUserMessage messages) = true.
Proof.
  unfold paired_up. intros [Hw Hm]%andb_prop. rewrite (trailing_media _ Hm), andb_true_r.
  unfold ensureTrailingUserMessage. destruct (last messages) as [[[] c]|]; try done.
  rewrite well_paired_steps in Hw |- *. by rewrite foldl_pair_step_trailing.
Qed.

(** A user message without answers may follow a conversation whose last
    calls were answered. *)
Lemma answered_next_text messages text : ∀ waiting,
  answered_next waiting messages = true →
  answered_next waiting (messages ++ [Message User [TextBlock text]]) = true.
Proof.
  induction messages as [|m l IH]; intros waiting; cbn [app answered_next].
  - intros ->%bool_decide_eq_true_1. by vm_compute.
  - destruct (m_role m); intros [-> Hl]%andb_prop; cbn [andb]; by apply IH.
Qed.

Lemma trailing_acceptable messages :
  acceptable messages = true → acceptable (ensureTrailingUserMessage messages) = true.
Proof.
  unfold acceptable. intros [Hw Hm]%andb_prop. rewrite (trailing_media _ Hm), andb_true_r.
  unfold ensureTrailingUserMessage. destruct (last messages) as [[[] c]|]; try done. by apply answered_next_text.
Qed.

Lemma trailing_user_or_nil messages :
  m_role <$> last (ensureTrailingUserMessage messages) ≠ Some Assistant.
Proof.
  destruct messages as [|m l]; [done|]. by rewrite trailing_user.
Qed.

Section CompactLaws.
Context `{Tokenizer} (rt : context_runtime) (stream : summary_stream).
Context (ev : list message → option usage → budget_snapshot).

(** What every compaction guarantees of the messages it returns. *)
Definition compacted_ok (out : list message) (tier : compaction_tier) (snap : budget_snapshot) : Prop :=
  bs_state snap ≠ StateBlocking ∧
  m_role <$> last out ≠ Some Assistant ∧
  (∃ measured, out = ensureTrailingUserMessage measured ∧ snap = ev measured None) ∧
  (tier ≠ TierMicro → all_paired out ∨ ∃ r, out = ensureTrailingUserMessage (buildPostCompactMessages r)
                                          ∧ all_paired (co_messagesToKeep r)
                                          ∧ is_Some (co_summaryMessage r)).

Lemma full_tier_ok initial messages out tier snap res :
  full_tier rt stream ev initial messages = Compacted out tier snap res →
  tier = TierFull ∧ is_Some res ∧ compacted_ok out tier snap.
Proof.
  unfold full_tier. destruct (cr_compactionEngine rt) as [engine|]; [|done]. cbn zeta.
  set (result := run engine stream _).
  destruct (truthy (co_error result)); [done|]. destruct (co_summaryMessage result) as [m|] eqn:Hm; [|done].
  case_bool_decide as Hs; [done|]. intros [= <- <- <- <-]. split; [done|]. split; [by eexists|].
  split; [done|]. split; [apply trailing_user_or_nil|]. split.
  { exists (ensureTrailingUserMessage (buildPostCompactMessages result)). by rewrite trailing_idemp. }
  intros _. right.
  exists result. split; [done|]. split; [|rewrite Hm; by eexists].
  apply (compaction_keeps_paired engine stream).
Qed.

(** A failed summary replaces nothing. *)
Lemma failed_summary_replaces_nothing initial messages :
  (∀ q, is_Some (stream_failure (stream q))) → full_tier rt stream ev initial messages = Skipped initial.
Proof.
  intros Hf. unfold full_tier. destruct (cr_compactionEngine rt) as [engine|]; [|done]. cbn zeta.
  set (input := CompactionInput Auto messages None None [] []).
  pose proof (run_fields engine stream input) as (_ & _ & _ & Hsum & _). cbn zeta in Hsum.
  destruct (pl_messagesToSummarize _) as [|m l].
  - injection Hsum as Hm He. rewrite Hm. by destruct (truthy _).
  - destruct (summarize_spec engine stream (m :: l) (in_userInstruction input)) as (q & _ & Hq).
    destruct (Hf q) as [text Ht]. rewrite Ht in Hq. destruct Hq as (e & Hq & _). rewrite Hq in Hsum.
    injection Hsum as Hm _. rewrite Hm. by destruct (truthy _).
Qed.

Lemma snip_tier_ok initial messages out tier snap res :
  snip_tier rt stream ev initial messages = Compacted out tier snap res →
  tier ≠ TierMicro ∧ compacted_ok out tier snap.
Proof.
  assert (∀ l, full_tier rt stream ev initial l = Compacted out tier snap res →
    tier ≠ TierMicro ∧ compacted_ok out tier snap) as Hfull.
  { intros l (-> & _ & ?)%full_tier_ok. done. }
  unfold snip_tier. destruct (cr_snipEngine rt) as [engine|]; [|apply Hfull]. cbn zeta.
  destruct (sr_applied (snip engine messages)) eqn:Happ; [|apply Hfull].
  case_bool_decide as Hs; [apply Hfull|]. intros [= <- <- <- <-]. split; [done|].
  split; [done|]. split; [apply trailing_user_or_nil|]. split; [by eexists; split|]. intros _. left.
  destruct (snip_cases engine messages) as [Hno|(_ & _ & -> & _)]; [by rewrite Hno in Happ|].
  apply trailing_all_paired, trailing_all_paired, strip_all_paired.
Qed.
End CompactLaws.

(** The tiers after a mere warning. *)
Lemma after_micro_warning `{Tokenizer} rt stream ev initial messages :
  after_micro rt stream ev WarningThreshold initial messages = Skipped initial.
Proof. done. Qed.

Lemma evaluateSnapshot_trigger s s' reason :
  evaluateSnapshot s = TriggerCompaction s' reason →
  s' = s ∧ (reason = BlockingThreshold ↔ bs_state s = StateBlocking) ∧ bs_state s ≠ StateOk.
Proof. unfold evaluateSnapshot. destruct (bs_state s); intros [= <- <-]; naive_solver. Qed.


(** A runtime whose budget counts a token per message, with room for [max]. *)
Definition per_message_evaluator (max : Z) (messages : list message) (_ : option usage) : budget_snapshot :=
  snapshotFromTokens (new_TokenBudgetManager None None None None) (Z.of_nat (length messages)) max
    None None None None.

Definition small_runtime : context_runtime :=
  ContextRuntimeOptions (Some (new_TokenBudgetManager None None None None)) true
    (Some trimming_engine) (Some small_engine) (Some summarizer) None None 8192 (1 # 2).

Definition long_talk : auto_compact_input :=
  AutoCompactInput conversation None None None (Some (per_message_evaluator 14)).

Definition is_snipped (r : auto_compact_result) : bool :=
  match r with Compacted _ TierSnip _ _ => true | _ => false end.

Lemma long_talk_snipped :
  is_snipped (@tryAutoCompact no_tokens small_runtime answering long_talk) = true.
Proof. vm_compute. reflexivity. Qed.

