(* ===== verification/AgentAssembly.v ===== *)
(** * From a model's stream to a reply

    src/src/model/streaming/assembleModelMessage.ts: the assembler collects
    the deltas of a stream into the blocks of an assistant message, falls back
    to tool calls written as text, and gives every call an id of its own.
    Events carry what the assembler reads; [raw] is left out, and a thinking
    block does not keep its signature.  The parser of tool calls in text
    (parseTextToolCalls.ts) is the class [TextToolParser]; the ids it makes up
    are random. *)

From S2P Require Import Prelude JsValue RouterTypes Text MessagePairs ContextBudget.
Open Scope Z_scope.

(** ** The state *)

(** [PartialTextToolCallInfo]. *)
Record partial_call := PartialCall { pc_format : string; pc_reason : string; pc_preview : string }.

(** [TextToolCallParseResult]. *)
Record text_parse := TextParse {
  tp_toolCalls : list tool_call;
  tp_remainingText : string;
  tp_partialToolCall : option partial_call;
  tp_detectedFormat : option string;
  tp_parseError : bool;
}.

Class TextToolParser := {
  hasTextToolCallSyntax : string → bool;
  extractTextToolCalls : string → text_parse;
}.

(** [CanonicalModelEvent]; [EvOther] is request_started, message_start,
    tool_call_start and tool_call_delta. *)
Inductive stream_event :=
  | EvOther
  | EvText (text : string)
  | EvThinking (text : string) (signature : option string)
  | EvToolCallEnd (call : tool_call) (wasRepaired : bool)
  | EvMessageEnd (finishReason : string)
  | EvUsage (u : usage)
  | EvError (e : overflow_error).

(** What the text fallback finds out. *)
Record fallback_flags := FallbackFlags {
  fb_partial : option partial_call;
  fb_hasCalls : bool;
  fb_format : option string;
  fb_unparsed : bool;
}.

Record assembler := Assembler {
  as_content : list content_block;
  as_textBuffer : string;
  as_thinkingBuffer : string;
  as_signature : option string;
  as_usage : usage;
  as_finishReason : option string;
  as_error : option overflow_error;
  as_toolCalls : list tool_call;
  as_repaired : bool;
  as_fallback : fallback_flags;
}.

Definition no_usage : usage := Usage None None None None None.

Definition no_fallback : fallback_flags := FallbackFlags None false None false.

Definition createModelMessageAssemblerState : assembler :=
  Assembler [] "" "" None no_usage None None [] false no_fallback.

(** ** Events *)

Definition add_counts (first second : option Z) : option Z :=
  match first, second with
  | None, None => None
  | _, _ => Some (default 0 first + default 0 second)
  end.

Definition merge_usages (first second : usage) : usage :=
  Usage (add_counts (us_inputTokens first) (us_inputTokens second))
        (add_counts (us_outputTokens first) (us_outputTokens second))
        (add_counts (us_cacheReadTokens first) (us_cacheReadTokens second))
        (add_counts (us_cacheWriteTokens first) (us_cacheWriteTokens second))
        (add_counts (us_totalTokens first) (us_totalTokens second)).

Definition hasUsage (u : usage) : bool := bool_decide (u ≠ no_usage).

Definition buffered_blocks (st : assembler) : list content_block :=
  (if bool_decide (as_thinkingBuffer st ≠ "") || bool_decide (is_Some (as_signature st))
   then [ThinkingBlock (as_thinkingBuffer st)] else [])
  ++ (if bool_decide (as_textBuffer st ≠ "") then [TextBlock (as_textBuffer st)] else []).

Definition flushTextBuffers (st : assembler) : assembler :=
  Assembler (as_content st ++ buffered_blocks st) "" "" None (as_usage st) (as_finishReason st)
    (as_error st) (as_toolCalls st) (as_repaired st) (as_fallback st).

Definition call_block (c : tool_call) : content_block := ToolCallBlock c.1.1 c.1.2 c.2.

Definition push_call (st : assembler) (call : tool_call) : assembler :=
  Assembler (as_content st ++ [call_block call]) (as_textBuffer st) (as_thinkingBuffer st)
    (as_signature st) (as_usage st) (as_finishReason st) (as_error st) (as_toolCalls st ++ [call])
    (as_repaired st) (as_fallback st).

Definition with_signature (signature : option string) (st : assembler) : option string :=
  match signature with
  | Some s => if bool_decide (s ≠ "") then Some s else as_signature st
  | None => as_signature st
  end.

Definition applyModelEventToAssembler (st : assembler) (event : stream_event) : assembler :=
  match event with
  | EvOther => st
  | EvText text =>
    Assembler (as_content st) (as_textBuffer st +:+ text) (as_thinkingBuffer st) (as_signature st)
      (as_usage st) (as_finishReason st) (as_error st) (as_toolCalls st) (as_repaired st) (as_fallback st)
  | EvThinking text signature =>
    Assembler (as_content st) (as_textBuffer st) (as_thinkingBuffer st +:+ text)
      (with_signature signature st) (as_usage st) (as_finishReason st) (as_error st)
      (as_toolCalls st) (as_repaired st) (as_fallback st)
  | EvToolCallEnd call wasRepaired =>
    let st := push_call (flushTextBuffers st) call in
    Assembler (as_content st) (as_textBuffer st) (as_thinkingBuffer st) (as_signature st) (as_usage st)
      (as_finishReason st) (as_error st) (as_toolCalls st) (as_repaired st || wasRepaired) (as_fallback st)
  | EvMessageEnd reason =>
    let st := flushTextBuffers st in
    Assembler (as_content st) (as_textBuffer st) (as_thinkingBuffer st) (as_signature st) (as_usage st)
      (Some reason) (as_error st) (as_toolCalls st) (as_repaired st) (as_fallback st)
  | EvUsage u =>
    Assembler (as_content st) (as_textBuffer st) (as_thinkingBuffer st) (as_signature st)
      (merge_usages (as_usage st) u) (as_finishReason st) (as_error st) (as_toolCalls st)
      (as_repaired st) (as_fallback st)
  | EvError e =>
    let st := flushTextBuffers st in
    Assembler (as_content st) (as_textBuffer st) (as_thinkingBuffer st) (as_signature st) (as_usage st)
      (Some "error") (Some e) (as_toolCalls st) (as_repaired st) (as_fallback st)
  end.

(** ** Ids *)

(** The loop over suffixes; [fuel] bounds its rounds. *)
Fixpoint free_suffix (fuel : nat) (base : string) (suffix : N) (used : list string) : string :=
  let candidate := base +:+ "_" +:+ pretty suffix in
  match fuel with
  | O => candidate
  | S fuel => if bool_decide (candidate ∈ used) then free_suffix fuel base (suffix + 1) used else candidate
  end.

Definition nextToolCallId (rawId : string) (index : nat) (used : list string) : string :=
  let base := if bool_decide (js_trim rawId ≠ "") then js_trim rawId
              else "call_" +:+ pretty (N.of_nat index) in
  if bool_decide (base ∈ used) then free_suffix (length used) base 2 used else base.

Fixpoint normalize_calls (index : nat) (used : list string) (calls : list tool_call) : list tool_call :=
  match calls with
  | [] => []
  | call :: calls =>
    let id := nextToolCallId (tc_id call) index used in
    (id, call.1.2, call.2) :: normalize_calls (S index) (used ++ [id]) calls
  end.

Fixpoint rename_calls (calls : list tool_call) (content : list content_block) : list content_block :=
  match content with
  | [] => []
  | ToolCallBlock id name input :: content =>
    match calls with
    | [] => ToolCallBlock id name input :: rename_calls [] content
    | call :: calls => ToolCallBlock (tc_id call) name input :: rename_calls calls content
    end
  | b :: content => b :: rename_calls calls content
  end.

Definition normalizeToolCallIds (st : assembler) : assembler :=
  if bool_decide (as_toolCalls st = []) then st else
  let normalized := normalize_calls 0 [] (as_toolCalls st) in
  Assembler (rename_calls normalized (as_content st)) (as_textBuffer st) (as_thinkingBuffer st)
    (as_signature st) (as_usage st) (as_finishReason st) (as_error st) normalized (as_repaired st)
    (as_fallback st).

(** ** The reply *)

Section Assemble.
Context `{TextToolParser}.

Definition call_like (b : content_block) : bool :=
  match b with TextBlock text => hasTextToolCallSyntax text | _ => false end.

(** [findIndex], split around the block it finds. *)
Fixpoint first_call_like (content : list content_block) : option (list content_block * string * list content_block) :=
  match content with
  | [] => None
  | TextBlock text :: rest =>
    if hasTextToolCallSyntax text then Some ([], text, rest)
    else (λ r, (TextBlock text :: r.1.1, r.1.2, r.2)) <$> first_call_like rest
  | b :: rest => (λ r, (b :: r.1.1, r.1.2, r.2)) <$> first_call_like rest
  end.

Definition text_fallback (st : assembler) : assembler :=
  if bool_decide (as_toolCalls st = []) then
    match first_call_like (as_content st) with
    | None => st
    | Some (before, text, after) =>
      let parsed := extractTextToolCalls text in
      let flags := as_fallback st in
      let partial := match tp_partialToolCall parsed with Some p => Some p | None => fb_partial flags end in
      let unparsed := fb_unparsed flags || tp_parseError parsed in
      match tp_toolCalls parsed with
      | [] =>
        Assembler (as_content st) (as_textBuffer st) (as_thinkingBuffer st) (as_signature st) (as_usage st)
          (as_finishReason st) (as_error st) (as_toolCalls st) (as_repaired st)
          (FallbackFlags partial (fb_hasCalls flags) (tp_detectedFormat parsed) unparsed)
      | calls =>
        let kept := if bool_decide (tp_remainingText parsed ≠ "") then [TextBlock (tp_remainingText parsed)]
                    else [] in
        Assembler (before ++ kept ++ after ++ map call_block calls) (as_textBuffer st) (as_thinkingBuffer st)
          (as_signature st) (as_usage st) (as_finishReason st) (as_error st) calls (as_repaired st)
          (FallbackFlags partial true (tp_detectedFormat parsed) unparsed)
      end
    end
  else st.

(** The state [assembleAssistantMessage] leaves behind: the loop assembles
    twice, once for telemetry. *)
Definition assemble_state (st : assembler) : assembler :=
  normalizeToolCallIds (text_fallback (flushTextBuffers st)).
End Assemble.

Record assembled := Assembled {
  ad_message : message;
  ad_finishReason : string;
  ad_usage : option usage;
  ad_toolCalls : list tool_call;
  ad_error : option overflow_error;
  ad_repaired : bool;
  ad_fallback : fallback_flags;
}.

Definition finish_reason (st : assembler) : string :=
  match as_finishReason st, as_error st with
  | Some reason, _ => reason
  | None, Some _ => "error"
  | None, None => "unknown"
  end.

(** What [assembleAssistantMessage] reads off the state it has prepared. *)
Definition read_reply (st : assembler) : assembled :=
  Assembled (Message Assistant (as_content st)) (finish_reason st)
    (if hasUsage (as_usage st) then Some (as_usage st) else None) (as_toolCalls st) (as_error st)
    (as_repaired st) (as_fallback st).

Definition assembleAssistantMessage `{TextToolParser} (st : assembler) : assembled :=
  read_reply (assemble_state st).

(** ** Ids are fresh and well formed *)

Definition candidate_id (base : string) (suffix : N) : string := base +:+ "_" +:+ pretty suffix.

Lemma candidate_id_inj base n m : candidate_id base n = candidate_id base m → n = m.
Proof. unfold candidate_id. intros H%append_cancel_l%append_cancel_l. by apply (inj pretty) in H. Qed.

Lemma free_suffix_candidate fuel base used : ∀ suffix,
  ∃ k, (k ≤ fuel)%nat ∧ free_suffix fuel base suffix used = candidate_id base (suffix + N.of_nat k).
Proof.
  induction fuel as [|fuel IH]; intros suffix; cbn [free_suffix].
  - exists 0%nat. split; [done|]. by rewrite N.add_0_r.
  - case_bool_decide.
    + destruct (IH (suffix + 1)%N) as (k & Hk & ->). exists (S k). split; [lia|]. f_equal. lia.
    + exists 0%nat. split; [lia|]. by rewrite N.add_0_r.
Qed.

Lemma free_suffix_taken fuel base used : ∀ suffix,
  free_suffix fuel base suffix used ∈ used →
  ∀ k, (k ≤ fuel)%nat → candidate_id base (suffix + N.of_nat k) ∈ used.
Proof.
  induction fuel as [|fuel IH]; intros suffix; cbn [free_suffix].
  - intros Hin k Hk. replace (suffix + N.of_nat k)%N with suffix by lia. done.
  - fold (candidate_id base suffix). case_bool_decide as Hc; [|done].
    intros Hin [|k] Hk; [by rewrite N.add_0_r|].
    replace (suffix + N.of_nat (S k))%N with (suffix + 1 + N.of_nat k)%N by lia. apply IH; [done|lia].
Qed.

(** The loop over suffixes ends within as many rounds as there are ids. *)
Lemma free_suffix_fresh base suffix used : free_suffix (length used) base suffix used ∉ used.
Proof.
  intros Hin. pose proof (free_suffix_taken _ _ _ _ Hin) as Hall.
  set (l := map (λ k, candidate_id base (suffix + N.of_nat k)) (seq 0 (S (length used)))).
  assert (l ⊆+ used) as Hsub%submseteq_length.
  { apply NoDup_submseteq.
    - apply NoDup_fmap_2_strong; [|apply NoDup_seq].
      intros i j _ _ He%candidate_id_inj. lia.
    - intros x (k & -> & Hk)%list_elem_of_fmap. apply elem_of_seq in Hk. apply Hall. lia. }
  subst l. rewrite length_map, length_seq in Hsub. lia.
Qed.

(** An id that trimming leaves alone. *)
Definition solid_id (id : string) : Prop := js_trim id = id ∧ id ≠ "".

Lemma solid_head id : solid_id id → ∃ c s, id = String c s ∧ is_js_space c = false.
Proof.
  intros [Ht Hne]. unfold js_trim in Ht. destruct (trim_start id) as [|c t] eqn:E; [by subst|].
  apply js_space_trim_start in E. rewrite trim_end_cons in Ht by done. by exists c, (trim_end t).
Qed.

Definition not_space (c : ascii) : bool := negb (is_js_space c).

Lemma trim_end_tail s : ∀ t, t ≠ "" → str_forallb not_space t = true → trim_end (s +:+ t) = s +:+ t.
Proof.
  induction s as [|c s IH]; intros t Hne Ht.
  - change ("" +:+ t) with t. clear Hne. induction t as [|c t IH]; [done|].
    cbn [str_forallb] in Ht. apply andb_prop in Ht as [Hc%negb_true_iff Ht].
    rewrite trim_end_cons by done. by rewrite IH.
  - rewrite append_cons, trim_end_String, IH by done. destruct (s +:+ t) eqn:E; [|done].
    destruct s; [by subst|done].
Qed.

Lemma digit_not_space c : is_digit c = true → not_space c = true.
Proof.
  unfold is_digit, not_space, is_js_space, in_range. rewrite andb_true_iff, !N.leb_le, negb_true_iff.
  intros [? ?]. rewrite !orb_false_iff, andb_false_iff, !N.leb_gt, !N.eqb_neq. lia.
Qed.

Lemma pretty_not_space (n : N) : str_forallb not_space (pretty n) = true.
Proof.
  apply (str_forallb_weaken is_digit); [apply digit_not_space|].
  destruct n as [|p]; [done|]. by apply (pretty_N_go_digits (Npos p) "").
Qed.

Lemma solid_append s t :
  solid_id s → t ≠ "" → str_forallb not_space t = true → solid_id (s +:+ t).
Proof.
  intros (c & s' & -> & Hc)%solid_head Ht Hs. rewrite append_cons. split; [|done].
  unfold js_trim. cbn [trim_start]. rewrite Hc, <- append_cons. by apply trim_end_tail.
Qed.

Lemma next_id_solid rawId index used : solid_id (nextToolCallId rawId index used).
Proof.
  unfold nextToolCallId. set (base := if bool_decide (js_trim _ ≠ "") then _ else _).
  assert (solid_id base) as Hb.
  { subst base. case_bool_decide as Hc; [by split; [apply js_trim_idemp|]|].
    change "call_" with ("call" +:+ "_"). rewrite append_assoc.
    apply solid_append; [done|done|]. rewrite str_forallb_append. by rewrite pretty_not_space. }
  case_bool_decide; [|done].
  destruct (free_suffix_candidate (length used) base used 2) as (k & _ & ->).
  apply solid_append; [done|done|]. rewrite str_forallb_append. by rewrite pretty_not_space.
Qed.

Lemma next_id_fresh rawId index used : nextToolCallId rawId index used ∉ used.
Proof.
  unfold nextToolCallId. set (base := if bool_decide (js_trim _ ≠ "") then _ else _).
  case_bool_decide; [apply free_suffix_fresh|done].
Qed.

Lemma next_id_id id index used : solid_id id → id ∉ used → nextToolCallId id index used = id.
Proof.
  intros [Ht Hne] Hn. unfold nextToolCallId. rewrite Ht.
  rewrite (bool_decide_eq_true_2 (id ≠ "")) by done. by rewrite bool_decide_eq_false_2.
Qed.

(** ** What the ids of a reply are *)

Definition call_fields (c : tool_call) : string * jsval := (c.1.2, c.2).

Lemma normalize_calls_spec calls : ∀ index used,
  let out := normalize_calls index used calls in
  map call_fields out = map call_fields calls ∧ NoDup (map tc_id out) ∧
  (∀ id, id ∈ map tc_id out → solid_id id ∧ id ∉ used).
Proof.
  induction calls as [|call calls IH]; intros index used; cbn zeta; cbn [normalize_calls map].
  - split; [done|]. split; [constructor|]. by intros ? ?%elem_of_nil.
  - set (id := nextToolCallId _ _ _). destruct (IH (S index) (used ++ [id])) as (Hf & Hnd & Hs). cbn zeta in *.
    split; [by rewrite Hf|]. split.
    + constructor; [|done]. intros Hin. apply Hs in Hin as [_ Hn]. apply Hn. set_solver.
    + intros id' [->|Hin]%elem_of_cons.
      * split; [apply next_id_solid|apply next_id_fresh].
      * apply Hs in Hin as [? Hn]. set_solver.
Qed.

Lemma normalize_calls_id calls : ∀ index used,
  NoDup (map tc_id calls) → (∀ id, id ∈ map tc_id calls → solid_id id ∧ id ∉ used) →
  normalize_calls index used calls = calls.
Proof.
  induction calls as [|[[id name] input] calls IH]; intros index used Hnd Hs; [done|]. cbn in *.
  apply NoDup_cons in Hnd as [Hn Hnd]. destruct (Hs id) as [??]; [set_solver|].
  rewrite next_id_id by done. f_equal. apply IH; [done|].
  intros id' Hin. destruct (Hs id') as [??]; set_solver.
Qed.

(** The call in a block. *)
Definition block_call (b : content_block) : option tool_call :=
  match b with ToolCallBlock id name input => Some (id, name, input) | _ => None end.

(** The calls of the content are those recorded. *)
Definition calls_recorded (st : assembler) : Prop := omap block_call (as_content st) = as_toolCalls st.

Lemma omap_call_blocks calls : omap block_call (map call_block calls) = calls.
Proof. induction calls as [|[[id name] input] calls IH]; [done|]. cbn [map]. by rewrite omap_cons, IH. Qed.

Lemma buffered_no_calls st : omap block_call (buffered_blocks st) = [].
Proof. unfold buffered_blocks. by repeat case_bool_decide. Qed.

Lemma flush_calls st : calls_recorded st → calls_recorded (flushTextBuffers st).
Proof. unfold calls_recorded. cbn. intros H. by rewrite omap_app, buffered_no_calls, app_nil_r. Qed.

Lemma apply_calls st event : calls_recorded st → calls_recorded (applyModelEventToAssembler st event).
Proof.
  intros Hst. pose proof (flush_calls st Hst) as Hf. unfold calls_recorded in *.
  destruct event as [| | |[[id name] input] wasRepaired| | |]; cbn in *; try done.
  by rewrite omap_app, Hf.
Qed.

Lemma foldl_calls events : ∀ st,
  calls_recorded st → calls_recorded (foldl applyModelEventToAssembler st events).
Proof. induction events as [|e events IH]; intros st Hst; [done|]. cbn. by apply IH, apply_calls. Qed.

Lemma rename_calls_spec calls : ∀ content,
  map call_fields calls = map call_fields (omap block_call content) →
  omap block_call (rename_calls calls content) = calls.
Proof.
  intros content. revert calls. induction content as [|b content IH]; intros calls Heq.
  - by destruct calls.
  - destruct b; cbn [rename_calls]; rewrite omap_cons in Heq; cbn [block_call] in Heq;
      try (rewrite omap_cons; cbn [block_call]; by apply IH).
    destruct calls as [|[[id' name'] input'] calls]; [done|]. cbn in Heq.
    injection Heq as [= -> -> Heq]. rewrite omap_cons. cbn. by rewrite IH.
Qed.

Lemma rename_calls_id content : rename_calls (omap block_call content) content = content.
Proof.
  induction content as [|b content IH]; [done|].
  destruct b; rewrite omap_cons; cbn [block_call rename_calls]; by rewrite IH.
Qed.

Lemma calls_unseen_nodup content : ∀ seen,
  NoDup (map tc_id (omap block_call content)) →
  (∀ id, id ∈ map tc_id (omap block_call content) → id ∉ seen) →
  calls_unseen seen content = omap block_call content ∧ duplicates_from seen content = 0.
Proof.
  induction content as [|b content IH]; intros seen; [done|].
  destruct b as [| | | | |id name input| | |]; rewrite omap_cons; cbn [block_call calls_unseen duplicates_from];
    try apply IH. cbn [map].
  intros [Hn Hnd]%NoDup_cons Hs. rewrite bool_decide_eq_false_2 by (apply (Hs id); set_solver).
  destruct (IH (set_add id seen)) as [-> ->]; [done| |done].
  intros id' Hin. rewrite elem_of_set_add. intros [->|Hin']; [by apply Hn|].
  by apply (Hs id'); [set_solver|].
Qed.

(** The text of a list of blocks and of a stream. *)
Definition block_text (b : content_block) : string :=
  match b with TextBlock text => text | _ => "" end.

Definition text_of (content : list content_block) : string :=
  foldr (λ b text, block_text b +:+ text) "" content.

Definition stream_text (events : list stream_event) : string :=
  foldr (λ e text, match e with EvText t => t | _ => "" end +:+ text) "" events.

Definition stream_calls (events : list stream_event) : list tool_call :=
  omap (λ e, match e with EvToolCallEnd call _ => Some call | _ => None end) events.

Lemma append_empty s : s +:+ "" = s.
Proof. induction s as [|c s IH]; [done|]. by rewrite append_cons, IH. Qed.

Lemma text_of_app l1 l2 : text_of (l1 ++ l2) = text_of l1 +:+ text_of l2.
Proof. induction l1 as [|b l1 IH]; [done|]. cbn [app text_of foldr]. fold (text_of (l1 ++ l2)). by rewrite IH, append_assoc. Qed.

Lemma text_of_buffered st : text_of (buffered_blocks st) = as_textBuffer st.
Proof.
  unfold buffered_blocks. rewrite text_of_app.
  assert (∀ b : bool, text_of (if b then [ThinkingBlock (as_thinkingBuffer st)] else []) = "") as -> by by intros [].
  change ("" +:+ ?t) with t. case_bool_decide as Ht; [cbn; apply append_empty|].
  by rewrite Ht.
Qed.

(** The text of a state, the buffered part included. *)
Definition all_text (st : assembler) : string := text_of (as_content st) +:+ as_textBuffer st.

Lemma flush_text st : text_of (as_content (flushTextBuffers st)) = all_text st.
Proof. cbn. by rewrite text_of_app, text_of_buffered. Qed.

Lemma foldl_text events : ∀ st,
  all_text (foldl applyModelEventToAssembler st events) = all_text st +:+ stream_text events ∧
  as_toolCalls (foldl applyModelEventToAssembler st events) = as_toolCalls st ++ stream_calls events.
Proof.
  induction events as [|e events IH]; intros st; cbn [foldl stream_text foldr].
  { by rewrite append_empty, app_nil_r. }
  fold (stream_text events).
  destruct (IH (applyModelEventToAssembler st e)) as [-> ->]. unfold stream_calls. rewrite omap_cons.
  pose proof (flush_text st) as Hf.
  split.
  - rewrite <- append_assoc. f_equal. rewrite <- Hf.
    destruct e; unfold all_text; cbn [applyModelEventToAssembler as_content as_textBuffer push_call flushTextBuffers] in *;
      rewrite ?text_of_app; cbn [text_of foldr block_text call_block]; rewrite ?text_of_buffered, ?append_empty; try done.
    by rewrite append_assoc.
  - destruct e; cbn; try done. by rewrite <- app_assoc.
Qed.

Lemma foldl_fallback events : ∀ st,
  as_fallback (foldl applyModelEventToAssembler st events) = as_fallback st.
Proof. induction events as [|e events IH]; intros st; [done|]. cbn. rewrite IH. by destruct e. Qed.

Section Reply.
Context `{TextToolParser}.

Lemma first_call_like_split content before text after :
  first_call_like content = Some (before, text, after) →
  content = before ++ TextBlock text :: after ∧ hasTextToolCallSyntax text = true.
Proof.
  revert before. induction content as [|b content IH]; intros before Hs; [done|].
  assert (∀ r, (b :: r.1.1, r.1.2, r.2) = (before, text, after) → first_call_like content = Some r →
    b :: content = before ++ TextBlock text :: after ∧ hasTextToolCallSyntax text = true) as Hrec.
  { intros [[before' ?] ?] [= <- -> ->] Hr. destruct (IH _ Hr) as [-> ?]. done. }
  destruct b; cbn [first_call_like] in Hs;
    try (destruct (first_call_like content) as [r|]; cbn in Hs; [injection Hs as Hs|done]; apply (Hrec r); [by destruct r; simplify_eq/=|done]).
  destruct (hasTextToolCallSyntax text0) eqn:Hc.
  - injection Hs as [= <- <- <-]. done.
  - destruct (first_call_like content) as [r|]; cbn in Hs; [injection Hs as Hs|done].
    apply (Hrec r); [by destruct r; simplify_eq/=|done].
Qed.

Lemma first_call_like_calls content before text after :
  first_call_like content = Some (before, text, after) →
  omap block_call content = [] → omap block_call before = [] ∧ omap block_call after = [].
Proof.
  intros [-> _]%first_call_like_split. rewrite omap_app, omap_cons. cbn [block_call].
  by intros ?%app_eq_nil.
Qed.

Lemma fallback_calls st : calls_recorded st → calls_recorded (text_fallback st).
Proof.
  unfold text_fallback. intros Hst. case_bool_decide as Hc; [|done].
  destruct (first_call_like _) as [[[before text] after]|] eqn:Hf; [|done].
  destruct (tp_toolCalls _) as [|call calls]; [done|]. unfold calls_recorded in *. cbn [as_content as_toolCalls].
  rewrite Hc in Hst. destruct (first_call_like_calls _ _ _ _ Hf Hst) as [Hb Ha].
  rewrite !omap_app, Hb, Ha, omap_call_blocks. by case_bool_decide.
Qed.

Lemma normalize_spec st :
  calls_recorded st →
  calls_recorded (normalizeToolCallIds st) ∧
  NoDup (map tc_id (as_toolCalls (normalizeToolCallIds st))) ∧
  Forall solid_id (map tc_id (as_toolCalls (normalizeToolCallIds st))) ∧
  map call_fields (as_toolCalls (normalizeToolCallIds st)) = map call_fields (as_toolCalls st) ∧
  text_of (as_content (normalizeToolCallIds st)) = text_of (as_content st).
Proof.
  intros Hst. unfold normalizeToolCallIds. case_bool_decide as Hc.
  { rewrite Hc. repeat split; try done; constructor. }
  destruct (normalize_calls_spec (as_toolCalls st) 0 []) as (Hf & Hnd & Hs). cbn [as_content as_toolCalls] in *.
  split_and!; [|done| |done|].
  - apply rename_calls_spec. by rewrite Hst.
  - apply Forall_forall. intros id Hid. by apply Hs.
  - generalize (normalize_calls 0 [] (as_toolCalls st)). induction (as_content st) as [|b content IH]; [done|].
    intros calls. destruct b; cbn [rename_calls]; cbn; rewrite ?IH; try done.
    destruct calls; cbn; by rewrite IH.
Qed.

(** A state that assembling leaves alone. *)
Lemma normalize_idemp st :
  calls_recorded st → normalizeToolCallIds (normalizeToolCallIds st) = normalizeToolCallIds st.
Proof.
  intros Hst. destruct (normalize_spec st Hst) as (Hr & Hnd & Hs & _). revert Hr Hnd Hs.
  generalize (normalizeToolCallIds st). intros s Hr Hnd Hs. unfold normalizeToolCallIds.
  case_bool_decide as Hc; [done|]. rewrite normalize_calls_id.
  - unfold calls_recorded in Hr. rewrite <- Hr at 1. rewrite rename_calls_id. by destruct s.
  - done.
  - intros id Hid. split; [by eapply Forall_forall in Hs|set_solver].
Qed.

Lemma fallback_idemp st : text_fallback (text_fallback st) = text_fallback st.
Proof.
  unfold text_fallback at 2 3. case_bool_decide as Hc; [|unfold text_fallback; by rewrite bool_decide_eq_false_2].
  destruct (first_call_like (as_content st)) as [[[before text] after]|] eqn:Hf.
  2:{ unfold text_fallback. by rewrite bool_decide_eq_true_2, Hf. }
  destruct (tp_toolCalls (extractTextToolCalls text)) as [|call calls] eqn:Hp.
  2:{ unfold text_fallback. by rewrite bool_decide_eq_false_2. }
  unfold text_fallback. cbn [as_toolCalls as_content]. rewrite bool_decide_eq_true_2, Hf, Hp by done.
  cbn. do 2 f_equal.
  - by destruct (tp_partialToolCall _).
  - by destruct (fb_unparsed _), (tp_parseError _).
Qed.

Lemma flush_flushed st :
  as_textBuffer st = "" → as_thinkingBuffer st = "" → as_signature st = None → flushTextBuffers st = st.
Proof.
  intros Ht Hk Hs. unfold flushTextBuffers, buffered_blocks. rewrite Ht, Hk, Hs. cbn. rewrite app_nil_r.
  destruct st; cbn in *. by subst.
Qed.

Lemma normalize_skips st :
  (as_toolCalls (normalizeToolCallIds st) = [] → normalizeToolCallIds st = st) ∧
  (as_toolCalls st = [] → normalizeToolCallIds st = st).
Proof.
  unfold normalizeToolCallIds. case_bool_decide as Hc; [done|]. split; [|done]. cbn. intros Hn.
  by destruct (as_toolCalls st).
Qed.

Lemma assemble_state_idemp st : calls_recorded st → assemble_state (assemble_state st) = assemble_state st.
Proof.
  intros Hst. set (t := text_fallback (flushTextBuffers st)).
  change (assemble_state st) with (normalizeToolCallIds t).
  assert (calls_recorded t) as Ht by by apply fallback_calls, flush_calls.
  assert (as_textBuffer t = "" ∧ as_thinkingBuffer t = "" ∧ as_signature t = None) as (Hb1 & Hb2 & Hb3).
  { subst t. unfold text_fallback. case_bool_decide; [|done].
    destruct (first_call_like _) as [[[??]?]|]; [|done]. by destruct (tp_toolCalls _). }
  unfold assemble_state. rewrite flush_flushed.
  2,3,4: unfold normalizeToolCallIds; by case_bool_decide.
  destruct (decide (as_toolCalls t = [])) as [Hn|Hn].
  - rewrite (proj2 (normalize_skips t) Hn). subst t. rewrite fallback_idemp.
    apply (proj2 (normalize_skips _) Hn).
  - assert (text_fallback (normalizeToolCallIds t) = normalizeToolCallIds t) as ->; [|by apply normalize_idemp].
    unfold text_fallback. rewrite bool_decide_eq_false_2; [done|].
    intros Hz. pose proof (proj1 (normalize_skips t) Hz) as He. rewrite He in Hz. done.
Qed.

(** P: Whatever a stream delivers, the calls of the reply that is assembled
    from it have ids of their own, trimmed and not empty; the reply is the
    text and the calls of the stream, in order and unless the calls were
    written as text with nothing changed but ids.  So the loop collects every
    call, none is ever dropped as a duplicate, and assembling once more, as
    the loop does, gives the same reply. *)
Theorem reply_assembled events :
  let st := foldl applyModelEventToAssembler createModelMessageAssemblerState events in
  let reply := assembleAssistantMessage st in
  let calls := ad_toolCalls reply in
  NoDup (map tc_id calls) ∧ Forall solid_id (map tc_id calls) ∧
  collectToolCalls (ad_message reply) = calls ∧ countDuplicateToolCalls (ad_message reply) = 0 ∧
  (fb_hasCalls (ad_fallback reply) = false →
     text_of (m_content (ad_message reply)) = stream_text events ∧
     map call_fields calls = map call_fields (stream_calls events)) ∧
  (fb_hasCalls (ad_fallback reply) = true →
     stream_calls events = [] ∧
     ∃ text, hasTextToolCallSyntax text = true ∧
       map call_fields calls = map call_fields (tp_toolCalls (extractTextToolCalls text))) ∧
  assembleAssistantMessage (assemble_state st) = reply.
Proof.
  cbn zeta. set (st := foldl _ _ events).
  assert (calls_recorded st) as Hst by by apply foldl_calls.
  destruct (foldl_text events createModelMessageAssemblerState) as [Ht Hc]. fold st in Ht, Hc.
  cbn [as_toolCalls createModelMessageAssemblerState app] in Hc. change (all_text st = stream_text events) in Ht.
  assert (as_fallback st = no_fallback) as Hfb.
  { apply foldl_fallback. }
  set (t := text_fallback (flushTextBuffers st)).
  assert (calls_recorded t) as Hrt by by apply fallback_calls, flush_calls.
  destruct (normalize_spec t Hrt) as (Hr & Hnd & Hsol & Hf & Htext).
  unfold assembleAssistantMessage, read_reply. cbn [ad_toolCalls ad_message ad_fallback m_content].
  rewrite assemble_state_idemp by done. change (assemble_state st) with (normalizeToolCallIds t).
  destruct (calls_unseen_nodup (as_content (normalizeToolCallIds t)) []) as [Hcol Hdup].
  { by rewrite Hr. }
  { intros id _. set_solver. }
  assert (as_fallback (normalizeToolCallIds t) = as_fallback t) as ->.
  { unfold normalizeToolCallIds. by case_bool_decide. }
  split_and!; try done.
  - by rewrite <- Hr.
  - intros Hcalls. rewrite Htext, Hf. subst t. revert Hcalls. unfold text_fallback.
    case_bool_decide as Hn.
    + destruct (first_call_like _) as [[[before text] after]|].
      * destruct (tp_toolCalls _); [|done]. intros _. by rewrite <- Ht, <- flush_text, <- Hc.
      * intros _. by rewrite <- Ht, <- flush_text, <- Hc.
    + intros _. by rewrite <- Ht, <- flush_text, <- Hc.
  - rewrite Hf. subst t. unfold text_fallback. case_bool_decide as Hn.
    + destruct (first_call_like _) as [[[before text] after]|] eqn:Hl; [|cbn; by rewrite Hfb].
      destruct (tp_toolCalls _) as [|call calls] eqn:Hp; [cbn; by rewrite Hfb|]. intros _. cbn in Hn. split; [congruence|].
      exists text. apply first_call_like_split in Hl as [_ ?]. by rewrite Hp.
    + cbn. by rewrite Hfb.
Qed.
End Reply.
