(* ===== verification/AgentRepair.v ===== *)
(** * Recovery from tools that fail

    What the loop does with the results of a batch of calls: how they become
    messages (src/src/tool/protocol/result.ts,
    src/src/agent/loop/projectToolResults.ts), the fingerprints of failures
    (src/src/agent/loop/recovery/toolFailures.ts), what it reads from their
    metadata (src/src/agent/loop/assembly.ts) and the repair of large files
    that were written incompletely (src/src/agent/loop/LargeFileRepair.ts).
    The advice of a failed call (src/src/tool/execution/errorRecovery.ts) is
    the class [ErrorAdvice]; times of results are left out. *)

From S2P Require Import Prelude Host JsValue PermissionRules RouterTypes RouterMedia Text MessagePairs.
Open Scope Z_scope.

(** ** Results *)

(** [RigoriumToolResultContent]. *)
Inductive tool_content :=
  | TcText (text : string)
  | TcJson (value : jsval)
  | TcImage (mimeType data : string) (bytes : option Z)
  | TcPdf (mimeType data : string) (bytes : Z) (pages : option Z)
  | TcFile (path : string) (mimeType description : option string).

Inductive tool_outcome :=
  | ToolSuccess (data : jsval)
  | ToolError (code text : string) (details : jsval).

(** [RigoriumToolResult]; [metadata] is empty when it is absent. *)
Record tool_result := ToolResult {
  tr_toolCallId : string;
  tr_toolName : string;
  tr_outcome : tool_outcome;
  tr_content : list tool_content;
  tr_supplemental : list (list tool_content);
  tr_metadata : jmap jsval;
}.

Definition is_success (r : tool_result) : bool :=
  match tr_outcome r with ToolSuccess _ => true | ToolError _ _ _ => false end.

Definition is_error (r : tool_result) : bool := negb (is_success r).

Definition error_code (r : tool_result) : option string :=
  match tr_outcome r with ToolError code _ _ => Some code | ToolSuccess _ => None end.

Definition EMPTY_TOOL_OUTPUT : string := "Tool completed with no output.".

Definition truthy_pages (pages : option Z) : string :=
  match pages with Some n => if n =? 0 then "" else ", " +:+ pretty n +:+ " pages" | None => "" end.

Definition contentToText (c : tool_content) : string :=
  match c with
  | TcText text => text
  | TcJson value => default "" (json_compact value)
  | TcImage mimeType data _ =>
    "[Image: " +:+ mimeType +:+ ", " +:+ pretty (Z.of_nat (String.length data)) +:+ " base64 characters]"
  | TcPdf mimeType data _ pages =>
    "[PDF: " +:+ mimeType +:+ ", " +:+ pretty (Z.of_nat (String.length data)) +:+ " base64 characters"
      +:+ truthy_pages pages +:+ "]"
  | TcFile path mimeType description =>
    "[File: " +:+ path
      +:+ match truthy mimeType with Some t => ", " +:+ t | None => "" end
      +:+ match truthy description with Some t => ", " +:+ t | None => "" end +:+ "]"
  end.

Definition toCanonicalToolResultContentBlock (c : tool_content) : result_item :=
  match c with
  | TcImage mimeType data bytes => ItemImage false data mimeType bytes
  | TcPdf mimeType data bytes pages => ItemPdf data mimeType bytes pages
  | _ => ItemText (contentToText c)
  end.

Definition toCanonicalToolResultBlock (r : tool_result) : content_block :=
  let blocks := map toCanonicalToolResultContentBlock (tr_content r) in
  ToolResultBlock (tr_toolCallId r) (if bool_decide (blocks = []) then [ItemText EMPTY_TOOL_OUTPUT] else blocks).

(** ** Projection to messages *)

Definition content_json (c : tool_content) : jsval :=
  match c with
  | TcText text => JObj [("type", JStr "text"); ("text", JStr text)]
  | TcJson value => JObj [("type", JStr "json"); ("value", value)]
  | TcImage mimeType data _ => JObj [("type", JStr "image"); ("mimeType", JStr mimeType); ("data", JStr data)]
  | TcPdf mimeType data _ _ => JObj [("type", JStr "pdf"); ("mimeType", JStr mimeType); ("data", JStr data)]
  | TcFile path mimeType description =>
    JObj ([("type", JStr "file"); ("path", JStr path)]
          ++ match mimeType with Some t => [("mimeType", JStr t)] | None => [] end
          ++ match description with Some t => [("description", JStr t)] | None => [] end)
  end.

Definition toCanonicalSupplementalBlock (c : tool_content) : content_block :=
  match c with
  | TcImage mimeType data bytes => ImageBlock false data mimeType bytes
  | TcPdf mimeType data bytes pages => PdfBlock data mimeType bytes pages
  | TcText text => TextBlock text
  | TcJson _ | TcFile _ _ _ => TextBlock (default "" (json_compact (content_json c)))
  end.

Definition supplemental_messages (r : tool_result) : list message :=
  map (λ content, Message User (map toCanonicalSupplementalBlock content)) (tr_supplemental r).

Definition projectToolResults (results : list tool_result) : list message :=
  Message User (map toCanonicalToolResultBlock results) :: concat (map supplemental_messages results).

(** [bindSupplementalMessagesToToolCalls]: each result takes as many of the
    messages as it brought. *)
Fixpoint bindSupplementalMessagesToToolCalls {M} (results : list tool_result) (messages : list M)
  : list (string * M) :=
  match results with
  | [] => []
  | r :: results =>
    let count := length (tr_supplemental r) in
    map (pair (tr_toolCallId r)) (take count messages)
      ++ bindSupplementalMessagesToToolCalls results (drop count messages)
  end.

(** ** Failures *)

Record permission_denial := PermissionDenial {
  pd_toolName : string;
  pd_toolCallId : string;
  pd_errorCode : string;
}.

Definition denial_codes : list string := ["permission_denied"; "permission_required"; "permission_cancelled"].

Definition denial_of (r : tool_result) : option permission_denial :=
  match error_code r with
  | Some code =>
    if bool_decide (code ∈ denial_codes)
    then Some (PermissionDenial (tr_toolName r) (tr_toolCallId r) code) else None
  | None => None
  end.

Definition collectPermissionDenials (results : list tool_result) : list permission_denial := omap denial_of results.

Definition invalid_input (r : tool_result) : bool := bool_decide (error_code r = Some "invalid_tool_input").

Definition error_message (r : tool_result) : string :=
  match tr_outcome r with ToolError _ text _ => text | ToolSuccess _ => "" end.

Definition buildInvalidFingerprint (results : list tool_result) : string :=
  str_join newline (js_sort String.compare
    (map (λ r, tr_toolName r +:+ "::" +:+ error_message r) (List.filter invalid_input results))).

Definition readRecoveryMetadata (r : tool_result) : option jsval :=
  match jm_get "recovery" (tr_metadata r) with
  | Some v => if isRecord v then Some v else None
  | None => None
  end.

(** A failure class is a string when there is one. *)
Definition failure_class (recovery : option jsval) : string :=
  match recovery ≫= λ v, as_string (jget v "failureClass") with Some c => c | None => "unknown" end.

Definition toolFailureKey (r : tool_result) : option string :=
  (λ code, tr_toolName r +:+ "::" +:+ code +:+ "::" +:+ failure_class (readRecoveryMetadata r)) <$> error_code r.

Definition buildToolFailureKeys (results : list tool_result) : list string :=
  js_sort String.compare (omap toolFailureKey results).

Fixpoint repeated_from (seen repeated values : list string) : list string :=
  match values with
  | [] => repeated
  | value :: values =>
    if bool_decide (value ∈ seen) then repeated_from seen (set_add value repeated) values
    else repeated_from (set_add value seen) repeated values
  end.

Definition findRepeatedValues (values : list string) : list string := repeated_from [] [] values.

Definition detectRepeatedToolFailure (results : list tool_result) (lastFingerprint : option string)
  : option string * list string :=
  let keys := buildToolFailureKeys results in
  let repeated := findRepeatedValues keys in
  if bool_decide (keys = []) then (None, repeated) else
  let fingerprint := str_join newline keys in
  (Some fingerprint,
   if bool_decide (lastFingerprint = Some fingerprint) then foldl (λ s k, set_add k s) repeated keys else repeated).

Definition DEFAULT_AVOID_RETRY : string :=
  "The same tool, error code, and recovery class repeated. Retrying unchanged is likely to fail again.".

Definition repeated_text (avoidRetryReason : string) : string :=
  newline +:+ newline +:+ "Repeated failure: " +:+ avoidRetryReason +:+ newline +:+
  "Change at least one of the tool, parameters, path, scope, permission path, or explain the blocker in text.".

Definition appendTextToFirstContent (content : list tool_content) (suffix : string) : list tool_content :=
  match content with
  | [] => [TcText (trim_start suffix)]
  | TcText text :: rest => TcText (text +:+ suffix) :: rest
  | first :: rest => TcText (trim_start suffix) :: first :: rest
  end.

Definition annotate_result (repeatedKeys : list string) (r : tool_result) : tool_result :=
  match toolFailureKey r with
  | None => r
  | Some key =>
    if bool_decide (key ∈ repeatedKeys) then
      let recovery := readRecoveryMetadata r in
      let reason := default DEFAULT_AVOID_RETRY (recovery ≫= λ v, as_string (jget v "avoidRetryReason")) in
      let fields := match recovery with Some (JObj fields) => fields | _ => [] end in
      let advice := JObj (jm_set "repeatedFailure" (JBool true) (jm_set "avoidRetryReason" (JStr reason) fields)) in
      ToolResult (tr_toolCallId r) (tr_toolName r) (tr_outcome r)
        (appendTextToFirstContent (tr_content r) (repeated_text reason)) (tr_supplemental r)
        (jm_set "recovery" advice (tr_metadata r))
    else r
  end.

Definition annotateRepeatedToolFailures (results : list tool_result) (repeatedKeys : list string)
  : list tool_result :=
  if bool_decide (repeatedKeys = []) then results else map (annotate_result repeatedKeys) results.

(** ** What the loop reads from results *)

(** [findToolLifecycleBlock], its reason. *)
Definition lifecycle_block (r : tool_result) : option string :=
  match jm_get "lifecycle" (tr_metadata r) with
  | Some lifecycle =>
    if isRecord lifecycle && isRecord (jget lifecycle "blocked")
    then as_string (jget (jget lifecycle "blocked") "reason") else None
  | None => None
  end.

Definition findToolLifecycleBlock (results : list tool_result) : option string :=
  head (omap lifecycle_block results).

Definition isPermissionMode (v : jsval) : option permission_mode :=
  if is_str "default" v then Some ModeDefault
  else if is_str "plan" v then Some ModePlan
  else if is_str "bypassPermissions" v then Some ModeBypass
  else None.

Definition readRequestedMode (r : tool_result) : option permission_mode :=
  match tr_outcome r with
  | ToolSuccess data => isPermissionMode (jget data "requestedMode")
  | ToolError _ _ _ => None
  end.

(** ** Large files *)

(** [LargeFileRepairDecision]. *)
Inductive strip_kind := StripAssistant | StripErrorPair.

#[export] Instance strip_kind_eq_dec : EqDecision strip_kind.
Proof. solve_decision. Defined.

Inductive repair_decision :=
  | RepairContinue (prompt purpose : string) (strip : option strip_kind)
  | RepairStop (reason : string).

Definition MAX_PRE_DRAFT_REPAIR_ATTEMPTS : nat := 5.
Definition MAX_POST_DRAFT_REPAIR_ATTEMPTS : nat := 5.
Definition MAX_TRUNCATION_RECOVERIES : nat := 10.
Definition LARGE_FILE_OUTPUT_RETRY_TOKENS : Z := 16384.
Definition FILE_WRITE_TOOLS : list string := ["write_file"; "edit_file"].
Definition FILE_READ_TOOLS : list string := ["read_file"; "grep"; "glob"].
Definition INTERNAL_RECOVERY_HINT : string :=
  "INTERNAL RECOVERY HINT - not a user request. Continue the original task.".

Record large_file_repair := LargeFileRepair {
  lf_preDraftAttempts : nat;
  lf_postDraftAttempts : nat;
  lf_truncationRecoveries : nat;
  lf_wroteFile : bool;
  lf_pending : bool;
  lf_recentFilePaths : list string;
}.

Definition new_LargeFileRepair : large_file_repair := LargeFileRepair 0 0 0 false false [].

(** [lines.filter(Boolean).join("\n")]. *)
Definition prompt_lines (lines : list string) : string :=
  str_join newline (List.filter (λ l, bool_decide (l ≠ "")) lines).

Definition show (n : nat) : string := pretty (N.of_nat n).

Definition preDraftPrompt (attempt : nat) : string :=
  let lastAttempt := (MAX_PRE_DRAFT_REPAIR_ATTEMPTS <=? attempt)%nat in
  let maxLines := if (attempt <=? 2)%nat then 80%nat else if (attempt <=? 4)%nat then 40%nat else 20%nat in
  prompt_lines
    [ INTERNAL_RECOVERY_HINT;
      "The previous file write/edit attempt appears incomplete or invalid, likely because the model output was truncated. Recovery attempt "
        +:+ show attempt +:+ "/" +:+ show MAX_PRE_DRAFT_REPAIR_ATTEMPTS +:+ ".";
      "Use one small direct file tool call. Keep write_file content under " +:+ show maxLines +:+ " lines.";
      "Recovery guidance:";
      "1. Continue the original task; do not treat this hint as a new user request.";
      "2. Provide the required tool parameters such as file_path and content.";
      "3. Create a minimal structurally valid skeleton first:";
      "   - HTML: doctype, head, minimal style, body with one section, closing tags.";
      "   - Code: imports, one function/class stub, exports if needed.";
      "   - Prose/report: title, first paragraph, and a clear continuation marker.";
      "4. After a file exists, extend it incrementally with focused edit_file calls.";
      "5. Do not attempt to generate the complete artifact in one oversized call.";
      "Prefer write_file for the initial skeleton. Avoid shell heredocs or echo for this recovery step.";
      if lastAttempt then "Final recovery attempt: write the smallest viable skeleton, even if it only establishes the file structure." else "" ].

Definition postDraftPrompt (filePaths : list string) (attempt : nat) : string :=
  let fileText :=
    if bool_decide (filePaths ≠ []) then
      "Recent file path context for orientation only: " +:+ str_join ", " filePaths +:+ "."
    else "A workspace draft already exists." in
  let lastAttempt := (MAX_POST_DRAFT_REPAIR_ATTEMPTS <=? attempt)%nat in
  prompt_lines
    [ INTERNAL_RECOVERY_HINT; fileText;
      "Post-draft recovery attempt " +:+ show attempt +:+ "/" +:+ show MAX_POST_DRAFT_REPAIR_ATTEMPTS
        +:+ ": continue the original task from the current workspace state.";
      "Recovery guidance:";
      "1. If current content matters, inspect the file first with read_file.";
      "2. Add or replace one small section at a time with edit_file; keep new content under 60 lines.";
      "3. Do not rewrite the whole file or regenerate from scratch.";
      "4. If you just wrote a script or generator, run it and verify the produced output before asking for clarification.";
      "5. Ask the user only for a real blocker that cannot be resolved from the workspace or the original task.";
      "Use a focused edit_file replacement or insertion point such as a continuation marker when available.";
      if lastAttempt then "Final recovery attempt: make one focused edit, run/verify if applicable, or explain the concrete blocker." else "" ].

(** [/(?:...)/iu.test(message)]. *)
Definition large_file_phrases : list string :=
  ["output token"; "truncated"; "too large"; "large file"; "large artifact"; "max_output";
   "missing required parameter `content`"; "required parameter `content` is missing"].

Definition looksLikeLargeFileError (text : string) : bool :=
  existsb (λ phrase, str_includes phrase (to_lower text)) large_file_phrases.

(** The codes of [readIssues]. *)
Definition issue_codes (r : tool_result) : list string :=
  match tr_outcome r with
  | ToolSuccess _ => []
  | ToolError _ _ details =>
    match jget details "issues" with
    | JArr issues => omap (λ i, if isRecord i then Some (default "" (as_string (jget i "code"))) else None) issues
    | _ => []
    end
  end.

Definition names_write (name : string) : bool := bool_decide (name ∈ FILE_WRITE_TOOLS).

Definition pre_draft_risk (outputTruncated : bool) (r : tool_result) : bool :=
  is_error r && names_write (tr_toolName r) &&
  let required := existsb (λ c, bool_decide (c = "required")) (issue_codes r) in
  bool_decide (tr_toolName r = "write_file") && required
  || outputTruncated && required || looksLikeLargeFileError (error_message r).

Definition post_draft_risk (r : tool_result) : bool :=
  is_error r && negb (bool_decide (tr_toolName r ∈ FILE_READ_TOOLS))
  && negb (bool_decide (error_code r = Some "permission_denied") || bool_decide (error_code r = Some "permission_required"))
  && (names_write (tr_toolName r) || looksLikeLargeFileError (error_message r)).

Definition readResultFilePath (data : jsval) : option string :=
  if isRecord data then truthy (as_string (jget data "filePath")) else None.

Definition record_write (s : large_file_repair) (r : tool_result) : large_file_repair :=
  match tr_outcome r with
  | ToolSuccess data =>
    if names_write (tr_toolName r) then
      let paths :=
        match readResultFilePath data with
        | Some path => take 5 (path :: List.filter (λ p, negb (String.eqb p path)) (lf_recentFilePaths s))
        | None => lf_recentFilePaths s
        end in
      LargeFileRepair (lf_preDraftAttempts s) (lf_postDraftAttempts s) (lf_truncationRecoveries s) true
        (lf_pending s) paths
    else s
  | ToolError _ _ _ => s
  end.

Definition recordWrites (results : list tool_result) (s : large_file_repair) : large_file_repair :=
  foldl record_write s results.

Definition with_pending (b : bool) (s : large_file_repair) : large_file_repair :=
  LargeFileRepair (lf_preDraftAttempts s) (lf_postDraftAttempts s) (lf_truncationRecoveries s)
    (lf_wroteFile s) b (lf_recentFilePaths s).

Definition tryPreDraft (purpose : string) (strip : strip_kind) (s : large_file_repair)
  : repair_decision * large_file_repair :=
  if (MAX_PRE_DRAFT_REPAIR_ATTEMPTS <=? lf_preDraftAttempts s)%nat then
    (RepairStop ("Large file repair failed before any workspace file was created after "
                 +:+ show (lf_preDraftAttempts s) +:+ " attempts."), s)
  else
    let attempts := S (lf_preDraftAttempts s) in
    (RepairContinue (preDraftPrompt attempts) purpose (Some strip),
     LargeFileRepair attempts (lf_postDraftAttempts s) (lf_truncationRecoveries s) (lf_wroteFile s)
       (lf_pending s) (lf_recentFilePaths s)).

Definition tryPostDraft (purpose : string) (s : large_file_repair) : repair_decision * large_file_repair :=
  if (MAX_POST_DRAFT_REPAIR_ATTEMPTS <=? lf_postDraftAttempts s)%nat then
    (RepairStop ("Large file repair stopped after " +:+ show (lf_postDraftAttempts s)
                 +:+ " post-draft attempts. A workspace file already exists; report the current file path and remaining gap."), s)
  else
    let attempts := S (lf_postDraftAttempts s) in
    (RepairContinue (postDraftPrompt (lf_recentFilePaths s) attempts) purpose None,
     LargeFileRepair (lf_preDraftAttempts s) attempts (lf_truncationRecoveries s) (lf_wroteFile s)
       (lf_pending s) (lf_recentFilePaths s)).

(** The calls of the loop; [None] is [undefined]. *)
Definition onInvalidToolInput (s : large_file_repair) : option repair_decision * large_file_repair :=
  if negb (lf_pending s) then (None, s)
  else
    let '(d, s) := if lf_wroteFile s then tryPostDraft "large_file_invalid_input_after_write" s
                   else tryPreDraft "large_file_invalid_input" StripErrorPair s in
    (Some d, s).

Definition onNoToolCalls (s : large_file_repair) : option repair_decision * large_file_repair :=
  if negb (lf_pending s) || lf_wroteFile s then (None, s)
  else let '(d, s) := tryPreDraft "large_file_no_tool_call" StripAssistant s in (Some d, s).

Definition analyzeToolResults (results : list tool_result) (outputTruncated : bool) (s : large_file_repair)
  : option repair_decision * large_file_repair :=
  let s := recordWrites results s in
  if lf_wroteFile s then
    if existsb post_draft_risk results then
      let '(d, s) := tryPostDraft "large_file_post_draft_repair" s in (Some d, s)
    else (None, if forallb is_success results then with_pending false s else s)
  else if existsb (pre_draft_risk outputTruncated) results then
    let '(d, s) := tryPreDraft "large_file_pre_draft_repair" StripErrorPair (with_pending true s) in (Some d, s)
  else (None, s).

Definition truncationRecovery (s : large_file_repair) : repair_decision :=
  if lf_wroteFile s then
    RepairContinue (postDraftPrompt (lf_recentFilePaths s) (lf_postDraftAttempts s))
      "large_file_repaired_truncation_after_write" (Some StripAssistant)
  else
    RepairContinue (preDraftPrompt (S (lf_preDraftAttempts s))) "large_file_repaired_truncation"
      (Some StripAssistant).

Definition recoverFromRepairedTruncation (calls : list tool_call) (s : large_file_repair)
  : option repair_decision * large_file_repair :=
  if negb (existsb (λ c : tool_call, names_write c.1.2) calls) then (None, s)
  else if (MAX_TRUNCATION_RECOVERIES <=? lf_truncationRecoveries s)%nat then (None, s)
  else
    let s := LargeFileRepair (lf_preDraftAttempts s) (lf_postDraftAttempts s) (S (lf_truncationRecoveries s))
               (lf_wroteFile s) true (lf_recentFilePaths s) in
    (Some (truncationRecovery s), s).
