(* ===== verification/AgentCaps.v ===== *)
(** * Token caps of the agent loop

    The caps the loop keeps per provider and model
    (src/src/agent/loop/AgentLoop.ts, [transientTokenCaps] and the methods
    around it) and the arithmetic of
    src/src/agent/loop/recovery/usage.ts.  Token counts are integers; the
    limits of the model catalog are the class [ModelLimits]. *)

From S2P Require Import Prelude RouterTypes ContextBudget.
Open Scope Z_scope.

Record token_limits := TokenLimits { tl_maxContextTokens : option Z; tl_maxOutputTokens : option Z }.

(** [getModelTokenLimits]. *)
Class ModelLimits := getModelTokenLimits : string → string → option token_limits.

Record token_cap := TokenCap {
  tc_maxContextTokens : option Z;
  tc_requestedMaxOutputTokens : option Z;
  tc_attemptMaxOutputTokens : option Z;
  tc_hardMaxOutputTokens : option Z;
}.

Definition no_cap : token_cap := TokenCap None None None None.

Abbreviation token_caps := (jmap token_cap).

(** What the loop's configuration says of tokens; a recovery raises
    [cc_maxOutputTokens]. *)
Record cap_config := CapConfig { cc_maxContextTokens : option Z; cc_maxOutputTokens : option Z }.

Definition DEFAULT_RESERVED_OUTPUT_TOKENS : Z := 4096.
Definition EMPTY_LENGTH_OUTPUT_RETRY_FLOOR : Z := 4096.

Definition tokenCapKey (provider model : string) : string := provider +:+ "/" +:+ model.

(** The first that is given. *)
Definition or_else {A} (first second : option A) : option A :=
  match first with Some _ => first | None => second end.

Section Caps.
Context `{ModelLimits} (config : cap_config) (caps : token_caps).

Definition cap_of (provider model : string) : token_cap :=
  default no_cap (jm_get (tokenCapKey provider model) caps).

Definition limit_of (f : token_limits → option Z) (provider model : string) : option Z :=
  getModelTokenLimits provider model ≫= f.

Definition currentMaxContextTokens (provider model : string) : Z :=
  default 1000000
    (or_else (tc_maxContextTokens (cap_of provider model))
       (or_else (limit_of tl_maxContextTokens provider model) (cc_maxContextTokens config))).

Definition requested_output (provider model : string) : option Z :=
  let transient := cap_of provider model in
  or_else (tc_attemptMaxOutputTokens transient)
    (or_else (tc_requestedMaxOutputTokens transient)
       (or_else (cc_maxOutputTokens config) (limit_of tl_maxOutputTokens provider model))).

(** [Math.min(...)] of the candidates, if there are any. *)
Definition minimum (l : list Z) : option Z :=
  match l with [] => None | x :: l => Some (foldl Z.min x l) end.

Definition output_candidates (provider model : string) : list Z :=
  omap positive
    [ requested_output provider model; limit_of tl_maxOutputTokens provider model;
      tc_hardMaxOutputTokens (cap_of provider model) ].

Definition currentMaxOutputTokens (provider model : string) : option Z :=
  minimum (output_candidates provider model).

Definition getReservedOutputTokens (provider model : string) : Z :=
  default DEFAULT_RESERVED_OUTPUT_TOKENS (currentMaxOutputTokens provider model).
End Caps.

Definition setTransientTokenCap (provider model : string) (cap : token_cap) (caps : token_caps) : token_caps :=
  let previous := cap_of caps provider model in
  jm_set (tokenCapKey provider model)
    (TokenCap (or_else (tc_maxContextTokens cap) (tc_maxContextTokens previous))
       (or_else (tc_requestedMaxOutputTokens cap) (tc_requestedMaxOutputTokens previous))
       (or_else (tc_attemptMaxOutputTokens cap) (tc_attemptMaxOutputTokens previous))
       (or_else (tc_hardMaxOutputTokens cap) (tc_hardMaxOutputTokens previous))) caps.

Definition clearAttemptOutputTokenCap (provider model : string) (caps : token_caps) : token_caps :=
  match jm_get (tokenCapKey provider model) caps with
  | Some previous =>
    if bool_decide (tc_attemptMaxOutputTokens previous = None) then caps
    else jm_set (tokenCapKey provider model)
           (TokenCap (tc_maxContextTokens previous) (tc_requestedMaxOutputTokens previous) None
              (tc_hardMaxOutputTokens previous)) caps
  | None => caps
  end.

Definition session_cap (entry : string * token_cap) : option (string * token_cap) :=
  let cap := entry.2 in
  if bool_decide (tc_maxContextTokens cap = None) && bool_decide (tc_hardMaxOutputTokens cap = None) then None
  else Some (entry.1, TokenCap (tc_maxContextTokens cap) None None (tc_hardMaxOutputTokens cap)).

(** [clearTurnScopedTokenCaps], at the start of a run. *)
Definition clearTurnScopedTokenCaps (caps : token_caps) : token_caps := omap session_cap caps.

(** ** usage.ts *)

Definition clampOutputToModelCap (requested : Z) (modelMaxOutputTokens : option Z) : option Z :=
  if requested <=? 0 then None
  else Some (match positive modelMaxOutputTokens with Some cap => Z.min requested cap | None => requested end).

(** [error.provider || fallbackProvider]. *)
Definition modelErrorTarget (e : model_error) (fallbackProvider fallbackModel : string) : string * string :=
  (default fallbackProvider (truthy (Some (er_provider e))), default fallbackModel (truthy (er_model e))).

(** The cap that an empty answer which ran out of tokens is retried with. *)
Definition next_output_cap (previous modelMax : option Z) : option Z :=
  clampOutputToModelCap (Z.max (default 0 previous * 2) EMPTY_LENGTH_OUTPUT_RETRY_FLOOR) modelMax.

(** ** What the caps promise *)

Lemma minimum_spec l n : minimum l = Some n → n ∈ l ∧ ∀ x, x ∈ l → n <= x.
Proof.
  destruct l as [|x l]; [done|]. intros [= <-]. revert x. induction l as [|y l IH]; intros x; cbn [foldl].
  - split; [set_solver|]. intros z Hz%list_elem_of_singleton. lia.
  - destruct (IH (Z.min x y)) as [Hin Hle]. split.
    + apply elem_of_cons in Hin as [Hin|Hin]; [|set_solver].
      rewrite Hin. destruct (Z.min_spec x y) as [[_ ->]|[_ ->]]; set_solver.
    + intros z [->|[->|Hz]%elem_of_cons]%elem_of_cons.
      * pose proof (Hle (Z.min x y) ltac:(set_solver)). lia.
      * pose proof (Hle (Z.min x y) ltac:(set_solver)). lia.
      * apply Hle. set_solver.
Qed.

Lemma positive_spec o n : positive o = Some n ↔ o = Some n ∧ 0 < n.
Proof.
  unfold positive. destruct o as [m|]; [|naive_solver].
  destruct (Z.ltb_spec 0 m); split; [intros [= <-]; done|by intros [[= <-] _]|done|intros [[= <-] ?]; lia].
Qed.

Lemma elem_of_candidates `{ModelLimits} config caps provider model n :
  n ∈ output_candidates config caps provider model ↔
  0 < n ∧ (requested_output config caps provider model = Some n ∨
           limit_of tl_maxOutputTokens provider model = Some n ∨
           tc_hardMaxOutputTokens (cap_of caps provider model) = Some n).
Proof.
  unfold output_candidates. rewrite list_elem_of_omap. split.
  - intros (o & Ho & [Heq Hpos]%positive_spec). subst o. set_solver.
  - intros [Hpos Ho]. exists (Some n). split; [set_solver|]. by apply positive_spec.
Qed.

Lemma tokenCapKey_inj_model provider m1 m2 : tokenCapKey provider m1 = tokenCapKey provider m2 → m1 = m2.
Proof. unfold tokenCapKey. by intros ?%append_cancel_l%append_cancel_l. Qed.

(** P: The output cap of a call is positive and never above what the model
    allows nor above the hard cap a provider has reported; without any
    positive limit there is none.  A cap that is set for one attempt is used
    by it, within those limits, and is gone once it is cleared, while a hard
    cap outlives the turn. *)
Theorem caps_respected `{ModelLimits} config caps provider model :
  let cap := currentMaxOutputTokens config caps provider model in
  (∀ n, cap = Some n → 0 < n ∧
     (∀ m, limit_of tl_maxOutputTokens provider model = Some m → 0 < m → n <= m) ∧
     (∀ h, tc_hardMaxOutputTokens (cap_of caps provider model) = Some h → 0 < h → n <= h)) ∧
  (∀ a, 0 < a → ∃ n,
     currentMaxOutputTokens config (setTransientTokenCap provider model (TokenCap None None (Some a) None) caps)
       provider model = Some n ∧ n <= a) ∧
  tc_attemptMaxOutputTokens (cap_of (clearAttemptOutputTokenCap provider model caps) provider model) = None ∧
  (NoDup (jm_keys caps) →
   cap_of (clearTurnScopedTokenCaps caps) provider model
     = TokenCap (tc_maxContextTokens (cap_of caps provider model)) None None
         (tc_hardMaxOutputTokens (cap_of caps provider model))).
Proof.
  cbn zeta. split; [|split; [|split]].
  - intros n [Hin Hle]%minimum_spec. apply elem_of_candidates in Hin as [Hn _]. split; [done|].
    split; intros m Hm Hpos; apply Hle, elem_of_candidates; split; naive_solver.
  - intros a Ha. unfold currentMaxOutputTokens. set (l := output_candidates _ _ _ _).
    assert (a ∈ l) as Hin.
    { apply elem_of_candidates. split; [done|]. left. unfold requested_output, cap_of, setTransientTokenCap.
      by rewrite jm_get_set_eq. }
    destruct (minimum l) as [n|] eqn:Hn.
    + exists n. split; [done|]. apply minimum_spec in Hn as [_ Hle]. by apply Hle.
    + by destruct l; [apply elem_of_nil in Hin|].
  - unfold clearAttemptOutputTokenCap, cap_of.
    destruct (jm_get (tokenCapKey provider model) caps) as [previous|] eqn:Hg; [|by rewrite Hg].
    case_bool_decide as Hb; [by rewrite Hg|]. by rewrite jm_get_set_eq.
  - intros Hnd. unfold cap_of. set (key := tokenCapKey provider model). induction caps as [|[k cap] l IH]; [done|].
    cbn in Hnd. apply NoDup_cons in Hnd as [Hk Hnd]. specialize (IH Hnd).
    unfold clearTurnScopedTokenCaps in *. rewrite omap_cons. unfold session_cap at 1. cbn [fst snd].
    destruct (decide (key = k)) as [<-|Hne].
    + apply jm_get_None in Hk. rewrite Hk in IH. cbn [jm_get]. rewrite decide_True by done.
      destruct (bool_decide _ && bool_decide _) eqn:Hb; cbn [jm_get]; [|by rewrite decide_True].
      apply andb_prop in Hb as [Hm%bool_decide_eq_true Hh%bool_decide_eq_true].
      cbn [default id]. by rewrite Hm, Hh.
    + cbn [jm_get]. rewrite (decide_False (P := key = k)) by done.
      destruct (bool_decide _ && bool_decide _); cbn [jm_get]; [done|]. by rewrite decide_False.
Qed.
