(* ===== verification/ToolNames.v ===== *)
(** * Repairing the names of tools

    src/src/model/streaming/repairToolName.ts: the name of a tool that a model
    wrote as text is matched against the registered ones, by alias, without
    case, without punctuation and at last by edit distance.  The two-row
    program that computes the distance is compared with the least cost of an
    alignment. *)

From S2P Require Import Prelude Text.

(** ** The program *)

Inductive repair_reason := ByAlias | ByCase | ByNormalized | ByEditDistance.

Record name_repair := NameRepair { nr_name : string; nr_reason : repair_reason }.

(** [name.toLowerCase().replace(/[^a-z0-9]/g, "")]. *)
Definition keep_alnum (c : ascii) : bool := is_lower c || is_digit c.

Definition normalizeToolName (name : string) : string :=
  String.string_of_list_ascii (List.filter keep_alnum (String.list_ascii_of_string (to_lower name))).

Definition maxSafeEditDistance (a b : string) : nat :=
  let shortest := Nat.min (String.length a) (String.length b) in
  if (shortest <? 5)%nat then 0 else if (shortest <? 9)%nat then 1 else 2.

(** The inner loop: [prev] is the previous row from column [j-1] on, [left]
    is [current[j-1]]. *)
Fixpoint next_cells (x : ascii) (bs : list ascii) (prev : list nat) (left : nat) : list nat :=
  match bs, prev with
  | y :: bs, diag :: (up :: _) as rest =>
    let cell := Nat.min (up + 1) (Nat.min (left + 1) (diag + if Ascii.eqb x y then 0 else 1)) in
    cell :: next_cells x bs rest cell
  | _, _ => []
  end.

(** The outer loop, from row [i]. *)
Fixpoint rows (i : nat) (a bs : list ascii) (prev : list nat) : list nat :=
  match a with
  | [] => prev
  | x :: a => rows (S i) a bs (i :: next_cells x bs prev i)
  end.

Definition levenshtein (a b : string) : nat :=
  let bs := String.list_ascii_of_string b in
  default 0 (last (rows 1 (String.list_ascii_of_string a) bs (seq 0 (S (length bs))))).

(** The best match so far; a tie forgets it. *)
Definition best_step (raw : string) (best : option (string * nat)) (candidate : string) : option (string * nat) :=
  let distance := levenshtein (to_lower raw) (to_lower candidate) in
  match best with
  | None => Some (candidate, distance)
  | Some (name, d) =>
    if (distance <? d)%nat then Some (candidate, distance)
    else if (distance =? d)%nat then None else Some (name, d)
  end.

Definition bestEditDistanceMatch (raw : string) (valid : list string) : option (string * nat) :=
  foldl (best_step raw) None valid.

Definition alias_target (aliases : jmap string) (raw : string) : option string :=
  match jm_get raw aliases with
  | Some target => Some target
  | None => jm_get (to_lower raw) aliases
  end.

Definition in_names (valid : list string) (name : string) : bool := bool_decide (name ∈ valid).

Definition by_distance (raw : string) (valid : list string) : option name_repair :=
  match bestEditDistanceMatch raw valid with
  | Some (name, distance) =>
    if (distance <=? maxSafeEditDistance raw name)%nat then Some (NameRepair name ByEditDistance) else None
  | None => None
  end.

Definition same_lower (raw candidate : string) : bool := String.eqb (to_lower candidate) (to_lower raw).

Definition same_normalized (raw candidate : string) : bool :=
  String.eqb (normalizeToolName candidate) (normalizeToolName raw).

(** The matches after the aliases. *)
Definition by_spelling (raw : string) (valid : list string) : option name_repair :=
  match List.find (same_lower raw) valid with
  | Some name => Some (NameRepair name ByCase)
  | None =>
    match List.find (same_normalized raw) valid with
    | Some name => Some (NameRepair name ByNormalized)
    | None => by_distance raw valid
    end
  end.

Definition repairToolName (name : string) (valid : list string) (aliases : jmap string) : option name_repair :=
  let raw := js_trim name in
  if bool_decide (raw = "") then None
  else if in_names valid raw then None
  else
    match alias_target aliases raw with
    | Some target =>
      if bool_decide (target ≠ "") && in_names valid target then Some (NameRepair target ByAlias)
      else by_spelling raw valid
    | None => by_spelling raw valid
    end.

(** ** Alignments *)

(** [edits s t n]: [t] can be made from [s] by inserting, deleting and
    replacing [n] characters. *)
Inductive edits : list ascii → list ascii → nat → Prop :=
  | edits_nil : edits [] [] 0
  | edits_keep c s t n : edits s t n → edits (c :: s) (c :: t) n
  | edits_replace c d s t n : edits s t n → edits (c :: s) (d :: t) (S n)
  | edits_delete c s t n : edits s t n → edits (c :: s) t (S n)
  | edits_insert d s t n : edits s t n → edits s (d :: t) (S n).

Create HintDb edits.
#[export] Hint Constructors edits : edits.

Lemma edits_app s1 t1 n s2 t2 m : edits s1 t1 n → edits s2 t2 m → edits (s1 ++ s2) (t1 ++ t2) (n + m).
Proof. induction 1; cbn; eauto with edits. Qed.

Lemma edits_rev s t n : edits s t n → edits (rev s) (rev t) n.
Proof.
  induction 1 as [|c s t n _ IH|c d s t n _ IH|c s t n _ IH|d s t n _ IH]; cbn.
  - constructor.
  - rewrite <- (Nat.add_0_r n). eauto using edits_app with edits.
  - rewrite <- Nat.add_1_r. eauto using edits_app with edits.
  - rewrite <- (app_nil_r (rev t)), <- Nat.add_1_r. eauto using edits_app with edits.
  - rewrite <- (app_nil_r (rev s)), <- Nat.add_1_r. eauto using edits_app with edits.
Qed.

(** The least cost, by recursion on both lists. *)
Fixpoint distance (s : list ascii) : list ascii → nat :=
  fix along t :=
    match s, t with
    | [], t => length t
    | s, [] => length s
    | c :: s, d :: t =>
      Nat.min (distance s (d :: t) + 1) (Nat.min (along t + 1) (distance s t + if Ascii.eqb c d then 0 else 1))
    end.

Lemma distance_nil_r s : distance s [] = length s.
Proof. by destruct s. Qed.

Lemma distance_nil_l t : distance [] t = length t.
Proof. by destruct t. Qed.

Lemma distance_cons c d s t :
  distance (c :: s) (d :: t) =
  Nat.min (distance s (d :: t) + 1)
    (Nat.min (distance (c :: s) t + 1) (distance s t + if Ascii.eqb c d then 0 else 1)).
Proof. done. Qed.

Lemma distance_edits s : ∀ t, edits s t (distance s t).
Proof.
  induction s as [|c s IHs].
  - intros t. rewrite distance_nil_l. induction t; cbn; eauto with edits.
  - induction t as [|d t IHt].
    + rewrite distance_nil_r. clear IHs. induction s as [|c' s IH] in c |- *; cbn; eauto with edits.
    + rewrite distance_cons. set (x := distance s (d :: t)). set (y := distance (c :: s) t).
      set (z := (distance s t + _)%nat).
      assert (edits (c :: s) (d :: t) (x + 1) ∧ edits (c :: s) (d :: t) (y + 1) ∧ edits (c :: s) (d :: t) z) as (?&?&?).
      { subst x y z. rewrite !Nat.add_1_r. split_and!; eauto with edits.
        destruct (Ascii.eqb_spec c d) as [->|]; [rewrite Nat.add_0_r|rewrite Nat.add_1_r]; eauto with edits. }
      destruct (Nat.min_spec (x + 1) (Nat.min (y + 1) z)) as [[_ ->]|[_ ->]]; [done|].
      by destruct (Nat.min_spec (y + 1) z) as [[_ ->]|[_ ->]].
Qed.

Lemma distance_least s t n : edits s t n → (distance s t ≤ n)%nat.
Proof.
  induction 1 as [|c s t n _ IH|c d s t n _ IH|c s t n _ IH|d s t n _ IH]; [done| | | |].
  - rewrite distance_cons, Ascii.eqb_refl. lia.
  - rewrite distance_cons. destruct (Ascii.eqb c d); lia.
  - destruct t as [|d t]; [rewrite distance_nil_r in *; cbn; lia|]. rewrite distance_cons. lia.
  - destruct s as [|c s]; [rewrite distance_nil_l in *; cbn; lia|]. rewrite distance_cons. lia.
Qed.

Lemma distance_rev s t : distance (rev s) (rev t) = distance s t.
Proof.
  apply Nat.le_antisymm; apply distance_least.
  - apply edits_rev, distance_edits.
  - pose proof (edits_rev _ _ _ (distance_edits (rev s) (rev t))) as H. by rewrite !rev_involutive in H.
Qed.

(** ** The two rows *)

(** The row of a reversed prefix [ra], from the reversed prefix [rb] on. *)
Fixpoint row (ra rb bs : list ascii) : list nat :=
  distance ra rb :: match bs with [] => [] | y :: bs => row ra (y :: rb) bs end.

Lemma next_cells_row x ra bs : ∀ rb,
  distance (x :: ra) rb :: next_cells x bs (row ra rb bs) (distance (x :: ra) rb) = row (x :: ra) rb bs.
Proof.
  induction bs as [|y bs IH]; intros rb; [done|]. cbn [row]. f_equal.
  destruct bs as [|y' bs].
  - cbn [next_cells row]. by rewrite distance_cons.
  - rewrite <- IH. cbn [next_cells row]. rewrite <- distance_cons. done.
Qed.

Lemma rows_row a bs : ∀ ra,
  rows (S (length ra)) a bs (row ra [] bs) = row (rev a ++ ra) [] bs.
Proof.
  induction a as [|x a IH]; intros ra; [done|]. cbn [rows rev]. rewrite <- app_assoc.
  change (S (length ra)) with (length (x :: ra)).
  assert (length (x :: ra) :: next_cells x bs (row ra [] bs) (length (x :: ra)) = row (x :: ra) [] bs) as ->.
  { rewrite <- (distance_nil_r (x :: ra)). apply next_cells_row. }
  apply IH.
Qed.

Lemma first_row bs : ∀ rb, row [] rb bs = seq (length rb) (S (length bs)).
Proof.
  induction bs as [|y bs IH]; intros rb; cbn [row seq length]; rewrite distance_nil_l; [done|].
  f_equal. apply (IH (y :: rb)).
Qed.

Lemma last_row ra bs : ∀ rb, last (row ra rb bs) = Some (distance ra (rev bs ++ rb)).
Proof.
  induction bs as [|y bs IH]; intros rb; [done|]. cbn [row rev]. rewrite <- app_assoc, <- IH.
  by destruct bs.
Qed.

Lemma levenshtein_eq a b :
  levenshtein a b = distance (String.list_ascii_of_string a) (String.list_ascii_of_string b).
Proof.
  unfold levenshtein. change (seq 0 ?n) with (seq (length (@nil ascii)) n).
  rewrite <- first_row. rewrite (rows_row _ _ []), last_row, !app_nil_r. apply distance_rev.
Qed.

(** P: The two-row program computes the edit distance: some alignment of the
    two names costs what it returns, and none costs less. *)
Theorem levenshtein_least a b :
  let s := String.list_ascii_of_string a in
  let t := String.list_ascii_of_string b in
  edits s t (levenshtein a b) ∧ ∀ n, edits s t n → (levenshtein a b ≤ n)%nat.
Proof.
  cbn zeta. rewrite levenshtein_eq. split; [apply distance_edits|apply distance_least].
Qed.

(** ** The repaired name *)

Lemma best_step_inv raw valid best name d :
  foldl (best_step raw) best valid = Some (name, d) →
  best = Some (name, d) ∨ (name ∈ valid ∧ d = levenshtein (to_lower raw) (to_lower name)).
Proof.
  revert best. induction valid as [|c valid IH]; intros best; cbn [foldl]; [by left|].
  intros [Hb|[Hin Hd]]%IH; [|right; split; [set_solver|done]].
  unfold best_step in Hb. destruct best as [[name' d']|].
  - destruct (_ <? _)%nat; [|destruct (_ =? _)%nat; [done|by left]].
    injection Hb as [= <- <-]. right. set_solver.
  - injection Hb as [= <- <-]. right. set_solver.
Qed.

Lemma find_valid (p : string → bool) valid name : List.find p valid = Some name → name ∈ valid ∧ p name = true.
Proof. intros [Hin Hp]%List.find_some. by rewrite list_elem_of_In. Qed.

(** What a repair of [raw] to a name is justified by. *)
Definition justified (raw : string) (aliases : jmap string) (r : name_repair) : Prop :=
  match nr_reason r with
  | ByAlias => alias_target aliases raw = Some (nr_name r)
  | ByCase => to_lower (nr_name r) = to_lower raw
  | ByNormalized => normalizeToolName (nr_name r) = normalizeToolName raw
  | ByEditDistance =>
    let d := levenshtein (to_lower raw) (to_lower (nr_name r)) in
    (d ≤ maxSafeEditDistance raw (nr_name r))%nat ∧ (d ≤ 2)%nat
  end.

Lemma by_spelling_spec raw valid aliases r :
  by_spelling raw valid = Some r → nr_name r ∈ valid ∧ justified raw aliases r.
Proof.
  unfold by_spelling. destruct (List.find (same_lower raw) valid) as [name|] eqn:Hl.
  { intros [= <-]. apply find_valid in Hl as [Hin Hp%String.eqb_eq]. done. }
  destruct (List.find (same_normalized raw) valid) as [name|] eqn:Hn.
  { intros [= <-]. apply find_valid in Hn as [Hin Hp%String.eqb_eq]. done. }
  unfold by_distance, bestEditDistanceMatch. destruct (foldl _ _ _) as [[name d]|] eqn:Hb; [|done].
  destruct (_ <=? _)%nat eqn:Hd; [|done]. intros [= <-]. apply best_step_inv in Hb as [|[Hin ->]]; [done|].
  apply Nat.leb_le in Hd. cbn. split; [done|]. split; [done|]. etrans; [exact Hd|].
  unfold maxSafeEditDistance. destruct (_ <? _)%nat; [lia|]. destruct (_ <? _)%nat; lia.
Qed.

(** P: A repaired name is a registered one and not the name itself: the target
    of an alias, equal but for case or punctuation, or at most two edits away.
    A name that is registered, or nothing but space, is never touched, and one
    that differs in case from a registered name is repaired unless an alias
    leads elsewhere. *)
Theorem repair_registered name valid aliases :
  let raw := js_trim name in
  (∀ r, repairToolName name valid aliases = Some r →
     nr_name r ∈ valid ∧ raw ∉ valid ∧ raw ≠ "" ∧ justified raw aliases r) ∧
  (raw ∈ valid ∨ raw = "" → repairToolName name valid aliases = None) ∧
  (raw ∉ valid → raw ≠ "" → (∃ c, c ∈ valid ∧ to_lower c = to_lower raw) →
     ∃ r, repairToolName name valid aliases = Some r).
Proof.
  cbn zeta. unfold repairToolName, in_names. set (raw := js_trim name). split; [|split].
  - intros r. case_bool_decide as He; [done|]. case_bool_decide as Hv; [done|].
    destruct (alias_target aliases raw) as [target|] eqn:Ha.
    + destruct (bool_decide (target ≠ "") && bool_decide (target ∈ valid)) eqn:Ht.
      * intros [= <-]. apply andb_prop in Ht as [_ Ht%bool_decide_eq_true]. done.
      * intros [??]%(by_spelling_spec _ _ aliases). done.
    + intros [??]%(by_spelling_spec _ _ aliases). done.
  - intros [Hin|He]; [|by rewrite bool_decide_eq_true_2].
    case_bool_decide; [done|]. by rewrite bool_decide_eq_true_2.
  - intros Hv He (c & Hc & Hl). rewrite !bool_decide_eq_false_2 by done.
    assert (∃ r, by_spelling raw valid = Some r) as Hs.
    { unfold by_spelling. destruct (List.find (same_lower raw) valid) as [n|] eqn:Hf; [by eexists|].
      rewrite list_elem_of_In in Hc. pose proof (List.find_none _ _ Hf c Hc) as Hn.
      unfold same_lower in Hn. by rewrite Hl, String.eqb_refl in Hn. }
    destruct (alias_target aliases raw) as [target|]; [|done].
    destruct (bool_decide _ && _); [by eexists|done].
Qed.

(** P: Two names that are equally close are meant to leave the choice open,
    but a tie only forgets the names: the next candidate is taken although it
    is further away, and a third one that is just as close wins. *)
Example tie_prefers_further :
  repairToolName "search_filez" ["search_files"; "search_filer"; "search_fileab"] []
    = Some (NameRepair "search_fileab" ByEditDistance) ∧
  levenshtein "search_filez" "search_files" = 1%nat ∧ levenshtein "search_filez" "search_filer" = 1%nat ∧
  levenshtein "search_filez" "search_fileab" = 2%nat ∧
  repairToolName "search_filez" ["search_files"; "search_filer"] [] = None.
Proof. vm_compute. repeat split. Qed.
