(* ===== verification/AgentTurn.v ===== *)
(** * The turn loop of an agent

    src/src/agent/loop/AgentLoop.ts, [run]: one turn of a conversation.  The
    loop asks the model, recovers from answers that are empty, cut off or
    malformed, runs the tools the answer calls and goes on with their results
    until the model stops, a limit is reached or the turn is aborted.

    The body of the [while] loop is [iteration]; its stages are in the order
    of the code.  What an iteration is told by the rest of the program (the
    context runtime, the router, the model stream, the tools, the hooks, the
    abort signal at every point where it is read) is the record [world]; what
    it does (events it yields, messages it makes durable, model calls, tool
    executions) is a list of [act]s.  A message of the conversation is an
    [entry], which keeps the transient id of its metadata.  Left out: time,
    lifecycle hooks that cannot influence the loop, events of other
    components, the details of status messages, the metadata of the router
    and exceptions of the preparation of a request and of the routing. *)

From Stdlib Require Import QArith.
From S2P Require Import Prelude Host JsValue PermissionRules RouterTypes RouterMedia Text MessagePairs MessageProjector.
From S2P Require Import ContextBudget AgentAssembly AgentRepair AgentCaps ToolNames.
Open Scope Z_scope.

(** ** Data *)

Record entry := Entry { en_message : message; en_transient : option string }.

Definition plain_entry (m : message) : entry := Entry m None.

(** [AgentError] without details and hint. *)
Record agent_error := AgentError { ae_code : string; ae_message : string }.

Inductive result_type := RSuccess | RError | RAborted | RMaxTurns.

#[export] Instance result_type_eq_dec : EqDecision result_type.
Proof. solve_decision. Defined.

(** [AgentTurnResult]. *)
Record turn_result := TurnResult {
  tu_type : result_type;
  tu_stopReason : string;
  tu_usage : usage;
  tu_permissionDenials : list permission_denial;
  tu_turns : Z;
  tu_finalMessage : option message;
  tu_structuredOutput : option jsval;
  tu_errors : list agent_error;
}.

(** The events of [AgentEvent] that the loop yields itself. *)
Inductive agent_event :=
  | ModelRequestStarted (provider model : string)
  | ContextBudgetEvent (snapshot : budget_snapshot)
  | ModelEvent (event : stream_event)
  | ModelCallCompleted (provider model : string) (u : option usage) (finishReason : string)
  | AssistantMessage (m : message)
  | ToolCallsDetected (calls : list tool_call)
  | ToolResultEvent (r : tool_result)
  | ToolResultsProjected (m : message)
  | ModeChangeRequested (mode : permission_mode)
  | StopRequested
  | StopFailure (error : string)
  | Warning (code : string)
  | AgentStatus (event : string)
  | TokenCapAdjusted (provider model cap : string) (previous : option Z) (next : Z) (reason : string)
  | EmptyOutputRecovery (provider model : string) (previous next : option Z)
  | TurnContinued (reason : string)
  | TurnFailed (error : agent_error)
  | TurnCompleted (r : turn_result).

(** What an iteration does. *)
Inductive act :=
  | Yield (e : agent_event)
  | Durable (m : message)
  | CaptureTurn (errored : bool)
  | CallModel (provider model : string) (maxOutputTokens : option Z) (messages : list entry)
  | ExecuteTools (calls : list tool_call) (outputTruncated : bool).

(** ** The state of a run *)

Record conversation := Conversation {
  cv_messages : list entry;
  cv_activeIds : list string;
  cv_promptCounter : nat;
  cv_finalMessage : option message;
}.

Record account := Account {
  at_turnCount : Z;
  at_usage : usage;
  at_lastModelUsage : option usage;
  at_permissionDenials : list permission_denial;
  at_structuredOutput : option jsval;
}.

Record guards := Guards {
  gd_attemptedCompact : bool;
  gd_attemptedOutputRetry : bool;
  gd_attemptedEmptyRetry : bool;
  gd_maxOutputRecoveryCount : nat;
  gd_consecutiveEmptyCount : nat;
  gd_jsonSelfCorrectCount : nat;
  gd_attemptedToolCallRetry : bool;
}.

Record breaker := Breaker {
  br_lastInvalidFingerprint : option string;
  br_sameInvalidCount : nat;
  br_usedGracePeriod : bool;
  br_lastToolFailure : option string;
}.

Record settings := Settings {
  se_tokenCaps : token_caps;
  se_maxOutputTokens : option Z;
  se_permissionMode : permission_mode;
  se_modeBeforePlan : option permission_mode;
}.

Record loop_state := LoopState {
  ls_conversation : conversation;
  ls_account : account;
  ls_guards : guards;
  ls_breaker : breaker;
  ls_repair : large_file_repair;
  ls_settings : settings;
}.

Definition MAX_OUTPUT_RECOVERY_LIMIT : nat := 50.
Definition MAX_CONSECUTIVE_EMPTY : nat := 3.
Definition MAX_JSON_SELF_CORRECT_RETRIES : nat := 3.
Definition MAX_SAME_INVALID_FINGERPRINT : nat := 3.

(** What does not change during a run ([AgentRuntimeConfig] and the input). *)
Record loop_config := LoopConfig {
  lc_provider : string;
  lc_model : string;
  lc_maxContextTokens : option Z;
  lc_jsonSelfCorrect : bool;
  lc_stopOnStructuredOutput : bool;
  lc_toolCallFormat : option string;
  lc_toolNames : list string;
  lc_toolAliases : jmap string;
  lc_maxTurns : option Z;
  lc_surfaceAbort : bool;
}.

(** What the rest of the program answers during one iteration.
    [None] of the context runtime: the operation is missing or throws. *)
Record world := World {
  wo_abortedAtStart : bool;
  wo_compact : list entry → option (option (list entry) * budget_snapshot);
  wo_abortedPrepared : bool;
  wo_decision : string * string;
  wo_recompact : list entry → option (option (list entry) * budget_snapshot);
  wo_stream : list stream_event;
  wo_thrown : option string;
  wo_abortedCall : bool;
  wo_recover : overflow_error → list entry → bool → option recovery_decision;
  wo_reactiveCompact : list entry → option (option (list entry) * budget_snapshot);
  wo_stopHooks : list message * option string;
  wo_abortedDetected : bool;
  wo_tools : list tool_call → list tool_result + string;
  wo_abortedTools : bool;
  wo_applyToolResults : list entry → list message → list (string * message) → option (list entry * option (list message));
  wo_uuid : option string;
}.

(** What the loop uses of code that is not modelled: the advice for a failed
    call, the prompt after text that looked like a call, and the JSON of an
    error. *)
Class LoopHost := {
  toolErrorRecovery : tool_call → string → permission_mode → string * jsval;
  getSelfCorrectPrompt : option string → string → string;
  error_json : overflow_error → string;
}.

(** ** Updates *)

Definition on_conversation (f : conversation → conversation) (s : loop_state) : loop_state :=
  LoopState (f (ls_conversation s)) (ls_account s) (ls_guards s) (ls_breaker s) (ls_repair s) (ls_settings s).
Definition on_account (f : account → account) (s : loop_state) : loop_state :=
  LoopState (ls_conversation s) (f (ls_account s)) (ls_guards s) (ls_breaker s) (ls_repair s) (ls_settings s).
Definition on_guards (f : guards → guards) (s : loop_state) : loop_state :=
  LoopState (ls_conversation s) (ls_account s) (f (ls_guards s)) (ls_breaker s) (ls_repair s) (ls_settings s).
Definition on_breaker (f : breaker → breaker) (s : loop_state) : loop_state :=
  LoopState (ls_conversation s) (ls_account s) (ls_guards s) (f (ls_breaker s)) (ls_repair s) (ls_settings s).
Definition on_repair (f : large_file_repair → large_file_repair) (s : loop_state) : loop_state :=
  LoopState (ls_conversation s) (ls_account s) (ls_guards s) (ls_breaker s) (f (ls_repair s)) (ls_settings s).
Definition on_settings (f : settings → settings) (s : loop_state) : loop_state :=
  LoopState (ls_conversation s) (ls_account s) (ls_guards s) (ls_breaker s) (ls_repair s) (f (ls_settings s)).

Definition on_messages (f : list entry → list entry) (c : conversation) : conversation :=
  Conversation (f (cv_messages c)) (cv_activeIds c) (cv_promptCounter c) (cv_finalMessage c).
Definition with_final (m : option message) (c : conversation) : conversation :=
  Conversation (cv_messages c) (cv_activeIds c) (cv_promptCounter c) m.

Definition on_usage (f : usage → usage) (a : account) : account :=
  Account (at_turnCount a) (f (at_usage a)) (at_lastModelUsage a) (at_permissionDenials a) (at_structuredOutput a).
Definition with_lastUsage (u : option usage) (a : account) : account :=
  Account (at_turnCount a) (at_usage a) u (at_permissionDenials a) (at_structuredOutput a).
Definition add_denials (l : list permission_denial) (a : account) : account :=
  Account (at_turnCount a) (at_usage a) (at_lastModelUsage a) (at_permissionDenials a ++ l) (at_structuredOutput a).
Definition with_structured (v : option jsval) (a : account) : account :=
  Account (at_turnCount a) (at_usage a) (at_lastModelUsage a) (at_permissionDenials a) v.
Definition with_turnCount (n : Z) (a : account) : account :=
  Account n (at_usage a) (at_lastModelUsage a) (at_permissionDenials a) (at_structuredOutput a).

Definition attempted_compact (g : guards) : guards :=
  Guards true (gd_attemptedOutputRetry g) (gd_attemptedEmptyRetry g) (gd_maxOutputRecoveryCount g)
    (gd_consecutiveEmptyCount g) (gd_jsonSelfCorrectCount g) (gd_attemptedToolCallRetry g).
Definition attempted_output (g : guards) : guards :=
  Guards (gd_attemptedCompact g) true (gd_attemptedEmptyRetry g) (gd_maxOutputRecoveryCount g)
    (gd_consecutiveEmptyCount g) (gd_jsonSelfCorrectCount g) (gd_attemptedToolCallRetry g).
Definition attempted_empty (g : guards) : guards :=
  Guards (gd_attemptedCompact g) (gd_attemptedOutputRetry g) true (gd_maxOutputRecoveryCount g)
    (gd_consecutiveEmptyCount g) (gd_jsonSelfCorrectCount g) (gd_attemptedToolCallRetry g).
Definition count_recovery (g : guards) : guards :=
  Guards (gd_attemptedCompact g) (gd_attemptedOutputRetry g) (gd_attemptedEmptyRetry g)
    (S (gd_maxOutputRecoveryCount g)) (gd_consecutiveEmptyCount g) (gd_jsonSelfCorrectCount g)
    (gd_attemptedToolCallRetry g).
Definition with_empties (n : nat) (g : guards) : guards :=
  Guards (gd_attemptedCompact g) (gd_attemptedOutputRetry g) (gd_attemptedEmptyRetry g)
    (gd_maxOutputRecoveryCount g) n (gd_jsonSelfCorrectCount g) (gd_attemptedToolCallRetry g).
Definition count_json (g : guards) : guards :=
  Guards (gd_attemptedCompact g) (gd_attemptedOutputRetry g) (gd_attemptedEmptyRetry g)
    (gd_maxOutputRecoveryCount g) (gd_consecutiveEmptyCount g) (S (gd_jsonSelfCorrectCount g))
    (gd_attemptedToolCallRetry g).
Definition attempted_toolCall (g : guards) : guards :=
  Guards (gd_attemptedCompact g) (gd_attemptedOutputRetry g) (gd_attemptedEmptyRetry g)
    (gd_maxOutputRecoveryCount g) (gd_consecutiveEmptyCount g) (gd_jsonSelfCorrectCount g) true.
(** What a turn whose calls were not all invalid resets. *)
Definition reset_guards (g : guards) : guards :=
  Guards (gd_attemptedCompact g) false false 0 0 (gd_jsonSelfCorrectCount g) false.

Definition with_lastFailure (o : option string) (b : breaker) : breaker :=
  Breaker (br_lastInvalidFingerprint b) (br_sameInvalidCount b) (br_usedGracePeriod b) o.

Definition on_caps (f : token_caps → token_caps) (c : settings) : settings :=
  Settings (f (se_tokenCaps c)) (se_maxOutputTokens c) (se_permissionMode c) (se_modeBeforePlan c).
Definition with_maxOutput (n : option Z) (c : settings) : settings :=
  Settings (se_tokenCaps c) n (se_permissionMode c) (se_modeBeforePlan c).

(** ** The monad of an iteration

    A step of an iteration goes on with a value, starts the next iteration
    ([continue]) or ends the run; either way it has done some [act]s. *)

Inductive outcome (A : Type) :=
  | Next (a : A) (s : loop_state)
  | Again (s : loop_state)
  | Done (r : turn_result) (s : loop_state).
Arguments Next {_} _ _.
Arguments Again {_} _.
Arguments Done {_} _ _.

Definition M (A : Type) : Type := loop_state → list act * outcome A.

#[export] Instance loop_ret : MRet M := λ A a s, ([], Next a s).
#[export] Instance loop_bind : MBind M := λ A B f m s,
  match m s with
  | (acts, Next a s) => let '(more, o) := f a s in (acts ++ more, o)
  | (acts, Again s) => (acts, Again s)
  | (acts, Done r s) => (acts, Done r s)
  end.

Definition reads {A} (f : loop_state → A) : M A := λ s, ([], Next (f s) s).
Definition update (f : loop_state → loop_state) : M unit := λ s, ([], Next tt (f s)).
Definition perform (a : act) : M unit := λ s, ([a], Next tt s).
Definition yield (e : agent_event) : M unit := perform (Yield e).
Definition continue_loop {A} : M A := λ s, ([], Again s).
Definition return_result {A} (r : turn_result) : M A := λ s, ([], Done r s).

Definition when (b : bool) (m : M unit) : M unit := if b then m else mret tt.

Fixpoint for_each {A} (l : list A) (f : A → M unit) : M unit :=
  match l with
  | [] => mret tt
  | a :: l => _ ← f a; for_each l f
  end.

(** ** Ends of a run *)

Definition createTurnResult (type : result_type) (stopReason : string) (turns : Z) (structured : bool)
  (errors : list agent_error) (s : loop_state) : turn_result :=
  TurnResult type stopReason (at_usage (ls_account s)) (at_permissionDenials (ls_account s)) turns
    (cv_finalMessage (ls_conversation s))
    (if structured then at_structuredOutput (ls_account s) else None) errors.

(** [captureTurn], the [turn_completed] event and [return]. *)
Definition complete {A} (r : turn_result) (errored : bool) : M A :=
  _ ← perform (CaptureTurn errored);
  _ ← yield (TurnCompleted r);
  return_result r.

Definition finish {A} (type : result_type) (stopReason : string) (structured : bool) (errors : list agent_error)
  (errored : bool) : M A :=
  r ← reads (λ s, createTurnResult type stopReason (at_turnCount (ls_account s)) structured errors s);
  complete r errored.

Definition fail_turn {A} (status stopReason : string) (structured : bool) (error : agent_error) : M A :=
  _ ← yield (AgentStatus status);
  _ ← yield (TurnFailed error);
  finish RError stopReason structured [error] true.

Definition abort_turn {A} (surface : bool) : M A :=
  _ ← when surface (yield (AgentStatus "turn_aborted"));
  finish RAborted "aborted_streaming" false [] false.

Definition succeed {A} (structured errored : bool) : M A := finish RSuccess "completed" structured [] errored.

(** ** Messages *)

Definition push_messages (l : list message) : M unit :=
  update (on_conversation (on_messages (λ entries, entries ++ map plain_entry l))).

Definition set_messages (l : list entry) : M unit := update (on_conversation (on_messages (λ _, l))).

Definition messages_of (s : loop_state) : list entry := cv_messages (ls_conversation s).

Definition show_count (n : nat) : string := pretty (N.of_nat n).

Definition push_prompt (uuid : option string) (prompt : string) (c : conversation) : conversation :=
  let counter := match uuid with Some _ => cv_promptCounter c | None => S (cv_promptCounter c) end in
  let transientId := default ("transient-" +:+ show_count counter) uuid in
  Conversation (cv_messages c ++ [Entry (Message User [TextBlock prompt]) (Some transientId)])
    (set_add transientId (cv_activeIds c)) counter (cv_finalMessage c).

Definition pushTransientSyntheticPrompt (w : world) (prompt : string) : M unit :=
  update (on_conversation (push_prompt (wo_uuid w) prompt)).

Definition is_expired (ids : list string) (e : entry) : bool :=
  bool_decide (m_role (en_message e) = User)
  && match en_transient e with Some id => bool_decide (id ∈ ids) | None => false end.

Definition removeTransientPromptsById (entries : list entry) (ids : list string) : list entry :=
  List.filter (λ e, negb (is_expired ids e)) entries.

Definition expire_prompts (c : conversation) : conversation :=
  if bool_decide (cv_activeIds c = []) then c
  else Conversation (removeTransientPromptsById (cv_messages c) (cv_activeIds c)) [] (cv_promptCounter c)
         (cv_finalMessage c).

Definition expireConsumedTransientPrompts : M unit := update (on_conversation expire_prompts).

Definition merge_usage (first : usage) (second : option usage) : usage :=
  match second with Some u => merge_usages first u | None => first end.

Definition last_assistant (entries : list entry) : option message :=
  last (List.filter (λ m, bool_decide (m_role m = Assistant)) (map en_message entries)).

Definition continued (reason : string) : M unit := yield (TurnContinued reason).

(** [yield turn_continued] for a retry and [continue]. *)
Definition retry {A} : M A := _ ← continued "model_error"; continue_loop.

Definition strip_error_pair : M unit :=
  update (on_conversation (on_messages (stripTrailingErrorPair en_message))).

(** ** The loop *)

Section Loop.
Context `{ModelLimits} `{TextToolParser} `{LoopHost} (config : loop_config).

Definition caps_config (s : loop_state) : cap_config :=
  CapConfig (lc_maxContextTokens config) (se_maxOutputTokens (ls_settings s)).

Definition max_output (provider model : string) (s : loop_state) : option Z :=
  currentMaxOutputTokens (caps_config s) (se_tokenCaps (ls_settings s)) provider model.

Definition max_context (provider model : string) (s : loop_state) : Z :=
  currentMaxContextTokens (caps_config s) (se_tokenCaps (ls_settings s)) provider model.

Definition set_cap (provider model : string) (cap : token_cap) : M unit :=
  update (on_settings (on_caps (setTransientTokenCap provider model cap))).

Definition requested_cap (n : Z) : token_cap := TokenCap None (Some n) None None.
Definition attempt_cap (n : Z) : token_cap := TokenCap None None (Some n) None.
Definition hard_cap (n : Z) : token_cap := TokenCap None None None (Some n).
Definition context_cap (n : Z) : token_cap := TokenCap (Some n) None None None.

(** [continueWithSyntheticPrompt]; it ends the iteration either way. *)
Definition continueWithSyntheticPrompt {A} (w : world) (decision : repair_decision)
  (stripCurrentAssistant : bool) : M A :=
  match decision with
  | RepairStop reason => fail_turn "tool_error_loop" "tool_error" true (AgentError "agent_tool_error_loop" reason)
  | RepairContinue prompt _ strip =>
    _ ← when stripCurrentAssistant
          match strip with
          | Some StripErrorPair => strip_error_pair
          | Some StripAssistant =>
            update (on_conversation (on_messages (λ entries,
              match last entries with
              | Some e => if bool_decide (m_role (en_message e) = Assistant) then removelast entries else entries
              | None => entries
              end)))
          | None => mret tt
          end;
    _ ← pushTransientSyntheticPrompt w prompt;
    _ ← update (on_settings (λ c,
          match se_maxOutputTokens c with
          | Some n => if n <? LARGE_FILE_OUTPUT_RETRY_TOKENS
                      then with_maxOutput (Some LARGE_FILE_OUTPUT_RETRY_TOKENS) c else c
          | None => c
          end));
    retry
  end.

Definition run_repair {A} (f : large_file_repair → A * large_file_repair) : M A :=
  d ← reads (λ s, (f (ls_repair s)).1);
  _ ← update (on_repair (λ r, (f r).2));
  mret d.

(** *** Before the call *)

Definition check_abort (aborted surface : bool) : M unit :=
  if aborted then abort_turn surface else mret tt.

(** The compaction before the request; its snapshot is pending. *)
Definition compact_before (w : world) : M (option budget_snapshot) :=
  entries ← reads messages_of;
  match wo_compact w entries with
  | None => mret None
  | Some (compacted, snapshot) =>
    _ ← match compacted with
        | Some l => _ ← set_messages l; continued "auto_compact"
        | None => mret tt
        end;
    mret (Some snapshot)
  end.

(** The second compaction, for a routed model with another context window;
    [true] when it has reported a budget. *)
Definition compact_routed (w : world) (preRoutingMaxContextTokens : Z) : M bool :=
  let '(provider, model) := wo_decision w in
  match limit_of tl_maxContextTokens provider model with
  | None => mret false
  | Some routedMaxCtx =>
    if routedMaxCtx =? preRoutingMaxContextTokens then mret false else
    entries ← reads messages_of;
    match wo_recompact w entries with
    | None => mret false
    | Some (compacted, snapshot) =>
      _ ← match compacted with
          | Some l => _ ← set_messages l; continued "auto_compact"
          | None => mret tt
          end;
      _ ← yield (ContextBudgetEvent snapshot);
      mret true
    end
  end.

(** The request: the messages and the cap it is made with, the attempt cap
    being cleared, and the budget of the first compaction. *)
Definition send_request (w : world) (pending : option budget_snapshot) (emitted : bool) : M unit :=
  let '(provider, model) := wo_decision w in
  cap ← reads (max_output provider model);
  entries ← reads messages_of;
  _ ← update (on_settings (on_caps (clearAttemptOutputTokenCap provider model)));
  _ ← match pending with
      | Some snapshot => when (negb emitted) (yield (ContextBudgetEvent snapshot))
      | None => mret tt
      end;
  perform (CallModel provider model cap entries).

Definition prepare (w : world) : M unit :=
  _ ← check_abort (wo_abortedAtStart w) (lc_surfaceAbort config);
  preRouting ← reads (max_context (lc_provider config) (lc_model config));
  pending ← compact_before w;
  _ ← check_abort (wo_abortedPrepared w) (lc_surfaceAbort config);
  _ ← yield (ModelRequestStarted (lc_provider config) (lc_model config));
  emitted ← compact_routed w preRouting;
  send_request w pending emitted.

(** *** The call *)

(** The events the loop takes: it stops after an error. *)
Fixpoint consume (events : list stream_event) : list stream_event * bool :=
  match events with
  | [] => ([], false)
  | EvError e :: _ => ([EvError e], true)
  | event :: events => let '(taken, failed) := consume events in (event :: taken, failed)
  end.

Definition accept_reply (m : message) : M unit :=
  _ ← update (on_conversation (with_final (Some m)));
  push_messages [m].

(** What an aborted call leaves: the partial reply, if it has content. *)
Definition keep_partial (reply : assembled) : M unit :=
  when (bool_decide (m_content (ad_message reply) ≠ []))
    (_ ← accept_reply (ad_message reply);
     _ ← expireConsumedTransientPrompts;
     _ ← update (on_account (on_usage (λ u, merge_usage u (ad_usage reply))));
     _ ← yield (AssistantMessage (ad_message reply));
     perform (Durable (ad_message reply))).

(** The usage an event of telemetry carries: three of its counts, and none
    without a total. *)
Definition telemetry_usage (u : option usage) : option usage :=
  u ← u; total ← us_totalTokens u; Some (Usage (us_inputTokens u) (us_outputTokens u) None None (Some total)).

Definition call_model (w : world) : M assembled :=
  let '(provider, model) := wo_decision w in
  let '(events, failed) := consume (wo_stream w) in
  let st := foldl applyModelEventToAssembler createModelMessageAssemblerState events in
  _ ← for_each events (λ e, yield (ModelEvent e));
  match (if failed then None else wo_thrown w) with
  | Some error =>
    if wo_abortedCall w then _ ← keep_partial (assembleAssistantMessage st); abort_turn false
    else
      _ ← yield (StopFailure error);
      fail_turn "model_request_failed" "model_error" false (AgentError "agent_model_error" error)
  | None =>
    let afterCall := assembleAssistantMessage st in
    let reply := assembleAssistantMessage (assemble_state st) in
    _ ← yield (ModelCallCompleted provider model (telemetry_usage (ad_usage afterCall)) (ad_finishReason afterCall));
    if wo_abortedCall w then _ ← keep_partial reply; abort_turn (lc_surfaceAbort config)
    else mret reply
  end.

(** [repairTextExtractedToolNames]. *)
Definition repair_call (c : tool_call) : tool_call :=
  match repairToolName c.1.2 (lc_toolNames config) (lc_toolAliases config) with
  | Some r => (c.1.1, nr_name r, c.2)
  | None => c
  end.

Definition repairTextExtractedToolNames (m : message) (calls : list tool_call) : message * list tool_call :=
  let repairedById :=
    omap (λ c : tool_call, (λ r, (c.1.1, nr_name r)) <$> repairToolName c.1.2 (lc_toolNames config) (lc_toolAliases config)) calls in
  (Message (m_role m)
     (map (λ b, match b with
                | ToolCallBlock id name input =>
                  match truthy (jm_get id repairedById) with
                  | Some repairedName => ToolCallBlock id repairedName input
                  | None => b
                  end
                | _ => b
                end) (m_content m)),
   map repair_call calls).

(** What the loop makes of a reply: the message and its calls. *)
Definition read_calls (reply : assembled) : message * list tool_call :=
  let calls := collectToolCalls (ad_message reply) in
  if fb_hasCalls (ad_fallback reply) then repairTextExtractedToolNames (ad_message reply) calls
  else (ad_message reply, calls).

Definition take_reply (reply : assembled) : M (message * list tool_call) :=
  _ ← update (on_account (λ a, with_lastUsage (ad_usage reply) (on_usage (λ u, merge_usage u (ad_usage reply)) a)));
  _ ← when (0 <? countDuplicateToolCalls (ad_message reply)) (yield (Warning "duplicate_tool_calls_dropped"));
  let '(m, calls) := read_calls reply in
  _ ← update (on_conversation (with_final (Some m)));
  _ ← expireConsumedTransientPrompts;
  mret (m, calls).

(** *** Retries *)

Definition RESUME_PROMPT : string :=
  "Output token limit hit. Resume directly - no apology, no recap of what you were doing. Pick up mid-thought if that is where the cut happened. Break remaining work into smaller pieces.".

Definition RESUME_TEXT_PROMPT : string :=
  "Output token limit hit. Resume directly - no apology, no recap of what you were doing. Pick up mid-sentence if that is where the cut happened.".

Definition EMPTY_PROMPT : string :=
  "Your previous response was empty (thinking only, no visible text). Please provide your answer as visible text output.".

Definition buildPartialTextToolCallRecoveryPrompt (partial : option partial_call) : string :=
  str_join newline
    [ "The previous response contained partial tool-call XML/text and could not be safely executed.";
      match partial with
      | Some p => "Detected partial text tool-call syntax (" +:+ pc_format p +:+ "/" +:+ pc_reason p
                    +:+ "). Preview: " +:+ pc_preview p
      | None => "Detected partial text tool-call syntax."
      end;
      "Resend the complete intended tool call with all required parameters, or continue in visible text if no tool is needed.";
      "Do not repeat dangling XML/tool-call fragments." ].

Definition recoveries (s : loop_state) : nat := gd_maxOutputRecoveryCount (ls_guards s).

Definition retry_with {A} (w : world) (prompt : string) : M A :=
  _ ← pushTransientSyntheticPrompt w prompt; retry.

(** One more recovery, while the limit allows it. *)
Definition resume {A} (w : world) (prompt : string) (exhausted : M A) : M A :=
  n ← reads recoveries;
  if (n <? MAX_OUTPUT_RECOVERY_LIMIT)%nat then
    _ ← update (on_guards count_recovery); retry_with w prompt
  else exhausted.

(** The single bump of an explicit output cap; [before] runs when it applies. *)
Definition bump_output {A} (w : world) (before : M unit) (otherwise : M A) : M A :=
  let '(provider, model) := wo_decision w in
  tried ← reads (λ s, gd_attemptedOutputRetry (ls_guards s));
  if (tried : bool) then otherwise else
  _ ← update (on_guards attempted_output);
  current ← reads (max_output provider model);
  match resolveOutputTokenRetryBump current (limit_of tl_maxOutputTokens provider model) with
  | None => otherwise
  | Some next =>
    _ ← before;
    previous ← reads (max_output provider model);
    _ ← set_cap provider model (requested_cap next);
    _ ← yield (TokenCapAdjusted provider model "output" previous next "max-output-retry-bump");
    retry
  end.

(** An empty answer that ran out of tokens is retried with a larger cap. *)
Definition raise_empty_cap (w : world) (finishReason : string) : M unit :=
  let '(provider, model) := wo_decision w in
  when (bool_decide (finishReason = "length"))
    (previous ← reads (max_output provider model);
     let next := next_output_cap previous (limit_of tl_maxOutputTokens provider model) in
     match next with
     | Some n =>
       when (negb (bool_decide (next = previous)))
         (_ ← set_cap provider model (requested_cap n);
          yield (EmptyOutputRecovery provider model previous next))
     | None => mret tt
     end).

(** The guard against empty answers, which the code has twice. *)
Definition empty_guard (w : world) (finishReason : string) (exhausted : M unit) : M unit :=
  n ← reads recoveries;
  if (0 <? n)%nat then
    _ ← update (on_guards (λ g, with_empties (S (gd_consecutiveEmptyCount g)) g));
    empties ← reads (λ s, gd_consecutiveEmptyCount (ls_guards s));
    if (empties <? MAX_CONSECUTIVE_EMPTY)%nat && (n <? MAX_OUTPUT_RECOVERY_LIMIT)%nat then
      _ ← update (on_guards count_recovery);
      _ ← raise_empty_cap w finishReason;
      retry_with w RESUME_TEXT_PROMPT
    else
      _ ← update (on_conversation (λ c, with_final (last_assistant (cv_messages c)) c));
      _ ← yield (AgentStatus "model_empty_response_exhausted");
      succeed false true
  else
    retried ← reads (λ s, gd_attemptedEmptyRetry (ls_guards s));
    if (retried : bool) then exhausted
    else
      _ ← update (on_guards (λ g, count_recovery (attempted_empty g)));
      _ ← raise_empty_cap w finishReason;
      retry_with w EMPTY_PROMPT.

(** *** Answers that cannot be used as they are *)

Definition partial_text_stage (w : world) (reply : assembled) : M unit :=
  let detail := match fb_partial (ad_fallback reply) with
                | Some p => pc_format p +:+ "/" +:+ pc_reason p
                | None => "unknown partial text tool-call"
                end in
  when (bool_decide (is_Some (fb_partial (ad_fallback reply))))
    (resume w (buildPartialTextToolCallRecoveryPrompt (fb_partial (ad_fallback reply)))
       (fail_turn "tool_call_recovery_exhausted" "model_error" true
          (AgentError "agent_model_error"
             ("Partial text tool-call recovery exhausted after " +:+ show_count MAX_OUTPUT_RECOVERY_LIMIT
              +:+ " attempts (" +:+ detail +:+ ").")))).

Definition truncated_reasons : list string := ["length"; "tool_call"; "stop"].

(** Calls whose arguments were repaired after a cut are never run. *)
Definition repaired_stage (w : world) (reply : assembled) (calls : list tool_call) : M unit :=
  when (ad_repaired reply && bool_decide (ad_finishReason reply ∈ truncated_reasons))
    (decision ← run_repair (recoverFromRepairedTruncation calls);
     match decision with
     | Some d => continueWithSyntheticPrompt w d false
     | None =>
       bump_output w (mret tt)
         (resume w RESUME_PROMPT
            (fail_turn "tool_call_recovery_exhausted" "model_error" true
               (AgentError "agent_model_error"
                  "Recovered tool call still looked repaired/truncated after max-output recovery was exhausted.")))
     end).

Definition empty_stage (w : world) (reply : assembled) (m : message) (calls : list tool_call) : M unit :=
  when (bool_decide (ad_error reply = None) && bool_decide (calls = []) && bool_decide (textFromMessage m = ""))
    (empty_guard w (ad_finishReason reply)
       (_ ← yield (AgentStatus "model_empty_response_exhausted");
        _ ← update (on_conversation (λ c, with_final (last_assistant (cv_messages c)) c));
        succeed false true)).

(** *** Errors of the model *)

Definition missing_result (mode : permission_mode) (reason : string) (call : tool_call) : tool_result :=
  let '(text, advice) := toolErrorRecovery call reason mode in
  ToolResult (tc_id call) call.1.2 (ToolError "tool_execution_failed" reason JUndefined) [TcText text] []
    [("recovery", advice)].

Definition permission_mode_of (s : loop_state) : permission_mode := se_permissionMode (ls_settings s).

(** The calls of a failed answer get results at once. *)
Definition answer_failed_calls (calls : list tool_call) : M unit :=
  when (bool_decide (calls ≠ []))
    (mode ← reads permission_mode_of;
     let projected := projectToolResults (map (missing_result mode "Model error interrupted tool execution.") calls) in
     _ ← push_messages projected;
     _ ← for_each (option_list (head projected)) (λ m, yield (ToolResultsProjected m));
     for_each projected (λ m, perform (Durable m))).

Definition json_prompt (e : overflow_error) (m : message) : string :=
  let parserDetail := str_slice 0 300 (er_message (oe_error e)) in
  let text := textFromMessage m in
  let tail n (t : string) := str_slice (String.length t - n) (String.length t) t in
  let snippet := tail 500%nat text in
  "Your previous tool call contained invalid JSON in the arguments and could not be parsed. Parser error: "
    +:+ default "unspecified parse failure" (truthy (Some parserDetail)) +:+ ". "
    +:+ (if bool_decide (snippet ≠ "") then "Failing output ends with: " +:+ quote (tail 200%nat snippet) +:+ newline else "")
    +:+ "Please retry with valid JSON. Common issues: missing quotes around keys/values, trailing commas, unescaped special characters in strings.".

Definition json_stage (w : world) (e : overflow_error) (m : message) : M unit :=
  n ← reads (λ s, gd_jsonSelfCorrectCount (ls_guards s));
  when (lc_jsonSelfCorrect config && bool_decide (er_code (oe_error e) = "invalid_tool_arguments")
        && (n <? MAX_JSON_SELF_CORRECT_RETRIES)%nat)
    (_ ← update (on_guards count_json); retry_with w (json_prompt e m)).

(** A cap the error named, for its target and for the routed model. *)
Definition set_attempt_caps (w : world) (target : string * string) (n : Z) (hard : bool) : M unit :=
  _ ← set_cap target.1 target.2 (if hard then hard_cap n else attempt_cap n);
  when (negb (bool_decide (target = wo_decision w)))
    (set_cap (wo_decision w).1 (wo_decision w).2 (attempt_cap n)).

Definition adjust_output (w : world) (target : string * string) (n : Z) (reason : string) (hard : bool) : M unit :=
  _ ← update (on_guards attempted_output);
  previous ← reads (max_output target.1 target.2);
  _ ← set_attempt_caps w target n hard;
  _ ← strip_error_pair;
  _ ← yield (TokenCapAdjusted target.1 target.2 "output" previous n reason);
  retry.

Definition truncate_messages (keepRatio : Q) : M unit :=
  update (on_conversation (on_messages (λ entries, truncateHead entries keepRatio))).

Definition compact_and_retry (w : world) (target : string * string) (maxContext maxOutput : option Z)
  (reason : string) : M unit :=
  previousContext ← reads (max_context target.1 target.2);
  _ ← match maxContext with
      | Some n =>
        _ ← set_cap target.1 target.2 (context_cap n);
        yield (TokenCapAdjusted target.1 target.2 "context" (Some previousContext) n reason)
      | None => mret tt
      end;
  _ ← match maxOutput with
      | Some n =>
        previous ← reads (max_output target.1 target.2);
        _ ← set_attempt_caps w target n false;
        yield (TokenCapAdjusted target.1 target.2 "output" previous n reason)
      | None => mret tt
      end;
  _ ← strip_error_pair;
  entries ← reads messages_of;
  _ ← match wo_reactiveCompact w entries with
      | Some (Some l, _) => set_messages l
      | _ => truncate_messages (1 # 2)
      end;
  _ ← update (on_guards attempted_compact);
  retry.

Definition map_message (f : message → message) (e : entry) : entry := Entry (f (en_message e)) (en_transient e).

(** The answer of the context runtime to the error. *)
Definition reactive_stage (w : world) (e : overflow_error) : M unit :=
  let target := modelErrorTarget (oe_error e) (wo_decision w).1 (wo_decision w).2 in
  entries ← reads messages_of;
  compacted ← reads (λ s, gd_attemptedCompact (ls_guards s));
  retried ← reads (λ s, gd_attemptedOutputRetry (ls_guards s));
  match wo_recover w e entries compacted with
  | Some (AdjustOutputAndRetry n reason hard) => when (negb retried) (adjust_output w target n reason hard)
  | Some (CompactAndRetry maxContext maxOutput reason) =>
    when (negb compacted) (compact_and_retry w target maxContext maxOutput reason)
  | Some (TruncateHeadAndRetry keepRatio _) =>
    _ ← strip_error_pair;
    _ ← truncate_messages keepRatio;
    _ ← update (on_guards attempted_compact);
    retry
  | Some (StripImagesAndRetry _) =>
    _ ← strip_error_pair;
    _ ← update (on_conversation (on_messages (map (map_message strip_message_images))));
    retry
  | Some (GiveUp _) | None => mret tt
  end.

(** [isPromptTooLong] and [classifyModelError]. *)
Definition prompt_too_long_phrases : list string :=
  ["prompt is too long"; "input length and max_tokens exceed context limit"; "request too large"].

Definition isPromptTooLong (e : model_error) : bool :=
  bool_decide (er_code e = "prompt_too_long") || er_recoverableViaCompact e
  || existsb (λ p, str_includes p (to_lower (er_message e))) prompt_too_long_phrases.

Definition classifyModelError (e : model_error) : string * agent_error :=
  if isPromptTooLong e then ("prompt_too_long", AgentError "agent_prompt_too_long" (er_message e))
  else ("model_error", AgentError "agent_model_error" (er_message e)).

Definition error_stage (w : world) (reply : assembled) (m : message) (calls : list tool_call) : M unit :=
  match ad_error reply with
  | None => mret tt
  | Some e =>
    _ ← answer_failed_calls calls;
    _ ← json_stage w e m;
    _ ← reactive_stage w e;
    _ ← when (bool_decide (er_code (oe_error e) = "max_output_reached"))
          (bump_output w strip_error_pair (resume w RESUME_PROMPT (mret tt)));
    let '(stopReason, error) := classifyModelError (oe_error e) in
    _ ← yield (StopFailure (error_json e));
    fail_turn "model_request_failed" stopReason false error
  end.

(** *** Answers without calls *)

Definition finish_status (finishReason text : string) : option string :=
  if bool_decide (js_trim text = "") then None
  else if bool_decide (finishReason = "content_filter") then Some "content_filter_stop"
  else if bool_decide (finishReason = "unknown") then Some "unknown_finish_reason"
  else None.

Definition pop_message : M unit := update (on_conversation (on_messages (λ entries, removelast entries))).

Definition cut_text_stage (w : world) (finishReason : string) : M unit :=
  when (bool_decide (finishReason = "length"))
    (_ ← update (on_guards (with_empties 0));
     resume w RESUME_TEXT_PROMPT (yield (AgentStatus "max_output_recovery_exhausted"))).

Definition unparsed_stage (w : world) (reply : assembled) (text : string) : M unit :=
  when (bool_decide (fb_partial (ad_fallback reply) = None) && fb_unparsed (ad_fallback reply))
    (retried ← reads (λ s, gd_attemptedToolCallRetry (ls_guards s));
     if (retried : bool) then yield (Warning "unparsed_tool_call")
     else
       _ ← update (on_guards attempted_toolCall);
       retry_with w (getSelfCorrectPrompt (or_else (lc_toolCallFormat config) (fb_format (ad_fallback reply))) text)).

Definition no_calls_stage {A} (w : world) (reply : assembled) (m : message) : M A :=
  let text := textFromMessage m in
  _ ← when (bool_decide (text = ""))
        (_ ← pop_message;
         empty_guard w (ad_finishReason reply) (yield (AgentStatus "model_empty_response_exhausted")));
  _ ← cut_text_stage w (ad_finishReason reply);
  decision ← run_repair onNoToolCalls;
  _ ← match decision with Some d => continueWithSyntheticPrompt w d true | None => mret tt end;
  _ ← unparsed_stage w reply text;
  _ ← yield StopRequested;
  let '(hookMessages, block) := wo_stopHooks w in
  _ ← push_messages hookMessages;
  match block with
  | Some reason =>
    fail_turn "lifecycle_blocked" "tool_error" true (AgentError "agent_unsupported_feature" reason)
  | None =>
    _ ← match finish_status (ad_finishReason reply) text with
        | Some status => yield (AgentStatus status)
        | None => mret tt
        end;
    succeed true false
  end.

(** *** Answers with calls *)

Definition run_tools (w : world) (reply : assembled) (calls : list tool_call) : M (list tool_result) :=
  _ ← perform (ExecuteTools calls (bool_decide (ad_finishReason reply = "length") || ad_repaired reply));
  mode ← reads permission_mode_of;
  mret match wo_tools w calls with
       | inl results => results
       | inr error => map (missing_result mode error) calls
       end.

(** The mode a result asks for; leaving plan mode restores the mode before. *)
Definition request_mode (requested : permission_mode) (c : settings) : settings :=
  match requested, se_permissionMode c, se_modeBeforePlan c with
  | ModePlan, ModePlan, before => Settings (se_tokenCaps c) (se_maxOutputTokens c) ModePlan before
  | ModePlan, current, _ => Settings (se_tokenCaps c) (se_maxOutputTokens c) ModePlan (Some current)
  | _, ModePlan, Some before => Settings (se_tokenCaps c) (se_maxOutputTokens c) before None
  | mode, _, before => Settings (se_tokenCaps c) (se_maxOutputTokens c) mode before
  end.

(** [result.metadata?.structuredOutput] of a success. *)
Definition js_truthy (v : jsval) : bool :=
  match v with
  | JUndefined | JNull | JBool false | JStr "" | JNum (NInt 0) | JNum NNegZero | JNum NNaN => false
  | _ => true
  end.

Definition structured_data (r : tool_result) : option jsval :=
  match tr_outcome r with
  | ToolSuccess data =>
    if js_truthy (default JUndefined (jm_get "structuredOutput" (tr_metadata r))) then Some data else None
  | ToolError _ _ _ => None
  end.

Definition report_result (r : tool_result) : M unit :=
  _ ← match structured_data r with
      | Some data => update (on_account (with_structured (if is_undefined data then None else Some data)))
      | None => mret tt
      end;
  _ ← match readRequestedMode r with
      | Some requested =>
        _ ← update (on_settings (request_mode requested));
        mode ← reads permission_mode_of;
        yield (ModeChangeRequested mode)
      | None => mret tt
      end;
  yield (ToolResultEvent r).

(** The results of a batch: one per call, with hints on repeated failures. *)
Definition pair_results (calls : list tool_call) (results : list tool_result) : M (list tool_result) :=
  mode ← reads permission_mode_of;
  let paired := ensureToolResultPairing tr_toolCallId
                  (missing_result mode "Tool execution did not produce a result.") calls results in
  last ← reads (λ s, br_lastToolFailure (ls_breaker s));
  let '(fingerprint, repeatedKeys) := detectRepeatedToolFailure paired last in
  _ ← update (on_breaker (with_lastFailure fingerprint));
  mret (annotateRepeatedToolFailures paired repeatedKeys).

Definition append_results (w : world) (results : list tool_result) : M unit :=
  let projected := projectToolResults results in
  entries ← reads messages_of;
  appended ←
    match wo_applyToolResults w entries projected (bindSupplementalMessagesToToolCalls results (tail projected)) with
    | Some (l, appended) => _ ← set_messages l; mret (default projected appended)
    | None => _ ← push_messages projected; mret projected
    end;
  for_each appended (λ m, _ ← yield (ToolResultsProjected m); perform (Durable m)).

Definition repair_stage (w : world) (decision : option repair_decision) : M unit :=
  match decision with Some d => continueWithSyntheticPrompt w d true | None => mret tt end.

Definition CIRCUIT_BREAKER_GRACE_PROMPT : string :=
  "Your last several tool calls all failed input validation with the same error. This may indicate a tool-side issue rather than a problem with your approach. Options: (1) try a different tool or different parameters, (2) explain the situation in text without calling tools, (3) if you believe the tool should work, try once more with corrected input.".

(** One more turn whose calls were all invalid. *)
Definition count_invalid (fingerprint : string) (b : breaker) : breaker :=
  if bool_decide (br_lastInvalidFingerprint b = Some fingerprint)
  then Breaker (br_lastInvalidFingerprint b) (S (br_sameInvalidCount b)) (br_usedGracePeriod b) (br_lastToolFailure b)
  else Breaker (Some fingerprint) 1 false (br_lastToolFailure b).

Definition use_grace (b : breaker) : breaker :=
  Breaker (br_lastInvalidFingerprint b) (br_sameInvalidCount b) true (br_lastToolFailure b).

Definition breaker_stage (w : world) (results : list tool_result) : M unit :=
  if negb (bool_decide (results = [])) && forallb invalid_input results then
    pending ← reads (λ s, lf_pending (ls_repair s));
    _ ← when pending (decision ← run_repair onInvalidToolInput; repair_stage w decision);
    _ ← update (on_breaker (count_invalid (buildInvalidFingerprint results)));
    count ← reads (λ s, br_sameInvalidCount (ls_breaker s));
    used ← reads (λ s, br_usedGracePeriod (ls_breaker s));
    when (MAX_SAME_INVALID_FINGERPRINT <=? count)%nat
      (if (used : bool) then
         fail_turn "tool_error_loop" "tool_error" true
           (AgentError "agent_tool_error_loop"
              ("Terminated: " +:+ show_count count +:+ " consecutive turns with identical tool input validation failures (same tool + same error). The model appears stuck in a loop."))
       else _ ← update (on_breaker use_grace); retry_with w CIRCUIT_BREAKER_GRACE_PROMPT)
  else
    _ ← update (on_breaker (λ b, Breaker None 0 false
          (if existsb is_error results then br_lastToolFailure b else None)));
    update (on_guards reset_guards).

Definition max_turns_error (maxTurns : Z) : agent_error :=
  AgentError "agent_max_turns_reached" ("Reached maximum number of turns (" +:+ pretty maxTurns +:+ ").").

Definition next_turn {A} : M A :=
  n ← reads (λ s, at_turnCount (ls_account s) + 1);
  match lc_maxTurns config with
  | Some maxTurns =>
    if negb (maxTurns =? 0) && (maxTurns <? n) then
      r ← reads (createTurnResult RMaxTurns "max_turns" n true [max_turns_error maxTurns]);
      _ ← yield (AgentStatus "max_turns_reached");
      complete r false
    else
      _ ← update (on_account (with_turnCount n));
      _ ← continued "next_turn";
      continue_loop
  | None =>
    _ ← update (on_account (with_turnCount n));
    _ ← continued "next_turn";
    continue_loop
  end.

Definition calls_stage {A} (w : world) (reply : assembled) (calls : list tool_call) : M A :=
  _ ← yield (ToolCallsDetected calls);
  _ ← check_abort (wo_abortedDetected w) false;
  results ← run_tools w reply calls;
  _ ← check_abort (wo_abortedTools w) false;
  results ← pair_results calls results;
  decision ← run_repair (analyzeToolResults results (bool_decide (ad_finishReason reply = "length") || ad_repaired reply));
  _ ← update (on_account (add_denials (collectPermissionDenials results)));
  _ ← for_each results report_result;
  _ ← append_results w results;
  _ ← repair_stage w decision;
  _ ← match findToolLifecycleBlock results with
      | Some reason => fail_turn "lifecycle_blocked" "tool_error" true (AgentError "agent_unsupported_feature" reason)
      | None => mret tt
      end;
  _ ← breaker_stage w results;
  structured ← reads (λ s, at_structuredOutput (ls_account s));
  _ ← when (lc_stopOnStructuredOutput config && bool_decide (is_Some structured))
        (_ ← yield (AgentStatus "structured_output_completed"); succeed true false);
  next_turn.

(** *** The body of the loop and its runs *)

Definition iteration (w : world) : M unit :=
  _ ← prepare w;
  reply ← call_model w;
  taken ← take_reply reply;
  let '(m, calls) := taken in
  _ ← partial_text_stage w reply;
  _ ← repaired_stage w reply calls;
  _ ← empty_stage w reply m calls;
  _ ← push_messages [m];
  _ ← yield (AssistantMessage m);
  _ ← perform (Durable m);
  _ ← error_stage w reply m calls;
  if bool_decide (calls = []) then no_calls_stage w reply m else calls_stage w reply calls.

(** The outcome of at most as many iterations as there are worlds; no body
    ever goes on past its end. *)
Inductive run_outcome := Running (s : loop_state) | Finished (r : turn_result) (s : loop_state).

Fixpoint run (worlds : list world) (s : loop_state) : list act * run_outcome :=
  match worlds with
  | [] => ([], Running s)
  | w :: worlds =>
    match iteration w s with
    | (acts, Done r s) => (acts, Finished r s)
    | (acts, Again s) | (acts, Next _ s) => let '(more, o) := run worlds s in (acts ++ more, o)
    end
  end.

(** The state a run starts in: the caps of the turn before are cleared. *)
Definition start_state (messages : list entry) (c : settings) : loop_state :=
  LoopState (Conversation messages [] 0 None) (Account 1 no_usage None [] None)
    (Guards false false false 0 0 0 false) (Breaker None 0 false None) new_LargeFileRepair
    (on_caps clearTurnScopedTokenCaps c).
End Loop.
