(* ===== verification/AgentLaws.v ===== *)
(** * Laws of the turn loop

    A small program logic for the monad of AgentTurn.v.  A [spec] says how the
    acts of a computation and the states before and after it are related, for
    each of its three outcomes; it is closed under the monad's operations, so
    a stage of the loop has it when its primitive parts do, which the tactic
    [spec_auto] checks. *)

From Stdlib Require Import QArith.
From S2P Require Import Prelude JsValue PermissionRules RouterTypes RouterMedia MessagePairs MessageProjector.
From S2P Require Import ContextBudget AgentAssembly AgentRepair AgentCaps ToolNames AgentTurn.
Open Scope Z_scope.

(** ** Computations in sequence *)

Lemma bind_inv {A B} (m : M A) (f : A → M B) s acts o :
  (m ≫= f) s = (acts, o) →
  (∃ a s1 acts1 acts2, m s = (acts1, Next a s1) ∧ f a s1 = (acts2, o) ∧ acts = acts1 ++ acts2) ∨
  (∃ s1, m s = (acts, Again s1) ∧ o = Again s1) ∨ (∃ r s1, m s = (acts, Done r s1) ∧ o = Done r s1).
Proof.
  unfold mbind, loop_bind. destruct (m s) as [acts1 [a s1|s1|r s1]].
  - destruct (f a s1) as [acts2 o2] eqn:Hf. intros [= <- <-]. left. by exists a, s1, acts1, acts2.
  - intros [= <- <-]. right. left. by exists s1.
  - intros [= <- <-]. right. right. by exists r, s1.
Qed.

Lemma bind_assoc_next {A B} (m : M A) (f : A → M B) s acts a s1 :
  m s = (acts, Next a s1) → (m ≫= f) s = (acts ++ (f a s1).1, (f a s1).2).
Proof. unfold mbind, loop_bind. intros ->. by destruct (f a s1). Qed.

(** ** Specifications *)

Record law := Law {
  law_next : loop_state → list act → loop_state → Prop;
  law_again : loop_state → list act → loop_state → Prop;
  law_done : loop_state → list act → turn_result → loop_state → Prop;
  law_refl s : law_next s [] s;
  law_trans s a t b u : law_next s a t → law_next t b u → law_next s (a ++ b) u;
  law_then_again s a t b u : law_next s a t → law_again t b u → law_again s (a ++ b) u;
  law_then_done s a t b r u : law_next s a t → law_done t b r u → law_done s (a ++ b) r u;
}.

Definition outcome_law {A} (L : law) (s : loop_state) (result : list act * outcome A) : Prop :=
  match result with
  | (acts, Next _ s') => law_next L s acts s'
  | (acts, Again s') => law_again L s acts s'
  | (acts, Done r s') => law_done L s acts r s'
  end.

Definition spec {A} (L : law) (m : M A) : Prop := ∀ s, outcome_law L s (m s).

Section Laws.
Context (L : law).

Lemma spec_ret {A} (a : A) : spec L (mret a : M A).
Proof. intros s. apply law_refl. Qed.

Lemma spec_reads {A} (f : loop_state → A) : spec L (reads f).
Proof. intros s. apply law_refl. Qed.

Lemma outcome_then {A B} (m : M A) (f : A → M B) s acts a s1 :
  m s = (acts, Next a s1) → law_next L s acts s1 → outcome_law L s1 (f a s1) → outcome_law L s ((m ≫= f) s).
Proof.
  unfold mbind, loop_bind. intros -> Ha Hf. destruct (f a s1) as [more [b s2|s2|r s2]]; cbn in *.
  - by eapply law_trans.
  - by eapply law_then_again.
  - by eapply law_then_done.
Qed.

Lemma outcome_bind {A B} (m : M A) (f : A → M B) s :
  outcome_law L s (m s) → (∀ a, spec L (f a)) → outcome_law L s ((m ≫= f) s).
Proof.
  intros Hm Hf. destruct (m s) as [acts [a s1|s1|r s1]] eqn:E.
  - eapply outcome_then; [done..|apply Hf].
  - unfold mbind, loop_bind. by rewrite E.
  - unfold mbind, loop_bind. by rewrite E.
Qed.

Lemma spec_bind {A B} (m : M A) (f : A → M B) : spec L m → (∀ a, spec L (f a)) → spec L (m ≫= f).
Proof. intros Hm Hf s. by apply outcome_bind. Qed.

(** What a computation has read may be used by the rest. *)
Lemma spec_bind_reads {A B} (f : loop_state → A) (g : A → M B) :
  (∀ s, outcome_law L s (g (f s) s)) → spec L (reads f ≫= g).
Proof. intros Hg s. specialize (Hg s). unfold mbind, loop_bind, reads. by destruct (g (f s) s). Qed.

Lemma spec_when (b : bool) m : spec L m → spec L (when b m).
Proof. intros Hm. destruct b; [done|apply spec_ret]. Qed.

Lemma spec_for_each {A} (l : list A) f : (∀ a, spec L (f a)) → spec L (for_each l f).
Proof.
  intros Hf. induction l as [|a l IH]; [apply spec_ret|]. cbn. apply spec_bind; [done|]. by intros [].
Qed.

Lemma spec_update f : (∀ s, law_next L s [] (f s)) → spec L (update f).
Proof. intros Hf s. apply Hf. Qed.

Lemma spec_perform a : (∀ s, law_next L s [a] s) → spec L (perform a).
Proof. intros Hf s. apply Hf. Qed.

Lemma spec_run_repair {A} (f : large_file_repair → A * large_file_repair) :
  (∀ s, law_next L s [] (on_repair (λ r, (f r).2) s)) → spec L (run_repair f).
Proof. intros Hf s. apply Hf. Qed.
End Laws.

(** Splits a computation into its primitive parts. *)
Ltac spec_step :=
  first
    [ apply spec_ret | apply spec_reads | apply spec_bind; [|intros ?] | apply spec_when
    | apply spec_for_each; intros ?
    | match goal with
      | |- spec _ (match ?x with _ => _ end) => destruct x
      | |- spec _ (if ?x then _ else _) => destruct x
      | |- spec _ (let '(_, _) := ?x in _) => destruct x
      end ].

Ltac spec_auto := repeat (first [done | assumption | solve [auto with spec] | spec_step]).

Create HintDb spec.

(** ** Acts *)

(** What only the end of a run does. *)
Definition is_end (a : act) : bool :=
  match a with
  | CaptureTurn _ | Yield (TurnFailed _) | Yield (TurnCompleted _) => true
  | _ => false
  end.

(** The execution of calls and the report of their results. *)
Definition is_tool (a : act) : bool :=
  match a with ExecuteTools _ _ | Yield (ToolResultEvent _) => true | _ => false end.

(** A request to the model, what it streams and its completion. *)
Definition is_call (a : act) : bool :=
  match a with CallModel _ _ _ _ | Yield (ModelEvent _) | Yield (ModelCallCompleted _ _ _ _) => true | _ => false end.

Definition is_plain (a : act) : bool := negb (is_end a) && negb (is_tool a) && negb (is_call a).

(** ** Laws of all stages

    What a law has to allow for the stages of the loop to obey it.  [may l' l]
    says which histories [l'] may replace [l]; the replacements the loop makes
    itself are among them, those of the context runtime are when the world
    [behaves]. *)

Class Replacing (may : list entry → list entry → Prop) := {
  may_refl l : may l l;
  may_plain l ms : may (l ++ map plain_entry ms) l;
  may_removelast l : may (removelast l) l;
  may_strip l : may (stripTrailingErrorPair en_message l) l;
  may_truncate q l : may (truncateHead l q) l;
  may_images l : may (map (map_message strip_message_images) l) l;
}.

#[export] Instance any_replacing : Replacing (λ _ _, True).
Proof. by split. Qed.

Record behaves (may : list entry → list entry → Prop) (w : world) : Prop := Behaves {
  behaves_compact l l' snapshot : wo_compact w l = Some (Some l', snapshot) → may l' l;
  behaves_recompact l l' snapshot : wo_recompact w l = Some (Some l', snapshot) → may l' l;
  behaves_reactive l l' snapshot : wo_reactiveCompact w l = Some (Some l', snapshot) → may l' l;
  behaves_results l p b l' o : wo_applyToolResults w l p b = Some (l', o) → may l' l;
}.

Lemma behaves_any w : behaves (λ _ _, True) w.
Proof. by split. Qed.

Class Allows (L : law) (may : list entry → list entry → Prop) := {
  allows_guards f : spec L (update (on_guards f));
  allows_breaker f : spec L (update (on_breaker f));
  allows_repair f : spec L (update (on_repair f));
  allows_settings f : spec L (update (on_settings f));
  allows_account f : (∀ a, at_usage (f a) = at_usage a) → spec L (update (on_account f));
  allows_final f : spec L (update (on_conversation (λ c, with_final (f c) c)));
  allows_messages f s : may (f (messages_of s)) (messages_of s) → law_next L s [] (on_conversation (on_messages f) s);
  allows_act a : is_plain a = true → spec L (perform a);
  allows_retry A reason : spec L (_ ← continued reason; continue_loop : M A);
  allows_prompt A w prompt : spec L (retry_with w prompt : M A);
  allows_synthetic A w prompt f :
    spec L (_ ← pushTransientSyntheticPrompt w prompt; _ ← update (on_settings f); retry : M A);
  allows_fail A status stop structured error : spec L (fail_turn status stop structured error : M A);
  allows_complete A type stop turns structured errors errored s :
    type ≠ RError →
    outcome_law L s (complete (createTurnResult type stop turns structured errors s) errored s : list act * outcome A);
}.

(** What a law has to allow besides, for whole iterations. *)
Class AllowsCalls (L : law) := {
  allows_calls a : is_call a = true → spec L (perform a);
  allows_usage f : spec L (update (on_account f));
  allows_expire : spec L expireConsumedTransientPrompts;
}.

Lemma outcome_perform {A} (L : law) a (m : M A) s :
  law_next L s [a] s → outcome_law L s (m s) → outcome_law L s ((_ ← perform a; m) s).
Proof. intros Ha Hm. by eapply outcome_then. Qed.

Section Stages.
Context (L : law) {may : list entry → list entry → Prop} `{!Replacing may} `{!Allows L may}.
Context `{ModelLimits} `{TextToolParser} `{LoopHost} (config : loop_config).

#[local] Hint Extern 1 (spec L (update _)) =>
  first [ apply (allows_guards (may := may)) | apply (allows_breaker (may := may)) | apply (allows_repair (may := may))
        | apply (allows_settings (may := may)) | apply (allows_final (may := may))
        | apply (allows_account (may := may)); reflexivity ] : spec.
#[local] Hint Extern 1 (spec L (perform _)) => apply (allows_act (may := may)); reflexivity : spec.
#[local] Hint Extern 1 (spec L (yield _)) => apply (allows_act (may := may)); reflexivity : spec.
#[local] Hint Extern 1 (spec L (continued _)) => apply (allows_act (may := may)); reflexivity : spec.
#[local] Hint Extern 1 (spec L (fail_turn _ _ _ _)) => apply (allows_fail (may := may)) : spec.
#[local] Hint Extern 1 (spec L (retry_with _ _)) => apply (allows_prompt (may := may)) : spec.
#[local] Hint Extern 1 (spec L (continued _ ≫= _)) => apply (allows_retry (may := may)) : spec.

Lemma stage_messages f : (∀ l, may (f l) l) → spec L (update (on_conversation (on_messages f))).
Proof. intros Hf. apply spec_update. intros s. by apply allows_messages. Qed.

Lemma stage_push l : spec L (push_messages l).
Proof. apply stage_messages. intros entries. apply may_plain. Qed.

Lemma stage_pop : spec L pop_message.
Proof. apply stage_messages, may_removelast. Qed.

Lemma stage_strip : spec L strip_error_pair.
Proof. apply stage_messages, may_strip. Qed.

Lemma stage_truncate q : spec L (truncate_messages q).
Proof. apply stage_messages, may_truncate. Qed.

Lemma stage_retry {A} : spec L (retry : M A).
Proof. apply allows_retry. Qed.

Lemma stage_finish {A} type stop structured errors errored :
  type ≠ RError → spec L (finish type stop structured errors errored : M A).
Proof. intros Ht. apply spec_bind_reads. intros s. by apply allows_complete. Qed.

Lemma stage_run_repair {A} (f : large_file_repair → A * large_file_repair) : spec L (run_repair f).
Proof. apply spec_bind; [apply spec_reads|intros ?]. apply spec_bind; [apply allows_repair|intros _]. apply spec_ret. Qed.

Lemma outcome_set l s : may l (messages_of s) → outcome_law L s (set_messages l s).
Proof. intros Hl. by apply (allows_messages (λ _, l)). Qed.

#[local] Hint Resolve stage_push stage_pop stage_strip stage_truncate stage_retry stage_run_repair : spec.
#[local] Hint Extern 1 (spec L (finish _ _ _ _ _)) => apply stage_finish; discriminate : spec.

Lemma stage_abort {A} surface : spec L (abort_turn surface : M A).
Proof. unfold abort_turn. spec_auto. Qed.

Lemma stage_check aborted surface : spec L (check_abort aborted surface).
Proof. pose proof (@stage_abort unit). unfold check_abort. spec_auto. Qed.

#[local] Hint Resolve stage_abort stage_check : spec.

Lemma stage_continue {A} w d strip : spec L (continueWithSyntheticPrompt w d strip : M A).
Proof.
  destruct d as [prompt purpose how|reason]; [|apply allows_fail]. cbn [continueWithSyntheticPrompt].
  apply spec_bind; [|intros _; apply allows_synthetic]. apply spec_when. destruct how as [[]|]; [|apply stage_strip|apply spec_ret].
  apply stage_messages. intros l. destruct (last l) as [e|]; [|apply may_refl].
  case_bool_decide; [apply may_removelast|apply may_refl].
Qed.

Lemma stage_compact_before w : behaves may w → spec L (compact_before w).
Proof.
  intros Hw. apply spec_bind_reads. intros s.
  destruct (wo_compact w (messages_of s)) as [[[l|] snapshot]|] eqn:E; [|apply (spec_ret L)..].
  apply outcome_bind; [|intros _; apply spec_ret].
  apply outcome_bind; [|intros _; by apply allows_act]. apply outcome_set. by eapply (behaves_compact may).
Qed.

Lemma stage_compact_routed w preRouting : behaves may w → spec L (compact_routed w preRouting).
Proof.
  intros Hw. unfold compact_routed. destruct (wo_decision w) as [provider model].
  destruct (limit_of _ _ _) as [n|]; [|apply spec_ret]. destruct (n =? preRouting); [apply spec_ret|].
  apply spec_bind_reads. intros s.
  destruct (wo_recompact w (messages_of s)) as [[compacted snapshot]|] eqn:E; [|apply (spec_ret L)].
  apply outcome_bind; [|intros _; spec_auto]. destruct compacted as [l|]; [|apply (spec_ret L)].
  apply outcome_bind; [|intros _; by apply allows_act]. apply outcome_set. by eapply (behaves_recompact may).
Qed.

#[local] Hint Resolve stage_continue stage_compact_before stage_compact_routed : spec.

Lemma stage_prepare w :
  behaves may w → (∀ pending emitted, spec L (send_request config w pending emitted)) → spec L (prepare config w).
Proof.
  intros Hw Hsend. unfold prepare. repeat first [done | solve [auto with spec] | spec_step].
Qed.

(** A request that may be made in any state. *)
Lemma stage_send w pending emitted :
  (∀ provider model cap entries, spec L (perform (CallModel provider model cap entries))) →
  spec L (send_request config w pending emitted).
Proof.
  intros Hcall. unfold send_request. destruct (wo_decision w) as [provider model].
  repeat first [by apply Hcall | solve [auto with spec] | spec_step].
Qed.

Lemma stage_accept m : spec L (accept_reply m).
Proof. unfold accept_reply. spec_auto. Qed.

Lemma stage_keep_partial `{!AllowsCalls L} reply : spec L (keep_partial reply).
Proof. pose proof stage_accept. pose proof allows_expire. pose proof allows_usage. unfold keep_partial. spec_auto. Qed.

Lemma stage_call_model `{!AllowsCalls L} w : spec L (call_model config w).
Proof.
  pose proof stage_keep_partial as Hkeep. unfold call_model.
  repeat first [assumption | by apply Hkeep | by apply allows_calls | solve [auto with spec] | spec_step].
Qed.

Lemma stage_take_reply `{!AllowsCalls L} reply : spec L (take_reply config reply).
Proof. pose proof allows_expire. pose proof allows_usage. unfold take_reply. spec_auto. Qed.

Lemma stage_retry_with {A} w prompt : spec L (retry_with w prompt : M A).
Proof. apply allows_prompt. Qed.

Lemma stage_resume {A} w prompt (exhausted : M A) :
  spec L exhausted → spec L (resume w prompt exhausted).
Proof. unfold resume. intros. spec_auto. Qed.

Lemma stage_bump {A} w before (otherwise : M A) :
  spec L before → spec L otherwise → spec L (bump_output config w before otherwise).
Proof. unfold bump_output, set_cap. intros. spec_auto. Qed.

Lemma stage_raise w reason : spec L (raise_empty_cap config w reason).
Proof. unfold raise_empty_cap, set_cap. spec_auto. Qed.

Lemma stage_empty w reason exhausted :
  spec L exhausted → spec L (empty_guard config w reason exhausted).
Proof. pose proof stage_raise. unfold empty_guard, succeed. intros. spec_auto. Qed.

Ltac stage_auto :=
  repeat first [ done | assumption | solve [auto with spec] | apply stage_resume | apply stage_bump
               | apply stage_empty | spec_step ].

Lemma stage_partial w reply : spec L (partial_text_stage w reply).
Proof. unfold partial_text_stage. stage_auto. Qed.

Lemma stage_repaired w reply calls : spec L (repaired_stage config w reply calls).
Proof. unfold repaired_stage. stage_auto. Qed.

Lemma stage_empty_stage w reply m calls : spec L (empty_stage config w reply m calls).
Proof. unfold empty_stage, succeed. stage_auto. Qed.

Lemma stage_set_caps w target n hard : spec L (set_attempt_caps w target n hard).
Proof. unfold set_attempt_caps, set_cap. spec_auto. Qed.

#[local] Hint Resolve stage_set_caps : spec.

Lemma stage_compact_and_retry w target maxContext maxOutput reason :
  behaves may w → spec L (compact_and_retry config w target maxContext maxOutput reason).
Proof.
  intros Hw. unfold compact_and_retry.
  apply spec_bind; [apply spec_reads|intros previousContext].
  apply spec_bind; [unfold set_cap; spec_auto|intros _]. apply spec_bind; [spec_auto|intros _].
  apply spec_bind; [apply stage_strip|intros _]. apply spec_bind_reads. intros s.
  apply outcome_bind; [|intros _; spec_auto].
  destruct (wo_reactiveCompact w (messages_of s)) as [[[l|] snapshot]|] eqn:E; [|apply stage_truncate..].
  apply outcome_set. by eapply (behaves_reactive may).
Qed.

Lemma stage_reactive w e : behaves may w → spec L (reactive_stage config w e).
Proof.
  intros Hw. pose proof (λ target c o r, stage_compact_and_retry w target c o r Hw).
  assert (spec L (update (on_conversation (on_messages (map (map_message strip_message_images)))))).
  { apply stage_messages, may_images. }
  unfold reactive_stage, adjust_output. stage_auto.
Qed.

Lemma stage_error w reply m calls : behaves may w → spec L (error_stage config w reply m calls).
Proof.
  intros Hw. pose proof (λ e, stage_reactive w e Hw).
  unfold error_stage, answer_failed_calls, json_stage. stage_auto.
Qed.

Lemma stage_no_calls {A} w reply m : spec L (no_calls_stage config w reply m : M A).
Proof. unfold no_calls_stage, cut_text_stage, unparsed_stage, succeed. stage_auto. Qed.

Lemma stage_report r : spec L (yield (ToolResultEvent r)) → spec L (report_result r).
Proof. intros Hr. unfold report_result. stage_auto. Qed.

Lemma stage_append w results : behaves may w → spec L (append_results w results).
Proof.
  intros Hw. apply spec_bind_reads. intros s. apply outcome_bind; [|intros appended; spec_auto].
  destruct (wo_applyToolResults w _ _ _) as [[l appended]|] eqn:E.
  - apply outcome_bind; [|intros _; apply spec_ret]. apply outcome_set. by eapply (behaves_results may).
  - apply (spec_bind L); [apply stage_push|intros _; apply spec_ret].
Qed.

Lemma stage_breaker w results : spec L (breaker_stage w results).
Proof. unfold breaker_stage, repair_stage. stage_auto. Qed.

Lemma stage_next_turn {A} : spec L (next_turn config : M A).
Proof.
  assert (∀ n, spec L (_ ← update (on_account (with_turnCount n)); _ ← continued "next_turn"; continue_loop : M A)).
  { intros n. apply spec_bind; [by apply allows_account|intros _; apply allows_retry]. }
  unfold next_turn. apply spec_bind; [apply spec_reads|intros n].
  destruct (lc_maxTurns config) as [maxTurns|]; [|done]. destruct (_ && _); [|done].
  apply spec_bind_reads. intros s. apply outcome_perform; [by apply (allows_act (Yield (AgentStatus _)))|].
  by apply allows_complete.
Qed.

#[local] Hint Resolve stage_partial stage_repaired stage_empty_stage stage_error stage_no_calls stage_append
  stage_report stage_breaker stage_next_turn : spec.

(** The end of a turn with calls. *)
Definition turn_end {A} (w : world) (results : list tool_result) (decision : option repair_decision) : M A :=
  _ ← append_results w results;
  _ ← repair_stage w decision;
  _ ← match findToolLifecycleBlock results with
      | Some reason => fail_turn "lifecycle_blocked" "tool_error" true (AgentError "agent_unsupported_feature" reason)
      | None => mret tt
      end;
  _ ← breaker_stage w results;
  structured ← reads (λ s, at_structuredOutput (ls_account s));
  _ ← when (lc_stopOnStructuredOutput config && bool_decide (is_Some structured))
        (_ ← yield (AgentStatus "structured_output_completed"); succeed true false);
  next_turn config.

Lemma stage_turn_end {A} w results decision : behaves may w → spec L (turn_end w results decision : M A).
Proof. intros Hw. unfold turn_end, repair_stage, succeed. stage_auto. Qed.

Lemma stage_calls {A} w reply calls :
  behaves may w → (∀ a, is_tool a = true → spec L (perform a)) → spec L (calls_stage config w reply calls : M A).
Proof.
  intros Hw Htools. pose proof (λ b, Htools (ExecuteTools calls b) eq_refl).
  assert (∀ r, spec L (yield (ToolResultEvent r))) as Hreport by (intros r; by apply Htools).
  unfold calls_stage, run_tools, pair_results, repair_stage, succeed. stage_auto.
Qed.

(** What follows the reply of a model. *)
Definition after_reply (w : world) (reply : assembled) (taken : message * list tool_call) : M unit :=
  let '(m, calls) := taken in
  _ ← partial_text_stage w reply;
  _ ← repaired_stage config w reply calls;
  _ ← empty_stage config w reply m calls;
  _ ← push_messages [m];
  _ ← yield (AssistantMessage m);
  _ ← perform (Durable m);
  _ ← error_stage config w reply m calls;
  if bool_decide (calls = []) then no_calls_stage config w reply m else calls_stage config w reply calls.

Lemma stage_after w reply taken :
  behaves may w → (∀ a, is_tool a = true → spec L (perform a)) → spec L (after_reply w reply taken).
Proof.
  intros Hw Htools. pose proof (λ calls, @stage_calls unit w reply calls Hw Htools).
  unfold after_reply. stage_auto.
Qed.

Lemma stage_iteration `{!AllowsCalls L} w :
  behaves may w → (∀ a, is_tool a = true → spec L (perform a)) → spec L (iteration config w).
Proof.
  intros Hw Htools. apply spec_bind; [apply stage_prepare; [done|intros ??; by apply stage_send; intros; apply allows_calls]|intros _].
  apply spec_bind; [apply stage_call_model|intros reply]. apply spec_bind; [apply stage_take_reply|intros taken].
  by apply stage_after.
Qed.
End Stages.

(** ** The order of events *)

Definition no_end (acts : list act) : Prop := Forall (λ a, is_end a = false) acts.

(** How a run ends: errors are announced, the turn is captured and completed. *)
Definition ending (r : turn_result) (errored : bool) : list act :=
  match tu_type r with RError => map (λ e, Yield (TurnFailed e)) (tu_errors r) | _ => [] end
  ++ [CaptureTurn errored; Yield (TurnCompleted r)].

Definition ends_turn (acts : list act) (r : turn_result) : Prop :=
  ∃ pre errored, no_end pre ∧ acts = pre ++ ending r errored ∧
    (tu_type r = RError → errored = true ∧ ∃ e, tu_errors r = [e]).

Definition ends_continued (acts : list act) : Prop :=
  ∃ pre reason, no_end pre ∧ acts = pre ++ [Yield (TurnContinued reason)].

Lemma no_end_app a b : no_end a → no_end b → no_end (a ++ b).
Proof. apply Forall_app_2. Qed.

Program Definition event_law : law := {|
  law_next _ acts _ := no_end acts;
  law_again _ acts _ := ends_continued acts;
  law_done _ acts r _ := ends_turn acts r;
|}.
Next Obligation. constructor. Qed.
Next Obligation. intros. by apply no_end_app. Qed.
Next Obligation.
  intros s a t b u Ha (pre & reason & Hp & ->). exists (a ++ pre), reason.
  split; [by apply no_end_app|by rewrite app_assoc].
Qed.
Next Obligation.
  intros s a t b r u Ha (pre & errored & Hp & -> & Hr). exists (a ++ pre), errored.
  split; [by apply no_end_app|by rewrite app_assoc].
Qed.

#[export] Instance event_allows : Allows event_law (λ _ _, True).
Proof.
  assert (∀ f, spec event_law (update f)) as Hupdate by (intros f; apply spec_update; constructor).
  assert (∀ A reason, spec event_law (_ ← continued reason; continue_loop : M A)) as Hretry.
  { intros A reason s. exists [], reason. by split; [constructor|]. }
  split; auto.
  - intros f s _. constructor.
  - intros a Ha. apply spec_perform. intros ?. by destruct a as [[]| | | |]; repeat constructor.
  - intros A w prompt. apply spec_bind; [apply Hupdate|intros _; apply Hretry].
  - intros A w prompt f. do 2 (apply spec_bind; [apply Hupdate|intros _]). apply Hretry.
  - intros A status stop structured error s. exists [Yield (AgentStatus status)], true.
    split; [by repeat constructor|]. split; [done|]. intros _. split; [done|]. by exists error.
  - intros A type stop turns structured errors errored s Hr. exists [], errored. split; [constructor|]. split; [|done].
    unfold ending. by destruct type.
Qed.

#[export] Instance event_allows_calls : AllowsCalls event_law.
Proof.
  split.
  { intros a Ha. apply spec_perform. intros ?. by destruct a as [[]| | | |]; repeat constructor. }
  all: intros; apply spec_update; constructor.
Qed.

Lemma event_iteration `{ModelLimits} `{TextToolParser} `{LoopHost} config w : spec event_law (iteration config w).
Proof.
  apply (stage_iteration event_law config w (behaves_any w)).
  intros a Ha. apply spec_perform. intros ?. by destruct a as [[]| | | |]; repeat constructor.
Qed.
