(* ===== verification/AgentTermination.v ===== *)
(** * The turn loop ends

    A measure of the state that every retry decreases: the turns that are left
    and what the guards, the repair of large files and the circuit breaker
    still allow.  The two exceptions are answers of the context runtime to a
    model error, truncating the history and stripping images, which no guard
    of the loop counts. *)

From Stdlib Require Import QArith.
From S2P Require Import Prelude JsValue PermissionRules RouterTypes RouterMedia MessagePairs MessageProjector.
From S2P Require Import ContextBudget AgentAssembly AgentRepair AgentCaps ToolNames AgentTurn AgentLaws.
Open Scope Z_scope.
Open Scope nat_scope.

Definition unused (b : bool) : nat := if b then 0 else 1.

Definition guards_left (g : guards) : nat :=
  (MAX_OUTPUT_RECOVERY_LIMIT - gd_maxOutputRecoveryCount g)
  + unused (gd_attemptedOutputRetry g) + unused (gd_attemptedToolCallRetry g).

Definition repair_left (r : large_file_repair) : nat :=
  (MAX_PRE_DRAFT_REPAIR_ATTEMPTS - lf_preDraftAttempts r)
  + (MAX_POST_DRAFT_REPAIR_ATTEMPTS - lf_postDraftAttempts r)
  + (MAX_TRUNCATION_RECOVERIES - lf_truncationRecoveries r).

(** What is never given back during a run. *)
Definition run_left (g : guards) : nat :=
  (MAX_JSON_SELF_CORRECT_RETRIES - gd_jsonSelfCorrectCount g) + unused (gd_attemptedCompact g).

Section Measure.
Context (maxTurns : Z).

Definition left (s : loop_state) : nat :=
  54 * Z.to_nat (maxTurns - at_turnCount (ls_account s))
  + guards_left (ls_guards s) + run_left (ls_guards s) + unused (br_usedGracePeriod (ls_breaker s))
  + repair_left (ls_repair s).

#[local] Arguments left : simpl never.

(** No retry for free, and retries that cost nothing. *)
Program Definition lt_law : law := {|
  law_next s _ s' := left s' ≤ left s;
  law_again s _ s' := left s' < left s;
  law_done _ _ _ _ := True;
|}.
Solve All Obligations with (simpl; intros; lia).

Program Definition le_law : law := {|
  law_next s _ s' := left s' ≤ left s;
  law_again s _ s' := left s' ≤ left s;
  law_done _ _ _ _ := True;
|}.
Solve All Obligations with (simpl; intros; lia).

Lemma lt_le {A} (m : M A) : spec lt_law m → spec le_law m.
Proof. intros Hm s. specialize (Hm s). destruct (m s) as [acts [a s'|s'|r s']]; cbn in *; [done|lia|done]. Qed.

(** A computation that ends the iteration, whatever follows it. *)
Definition stops {A} (m : M A) : Prop := ∀ s acts a s', m s ≠ (acts, Next a s').

Lemma spec_bind_stops {A B} L (m : M A) (f : A → M B) : stops m → spec L m → spec L (m ≫= f).
Proof.
  intros Hs Hm s. specialize (Hm s). unfold mbind, loop_bind. destruct (m s) as [acts [a s'|s'|r s']] eqn:E; [|done|done].
  by apply Hs in E.
Qed.

Lemma stops_bind {A B} (m : M A) (f : A → M B) : (∀ a, stops (f a)) → stops (m ≫= f).
Proof.
  intros Hf s acts b s' He. apply bind_inv in He as [(a & s1 & acts1 & acts2 & _ & He & _)|[(s1 & _ & He)|(r & s1 & _ & He)]].
  - by apply Hf in He.
  - done.
  - done.
Qed.

Lemma stops_return {A} r : stops (return_result r : M A).
Proof. by intros s acts a s' [=]. Qed.

Lemma stops_continue {A} : stops (continue_loop : M A).
Proof. by intros s acts a s' [=]. Qed.

Lemma stops_retry {A} : stops (retry : M A).
Proof. apply stops_bind. intros _. apply stops_continue. Qed.

Lemma stops_finish {A} type stop structured errors errored :
  stops (finish type stop structured errors errored : M A).
Proof. repeat (apply stops_bind; intros ?). apply stops_return. Qed.

Lemma stops_fail {A} status stop structured error : stops (fail_turn status stop structured error : M A).
Proof. repeat (apply stops_bind; intros ?). apply stops_return. Qed.

Lemma stops_retry_with {A} w prompt : stops (retry_with w prompt : M A).
Proof. apply stops_bind. intros _. apply stops_retry. Qed.

Lemma stops_synthetic {A} w d strip : stops (continueWithSyntheticPrompt w d strip : M A).
Proof.
  destruct d; [|apply stops_fail]. repeat (apply stops_bind; intros ?). apply stops_continue.
Qed.

(** *** Primitive parts *)

Lemma le_update f : (∀ s, left (f s) ≤ left s) → spec le_law (update f).
Proof. intros Hf s. apply Hf. Qed.
Lemma lt_update f : (∀ s, left (f s) ≤ left s) → spec lt_law (update f).
Proof. intros Hf s. apply Hf. Qed.

Lemma le_perform a : spec le_law (perform a).
Proof. intros s. cbn. lia. Qed.
Lemma lt_perform a : spec lt_law (perform a).
Proof. intros s. cbn. lia. Qed.

Lemma lt_return {A} r : spec lt_law (return_result r : M A).
Proof. intros s. exact I. Qed.

Lemma lt_finish {A} type stop structured errors errored :
  spec lt_law (finish type stop structured errors errored : M A).
Proof. intros s. exact I. Qed.

Lemma lt_fail {A} status stop structured error : spec lt_law (fail_turn status stop structured error : M A).
Proof. intros s. exact I. Qed.

Lemma le_retry {A} : spec le_law (retry : M A).
Proof. intros s. apply Nat.le_refl. Qed.

Lemma le_retry_with {A} w prompt : spec le_law (retry_with w prompt : M A).
Proof. intros s. apply Nat.le_refl. Qed.

Lemma le_synthetic {A} w d strip : spec le_law (continueWithSyntheticPrompt w d strip : M A).
Proof.
  intros s. destruct d as [prompt purpose [[]|]|reason]; [| | |exact I]; destruct strip; apply Nat.le_refl.
Qed.

Lemma lt_stop {A} w reason strip : spec lt_law (continueWithSyntheticPrompt w (RepairStop reason) strip : M A).
Proof. intros s. exact I. Qed.

(** Something was spent before a retry. *)
Lemma lt_spend {A} f (m : M A) s :
  left (f s) < left s → spec le_law m → outcome_law lt_law s ((_ ← update f; m) s).
Proof.
  intros Hf Hm. specialize (Hm (f s)). unfold mbind, loop_bind, update.
  destruct (m (f s)) as [acts [a s'|s'|r s']]; cbn in *; [lia|lia|done].
Qed.

Lemma lt_keep {A} f (m : M A) s :
  left (f s) ≤ left s → spec lt_law m → outcome_law lt_law s ((_ ← update f; m) s).
Proof.
  intros Hf Hm. specialize (Hm (f s)). unfold mbind, loop_bind, update.
  destruct (m (f s)) as [acts [a s'|s'|r s']]; cbn in *; [lia|lia|done].
Qed.

(** The same for any first part, by its outcome. *)
Lemma lt_first {A B} (m : M A) (f : A → M B) s acts a s1 :
  m s = (acts, Next a s1) → left s1 ≤ left s → outcome_law lt_law s1 (f a s1) →
  outcome_law lt_law s ((m ≫= f) s).
Proof.
  intros Hm Hl Ho. unfold mbind, loop_bind. rewrite Hm. destruct (f a s1) as [more [b s'|s'|r s']]; cbn in *; [lia|lia|done].
Qed.

(** A repair spends an attempt when it goes on. *)
Definition spends (f : large_file_repair → option repair_decision * large_file_repair) : Prop :=
  ∀ r, match f r with
       | (Some (RepairContinue _ _ _), r') => repair_left r' < repair_left r
       | (_, r') => repair_left r' ≤ repair_left r
       end.

Lemma lt_repair {A} f (g : option repair_decision → M A) :
  spends f → (∀ d, spec le_law (g (Some d))) → (∀ reason, spec lt_law (g (Some (RepairStop reason)))) →
  spec lt_law (g None) → spec lt_law (run_repair f ≫= g).
Proof.
  intros Hf Hle Hstop Hnone s. specialize (Hf (ls_repair s)).
  change (outcome_law lt_law s ((_ ← update (on_repair (λ r, (f r).2)); g (f (ls_repair s)).1) s)).
  destruct (f (ls_repair s)) as [d r'] eqn:Hfr.
  assert (left (on_repair (λ r, (f r).2) s) + repair_left (ls_repair s) = left s + repair_left r') as Hleft.
  { unfold left, on_repair. cbn. rewrite Hfr. cbn. lia. }
  destruct d as [[prompt purpose strip|reason]|].
  - apply lt_spend; [lia|apply Hle].
  - apply lt_keep; [lia|apply Hstop].
  - apply lt_keep; [lia|apply Hnone].
Qed.

Lemma repair_left_pending b r : repair_left (with_pending b r) = repair_left r.
Proof. done. Qed.

Lemma tryPreDraft_spends purpose strip r :
  match tryPreDraft purpose strip r with
  | (RepairContinue _ _ _, r') => repair_left r' < repair_left r
  | (_, r') => r' = r
  end.
Proof. unfold tryPreDraft. destruct (_ <=? _) eqn:Hn; [done|]. apply Nat.leb_gt in Hn. unfold repair_left. cbn -[Nat.sub]. lia. Qed.

Lemma tryPostDraft_spends purpose r :
  match tryPostDraft purpose r with
  | (RepairContinue _ _ _, r') => repair_left r' < repair_left r
  | (_, r') => r' = r
  end.
Proof. unfold tryPostDraft. destruct (_ <=? _) eqn:Hn; [done|]. apply Nat.leb_gt in Hn. unfold repair_left. cbn -[Nat.sub]. lia. Qed.

Lemma recordWrites_left results : ∀ r, repair_left (recordWrites results r) = repair_left r.
Proof.
  induction results as [|x results IH]; intros r; [done|].
  change (recordWrites (x :: results) r) with (recordWrites results (record_write r x)). rewrite IH.
  unfold record_write.
  destruct (tr_outcome x); [|done]. by destruct (names_write _).
Qed.

Lemma onInvalid_spends : spends onInvalidToolInput.
Proof.
  intros r. unfold onInvalidToolInput. destruct (negb _); [done|]. destruct (lf_wroteFile r).
  - pose proof (tryPostDraft_spends "large_file_invalid_input_after_write" r) as Hs.
    destruct (tryPostDraft _ _) as [[] ?]; [done|by subst].
  - pose proof (tryPreDraft_spends "large_file_invalid_input" StripErrorPair r) as Hs.
    destruct (tryPreDraft _ _ _) as [[] ?]; [done|by subst].
Qed.

Lemma onNoToolCalls_spends : spends onNoToolCalls.
Proof.
  intros r. unfold onNoToolCalls. destruct (_ || _); [done|].
  pose proof (tryPreDraft_spends "large_file_no_tool_call" StripAssistant r) as Hs.
  destruct (tryPreDraft _ _ _) as [[] ?]; [done|by subst].
Qed.

Lemma recover_spends calls : spends (recoverFromRepairedTruncation calls).
Proof.
  intros r. unfold recoverFromRepairedTruncation. destruct (negb _); [done|]. destruct (_ <=? _) eqn:Hn; [done|].
  apply Nat.leb_gt in Hn. unfold truncationRecovery. cbn [lf_wroteFile]. destruct (lf_wroteFile r);
    unfold repair_left; cbn -[Nat.sub]; lia.
Qed.

Lemma analyze_spends results truncated : spends (analyzeToolResults results truncated).
Proof.
  intros r. unfold analyzeToolResults. pose proof (recordWrites_left results r) as Hr. revert Hr.
  generalize (recordWrites results r). intros r1 Hr. destruct (lf_wroteFile r1).
  - destruct (existsb _ _).
    + pose proof (tryPostDraft_spends "large_file_post_draft_repair" r1) as Hs.
      destruct (tryPostDraft _ _) as [[] r2]; [lia|subst; lia].
    + destruct (forallb _ _); rewrite ?repair_left_pending; lia.
  - destruct (existsb _ _).
    + pose proof (tryPreDraft_spends "large_file_pre_draft_repair" StripErrorPair (with_pending true r1)) as Hs.
      rewrite repair_left_pending in Hs.
      destruct (tryPreDraft _ _ _) as [[] r2]; [lia|subst; rewrite repair_left_pending; lia].
    + lia.
Qed.
(** *** Stages *)

#[local] Hint Resolve spec_ret spec_reads lt_perform lt_return lt_finish lt_fail lt_stop : spec.
#[local] Hint Resolve le_perform le_retry le_retry_with le_synthetic : spec.
#[local] Hint Extern 1 (spec lt_law (yield _)) => apply lt_perform : spec.
#[local] Hint Extern 1 (spec le_law (yield _)) => apply le_perform : spec.
#[local] Hint Extern 1 (spec lt_law (update (on_conversation _))) => apply lt_update; intros ?; apply Nat.le_refl : spec.
#[local] Hint Extern 1 (spec lt_law (update (on_settings _))) => apply lt_update; intros ?; apply Nat.le_refl : spec.
#[local] Hint Extern 1 (spec le_law (update (on_conversation _))) => apply le_update; intros ?; apply Nat.le_refl : spec.
#[local] Hint Extern 1 (spec le_law (update (on_settings _))) => apply le_update; intros ?; apply Nat.le_refl : spec.

Section Stages.
Context `{ModelLimits} `{TextToolParser} `{LoopHost} (config : loop_config).

Lemma lt_prepare w : spec lt_law (prepare config w).
Proof.
  unfold prepare, send_request, check_abort, abort_turn, compact_before, compact_routed, set_messages, continued. spec_auto.
Qed.

Lemma lt_usage f : (∀ a, at_turnCount (f a) = at_turnCount a) → spec lt_law (update (on_account f)).
Proof. intros Hf. apply lt_update. intros s. unfold left. cbn. rewrite Hf. lia. Qed.

Lemma lt_call_model w : spec lt_law (call_model config w).
Proof.
  unfold call_model, abort_turn, keep_partial, accept_reply, push_messages, expireConsumedTransientPrompts.
  repeat first [spec_step | solve [auto with spec] | by apply lt_usage].
Qed.

Lemma lt_take_reply reply : spec lt_law (take_reply config reply).
Proof. unfold take_reply, expireConsumedTransientPrompts. spec_auto; by apply lt_usage. Qed.

(** One more recovery is one less left. *)
Lemma left_recovery f s :
  gd_maxOutputRecoveryCount (ls_guards s) < MAX_OUTPUT_RECOVERY_LIMIT →
  (∀ g, guards_left (f g) ≤ guards_left g) → (∀ g, run_left (f g) = run_left g) →
  (∀ g, gd_maxOutputRecoveryCount (f g) = gd_maxOutputRecoveryCount g) →
  left (on_guards (λ g, count_recovery (f g)) s) < left s.
Proof.
  intros Hn Hf Hr Hc. unfold left, on_guards. cbn [ls_account ls_guards ls_breaker ls_repair].
  specialize (Hf (ls_guards s)). specialize (Hr (ls_guards s)). specialize (Hc (ls_guards s)).
  change (run_left (count_recovery (f (ls_guards s)))) with (run_left (f (ls_guards s))). rewrite Hr.
  unfold guards_left in *. cbn [gd_maxOutputRecoveryCount gd_attemptedOutputRetry gd_attemptedToolCallRetry count_recovery].
  rewrite Hc in *. lia.
Qed.

Lemma lt_resume {A} w prompt (exhausted : M A) :
  spec lt_law exhausted → spec lt_law (resume w prompt exhausted).
Proof.
  intros He. apply spec_bind_reads. intros s. destruct (_ <? _) eqn:Hn; [|apply He].
  apply Nat.ltb_lt in Hn. apply lt_spend; [|apply le_retry_with]. by apply (left_recovery id).
Qed.

Lemma lt_bump {A} w before (otherwise : M A) :
  spec le_law before → spec lt_law otherwise → spec lt_law (bump_output config w before otherwise).
Proof.
  intros Hb Ho. unfold bump_output. destruct (wo_decision w) as [provider model].
  apply spec_bind_reads. intros s. destruct (gd_attemptedOutputRetry (ls_guards s)) eqn:Hg; [apply Ho|].
  assert (left (on_guards attempted_output s) < left s) as Hlt.
  { unfold left, on_guards, guards_left, run_left. cbn -[Nat.mul Nat.sub]. rewrite Hg. cbn -[Nat.mul Nat.sub]. lia. }
  apply lt_spend; [done|]. pose proof (lt_le _ Ho). unfold set_cap. spec_auto.
Qed.

Lemma le_raise w reason : spec le_law (raise_empty_cap config w reason).
Proof. unfold raise_empty_cap, set_cap. spec_auto. Qed.

Lemma lt_empty w reason exhausted :
  spec lt_law exhausted → spec lt_law (empty_guard config w reason exhausted).
Proof.
  intros He. apply spec_bind_reads. intros s. set (n := recoveries s). destruct (0 <? n) eqn:Hz.
  - eapply lt_first; [reflexivity|apply Nat.le_refl|]. eapply lt_first; [reflexivity|done|].
    destruct (_ && _) eqn:Hb.
    + apply andb_prop in Hb as [_ Hn%Nat.ltb_lt]. apply lt_spend; [|pose proof le_raise; spec_auto].
      by apply (left_recovery id).
    + apply lt_keep; [apply Nat.le_refl|]. unfold succeed. spec_auto.
  - apply Nat.ltb_ge in Hz. eapply lt_first; [reflexivity|done|].
    destruct (gd_attemptedEmptyRetry (ls_guards s)); [apply He|]. apply lt_spend; [|pose proof le_raise; spec_auto].
    apply (left_recovery attempted_empty); [|done..]. unfold n, recoveries in Hz. unfold MAX_OUTPUT_RECOVERY_LIMIT. lia.
Qed.

Ltac lt_auto :=
  repeat first [ done | assumption | solve [auto with spec] | apply lt_resume | apply lt_bump | apply lt_empty
               | spec_step ].

Lemma lt_partial w reply : spec lt_law (partial_text_stage w reply).
Proof. unfold partial_text_stage. lt_auto. Qed.

Lemma lt_repaired w reply calls : spec lt_law (repaired_stage config w reply calls).
Proof.
  unfold repaired_stage. apply spec_when, lt_repair.
  - apply recover_spends.
  - intros d. apply le_synthetic.
  - intros reason. apply lt_stop.
  - lt_auto.
Qed.

Lemma lt_empty_stage w reply m calls : spec lt_law (empty_stage config w reply m calls).
Proof. unfold empty_stage, succeed. lt_auto. Qed.

(** The context runtime neither truncates nor strips images. *)
Definition settled (w : world) : Prop :=
  ∀ e entries b, match wo_recover w e entries b with
                 | Some (TruncateHeadAndRetry _ _) | Some (StripImagesAndRetry _) => False
                 | _ => True
                 end.

Lemma left_attempted_compact s :
  gd_attemptedCompact (ls_guards s) = false → left (on_guards attempted_compact s) < left s.
Proof. intros Hg. unfold left, on_guards, guards_left, run_left. cbn -[Nat.mul Nat.sub]. rewrite Hg. cbn -[Nat.mul Nat.sub]. lia. Qed.

Lemma left_attempted_output s :
  gd_attemptedOutputRetry (ls_guards s) = false → left (on_guards attempted_output s) < left s.
Proof.
  intros Hg. unfold left, on_guards, guards_left, run_left. cbn -[Nat.mul Nat.sub]. rewrite Hg.
  cbn -[Nat.mul Nat.sub]. lia.
Qed.

Lemma le_set_caps w target n hard : spec le_law (set_attempt_caps w target n hard).
Proof. unfold set_attempt_caps, set_cap. spec_auto. Qed.

Lemma le_attempted_compact : spec le_law (update (on_guards attempted_compact)).
Proof. apply le_update. intros s. unfold left, on_guards, guards_left, run_left. cbn -[Nat.mul Nat.sub]. lia. Qed.

Lemma lt_adjust w target n reason hard s :
  gd_attemptedOutputRetry (ls_guards s) = false →
  outcome_law lt_law s (adjust_output config w target n reason hard s).
Proof.
  intros Hg. apply lt_spend; [by apply left_attempted_output|]. pose proof le_set_caps.
  unfold strip_error_pair. spec_auto.
Qed.

Lemma lt_compact w target maxContext maxOutput reason s :
  gd_attemptedCompact (ls_guards s) = false →
  outcome_law lt_law s (compact_and_retry config w target maxContext maxOutput reason s).
Proof.
  intros Hg.
  (* nothing before the flag is set touches it *)
  assert (∀ A (m : M A) (f : A → M unit),
    (∀ t, match m t with (_, Next _ t') => ls_guards t' = ls_guards t ∧ left t' ≤ left t | _ => False end) →
    (∀ a t, gd_attemptedCompact (ls_guards t) = false → outcome_law lt_law t (f a t)) →
    ∀ t, gd_attemptedCompact (ls_guards t) = false → outcome_law lt_law t ((m ≫= f) t)) as Hseq.
  { intros A m f Hm Hf t Ht. specialize (Hm t). destruct (m t) as [acts [x t'|t'|r t']] eqn:E; [|done|done].
    destruct Hm as [Heq Hl]. eapply lt_first; [done|done|]. apply Hf. by rewrite Heq. }
  unfold compact_and_retry. revert s Hg.
  apply Hseq; [by intros t|intros previousContext].
  apply Hseq; [intros t; destruct maxContext; by split|intros _].
  apply Hseq; [|intros _].
  { intros t. destruct maxOutput as [n|]; [|by split].
    unfold set_attempt_caps, set_cap. cbn. by destruct (negb _). }
  apply Hseq; [by intros t|intros _].
  apply Hseq; [by intros t|intros entries].
  apply Hseq; [intros t; destruct (wo_reactiveCompact w entries) as [[[l|] snapshot]|]; by split|intros _].
  intros t Ht. apply lt_spend; [by apply left_attempted_compact|apply le_retry].
Qed.

Lemma lt_reactive w e : settled w → spec lt_law (reactive_stage config w e).
Proof.
  intros Hw. apply spec_bind_reads. intros s. do 2 (eapply lt_first; [reflexivity|done|]).
  specialize (Hw e (messages_of s) (gd_attemptedCompact (ls_guards s))).
  destruct (wo_recover w e _ _) as [[]|]; try done; try apply (spec_ret lt_law).
  - destruct (gd_attemptedCompact (ls_guards s)) eqn:Hg; [apply (spec_ret lt_law)|by apply lt_compact].
  - destruct (gd_attemptedOutputRetry (ls_guards s)) eqn:Hg; [apply (spec_ret lt_law)|by apply lt_adjust].
Qed.

Lemma le_reactive w e : spec le_law (reactive_stage config w e).
Proof.
  pose proof le_set_caps. pose proof le_attempted_compact.
  unfold reactive_stage, adjust_output, compact_and_retry, set_cap, strip_error_pair, truncate_messages, set_messages.
  spec_auto. apply le_update. intros s. unfold left, on_guards, guards_left, run_left. cbn -[Nat.mul Nat.sub]. lia.
Qed.

(** *** Answers without and with calls *)

Lemma lt_json w e m : spec lt_law (json_stage config w e m).
Proof.
  apply spec_bind_reads. intros s. destruct (_ && _) eqn:Hb; [|apply (spec_ret lt_law)].
  apply andb_prop in Hb as [_ Hn%Nat.ltb_lt]. apply lt_spend; [|apply le_retry_with].
  unfold left, on_guards, guards_left, run_left. cbn -[Nat.mul Nat.sub]. lia.
Qed.

Lemma lt_unparsed w reply text : spec lt_law (unparsed_stage config w reply text).
Proof.
  apply spec_when. apply spec_bind_reads. intros s.
  destruct (gd_attemptedToolCallRetry (ls_guards s)) eqn:Hg; [apply lt_perform|].
  apply lt_spend; [|apply le_retry_with].
  unfold left, on_guards, guards_left, run_left. cbn -[Nat.mul Nat.sub]. rewrite Hg. cbn -[Nat.mul Nat.sub]. lia.
Qed.

Lemma lt_empties n : spec lt_law (update (on_guards (with_empties n))).
Proof. apply lt_update. intros s. apply Nat.le_refl. Qed.

Lemma lt_no_calls {A} w reply m : spec lt_law (no_calls_stage config w reply m : M A).
Proof.
  unfold no_calls_stage. pose proof lt_empties.
  apply spec_bind. { apply spec_when. unfold pop_message. lt_auto. }
  intros _. apply spec_bind. { unfold cut_text_stage. lt_auto. }
  intros _. apply lt_repair; [apply onNoToolCalls_spends| | |].
  - intros d. apply spec_bind_stops; [apply stops_synthetic|apply le_synthetic].
  - intros reason. apply spec_bind_stops; [apply stops_synthetic|apply lt_stop].
  - pose proof lt_unparsed. unfold push_messages, succeed. lt_auto.
Qed.

Lemma lt_report r : spec lt_law (report_result r).
Proof. unfold report_result. spec_auto; by apply lt_usage. Qed.

Lemma lt_pair calls results : spec lt_law (pair_results calls results).
Proof. unfold pair_results. spec_auto. apply lt_update. intros s. apply Nat.le_refl. Qed.

Lemma lt_append w results : spec lt_law (append_results w results).
Proof. unfold append_results, set_messages, push_messages. spec_auto. Qed.

(** A turn that was not a failure gives back at most 53. *)
Definition nearly (s : loop_state) (result : list act * outcome unit) : Prop :=
  match result with
  | (_, Next _ s') => left s' ≤ left s + 53 ∧ ls_account s' = ls_account s
  | (_, Again s') => left s' < left s
  | (_, Done _ _) => True
  end.

Lemma left_reset g b s :
  ls_account (on_guards g (on_breaker b s)) = ls_account s →
  guards_left (g (ls_guards s)) ≤ 52 → run_left (g (ls_guards s)) = run_left (ls_guards s) →
  left (on_guards g (on_breaker b s)) ≤ left s + 53.
Proof.
  intros _ Hg Hr. unfold left. cbn [ls_account ls_guards ls_breaker ls_repair on_guards on_breaker]. rewrite Hr.
  assert (unused (br_usedGracePeriod (b (ls_breaker s))) ≤ 1) by (unfold unused; destruct (br_usedGracePeriod _); lia).
  lia.
Qed.

Lemma lt_invalid_repair w pending :
  spec lt_law (when pending (decision ← run_repair onInvalidToolInput; repair_stage w decision)).
Proof.
  apply spec_when, lt_repair; [apply onInvalid_spends| | |].
  - intros d. apply le_synthetic.
  - intros reason. apply lt_stop.
  - apply spec_ret.
Qed.

Lemma nearly_count w fingerprint s :
  nearly s ((_ ← update (on_breaker (count_invalid fingerprint));
     count ← reads (λ s, br_sameInvalidCount (ls_breaker s));
     used ← reads (λ s, br_usedGracePeriod (ls_breaker s));
     when (MAX_SAME_INVALID_FINGERPRINT <=? count)
       (if (used : bool) then
          fail_turn "tool_error_loop" "tool_error" true
            (AgentError "agent_tool_error_loop"
               ("Terminated: " +:+ show_count count +:+ " consecutive turns with identical tool input validation failures (same tool + same error). The model appears stuck in a loop."))
        else _ ← update (on_breaker use_grace); retry_with w CIRCUIT_BREAKER_GRACE_PROMPT)) s).
Proof.
  unfold mbind, loop_bind, update, reads. set (b := count_invalid fingerprint (ls_breaker s)).
  change (ls_breaker (on_breaker (count_invalid fingerprint) s)) with b.
  assert (br_usedGracePeriod b = br_usedGracePeriod (ls_breaker s)
          ∨ br_sameInvalidCount b = 1 ∧ br_usedGracePeriod b = false) as Hb.
  { subst b. unfold count_invalid. case_bool_decide; [by left|by right]. }
  assert (unused (br_usedGracePeriod b) ≤ 1) as Hu by (unfold unused; destruct (br_usedGracePeriod b); lia).
  destruct (_ <=? br_sameInvalidCount b) eqn:Hc; cbn [when].
  - apply Nat.leb_le in Hc. destruct (br_usedGracePeriod b) eqn:Hg; [exact I|].
    destruct Hb as [Hb|[Hb _]]; [|rewrite Hb in Hc; unfold MAX_SAME_INVALID_FINGERPRINT in Hc; lia].
    change (left (on_breaker (λ _, use_grace b) s) < left s).
    unfold left. cbn [ls_account ls_guards ls_breaker ls_repair on_breaker]. rewrite <- Hb. cbn. lia.
  - split; [|done]. change (left (on_breaker (λ _, b) s) ≤ left s + 53).
    unfold left. cbn [ls_account ls_guards ls_breaker ls_repair on_breaker]. lia.
Qed.

Lemma nearly_reads {A} (g : loop_state → A) (k : A → M unit) s :
  nearly s (k (g s) s) → nearly s ((reads g ≫= k) s).
Proof. unfold mbind, loop_bind, reads. by destruct (k (g s) s). Qed.

Lemma nearly_then {A} (m : M A) (f : A → M unit) s :
  outcome_law lt_law s (m s) → (∀ acts a t, m s = (acts, Next a t) → ls_account t = ls_account s) →
  (∀ a t, nearly t (f a t)) → nearly s ((m ≫= f) s).
Proof.
  intros Hm Ha Hf. unfold mbind, loop_bind. destruct (m s) as [acts [a t|t|r t]]; [|done|done].
  specialize (Ha acts a t eq_refl). specialize (Hf a t). cbn in Hm.
  destruct (f a t) as [more [b u|u|r u]]; cbn in *; [|lia|done]. destruct Hf as [? ->]. split; [lia|done].
Qed.

Lemma invalid_repair_account w pending s acts a t :
  when pending (decision ← run_repair onInvalidToolInput; repair_stage w decision) s = (acts, Next a t) →
  ls_account t = ls_account s.
Proof.
  destruct pending; cbn [when]; [|by intros [= _ _ <-]].
  intros [(d & s1 & acts1 & acts2 & Hr & Hs & _)|[(s1 & _ & He)|(r & s1 & _ & He)]]%bind_inv; [|done|done].
  injection Hr as <- <- <-.
  destruct ((onInvalidToolInput (ls_repair s)).1) as [d|]; [by apply stops_synthetic in Hs|]. by injection Hs as [= _ _ <-].
Qed.

Lemma nearly_breaker w results s : nearly s (breaker_stage w results s).
Proof.
  unfold breaker_stage. destruct (_ && _).
  - apply nearly_reads, nearly_then.
    + apply lt_invalid_repair.
    + apply invalid_repair_account.
    + intros _ t. apply nearly_count.
  - cbn. split; [|done]. by apply left_reset.
Qed.

Lemma next_turn_spends {A} s :
  (∃ n, lc_maxTurns config = Some n ∧ n ≠ 0%Z ∧ n = maxTurns) →
  match (next_turn config : M A) s with
  | (_, Again s') => left s' + 54 ≤ left s
  | (_, Done _ _) => True
  | _ => False
  end.
Proof.
  intros (n & Hn & Hz & ->). unfold next_turn. rewrite Hn. unfold mbind at 1, loop_bind at 1, reads at 1.
  apply Z.eqb_neq in Hz. rewrite Hz. cbn [negb andb].
  destruct (Z.ltb_spec maxTurns (at_turnCount (ls_account s) + 1)) as [Hlt|Hge]; [exact I|].
  change (left (on_account (with_turnCount (at_turnCount (ls_account s) + 1)) s) + 54 ≤ left s).
  unfold left. cbn [ls_account ls_guards ls_breaker ls_repair on_account at_turnCount with_turnCount].
  set (t := at_turnCount (ls_account s)) in *. lia.
Qed.

Lemma lt_turn_end {A} w results :
  (∃ n, lc_maxTurns config = Some n ∧ n ≠ 0%Z ∧ n = maxTurns) →
  spec lt_law (_ ← breaker_stage w results;
    structured ← reads (λ s, at_structuredOutput (ls_account s));
    _ ← when (lc_stopOnStructuredOutput config && bool_decide (is_Some structured))
          (_ ← yield (AgentStatus "structured_output_completed"); succeed true false);
    next_turn config : M A).
Proof.
  intros Hn s. pose proof (nearly_breaker w results s) as Hb. unfold mbind at 1, loop_bind at 1.
  destruct (breaker_stage w results s) as [acts [[] t|t|r t]]; [|done|done]. cbn in Hb. destruct Hb as [Hb Ha].
  unfold mbind at 1, loop_bind at 1, reads.
  destruct (_ && _); cbn [when]; [exact I|].
  unfold mbind, loop_bind, mret, loop_ret. pose proof (@next_turn_spends A t Hn) as Ht.
  destruct (next_turn config t) as [more [x u|u|r u]]; cbn in *; [done|lia|done].
Qed.

Lemma lt_calls {A} w reply calls :
  (∃ n, lc_maxTurns config = Some n ∧ n ≠ 0%Z ∧ n = maxTurns) →
  spec lt_law (calls_stage config w reply calls : M A).
Proof.
  intros Hn. unfold calls_stage, check_abort, abort_turn, run_tools. pose proof lt_pair. pose proof lt_report. pose proof lt_append.
  apply spec_bind; [spec_auto|intros _]. apply spec_bind; [spec_auto|intros _].
  apply spec_bind; [spec_auto|intros results]. apply spec_bind; [spec_auto|intros _].
  apply spec_bind; [spec_auto|intros paired].
  assert (spec lt_law (update (on_account (add_denials (collectPermissionDenials paired))))) as Hd by by apply lt_usage.
  assert (spec lt_law (for_each paired report_result)) as Hr by by apply spec_for_each.
  apply lt_repair; [apply analyze_spends| | |].
  - intros d. apply spec_bind; [by apply lt_le|intros _]. apply spec_bind; [by apply lt_le|intros _].
    apply spec_bind; [by apply lt_le|intros _]. apply spec_bind_stops; [apply stops_synthetic|apply le_synthetic].
  - intros reason. apply spec_bind; [done|intros _]. apply spec_bind; [done|intros _].
    apply spec_bind; [done|intros _]. apply spec_bind_stops; [apply stops_synthetic|apply lt_stop].
  - apply spec_bind; [done|intros _]. apply spec_bind; [done|intros _]. apply spec_bind; [done|intros _].
    apply spec_bind; [apply spec_ret|intros _]. apply spec_bind; [spec_auto|intros _]. by apply lt_turn_end.
Qed.

(** *** The whole iteration *)

Lemma stops_next_turn {A} : stops (next_turn config : M A).
Proof.
  apply stops_bind. intros n. destruct (lc_maxTurns config) as [maxTurns'|]; [destruct (_ && _)|];
    repeat (apply stops_bind; intros ?); first [apply stops_return|apply stops_continue].
Qed.

Lemma stops_no_calls {A} w reply m : stops (no_calls_stage config w reply m : M A).
Proof.
  unfold no_calls_stage. repeat (apply stops_bind; intros ?). destruct (wo_stopHooks w) as [hooks [reason|]];
    repeat (apply stops_bind; intros ?); apply stops_return.
Qed.

Lemma stops_calls {A} w reply calls : stops (calls_stage config w reply calls : M A).
Proof. unfold calls_stage. do 14 (apply stops_bind; intros ?). apply stops_next_turn. Qed.

Lemma stops_iteration w : stops (iteration config w).
Proof.
  unfold iteration. do 3 (apply stops_bind; intros ?). match goal with |- context [let '(_, _) := ?p in _] => destruct p end.
  do 7 (apply stops_bind; intros ?). case_bool_decide; [apply stops_no_calls|apply stops_calls].
Qed.

Context (Hmax : ∃ n, lc_maxTurns config = Some n ∧ n ≠ 0%Z ∧ n = maxTurns).

(** An iteration has any law that covers what spends something and the answer
    to a model error. *)
Lemma iteration_law L w :
  (∀ A (m : M A), spec lt_law m → spec L m) → (∀ e, spec L (reactive_stage config w e)) →
  spec L (iteration config w).
Proof.
  intros HL Hr. unfold iteration.
  apply spec_bind; [apply HL, lt_prepare|intros _]. apply spec_bind; [apply HL, lt_call_model|intros reply].
  apply spec_bind; [apply HL, lt_take_reply|intros [m calls]].
  apply spec_bind; [apply HL, lt_partial|intros _]. apply spec_bind; [apply HL, lt_repaired|intros _].
  apply spec_bind; [apply HL, lt_empty_stage|intros _].
  apply spec_bind; [apply HL; unfold push_messages; spec_auto|intros _].
  apply spec_bind; [apply HL, lt_perform|intros _]. apply spec_bind; [apply HL, lt_perform|intros _].
  apply spec_bind; [|intros _; case_bool_decide; [apply HL, lt_no_calls|by apply HL, lt_calls]].
  unfold error_stage. destruct (ad_error reply) as [e|]; [|apply spec_ret].
  apply spec_bind; [apply HL; unfold answer_failed_calls, push_messages; spec_auto|intros _].
  apply spec_bind; [apply HL, lt_json|intros _]. apply spec_bind; [apply Hr|intros _].
  apply spec_bind; [apply HL, spec_when, lt_bump; [unfold strip_error_pair; spec_auto|lt_auto]|intros _].
  apply HL. destruct (classifyModelError _). spec_auto.
Qed.

Lemma lt_iteration w : settled w → spec lt_law (iteration config w).
Proof. intros Hw. apply iteration_law; [done|]. intros e. by apply lt_reactive. Qed.

Lemma le_iteration w : spec le_law (iteration config w).
Proof. apply iteration_law; [intros A m; apply lt_le|]. apply le_reactive. Qed.

(** At most [k] of the worlds let the context runtime truncate or strip. *)
Inductive patient : nat → list world → Prop :=
  | patient_nil k : patient k []
  | patient_settled k w worlds : settled w → patient k worlds → patient k (w :: worlds)
  | patient_any k w worlds : patient k worlds → patient (S k) (w :: worlds).

Lemma run_ends k worlds : patient k worlds → ∀ s, left s + k < length worlds →
  ∃ acts r s', run config worlds s = (acts, Finished r s').
Proof.
  induction 1 as [k|k w worlds Hw _ IH|k w worlds _ IH]; intros s Hlen; cbn [length] in Hlen; [lia| |]; cbn [run].
  - pose proof (lt_iteration w Hw s) as Hi. destruct (iteration config w s) as [acts [[] t|t|r t]] eqn:E.
    + by apply stops_iteration in E.
    + cbn in Hi. destruct (IH t) as (more & r & s' & Hrun); [lia|].
      exists (acts ++ more), r, s'. by rewrite Hrun.
    + by exists acts, r, t.
  - pose proof (le_iteration w s) as Hi. destruct (iteration config w s) as [acts [[] t|t|r t]] eqn:E.
    + by apply stops_iteration in E.
    + cbn in Hi. destruct (IH t) as (more & r & s' & Hrun); [lia|].
      exists (acts ++ more), r, s'. by rewrite Hrun.
    + by exists acts, r, t.
Qed.
End Stages.

Lemma left_start messages c : (0 < maxTurns)%Z → left (start_state messages c) = 54 * Z.to_nat maxTurns + 23.
Proof.
  intros Hn. unfold left, start_state. cbn [ls_account ls_guards ls_breaker ls_repair at_turnCount].
  change (guards_left _) with 52. change (run_left _) with 4. change (unused _) with 1. change (repair_left _) with 20. lia.
Qed.
End Measure.
