(* ===== verification/AgentSamples.v ===== *)
(** * Samples of a turn

    Concrete hosts, configurations and worlds of AgentTurn.v, on which the
    properties of a turn are evaluated. *)

From Stdlib Require Import QArith.
From S2P Require Import Prelude JsValue PermissionRules RouterTypes RouterMedia MessagePairs MessageProjector.
From S2P Require Import ContextBudget AgentAssembly AgentRepair AgentCaps ToolNames AgentTurn.
Open Scope Z_scope.

(** ** The host *)

#[export] Instance sample_limits : ModelLimits := λ _ _, None.

(** Text that starts with an angle bracket is a call of [read]. *)
#[export] Instance sample_parser : TextToolParser := {|
  hasTextToolCallSyntax text := bool_decide (str_slice 0 1 text = "<");
  extractTextToolCalls text := TextParse [("call", "read", JNull)] "" None (Some "xml") false;
|}.

#[export] Instance sample_host : LoopHost := {|
  toolErrorRecovery call reason mode := (reason, JNull);
  getSelfCorrectPrompt format text := "Repeat the call.";
  error_json e := er_message (oe_error e);
|}.

Definition sample_config (maxTurns : option Z) : loop_config :=
  LoopConfig "p" "m" (Some 100000) false false None ["read"; "write"] [] maxTurns true.

Definition sample_settings : settings := Settings [] (Some 1024) ModeDefault None.

Definition sample_entries : list entry := [plain_entry (Message User [TextBlock "Read a and b."])].

(** ** Worlds *)

Definition sample_usage (n : Z) : usage := Usage (Some n) (Some 1) None None None.

(** Nothing is compacted or aborted, the model streams [events], tools answer
    and errors are [recover]ed from. *)
Definition sample_world (events : list stream_event) (recover : overflow_error → bool → recovery_decision) : world :=
  World false (λ _, None) false ("p", "m") (λ _, None) events None false (λ e _ b, Some (recover e b)) (λ _, None)
    ([], None) false
    (λ calls, inl (map (λ c, ToolResult (tc_id c) c.1.2 (ToolSuccess JNull) [TcText "done"] [] []) calls))
    false (λ _ _ _, None) None.

Definition surrender (e : overflow_error) (b : bool) : recovery_decision := GiveUp "no".

Definition says (text : string) : world :=
  sample_world [EvText text; EvUsage (sample_usage 5); EvMessageEnd "stop"] surrender.

(** Two calls with the same id. *)
Definition calls_twice : world :=
  sample_world [EvToolCallEnd ("c1", "read", JStr "a") false; EvToolCallEnd ("c1", "read", JStr "a") false;
                EvUsage (sample_usage 7); EvMessageEnd "tool_call"] surrender.

Definition says_nothing : world := sample_world [EvUsage (sample_usage 3); EvMessageEnd "stop"] surrender.

Definition sample_error (code : string) (strip : bool) : overflow_error :=
  OverflowError (ModelError "p" None "openai" code "Bad image." false false strip None) None None None.

(** A provider that always fails, with the overflow recovery of the code. *)
Definition always_fails (e : overflow_error) : world :=
  sample_world [EvError e] (decide_recovery (new_ContextOverflowRecovery None None)).

Definition sample_start : loop_state := start_state sample_entries sample_settings.

(** The same world, aborted before the request. *)
Definition aborted_at_start (w : world) : world :=
  World true (wo_compact w) (wo_abortedPrepared w) (wo_decision w) (wo_recompact w) (wo_stream w) (wo_thrown w)
    (wo_abortedCall w) (wo_recover w) (wo_reactiveCompact w) (wo_stopHooks w) (wo_abortedDetected w) (wo_tools w)
    (wo_abortedTools w) (wo_applyToolResults w) (wo_uuid w).
