(* ===== verification/AgentProperties.v ===== *)
(** * Properties of a turn

    The theorems about the turn loop of AgentTurn.v: it ends, its events come
    in the promised order, tools are run for sound answers only and every call
    is answered, the usage it reports is what the calls reported, and its own
    prompts are gone once they were answered; with the runs in which the loop
    does not end and in which a prompt stays behind. *)

From Stdlib Require Import QArith.
From S2P Require Import Prelude JsValue PermissionRules RouterTypes RouterMedia MessagePairs MessageProjector.
From S2P Require Import ContextBudget AgentAssembly AgentRepair AgentCaps ToolNames AgentTurn AgentLaws AgentTermination AgentSamples.
Open Scope Z_scope.

(** ** The loop ends *)

Section Ends.
Context `{ModelLimits} `{TextToolParser} `{LoopHost} (config : loop_config).


(** ** The order of events *)

Lemma ends_continued_no_end acts : ends_continued acts → no_end acts.
Proof. intros (pre & reason & Hp & ->). apply no_end_app; [done|]. by repeat constructor. Qed.

(** P: Whatever happens during a run, its last act is the one event that
    completes the turn, with the result that is returned; directly before it
    the turn is captured, once; and exactly a run that ends in an error
    announces it, once and directly before that.  A run that goes on has done
    none of these. *)
Theorem events_in_order worlds : ∀ s,
  match run config worlds s with
  | (acts, Finished r _) => ends_turn acts r
  | (acts, Running _) => no_end acts
  end.
Proof.
  induction worlds as [|w worlds IH]; intros s; cbn [run]; [constructor|].
  pose proof (event_iteration config w s) as Hi. destruct (iteration config w s) as [acts [u t|t|r t]]; cbn in Hi.
  - specialize (IH t). destruct (run config worlds t) as [more [t'|r t']]; [by apply no_end_app|].
    by apply (law_then_done event_law s acts t more r t').
  - apply ends_continued_no_end in Hi. specialize (IH t).
    destruct (run config worlds t) as [more [t'|r t']]; [by apply no_end_app|].
    by apply (law_then_done event_law s acts t more r t').
  - done.
Qed.

End Ends.

(** ** Tools *)

Definition no_tools (acts : list act) : Prop := List.filter is_tool acts = [].

Lemma no_tools_app a b : no_tools a → no_tools b → no_tools (a ++ b).
Proof. unfold no_tools. rewrite List.filter_app. by intros -> ->. Qed.

Program Definition tool_law : law := {|
  law_next _ acts _ := no_tools acts;
  law_again _ acts _ := no_tools acts;
  law_done _ acts _ _ := no_tools acts;
|}.
Next Obligation. done. Qed.
Next Obligation. intros. by apply no_tools_app. Qed.
Next Obligation. intros. by apply no_tools_app. Qed.
Next Obligation. intros. by apply no_tools_app. Qed.

Lemma tool_update f : spec tool_law (update f).
Proof. by apply spec_update. Qed.

Lemma tool_perform a : is_tool a = false → spec tool_law (perform a).
Proof.
  intros Ha. apply spec_perform. intros s. change (no_tools [a]). unfold no_tools. cbn [List.filter]. by rewrite Ha.
Qed.

#[export] Instance tool_allows : Allows tool_law (λ _ _, True).
Proof.
  split; intros; try apply tool_update; try done.
  apply tool_perform. unfold is_plain in *. destruct (is_tool a); [|done]. by rewrite andb_false_r in *.
Qed.

#[export] Instance tool_allows_calls : AllowsCalls tool_law.
Proof.
  split; intros; try by apply spec_update. apply tool_perform. by destruct a as [[]| | | |].
Qed.

Lemma tool_spec {A} (m : M A) s acts o : spec tool_law m → m s = (acts, o) → no_tools acts.
Proof. intros Hm He. specialize (Hm s). rewrite He in Hm. by destruct o. Qed.

Lemma tool_spec_fst {A} (m : M A) s : spec tool_law m → List.filter is_tool (m s).1 = [].
Proof. intros Hm. specialize (Hm s). by destruct (m s) as [acts []]. Qed.

(** A computation without tools before the rest. *)
Lemma tool_bind {A B} (m : M A) (f : A → M B) s acts o :
  spec tool_law m → (m ≫= f) s = (acts, o) → ¬ no_tools acts →
  ∃ a s1 acts1 acts2, m s = (acts1, Next a s1) ∧ f a s1 = (acts2, o) ∧
    List.filter is_tool acts = List.filter is_tool acts2 ∧ ¬ no_tools acts2.
Proof.
  intros Hm He Hn.
  apply bind_inv in He as [(a & s1 & acts1 & acts2 & He1 & He2 & ->)|[(s1 & He1 & ->)|(r & s1 & He1 & ->)]].
  - exists a, s1, acts1, acts2. pose proof (tool_spec _ _ _ _ Hm He1) as Ht. unfold no_tools in *.
    rewrite List.filter_app, Ht in *. done.
  - by apply (tool_spec _ _ _ _ Hm) in He1.
  - by apply (tool_spec _ _ _ _ Hm) in He1.
Qed.

(** What holds when a computation goes on. *)
Definition passes {A} (m : M A) (P : A → Prop) : Prop :=
  ∀ s acts a s', m s = (acts, Next a s') → P a.

Lemma passes_mono {A} (m : M A) (P Q : A → Prop) : (∀ a, P a → Q a) → passes m P → passes m Q.
Proof. intros Hpq Hm s acts a s' He. by eapply Hpq, Hm. Qed.

Lemma passes_bind {A B} (m : M A) (f : A → M B) P Q :
  passes m P → (∀ a, P a → passes (f a) Q) → passes (m ≫= f) Q.
Proof.
  intros Hm Hf s acts b s' He. apply bind_inv in He as [(a & s1 & acts1 & acts2 & He1 & He2 & _)|[(? & _ & [=])|(? & ? & _ & [=])]].
  eapply Hf; [by eapply Hm|done].
Qed.

Lemma passes_first {A B} (m : M A) (f : A → M B) (P : Prop) :
  passes m (λ _, P) → passes (m ≫= f) (λ _, P).
Proof. intros Hm. eapply passes_bind; [done|]. by intros a HP s acts b s' _. Qed.

Lemma passes_then {A B} (m : M A) (f : A → M B) Q : (∀ a, passes (f a) Q) → passes (m ≫= f) Q.
Proof. intros Hf. eapply (passes_bind m f (λ _, True)); [done|]. intros a _. apply Hf. Qed.

Lemma passes_ret {A} (a : A) (P : A → Prop) : P a → passes (mret a) P.
Proof. by intros Ha s acts b s' [= _ <- _]. Qed.

Lemma passes_stops {A} (m : M A) P : stops m → passes m P.
Proof. by intros Hm s acts a s' He%Hm. Qed.

Lemma passes_when (b : bool) m : stops m → passes (when b m) (λ _, b = false).
Proof. intros Hm. destruct b; [by apply passes_stops|by apply passes_ret]. Qed.

Section Calls.
Context `{ModelLimits} `{TextToolParser} `{LoopHost} (config : loop_config).

Lemma stops_abort {A} surface : stops (abort_turn surface : M A).
Proof. apply stops_bind. intros _. apply stops_finish. Qed.

Lemma passes_abort aborted surface : passes (check_abort aborted surface) (λ _, aborted = false).
Proof. destruct aborted; [apply passes_stops, stops_abort|by apply passes_ret]. Qed.

(** The reply of an iteration's model call. *)
Definition stream_state (w : world) : assembler :=
  foldl applyModelEventToAssembler createModelMessageAssemblerState (consume (wo_stream w)).1.
Definition reply_of (w : world) : assembled := assembleAssistantMessage (assemble_state (stream_state w)).

Lemma passes_prepare w : passes (prepare config w) (λ _, wo_abortedAtStart w = false ∧ wo_abortedPrepared w = false).
Proof.
  eapply passes_bind; [apply passes_abort|]. intros u Ha. do 2 (apply passes_then; intros ?).
  eapply passes_mono; [|apply passes_first, passes_abort]. by intros u2 Hb.
Qed.

Lemma passes_call w : passes (call_model config w) (λ r, r = reply_of w ∧ wo_abortedCall w = false).
Proof.
  unfold call_model, reply_of, stream_state. destruct (wo_decision w) as [provider model].
  destruct (consume (wo_stream w)) as [events failed]. apply passes_then. intros _.
  destruct (if failed then None else wo_thrown w).
  - destruct (wo_abortedCall w); [apply passes_then; intros _; apply passes_stops, stops_abort|].
    apply passes_then. intros _. apply passes_stops, stops_fail.
  - apply passes_then. intros _. destruct (wo_abortedCall w); [|by apply passes_ret].
    apply passes_then. intros _. apply passes_stops, stops_abort.
Qed.

Lemma passes_take reply : passes (take_reply config reply) (λ taken, taken = read_calls config reply).
Proof.
  unfold take_reply. do 2 (apply passes_then; intros _). destruct (read_calls config reply) as [m calls].
  do 2 (apply passes_then; intros _). by apply passes_ret.
Qed.

Lemma stops_resume {A} w prompt (exhausted : M A) : stops exhausted → stops (resume w prompt exhausted).
Proof.
  intros He. apply stops_bind. intros n. destruct (n <? _)%nat; [|done].
  apply stops_bind. intros _. apply stops_retry_with.
Qed.

Lemma stops_bump {A} w before (otherwise : M A) : stops otherwise → stops (bump_output config w before otherwise).
Proof.
  intros Ho. unfold bump_output. destruct (wo_decision w) as [provider model].
  apply stops_bind. intros []; [done|]. do 2 (apply stops_bind; intros ?).
  destruct (resolveOutputTokenRetryBump _ _); [|done]. do 4 (apply stops_bind; intros ?). apply stops_retry.
Qed.

Lemma stops_empty w reason exhausted : stops exhausted → stops (empty_guard config w reason exhausted).
Proof.
  intros He. apply stops_bind. intros n. destruct (0 <? n)%nat.
  - do 2 (apply stops_bind; intros ?). destruct (_ && _).
    + do 2 (apply stops_bind; intros ?). apply stops_retry_with.
    + do 2 (apply stops_bind; intros ?). apply stops_finish.
  - apply stops_bind. intros []; [done|]. do 2 (apply stops_bind; intros ?). apply stops_retry_with.
Qed.

Lemma passes_partial w reply : passes (partial_text_stage w reply) (λ _, fb_partial (ad_fallback reply) = None).
Proof.
  unfold partial_text_stage.
  eapply passes_mono; [|apply passes_when, stops_resume, stops_fail].
  cbn. intros _ Hb%bool_decide_eq_false_1. by apply eq_None_not_Some.
Qed.

(** A reply whose calls were cut off and repaired. *)
Definition cut_off (reply : assembled) : bool :=
  ad_repaired reply && bool_decide (ad_finishReason reply ∈ truncated_reasons).

Lemma passes_repaired w reply calls : passes (repaired_stage config w reply calls) (λ _, cut_off reply = false).
Proof.
  apply passes_when. apply stops_bind. intros [d|]; [apply stops_synthetic|].
  apply stops_bump, stops_resume, stops_fail.
Qed.

Lemma passes_empty w reply m calls :
  passes (empty_stage config w reply m calls)
    (λ _, ad_error reply = None → calls = [] → textFromMessage m ≠ "").
Proof.
  unfold empty_stage. eapply passes_mono; [|apply passes_when, stops_empty].
  - cbn. intros _ Hb He ->. rewrite He, !bool_decide_eq_true_2 in Hb by done. by apply bool_decide_eq_false_1 in Hb.
  - do 2 (apply stops_bind; intros _). apply stops_finish.
Qed.

Lemma passes_error w reply m calls :
  passes (error_stage config w reply m calls) (λ _, ad_error reply = None).
Proof.
  unfold error_stage. destruct (ad_error reply) as [e|]; [|by apply passes_ret].
  do 4 (apply passes_then; intros _). destruct (classifyModelError _). apply passes_then. intros _.
  apply passes_stops, stops_fail.
Qed.

#[local] Hint Extern 1 (spec tool_law (perform _)) => apply tool_perform; reflexivity : spec.
#[local] Hint Extern 1 (spec tool_law (yield _)) => apply tool_perform; reflexivity : spec.
#[local] Hint Extern 1 (spec tool_law (update _)) => apply tool_update : spec.

(** The reports of a batch. *)
Definition reports (results : list tool_result) : list act := map (λ r, Yield (ToolResultEvent r)) results.

Lemma report_tools r s : ∃ acts s', report_result r s = (acts, Next tt s') ∧ List.filter is_tool acts = reports [r].
Proof.
  unfold report_result. destruct (structured_data r), (readRequestedMode r);
    unfold mbind, loop_bind, mret, loop_ret, update, reads, yield, perform; cbn; eauto.
Qed.

Lemma for_each_tools results : ∀ s, ∃ acts s',
  for_each results report_result s = (acts, Next tt s') ∧ List.filter is_tool acts = reports results.
Proof.
  induction results as [|r results IH]; intros s; [by exists [], s|].
  destruct (report_tools r s) as (acts1 & s1 & He1 & Hf1). destruct (IH s1) as (acts2 & s2 & He2 & Hf2).
  exists (acts1 ++ acts2), s2. cbn [for_each]. rewrite (bind_assoc_next _ _ _ _ _ _ He1), He2.
  by rewrite List.filter_app, Hf1, Hf2.
Qed.

(** A batch gets one result per call. *)
Lemma pair_results_ids calls results s : ∃ paired s',
  pair_results calls results s = ([], Next paired s') ∧ map tr_toolCallId paired = map tc_id calls.
Proof.
  unfold pair_results, mbind, loop_bind, reads, update, mret, loop_ret. cbn.
  destruct (detectRepeatedToolFailure _ _) as [fingerprint repeated]. eexists _, _. split; [done|].
  trans (map tr_toolCallId (ensureToolResultPairing tr_toolCallId
    (missing_result (permission_mode_of s) "Tool execution did not produce a result.") calls results)).
  - unfold annotateRepeatedToolFailures. case_bool_decide; [done|]. rewrite map_map. apply map_ext. intros r.
    unfold annotate_result. destruct (toolFailureKey r); [|done]. by case_bool_decide.
  - apply batch_paired. intros c. unfold missing_result. by destruct (toolErrorRecovery _ _ _).
Qed.

(** P: The loop has a second guard against empty answers, in the branch of
    answers without calls; it is never reached, since the first one keeps
    every empty answer without error and the stage between them every error. *)
Lemma second_guard_dead w reply m :
  passes (_ ← empty_stage config w reply m [];
          _ ← push_messages [m]; _ ← yield (AssistantMessage m); _ ← perform (Durable m);
          error_stage config w reply m [])
    (λ _, textFromMessage m ≠ "").
Proof.
  eapply passes_bind; [apply passes_empty|]. intros u Hu. do 3 (apply passes_then; intros _).
  eapply passes_mono; [|apply passes_error]. cbn. auto.
Qed.

(** A first part that goes on and runs no tools. *)
Lemma tool_skip {A B} (m : M A) (f : A → M B) s acts o a acts1 s1 :
  (m ≫= f) s = (acts, o) → m s = (acts1, Next a s1) → List.filter is_tool acts1 = [] →
  ∃ acts2, f a s1 = (acts2, o) ∧ List.filter is_tool acts = List.filter is_tool acts2.
Proof.
  intros He Hm Hf. rewrite (bind_assoc_next _ _ _ _ _ _ Hm) in He. injection He as [= <- <-].
  exists (f a s1).1. rewrite List.filter_app, Hf. split; [by destruct (f a s1)|done].
Qed.

Definition truncated_output (reply : assembled) : bool :=
  bool_decide (ad_finishReason reply = "length") || ad_repaired reply.

(** What a batch does: it is run, and each of its calls is answered unless
    the turn was aborted meanwhile. *)
Definition batch_acts (w : world) (calls : list tool_call) (executed : act) (tools : list act) : Prop :=
  if wo_abortedTools w then tools = [executed]
  else ∃ results, map tr_toolCallId results = map tc_id calls ∧ tools = executed :: reports results.

Lemma calls_stage_tools {A} w reply calls s acts (o : outcome A) :
  calls_stage config w reply calls s = (acts, o) → ¬ no_tools acts →
  wo_abortedDetected w = false ∧
  batch_acts w calls (ExecuteTools calls (truncated_output reply)) (List.filter is_tool acts).
Proof.
  unfold calls_stage. intros He Hn.
  eapply tool_skip in He as (acts1 & He & Hf1); [|done|done].
  destruct (wo_abortedDetected w); [by destruct Hn; unfold no_tools; rewrite Hf1; injection He as [= <- _]|].
  split; [done|]. eapply tool_skip in He as (acts2 & He & Hf2); [|done|done]. rewrite Hf1, Hf2.
  rewrite (bind_assoc_next _ _ _ _ _ _ eq_refl) in He. injection He as [= <- He].
  cbn [List.filter is_tool app]. unfold batch_acts, check_abort. destruct (wo_abortedTools w).
  { done. }
  match goal with |- context [fst (?m s)] => destruct (m s) as [acts3 o3] eqn:He3 end.
  clear He. cbn [fst]. eapply tool_skip in He3 as (acts4 & He & ->); [|done|done].
  destruct (pair_results_ids calls match wo_tools w calls with
    | inl results => results | inr error => map (missing_result (permission_mode_of s) error) calls end s)
    as (results & s1 & Hp & Hids).
  exists results. split; [done|]. f_equal.
  eapply tool_skip in He as (acts5 & He & ->); [|exact Hp|done].
  eapply tool_skip in He as (acts6 & He & ->); [|done|done].
  eapply tool_skip in He as (acts7 & He & ->); [|done|done].
  match type of He with ?m ?s2 = _ => set (s3 := s2) in He end.
  destruct (for_each_tools results s3) as (acts8 & s4 & Hr & Hf).
  rewrite (bind_assoc_next _ _ _ _ _ _ Hr) in He. injection He as [= <- He].
  rewrite List.filter_app, Hf. rewrite <- (app_nil_r (reports results)) at 2. f_equal.
  apply tool_spec_fst. exact (stage_turn_end tool_law config w results _ (behaves_any w)).
Qed.

Lemma calls_unseen_distinct content : ∀ seen,
  NoDup (map tc_id (calls_unseen seen content)) ∧ Forall (λ c, tc_id c ∉ seen) (calls_unseen seen content).
Proof.
  induction content as [|b content IH]; intros seen; [by repeat constructor|].
  destruct b as [| | | | |id name input| | |]; cbn [calls_unseen]; try apply IH.
  case_bool_decide as Hs; [apply IH|]. destruct (IH (set_add id seen)) as [Hnd Hf]. cbn [map]. split.
  - constructor; [|done]. intros (c & Hc & Hin)%list_elem_of_fmap. eapply Forall_forall in Hf; [|done].
    apply Hf, elem_of_set_add. by left.
  - constructor; [done|]. eapply Forall_impl; [done|]. intros c Hc Hin. by apply Hc, elem_of_set_add; right.
Qed.

Lemma read_calls_distinct reply : NoDup (map tc_id (read_calls config reply).2).
Proof.
  destruct (calls_unseen_distinct (m_content (ad_message reply)) []) as [Hnd _].
  unfold read_calls, repairTextExtractedToolNames. destruct (fb_hasCalls _); [|done]. cbn [snd]. rewrite map_map.
  rewrite (map_ext _ tc_id); [done|]. intros c. unfold repair_call. by destruct (repairToolName _ _ _).
Qed.

Lemma tool_executed calls b acts : ExecuteTools calls b ∈ acts → ExecuteTools calls b ∈ List.filter is_tool acts.
Proof. intros Hin. by apply elem_of_bfilter. Qed.

Lemma batch_executed w calls b tools calls' b' :
  batch_acts w calls (ExecuteTools calls b) tools → ExecuteTools calls' b' ∈ tools → calls' = calls ∧ b' = b.
Proof.
  unfold batch_acts. intros Hb Hin. assert (∃ results, ExecuteTools calls' b' ∈ ExecuteTools calls b :: reports results)
    as (results & [[=]|(r & [=] & _)%list_elem_of_fmap]%elem_of_cons); [|done].
  destruct (wo_abortedTools w); [exists []; by subst|]. destruct Hb as (results & _ & ->). by exists results.
Qed.

(** The stages before a batch pass only sound answers. *)
Lemma iteration_tools w s acts o :
  iteration config w s = (acts, o) → ¬ no_tools acts →
  let reply := reply_of w in
  let calls := (read_calls config reply).2 in
  calls ≠ [] ∧ cut_off reply = false ∧ ad_error reply = None ∧ fb_partial (ad_fallback reply) = None ∧
  [wo_abortedAtStart w; wo_abortedPrepared w; wo_abortedCall w; wo_abortedDetected w] = [false; false; false; false] ∧
  batch_acts w calls (ExecuteTools calls (truncated_output reply)) (List.filter is_tool acts).
Proof.
  unfold iteration. intros He Hn.
  apply tool_bind in He as (? & s1 & ? & a1 & [Ha Hb]%passes_prepare & He & -> & Hn1); [|apply (stage_prepare tool_law config w (behaves_any w)); intros; apply (stage_send tool_law); by intros; apply allows_calls|done].
  apply tool_bind in He as (? & s2 & ? & a2 & [-> Hc]%passes_call & He & -> & Hn2); [|exact (stage_call_model tool_law config w)|done].
  apply tool_bind in He as (? & s3 & ? & a3 & ->%passes_take & He & -> & Hn3); [|exact (stage_take_reply tool_law config _)|done].
  destruct (read_calls config (reply_of w)) as [m calls].
  apply tool_bind in He as (? & s4 & ? & a4 & Hp%passes_partial & He & -> & Hn4); [|exact (stage_partial tool_law w _)|done].
  apply tool_bind in He as (? & s5 & ? & a5 & Hr%passes_repaired & He & -> & Hn5); [|exact (stage_repaired tool_law config w _ _)|done].
  apply tool_bind in He as (? & s6 & ? & a6 & _ & He & -> & Hn6); [|exact (stage_empty_stage tool_law config w _ _ _)|done].
  do 3 (apply tool_bind in He as (? & ? & ? & ? & _ & He & -> & ?); [|by apply tool_update || apply tool_perform|done]).
  apply tool_bind in He as (? & s7 & ? & a7 & Hd%passes_error & He & -> & Hn7); [|exact (stage_error tool_law config w _ _ _ (behaves_any w))|done].
  case_bool_decide as Hz.
  { destruct Hn7. eapply tool_spec; [|exact He]. exact (stage_no_calls tool_law config w _ _). }
  apply calls_stage_tools in He as [Hx Hb']; [|done]. cbn [snd]. by rewrite Ha, Hb, Hc, Hx.
Qed.

End Calls.

(** ** Runs *)

Lemma settled_sample events : settled (sample_world events surrender).
Proof. by intros e entries b. Qed.



(** P: The guard of the loop against calls delivered twice never applies: ids
    are made distinct when the reply is assembled, so a call that arrives
    twice, id and arguments included, is run twice. *)
Example calls_run_twice :
  List.filter is_tool (iteration (sample_config None) calls_twice sample_start).1 =
  [ExecuteTools [("c1", "read", JStr "a"); ("c1_2", "read", JStr "a")] false;
   Yield (ToolResultEvent (ToolResult "c1" "read" (ToolSuccess JNull) [TcText "done"] [] []));
   Yield (ToolResultEvent (ToolResult "c1_2" "read" (ToolSuccess JNull) [TcText "done"] [] []))].
Proof. vm_compute. reflexivity. Qed.

Lemma run_fixed `{ModelLimits} `{TextToolParser} `{LoopHost} config w s acts :
  iteration config w s = (acts, Again s) → ∀ n, ∃ more, run config (replicate n w) s = (more, Running s).
Proof.
  intros Hi n. induction n as [|n [more IH]]; [by exists []|].
  exists (acts ++ more). cbn [replicate run]. by rewrite Hi, IH.
Qed.

(** P: The answers of the context runtime that no guard counts are enough to
    keep the loop running for ever: a provider that finds every request too
    long, or that rejects an image that is not in the history, is asked again
    without end, whatever the limit on turns. *)
Theorem endless code n :
  code = "prompt_too_long" ∨ code = "image_too_large" →
  ∃ acts s, run (sample_config (Some 1)) (replicate n (always_fails (sample_error code false))) sample_start
            = (acts, Running s).
Proof.
  intros Hc. set (w := always_fails _). set (config := sample_config (Some 1)).
  destruct n as [|n]; [by exists [], sample_start|]. cbn [replicate run].
  assert (∃ acts s acts', iteration config w sample_start = (acts, Again s) ∧ iteration config w s = (acts', Again s))
    as (acts & s & acts' & -> & Hfix).
  { destruct Hc as [->| ->]; eexists _, _, _; (split; [vm_compute; reflexivity|vm_compute; reflexivity]). }
  destruct (run_fixed _ _ _ _ Hfix n) as [more ->]. by eexists _, _.
Qed.
