(* ===== verification/AgentAccounting.v ===== *)
(** * What a turn uses and what it leaves behind

    The usage a run of AgentTurn.v reports is the sum of what its model calls
    reported, and the prompts the loop writes itself are gone from the history
    when the run is over. *)

From Stdlib Require Import QArith.
From S2P Require Import Prelude JsValue PermissionRules RouterTypes RouterMedia MessagePairs MessageProjector.
From S2P Require Import ContextBudget AgentAssembly AgentRepair AgentCaps ToolNames AgentTurn AgentLaws AgentSamples.
Open Scope Z_scope.

(** ** Usage *)

Definition usage_of (s : loop_state) : usage := at_usage (ls_account s).

(** The usages the model streamed. *)
Definition stream_usages (events : list stream_event) : list usage :=
  omap (λ e, match e with EvUsage u => Some u | _ => None end) events.

Definition reported (acts : list act) : list usage :=
  omap (λ a, match a with Yield (ModelEvent (EvUsage u)) => Some u | _ => None end) acts.

Definition bill (u : usage) (acts : list act) : usage := foldl merge_usages u (reported acts).

Lemma reported_app a b : reported (a ++ b) = reported a ++ reported b.
Proof. apply omap_app. Qed.

Lemma bill_app u a b : bill u (a ++ b) = bill (bill u a) b.
Proof. unfold bill. by rewrite reported_app, foldl_app. Qed.

Lemma bill_none u acts : reported acts = [] → bill u acts = u.
Proof. unfold bill. by intros ->. Qed.

Lemma add_counts_assoc a b c : add_counts a (add_counts b c) = add_counts (add_counts a b) c.
Proof. destruct a, b, c; cbn; f_equal; lia. Qed.

Lemma merge_usages_assoc a b c : merge_usages a (merge_usages b c) = merge_usages (merge_usages a b) c.
Proof. unfold merge_usages. cbn. by rewrite !add_counts_assoc. Qed.

Lemma merge_no_usage u : merge_usages u no_usage = u.
Proof.
  assert (∀ a, add_counts a None = a) as Ha by (intros [a|]; cbn; f_equal; lia).
  destruct u. unfold merge_usages. cbn. by rewrite !Ha.
Qed.

Lemma merge_fold l : ∀ u v, merge_usages u (foldl merge_usages v l) = foldl merge_usages (merge_usages u v) l.
Proof. induction l as [|x l IH]; intros u v; [done|]. cbn. by rewrite IH, merge_usages_assoc. Qed.

(** What a reply is billed with is what its events reported. *)
Lemma assembled_usage events : ∀ st,
  as_usage (foldl applyModelEventToAssembler st events) = foldl merge_usages (as_usage st) (stream_usages events).
Proof.
  induction events as [|e events IH]; intros st; [done|]. cbn [foldl]. rewrite IH. unfold stream_usages. rewrite omap_cons.
  by destruct e.
Qed.

Lemma merge_reply `{TextToolParser} u st :
  merge_usage u (ad_usage (assembleAssistantMessage (assemble_state st))) = merge_usages u (as_usage st).
Proof.
  unfold assembleAssistantMessage, read_reply. cbn [ad_usage].
  assert (∀ st, as_usage (assemble_state st) = as_usage st) as Hs.
  { intros t. unfold assemble_state, normalizeToolCallIds, text_fallback.
    repeat case_bool_decide; repeat (try done; destruct (first_call_like _) as [[[??]?]|]; try done;
      destruct (tp_toolCalls _)); done. }
  rewrite !Hs. unfold hasUsage. case_bool_decide as Hu; [done|]. cbn [merge_usage].
  destruct (decide (as_usage st = no_usage)) as [->|]; [by rewrite merge_no_usage|done].
Qed.

(** Computations that use nothing, and computations that bill what they use. *)
Program Definition free_law : law := {|
  law_next s acts s' := reported acts = [] ∧ usage_of s' = usage_of s;
  law_again s acts s' := reported acts = [] ∧ usage_of s' = usage_of s;
  law_done s acts r _ := reported acts = [] ∧ tu_usage r = usage_of s;
|}.
Next Obligation. done. Qed.
Next Obligation. intros s a t b u [Ha Ht] [Hb Hu]. by rewrite reported_app, Ha, Hb, Hu, Ht. Qed.
Next Obligation. intros s a t b u [Ha Ht] [Hb Hu]. by rewrite reported_app, Ha, Hb, Hu, Ht. Qed.
Next Obligation. intros s a t b r u [Ha Ht] [Hb Hu]. by rewrite reported_app, Ha, Hb, Hu, Ht. Qed.

Program Definition billed_law : law := {|
  law_next s acts s' := usage_of s' = bill (usage_of s) acts;
  law_again s acts s' := usage_of s' = bill (usage_of s) acts;
  law_done s acts r _ := tu_usage r = bill (usage_of s) acts;
|}.
Next Obligation. done. Qed.
Next Obligation. cbn. intros s a t b u Ha Hb. by rewrite bill_app, <- Ha. Qed.
Next Obligation. cbn. intros s a t b u Ha Hb. by rewrite bill_app, <- Ha. Qed.
Next Obligation. cbn. intros s a t b r u Ha Hb. by rewrite bill_app, <- Ha. Qed.

Lemma free_billed {A} (m : M A) : spec free_law m → spec billed_law m.
Proof.
  intros Hm s. specialize (Hm s). destruct (m s) as [acts [a s'|s'|r s']]; cbn in *; destruct Hm as [Ha Hu];
    by rewrite (bill_none _ _ Ha).
Qed.

Lemma free_update f : (∀ s, usage_of (f s) = usage_of s) → spec free_law (update f).
Proof. intros Hf. apply spec_update. by split. Qed.

Lemma free_perform a : reported [a] = [] → spec free_law (perform a).
Proof. intros Ha. by apply spec_perform. Qed.

#[export] Instance free_allows : Allows free_law (λ _ _, True).
Proof.
  split; intros; try (by apply free_update); try (by intros s); try done.
  - apply free_update. intros s. unfold usage_of. cbn. auto.
  - apply free_perform. by destruct a as [[]| | | |].
Qed.

Lemma free_tools a : is_tool a = true → spec free_law (perform a).
Proof. intros Ha. apply free_perform. by destruct a as [[]| | | |]. Qed.

Section Usage.
Context `{ModelLimits} `{TextToolParser} `{LoopHost} (config : loop_config).

Lemma free_prepare w : spec free_law (prepare config w).
Proof.
  apply (stage_prepare free_law config w (behaves_any w)). intros pending emitted.
  apply (stage_send free_law). intros. by apply free_perform.
Qed.

Lemma events_yielded events s :
  for_each events (λ e, yield (ModelEvent e)) s = (map (λ e, Yield (ModelEvent e)) events, Next tt s).
Proof.
  induction events as [|e events IH]; [done|]. cbn [for_each map].
  by rewrite (bind_assoc_next _ _ s [Yield (ModelEvent e)] tt s), IH.
Qed.

Lemma events_reported (events : list stream_event) :
  reported (map (λ e, Yield (ModelEvent e)) events) = stream_usages events.
Proof.
  induction events as [|e events IH]; [done|]. unfold reported, stream_usages in *. cbn [map]. rewrite !omap_cons, IH.
  by destruct e.
Qed.

(** The call and the acceptance of its reply. *)
Lemma call_billed w s : wo_abortedCall w = false → wo_thrown w = None →
  ∃ acts reply, call_model config w s = (acts, Next reply s) ∧
    merge_usage (usage_of s) (ad_usage reply) = bill (usage_of s) acts.
Proof.
  intros Hw Ht. unfold call_model. destruct (wo_decision w) as [provider model].
  destruct (consume (wo_stream w)) as [events failed]. rewrite (bind_assoc_next _ _ _ _ _ _ (events_yielded events s)).
  rewrite Hw, Ht. assert ((if failed then None else None) = @None string) as -> by by destruct failed.
  eexists _, _. split; [cbn -[assemble_state]; reflexivity|].
  rewrite merge_reply, assembled_usage, merge_fold. cbn [as_usage createModelMessageAssemblerState].
  rewrite merge_no_usage, <- events_reported. unfold bill. by rewrite reported_app, app_nil_r.
Qed.

Lemma take_billed reply s :
  ∃ acts taken s', take_reply config reply s = (acts, Next taken s') ∧ reported acts = [] ∧
    usage_of s' = merge_usage (usage_of s) (ad_usage reply).
Proof.
  unfold take_reply. destruct (read_calls config reply) as [m calls].
  unfold mbind, loop_bind, update, expireConsumedTransientPrompts, when, yield, perform, mret, loop_ret.
  destruct (0 <? _); cbn; eexists _, _, _; (split; [done|]); split; try done; unfold usage_of; cbn; done.
Qed.

Definition undisturbed (w : world) : Prop := wo_abortedCall w = false ∧ wo_thrown w = None.

Lemma iteration_billed w s : undisturbed w → outcome_law billed_law s (iteration config w s).
Proof.
  intros [Hw Ht]. apply outcome_bind; [apply free_billed, free_prepare|]. intros _ t.
  destruct (call_billed w t Hw Ht) as (acts1 & reply & Hcall & Hbill).
  destruct (take_billed reply t) as (acts2 & taken & t2 & Htake & Hr2 & Hu).
  pose proof (stage_after free_law config w reply taken (behaves_any w) free_tools) as Hafter%free_billed.
  rewrite (bind_assoc_next _ _ _ _ _ _ Hcall), (bind_assoc_next _ _ _ _ _ _ Htake). specialize (Hafter t2).
  assert (∀ more, bill (usage_of t) (acts1 ++ acts2 ++ more) = bill (usage_of t2) more) as Hsum.
  { intros more. by rewrite !bill_app, (bill_none _ acts2 Hr2), Hu, Hbill. }
  match goal with |- context [snd (?m t2)] => change (m t2) with (after_reply config w reply taken t2) end.
  destruct (after_reply config w reply taken t2) as [acts3 [a u|u|r u]]; cbn in *; by rewrite Hsum.
Qed.

Lemma run_billed worlds : Forall undisturbed worlds → ∀ s acts r s',
  run config worlds s = (acts, Finished r s') → tu_usage r = bill (usage_of s) acts.
Proof.
  induction 1 as [|w worlds Hw _ IH]; intros s acts r s'; cbn [run]; [done|].
  pose proof (iteration_billed w s Hw) as Hi.
  destruct (iteration config w s) as [first [u t|t|r' t]]; cbn in Hi; [| |by intros [= <- <- _]].
  all: specialize (IH t); destruct (run config worlds t) as [more o]; intros [= <- ->].
  all: by rewrite bill_app, <- Hi, (IH _ _ _ eq_refl).
Qed.

End Usage.

Definition sample_run : list world := [calls_twice; says_nothing; says "Hi."].


(** ** Prompts of the loop *)

(** The transient prompts of a history: their roles and ids. *)
Definition prompts (l : list entry) : list (role * string) :=
  omap (λ e, (λ id, (m_role (en_message e), id)) <$> en_transient e) l.

Definition requests (acts : list act) : list (list entry) :=
  omap (λ a, match a with CallModel _ _ _ l => Some l | _ => None end) acts.

(** Histories that bring no new prompt. *)
Definition tidy (l' l : list entry) : Prop := prompts l' `sublist_of` prompts l.

Lemma prompts_plain ms : prompts (map plain_entry ms) = [].
Proof. by induction ms. Qed.

Lemma prompts_sublist (l' l : list entry) : l' `sublist_of` l → tidy l' l.
Proof.
  unfold tidy. induction 1 as [|e l' l _ IH|e l' l _ IH]; [done|..]; unfold prompts in *; rewrite ?omap_cons.
  - destruct (en_transient e); cbn; [by apply sublist_skip|done].
  - destruct (en_transient e); cbn; [by apply sublist_cons|done].
Qed.

Lemma removelast_sublist (l : list entry) : removelast l `sublist_of` l.
Proof.
  destruct (decide (l = [])) as [->|Hl]; [done|]. destruct (exists_last Hl) as (l' & e & ->).
  rewrite removelast_last. by apply sublist_inserts_r.
Qed.

Lemma strip_sublist (l : list entry) : stripTrailingErrorPair en_message l `sublist_of` l.
Proof.
  assert (∀ out, out `sublist_of` l →
    match en_message <$> last out with Some (Message Assistant _) => removelast out | _ => out end `sublist_of` l) as Hout.
  { intros out Hl. destruct (en_message <$> last out) as [[[] content]|]; try done.
    etrans; [apply removelast_sublist|done]. }
  unfold stripTrailingErrorPair. cbn zeta. apply Hout.
  destruct (en_message <$> last l) as [[[] content]|]; try done.
  destruct (forallb _ _); [apply removelast_sublist|done].
Qed.

#[export] Instance tidy_replacing : Replacing tidy.
Proof.
  split; unfold tidy; try intros.
  - done.
  - unfold prompts. rewrite omap_app. fold (prompts l) (prompts (map plain_entry ms)). by rewrite prompts_plain, app_nil_r.
  - apply prompts_sublist, removelast_sublist.
  - apply prompts_sublist, strip_sublist.
  - apply prompts_sublist. unfold truncateHead, slice_last. apply sublist_drop.
  - unfold prompts. induction l as [|[m id] l IH]; [done|]. cbn [map]. rewrite !omap_cons.
    unfold map_message at 1 2. cbn [en_message en_transient].
    assert (m_role (strip_message_images m) = m_role m) as -> by (by destruct m).
    destruct id; cbn [fmap option_fmap option_map]; [by apply sublist_skip|done].
Qed.

(** At most one prompt is waiting for an answer, and it will be found then. *)
Definition held (s : loop_state) : Prop :=
  (length (prompts (messages_of s)) ≤ 1)%nat ∧
  Forall (λ p, p.1 = User ∧ p.2 ∈ cv_activeIds (ls_conversation s)) (prompts (messages_of s)).

Definition clean (s : loop_state) : Prop := prompts (messages_of s) = [].

Definition modest (acts : list act) : Prop := Forall (λ l, length (prompts l) ≤ 1)%nat (requests acts).

Lemma clean_held s : clean s → held s.
Proof. unfold clean, held. intros ->. split; [cbn; lia|constructor]. Qed.

Lemma modest_app a b : modest a → modest b → modest (a ++ b).
Proof. unfold modest, requests. rewrite omap_app. apply Forall_app_2. Qed.

Program Definition held_law : law := {|
  law_next s acts s' := held s → held s' ∧ modest acts;
  law_again s acts _ := held s → modest acts;
  law_done s acts _ _ := held s → modest acts;
|}.
Next Obligation. by split; [|constructor]. Qed.
Next Obligation. cbn. intros s a t b u Ha Hb [Ht Hma]%Ha. destruct (Hb Ht). by split; [|apply modest_app]. Qed.
Next Obligation. cbn. intros s a t b u Ha Hb [Ht Hma]%Ha. by apply modest_app, Hb. Qed.
Next Obligation. cbn. intros s a t b r u Ha Hb [Ht Hma]%Ha. by apply modest_app, Hb. Qed.

Program Definition clean_law : law := {|
  law_next s acts s' := requests acts = [] ∧ (clean s → clean s');
  law_again s acts s' := requests acts = [] ∧ (clean s → held s');
  law_done s acts _ s' := requests acts = [] ∧ (clean s → clean s');
|}.
Next Obligation. done. Qed.
Next Obligation. cbn. intros s a t b u [Ha Ht] [Hb Hu]. unfold requests in *. rewrite omap_app, Ha, Hb. auto. Qed.
Next Obligation. cbn. intros s a t b u [Ha Ht] [Hb Hu]. unfold requests in *. rewrite omap_app, Ha, Hb. auto. Qed.
Next Obligation. cbn. intros s a t b r u [Ha Ht] [Hb Hu]. unfold requests in *. rewrite omap_app, Ha, Hb. auto. Qed.

Program Definition prompt_law : law := {|
  law_next s acts s' := held s → held s' ∧ modest acts;
  law_again s acts s' := held s → held s' ∧ modest acts;
  law_done s acts r s' := held s → modest acts ∧ (tu_type r = RAborted ∨ clean s');
|}.
Next Obligation. by split; [|constructor]. Qed.
Next Obligation. cbn. intros s a t b u Ha Hb [Ht Hma]%Ha. destruct (Hb Ht). by split; [|apply modest_app]. Qed.
Next Obligation. cbn. intros s a t b u Ha Hb [Ht Hma]%Ha. destruct (Hb Ht). by split; [|apply modest_app]. Qed.
Next Obligation. cbn. intros s a t b r u Ha Hb [Ht Hma]%Ha. destruct (Hb Ht). by split; [apply modest_app|]. Qed.

(** What is kept by updates of other parts of the state. *)
Lemma held_same s s' :
  messages_of s' = messages_of s → cv_activeIds (ls_conversation s') = cv_activeIds (ls_conversation s) →
  held s → held s'.
Proof. unfold held. by intros -> ->. Qed.

Lemma held_tidy s s' :
  tidy (messages_of s') (messages_of s) → cv_activeIds (ls_conversation s') = cv_activeIds (ls_conversation s) →
  held s → held s'.
Proof.
  unfold held, tidy. intros Hs -> [Hl Hf]. split; [apply sublist_length in Hs; lia|].
  apply Forall_forall. intros p Hp. eapply Forall_forall in Hf; [exact Hf|]. by eapply elem_of_sublist.
Qed.

Lemma clean_tidy s s' : tidy (messages_of s') (messages_of s) → clean s → clean s'.
Proof. unfold clean, tidy. intros Hs Hc. rewrite Hc in Hs. by apply sublist_nil_r. Qed.

Lemma modest_none acts : requests acts = [] → modest acts.
Proof. unfold modest. by intros ->. Qed.

Lemma plain_requests a : is_plain a = true → requests [a] = [].
Proof. by destruct a. Qed.

#[export] Instance held_allows : Allows held_law tidy.
Proof.
  split; intros.
  1-6: apply spec_update; intros t Ht; split; [by apply (held_same t)|constructor].
  - intros Hs. split; [by eapply held_tidy|constructor].
  - apply spec_perform. intros t Ht. split; [done|]. by apply modest_none, plain_requests.
  - intros t _. constructor.
  - intros t _. constructor.
  - intros t _. constructor.
  - intros t _. constructor.
  - intros _. constructor.
Qed.

(** A prompt that is pushed on a clean history is the only one, and held. *)
Lemma push_held w prompt s : clean s → held (on_conversation (push_prompt (wo_uuid w) prompt) s).
Proof.
  unfold clean, held, messages_of. intros Hc. unfold push_prompt. cbn [ls_conversation on_conversation cv_messages cv_activeIds].
  unfold prompts in *. rewrite omap_app, Hc. cbn. split; [done|].
  constructor; [|constructor]. split; [done|]. apply elem_of_set_add. by left.
Qed.

#[export] Instance clean_allows : Allows clean_law tidy.
Proof.
  split; intros.
  1-6: by apply spec_update.
  - split; [done|]. by apply clean_tidy.
  - apply spec_perform. intros t. split; [by apply plain_requests|done].
  - intros t. split; [done|]. apply clean_held.
  - intros t. split; [done|]. apply push_held.
  - intros t. split; [done|]. intros Hc.
    by apply (held_same (on_conversation (push_prompt (wo_uuid w) prompt) t)), push_held.
  - by intros t.
  - done.
Qed.

Lemma clean_tools a : is_tool a = true → spec clean_law (perform a).
Proof. intros Ha. apply spec_perform. intros s. split; [by destruct a as [[]| | | |]|done]. Qed.

(** ** Aborts *)

(** Computations that go on or end the run by an abort. *)
Program Definition abort_law : law := {|
  law_next _ _ _ := True; law_again _ _ _ := False; law_done _ _ r _ := tu_type r = RAborted;
|}.
Solve All Obligations with done.

Lemma abort_aborts {A} surface : spec abort_law (abort_turn surface : M A).
Proof. by intros s; destruct surface. Qed.

Lemma abort_primitive {A} (m : M A) :
  (∀ s, match (m s).2 with Next _ _ => True | _ => False end) → spec abort_law m.
Proof. intros Hm s. specialize (Hm s). by destruct (m s) as [acts [a t|t|r t]]. Qed.

Section Prompts.
Context `{ModelLimits} `{TextToolParser} `{LoopHost} (config : loop_config).

Lemma prepare_aborts w : spec abort_law (prepare config w).
Proof.
  unfold prepare, check_abort, compact_before, compact_routed, set_messages, send_request.
  repeat first [apply abort_aborts | spec_step | by apply abort_primitive | done].
Qed.

Lemma keep_aborts reply : spec abort_law (keep_partial reply).
Proof.
  unfold keep_partial, accept_reply, push_messages, expireConsumedTransientPrompts.
  repeat first [spec_step | by apply abort_primitive | done].
Qed.

Lemma call_aborts w : wo_thrown w = None → spec abort_law (call_model config w).
Proof.
  intros Hw. pose proof keep_aborts. unfold call_model. rewrite Hw.
  destruct (wo_decision w), (consume (wo_stream w)) as [events failed].
  assert ((if failed then None else None) = @None string) as -> by by destruct failed.
  repeat first [apply abort_aborts | spec_step | by apply abort_primitive | done].
Qed.

(** *** An iteration *)

Lemma send_held w pending emitted : spec held_law (send_request config w pending emitted).
Proof.
  intros s. unfold send_request. destruct (wo_decision w) as [provider model].
  destruct pending; [destruct emitted|]; cbn; intros Hs; (split; [done|]); destruct Hs as [Hl _]; apply Forall_singleton, Hl.
Qed.

Lemma prepare_held w : behaves tidy w → spec held_law (prepare config w).
Proof. intros Hw. apply (stage_prepare held_law config w Hw), send_held. Qed.

Program Definition silent_law : law := {|
  law_next _ acts _ := requests acts = []; law_again _ acts _ := requests acts = [];
  law_done _ acts _ _ := requests acts = [];
|}.
Next Obligation. done. Qed.
Next Obligation. cbn. intros s a t b u Ha Hb. unfold requests in *. by rewrite omap_app, Ha, Hb. Qed.
Next Obligation. cbn. intros s a t b u Ha Hb. unfold requests in *. by rewrite omap_app, Ha, Hb. Qed.
Next Obligation. cbn. intros s a t b r u Ha Hb. unfold requests in *. by rewrite omap_app, Ha, Hb. Qed.

Lemma call_silent w : spec silent_law (call_model config w).
Proof.
  unfold call_model, keep_partial, accept_reply, push_messages, expireConsumedTransientPrompts, abort_turn.
  repeat first [spec_step | by intros s | done].
Qed.

Lemma take_silent reply : spec silent_law (take_reply config reply).
Proof.
  unfold take_reply, expireConsumedTransientPrompts. repeat first [spec_step | by intros s | done].
Qed.

Lemma call_next w s acts reply s' : call_model config w s = (acts, Next reply s') → s' = s.
Proof.
  unfold call_model. destruct (wo_decision w) as [provider model], (consume (wo_stream w)) as [events failed].
  rewrite (bind_assoc_next _ _ _ _ _ _ (events_yielded events s)). unfold keep_partial, abort_turn.
  destruct (if failed then None else wo_thrown w), (wo_abortedCall w), (lc_surfaceAbort config);
    try case_bool_decide; cbn -[assemble_state]; by intros [=].
Qed.

(** A reply expires the prompt that was waiting for it. *)
Lemma expire_clean s : held s → clean (on_conversation expire_prompts s).
Proof.
  unfold held, clean, messages_of. intros [_ Hf]. unfold expire_prompts. cbn [on_conversation ls_conversation].
  set (c := ls_conversation s) in *. case_bool_decide as Ha.
  - destruct (prompts (cv_messages c)) as [|p l]; [done|]. apply Forall_cons in Hf as [[_ Hp] _].
    rewrite Ha in Hp. by apply not_elem_of_nil in Hp.
  - cbn [cv_messages]. unfold removeTransientPromptsById, prompts in *.
    induction (cv_messages c) as [|[m id] l IH]; [done|]. rewrite omap_cons in Hf. cbn [List.filter].
    destruct id as [id|]; cbn in Hf.
    + apply Forall_cons in Hf as [[Hr Hid] Hf]. unfold is_expired. cbn [en_message en_transient fst snd] in *.
      rewrite Hr, !bool_decide_eq_true_2 by done. by apply IH.
    + unfold is_expired. cbn [en_transient]. rewrite andb_false_r. cbn [negb]. rewrite omap_cons. cbn. by apply IH.
Qed.

Lemma take_clean reply s : held s → ∃ acts taken s', take_reply config reply s = (acts, Next taken s') ∧ clean s'.
Proof.
  intros Hs. unfold take_reply. destruct (read_calls config reply) as [m calls].
  unfold mbind, loop_bind, update, expireConsumedTransientPrompts, when, yield, perform, mret, loop_ret.
  destruct (0 <? _); eexists _, _, _; (split; [done|]); by apply expire_clean, (held_same s).
Qed.

Lemma prepare_prompts w : behaves tidy w → spec prompt_law (prepare config w).
Proof.
  intros Hw s. pose proof (prepare_held w Hw s) as Hp. pose proof (prepare_aborts w s) as Ha.
  destruct (prepare config w s) as [acts [u t|t|r t]]; cbn in *; [done|done|auto].
Qed.

Lemma call_prompts w : wo_thrown w = None → spec prompt_law (call_model config w).
Proof.
  intros Hw s. pose proof (call_silent w s) as Hc. pose proof (call_aborts w Hw s) as Ha.
  destruct (call_model config w s) as [acts [u t|t|r t]] eqn:E; cbn in *; [|done|].
  - apply call_next in E as ->. auto using modest_none.
  - auto using modest_none.
Qed.

Lemma rest_prompts w reply : behaves tidy w →
  spec prompt_law (taken ← take_reply config reply; after_reply config w reply taken).
Proof.
  intros Hw s. cbn. pose proof (take_silent reply s) as Hr.
  destruct (take_reply config reply s) as [acts [taken t|t|r t]] eqn:E; cbn in Hr.
  2,3: exfalso; unfold take_reply in E; destruct (read_calls config reply); revert E;
    by destruct (0 <? countDuplicateToolCalls (ad_message reply)).
  rewrite (bind_assoc_next _ _ _ _ _ _ E).
  pose proof (stage_after clean_law config w reply taken Hw clean_tools t) as Ha.
  assert (held s → clean t) as Ht.
  { intros Hs. destruct (take_clean reply s Hs) as (acts' & taken' & t' & E' & Hc). rewrite E in E'. by injection E' as [= -> -> ->]. }
  destruct (after_reply config w reply taken t) as [more [a u|u|r u]]; cbn in *; destruct Ha as [Hm Hu]; intros Hs.
  - split; [by apply clean_held, Hu, Ht|]. by apply modest_app; apply modest_none.
  - split; [by apply Hu, Ht|]. by apply modest_app; apply modest_none.
  - split; [by apply modest_app; apply modest_none|]. right. by apply Hu, Ht.
Qed.

Lemma iteration_prompts w :
  behaves tidy w → wo_thrown w = None → spec prompt_law (iteration config w).
Proof.
  intros Hw Hthrown. apply spec_bind; [by apply prepare_prompts|intros _].
  apply spec_bind; [by apply call_prompts|intros reply]. by apply rest_prompts.
Qed.

Lemma run_prompts worlds : Forall (λ w, behaves tidy w ∧ wo_thrown w = None) worlds → ∀ s acts r s',
  held s → run config worlds s = (acts, Finished r s') → modest acts ∧ (tu_type r = RAborted ∨ clean s').
Proof.
  induction 1 as [|w worlds [Hw Ht] _ IH]; intros s acts r s' Hs; cbn [run]; [done|].
  pose proof (iteration_prompts w Hw Ht s) as Hi.
  destruct (iteration config w s) as [first [u t|t|r' t]]; cbn in Hi; [| |by intros [= <- <- <-]; apply Hi].
  all: destruct (Hi Hs) as [Hheld Hm]; specialize (IH t); destruct (run config worlds t) as [more o];
    intros [= <- ->]; destruct (IH _ _ _ Hheld eq_refl) as [Hm2 Hend]; split; [by apply modest_app|done].
Qed.

(** P: The prompts the loop writes itself, to have an answer continued or a
    call repeated, are in the history only until they are answered: while the
    context runtime and the tools bring none of their own, every request
    holds at most one, and when a run is over, not aborted and without an
    exception of the model, the history it returns holds none. *)
Theorem prompts_expire worlds messages c acts r s :
  Forall (λ w, behaves tidy w ∧ wo_thrown w = None) worlds → prompts messages = [] →
  run config worlds (start_state messages c) = (acts, Finished r s) →
  Forall (λ l, length (prompts l) ≤ 1)%nat (requests acts) ∧
  (tu_type r ≠ RAborted → prompts (messages_of s) = []).
Proof.
  intros Hw Hm Hrun. destruct (run_prompts worlds Hw _ _ _ _ (clean_held (start_state messages c) Hm) Hrun) as [Hreq Hend].
  split; [done|]. by intros Hr; destruct Hend.
Qed.
End Prompts.

Lemma behaves_sample events recover : behaves tidy (sample_world events recover).
Proof. by split. Qed.

Lemma prompts_expire_witness :
  ∃ acts r s, run (sample_config None) sample_run (start_state sample_entries sample_settings) = (acts, Finished r s) ∧
    map (λ l, length (prompts l)) (requests acts) = [0; 0; 1]%nat ∧
    Forall (λ l, length (prompts l) ≤ 1)%nat (requests acts) ∧ (tu_type r ≠ RAborted → prompts (messages_of s) = []).
Proof.
  assert (∃ acts r s, run (sample_config None) sample_run (start_state sample_entries sample_settings)
            = (acts, Finished r s) ∧ map (λ l, length (prompts l)) (requests acts) = [0; 0; 1]%nat)
    as (acts & r & s & Hrun & Hu).
  { eexists _, _, _. split; [vm_compute; reflexivity|reflexivity]. }
  exists acts, r, s. split; [exact Hrun|]. split; [exact Hu|].
  refine (prompts_expire (sample_config None) sample_run sample_entries sample_settings acts r s _ eq_refl Hrun).
  repeat (apply Forall_cons; split; [split; [apply behaves_sample|reflexivity]|]). apply Forall_nil. exact I.
Defined.

(** P: A run that is aborted before its prompt is answered leaves the prompt
    in the history it returns, where no later run expires it: a new run
    starts without active ids. *)
Example prompt_left_behind :
  let '(_, o) := run (sample_config None) [says_nothing; aborted_at_start (says "Hi.")] sample_start in
  match o with
  | Finished r s =>
    tu_type r = RAborted ∧ prompts (messages_of s) = [(User, "transient-1")] ∧
    match run (sample_config None) [says "Hi."] (start_state (messages_of s) sample_settings) with
    | (acts, Finished r' s') => tu_type r' = RSuccess ∧ prompts (messages_of s') = [(User, "transient-1")]
    | _ => False
    end
  | Running _ => False
  end.
Proof. vm_compute. done. Qed.
