(* ===== verification/Beliefs.v ===== *)
(** * Belief propagation over claims

    src/src/research/claims/types.ts and beliefPropagation.ts: what evidence
    counts for or against a claim and the belief computed from it.  Weights,
    confidences and uncertainties are exact fractions (the decimal constants
    of the source); the rounding of double arithmetic is not modelled. *)

From Stdlib Require Import QArith Qabs Qminmax Lqa.
From S2P Require Import Prelude Host JsValue.

(** ** Data *)

Inductive claim_status := ClaimActive | Challenged | Falsified | ClaimSuperseded.

#[export] Instance claim_status_eq_dec : EqDecision claim_status.
Proof. solve_decision. Defined.

(** [claimId] and [statement] are checked to be strings when a file is read;
    the other fields are what the file held. *)
Record claim := MkClaim {
  claimId : string;
  statement : string;
  falsificationCondition : jsval;
  parentClaimIds : jsval;
  sourceArtifactId : jsval;
  claim_createdAt : jsval;
}.

(** [relation] and [strength] are strings: the code checks both at run time. *)
Record contribution := Contribution {
  co_sourceArtifactId : string;
  co_sourceKind : string;
  co_relation : string;
  co_strength : string;
  co_sourceRevision : Z;
  co_observedAt : string;
}.

Record claim_belief := ClaimBelief {
  cb_claimId : string;
  cb_status : claim_status;
  cb_confidence : Q;
  cb_uncertainty : Q;
  cb_supportsWeight : Q;
  cb_challengesWeight : Q;
  cb_evidenceCount : nat;
  cb_computedAt : string;
}.

(** ** Weights *)

Definition EVIDENCE_STRENGTH_WEIGHTS : jmap Q :=
  [("replicated_result", 4 # 10); ("observed_result", 25 # 100);
   ("baseline_observation", 2 # 10); ("review_consensus", 3 # 10); ("citation", 1 # 10)]%Q.

Definition DEFAULT_CHALLENGE_STATUS_THRESHOLD : Q := 5 # 10.
Definition DEFAULT_FALSIFICATION_CHALLENGE_WEIGHT : Q := 1.
Definition UNCERTAINTY_DECAY_PER_EVIDENCE : Q := 15 # 100.

Definition strengthFromArtifactKind (kind : string) : string :=
  if bool_decide (kind ∈ ["run_attempt"; "metric_observation"]) then "observed_result"
  else if bool_decide (kind = "baseline_observation") then "baseline_observation"
  else if bool_decide (kind ∈ ["finding"; "review_round"]) then "review_consensus"
  else if bool_decide (kind ∈ ["evidence_pack"; "citation_set"]) then "citation"
  else "observed_result".

Definition evidenceWeight (c : contribution) : result Q :=
  match jm_get (co_strength c) EVIDENCE_STRENGTH_WEIGHTS with
  | Some weight => Ok weight
  | None => Throw (TypeError ("Unknown evidence strength: " +:+ co_strength c +:+ "."))
  end.

Definition clamp01 (value : Q) : Q := Qmin 1 (Qmax 0 value).

(** ** The belief of one claim *)

Record belief_options := BeliefOptions {
  bo_challengeStatusThreshold : option Q;
  bo_falsificationChallengeWeight : option Q;
}.

(** The loop body: [(supportsWeight, challengesWeight)]. *)
Definition add_evidence (acc : Q * Q) (c : contribution) : result (Q * Q) :=
  if bool_decide (co_relation c = "supports") then
    weight ← evidenceWeight c; Ok (acc.1 + weight, acc.2)%Q
  else if bool_decide (co_relation c = "challenges") then
    weight ← evidenceWeight c; Ok (acc.1, acc.2 + weight)%Q
  else Ok acc.

Definition Qlt_bool (x y : Q) : bool := negb (Qle_bool y x).

Definition status_of (options : belief_options) (supports challenges : Q) : claim_status :=
  let challengeStatusThreshold :=
    default DEFAULT_CHALLENGE_STATUS_THRESHOLD (bo_challengeStatusThreshold options) in
  let falsificationChallengeWeight :=
    default DEFAULT_FALSIFICATION_CHALLENGE_WEIGHT
      (bo_falsificationChallengeWeight options) in
  let challenged :=
    Qle_bool challengeStatusThreshold challenges && Qlt_bool supports challenges in
  if challenged && Qle_bool falsificationChallengeWeight challenges then Falsified
  else if challenged then Challenged
  else ClaimActive.

Definition confidence_of (supports challenges : Q) : Q :=
  let delta := (supports - challenges)%Q in
  clamp01 ((1 # 2) + (1 # 2) * (delta / (1 + Qabs delta))).

Definition uncertainty_of (supports challenges : Q) : Q :=
  clamp01 (1 - UNCERTAINTY_DECAY_PER_EVIDENCE * (supports + challenges)).

Definition computeBelief (c : claim) (contributions : list contribution)
    (options : belief_options) (nowIso : string) : result claim_belief :=
  weights ← foldM add_evidence (0, 0)%Q contributions;
  let '(supports, challenges) := weights in
  Ok (ClaimBelief (claimId c) (status_of options supports challenges)
        (confidence_of supports challenges) (uncertainty_of supports challenges)
        supports challenges (length contributions) nowIso).

Definition recomputeAllBeliefs (claims : list claim)
    (contributionsByClaim : jmap (list contribution)) (options : belief_options)
    (nowIso : string) : result (list claim_belief) :=
  mapM (λ c, computeBelief c (default [] (jm_get (claimId c) contributionsByClaim))
               options nowIso) claims.

(** ** Harvesting evidence from artifacts *)

Record evidence_parent := EvidenceParent {
  ep_relation : string;
  ep_artifactId : string;
  ep_kind : string;
}.

Record evidence_artifact := EvidenceArtifact {
  ea_artifactId : string;
  ea_revision : Z;
  ea_kind : string;
  ea_status : option string;
  ea_parents : option (list evidence_parent);
}.

(** [latestByArtifact]: the first artifact of the greatest revision per id. *)
Definition keep_latest (m : jmap evidence_artifact) (a : evidence_artifact)
    : jmap evidence_artifact :=
  match jm_get (ea_artifactId a) m with
  | Some existing =>
      if (ea_revision existing <? ea_revision a)%Z
      then jm_set (ea_artifactId a) a m else m
  | None => jm_set (ea_artifactId a) a m
  end.

Definition latestByArtifact (artifacts : list evidence_artifact) : jmap evidence_artifact :=
  foldl keep_latest [] artifacts.

Definition is_evidence_relation (relation : string) : bool :=
  bool_decide (relation = "supports") || bool_decide (relation = "challenges").

Definition contribution_of (now : string) (a : evidence_artifact) (p : evidence_parent)
    : contribution :=
  Contribution (ea_artifactId a) (ea_kind a) (ep_relation p)
    (strengthFromArtifactKind (ea_kind a)) (ea_revision a) now.

(** The body of the inner loop, its [continue]s as guards. *)
Definition harvest_parent (claimIds : list string) (now : string) (a : evidence_artifact)
    (m : jmap (list contribution)) (p : evidence_parent) : jmap (list contribution) :=
  if negb (bool_decide (ep_kind p = "claim")) then m
  else if negb (bool_decide (ep_artifactId p ∈ claimIds)) then m
  else if negb (is_evidence_relation (ep_relation p)) then m
  else jm_set (ep_artifactId p)
         (default [] (jm_get (ep_artifactId p) m) ++ [contribution_of now a p]) m.

Definition is_active_artifact (a : evidence_artifact) : bool :=
  match ea_status a with Some status => bool_decide (status = "active") | None => true end.

Definition harvest_artifact (claimIds : list string) (now : string)
    (m : jmap (list contribution)) (a : evidence_artifact) : jmap (list contribution) :=
  if negb (is_active_artifact a) then m
  else foldl (harvest_parent claimIds now a) m (default [] (ea_parents a)).

Definition aggregateContributions (artifacts : list evidence_artifact)
    (claimIds : list string) (now : string) : jmap (list contribution) :=
  foldl (harvest_artifact claimIds now) [] (jm_values (latestByArtifact artifacts)).

(** ** Lemmas: weights *)

Open Scope Q_scope.

Lemma clamp01_range x : 0 <= clamp01 x <= 1.
Proof.
  unfold clamp01. split.
  - apply Q.min_glb; [discriminate|]. apply Q.le_max_l.
  - apply Q.le_min_l.
Qed.

Lemma clamp01_id x : 0 <= x <= 1 → clamp01 x == x.
Proof.
  intros [H0 H1]. unfold clamp01. rewrite Q.max_r by done. by apply Q.min_r.
Qed.

Lemma clamp01_mono x y : x <= y → clamp01 x <= clamp01 y.
Proof. intros H. unfold clamp01. by apply Q.min_le_compat_l, Q.max_le_compat_l. Qed.

#[export] Instance clamp01_proper : Proper (Qeq ==> Qeq) clamp01.
Proof. intros x y H. unfold clamp01. by rewrite H. Qed.

#[export] Instance Qle_bool_proper : Proper (Qeq ==> Qeq ==> eq) Qle_bool.
Proof.
  intros x y H x' y' H'. apply eq_true_iff_eq. rewrite !Qle_bool_iff. by rewrite H, H'.
Qed.

Lemma Qlt_bool_iff x y : Qlt_bool x y = true ↔ x < y.
Proof.
  unfold Qlt_bool. rewrite negb_true_iff. split.
  - intros H. apply Qnot_le_lt. intros Hle%Qle_bool_iff. by rewrite Hle in H.
  - intros H. apply not_true_iff_false. rewrite Qle_bool_iff. by apply Qlt_not_le.
Qed.

(** The saturating transform [x / (1 + |x|)]. *)
Definition saturate (x : Q) : Q := x / (1 + Qabs x).

Lemma one_plus_abs_pos x : 0 < 1 + Qabs x.
Proof. pose proof (Qabs_nonneg x). lra. Qed.

Lemma saturate_range x : -(1) < saturate x < 1.
Proof.
  unfold saturate. pose proof (one_plus_abs_pos x).
  pose proof (Qle_Qabs x). pose proof (Qle_Qabs (- x)) as Hn. rewrite Qabs_opp in Hn. split.
  - apply Qlt_shift_div_l; [done|]. lra.
  - apply Qlt_shift_div_r; [done|]. lra.
Qed.

Lemma saturate_strict_mono x y : x < y → saturate x < saturate y.
Proof.
  intros Hxy. unfold saturate.
  pose proof (one_plus_abs_pos x) as Hx. pose proof (one_plus_abs_pos y) as Hy.
  apply Qlt_shift_div_r; [done|].
  assert (y / (1 + Qabs y) * (1 + Qabs x) == y * (1 + Qabs x) / (1 + Qabs y)) as ->
    by (field; lra).
  apply Qlt_shift_div_l; [done|].
  destruct (Qlt_le_dec x 0) as [Hx0|Hx0], (Qlt_le_dec y 0) as [Hy0|Hy0];
    rewrite ?(Qabs_neg x), ?(Qabs_neg y), ?(Qabs_pos x), ?(Qabs_pos y) by lra; nra.
Qed.

#[export] Instance saturate_proper : Proper (Qeq ==> Qeq) saturate.
Proof. intros x y H. unfold saturate. by rewrite H. Qed.

Lemma confidence_eq s c : confidence_of s c == (1 # 2) + (1 # 2) * saturate (s - c).
Proof.
  unfold confidence_of. fold (saturate (s - c)). apply clamp01_id.
  pose proof (saturate_range (s - c)). lra.
Qed.

(** ** Lemmas: the evidence loop *)

(** An item the loop can weigh. *)
Definition weighable (e : contribution) : Prop :=
  is_evidence_relation (co_relation e) = true →
  is_Some (jm_get (co_strength e) EVIDENCE_STRENGTH_WEIGHTS).

Definition weight_for (relation : string) (e : contribution) : Q :=
  if bool_decide (co_relation e = relation)
  then default 0 (jm_get (co_strength e) EVIDENCE_STRENGTH_WEIGHTS) else 0.

Definition total_weight (relation : string) (l : list contribution) : Q :=
  foldr (λ e q, weight_for relation e + q) 0 l.

Lemma weights_positive strength w :
  jm_get strength EVIDENCE_STRENGTH_WEIGHTS = Some w → 0 < w.
Proof.
  intros Hw%jm_get_elem.
  assert (Forall (λ kv, 0 < kv.2) EVIDENCE_STRENGTH_WEIGHTS) as Hall by (by repeat constructor).
  rewrite Forall_forall in Hall. exact (Hall _ Hw).
Qed.

Lemma weight_for_nonneg relation e : 0 <= weight_for relation e.
Proof.
  unfold weight_for. case_bool_decide; [|discriminate].
  destruct (jm_get _ _) as [w|] eqn:E; [|discriminate].
  apply weights_positive in E. by apply Qlt_le_weak.
Qed.

Lemma total_weight_nonneg relation l : 0 <= total_weight relation l.
Proof.
  induction l as [|e l IH]; simpl; [discriminate|].
  pose proof (weight_for_nonneg relation e). lra.
Qed.

Lemma total_weight_app relation l k :
  total_weight relation (l ++ k) == total_weight relation l + total_weight relation k.
Proof. induction l as [|e l IH]; simpl; [ring|]. rewrite IH. ring. Qed.

Lemma total_weight_perm relation l k :
  l ≡ₚ k → total_weight relation l == total_weight relation k.
Proof.
  induction 1 as [|e l k _ IH|e e' l|l k m _ IH1 _ IH2]; simpl.
  - reflexivity.
  - by rewrite IH.
  - ring.
  - by rewrite IH1.
Qed.

(** One iteration adds the item's weights. *)
Lemma add_evidence_Ok acc e :
  (weighable e ∧ ∃ acc', add_evidence acc e = Ok acc' ∧
     acc'.1 == acc.1 + weight_for "supports" e ∧
     acc'.2 == acc.2 + weight_for "challenges" e) ∨
  (¬ weighable e ∧ ∃ err, add_evidence acc e = Throw err).
Proof.
  unfold add_evidence, weighable, weight_for, is_evidence_relation, evidenceWeight.
  destruct (decide (co_relation e = "supports")) as [Hs|Hs].
  - rewrite !Hs, !bool_decide_eq_true_2, !(bool_decide_eq_false_2 ("supports" = "challenges"))
      by done.
    destruct (jm_get _ _) as [w|]; [left|right]; simpl.
    + split; [by eexists|]. eexists. split; [done|]. simpl. split; [done|ring].
    + split; [|by eexists]. intros [? ?]; [|done]. done.
  - rewrite !(bool_decide_eq_false_2 (co_relation e = "supports")) by done.
    case_bool_decide as Hc.
    + destruct (jm_get _ _) as [w|]; [left|right]; simpl.
      * split; [by eexists|]. eexists. split; [done|]. simpl. split; [ring|done].
      * split; [|by eexists]. intros [? ?]; [|done]. done.
    + left. split; [done|]. eexists. split; [done|]. split; ring.
Qed.

Lemma evidence_loop l : ∀ acc,
  (Forall weighable l ∧ ∃ acc', foldM add_evidence acc l = Ok acc' ∧
     acc'.1 == acc.1 + total_weight "supports" l ∧
     acc'.2 == acc.2 + total_weight "challenges" l) ∨
  (¬ Forall weighable l ∧ ∃ err, foldM add_evidence acc l = Throw err).
Proof.
  induction l as [|e l IH]; intros acc.
  { left. split; [done|]. exists acc. split; [done|]. split; simpl; ring. }
  cbn [foldM total_weight foldr]. fold (total_weight "supports" l).
  fold (total_weight "challenges" l).
  destruct (add_evidence_Ok acc e) as [(He & acc1 & -> & Hs & Hc)|(He & err & ->)].
  - cbn [mbind result_bind].
    destruct (IH acc1) as [(Hl & acc2 & -> & Hs2 & Hc2)|(Hl & err & ->)]; [left|right].
    + split; [by constructor|]. exists acc2. split; [done|].
      rewrite Hs2, Hc2, Hs, Hc. split; ring.
    + split; [|by eexists]. by intros [_ ?]%Forall_cons.
  - right. split; [|by eexists]. by intros [? _]%Forall_cons.
Qed.

(** [computeBelief] in closed form. *)
Lemma computeBelief_Ok c l options now b :
  computeBelief c l options now = Ok b →
  ∃ s ch, b = ClaimBelief (claimId c) (status_of options s ch) (confidence_of s ch)
            (uncertainty_of s ch) s ch (length l) now ∧
    s == total_weight "supports" l ∧ ch == total_weight "challenges" l.
Proof.
  unfold computeBelief. intros H. inv_result. destruct r as [s ch]. injection H as <-.
  destruct (evidence_loop l (0, 0)) as [(_ & acc & Hacc & Hs & Hc)|(_ & err & Herr)].
  - rewrite Hr in Hacc. injection Hacc as <-. simpl in Hs, Hc.
    exists s, ch. split; [done|]. rewrite Hs, Hc. split; ring.
  - by rewrite Hr in Herr.
Qed.

Lemma computeBelief_is_ok c l options now :
  is_ok (computeBelief c l options now) = true ↔ Forall weighable l.
Proof.
  unfold computeBelief.
  destruct (evidence_loop l (0, 0)) as [(Hl & [s ch] & -> & _)|(Hl & err & ->)]; simpl; split;
    done.
Qed.

#[export] Instance confidence_of_proper : Proper (Qeq ==> Qeq ==> Qeq) confidence_of.
Proof. intros s s' Hs c c' Hc. rewrite !confidence_eq. by rewrite Hs, Hc. Qed.

#[export] Instance uncertainty_of_proper : Proper (Qeq ==> Qeq ==> Qeq) uncertainty_of.
Proof. intros s s' Hs c c' Hc. unfold uncertainty_of. by rewrite Hs, Hc. Qed.

Lemma status_of_ext options s s' ch ch' :
  s == s' → ch == ch' → status_of options s ch = status_of options s' ch'.
Proof.
  intros Hs Hc. assert (∀ t, Qle_bool t ch = Qle_bool t ch') as Ht by (intros t; by rewrite Hc).
  assert (Qle_bool ch s = Qle_bool ch' s') as Hsc by (by rewrite Hs, Hc).
  unfold status_of, Qlt_bool. by rewrite !Ht, <- Hsc.
Qed.

Lemma uncertainty_of_anti s ch s' ch' :
  s + ch <= s' + ch' → uncertainty_of s' ch' <= uncertainty_of s ch.
Proof.
  intros H. unfold uncertainty_of. apply clamp01_mono.
  unfold UNCERTAINTY_DECAY_PER_EVIDENCE. lra.
Qed.

Lemma confidence_of_strict s ch s' ch' :
  s - ch < s' - ch' → confidence_of s ch < confidence_of s' ch'.
Proof.
  intros H. rewrite !confidence_eq. pose proof (saturate_strict_mono _ _ H). lra.
Qed.

Lemma weight_for_weighable relation e :
  weighable e → is_evidence_relation (co_relation e) = true →
  co_relation e = relation → 0 < weight_for relation e.
Proof.
  intros Hw Hr <-. unfold weight_for. rewrite bool_decide_eq_true_2 by done.
  destruct (Hw Hr) as [w Hg]. rewrite Hg. by apply weights_positive in Hg.
Qed.

Lemma weight_for_other relation e : co_relation e ≠ relation → weight_for relation e = 0.
Proof. intros H. unfold weight_for. by rewrite bool_decide_eq_false_2. Qed.

(** Two beliefs that differ only in the representation of their fractions. *)
Definition belief_equiv (b b' : claim_belief) : Prop :=
  cb_claimId b = cb_claimId b' ∧ cb_status b = cb_status b' ∧
  cb_confidence b == cb_confidence b' ∧ cb_uncertainty b == cb_uncertainty b' ∧
  cb_supportsWeight b == cb_supportsWeight b' ∧
  cb_challengesWeight b == cb_challengesWeight b' ∧
  cb_evidenceCount b = cb_evidenceCount b'.

(** ** Properties *)

(** P: A belief is a saturating function of the evidence: the confidence is
    [1/2 + 1/2 * d / (1 + |d|)] of the difference [d] of the two total
    weights and lies strictly between 0 and 1 (the clamp never acts), the
    uncertainty lies in [0, 1], and the status is falsified only where it
    would be challenged, which needs the challenges to outweigh the supports. *)
Theorem belief_bounded c l options now b :
  computeBelief c l options now = Ok b →
  let d := total_weight "supports" l - total_weight "challenges" l in
  cb_confidence b == (1 # 2) + (1 # 2) * (d / (1 + Qabs d)) ∧
  0 < cb_confidence b < 1 ∧ 0 <= cb_uncertainty b <= 1 ∧
  (cb_status b ≠ ClaimActive →
     total_weight "supports" l < total_weight "challenges" l ∧ cb_confidence b < 1 # 2).
Proof.
  intros (s & ch & -> & Hs & Hc)%computeBelief_Ok d.
  cbn [cb_confidence cb_uncertainty cb_status].
  assert (confidence_of s ch == (1 # 2) + (1 # 2) * saturate d) as Hconf.
  { rewrite confidence_eq. subst d. by rewrite Hs, Hc. }
  pose proof (saturate_range d) as Hr.
  split; [exact Hconf|]. split; [rewrite Hconf; lra|]. split; [apply clamp01_range|].
  intros Hst. unfold status_of in Hst.
  destruct (Qlt_bool s ch) eqn:E; [|by rewrite andb_false_r in Hst].
  apply Qlt_bool_iff in E. rewrite Hs, Hc in E. split; [done|]. rewrite Hconf.
  assert (saturate d < saturate 0) as Hneg by (apply saturate_strict_mono; subst d; lra).
  assert (saturate 0 == 0) as H0 by reflexivity. lra.
Qed.

(** P: Evidence moves a belief the right way: one more supporting
    contribution strictly raises the confidence, one more challenging
    contribution strictly lowers it, and neither raises the uncertainty. *)
Theorem belief_monotone c l e options now b b' :
  computeBelief c l options now = Ok b →
  computeBelief c (l ++ [e]) options now = Ok b' →
  cb_uncertainty b' <= cb_uncertainty b ∧
  (co_relation e = "supports" → cb_confidence b < cb_confidence b') ∧
  (co_relation e = "challenges" → cb_confidence b' < cb_confidence b).
Proof.
  intros (s & ch & -> & Hs & Hc)%computeBelief_Ok Hb'.
  assert (weighable e) as He.
  { assert (is_ok (computeBelief c (l ++ [e]) options now) = true) as Hok by (by rewrite Hb').
    apply computeBelief_is_ok, Forall_app in Hok as [_ [? _]%Forall_cons]. done. }
  apply computeBelief_Ok in Hb' as (s' & ch' & -> & Hs' & Hc'). cbn [cb_uncertainty cb_confidence].
  rewrite total_weight_app, <- Hs in Hs'. rewrite total_weight_app, <- Hc in Hc'.
  simpl in Hs', Hc'. split; [|split].
  - apply uncertainty_of_anti. rewrite Hs', Hc'.
    pose proof (weight_for_nonneg "supports" e). pose proof (weight_for_nonneg "challenges" e).
    lra.
  - intros Hr. apply confidence_of_strict. rewrite Hs', Hc'.
    rewrite (weight_for_other "challenges") by (by rewrite Hr).
    assert (0 < weight_for "supports" e) by (apply weight_for_weighable; [done|by rewrite Hr|done]).
    lra.
  - intros Hr. apply confidence_of_strict. rewrite Hs', Hc'.
    rewrite (weight_for_other "supports") by (by rewrite Hr).
    assert (0 < weight_for "challenges" e)
      by (apply weight_for_weighable; [done|by rewrite Hr|done]).
    lra.
Qed.

(** P: The order in which evidence is listed does not matter, and a belief
    is computed exactly when every supporting or challenging contribution has
    a known strength. *)
Theorem belief_order_irrelevant c l l' options now :
  l ≡ₚ l' →
  (is_ok (computeBelief c l options now) = true ↔ Forall weighable l) ∧
  match computeBelief c l options now, computeBelief c l' options now with
  | Ok b, Ok b' => belief_equiv b b'
  | Throw _, Throw _ => True
  | _, _ => False
  end.
Proof.
  intros Hp. split; [apply computeBelief_is_ok|].
  pose proof (computeBelief_is_ok c l options now) as H1.
  pose proof (computeBelief_is_ok c l' options now) as H2.
  assert (Forall weighable l ↔ Forall weighable l') as Hw by (by rewrite Hp).
  rewrite <- Hw, <- H1 in H2.
  destruct (computeBelief c l options now) as [b|e] eqn:Hb,
    (computeBelief c l' options now) as [b'|e'] eqn:Hb'; simpl in H2;
    [|by destruct H2 as [_ H2]; discriminate H2|by destruct H2 as [H2 _]; discriminate H2|done].
  apply computeBelief_Ok in Hb as (s & ch & -> & Hs & Hc).
  apply computeBelief_Ok in Hb' as (s' & ch' & -> & Hs' & Hc').
  rewrite (total_weight_perm _ _ _ Hp), <- Hs' in Hs.
  rewrite (total_weight_perm _ _ _ Hp), <- Hc' in Hc.
  unfold belief_equiv.
  cbn [cb_claimId cb_status cb_confidence cb_uncertainty cb_supportsWeight
       cb_challengesWeight cb_evidenceCount].
  split_and!; [done|by apply status_of_ext|by apply confidence_of_proper|
    by apply uncertainty_of_proper|done|done|by rewrite Hp].
Qed.

(** ** Lemmas: harvesting *)

Open Scope Z_scope.

Definition better (best : option evidence_artifact) (a : evidence_artifact)
    : option evidence_artifact :=
  match best with
  | Some b => if (ea_revision b <? ea_revision a)%Z then Some a else best
  | None => Some a
  end.

Lemma keep_latest_get m a id :
  jm_get id (keep_latest m a) =
  if decide (ea_artifactId a = id) then better (jm_get id m) a else jm_get id m.
Proof.
  unfold keep_latest, better. case_decide as Hid.
  - rewrite Hid. destruct (jm_get id m) as [b|] eqn:E.
    + destruct (_ <? _); [apply jm_get_set_eq|done].
    + apply jm_get_set_eq.
  - destruct (jm_get (ea_artifactId a) m); [destruct (_ <? _)|];
      rewrite ?jm_get_set_ne by congruence; done.
Qed.

(** The entry of an id is one of its artifacts, of the greatest revision. *)
Lemma latest_get l : ∀ m id a,
  jm_get id (foldl keep_latest m l) = Some a →
  (jm_get id m = Some a ∨ a ∈ l ∧ ea_artifactId a = id) ∧
  (∀ a', jm_get id m = Some a' ∨ a' ∈ l ∧ ea_artifactId a' = id →
     ea_revision a' <= ea_revision a).
Proof.
  induction l as [|x l IH]; intros m id a; cbn [foldl].
  { intros Ha. split; [by left|]. intros a' [Ha'|[?%elem_of_nil _]]; [|done].
    rewrite Ha in Ha'. injection Ha' as <-. done. }
  intros Ha. apply IH in Ha as [Ha Hmax]. rewrite keep_latest_get in Ha, Hmax.
  case_decide as Hid.
  - unfold better in *. destruct (jm_get id m) as [b|] eqn:E.
    + destruct (Z.ltb_spec (ea_revision b) (ea_revision x)).
      * split.
        { destruct Ha as [[= ->]|[??]]; right; (split; [by constructor|done]). }
        intros a' [[= ->]|[[->|Hin]%elem_of_cons Ha']].
        { specialize (Hmax x (or_introl eq_refl)). lia. }
        { apply Hmax. by left. }
        apply Hmax. by right.
      * split.
        { destruct Ha as [?|[??]]; [by left|right; split; [by right|done]]. }
        intros a' [[= ->]|[[->|Hin]%elem_of_cons Ha']].
        { apply Hmax. by left. }
        { specialize (Hmax b (or_introl eq_refl)). lia. }
        apply Hmax. by right.
    + split.
      * destruct Ha as [[= ->]|[??]]; right; (split; [by constructor|done]).
      * intros a' [?|[[->|Hin]%elem_of_cons Ha']]; [done|..]; apply Hmax; [by left|by right].
  - split.
    + destruct Ha as [?|[??]]; [by left|right; split; [by right|done]].
    + intros a' [?|[[->|Hin]%elem_of_cons Ha']]; [apply Hmax; by left|done|].
      apply Hmax. by right.
Qed.

Lemma latest_present l : ∀ m a,
  a ∈ l → is_Some (jm_get (ea_artifactId a) (foldl keep_latest m l)).
Proof.
  assert (∀ l m id, is_Some (jm_get id m) → is_Some (jm_get id (foldl keep_latest m l)))
    as Hkeep.
  { clear. intros l. induction l as [|x l IH]; intros m id Hm; [done|]. cbn [foldl].
    apply IH. rewrite keep_latest_get. case_decide; [|done].
    unfold better. destruct Hm as [b ->]. by destruct (_ <? _). }
  induction l as [|x l IH]; intros m a; [by intros ?%elem_of_nil|]. cbn [foldl].
  intros [->|Hin]%elem_of_cons; [|by apply IH].
  apply Hkeep. rewrite keep_latest_get, decide_True by done.
  unfold better. destruct (jm_get _ m); [by destruct (_ <? _)|done].
Qed.

Lemma latest_keys_NoDup l : ∀ m,
  NoDup (jm_keys m) → NoDup (jm_keys (foldl keep_latest m l)).
Proof.
  induction l as [|x l IH]; intros m Hm; [done|]. cbn [foldl]. apply IH.
  unfold keep_latest. destruct (jm_get _ m); [destruct (_ <? _)|];
    try done; by apply jm_keys_set_NoDup.
Qed.

(** An artifact no other revision of which is greater. *)
Definition is_latest (artifacts : list evidence_artifact) (a : evidence_artifact) : Prop :=
  a ∈ artifacts ∧
  ∀ a', a' ∈ artifacts → ea_artifactId a' = ea_artifactId a → ea_revision a' <= ea_revision a.

Lemma elem_of_latestByArtifact artifacts a :
  NoDup ((λ a, (ea_artifactId a, ea_revision a)) <$> artifacts) →
  a ∈ jm_values (latestByArtifact artifacts) ↔ is_latest artifacts a.
Proof.
  intros Hnd. unfold latestByArtifact.
  assert (∀ id a, jm_get id (foldl keep_latest [] artifacts) = Some a →
    a ∈ artifacts ∧ ea_artifactId a = id ∧
    ∀ a', a' ∈ artifacts → ea_artifactId a' = id → ea_revision a' <= ea_revision a) as Hget.
  { intros id b Hb. apply latest_get in Hb as [[?|[Hb Hid]] Hmax]; [done|].
    split; [done|]. split; [done|]. intros a' Ha' Hid'. apply Hmax. by right. }
  unfold jm_values. rewrite list_elem_of_fmap. split.
  - intros ([id b] & -> & Hin). apply jm_elem_get in Hin; [|apply latest_keys_NoDup; constructor].
    apply Hget in Hin as (Hb & <- & Hmax). by split.
  - intros [Ha Hmax]. destruct (latest_present artifacts [] a Ha) as [b Hb].
    exists (ea_artifactId a, b). split; [|by apply jm_get_elem]. cbn [snd].
    apply Hget in Hb as (Hb & Hid & Hmax').
    pose proof (Hmax b Hb Hid). pose proof (Hmax' a Ha eq_refl).
    apply list_elem_of_lookup in Ha as [i Hi]. apply list_elem_of_lookup in Hb as [j Hj].
    assert (i = j) as ->; [|congruence].
    eapply NoDup_lookup; [exact Hnd|..]; rewrite list_lookup_fmap;
      [by rewrite Hi|rewrite Hj]. simpl. do 2 f_equal; [done|lia].
Qed.

(** The contributions an artifact makes to one claim. *)
Definition contributions_to (claimIds : list string) (now c : string) (a : evidence_artifact)
    : list contribution :=
  if is_active_artifact a then
    contribution_of now a <$>
      filter (λ p, ep_kind p = "claim" ∧ ep_artifactId p = c ∧ c ∈ claimIds ∧
                   is_evidence_relation (ep_relation p) = true)
        (default [] (ea_parents a))
  else [].

Lemma harvest_parents_get claimIds now a c ps : ∀ m,
  default [] (jm_get c (foldl (harvest_parent claimIds now a) m ps)) =
  default [] (jm_get c m) ++ (contribution_of now a <$>
    filter (λ p, ep_kind p = "claim" ∧ ep_artifactId p = c ∧ c ∈ claimIds ∧
                 is_evidence_relation (ep_relation p) = true) ps).
Proof.
  induction ps as [|p ps IH]; intros m; [by rewrite app_nil_r|]. cbn [foldl].
  rewrite IH, filter_cons. clear IH. unfold harvest_parent.
  destruct (decide (ep_kind p = "claim")) as [Hk|Hk].
  2:{ rewrite bool_decide_eq_false_2, decide_False by (done || naive_solver). done. }
  rewrite (bool_decide_eq_true_2 (ep_kind p = "claim")) by done. cbn [negb].
  destruct (decide (ep_artifactId p ∈ claimIds)) as [Hc|Hc].
  2:{ rewrite bool_decide_eq_false_2, decide_False; [done| |done].
      intros (_ & Hid & Hin & _). by rewrite <- Hid in Hin. }
  rewrite bool_decide_eq_true_2 by done. cbn [negb].
  destruct (is_evidence_relation (ep_relation p)) eqn:Hr.
  2:{ rewrite decide_False by naive_solver. done. }
  cbn [negb]. rewrite jm_get_set. case_decide as Hid.
  - rewrite decide_True by (subst; done). cbn [default from_option].
    rewrite fmap_cons. subst c. unfold id at 1. by rewrite <- app_assoc.
  - rewrite decide_False by naive_solver. done.
Qed.

Lemma aggregate_get artifacts claimIds now c :
  default [] (jm_get c (aggregateContributions artifacts claimIds now)) =
  concat (contributions_to claimIds now c <$> jm_values (latestByArtifact artifacts)).
Proof.
  unfold aggregateContributions. generalize (jm_values (latestByArtifact artifacts)).
  intros l. change (concat (contributions_to claimIds now c <$> l))
    with (default [] (jm_get c ([] : jmap (list contribution)))
          ++ concat (contributions_to claimIds now c <$> l)).
  generalize ([] : jmap (list contribution)).
  induction l as [|a l IH]; intros m; [by rewrite app_nil_r|]. cbn [foldl].
  rewrite IH, fmap_cons. cbn [concat]. rewrite app_assoc. f_equal.
  unfold harvest_artifact, contributions_to.
  destruct (is_active_artifact a); cbn [negb]; [|by rewrite app_nil_r].
  apply harvest_parents_get.
Qed.

Lemma elem_of_concat {A} (x : A) ls : x ∈ concat ls ↔ ∃ l, x ∈ l ∧ l ∈ ls.
Proof.
  rewrite list_elem_of_In, in_concat. setoid_rewrite list_elem_of_In.
  split; intros (l & ? & ?); by exists l.
Qed.

(** Harvested evidence always has a known strength. *)
Lemma contribution_of_weighable now a p : weighable (contribution_of now a p).
Proof.
  intros _. cbn [contribution_of co_strength]. unfold strengthFromArtifactKind.
  repeat case_bool_decide; by eexists.
Qed.

Lemma aggregate_weighable artifacts claimIds now c :
  Forall weighable (default [] (jm_get c (aggregateContributions artifacts claimIds now))).
Proof.
  rewrite aggregate_get. apply Forall_concat, Forall_fmap, Forall_forall. intros a _.
  unfold compose, contributions_to. destruct (is_active_artifact a); [|constructor].
  apply Forall_fmap, Forall_forall. intros p _. apply contribution_of_weighable.
Qed.

(** ** Properties: harvesting *)

(** P: The evidence harvested for a claim is exactly: for every artifact
    that is the latest revision of its id and whose status is absent or
    active, one contribution per supporting or challenging parent edge to that
    claim, with the strength of its kind; and every claim's belief can be
    computed from it. *)
Theorem harvest_exact artifacts claimIds now c options e claim_ :
  NoDup ((λ a, (ea_artifactId a, ea_revision a)) <$> artifacts) →
  let evidence := default [] (jm_get c (aggregateContributions artifacts claimIds now)) in
  (e ∈ evidence ↔
   c ∈ claimIds ∧ ∃ a p, is_latest artifacts a ∧ is_active_artifact a = true ∧
     p ∈ default [] (ea_parents a) ∧ ep_kind p = "claim" ∧ ep_artifactId p = c ∧
     is_evidence_relation (ep_relation p) = true ∧ e = contribution_of now a p) ∧
  is_ok (computeBelief claim_ evidence options now) = true.
Proof.
  intros Hnd evidence. subst evidence. split.
  2:{ apply computeBelief_is_ok, aggregate_weighable. }
  rewrite aggregate_get, elem_of_concat. split.
  - intros (l & Hel & (a & -> & Ha)%list_elem_of_fmap). unfold contributions_to in Hel.
    destruct (is_active_artifact a) eqn:Hact; [|by apply elem_of_nil in Hel].
    apply list_elem_of_fmap in Hel as (p & -> & Hp).
    apply list_elem_of_filter in Hp as [(Hk & Hid & Hc & Hr) Hp].
    split; [done|]. exists a, p. apply elem_of_latestByArtifact in Ha; [|done]. done.
  - intros (Hc & a & p & Ha & Hact & Hp & Hk & Hid & Hr & ->).
    exists (contributions_to claimIds now c a). split.
    + unfold contributions_to. rewrite Hact. apply list_elem_of_fmap. exists p.
      split; [done|]. apply list_elem_of_filter. by split_and!.
    + apply list_elem_of_fmap. exists a. split; [done|]. by apply elem_of_latestByArtifact.
Qed.

(** ** Concrete runs *)

Definition sample_claim : claim :=
  MkClaim "claim-1" "Method A beats B" JUndefined JUndefined JUndefined (JStr "2024-01-01").

Definition sample_contribution (relation strength : string) : contribution :=
  Contribution "run-1" "run_attempt" relation strength 1 "2024-01-02".

Definition no_options : belief_options := BeliefOptions None None.

Definition sample_artifact_2 : evidence_artifact :=
  EvidenceArtifact "run-1" 2 "run_attempt" (Some "active")
    (Some [EvidenceParent "supports" "claim-1" "claim"]).

Definition sample_evidence_list : list evidence_artifact :=
  [EvidenceArtifact "run-1" 1 "run_attempt" (Some "superseded")
     (Some [EvidenceParent "challenges" "claim-1" "claim"]);
   sample_artifact_2].

(** The computed belief, or an empty one. *)
Definition belief_of (l : list contribution) : claim_belief :=
  match computeBelief sample_claim l no_options "now" with
  | Ok b => b
  | Throw _ => ClaimBelief "" ClaimActive 0 0 0 0 0 ""
  end.

Definition two_challenges : list contribution :=
  [sample_contribution "challenges" "observed_result";
   sample_contribution "challenges" "replicated_result"].

Example challenged_run : cb_status (belief_of two_challenges) = Challenged.
Proof. reflexivity. Qed.

Lemma belief_bounded_witness :
  let d := (total_weight "supports" two_challenges
            - total_weight "challenges" two_challenges)%Q in
  (cb_confidence (belief_of two_challenges) == (1 # 2) + (1 # 2) * (d / (1 + Qabs d)))%Q ∧
  (0 < cb_confidence (belief_of two_challenges) < 1)%Q ∧
  (0 <= cb_uncertainty (belief_of two_challenges) <= 1)%Q ∧
  (cb_status (belief_of two_challenges) ≠ ClaimActive →
     (total_weight "supports" two_challenges < total_weight "challenges" two_challenges)%Q ∧
     (cb_confidence (belief_of two_challenges) < 1 # 2)%Q).
Proof. apply (belief_bounded sample_claim two_challenges no_options "now"). reflexivity. Defined.

Lemma belief_monotone_witness :
  (cb_uncertainty (belief_of (two_challenges ++ [sample_contribution "supports" "citation"]))
   <= cb_uncertainty (belief_of two_challenges))%Q ∧
  ("supports" = "supports" →
   (cb_confidence (belief_of two_challenges)
    < cb_confidence (belief_of (two_challenges ++ [sample_contribution "supports" "citation"])))%Q) ∧
  ("supports" = "challenges" →
   (cb_confidence (belief_of (two_challenges ++ [sample_contribution "supports" "citation"]))
    < cb_confidence (belief_of two_challenges))%Q).
Proof.
  apply (belief_monotone sample_claim two_challenges (sample_contribution "supports" "citation")
    no_options "now"); reflexivity.
Defined.

Lemma belief_order_irrelevant_witness :
  (is_ok (computeBelief sample_claim two_challenges no_options "now") = true
     ↔ Forall weighable two_challenges) ∧
  match computeBelief sample_claim two_challenges no_options "now",
        computeBelief sample_claim (reverse two_challenges) no_options "now" with
  | Ok b, Ok b' => belief_equiv b b'
  | Throw _, Throw _ => True
  | _, _ => False
  end.
Proof.
  apply (belief_order_irrelevant sample_claim two_challenges (reverse two_challenges)).
  apply Permutation_swap.
Defined.

Lemma harvest_exact_witness :
  let evidence := default [] (jm_get "claim-1"
    (aggregateContributions sample_evidence_list ["claim-1"] "now")) in
  (contribution_of "now" sample_artifact_2 (EvidenceParent "supports" "claim-1" "claim")
     ∈ evidence ↔
   "claim-1" ∈ ["claim-1"] ∧ ∃ a p, is_latest sample_evidence_list a ∧
     is_active_artifact a = true ∧ p ∈ default [] (ea_parents a) ∧ ep_kind p = "claim" ∧
     ep_artifactId p = "claim-1" ∧ is_evidence_relation (ep_relation p) = true ∧
     contribution_of "now" sample_artifact_2 (EvidenceParent "supports" "claim-1" "claim")
     = contribution_of "now" a p) ∧
  is_ok (computeBelief sample_claim evidence no_options "now") = true.
Proof.
  apply (harvest_exact sample_evidence_list ["claim-1"] "now" "claim-1" no_options
    (contribution_of "now" sample_artifact_2 (EvidenceParent "supports" "claim-1" "claim"))
    sample_claim).
  vm_compute. repeat constructor; by rewrite ?list_elem_of_In; simpl; intuition congruence.
Defined.
