(* ===== verification/ClaimGraph.v ===== *)
(** * The claim graph

    [ClaimGraph] of src/src/research/claims/ClaimGraph.ts: loading and saving
    claims.json, claim upserts, supersession of a claim with its descendants,
    and the belief snapshot.

    Operations take the instance and the file and return their result (or
    exception), the instance and the file afterwards.  [io] is the outcome of
    writing the temporary file and renaming it, [now] what [toISOString] of the
    clock returns.  [withClaimWriteLock] runs the mutations of a file one
    after the other, so each is one step here; the two reads of a load that
    fails see the same file. *)

From Stdlib Require Import QArith.
From S2P Require Import Prelude Digraph Host JsValue Beliefs.

(** ** Data *)

(** A record as it was parsed or built, unknown fields included.  A field of a
    literal whose value is undefined is left out, which no reader and no
    writer of records can tell. *)
Definition claim_record : Type := jsval.

Definition text_of (v : jsval) : string := default "" (as_string v).

(** [record.claim], through the fields of its type. *)
Definition cr_claim (r : claim_record) : claim :=
  let c := jget r "claim" in
  MkClaim (text_of (jget c "claimId")) (text_of (jget c "statement")) (jget c "falsificationCondition")
    (jget c "parentClaimIds") (jget c "sourceArtifactId") (jget c "createdAt").

Definition cr_statusOverride (r : claim_record) : jsval := jget r "statusOverride".
Definition cr_supersededByClaimId (r : claim_record) : jsval := jget r "supersededByClaimId".
Definition cr_supersededAt (r : claim_record) : jsval := jget r "supersededAt".

(** The instance: [claims], [loaded], [loadFailed], [contributions]. *)
Record claim_graph := ClaimGraphState {
  cg_claims : jmap claim_record;
  cg_loaded : bool;
  cg_loadFailed : bool;
  cg_contributions : jmap (list contribution);
}.

Definition newClaimGraph : claim_graph := ClaimGraphState [] false false [].

(** claims.json: absent, there but not readable (no permission, an I/O error),
    not JSON, or a value. *)
Inductive claims_file :=
  | ClaimsMissing
  | ClaimsUnreadable (content : jsval)
  | ClaimsCorrupt
  | ClaimsJson (v : jsval).

Definition MAX_CLAIMS_FILE_BYTES : Z := 16 * 1024 * 1024.

(** ** JSON *)

Definition drop_undefined (fields : list (string * jsval)) : jsval :=
  JObj (filter (λ kv, is_undefined kv.2 = false) fields).

Definition claim_to_json (c : claim) : jsval :=
  drop_undefined
    [("claimId", JStr (claimId c)); ("statement", JStr (statement c));
     ("falsificationCondition", falsificationCondition c);
     ("parentClaimIds", parentClaimIds c);
     ("sourceArtifactId", sourceArtifactId c); ("createdAt", claim_createdAt c)].

Definition state_to_json (m : jmap claim_record) : jsval :=
  JObj [("schemaVersion", JNum (NInt 1)); ("claims", JArr (jm_values m))].

(** A record with a usable claim. *)
Definition usable (r : claim_record) : bool :=
  match as_string (jget (jget r "claim") "claimId"), as_string (jget (jget r "claim") "statement") with
  | Some _, Some _ => true
  | _, _ => false
  end.

(** ** Loading and saving *)

Definition set_record (m : jmap claim_record) (r : claim_record) : jmap claim_record :=
  jm_set (claimId (cr_claim r)) r m.

(** What [load] reads into an empty instance: the claims and [loadFailed].  A
    file whose two reads fail counts as missing. *)
Definition load_file (f : claims_file) (m : jmap claim_record) : jmap claim_record * bool :=
  match f with
  | ClaimsMissing | ClaimsUnreadable _ => (m, false)
  | ClaimsCorrupt => (m, true)
  | ClaimsJson v =>
      match jget v "claims" with
      | JArr records =>
          let salvaged := List.filter usable records in
          let dropped := (length records - length salvaged)%nat in
          (foldl set_record m salvaged,
           (0 <? dropped)%nat && (length salvaged =? 0)%nat)
      | _ => (m, true)
      end
  end.

Definition load (g : claim_graph) (f : claims_file) : claim_graph :=
  if cg_loaded g then g
  else
    let '(claims, failed) := load_file f (cg_claims g) in
    ClaimGraphState claims true (cg_loadFailed g || failed) (cg_contributions g).

Definition with_claims (m : jmap claim_record) (g : claim_graph) : claim_graph :=
  ClaimGraphState m (cg_loaded g) (cg_loadFailed g) (cg_contributions g).

Definition refuse_overwrite : js_error :=
  PlainError "Claim graph file is corrupt; refusing to overwrite it. Inspect and repair".

Definition too_large : js_error :=
  PlainError ("Claim graph exceeds its size limit (" +:+ pretty MAX_CLAIMS_FILE_BYTES
    +:+ " bytes).").

(** The file after writing [m]; an exception leaves it as it was. *)
Definition save (io : result unit) (g : claim_graph) (m : jmap claim_record)
    : result claims_file :=
  _ ← ensure (negb (cg_loadFailed g)) refuse_overwrite;
  let serialized :=
    default "" (json_stringify "" (state_to_json m)) +:+ String (ascii_of_N 10) "" in
  _ ← ensure (utf8_length serialized <=? MAX_CLAIMS_FILE_BYTES)%Z too_large;
  _ ← io;
  Ok (ClaimsJson (state_to_json m)).

(** [await this.save(next); this.claims = next; return value]. *)
Definition commit {A} (io : result unit) (g : claim_graph) (f : claims_file)
    (next : jmap claim_record) (value : A) : result A * claim_graph * claims_file :=
  match save io g next with
  | Ok f' => (Ok value, with_claims next g, f')
  | Throw e => (Throw e, g, f)
  end.

(** ** Claims *)

Record upsert_input := UpsertInput {
  ui_claimId : string;
  ui_statement : string;
  ui_falsificationCondition : option string;
  ui_parentClaimIds : option (list string);
  ui_sourceArtifactId : option string;
}.

Definition opt_str (o : option string) : jsval :=
  match o with Some s => JStr s | None => JUndefined end.

(** [existing?.field]. *)
Definition existing_field (existing : option claim_record) (field : claim_record → jsval)
    : jsval := match existing with Some r => field r | None => JUndefined end.

Definition upsert_record (existing : option claim_record) (input : upsert_input)
    (now : string) : claim_record :=
  let createdAt := existing_field existing (λ r, claim_createdAt (cr_claim r)) in
  drop_undefined
    [("claim", claim_to_json
        (MkClaim (ui_claimId input) (ui_statement input)
           (opt_str (ui_falsificationCondition input))
           (match ui_parentClaimIds input with
            | Some ids => JArr (JStr <$> ids)
            | None => JUndefined
            end)
           (opt_str (ui_sourceArtifactId input))
           (if is_nullish createdAt then JStr now else createdAt)));
     ("statusOverride", existing_field existing cr_statusOverride);
     ("supersededByClaimId", existing_field existing cr_supersededByClaimId);
     ("supersededAt", existing_field existing cr_supersededAt)].

Definition upsertClaim (io : result unit) (now : string) (input : upsert_input)
    (g : claim_graph) (f : claims_file) : result claim * claim_graph * claims_file :=
  let g := load g f in
  let r := upsert_record (jm_get (ui_claimId input) (cg_claims g)) input now in
  commit io g f (jm_set (ui_claimId input) r (cg_claims g)) (cr_claim r).

Definition listClaims (g : claim_graph) (f : claims_file) : list claim * claim_graph :=
  let g := load g f in (cr_claim <$> jm_values (cg_claims g), g).

Definition getClaim (id : string) (g : claim_graph) (f : claims_file)
    : option claim * claim_graph :=
  let g := load g f in (cr_claim <$> jm_get id (cg_claims g), g).

(** ** Supersession *)

(** The values [for (const parent of parentClaimIds ?? [])] visits. *)
Fixpoint string_chars (s : string) : list string :=
  match s with EmptyString => [] | String c s => String c "" :: string_chars s end.

Definition parents_of (c : claim) : result (list jsval) :=
  match parentClaimIds c with
  | JUndefined | JNull => Ok []
  | JArr l => Ok l
  | JStr s => Ok (JStr <$> string_chars s)
  | _ => Throw (TypeError "parentClaimIds is not iterable")
  end.

(** [children.set(parent, [...(children.get(parent) ?? []), child])]; a parent
    that is not a string is never looked up. *)
Definition add_child (child : string) (m : jmap (list string)) (parent : jsval)
    : jmap (list string) :=
  match parent with
  | JStr p => jm_set p (default [] (jm_get p m) ++ [child]) m
  | _ => m
  end.

Definition children_map (claims : jmap claim_record) : result (jmap (list string)) :=
  foldM (λ m r,
    parents ← parents_of (cr_claim r);
    Ok (foldl (add_child (claimId (cr_claim r))) m parents)) [] (jm_values claims).

Definition lookup_children (m : jmap (list string)) (id : string) : list string :=
  default [] (jm_get id m).

Definition collectDescendants (claims : jmap claim_record) (id : string)
    : result (list string) :=
  children ← children_map claims;
  Ok (stack_closure (lookup_children children)
        (1 + sum_list_with length (jm_values children)) [id] []).

Record supersede_input := SupersedeInput {
  si_claimId : string;
  si_supersededByClaimId : string;
}.

(** [if (existing.supersededByClaimId)]: a truthy value. *)
Definition truthy_value (v : jsval) : bool :=
  match v with
  | JUndefined | JNull | JBool false | JStr "" | JNum (NInt 0) | JNum NNegZero
  | JNum NNaN => false
  | _ => true
  end.

(** [{ ...record, statusOverride, supersededByClaimId, supersededAt }]. *)
Definition mark_superseded (by_ now : string) (r : claim_record) : claim_record :=
  let fields := match r with JObj fields => fields | _ => [] end in
  JObj (jm_set "supersededAt" (JStr now) (jm_set "supersededByClaimId" (JStr by_)
    (jm_set "statusOverride" (JStr "superseded") fields))).

Definition mark_one (by_ now : string) (m : jmap claim_record) (id : string)
    : jmap claim_record :=
  match jm_get id m with
  | Some r => jm_set id (mark_superseded by_ now r) m
  | None => m
  end.

(** [`${value}`] of a JSON value. *)
Fixpoint template_text (v : jsval) : string :=
  match v with
  | JUndefined => "undefined"
  | JNull => "null"
  | JBool b => if b then "true" else "false"
  | JNum n => number_to_string n
  | JStr s => s
  | JArr l => str_join "," (map (λ x, if is_nullish x then "" else template_text x) l)
  | JObj _ => "[object Object]"
  | JOther ty => ty
  end.

Definition quoted (s : string) : string := dquote +:+ s +:+ dquote.

(** The guards, in the order of the code, and the affected claims. *)
Definition supersede_plan (input : supersede_input) (claims : jmap claim_record)
    : result (list string) :=
  let id := si_claimId input in
  let by_ := si_supersededByClaimId input in
  existing ← of_option (PlainError ("Cannot supersede unknown claim " +:+ quoted id +:+ "."))
               (jm_get id claims);
  _ ← ensure (negb (bool_decide (id = by_)))
        (PlainError ("Cannot supersede claim " +:+ quoted id +:+ " with itself."));
  _ ← ensure (jm_has by_ claims)
        (PlainError ("Cannot supersede " +:+ quoted id +:+ " with unknown claim "
          +:+ quoted by_ +:+ "."));
  _ ← ensure (negb (truthy_value (cr_supersededByClaimId existing)))
        (PlainError ("Cannot supersede " +:+ quoted id +:+ ": already superseded by "
          +:+ quoted (template_text (cr_supersededByClaimId existing)) +:+ "."));
  collectDescendants claims id.

Definition supersedeClaim (io : result unit) (now : string) (input : supersede_input)
    (g : claim_graph) (f : claims_file)
    : result (list string) * claim_graph * claims_file :=
  let g := load g f in
  match supersede_plan input (cg_claims g) with
  | Throw e => (Throw e, g, f)
  | Ok affected =>
      commit io g f
        (foldl (mark_one (si_supersededByClaimId input) now) (cg_claims g) affected) affected
  end.

(** ** Beliefs *)

Record belief_snapshot := BeliefSnapshot {
  bs_computedAt : string;
  bs_beliefs : list claim_belief;
}.

Definition with_status (s : claim_status) (b : claim_belief) : claim_belief :=
  ClaimBelief (cb_claimId b) s (cb_confidence b) (cb_uncertainty b) (cb_supportsWeight b)
    (cb_challengesWeight b) (cb_evidenceCount b) (cb_computedAt b).

Definition record_belief (contributions : jmap (list contribution)) (options : belief_options)
    (now : string) (r : claim_record) : result claim_belief :=
  belief ← computeBelief (cr_claim r)
             (default [] (jm_get (claimId (cr_claim r)) contributions)) options now;
  Ok (if is_str "superseded" (cr_statusOverride r) then with_status ClaimSuperseded belief
      else belief).

(** [artifacts] is what the artifact loader returns or throws. *)
Definition recomputeBeliefs (artifacts : result (list evidence_artifact))
    (options : belief_options) (now : string) (g : claim_graph) (f : claims_file)
    : result belief_snapshot * claim_graph :=
  let g := load g f in
  match artifacts with
  | Throw e => (Throw e, g)
  | Ok artifacts =>
      let records := jm_values (cg_claims g) in
      let claimIds := dedup ((λ r, claimId (cr_claim r)) <$> records) in
      let contributions := aggregateContributions artifacts claimIds now in
      (beliefs ← mapM (record_belief contributions options now) records;
       Ok (BeliefSnapshot now beliefs),
       ClaimGraphState (cg_claims g) (cg_loaded g) (cg_loadFailed g) contributions)
  end.

Definition contributionsFor (id : string) (g : claim_graph) : list contribution :=
  default [] (jm_get id (cg_contributions g)).

(** [(left, right) => right.uncertainty - left.uncertainty]. *)
Definition cmp_uncertainty (left right : claim_belief) : comparison :=
  Qcompare (cb_uncertainty right) (cb_uncertainty left).

Definition mostUncertainClaims (artifacts : result (list evidence_artifact)) (limit : nat)
    (now : string) (g : claim_graph) (f : claims_file)
    : result (list claim_belief) * claim_graph :=
  let '(snapshot, g) := recomputeBeliefs artifacts (BeliefOptions None None) now g f in
  (snapshot ← snapshot;
   Ok (take limit (js_sort cmp_uncertainty
         (filter (λ b, cb_status b = ClaimActive) (bs_beliefs snapshot)))), g).

(** ** Runs of one instance *)

Inductive claim_op :=
  | COUpsert (io : result unit) (now : string) (input : upsert_input)
  | COSupersede (io : result unit) (now : string) (input : supersede_input)
  | COList
  | COGet (id : string)
  | CORecompute (artifacts : result (list evidence_artifact)) (options : belief_options)
      (now : string).

Definition claim_step (st : claim_graph * claims_file) (op : claim_op)
    : claim_graph * claims_file :=
  let '(g, f) := st in
  match op with
  | COUpsert io now input => let '(_, g', f') := upsertClaim io now input g f in (g', f')
  | COSupersede io now input => let '(_, g', f') := supersedeClaim io now input g f in (g', f')
  | COList => ((listClaims g f).2, f)
  | COGet id => ((getClaim id g f).2, f)
  | CORecompute artifacts options now => ((recomputeBeliefs artifacts options now g f).2, f)
  end.

Definition claim_run (ops : list claim_op) (f : claims_file) : claim_graph * claims_file :=
  foldl claim_step (newClaimGraph, f) ops.

(** ** Lemmas: the file *)

Definition record_key (r : claim_record) : string := claimId (cr_claim r).

(** Every record is usable and filed under its claim's id. *)
Definition claims_wf (m : jmap claim_record) : Prop :=
  NoDup (jm_keys m) ∧ Forall (λ kv, record_key kv.2 = kv.1 ∧ usable kv.2 = true) m.

Lemma jget_drop_undefined fields k :
  NoDup (jm_keys fields) → jget (drop_undefined fields) k = jget (JObj fields) k.
Proof.
  unfold drop_undefined, jget, jm_keys.
  induction fields as [|[k' v] fields IH]; [done|]. rewrite fmap_cons.
  intros [Hk Hnd]%NoDup_cons. rewrite filter_cons. cbn [fst snd] in *.
  specialize (IH Hnd). cbn [jm_get]. case_decide as Hv; cbn [jm_get].
  - by destruct (decide (k = k')).
  - destruct (decide (k = k')) as [->|]; [|done]. rewrite IH.
    destruct v; try (by destruct Hv). cbn [default from_option].
    rewrite (proj2 (jm_get_None k' fields)); done.
Qed.

Lemma claim_of_to_json c k :
  jget (claim_to_json c) k =
  jget (JObj [("claimId", JStr (claimId c)); ("statement", JStr (statement c));
     ("falsificationCondition", falsificationCondition c);
     ("parentClaimIds", parentClaimIds c);
     ("sourceArtifactId", sourceArtifactId c); ("createdAt", claim_createdAt c)]) k.
Proof. apply jget_drop_undefined. by apply (bool_decide_unpack _). Qed.

Lemma usable_object r : usable r = true → ∃ fields, r = JObj fields.
Proof. destruct r; try done. eauto. Qed.

(** A record built by an upsert. *)
Lemma upsert_fields existing input now :
  cr_claim (upsert_record existing input now) =
    MkClaim (ui_claimId input) (ui_statement input) (opt_str (ui_falsificationCondition input))
      (match ui_parentClaimIds input with Some ids => JArr (JStr <$> ids) | None => JUndefined end)
      (opt_str (ui_sourceArtifactId input))
      (let createdAt := existing_field existing (λ r, claim_createdAt (cr_claim r)) in
       if is_nullish createdAt then JStr now else createdAt) ∧
  cr_statusOverride (upsert_record existing input now) = existing_field existing cr_statusOverride ∧
  usable (upsert_record existing input now) = true.
Proof.
  unfold cr_claim, cr_statusOverride, usable, upsert_record.
  rewrite !jget_drop_undefined by (by apply (bool_decide_unpack _)).
  change (jget (JObj _) "claim") with (claim_to_json
    (MkClaim (ui_claimId input) (ui_statement input) (opt_str (ui_falsificationCondition input))
      (match ui_parentClaimIds input with Some ids => JArr (JStr <$> ids) | None => JUndefined end)
      (opt_str (ui_sourceArtifactId input))
      (let createdAt := existing_field existing (λ r, claim_createdAt (cr_claim r)) in
       if is_nullish createdAt then JStr now else createdAt))).
  rewrite !claim_of_to_json. done.
Qed.

Lemma upsert_key existing input now : record_key (upsert_record existing input now) = ui_claimId input.
Proof. unfold record_key. by destruct (upsert_fields existing input now) as [-> _]. Qed.

(** A supersession sets three fields and leaves the others alone. *)
Definition mark_fields : list string := ["statusOverride"; "supersededByClaimId"; "supersededAt"].

Lemma mark_keeps by_ now r k : k ∉ mark_fields → jget (mark_superseded by_ now r) k = jget r k.
Proof.
  unfold mark_fields. rewrite !not_elem_of_cons. intros (H1 & H2 & H3 & _).
  unfold mark_superseded, jget at 1. rewrite !jm_get_set, !decide_False by done. by destruct r.
Qed.

Lemma mark_claim by_ now r :
  cr_claim (mark_superseded by_ now r) = cr_claim r ∧ usable (mark_superseded by_ now r) = usable r.
Proof.
  unfold cr_claim, usable. rewrite mark_keeps; [done|]. unfold mark_fields.
  rewrite !not_elem_of_cons. split_and!; try done. apply not_elem_of_nil.
Qed.

Lemma mark_status by_ now r : cr_statusOverride (mark_superseded by_ now r) = JStr "superseded".
Proof.
  unfold cr_statusOverride, mark_superseded, jget. rewrite !jm_get_set.
  rewrite !(decide_False (P := "statusOverride" = _)) by done. by rewrite decide_True.
Qed.

Lemma set_record_wf m r : usable r = true → claims_wf m → claims_wf (set_record m r).
Proof.
  intros Hu [Hnd Hk]. split; [by apply jm_keys_set_NoDup|]. by apply Forall_jm_set.
Qed.

Lemma set_records_wf l : ∀ m,
  Forall (λ r, usable r = true) l → claims_wf m → claims_wf (foldl set_record m l).
Proof.
  induction l as [|r l IH]; intros m Hl Hm; [done|]. inversion Hl; subst. cbn [foldl].
  by apply IH, set_record_wf.
Qed.

Lemma claims_wf_nil : claims_wf [].
Proof. split; constructor. Qed.

Lemma load_file_wf f : claims_wf (load_file f []).1.
Proof.
  destruct f as [| | |v]; cbn [load_file fst]; try apply claims_wf_nil.
  destruct (jget v "claims"); try apply claims_wf_nil. apply set_records_wf; [|apply claims_wf_nil].
  apply Forall_forall. by intros r [_ Hr]%elem_of_bfilter.
Qed.

Lemma jm_values_rebuild m : claims_wf m → foldl set_record [] (jm_values m) = m.
Proof.
  intros [Hnd Hk]. change (jm_index record_key (jm_values m) = m).
  assert (record_key <$> jm_values m = jm_keys m) as Hkeys.
  { unfold jm_values, jm_keys. rewrite <- list_fmap_compose. apply list_fmap_ext.
    intros i kv Hi. rewrite Forall_forall in Hk. apply Hk. by eapply list_elem_of_lookup_2. }
  rewrite jm_index_distinct by (by rewrite Hkeys). unfold jm_values.
  rewrite <- list_fmap_compose. rewrite <- (list_fmap_id m) at 2. apply list_fmap_ext.
  intros i [k r] Hi. cbn. f_equal. rewrite Forall_forall in Hk.
  apply (Hk (k, r)). by eapply list_elem_of_lookup_2.
Qed.

(** What is saved is what a fresh instance loads. *)
Lemma load_saved m :
  claims_wf m → load_file (ClaimsJson (state_to_json m)) [] = (m, false).
Proof.
  intros Hm. cbn [load_file].
  change (jget (state_to_json m) "claims") with (JArr (jm_values m)). cbv iota.
  assert (List.filter usable (jm_values m) = jm_values m) as ->.
  { apply forallb_filter_id, forallb_forall. intros r Hr%list_elem_of_In.
    apply list_elem_of_fmap in Hr as (kv & -> & Hkv). destruct Hm as [_ Hm].
    rewrite Forall_forall in Hm. by apply Hm. }
  rewrite jm_values_rebuild by done. rewrite Nat.sub_diag. done.
Qed.

(** ** The instance follows the file *)

(** A loaded instance holds what a fresh one would read now. *)
Definition in_step (g : claim_graph) (f : claims_file) : Prop :=
  if cg_loaded g then load_file f [] = (cg_claims g, cg_loadFailed g)
  else cg_claims g = [] ∧ cg_loadFailed g = false.

Lemma load_in_step g f :
  in_step g f → in_step (load g f) f ∧ cg_loaded (load g f) = true.
Proof.
  unfold in_step, load. destruct (cg_loaded g) eqn:E; [by rewrite E|].
  intros [Hc Hf]. rewrite Hc, Hf. destruct (load_file f []) as [m b] eqn:El. done.
Qed.

Lemma load_fields g f :
  in_step g f → load_file f [] = (cg_claims (load g f), cg_loadFailed (load g f)).
Proof. intros Hg. destruct (load_in_step g f Hg) as [H Hl]. unfold in_step in H. by rewrite Hl in H. Qed.

Lemma load_wf g f : in_step g f → claims_wf (cg_claims (load g f)).
Proof.
  intros Hg. pose proof (load_file_wf f) as Hwf. by rewrite (load_fields g f Hg) in Hwf.
Qed.

Lemma save_Ok io g m f' :
  save io g m = Ok f' → cg_loadFailed g = false ∧ io = Ok tt ∧ f' = ClaimsJson (state_to_json m).
Proof.
  unfold save. intros H. apply bind_Ok in H as ([] & Hl & H).
  apply ensure_Ok, negb_true_iff in Hl. apply bind_Ok in H as ([] & _ & H).
  apply bind_Ok in H as ([] & Hio & H). by apply Ok_inj in H as <-.
Qed.

(** A commit either installs the candidate on disk and in memory or changes
    neither. *)
Lemma commit_spec {A} io g f next (value : A) :
  claims_wf next → cg_loaded g = true → in_step g f →
  let '(r, g', f') := commit io g f next value in
  in_step g' f' ∧
  (if is_ok r then r = Ok value ∧ g' = with_claims next g ∧ f' = ClaimsJson (state_to_json next)
                   ∧ cg_loadFailed g = false
   else g' = g ∧ f' = f).
Proof.
  intros Hwf Hl Hg. unfold commit. destruct (save io g next) as [f'|e] eqn:E; [|done].
  apply save_Ok in E as (Hfail & _ & ->). split; [|done].
  unfold in_step. cbn [with_claims cg_loaded cg_claims cg_loadFailed].
  by rewrite Hl, Hfail, load_saved.
Qed.

Lemma upsert_next_wf g input now :
  claims_wf (cg_claims g) →
  claims_wf (jm_set (ui_claimId input)
    (upsert_record (jm_get (ui_claimId input) (cg_claims g)) input now) (cg_claims g)).
Proof.
  intros Hm. set (r := upsert_record _ input now).
  pose proof (set_record_wf (cg_claims g) r (proj2 (proj2 (upsert_fields _ input now))) Hm) as Hs.
  unfold set_record in Hs. fold (record_key r) in Hs. unfold r in Hs at 1. by rewrite upsert_key in Hs.
Qed.

Lemma claims_wf_get m id r : claims_wf m → jm_get id m = Some r → record_key r = id.
Proof.
  intros [_ Hk] Hr%jm_get_elem. rewrite Forall_forall in Hk. by apply Hk in Hr as [? _].
Qed.

Lemma mark_one_wf by_ now m id : claims_wf m → claims_wf (mark_one by_ now m id).
Proof.
  intros Hm. unfold mark_one. destruct (jm_get id m) as [r|] eqn:E; [|done].
  destruct (mark_claim by_ now r) as [Hc Hu]. rewrite <- (claims_wf_get m id r Hm E).
  unfold record_key. rewrite <- Hc. apply (set_record_wf m (mark_superseded by_ now r)); [|done].
  rewrite Hu. apply jm_get_elem in E. destruct Hm as [_ Hm]. rewrite Forall_forall in Hm. by apply Hm in E as [_ ?].
Qed.

Lemma mark_all_wf by_ now l : ∀ m, claims_wf m → claims_wf (foldl (mark_one by_ now) m l).
Proof.
  induction l as [|id l IH]; intros m Hm; [done|]. cbn [foldl]. by apply IH, mark_one_wf.
Qed.

(** An upsert and a supersession, as commits on the loaded instance. *)
Lemma upsert_spec io now input g f :
  in_step g f →
  let g0 := load g f in
  let next := jm_set (ui_claimId input)
    (upsert_record (jm_get (ui_claimId input) (cg_claims g0)) input now) (cg_claims g0) in
  let '(r, g', f') := upsertClaim io now input g f in
  in_step g' f' ∧
  (if is_ok r then g' = with_claims next g0 ∧ f' = ClaimsJson (state_to_json next)
                   ∧ cg_loadFailed g0 = false
   else g' = g0 ∧ f' = f).
Proof.
  intros Hg. destruct (load_in_step g f Hg) as [Hg0 Hl]. unfold upsertClaim.
  pose proof (commit_spec io (load g f) f _
    (cr_claim (upsert_record (jm_get (ui_claimId input) (cg_claims (load g f))) input now))
    (upsert_next_wf (load g f) input now (load_wf g f Hg)) Hl Hg0) as Hc.
  destruct (commit _ _ _ _ _) as [[r g'] f']. destruct Hc as [Hs Hc]. split; [done|].
  destruct (is_ok r); [|done]. by destruct Hc as (_ & ? & ? & ?).
Qed.

Lemma supersede_spec io now input g f :
  in_step g f →
  let g0 := load g f in
  let '(r, g', f') := supersedeClaim io now input g f in
  in_step g' f' ∧
  match r with
  | Ok affected =>
      supersede_plan input (cg_claims g0) = Ok affected ∧
      g' = with_claims (foldl (mark_one (si_supersededByClaimId input) now) (cg_claims g0)
             affected) g0 ∧
      f' = ClaimsJson (state_to_json (cg_claims g')) ∧ cg_loadFailed g0 = false
  | Throw _ => g' = g0 ∧ f' = f
  end.
Proof.
  intros Hg. destruct (load_in_step g f Hg) as [Hg0 Hl]. unfold supersedeClaim.
  destruct (supersede_plan input (cg_claims (load g f))) as [affected|e] eqn:E; [|done].
  pose proof (commit_spec io (load g f) f _ affected
    (mark_all_wf (si_supersededByClaimId input) now affected _ (load_wf g f Hg)) Hl Hg0) as Hc.
  destruct (commit _ _ _ _ _) as [[r g'] f']. destruct Hc as [Hs Hc]. split; [done|].
  destruct r as [a|e]; cbn [is_ok] in Hc; [|done]. destruct Hc as ([= ->] & -> & -> & ?). done.
Qed.

Lemma claim_step_in_step g f op :
  in_step g f → let '(g', f') := claim_step (g, f) op in in_step g' f'.
Proof.
  intros Hg. destruct (load_in_step g f Hg) as [Hg0 Hl].
  destruct op as [io now input|io now input| |id|artifacts options now]; cbn [claim_step].
  - pose proof (upsert_spec io now input g f Hg) as H.
    destruct (upsertClaim io now input g f) as [[? ?] ?]. by destruct H.
  - pose proof (supersede_spec io now input g f Hg) as H.
    destruct (supersedeClaim io now input g f) as [[? ?] ?]. by destruct H.
  - done.
  - done.
  - unfold recomputeBeliefs. destruct artifacts; [|done]. cbn [snd].
    unfold in_step in *. by rewrite Hl in *.
Qed.

Lemma claim_run_in_step ops f : let '(g', f') := claim_run ops f in in_step g' f'.
Proof.
  unfold claim_run. assert (in_step newClaimGraph f) as Hg by done. revert Hg.
  generalize newClaimGraph. revert f. induction ops as [|op ops IH]; intros f g Hg; [done|].
  cbn [foldl]. pose proof (claim_step_in_step g f op Hg) as Hs.
  destruct (claim_step (g, f) op) as [g' f']. by apply IH.
Qed.

(** A file that is not a claim graph is never written. *)
Lemma claim_step_refused g f op :
  in_step g f → (load_file f []).2 = true → (claim_step (g, f) op).2 = f.
Proof.
  intros Hg Hf. pose proof (load_fields g f Hg) as Hl. rewrite Hl in Hf. cbn [snd] in Hf.
  destruct op as [io now input|io now input| |id|artifacts options now]; cbn [claim_step];
    try done.
  - pose proof (upsert_spec io now input g f Hg) as H.
    destruct (upsertClaim io now input g f) as [[r ?] ?]. destruct H as [_ H].
    destruct (is_ok r); [|by destruct H]. destruct H as (_ & _ & H). by rewrite Hf in H.
  - pose proof (supersede_spec io now input g f Hg) as H.
    destruct (supersedeClaim io now input g f) as [[r ?] ?]. destruct H as [_ H].
    destruct r; [|by destruct H]. destruct H as (_ & _ & _ & H). by rewrite Hf in H.
Qed.

Lemma claim_run_refused ops f : (load_file f []).2 = true → (claim_run ops f).2 = f.
Proof.
  intros Hf. unfold claim_run. assert (in_step newClaimGraph f) as Hg by done. revert Hg.
  generalize newClaimGraph. induction ops as [|op ops IH]; intros g Hg; [done|].
  cbn [foldl]. pose proof (claim_step_in_step g f op Hg) as Hs.
  pose proof (claim_step_refused g f op Hg Hf) as Hu.
  destruct (claim_step (g, f) op) as [g' f']. cbn [snd] in Hu. subst f'. by apply IH.
Qed.

(** ** Lemmas: descendants *)

(** The parents of a record, as strings. *)
Definition parent_ids (r : claim_record) : list string :=
  match parents_of (cr_claim r) with Ok l => omap as_string l | Throw _ => [] end.

(** [id] names a record whose claim lists [p] as a parent. *)
Definition derives (claims : jmap claim_record) (p id : string) : Prop :=
  ∃ r, r ∈ jm_values claims ∧ record_key r = id ∧ p ∈ parent_ids r.

Lemma add_child_lookup child l : ∀ m p,
  lookup_children (foldl (add_child child) m l) p =
  lookup_children m p ++ replicate (length (filter (λ q, q = p) (omap as_string l))) child.
Proof.
  induction l as [|x l IH]; intros m p; [by rewrite app_nil_r|]. cbn [foldl].
  rewrite IH. destruct x as [| | | |s| | |]; try done.
  cbn [omap list_omap as_string]. change (list_omap ?f ?l) with (omap f l).
  rewrite filter_cons. unfold lookup_children at 1. cbn [add_child]. rewrite jm_get_set.
  destruct (decide (p = s)) as [->|Hne].
  - rewrite decide_True by done. cbn [default from_option length replicate].
    change (Datatypes.id ?x) with x. by rewrite <- app_assoc.
  - by rewrite decide_False by congruence.
Qed.

Lemma children_map_lookup l : ∀ m m' p id,
  foldM (λ m r, parents ← parents_of (cr_claim r);
                Ok (foldl (add_child (claimId (cr_claim r))) m parents)) m l = Ok m' →
  id ∈ lookup_children m' p ↔
  id ∈ lookup_children m p ∨ ∃ r, r ∈ l ∧ record_key r = id ∧ p ∈ parent_ids r.
Proof.
  induction l as [|r l IH]; intros m m' p id.
  - intros [= <-]. split; [by left|]. intros [?|(? & ?%elem_of_nil & _)]; done.
  - cbn [foldM]. intros H. apply bind_Ok in H as (m1 & H1 & H).
    apply bind_Ok in H1 as (ps & Hps & H1). apply Ok_inj in H1 as <-.
    rewrite (IH _ _ _ _ H), add_child_lookup, elem_of_app, elem_of_replicate.
    assert (parent_ids r = omap as_string ps) as Hp by (unfold parent_ids; by rewrite Hps).
    split.
    + intros [[?|[Hid Hlen]]|(r' & Hr' & ?)].
      * by left.
      * right. exists r. split; [by left|]. split; [done|]. rewrite Hp.
        destruct (filter _ _) as [|q qs] eqn:E; [done|].
        assert (q ∈ q :: qs) as Hq by by left. rewrite <- E in Hq.
        by apply list_elem_of_filter in Hq as [-> ?].
      * right. exists r'. split; [by right|done].
    + intros [?|(r' & [->|Hr']%elem_of_cons & Hid & Hpid)].
      * left. by left.
      * left. right. split; [done|]. rewrite Hp in Hpid.
        assert (p ∈ filter (λ q, q = p) (omap as_string ps)) as Hf
          by (by apply list_elem_of_filter).
        destruct (filter _ _); [by apply elem_of_nil in Hf|done].
      * right. by exists r'.
Qed.

Lemma sum_list_lookup (m : jmap (list string)) :
  NoDup (jm_keys m) →
  pending (lookup_children m) (jm_keys m) [] = sum_list_with length (jm_values m).
Proof.
  intros Hnd. unfold pending, jm_keys, jm_values in *.
  assert (∀ l, (∀ kv, kv ∈ l → jm_get kv.1 m = Some kv.2) →
    sum_list_with (λ x, if decide (x ∈ []) then 0%nat else length (lookup_children m x)) l.*1
    = sum_list_with length l.*2) as H.
  { induction l as [|kv l IH]; intros Hl; [done|]. rewrite !fmap_cons. cbn [sum_list_with].
    rewrite IH by (intros; apply Hl; by right). f_equal. rewrite decide_False by apply not_elem_of_nil.
    unfold lookup_children. by rewrite (Hl kv) by by left. }
  apply H. intros [k v] Hkv. by apply jm_elem_get.
Qed.

Lemma children_map_NoDup claims m : children_map claims = Ok m → NoDup (jm_keys m).
Proof.
  unfold children_map. intros H. eapply (foldM_inv (λ m, NoDup (jm_keys m))); [|  |exact H].
  - constructor.
  - intros m1 r m2 _ H1 H2. cbn beta in H2. apply bind_Ok in H2 as (ps & _ & H2).
    apply Ok_inj in H2 as <-. revert m1 H1. induction ps as [|p ps IH]; intros m1 H1; [done|].
    cbn [foldl]. apply IH. destruct p; try done. by apply jm_keys_set_NoDup.
Qed.

(** [collectDescendants] returns the claim and everything derived from it,
    each once. *)
Lemma collectDescendants_spec claims id l :
  collectDescendants claims id = Ok l →
  NoDup l ∧ ∀ d, d ∈ l ↔ rtc (derives claims) id d.
Proof.
  unfold collectDescendants. intros H. apply bind_Ok in H as (m & Hm & H).
  apply Ok_inj in H as <-.
  assert (∀ p c, c ∈ lookup_children m p ↔ derives claims p c) as Hedge.
  { intros p c. unfold derives. rewrite (children_map_lookup _ _ _ p c Hm).
    split; [by intros [?%elem_of_nil|?]|by right]. }
  pose proof (children_map_NoDup claims m Hm) as Hnd.
  destruct (stack_closure_spec (lookup_children m) (jm_keys m) id
    (1 + sum_list_with length (jm_values m))) as [Hn Hs].
  - done.
  - intros x Hx. apply elem_of_jm_keys. unfold lookup_children in Hx.
    by destruct (jm_get x m).
  - by rewrite sum_list_lookup.
  - split; [done|]. intros d. rewrite Hs. clear -Hedge. split; intros Hr;
      (induction Hr as [|a b c Hab _ IH]; [done|]; eapply rtc_l; [by apply Hedge|done]).
Qed.

Lemma mark_all_get by_ now l : ∀ m id,
  NoDup l →
  jm_get id (foldl (mark_one by_ now) m l) =
  if decide (id ∈ l) then mark_superseded by_ now <$> jm_get id m else jm_get id m.
Proof.
  assert (∀ m a id, jm_get id (mark_one by_ now m a) =
    if decide (id = a) then mark_superseded by_ now <$> jm_get id m else jm_get id m) as Hone.
  { intros m a id. unfold mark_one. destruct (jm_get a m) as [r|] eqn:E.
    - rewrite jm_get_set. case_decide; [subst; by rewrite E|done].
    - case_decide; [subst; by rewrite E|done]. }
  induction l as [|a l IH]; intros m id; [done|]. intros [Ha Hnd]%NoDup_cons. cbn [foldl].
  rewrite IH, Hone by done.
  destruct (decide (id = a)) as [->|Hne].
  - rewrite decide_False by done. by rewrite decide_True by by left.
  - destruct (decide (id ∈ l)).
    + by rewrite decide_True by by right.
    + rewrite decide_False; [done|]. by intros [->|?]%elem_of_cons.
Qed.

(** ** Lemmas: what operations keep *)

(** [r'] continues [r]: still superseded, with the same creation time. *)
Definition continues (r r' : claim_record) : Prop :=
  (cr_statusOverride r = JStr "superseded" → cr_statusOverride r' = JStr "superseded") ∧
  (is_nullish (claim_createdAt (cr_claim r)) = false →
   claim_createdAt (cr_claim r') = claim_createdAt (cr_claim r)).

Definition all_continue (m m' : jmap claim_record) : Prop :=
  ∀ id r, jm_get id m = Some r → ∃ r', jm_get id m' = Some r' ∧ continues r r'.

Lemma all_continue_refl m : all_continue m m.
Proof. intros id r Hr. by exists r. Qed.

Lemma all_continue_trans m1 m2 m3 :
  all_continue m1 m2 → all_continue m2 m3 → all_continue m1 m3.
Proof.
  intros H12 H23 id r Hr. destruct (H12 id r Hr) as (r2 & Hr2 & Hs & Hc).
  destruct (H23 id r2 Hr2) as (r3 & Hr3 & Hs' & Hc'). exists r3. split; [done|].
  split; [auto|]. intros Hn. specialize (Hc Hn). rewrite <- Hc. apply Hc'. by rewrite Hc.
Qed.

Lemma upsert_continues m input now :
  all_continue m
    (jm_set (ui_claimId input) (upsert_record (jm_get (ui_claimId input) m) input now) m).
Proof.
  intros id r Hr. rewrite jm_get_set. case_decide as Hid; [|by exists r].
  subst id. eexists. split; [done|]. rewrite Hr. unfold continues.
  destruct (upsert_fields (Some r) input now) as (-> & -> & _). split; [done|].
  intros Hn. cbn [claim_createdAt existing_field]. by rewrite Hn.
Qed.

Lemma supersede_continues m by_ now l :
  NoDup l → all_continue m (foldl (mark_one by_ now) m l).
Proof.
  intros Hnd id r Hr. rewrite mark_all_get by done. rewrite Hr. case_decide.
  - eexists. split; [done|]. unfold continues.
    destruct (mark_claim by_ now r) as [-> _]. by rewrite mark_status.
  - by exists r.
Qed.

Lemma supersede_plan_Ok input claims l :
  supersede_plan input claims = Ok l →
  ∃ r, jm_get (si_claimId input) claims = Some r ∧
    si_claimId input ≠ si_supersededByClaimId input ∧
    is_Some (jm_get (si_supersededByClaimId input) claims) ∧
    truthy_value (cr_supersededByClaimId r) = false ∧
    collectDescendants claims (si_claimId input) = Ok l.
Proof.
  unfold supersede_plan. intros H. apply bind_Ok in H as (r & Hr & H).
  apply of_option_Ok in Hr. apply bind_Ok in H as ([] & Hne & H).
  apply bind_Ok in H as ([] & Hby & H). apply bind_Ok in H as ([] & Hs & H).
  rewrite ensure_Ok in Hne, Hby, Hs. apply negb_true_iff, bool_decide_eq_false in Hne.
  apply negb_true_iff in Hs. exists r. split_and!; try done.
  unfold jm_has in Hby. by destruct (jm_get (si_supersededByClaimId input) claims).
Qed.

Lemma claim_step_continues g f op :
  in_step g f → all_continue (load_file f []).1 (load_file (claim_step (g, f) op).2 []).1.
Proof.
  intros Hg. pose proof (load_fields g f Hg) as Hl.
  destruct op as [io now input|io now input| |id|artifacts options now]; cbn [claim_step];
    try apply all_continue_refl.
  - pose proof (upsert_spec io now input g f Hg) as H.
    destruct (upsertClaim io now input g f) as [[r g'] f']. destruct H as [_ H]. cbn [snd].
    destruct (is_ok r); [|destruct H as [_ ->]; apply all_continue_refl].
    destruct H as (_ & -> & _). rewrite load_saved by (apply upsert_next_wf, load_wf, Hg).
    rewrite Hl. apply upsert_continues.
  - pose proof (supersede_spec io now input g f Hg) as H.
    destruct (supersedeClaim io now input g f) as [[r g'] f']. destruct H as [_ H]. cbn [snd].
    destruct r as [l|e]; [|destruct H as [_ ->]; apply all_continue_refl].
    destruct H as (Hp & -> & -> & _).
    rewrite load_saved by (apply mark_all_wf, load_wf, Hg). rewrite Hl.
    apply supersede_plan_Ok in Hp as (? & _ & _ & _ & _ & Hd).
    apply supersede_continues. by apply collectDescendants_spec in Hd as [? _].
Qed.

Lemma claim_run_continues ops f :
  all_continue (load_file f []).1 (load_file (claim_run ops f).2 []).1.
Proof.
  unfold claim_run. assert (in_step newClaimGraph f) as Hg by done. revert Hg.
  generalize newClaimGraph. revert f. induction ops as [|op ops IH]; intros f g Hg.
  { apply all_continue_refl. }
  cbn [foldl]. pose proof (claim_step_in_step g f op Hg) as Hs.
  pose proof (claim_step_continues g f op Hg) as Hc.
  destruct (claim_step (g, f) op) as [g' f']. eapply all_continue_trans; [exact Hc|by apply IH].
Qed.

(** ** Properties *)

(** The two records differ in the marks of a supersession at most. *)
Definition same_but_marks (r r' : claim_record) : Prop := ∀ k, k ∉ mark_fields → jget r' k = jget r k.

Definition upserts (id : string) (op : claim_op) : Prop :=
  match op with COUpsert _ _ input => ui_claimId input = id | _ => False end.

(** An operation leaves the records of other claims as they are. *)
Lemma claim_step_keeps g f op id r :
  in_step g f → ¬ upserts id op → jm_get id (load_file f []).1 = Some r →
  ∃ r', jm_get id (load_file (claim_step (g, f) op).2 []).1 = Some r' ∧ same_but_marks r r'.
Proof.
  intros Hg Hop Hr. pose proof (load_fields g f Hg) as Hl.
  assert (∃ r', jm_get id (load_file f []).1 = Some r' ∧ same_but_marks r r') as Hsame by (by exists r).
  destruct op as [io now input|io now input| |id'|artifacts options now]; cbn [claim_step]; try exact Hsame.
  - pose proof (upsert_spec io now input g f Hg) as Hs.
    destruct (upsertClaim io now input g f) as [[res g'] f']. destruct Hs as [_ Hs]. cbn [snd].
    destruct (is_ok res); [|by destruct Hs as [_ ->]]. destruct Hs as (_ & -> & _).
    rewrite load_saved by (apply upsert_next_wf, load_wf, Hg). cbn [fst].
    rewrite jm_get_set, decide_False by (intros ->; by apply Hop). by rewrite Hl in Hsame.
  - pose proof (supersede_spec io now input g f Hg) as Hs.
    destruct (supersedeClaim io now input g f) as [[res g'] f']. destruct Hs as [_ Hs]. cbn [snd].
    destruct res as [l|e]; [|by destruct Hs as [_ ->]]. destruct Hs as (Hp & -> & -> & _).
    rewrite load_saved by (apply mark_all_wf, load_wf, Hg). cbn [fst with_claims cg_claims].
    apply supersede_plan_Ok in Hp as (? & _ & _ & _ & _ & Hd). apply collectDescendants_spec in Hd as [Hnd _].
    rewrite mark_all_get by done. rewrite Hl in Hr, Hsame. cbn [fst] in *. case_decide; [|done].
    rewrite Hr. eexists. split; [done|]. intros k. apply mark_keeps.
Qed.

Lemma claim_run_keeps ops id : ∀ f r, Forall (λ op, ¬ upserts id op) ops →
  jm_get id (load_file f []).1 = Some r →
  ∃ r', jm_get id (load_file (claim_run ops f).2 []).1 = Some r' ∧ same_but_marks r r'.
Proof.
  intros f r. unfold claim_run. assert (in_step newClaimGraph f) as Hg by done. revert Hg.
  generalize newClaimGraph. revert f r. induction ops as [|op ops IH]; intros f r g Hg Hops Hr.
  { by exists r. }
  inversion Hops as [|? ? Hop Hrest]; subst. cbn [foldl]. pose proof (claim_step_in_step g f op Hg) as Hs.
  destruct (claim_step_keeps g f op id r Hg Hop Hr) as (r1 & Hr1 & Hk1).
  destruct (claim_step (g, f) op) as [g' f']. cbn [snd] in Hr1.
  destruct (IH f' r1 g' Hs Hrest Hr1) as (r2 & Hr2 & Hk2). exists r2. split; [done|].
  intros k Hk. by rewrite Hk2, Hk1.
Qed.


(** A file that is there but cannot be read counts as missing, so the next
    save writes over it, and its claims are lost. *)
Example unreadable_file_overwritten :
  let kept := state_to_json [("old", upsert_record None
    (UpsertInput "old" "an old claim" None None None) "t0")] in
  let '(_, f') := claim_run [COUpsert (Ok tt) "t1" (UpsertInput "new" "a claim" None None None)]
                    (ClaimsUnreadable kept) in
  jm_keys (load_file (ClaimsJson kept) []).1 = ["old"] ∧ jm_keys (load_file f' []).1 = ["new"].
Proof. vm_compute. by split. Qed.

(** P: A supersession that succeeds returns the claim and everything derived
    from it through parent links, each once, marks exactly those as
    superseded by the given claim, and leaves every other claim on disk as it
    was; the claim existed, was not superseded before, and its successor is
    another existing claim. *)
Theorem supersede_exact ops f0 io now input affected g' f' :
  supersedeClaim io now input (claim_run ops f0).1 (claim_run ops f0).2
    = (Ok affected, g', f') →
  let claims := (load_file (claim_run ops f0).2 []).1 in
  NoDup affected ∧
  (∀ id, id ∈ affected ↔ rtc (derives claims) (si_claimId input) id) ∧
  (∃ r, jm_get (si_claimId input) claims = Some r ∧
        truthy_value (cr_supersededByClaimId r) = false) ∧
  si_claimId input ≠ si_supersededByClaimId input ∧
  is_Some (jm_get (si_supersededByClaimId input) claims) ∧
  ∀ id, jm_get id (load_file f' []).1 =
    if decide (id ∈ affected)
    then mark_superseded (si_supersededByClaimId input) now <$> jm_get id claims
    else jm_get id claims.
Proof.
  pose proof (claim_run_in_step ops f0) as Hg. destruct (claim_run ops f0) as [g f].
  cbn [fst snd]. intros Hrun. pose proof (supersede_spec io now input g f Hg) as H. rewrite Hrun in H.
  destruct H as (_ & Hp & -> & -> & _). rewrite (load_fields g f Hg). cbn [fst].
  apply supersede_plan_Ok in Hp as (r & Hr & Hne & Hby & Ht & Hd).
  apply collectDescendants_spec in Hd as [Hnd Hd].
  rewrite load_saved by (apply mark_all_wf, load_wf, Hg).
  split_and!; [done|done|by exists r|done|done|].
  intros id. by apply mark_all_get.
Qed.

(** P: Claims are never lost: after any operations, every claim of the file
    is still there, a superseded one is still superseded, and its creation
    time is unchanged. *)
Theorem claims_never_lost ops f id r :
  jm_get id (load_file f []).1 = Some r →
  ∃ r', jm_get id (load_file (claim_run ops f).2 []).1 = Some r' ∧
    (cr_statusOverride r = JStr "superseded" → cr_statusOverride r' = JStr "superseded") ∧
    (is_nullish (claim_createdAt (cr_claim r)) = false →
     claim_createdAt (cr_claim r') = claim_createdAt (cr_claim r)).
Proof. apply claim_run_continues. Qed.

(** P: An upsert by a fresh instance adds or replaces exactly its own claim
    in what was on disk when it ran. *)
Theorem upsert_by_fresh_instance io now input f c g' f' :
  upsertClaim io now input newClaimGraph f = (Ok c, g', f') →
  let claims := (load_file f []).1 in
  load_file f' [] =
    (jm_set (ui_claimId input)
       (upsert_record (jm_get (ui_claimId input) claims) input now) claims, false) ∧
  claimId c = ui_claimId input ∧ statement c = ui_statement input.
Proof.
  intros Hrun. assert (in_step newClaimGraph f) as Hg by done.
  pose proof (upsert_spec io now input newClaimGraph f Hg) as H. rewrite Hrun in H.
  destruct H as (_ & _ & -> & _). rewrite (load_fields _ f Hg). cbn [fst].
  rewrite load_saved by (apply upsert_next_wf, load_wf, Hg). split; [done|].
  unfold upsertClaim, commit in Hrun. destruct (save _ _ _); [|discriminate Hrun].
  injection Hrun as <- _ _. by destruct (upsert_fields (jm_get (ui_claimId input)
    (cg_claims (load newClaimGraph f))) input now) as [-> _].
Qed.

(** ** Concrete runs *)

Definition upsertOf (id : string) (parents : list string) : upsert_input :=
  UpsertInput id "a statement" None (Some parents) None.

(** A claim [c], [d] derived from it, [e] derived from [d], and [x]. *)
Definition four_claims : list claim_op :=
  [COUpsert (Ok tt) "t0" (upsertOf "c" []); COUpsert (Ok tt) "t0" (upsertOf "d" ["c"]);
   COUpsert (Ok tt) "t0" (upsertOf "e" ["d"]); COUpsert (Ok tt) "t0" (upsertOf "x" [])].

Definition supersede_c : result (list string) * claim_graph * claims_file :=
  supersedeClaim (Ok tt) "t1" (SupersedeInput "c" "x") (claim_run four_claims ClaimsMissing).1
    (claim_run four_claims ClaimsMissing).2.

Example supersede_c_run : supersede_c.1.1 = Ok ["c"; "d"; "e"].
Proof. reflexivity. Qed.

Lemma supersede_exact_witness :
  NoDup ["c"; "d"; "e"] ∧
  (∀ id, id ∈ ["c"; "d"; "e"] ↔ rtc (derives (load_file (claim_run four_claims ClaimsMissing).2 []).1) "c" id) ∧
  (∃ r, jm_get "c" (load_file (claim_run four_claims ClaimsMissing).2 []).1 = Some r ∧
        truthy_value (cr_supersededByClaimId r) = false) ∧
  "c" ≠ "x" ∧ is_Some (jm_get "x" (load_file (claim_run four_claims ClaimsMissing).2 []).1) ∧
  ∀ id, jm_get id (load_file supersede_c.2 []).1 =
    if decide (id ∈ ["c"; "d"; "e"])
    then mark_superseded "x" "t1" <$> jm_get id (load_file (claim_run four_claims ClaimsMissing).2 []).1
    else jm_get id (load_file (claim_run four_claims ClaimsMissing).2 []).1.
Proof.
  apply (supersede_exact four_claims ClaimsMissing (Ok tt) "t1" (SupersedeInput "c" "x")
    ["c"; "d"; "e"] supersede_c.1.2 supersede_c.2).
  vm_compute. reflexivity.
Defined.

(** Superseding [d] and then its parent [c] overwrites [d]'s successor. *)
Example cascade_overwrites_successor :
  cr_supersededByClaimId <$> jm_get "d" (load_file
    (claim_run (four_claims ++
       [COUpsert (Ok tt) "t0" (upsertOf "y" []);
        COSupersede (Ok tt) "t1" (SupersedeInput "d" "y");
        COSupersede (Ok tt) "t2" (SupersedeInput "c" "x")]) ClaimsMissing).2 []).1
  = Some (JStr "x").
Proof. vm_compute. reflexivity. Qed.

(** Superseding a claim by its own descendant marks the successor superseded
    by itself. *)
Example superseded_by_itself :
  cr_supersededByClaimId <$> jm_get "e" (load_file
    (claim_run (four_claims ++ [COSupersede (Ok tt) "t1" (SupersedeInput "c" "e")])
       ClaimsMissing).2 []).1
  = Some (JStr "e").
Proof. vm_compute. reflexivity. Qed.

(** A malformed record next to a valid one is dropped by the next save. *)
Example malformed_record_dropped :
  load_file
    (claim_run [COUpsert (Ok tt) "t0" (upsertOf "b" [])]
       (ClaimsJson (JObj [("claims", JArr
          [JObj [("claim", JObj [("claimId", JStr "a"); ("statement", JStr "s")])];
           JObj [("claim", JObj [("claimId", JStr "lost")])]])]))).2 []
  = ([("a", JObj [("claim", JObj [("claimId", JStr "a"); ("statement", JStr "s")])]);
      ("b", upsert_record None (upsertOf "b" []) "t0")], false).
Proof. vm_compute. reflexivity. Qed.

Lemma claims_never_lost_witness :
  ∃ r', jm_get "c" (load_file
    (claim_run [COSupersede (Ok tt) "t1" (SupersedeInput "c" "x");
                COUpsert (Ok tt) "t2" (upsertOf "c" [])] (claim_run four_claims ClaimsMissing).2).2 []).1 = Some r' ∧
    (cr_statusOverride (upsert_record None (upsertOf "c" []) "t0") = JStr "superseded" →
     cr_statusOverride r' = JStr "superseded") ∧
    (is_nullish (claim_createdAt (cr_claim (upsert_record None (upsertOf "c" []) "t0"))) = false →
     claim_createdAt (cr_claim r')
     = claim_createdAt (cr_claim (upsert_record None (upsertOf "c" []) "t0"))).
Proof. apply claims_never_lost. vm_compute. reflexivity. Defined.

Lemma upsert_by_fresh_instance_witness :
  load_file (ClaimsJson (state_to_json
      [("a", upsert_record None (upsertOf "a" []) "t0")])) [] =
    (jm_set "a" (upsert_record (jm_get "a" []) (upsertOf "a" []) "t0") [], false) ∧
  "a" = "a" ∧ "a statement" = "a statement".
Proof.
  apply (upsert_by_fresh_instance (Ok tt) "t0" (upsertOf "a" []) ClaimsMissing
    (cr_claim (upsert_record None (upsertOf "a" []) "t0"))
    (ClaimGraphState [("a", upsert_record None (upsertOf "a" []) "t0")] true false [])
    (ClaimsJson (state_to_json [("a", upsert_record None (upsertOf "a" []) "t0")]))).
  vm_compute. reflexivity.
Defined.

(** An instance that loaded earlier writes over what another one added. *)
Example stale_instance_loses_update :
  let '(g1, f1) := claim_run [COList] ClaimsMissing in
  let '(_, f2) := claim_run [COUpsert (Ok tt) "t0" (upsertOf "other" [])] f1 in
  let '(_, f3) := claim_step (g1, f2) (COUpsert (Ok tt) "t1" (upsertOf "mine" [])) in
  jm_keys (load_file f2 []).1 = ["other"] ∧ jm_keys (load_file f3 []).1 = ["mine"].
Proof. vm_compute. by split. Qed.
