(* ===== verification/DirectorTypes.v ===== *)
(** * The research director's records

    src/src/research/director/types.ts and records.ts: the goals,
    capabilities, budgets, permissions and receipts the director is given, the
    plan and decision records it returns, their JSON images, record ids and
    the audit seal.  [Object.freeze] has no counterpart: values are immutable.
    Dates are time values, written with [to_iso_string]. *)

From S2P Require Import Prelude Host JsValue ArtifactTypes.

(** ** Enumerations *)

Inductive confirmation_boundary :=
  | ZoteroWrite | ExportBoundary | SnapshotBoundary | FinalTitle | BudgetAuto.

Definition DIRECTOR_CONFIRMATION_BOUNDARIES : list confirmation_boundary :=
  [ZoteroWrite; ExportBoundary; SnapshotBoundary; FinalTitle; BudgetAuto].

Definition boundary_name (b : confirmation_boundary) : string :=
  match b with
  | ZoteroWrite => "zotero_write" | ExportBoundary => "export"
  | SnapshotBoundary => "snapshot" | FinalTitle => "final_title"
  | BudgetAuto => "budget_auto"
  end.

Inductive decision_kind := Branch | Eliminate | Rescan | Revise | Recover | Stop.

Definition DIRECTOR_DECISIONS : list decision_kind :=
  [Branch; Eliminate; Rescan; Revise; Recover; Stop].

Definition decision_name (d : decision_kind) : string :=
  match d with
  | Branch => "branch" | Eliminate => "eliminate" | Rescan => "rescan"
  | Revise => "revise" | Recover => "recover" | Stop => "stop"
  end.

Inductive plan_mode := AdvanceMode | RepairMode.

Definition plan_mode_name (m : plan_mode) : string :=
  match m with AdvanceMode => "advance" | RepairMode => "repair" end.

Inductive action_intent := IntentAdvance | IntentRecompute | IntentRevise.

Definition intent_name (i : action_intent) : string :=
  match i with
  | IntentAdvance => "advance" | IntentRecompute => "recompute" | IntentRevise => "revise"
  end.

Inductive default_access := AccessAllow | AccessDeny.

Definition access_name (a : default_access) : string :=
  match a with AccessAllow => "allow" | AccessDeny => "deny" end.

Inductive approval_status := Approved | Denied.

Definition approval_name (a : approval_status) : string :=
  match a with Approved => "approved" | Denied => "denied" end.

Inductive blocked_kind :=
  | CapabilityUnavailable | PermissionDenied | ConfirmationRequired
  | ConfirmationDenied | BudgetExceeded | DurationExceeded
  | MissingDependency | MissingCapability.

Definition blocked_name (k : blocked_kind) : string :=
  match k with
  | CapabilityUnavailable => "capability_unavailable"
  | PermissionDenied => "permission_denied"
  | ConfirmationRequired => "confirmation_required"
  | ConfirmationDenied => "confirmation_denied"
  | BudgetExceeded => "budget_exceeded"
  | DurationExceeded => "duration_exceeded"
  | MissingDependency => "missing_dependency"
  | MissingCapability => "missing_capability"
  end.

Inductive receipt_status := Succeeded | Failed | BlockedReceipt | Cancelled.

Definition RECEIPT_STATUSES : list receipt_status :=
  [Succeeded; Failed; BlockedReceipt; Cancelled].

Definition receipt_status_name (s : receipt_status) : string :=
  match s with
  | Succeeded => "succeeded" | Failed => "failed"
  | BlockedReceipt => "blocked" | Cancelled => "cancelled"
  end.

Inductive execution_outcome :=
  | Progressed | CandidateSupported | CandidateRejected
  | EvidenceIncomplete | ArtifactRevisionRequired | ObjectiveSatisfied.

Definition EXECUTION_OUTCOMES : list execution_outcome :=
  [Progressed; CandidateSupported; CandidateRejected; EvidenceIncomplete;
   ArtifactRevisionRequired; ObjectiveSatisfied].

Definition outcome_name (o : execution_outcome) : string :=
  match o with
  | Progressed => "progressed" | CandidateSupported => "candidate_supported"
  | CandidateRejected => "candidate_rejected"
  | EvidenceIncomplete => "evidence_incomplete"
  | ArtifactRevisionRequired => "artifact_revision_required"
  | ObjectiveSatisfied => "objective_satisfied"
  end.

#[export] Instance confirmation_boundary_eq_dec : EqDecision confirmation_boundary.
Proof. solve_decision. Defined.
#[export] Instance decision_kind_eq_dec : EqDecision decision_kind.
Proof. solve_decision. Defined.
#[export] Instance action_intent_eq_dec : EqDecision action_intent.
Proof. solve_decision. Defined.
#[export] Instance default_access_eq_dec : EqDecision default_access.
Proof. solve_decision. Defined.
#[export] Instance approval_status_eq_dec : EqDecision approval_status.
Proof. solve_decision. Defined.
#[export] Instance blocked_kind_eq_dec : EqDecision blocked_kind.
Proof. solve_decision. Defined.
#[export] Instance receipt_status_eq_dec : EqDecision receipt_status.
Proof. solve_decision. Defined.
#[export] Instance execution_outcome_eq_dec : EqDecision execution_outcome.
Proof. solve_decision. Defined.

(** ** What the director is given *)

Record director_goal := mkGoal {
  goal_objective : string;
  goal_constraints : option (list string);
  goal_successCriteria : option (list string);
}.

Record capability := mkCapability {
  cap_id : string;
  cap_toolName : string;
  cap_operation : string;
  cap_available : bool;
  cap_unavailableReason : option string;
  cap_concurrencySafe : bool;
  cap_accepts : list artifact_kind;
  cap_produces : list artifact_kind;
  cap_dependsOn : list string;
  cap_estimatedCostUnits : jsnum;
  cap_estimatedDurationMs : jsnum;
  cap_confirmationBoundary : option confirmation_boundary;
}.

(** The duration limit and the duration spent come together or not at all. *)
Record director_budget := mkBudget {
  bud_limitUnits : jsnum;
  bud_spentUnits : jsnum;
  bud_duration : option (jsnum * jsnum);
}.

Record permission_snapshot := mkPermissions {
  per_defaultAccess : default_access;
  per_allowed : list string;
  per_denied : list string;
}.

Record approval_receipt := mkApproval {
  apr_receiptId : string;
  apr_boundary : confirmation_boundary;
  apr_capabilityId : option string;
  apr_status : approval_status;
  apr_decidedBy : string;
  apr_decidedAt : Z;
}.

Record receipt_error := mkReceiptError {
  re_code : string;
  re_message : string;
  re_retryable : bool;
}.

Record execution_receipt := mkReceipt {
  rec_receiptId : string;
  rec_planId : string;
  rec_actionId : string;
  rec_capabilityId : string;
  rec_status : receipt_status;
  rec_outcome : option execution_outcome;
  rec_outputArtifactRefs : list artifact_ref;
  rec_costUnits : jsnum;
  rec_durationMs : jsnum;
  rec_completedAt : Z;
  rec_error : option receipt_error;
}.

(** ** The plan *)

(** [Omit<ResearchDirectorBlockedBoundary, "boundaryId">]. *)
Record boundary_body := mkBoundaryBody {
  bb_kind : blocked_kind;
  bb_detail : string;
  bb_capabilityId : option string;
  bb_actionId : option string;
  bb_confirmationBoundary : option confirmation_boundary;
  bb_artifactRefs : list artifact_ref;
  bb_findingRefs : list artifact_ref;
}.

Record blocked_boundary := mkBoundary {
  bnd_id : string;
  bnd_body : boundary_body;
}.

Record director_action := mkAction {
  act_id : string;
  act_capabilityId : string;
  act_toolName : string;
  act_operation : string;
  act_intent : action_intent;
  act_inputArtifactRefs : list artifact_ref;
  act_targetArtifactRefs : list artifact_ref;
  act_findingRefs : list artifact_ref;
  act_produces : list artifact_kind;
  act_dependsOnActionIds : list string;
  act_concurrencySafe : bool;
  act_estimatedCostUnits : jsnum;
  act_estimatedDurationMs : jsnum;
  act_confirmationBoundary : option confirmation_boundary;
  act_blockedBoundaryIds : list string;
}.

Record director_batch := mkBatch {
  bat_id : string;
  bat_actionIds : list string;
  bat_concurrencySafe : bool;
  bat_estimatedCostUnits : jsnum;
  bat_estimatedDurationMs : jsnum;
}.

Record budget_projection := mkProjection {
  bp_availableUnits : jsnum;
  bp_plannedUnits : jsnum;
  bp_availableDurationMs : option jsnum;
  bp_plannedDurationMs : jsnum;
}.

(** [Omit<ResearchDirectorPlanRecord, "auditHash">]; [schemaVersion] and
    [recordKind] are constants of the type. *)
Record plan_body := mkPlanBody {
  pl_planId : string;
  pl_createdAt : Z;
  pl_mode : plan_mode;
  pl_goal : director_goal;
  pl_stateHash : string;
  pl_capabilitySnapshotHash : string;
  pl_artifactRefs : list artifact_ref;
  pl_staleArtifactRefs : list artifact_ref;
  pl_unresolvedFindingRefs : list artifact_ref;
  pl_actions : list director_action;
  pl_readyBatches : list director_batch;
  pl_blockedBoundaries : list blocked_boundary;
  pl_budgetProjection : budget_projection;
}.

Record plan_record := mkPlan {
  pl_body : plan_body;
  pl_auditHash : string;
}.

(** ** The decision *)

Record decision_body := mkDecisionBody {
  dec_decisionId : string;
  dec_planId : string;
  dec_createdAt : Z;
  dec_decision : decision_kind;
  dec_rationale : string;
  dec_consumedReceiptIds : list string;
  dec_completedActionIds : list string;
  dec_retryActionIds : list string;
  dec_discardedActionIds : list string;
  dec_nextActionIds : list string;
  dec_outputArtifactRefs : list artifact_ref;
  dec_findingRefs : list artifact_ref;
  dec_blockedBoundaries : list blocked_boundary;
  dec_actualCostUnits : jsnum;
  dec_actualDurationMs : jsnum;
}.

Record decision_record := mkDecision {
  dec_body : decision_body;
  dec_auditHash : string;
}.

(** ** JSON images *)

Definition strings_json (l : list string) : jsval := JArr (map JStr l).
Definition refs_json (l : list artifact_ref) : jsval := JArr (map ref_to_json l).
Definition kinds_json (l : list artifact_kind) : jsval := JArr (map (λ k, JStr (kind_name k)) l).

Section Json.
Context `{Host}.

Definition time_json (t : Z) : jsval := JStr (to_iso_string t).

Definition goal_to_json (g : director_goal) : jsval :=
  JObj ([("objective", JStr (goal_objective g))] ++
        opt_field "constraints" strings_json (goal_constraints g) ++
        opt_field "successCriteria" strings_json (goal_successCriteria g)).

Definition capability_to_json (c : capability) : jsval :=
  JObj ([("capabilityId", JStr (cap_id c)); ("toolName", JStr (cap_toolName c));
         ("operation", JStr (cap_operation c)); ("available", JBool (cap_available c))] ++
        opt_field "unavailableReason" JStr (cap_unavailableReason c) ++
        [("concurrencySafe", JBool (cap_concurrencySafe c));
         ("accepts", kinds_json (cap_accepts c)); ("produces", kinds_json (cap_produces c));
         ("dependsOnCapabilityIds", strings_json (cap_dependsOn c));
         ("estimatedCostUnits", JNum (cap_estimatedCostUnits c));
         ("estimatedDurationMs", JNum (cap_estimatedDurationMs c))] ++
        opt_field "confirmationBoundary" (λ b, JStr (boundary_name b))
          (cap_confirmationBoundary c)).

Definition budget_to_json (b : director_budget) : jsval :=
  JObj ([("limitUnits", JNum (bud_limitUnits b)); ("spentUnits", JNum (bud_spentUnits b))] ++
        match bud_duration b with
        | Some (limit, spent) =>
            [("limitDurationMs", JNum limit); ("spentDurationMs", JNum spent)]
        | None => []
        end).

Definition permissions_to_json (p : permission_snapshot) : jsval :=
  JObj [("defaultAccess", JStr (access_name (per_defaultAccess p)));
        ("allowedCapabilityIds", strings_json (per_allowed p));
        ("deniedCapabilityIds", strings_json (per_denied p))].

Definition approval_to_json (a : approval_receipt) : jsval :=
  JObj ([("receiptId", JStr (apr_receiptId a));
         ("boundary", JStr (boundary_name (apr_boundary a)))] ++
        opt_field "capabilityId" JStr (apr_capabilityId a) ++
        [("status", JStr (approval_name (apr_status a)));
         ("decidedBy", JStr (apr_decidedBy a)); ("decidedAt", time_json (apr_decidedAt a))]).

Definition boundary_body_fields (b : boundary_body) : list (string * jsval) :=
  [("kind", JStr (blocked_name (bb_kind b))); ("detail", JStr (bb_detail b))] ++
  opt_field "capabilityId" JStr (bb_capabilityId b) ++
  opt_field "actionId" JStr (bb_actionId b) ++
  opt_field "confirmationBoundary" (λ b, JStr (boundary_name b)) (bb_confirmationBoundary b) ++
  [("artifactRefs", refs_json (bb_artifactRefs b)); ("findingRefs", refs_json (bb_findingRefs b))].

Definition boundary_to_json (b : blocked_boundary) : jsval :=
  JObj (("boundaryId", JStr (bnd_id b)) :: boundary_body_fields (bnd_body b)).

Definition action_to_json (a : director_action) : jsval :=
  JObj ([("actionId", JStr (act_id a)); ("capabilityId", JStr (act_capabilityId a));
         ("toolName", JStr (act_toolName a)); ("operation", JStr (act_operation a));
         ("intent", JStr (intent_name (act_intent a)));
         ("inputArtifactRefs", refs_json (act_inputArtifactRefs a));
         ("targetArtifactRefs", refs_json (act_targetArtifactRefs a));
         ("findingRefs", refs_json (act_findingRefs a));
         ("produces", kinds_json (act_produces a));
         ("dependsOnActionIds", strings_json (act_dependsOnActionIds a));
         ("concurrencySafe", JBool (act_concurrencySafe a));
         ("estimatedCostUnits", JNum (act_estimatedCostUnits a));
         ("estimatedDurationMs", JNum (act_estimatedDurationMs a))] ++
        opt_field "confirmationBoundary" (λ b, JStr (boundary_name b))
          (act_confirmationBoundary a) ++
        [("blockedBoundaryIds", strings_json (act_blockedBoundaryIds a))]).

Definition batch_to_json (b : director_batch) : jsval :=
  JObj [("batchId", JStr (bat_id b)); ("actionIds", strings_json (bat_actionIds b));
        ("concurrencySafe", JBool (bat_concurrencySafe b));
        ("estimatedCostUnits", JNum (bat_estimatedCostUnits b));
        ("estimatedDurationMs", JNum (bat_estimatedDurationMs b))].

Definition projection_to_json (p : budget_projection) : jsval :=
  JObj ([("availableUnits", JNum (bp_availableUnits p));
         ("plannedUnits", JNum (bp_plannedUnits p))] ++
        opt_field "availableDurationMs" JNum (bp_availableDurationMs p) ++
        [("plannedDurationMs", JNum (bp_plannedDurationMs p))]).

Definition plan_body_fields (p : plan_body) : list (string * jsval) :=
  [("schemaVersion", JNum (NInt 1)); ("recordKind", JStr "research_director_plan");
   ("planId", JStr (pl_planId p)); ("createdAt", time_json (pl_createdAt p));
   ("mode", JStr (plan_mode_name (pl_mode p))); ("goal", goal_to_json (pl_goal p));
   ("stateHash", JStr (pl_stateHash p));
   ("capabilitySnapshotHash", JStr (pl_capabilitySnapshotHash p));
   ("artifactRefs", refs_json (pl_artifactRefs p));
   ("staleArtifactRefs", refs_json (pl_staleArtifactRefs p));
   ("unresolvedFindingRefs", refs_json (pl_unresolvedFindingRefs p));
   ("actions", JArr (map action_to_json (pl_actions p)));
   ("readyBatches", JArr (map batch_to_json (pl_readyBatches p)));
   ("blockedBoundaries", JArr (map boundary_to_json (pl_blockedBoundaries p)));
   ("budgetProjection", projection_to_json (pl_budgetProjection p))].

Definition plan_to_json (p : plan_record) : jsval :=
  JObj (plan_body_fields (pl_body p) ++ [("auditHash", JStr (pl_auditHash p))]).

Definition decision_body_fields (d : decision_body) : list (string * jsval) :=
  [("schemaVersion", JNum (NInt 1)); ("recordKind", JStr "research_director_decision");
   ("decisionId", JStr (dec_decisionId d)); ("planId", JStr (dec_planId d));
   ("createdAt", time_json (dec_createdAt d));
   ("decision", JStr (decision_name (dec_decision d)));
   ("rationale", JStr (dec_rationale d));
   ("consumedReceiptIds", strings_json (dec_consumedReceiptIds d));
   ("completedActionIds", strings_json (dec_completedActionIds d));
   ("retryActionIds", strings_json (dec_retryActionIds d));
   ("discardedActionIds", strings_json (dec_discardedActionIds d));
   ("nextActionIds", strings_json (dec_nextActionIds d));
   ("outputArtifactRefs", refs_json (dec_outputArtifactRefs d));
   ("findingRefs", refs_json (dec_findingRefs d));
   ("blockedBoundaries", JArr (map boundary_to_json (dec_blockedBoundaries d)));
   ("actualCostUnits", JNum (dec_actualCostUnits d));
   ("actualDurationMs", JNum (dec_actualDurationMs d))].

(** ** Ids and seals (records.ts) *)

(** The audit hash covers the record without the hash itself. *)
Definition sealDirectorPlanRecord (value : plan_body) : result plan_record :=
  auditHash ← hashResearchArtifactContent (JObj (plan_body_fields value));
  mret (mkPlan value auditHash).

Definition sealDirectorDecisionRecord (value : decision_body) : result decision_record :=
  auditHash ← hashResearchArtifactContent (JObj (decision_body_fields value));
  mret (mkDecision value auditHash).

(** The first 24 digits of the value's hash behind a prefix. *)
Definition directorRecordId (prefix : string) (value : jsval) : result string :=
  hash ← hashResearchArtifactContent value;
  mret (prefix +:+ "-" +:+ str_slice 7 31 hash).
End Json.
