(* ===== verification/DirectorValidation.v ===== *)
(** * The director's input validation

    src/src/research/director/validation.ts: the checks that turn the untyped
    goal, capabilities, budget, permissions, approvals and execution receipts
    into the records of DirectorTypes.v, the capability graph's cycle check,
    the confirmation boundary a capability falls under and the approval that
    decides it.  [compareText], [fullRefKey] and [compareRefs] are those of
    Host.v and RepoModel.v, which have the same text. *)

From S2P Require Import Prelude Digraph Host JsValue ArtifactTypes RepoModel Text Numbers DirectorTypes.

(** ** Scalar checks *)

Definition identifier (value : jsval) (label : string) : result string :=
  match value with
  | JStr s =>
      if is_safe_identifier s then Ok s
      else Throw (TypeError (label +:+ " must be a safe identifier."))
  | _ => Throw (TypeError (label +:+ " must be a safe identifier."))
  end.

Definition boundedText (value : jsval) (label : string) (maximum : Z) : result string :=
  match value with
  | JStr s =>
      if is_bounded_text maximum s then Ok s
      else Throw (TypeError (label +:+ " must be bounded non-empty trimmed text."))
  | _ => Throw (TypeError (label +:+ " must be bounded non-empty trimmed text."))
  end.

(** [`${label}[${index}]`]. *)
Definition indexed (label : string) (index : nat) : string :=
  label +:+ "[" +:+ pretty index +:+ "]".

(** [values.map((value, index) => ...)] with a callback that may throw. *)
Definition map_indexed {A B} (f : A → nat → result B) (l : list A) : result (list B) :=
  mapM (λ p : nat * A, f p.2 p.1) (imap pair l).

(** [Array.isArray(value) && value.length <= maximum]. *)
Definition bounded_array (value : jsval) (maximum : Z) : option (list jsval) :=
  match value with
  | JArr l => if (Z.of_nat (length l) <=? maximum)%Z then Some l else None
  | _ => None
  end.

Definition textList (value : jsval) (label : string) : result (list string) :=
  l ← of_option (TypeError (label +:+ " must be a bounded array.")) (bounded_array value 256);
  map_indexed (λ entry index, boundedText entry (indexed label index) 8000) l.

Definition nonNegativeNumber (value : jsval) (label : string) : result jsnum :=
  match value with
  | JNum n =>
      if is_finite_num n && negb (js_lt n (NInt 0)) then Ok n
      else Throw (TypeError (label +:+ " must be a finite non-negative number."))
  | _ => Throw (TypeError (label +:+ " must be a finite non-negative number."))
  end.

Definition strictBoolean (value : jsval) (label : string) : result bool :=
  match value with
  | JBool b => Ok b
  | _ => Throw (TypeError (label +:+ " must be a boolean."))
  end.

(** What [isoDate] is given: a [Date] with its time value ([None] is [NaN]),
    or anything else. *)
Inductive date_value := IsDate (time : option Z) | NotDate (value : jsval).

Section Validation.
Context `{Host}.

Definition isoDate (value : date_value) (label : string) : result Z :=
  of_option (TypeError (label +:+ " must be an ISO date."))
    match value with
    | IsDate time => time
    | NotDate (JStr s) => date_parse s
    | NotDate _ => None
    end.

Definition normalizeConfirmationBoundary (value : jsval) (label : string) :
    result confirmation_boundary :=
  of_option (TypeError (label +:+ " is invalid."))
    (parse_enum DIRECTOR_CONFIRMATION_BOUNDARIES boundary_name value).

Definition uniqueIdentifiers (value : jsval) (label : string) : result (list string) :=
  l ← of_option (TypeError (label +:+ " must be a bounded array.")) (bounded_array value 1000);
  ids ← map_indexed (λ entry index, identifier entry (indexed label index)) l;
  _ ← ensure (length (dedup ids) =? length ids)%nat
        (TypeError (label +:+ " must not contain duplicates."));
  mret (js_sort compareText ids).

Definition uniqueArtifactKinds (value : list jsval) (label : string) :
    result (list artifact_kind) :=
  kinds ← map_indexed (λ entry index,
    of_option (TypeError (indexed label index +:+ " is invalid."))
      (parse_enum RESEARCH_ARTIFACT_KINDS kind_name entry)) value;
  _ ← ensure (length (dedup (kind_name <$> kinds)) =? length kinds)%nat
        (TypeError (label +:+ " must not contain duplicates."));
  mret (js_sort (cmp_on kind_name compareText) kinds).

(** ** Goal, capabilities, budget, permissions, approvals *)

Definition normalizeGoal (value : jsval) : result director_goal :=
  _ ← ensure (is_object value) (TypeError "Director goal must be an object.");
  constraints ← optional (λ v, textList v "goal.constraints") (jget value "constraints");
  successCriteria ← optional (λ v, textList v "goal.successCriteria")
                      (jget value "successCriteria");
  objective ← boundedText (jget value "objective") "goal.objective" 16000;
  mret (mkGoal objective constraints successCriteria).

Definition normalizeCapability (value : jsval) (index : nat) : result capability :=
  let label := indexed "capabilities" index in
  _ ← ensure (is_object value) (TypeError (label +:+ " must be an object."));
  flags ← of_option (TypeError (label +:+ " availability and concurrencySafe must be booleans."))
            match jget value "available", jget value "concurrencySafe" with
            | JBool available, JBool concurrencySafe => Some (available, concurrencySafe)
            | _, _ => None
            end;
  kinds ← of_option (TypeError (label +:+ " accepts and produces must be arrays."))
            match jget value "accepts", jget value "produces" with
            | JArr accepts, JArr produces => Some (accepts, produces)
            | _, _ => None
            end;
  unavailableReason ← optional (λ v, boundedText v (label +:+ ".unavailableReason") 4000)
                        (jget value "unavailableReason");
  _ ← ensure (flags.1 || match unavailableReason with Some _ => true | None => false end)
        (TypeError (label +:+ " requires unavailableReason when unavailable."));
  dependencies ← optional (λ v, uniqueIdentifiers v (label +:+ ".dependsOnCapabilityIds"))
                   (jget value "dependsOnCapabilityIds");
  confirmationBoundary ←
    optional (λ v, normalizeConfirmationBoundary v (label +:+ ".confirmationBoundary"))
      (jget value "confirmationBoundary");
  capabilityId ← identifier (jget value "capabilityId") (label +:+ ".capabilityId");
  toolName ← identifier (jget value "toolName") (label +:+ ".toolName");
  operation ← identifier (jget value "operation") (label +:+ ".operation");
  accepts ← uniqueArtifactKinds kinds.1 (label +:+ ".accepts");
  produces ← uniqueArtifactKinds kinds.2 (label +:+ ".produces");
  cost ← nonNegativeNumber (jget value "estimatedCostUnits") (label +:+ ".estimatedCostUnits");
  duration ← nonNegativeNumber (jget value "estimatedDurationMs")
               (label +:+ ".estimatedDurationMs");
  mret (mkCapability capabilityId toolName operation flags.1 unavailableReason flags.2
    accepts produces (default [] dependencies) cost duration confirmationBoundary).

(** [dependencies.get(id) ?? []]. *)
Definition dependencies_of (capabilities : list capability) (id : string) : list string :=
  default [] (jm_get id (foldl (λ m c, jm_set (cap_id c) (cap_dependsOn c) m) [] capabilities)).

Definition capability_cycle (id : string) : js_error :=
  TypeError ("Capability dependency graph contains a cycle at " +:+ id +:+ ".").

Definition assertCapabilityGraphAcyclic (capabilities : list capability) : result (gset string) :=
  assert_acyclic (dependencies_of capabilities) capability_cycle (S (length capabilities))
    (js_sort compareText (dedup (cap_id <$> capabilities))).

(** One turn of the duplicate check and one of the dependency check. *)
Definition add_capability_id (ids : list string) (c : capability) : result (list string) :=
  _ ← ensure (bool_decide (cap_id c ∉ ids))
        (TypeError ("Capability " +:+ cap_id c +:+ " is duplicated."));
  mret (set_add (cap_id c) ids).

Definition check_dependency (ids : list string) (c : capability) (dependency : string) :
    result unit :=
  _ ← ensure (negb (String.eqb dependency (cap_id c)))
        (TypeError ("Capability " +:+ cap_id c +:+ " depends on itself."));
  ensure (bool_decide (dependency ∈ ids))
    (TypeError ("Capability " +:+ cap_id c +:+ " has unknown dependency " +:+ dependency +:+ ".")).

Definition normalizeCapabilities (values : jsval) : result (list capability) :=
  l ← of_option (TypeError "capabilities must be a bounded array.") (bounded_array values 1000);
  capabilities ← map_indexed normalizeCapability l;
  ids ← foldM add_capability_id [] capabilities;
  _ ← foldM (λ _ c, foldM (λ _ d, check_dependency ids c d) tt (cap_dependsOn c))
        tt capabilities;
  _ ← assertCapabilityGraphAcyclic capabilities;
  mret (js_sort (cmp_on cap_id compareText) capabilities).

Definition normalizeBudget (value : jsval) : result director_budget :=
  _ ← ensure (is_object value) (TypeError "budget must be an object.");
  limitUnits ← nonNegativeNumber (jget value "limitUnits") "budget.limitUnits";
  spentUnits ← nonNegativeNumber (jget value "spentUnits") "budget.spentUnits";
  _ ← ensure (negb (js_lt limitUnits spentUnits))
        (TypeError "budget.spentUnits must not exceed limitUnits.");
  limitDurationMs ← optional (λ v, nonNegativeNumber v "budget.limitDurationMs")
                      (jget value "limitDurationMs");
  spentDurationMs ← optional (λ v, nonNegativeNumber v "budget.spentDurationMs")
                      (jget value "spentDurationMs");
  duration ←
    match limitDurationMs, spentDurationMs with
    | Some limit, Some spent =>
        _ ← ensure (negb (js_lt limit spent))
              (TypeError "budget.spentDurationMs must not exceed limitDurationMs.");
        mret (Some (limit, spent))
    | None, None => Ok None
    | _, _ => Throw (TypeError "budget duration limit and spent duration must be supplied together.")
    end;
  mret (mkBudget limitUnits spentUnits duration).

(** [value ?? []]. *)
Definition nullish_array (value : jsval) : jsval := if is_nullish value then JArr [] else value.

Definition normalizePermissions (value : jsval) : result permission_snapshot :=
  defaultAccess ← of_option (TypeError "permissions.defaultAccess must be allow or deny.")
                    (parse_enum [AccessAllow; AccessDeny] access_name (jget value "defaultAccess"));
  allowed ← uniqueIdentifiers (nullish_array (jget value "allowedCapabilityIds"))
              "permissions.allowedCapabilityIds";
  denied ← uniqueIdentifiers (nullish_array (jget value "deniedCapabilityIds"))
             "permissions.deniedCapabilityIds";
  _ ← foldM (λ _ id, ensure (bool_decide (id ∉ allowed))
        (TypeError ("Capability " +:+ id +:+ " cannot be both allowed and denied."))) tt denied;
  mret (mkPermissions defaultAccess allowed denied).

(** One turn of the [map] callback with the [ids] set it closes over. *)
Definition normalizeApproval (ids : list string) (value : jsval) (index : nat) :
    result (list string * approval_receipt) :=
  let label := indexed "approvals" index in
  status ← of_option (TypeError (label +:+ " must be a valid approval receipt."))
             (parse_enum [Approved; Denied] approval_name (jget value "status"));
  receiptId ← identifier (jget value "receiptId") (label +:+ ".receiptId");
  _ ← ensure (bool_decide (receiptId ∉ ids))
        (TypeError ("Approval receipt " +:+ receiptId +:+ " is duplicated."));
  boundary ← normalizeConfirmationBoundary (jget value "boundary") (label +:+ ".boundary");
  capabilityId ← optional (λ v, identifier v (label +:+ ".capabilityId"))
                   (jget value "capabilityId");
  decidedBy ← boundedText (jget value "decidedBy") (label +:+ ".decidedBy") 1000;
  decidedAt ← isoDate (NotDate (jget value "decidedAt")) (label +:+ ".decidedAt");
  mret (set_add receiptId ids,
        mkApproval receiptId boundary capabilityId status decidedBy decidedAt).

(** A [map] whose callback threads a state. *)
Definition map_with {S A B} (f : S → A → nat → result (S * B)) (s : S) (l : list A) :
    result (list B) :=
  r ← foldM (λ st (p : nat * A),
        r ← f st.1 p.2 p.1; mret (r.1, st.2 ++ [r.2])) (s, []) (imap pair l);
  mret r.2.

(** [undefined] is the default argument []. *)
Definition normalizeApprovalReceipts (values : jsval) : result (list approval_receipt) :=
  l ← of_option (TypeError "approvals must be a bounded array.")
        (bounded_array (if is_undefined values then JArr [] else values) 1000);
  map_with normalizeApproval [] l.

(** ** Artifact references *)

(** Only artifact kinds: a claim reference is refused. *)
Definition normalizeRef (value : jsval) (label : string) : result artifact_ref :=
  kind ← of_option (TypeError (label +:+ " must be a valid research artifact reference."))
           (parse_enum RESEARCH_ARTIFACT_KINDS kind_name (jget value "kind"));
  revision ← of_option (TypeError (label +:+ ".revision must be a positive integer."))
               match as_safe_integer (jget value "revision") with
               | Some z => if (z <? 1)%Z then None else Some z
               | None => None
               end;
  contentHash ← of_option (TypeError (label +:+ ".contentHash must be a SHA-256 hash."))
                  match jget value "contentHash" with
                  | JStr s => if is_content_hash s then Some s else None
                  | _ => None
                  end;
  artifactId ← identifier (jget value "artifactId") (label +:+ ".artifactId");
  mret (mkRef artifactId revision (ArtifactRef kind) contentHash).

Definition add_unique_ref (label : string) (byKey : jmap artifact_ref) (entry : nat * jsval) :
    result (jmap artifact_ref) :=
  ref ← normalizeRef entry.2 (indexed label entry.1);
  _ ← ensure (negb (jm_has (fullRefKey ref) byKey))
        (TypeError (label +:+ " contains duplicate reference " +:+ fullRefKey ref +:+ "."));
  mret (jm_set (fullRefKey ref) ref byKey).

Definition uniqueRefs (values : jsval) (label : string) : result (list artifact_ref) :=
  match values with
  | JArr l =>
      byKey ← foldM (add_unique_ref label) [] (imap pair l);
      mret (js_sort compareRefs (jm_values byKey))
  | _ => Throw (TypeError (label +:+ " must be an array."))
  end.

(** ** Execution receipts *)

Definition normalizeReceiptError (value : jsval) (label : string) : result receipt_error :=
  _ ← ensure (negb (is_nullish value))
        (TypeError "Cannot read properties of null (reading 'code')");
  code ← identifier (jget value "code") (label +:+ ".error.code");
  message ← boundedText (jget value "message") (label +:+ ".error.message") 8000;
  retryable ← strictBoolean (jget value "retryable") (label +:+ ".error.retryable");
  mret (mkReceiptError code message retryable).

(** The checks of a receipt against the action it reports on. *)
Definition check_receipt_error (status : receipt_status) (error : jsval) (receiptId : string) :
    result unit :=
  match status with
  | Succeeded => ensure (is_undefined error)
      (TypeError ("Successful receipt " +:+ receiptId +:+ " must not contain an error."))
  | Failed => ensure (negb (is_undefined error))
      (TypeError ("Failed receipt " +:+ receiptId +:+ " requires an error."))
  | BlockedReceipt | Cancelled => Ok tt
  end.

(** One turn of the [map] callback, with the receipt ids and the action ids
    seen so far. *)
Definition normalizeReceipt (plan : plan_record) (actions : jmap director_action)
    (seen : list string * list string) (value : jsval) (index : nat) :
    result ((list string * list string) * execution_receipt) :=
  let label := indexed "receipts" index in
  status ← of_option (TypeError (label +:+ " must be a valid execution receipt."))
             (parse_enum RECEIPT_STATUSES receipt_status_name (jget value "status"));
  receiptId ← identifier (jget value "receiptId") (label +:+ ".receiptId");
  let named := "Execution receipt " +:+ receiptId in
  _ ← ensure (bool_decide (receiptId ∉ seen.1)) (TypeError (named +:+ " is duplicated."));
  _ ← ensure (is_str (pl_planId (pl_body plan)) (jget value "planId"))
        (TypeError (named +:+ " belongs to a different plan."));
  actionId ← identifier (jget value "actionId") (label +:+ ".actionId");
  action ← of_option (TypeError (named +:+ " references unknown action " +:+ actionId +:+ "."))
             (jm_get actionId actions);
  _ ← ensure (bool_decide (actionId ∉ seen.2))
        (TypeError ("Action " +:+ actionId +:+ " has duplicate execution receipts."));
  _ ← ensure (length (act_blockedBoundaryIds action) =? 0)%nat
        (TypeError (named +:+ " references blocked action " +:+ actionId +:+
           "; create a fresh plan after resolving its boundaries."));
  _ ← ensure (is_str (act_capabilityId action) (jget value "capabilityId"))
        (TypeError (named +:+ " capability does not match action " +:+ actionId +:+ "."));
  _ ← check_receipt_error status (jget value "error") receiptId;
  outcome ← optional (λ v, of_option (TypeError (named +:+ " has an invalid outcome."))
              (parse_enum EXECUTION_OUTCOMES outcome_name v)) (jget value "outcome");
  error ← optional (λ v, normalizeReceiptError v label) (jget value "error");
  outputs ← uniqueRefs (jget value "outputArtifactRefs") (label +:+ ".outputArtifactRefs");
  cost ← nonNegativeNumber (jget value "costUnits") (label +:+ ".costUnits");
  duration ← nonNegativeNumber (jget value "durationMs") (label +:+ ".durationMs");
  completedAt ← isoDate (NotDate (jget value "completedAt")) (label +:+ ".completedAt");
  mret ((set_add receiptId seen.1, set_add actionId seen.2),
        mkReceipt receiptId (pl_planId (pl_body plan)) actionId (act_capabilityId action)
          status outcome outputs cost duration completedAt error).

Definition normalizeExecutionReceipts (values : jsval) (plan : plan_record) :
    result (list execution_receipt) :=
  l ← of_option (TypeError "receipts must be a bounded array.") (bounded_array values 10000);
  let actions := jm_index act_id (pl_actions (pl_body plan)) in
  receipts ← map_with (normalizeReceipt plan actions) ([], []) l;
  mret (js_sort (cmp_on rec_receiptId compareText) receipts).

(** ** The audit check of a plan *)

(** The plan is a record of its type, so the checks of its schema version, its
    record kind and its arrays, which come first in the code, always pass. *)
Definition assertPlanRecord (value : plan_record) : result plan_record :=
  _ ← identifier (JStr (pl_planId (pl_body value))) "plan.planId";
  _ ← isoDate (NotDate (time_json (pl_createdAt (pl_body value)))) "plan.createdAt";
  _ ← ensure (is_content_hash (pl_auditHash value)) (TypeError "plan.auditHash is invalid.");
  hash ← hashResearchArtifactContent (JObj (plan_body_fields (pl_body value)));
  _ ← ensure (String.eqb hash (pl_auditHash value))
        (TypeError "Director plan auditHash does not match its canonical record content.");
  mret value.
End Validation.

(** ** Permission and confirmation *)

(** [/[^a-z0-9]+/gu] replaced by "_": a run of other characters becomes one. *)
Fixpoint underscore_runs (in_run : bool) (s : string) : string :=
  match s with
  | EmptyString => EmptyString
  | String c s =>
      if is_lower c || is_digit c then String c (underscore_runs false s)
      else if in_run then underscore_runs true s
      else String "_" (underscore_runs true s)
  end.

Definition inferConfirmationBoundary (c : capability) : option confirmation_boundary :=
  match cap_confirmationBoundary c with
  | Some b => Some b
  | None =>
    let normalized := underscore_runs false
      (to_lower (cap_id c +:+ " " +:+ cap_toolName c +:+ " " +:+ cap_operation c)) in
    let words := List.filter (λ w, negb (String.eqb w "")) (str_split "_" normalized) in
    let has word := existsb (String.eqb word) words in
    if str_includes "zotero_write" normalized
       || (has "zotero" && existsb has ["write"; "create"; "update"; "delete"; "mutate"])
    then Some ZoteroWrite
    else if existsb (starts_with "export") words then Some ExportBoundary
    else if existsb (starts_with "snapshot") words then Some SnapshotBoundary
    else if str_includes "final_title" normalized || str_includes "confirm_title" normalized
            || str_includes "confirmed_title" normalized || (has "final" && has "title")
    then Some FinalTitle
    else if str_includes "budget_auto" normalized || str_includes "auto_budget" normalized
            || (has "budget" && (has "auto" || has "automatic"))
    then Some BudgetAuto
    else None
  end.

Definition capabilityIsAllowed (capabilityId : string) (permissions : permission_snapshot) :
    bool :=
  if decide (capabilityId ∈ per_denied permissions) then false
  else bool_decide (capabilityId ∈ per_allowed permissions)
       || bool_decide (per_defaultAccess permissions = AccessAllow).

Section Approvals.
Context `{Host}.

Definition denied_rank (receipt : approval_receipt) : nat :=
  if decide (apr_status receipt = Denied) then 1 else 0.

(** Latest first; at equal times a denial first. *)
Definition compareApprovals (left right : approval_receipt) : comparison :=
  cmp_then (compareText (to_iso_string (apr_decidedAt right)) (to_iso_string (apr_decidedAt left)))
    (cmp_then (Nat.compare (denied_rank right) (denied_rank left))
       (compareText (apr_receiptId right) (apr_receiptId left))).

Definition approval_applies (capabilityId : string) (boundary : confirmation_boundary)
    (receipt : approval_receipt) : bool :=
  bool_decide (apr_boundary receipt = boundary)
  && match apr_capabilityId receipt with
     | None => true
     | Some id => String.eqb id capabilityId
     end.

Definition approvalFor (capabilityId : string) (boundary : confirmation_boundary)
    (approvals : list approval_receipt) : option approval_receipt :=
  head (js_sort compareApprovals
    (List.filter (approval_applies capabilityId boundary) approvals)).
End Approvals.
