(* ===== verification/DirectorPlan.v ===== *)
(** * The research director's planner

    src/src/research/director/planner.ts up to [createResearchDirectorPlan]:
    which actions the state of the artifacts calls for, what each depends on,
    what blocks it (capability, permission, confirmation, budget, a blocked
    dependency), the batches that are ready to run, and the sealed plan.

    The code's [MutableAction] objects live in one Map and are changed in
    place; here the Map is threaded and a change stores the action back under
    its id.  The groupings the code builds once per call (by kind, capability,
    target) hold the same objects but are only read for ids and capabilities,
    so they are functions of the Map. *)

From S2P Require Import Prelude Host JsValue ArtifactTypes ArtifactGraph RepoModel Numbers DirectorTypes DirectorValidation.

Record mutable_action := mkMutable {
  ma_id : string;
  ma_capability : capability;
  ma_intent : action_intent;
  ma_inputs : jmap artifact_ref;
  ma_targets : jmap artifact_ref;
  ma_findings : jmap artifact_ref;
  ma_dependsOn : list string;
  ma_blocked : list string;
}.

Record mutable_plan := mkMutablePlan {
  mp_actions : jmap mutable_action;
  mp_boundaries : jmap blocked_boundary;
}.

(** An action being changed, with the plan's boundaries. *)
Abbreviation action_state := (jmap blocked_boundary * mutable_action)%type.

(** What the planner is called with.  The artifacts are typed envelopes, the
    rest is untyped; [now] is the time value of the supplied or current [Date]
    ([None] for an invalid one). *)
Record plan_input := mkPlanInput {
  pi_goal : jsval;
  pi_artifacts : list artifact_envelope;
  pi_findings : option (list artifact_envelope);
  pi_capabilities : jsval;
  pi_budget : jsval;
  pi_permissions : jsval;
  pi_approvals : jsval;
  pi_planId : jsval;
  pi_now : option Z;
}.

(** [map.set(fullRefKey(ref), ref)]. *)
Definition set_ref (m : jmap artifact_ref) (ref : artifact_ref) : jmap artifact_ref :=
  jm_set (fullRefKey ref) ref m.

Definition with_inputs (f : jmap artifact_ref → jmap artifact_ref) (a : mutable_action) :
    mutable_action :=
  mkMutable (ma_id a) (ma_capability a) (ma_intent a) (f (ma_inputs a)) (ma_targets a)
    (ma_findings a) (ma_dependsOn a) (ma_blocked a).

Definition with_target (target : artifact_ref) (a : mutable_action) : mutable_action :=
  mkMutable (ma_id a) (ma_capability a) (ma_intent a) (ma_inputs a)
    (set_ref (ma_targets a) target) (ma_findings a) (ma_dependsOn a) (ma_blocked a).

Definition with_finding (finding : artifact_ref) (a : mutable_action) : mutable_action :=
  mkMutable (ma_id a) (ma_capability a) (ma_intent a) (ma_inputs a) (ma_targets a)
    (set_ref (ma_findings a) finding) (ma_dependsOn a) (ma_blocked a).

Definition with_dependsOn (f : list string → list string) (a : mutable_action) : mutable_action :=
  mkMutable (ma_id a) (ma_capability a) (ma_intent a) (ma_inputs a) (ma_targets a)
    (ma_findings a) (f (ma_dependsOn a)) (ma_blocked a).

Definition with_blocked (id : string) (a : mutable_action) : mutable_action :=
  mkMutable (ma_id a) (ma_capability a) (ma_intent a) (ma_inputs a) (ma_targets a)
    (ma_findings a) (ma_dependsOn a) (set_add id (ma_blocked a)).

(** [action.blockedBoundaryIds.size === 0]. *)
Definition unblocked (a : mutable_action) : bool := (length (ma_blocked a) =? 0)%nat.

Section Planner.
Context `{Host}.

(** ** Artifacts *)

Definition merge_artifact (byKey : jmap artifact_envelope) (artifact : artifact_envelope) :
    result (jmap artifact_envelope) :=
  let key := researchArtifactKey artifact in
  _ ← ensure
        match jm_get key byKey with
        | Some existing => String.eqb (a_contentHash existing) (a_contentHash artifact)
        | None => true
        end
        (TypeError ("Artifact " +:+ key +:+ " is supplied with conflicting content hashes."));
  mret (jm_set key artifact byKey).

Definition mergeArtifacts (artifacts findings : list artifact_envelope) :
    result (list artifact_envelope) :=
  byKey ← foldM merge_artifact [] (artifacts ++ findings);
  mret (js_sort (cmp_on researchArtifactKey compareText) (jm_values byKey)).

(** [isArtifactRef(value)], with the [fullRefKey] of the untyped reference. *)
Definition raw_ref_key (value : jsval) : option string :=
  if isRecord value then
    match jget value "kind", jget value "artifactId", jget value "revision",
          jget value "contentHash" with
    | JStr kind, JStr id, JNum revision, JStr hash =>
        Some (kind +:+ ":" +:+ id +:+ "@" +:+ number_to_string revision +:+ ":" +:+ hash)
    | _, _, _, _ => None
    end
  else None.

(** The findings one active revision decision resolves. *)
Definition decided_findings (artifact : artifact_envelope) : list string :=
  if bool_decide (a_kind artifact = RevisionDecision)
     && bool_decide (a_status artifact = Active) && isRecord (a_payload artifact)
  then
    match jget (a_payload artifact) "decisions" with
    | JArr decisions =>
        omap (λ decision,
          if isRecord decision then raw_ref_key (jget decision "findingRef") else None) decisions
    | _ => []
    end
  else [].

Definition resolved_findings (latest : list artifact_envelope) : list string :=
  concat (map decided_findings latest).

Definition is_unresolved_finding (resolved : list string) (artifact : artifact_envelope) : bool :=
  bool_decide (a_kind artifact = Finding) && bool_decide (a_status artifact = Active)
  && isRecord (a_payload artifact)
  && is_str "concern" (jget (a_payload artifact) "assessment")
  && bool_decide (fullRefKey (toResearchArtifactRef artifact) ∉ resolved).

Definition findUnresolvedFindings (latest : list artifact_envelope) : list artifact_envelope :=
  List.filter (is_unresolved_finding (resolved_findings latest)) latest.

Definition findingAffectedRefs (finding : artifact_envelope) : result (list artifact_ref) :=
  if isRecord (a_payload finding) then
    match jget (a_payload finding) "affectedArtifactRefs" with
    | JArr refs =>
        uniqueRefs
          (JArr (List.filter (λ r, match raw_ref_key r with Some _ => true | None => false end) refs))
          ("finding " +:+ a_artifactId finding +:+ " affectedArtifactRefs")
    | _ => Ok []
    end
  else Ok [].

(** [groupActiveArtifactsByKind(artifacts).get(kind) ?? []]. *)
Definition activeByKind (latest : list artifact_envelope) (kind : artifact_kind) :
    list artifact_envelope :=
  List.filter (λ a, bool_decide (a_status a = Active) && bool_decide (a_kind a = kind)) latest.

(** [(activeByKind.get(kind)?.length ?? 0) > 0]. *)
Definition has_active (latest : list artifact_envelope) (kind : artifact_kind) : bool :=
  (0 <? length (activeByKind latest kind))%nat.

(** ** Producers *)

Definition produces_kind (kind : artifact_kind) (c : capability) : bool :=
  bool_decide (kind ∈ cap_produces c).

(** Whether nothing the user has not approved stands before the capability. *)
Definition confirmed (approvals : list approval_receipt) (c : capability) : bool :=
  match inferConfirmationBoundary c with
  | None => true
  | Some boundary =>
      match approvalFor (cap_id c) boundary approvals with
      | Some receipt => bool_decide (apr_status receipt = Approved)
      | None => false
      end
  end.

Definition producer_score (permissions : permission_snapshot)
    (approvals : list approval_receipt) (c : capability) : nat :=
  (if cap_available c then 4 else 0)
  + (if capabilityIsAllowed (cap_id c) permissions then 2 else 0)
  + (if confirmed approvals c then 1 else 0).

Definition compareProducers (permissions : permission_snapshot)
    (approvals : list approval_receipt) (left right : capability) : comparison :=
  cmp_then (Nat.compare (producer_score permissions approvals right)
              (producer_score permissions approvals left))
    (compareText (cap_id left) (cap_id right)).

(** [producersByKind(...).get(kind)?.[0]]. *)
Definition best_producer (capabilities : list capability) (permissions : permission_snapshot)
    (approvals : list approval_receipt) (kind : artifact_kind) : option capability :=
  head (js_sort (compareProducers permissions approvals)
    (List.filter (produces_kind kind) capabilities)).

(** ** Boundaries *)

Definition addBoundary (boundaries : jmap blocked_boundary) (value : boundary_body) :
    result (jmap blocked_boundary * string) :=
  let normalized := mkBoundaryBody (bb_kind value) (bb_detail value) (bb_capabilityId value)
    (bb_actionId value) (bb_confirmationBoundary value)
    (js_sort compareRefs (bb_artifactRefs value))
    (js_sort compareRefs (bb_findingRefs value)) in
  boundaryId ← directorRecordId "boundary" (JObj (boundary_body_fields normalized));
  mret (jm_set boundaryId (mkBoundary boundaryId normalized) boundaries, boundaryId).

Definition blockAction (st : action_state) (value : boundary_body) : result action_state :=
  r ← addBoundary st.1 value;
  mret (r.1, with_blocked r.2 st.2).

(** The boundary of an action, with its targets or with no artifacts. *)
Definition action_boundary (a : mutable_action) (kind : blocked_kind) (detail : string)
    (confirmation : option confirmation_boundary) (refs : list artifact_ref) : boundary_body :=
  mkBoundaryBody kind detail (Some (cap_id (ma_capability a))) (Some (ma_id a)) confirmation
    refs (jm_values (ma_findings a)).

(** [for (const action of mutable.actions.values()) f(action)]. *)
Definition visit_action (f : mutable_plan → mutable_action → result action_state)
    (m : mutable_plan) (key : string) : result mutable_plan :=
  match jm_get key (mp_actions m) with
  | Some a => r ← f m a; mret (mkMutablePlan (jm_set key r.2 (mp_actions m)) r.1)
  | None => Ok m
  end.

Definition for_each_action (f : mutable_plan → mutable_action → result action_state)
    (m : mutable_plan) : result mutable_plan :=
  foldM (visit_action f) m (jm_keys (mp_actions m)).

(** ** Which actions *)

Definition createMutableAction (c : capability) (intent : action_intent) (identity : jsval) :
    result mutable_action :=
  actionId ← directorRecordId ("action-" +:+ intent_name intent) identity;
  mret (mkMutable actionId c intent [] [] [] [] []).

Definition set_action (m : mutable_plan) (a : mutable_action) : mutable_plan :=
  mkMutablePlan (jm_set (ma_id a) a (mp_actions m)) (mp_boundaries m).

Definition add_plan_boundary (m : mutable_plan) (value : boundary_body) : result mutable_plan :=
  r ← addBoundary (mp_boundaries m) value; mret (mkMutablePlan (mp_actions m) r.1).

Definition plan_boundary (kind : blocked_kind) (detail : string)
    (artifactRefs findingRefs : list artifact_ref) : boundary_body :=
  mkBoundaryBody kind detail None None None artifactRefs findingRefs.

Definition addAdvanceAction (latest : list artifact_envelope) (m : mutable_plan)
    (c : capability) : result mutable_plan :=
  if (length (cap_produces c) =? 0)%nat || forallb (has_active latest) (cap_produces c) then Ok m
  else
    action ← createMutableAction c IntentAdvance (JObj [("capabilityId", JStr (cap_id c))]);
    mret (set_action m action).

Definition addAdvanceActions (latest : list artifact_envelope) (capabilities : list capability)
    (m : mutable_plan) : result mutable_plan :=
  foldM (addAdvanceAction latest) m capabilities.

Definition target_identity (c : capability) (target : artifact_ref) : jsval :=
  JObj [("capabilityId", JStr (cap_id c)); ("target", ref_to_json target)].

Definition addRecomputeAction (producer : artifact_kind → option capability) (m : mutable_plan)
    (artifact : artifact_envelope) : result mutable_plan :=
  let ref := toResearchArtifactRef artifact in
  match producer (a_kind artifact) with
  | None => add_plan_boundary m (plan_boundary MissingCapability
      ("No capability can recompute stale artifact " +:+ fullRefKey ref +:+ ".") [ref] [])
  | Some c =>
      action ← createMutableAction c IntentRecompute (target_identity c ref);
      mret (set_action m (with_target ref action))
  end.

(** [candidate.capability === capability && candidate.targetArtifactRefs.has(key)]. *)
Definition revises (c : capability) (target : artifact_ref) (candidate : mutable_action) : bool :=
  String.eqb (cap_id (ma_capability candidate)) (cap_id c)
  && jm_has (fullRefKey target) (ma_targets candidate).

Definition addReviseAction (producer : artifact_kind → option capability)
    (latestByKey : jmap artifact_envelope) (findingRef : artifact_ref) (m : mutable_plan)
    (target : artifact_ref) : result mutable_plan :=
  let effectiveTarget :=
    match jm_get (refKey target) latestByKey with
    | None => target
    | Some a => toResearchArtifactRef a
    end in
  match (match ref_kind_of effectiveTarget with
         | ClaimRef => None
         | ArtifactRef kind => producer kind
         end) with
  | None => add_plan_boundary m (plan_boundary MissingCapability
      ("No capability can revise artifact " +:+ fullRefKey effectiveTarget +:+ " for finding "
       +:+ fullRefKey findingRef +:+ ".") [effectiveTarget] [findingRef])
  | Some c =>
      action ← match List.find (revises c effectiveTarget) (jm_values (mp_actions m)) with
               | Some equivalent => Ok equivalent
               | None => createMutableAction c IntentRevise (target_identity c effectiveTarget)
               end;
      mret (set_action m (with_finding findingRef (with_target effectiveTarget action)))
  end.

Definition addFindingActions (producer : artifact_kind → option capability)
    (latestByKey : jmap artifact_envelope) (m : mutable_plan) (finding : artifact_envelope) :
    result mutable_plan :=
  let findingRef := toResearchArtifactRef finding in
  affected ← findingAffectedRefs finding;
  match affected with
  | [] => add_plan_boundary m (plan_boundary MissingDependency
      ("Finding " +:+ fullRefKey findingRef +:+ " has no affected artifact reference to revise.")
      [] [findingRef])
  | _ => foldM (addReviseAction producer latestByKey findingRef) m affected
  end.

Definition addRepairActions (producer : artifact_kind → option capability)
    (latestByKey : jmap artifact_envelope) (stale unresolved : list artifact_envelope)
    (m : mutable_plan) : result mutable_plan :=
  m ← foldM (addRecomputeAction producer) m stale;
  foldM (addFindingActions producer latestByKey) m unresolved.

(** ** What an action depends on *)

(** The groupings the linking reads: actions by capability, by produced kind
    (other than the action itself) and, by target, the last one's id. *)
Definition actions_of_capability (actions : jmap mutable_action) (id : string) :
    list mutable_action :=
  List.filter (λ a, String.eqb (cap_id (ma_capability a)) id) (jm_values actions).

Definition actions_producing (actions : jmap mutable_action) (kind : artifact_kind) :
    list mutable_action :=
  List.filter (λ a, produces_kind kind (ma_capability a)) (jm_values actions).

Definition groupActionsByTarget (actions : jmap mutable_action) : jmap string :=
  foldl (λ m a, foldl (λ m ref, jm_set (fullRefKey ref) (ma_id a) m) m (jm_values (ma_targets a)))
    [] (jm_values actions).

Definition add_dependencies (producers : list mutable_action) : mutable_action → mutable_action :=
  with_dependsOn (λ ids, foldl (λ ids p, set_add (ma_id p) ids) ids producers).

Definition link_kind (latest : list artifact_envelope) (actions : jmap mutable_action)
    (st : action_state) (kind : artifact_kind) : result action_state :=
  let a := st.2 in
  let active := activeByKind latest kind in
  let matchingTargets := List.filter (λ ref, bool_decide (ref_kind_of ref = ArtifactRef kind))
    (jm_values (ma_targets a)) in
  let producers := List.filter (λ p, negb (String.eqb (ma_id p) (ma_id a)))
    (actions_producing actions kind) in
  match active, matchingTargets, producers with
  | _ :: _, _, _ =>
      Ok (st.1, with_inputs (λ m, foldl set_ref m (map toResearchArtifactRef active)) a)
  | [], _ :: _, _ => Ok (st.1, with_inputs (λ m, foldl set_ref m matchingTargets) a)
  | [], [], [] => blockAction st (action_boundary a MissingDependency
      ("Action " +:+ ma_id a +:+ " requires artifact kind " +:+ kind_name kind
       +:+ ", but no active artifact or planned producer exists.") None [])
  | [], [], _ :: _ => Ok (st.1, add_dependencies producers a)
  end.

Definition link_capability (latest : list artifact_envelope) (capabilities : list capability)
    (actions : jmap mutable_action) (st : action_state) (dependencyId : string) :
    result action_state :=
  let a := st.2 in
  match jm_get dependencyId (jm_index cap_id capabilities) with
  | None => Ok st
  | Some dependency =>
      if (0 <? length (cap_produces dependency))%nat
         && forallb (has_active latest) (cap_produces dependency)
      then Ok st
      else
        match actions_of_capability actions dependencyId with
        | [] => blockAction st (action_boundary a MissingDependency
            ("Action " +:+ ma_id a +:+ " requires capability " +:+ dependencyId
             +:+ ", which has no satisfied output or planned action.") None [])
        | producers => Ok (st.1, add_dependencies producers a)
        end
  end.

Definition link_target_parent (latestByKey : jmap artifact_envelope) (actionsByTarget : jmap string)
    (a : mutable_action) (parent : artifact_parent) : mutable_action :=
  let as_input :=
    match jm_get (refKey (p_artifact parent)) latestByKey with
    | Some p =>
        if decide (a_status p = Active)
        then with_inputs (λ m, set_ref m (toResearchArtifactRef p)) a else a
    | None => a
    end in
  match jm_get (fullRefKey (p_artifact parent)) actionsByTarget with
  | Some parentAction =>
      if String.eqb parentAction (ma_id a) then as_input
      else with_dependsOn (set_add parentAction) a
  | None => as_input
  end.

Definition link_target (latestByKey : jmap artifact_envelope) (actionsByTarget : jmap string)
    (a : mutable_action) (target : artifact_ref) : mutable_action :=
  match jm_get (refKey target) latestByKey with
  | None => a
  | Some artifact => foldl (link_target_parent latestByKey actionsByTarget) a (a_parents artifact)
  end.

Definition link_action (latest : list artifact_envelope) (latestByKey : jmap artifact_envelope)
    (capabilities : list capability) (actions : jmap mutable_action) (m : mutable_plan)
    (a : mutable_action) : result action_state :=
  st ← foldM (link_kind latest actions) (mp_boundaries m, a) (cap_accepts (ma_capability a));
  st ← foldM (link_capability latest capabilities actions) st (cap_dependsOn (ma_capability a));
  let a := foldl (link_target latestByKey (groupActionsByTarget actions)) st.2
             (jm_values (ma_targets st.2)) in
  mret (st.1, with_dependsOn (List.filter (λ id, negb (String.eqb id (ma_id a)))) a).

Definition linkArtifactAndCapabilityDependencies (latest : list artifact_envelope)
    (latestByKey : jmap artifact_envelope) (capabilities : list capability) (m : mutable_plan) :
    result mutable_plan :=
  for_each_action (link_action latest latestByKey capabilities (mp_actions m)) m.

(** ** What blocks an action *)

(** The boundary of an unconfirmed capability, after its approval. *)
Definition confirmation_block (a : mutable_action) (boundary : confirmation_boundary)
    (approval : option approval_receipt) : option boundary_body :=
  let capabilityId := cap_id (ma_capability a) in
  match approval with
  | Some receipt =>
      if decide (apr_status receipt = Approved) then None
      else Some (action_boundary a ConfirmationDenied
        ("Confirmation " +:+ boundary_name boundary +:+ " was denied for capability "
         +:+ capabilityId +:+ ".") (Some boundary) (jm_values (ma_targets a)))
  | None => Some (action_boundary a ConfirmationRequired
        ("Capability " +:+ capabilityId +:+ " requires explicit " +:+ boundary_name boundary
         +:+ " confirmation.") (Some boundary) (jm_values (ma_targets a)))
  end.

(** The boundaries a capability meets, in the order the code adds them. *)
Definition capability_blocks (permissions : permission_snapshot)
    (approvals : list approval_receipt) (a : mutable_action) : list boundary_body :=
  let c := ma_capability a in
  let targets := jm_values (ma_targets a) in
  (if cap_available c then [] else
     [action_boundary a CapabilityUnavailable
        (default ("Capability " +:+ cap_id c +:+ " is unavailable.") (cap_unavailableReason c))
        None targets]) ++
  (if capabilityIsAllowed (cap_id c) permissions then [] else
     [action_boundary a PermissionDenied
        ("Capability " +:+ cap_id c +:+ " is outside the supplied permission snapshot.")
        None targets]) ++
  match inferConfirmationBoundary c with
  | None => []
  | Some boundary =>
      option_list (confirmation_block a boundary (approvalFor (cap_id c) boundary approvals))
  end.

Definition applyCapabilityBoundaries (permissions : permission_snapshot)
    (approvals : list approval_receipt) (m : mutable_plan) : result mutable_plan :=
  for_each_action
    (λ m a, foldM blockAction (mp_boundaries m, a) (capability_blocks permissions approvals a)) m.

Definition blocked_dependency (actions : jmap mutable_action) (a : mutable_action) :
    option mutable_action :=
  List.find (λ d, negb (unblocked d)) (omap (λ id, jm_get id actions) (ma_dependsOn a)).

(** One turn of the [for] loop; the flag is the code's [changed]. *)
Definition cascade_action (st : bool * mutable_plan) (key : string) :
    result (bool * mutable_plan) :=
  let m := st.2 in
  match jm_get key (mp_actions m) with
  | None => Ok st
  | Some a =>
      if unblocked a then
        match blocked_dependency (mp_actions m) a with
        | None => Ok st
        | Some d =>
            r ← blockAction (mp_boundaries m, a) (action_boundary a MissingDependency
                  ("Action " +:+ ma_id a +:+ " depends on blocked action " +:+ ma_id d +:+ ".")
                  None (jm_values (ma_targets a)));
            mret (true, mkMutablePlan (jm_set key r.2 (mp_actions m)) r.1)
        end
      else Ok st
  end.

Definition cascade_pass (m : mutable_plan) : result (bool * mutable_plan) :=
  foldM cascade_action (false, m) (jm_keys (mp_actions m)).

(** [while (changed)]: every turn but the last blocks an action. *)
Fixpoint cascade_loop (fuel : nat) (m : mutable_plan) : result mutable_plan :=
  match fuel with
  | O => Ok m
  | S fuel =>
      r ← cascade_pass m;
      if r.1 : bool then cascade_loop fuel r.2 else Ok r.2
  end.

Definition cascadeBlockedDependencies (m : mutable_plan) : result mutable_plan :=
  cascade_loop (S (length (mp_actions m))) m.

(** ** Batches *)

Definition compareMutableActions (left right : mutable_action) : comparison :=
  compareText (ma_id left) (ma_id right).

Definition eligible_actions (actions : jmap mutable_action) : list mutable_action :=
  js_sort compareMutableActions (List.filter unblocked (jm_values actions)).

(** Not run yet, and every eligible action it depends on has run. *)
Definition is_ready (eligibleIds completed : list string) (a : mutable_action) : bool :=
  bool_decide (ma_id a ∉ completed)
  && forallb (λ id, bool_decide (id ∈ completed))
       (List.filter (λ id, bool_decide (id ∈ eligibleIds)) (ma_dependsOn a)).

(** The concurrency-safe ready actions together, else the first one alone. *)
Definition select_ready (ready : list mutable_action) : list mutable_action :=
  match List.filter (λ a, cap_concurrencySafe (ma_capability a)) ready with
  | [] => option_list (head ready)
  | parallel => parallel
  end.

Definition pad_start (width : nat) (s : string) : string :=
  str_repeat (width - String.length s) "0" +:+ s.

Definition make_batch (number : nat) (selected : list mutable_action) : director_batch :=
  mkBatch ("batch-" +:+ pad_start 3 (pretty number))
    (js_sort compareText (ma_id <$> selected))
    (forallb (λ a, cap_concurrencySafe (ma_capability a)) selected)
    (sum_of ((λ a, cap_estimatedCostUnits (ma_capability a)) <$> selected))
    (max_of ((λ a, cap_estimatedDurationMs (ma_capability a)) <$> selected)).

Definition batch_cycle : js_error :=
  TypeError "Director action graph contains an unresolved dependency cycle.".

(** [while (completed.size < eligible.length)]: every turn completes an action. *)
Fixpoint batch_loop (fuel : nat) (eligible : list mutable_action) (completed : list string)
    (batches : list director_batch) : result (list director_batch) :=
  match fuel with
  | O => Ok batches
  | S fuel =>
      if (length completed <? length eligible)%nat then
        let ready := List.filter (is_ready (ma_id <$> eligible) completed) eligible in
        match ready with
        | [] => Throw batch_cycle
        | _ =>
            let selected := select_ready ready in
            batch_loop fuel eligible
              (foldl (λ s a, set_add (ma_id a) s) completed selected)
              (batches ++ [make_batch (S (length batches)) selected])
        end
      else Ok batches
  end.

Definition createReadyBatches (actions : jmap mutable_action) : result (list director_batch) :=
  let eligible := eligible_actions actions in
  batch_loop (S (length eligible)) eligible [] [].

(** ** Budgets *)

(** The plan and the units (or milliseconds) that remain. *)
Definition spend_action (st : mutable_plan * jsnum) (actionId : string) :
    result (mutable_plan * jsnum) :=
  let '(m, remaining) := st in
  match jm_get actionId (mp_actions m) with
  | None => Ok st
  | Some a =>
      if unblocked a then
        let cost := cap_estimatedCostUnits (ma_capability a) in
        if js_le cost remaining then Ok (m, js_sub remaining cost)
        else
          r ← blockAction (mp_boundaries m, a) (action_boundary a BudgetExceeded
                ("Action " +:+ ma_id a +:+ " projects " +:+ number_to_string cost
                 +:+ " units with only " +:+ number_to_string remaining +:+ " remaining.")
                None (jm_values (ma_targets a)));
          mret (mkMutablePlan (jm_set actionId r.2 (mp_actions m)) r.1, remaining)
      else Ok st
  end.

Definition applyCostBudget (batches : list director_batch) (availableUnits : jsnum)
    (m : mutable_plan) : result mutable_plan :=
  r ← foldM (λ st b, foldM spend_action st (bat_actionIds b)) (m, availableUnits) batches;
  mret r.1.

Definition fit_action (remaining : jsnum) (st : mutable_plan * list jsnum) (actionId : string) :
    result (mutable_plan * list jsnum) :=
  let '(m, fitting) := st in
  match jm_get actionId (mp_actions m) with
  | None => Ok st
  | Some a =>
      let duration := cap_estimatedDurationMs (ma_capability a) in
      if js_le duration remaining then Ok (m, fitting ++ [duration])
      else
        r ← blockAction (mp_boundaries m, a) (action_boundary a DurationExceeded
              ("Action " +:+ actionId +:+ " projects " +:+ number_to_string duration
               +:+ " ms with only " +:+ number_to_string remaining +:+ " ms remaining.")
              None (jm_values (ma_targets a)));
        mret (mkMutablePlan (jm_set actionId r.2 (mp_actions m)) r.1, fitting)
  end.

Definition fit_batch (st : mutable_plan * jsnum) (b : director_batch) :
    result (mutable_plan * jsnum) :=
  r ← foldM (fit_action st.2) (st.1, []) (bat_actionIds b);
  mret (r.1, match r.2 with [] => st.2 | _ => js_sub st.2 (max_of r.2) end).

Definition applyDurationBudget (batches : list director_batch) (availableDurationMs : jsnum)
    (m : mutable_plan) : result mutable_plan :=
  r ← foldM fit_batch (m, availableDurationMs) batches; mret r.1.

(** ** The plan record *)

Definition freeze_action (a : mutable_action) : director_action :=
  let c := ma_capability a in
  mkAction (ma_id a) (cap_id c) (cap_toolName c) (cap_operation c) (ma_intent a)
    (js_sort compareRefs (jm_values (ma_inputs a)))
    (js_sort compareRefs (jm_values (ma_targets a)))
    (js_sort compareRefs (jm_values (ma_findings a)))
    (cap_produces c) (js_sort compareText (ma_dependsOn a)) (cap_concurrencySafe c)
    (cap_estimatedCostUnits c) (cap_estimatedDurationMs c) (inferConfirmationBoundary c)
    (js_sort compareText (ma_blocked a)).

Definition freezeActions (actions : jmap mutable_action) : list director_action :=
  freeze_action <$> js_sort compareMutableActions (jm_values actions).

(** The normalized request, and what is computed of the artifacts. *)
Record plan_request := mkRequest {
  rq_goal : director_goal;
  rq_capabilities : list capability;
  rq_budget : director_budget;
  rq_permissions : permission_snapshot;
  rq_approvals : list approval_receipt;
  rq_latest : list artifact_envelope;
  rq_missing : list artifact_ref;
}.

Definition rq_latestByKey (rq : plan_request) : jmap artifact_envelope :=
  jm_index researchArtifactKey (rq_latest rq).

Definition rq_stale (rq : plan_request) : list artifact_envelope :=
  List.filter (λ a, bool_decide (a_status a = Stale)) (rq_latest rq).

Definition rq_unresolved (rq : plan_request) : list artifact_envelope :=
  findUnresolvedFindings (rq_latest rq).

Definition rq_mode (rq : plan_request) : plan_mode :=
  if ((0 <? length (rq_stale rq)) || (0 <? length (rq_unresolved rq)))%nat
  then RepairMode else AdvanceMode.

Definition read_request (input : plan_input) : result plan_request :=
  goal ← normalizeGoal (pi_goal input);
  capabilities ← normalizeCapabilities (pi_capabilities input);
  budget ← normalizeBudget (pi_budget input);
  permissions ← normalizePermissions (pi_permissions input);
  approvals ← normalizeApprovalReceipts (pi_approvals input);
  artifacts ← mergeArtifacts (pi_artifacts input) (default [] (pi_findings input));
  graph ← buildResearchArtifactGraph artifacts;
  mret (mkRequest goal capabilities budget permissions approvals
    (latestResearchArtifactRevisions artifacts) (g_missingParents graph)).

(** The boundaries of the missing parents, then the actions of the mode. *)
Definition plan_actions (rq : plan_request) : result mutable_plan :=
  m ← foldM (λ m missingParent, add_plan_boundary m (plan_boundary MissingDependency
        ("Artifact graph is missing referenced parent " +:+ fullRefKey missingParent +:+ ".")
        [missingParent] [])) (mkMutablePlan [] []) (rq_missing rq);
  match rq_mode rq with
  | RepairMode =>
      addRepairActions (best_producer (rq_capabilities rq) (rq_permissions rq) (rq_approvals rq))
        (rq_latestByKey rq) (rq_stale rq) (rq_unresolved rq) m
  | AdvanceMode => addAdvanceActions (rq_latest rq) (rq_capabilities rq) m
  end.

(** Linked, then blocked by capability and by blocked dependencies. *)
Definition plan_blocked (rq : plan_request) : result mutable_plan :=
  m ← plan_actions rq;
  m ← linkArtifactAndCapabilityDependencies (rq_latest rq) (rq_latestByKey rq)
        (rq_capabilities rq) m;
  m ← applyCapabilityBoundaries (rq_permissions rq) (rq_approvals rq) m;
  cascadeBlockedDependencies m.

Definition available_units (rq : plan_request) : jsnum :=
  js_sub (bud_limitUnits (rq_budget rq)) (bud_spentUnits (rq_budget rq)).

Definition available_duration (rq : plan_request) : option jsnum :=
  (λ d : jsnum * jsnum, js_sub d.1 d.2) <$> bud_duration (rq_budget rq).

(** Then cut to the budgets, with the batches of what remains. *)
Definition plan_budgeted (rq : plan_request) :
    result (mutable_plan * list director_batch) :=
  m ← plan_blocked rq;
  batches ← createReadyBatches (mp_actions m);
  m ← applyCostBudget batches (available_units rq) m;
  m ← cascadeBlockedDependencies m;
  batches ← createReadyBatches (mp_actions m);
  match available_duration rq with
  | None => Ok (m, batches)
  | Some available =>
      m ← applyDurationBudget batches available m;
      m ← cascadeBlockedDependencies m;
      batches ← createReadyBatches (mp_actions m);
      Ok (m, batches)
  end.

Definition project_budget (rq : plan_request) (actions : list director_action)
    (batches : list director_batch) : budget_projection :=
  mkProjection (available_units rq)
    (sum_of (act_estimatedCostUnits <$>
       List.filter (λ a, (length (act_blockedBoundaryIds a) =? 0)%nat) actions))
    (available_duration rq)
    (sum_of (bat_estimatedDurationMs <$> batches)).

(** The hash of what the plan was made from. *)
Definition state_json (rq : plan_request) (unresolvedFindingRefs : list artifact_ref) : jsval :=
  JObj [("goal", goal_to_json (rq_goal rq));
        ("artifacts", JArr (map (λ a, JObj [("ref", ref_to_json (toResearchArtifactRef a));
           ("status", JStr (status_name (a_status a)))]) (rq_latest rq)));
        ("unresolvedFindingRefs", refs_json unresolvedFindingRefs)].

Definition plan_identity (rq : plan_request) (stateHash capabilitySnapshotHash : string) : jsval :=
  JObj [("goal", goal_to_json (rq_goal rq)); ("stateHash", JStr stateHash);
        ("capabilitySnapshotHash", JStr capabilitySnapshotHash);
        ("budget", budget_to_json (rq_budget rq));
        ("permissions", permissions_to_json (rq_permissions rq));
        ("approvals", JArr (map approval_to_json (rq_approvals rq)))].

Definition sorted_refs (artifacts : list artifact_envelope) : list artifact_ref :=
  js_sort compareRefs (map toResearchArtifactRef artifacts).

Definition createResearchDirectorPlan (input : plan_input) : result plan_record :=
  rq ← read_request input;
  mb ← plan_budgeted rq;
  let actions := freezeActions (mp_actions mb.1) in
  let unresolvedFindingRefs := sorted_refs (rq_unresolved rq) in
  capabilitySnapshotHash ← hashResearchArtifactContent
    (JArr (map capability_to_json (rq_capabilities rq)));
  stateHash ← hashResearchArtifactContent (state_json rq unresolvedFindingRefs);
  createdAt ← isoDate (IsDate (pi_now input)) "Director plan time";
  planId ← if is_undefined (pi_planId input)
           then directorRecordId "director-plan"
                  (plan_identity rq stateHash capabilitySnapshotHash)
           else identifier (pi_planId input) "planId";
  sealDirectorPlanRecord (mkPlanBody planId createdAt (rq_mode rq) (rq_goal rq) stateHash
    capabilitySnapshotHash (sorted_refs (rq_latest rq)) (sorted_refs (rq_stale rq))
    unresolvedFindingRefs actions mb.2
    (js_sort (cmp_on bnd_id compareText) (jm_values (mp_boundaries mb.1)))
    (project_budget rq actions mb.2)).
End Planner.
