(* ===== verification/DirectorDecision.v ===== *)
(** * The research director's decision

    src/src/research/director/planner.ts, [createResearchDirectorDecision]:
    what the execution receipts of a plan call for next, with the sealed
    decision record.  The plan is a typed record; its audit hash is what
    [assertPlanRecord] recomputes. *)

From S2P Require Import Prelude Host JsValue ArtifactTypes RepoModel Numbers DirectorTypes DirectorValidation.

Definition has_status (s : receipt_status) (r : execution_receipt) : bool :=
  bool_decide (rec_status r = s).

Definition has_outcome (o : execution_outcome) (r : execution_receipt) : bool :=
  bool_decide (rec_outcome r = Some o).

(** [receipt.error?.retryable === b]. *)
Definition retryable_is (b : bool) (r : execution_receipt) : bool :=
  match rec_error r with Some e => Bool.eqb (re_retryable e) b | None => false end.

Definition received_actions (receipts : list execution_receipt) : list string :=
  dedup (rec_actionId <$> receipts).

(** The unblocked actions of the plan without a receipt. *)
Definition pending_actions (plan : plan_record) (receipts : list execution_receipt) :
    list director_action :=
  List.filter (λ a, (length (act_blockedBoundaryIds a) =? 0)%nat
                    && bool_decide (act_id a ∉ received_actions receipts))
    (pl_actions (pl_body plan)).

Definition director_decide (receipts : list execution_receipt) (plan : plan_record) : decision_kind :=
  if existsb (λ r, has_status Failed r && retryable_is true r) receipts
     || existsb (has_status BlockedReceipt) receipts then Recover
  else if existsb (λ r, has_status Failed r && retryable_is false r) receipts then Eliminate
  else if existsb (has_outcome ArtifactRevisionRequired) receipts then Revise
  else if existsb (has_outcome EvidenceIncomplete) receipts then Rescan
  else if existsb (has_outcome CandidateRejected) receipts then Eliminate
  else if existsb (has_outcome CandidateSupported) receipts then Branch
  else if existsb (λ r, has_status Cancelled r || has_outcome ObjectiveSatisfied r) receipts
  then Stop
  else if (0 <? length (pending_actions plan receipts))%nat then Branch else Stop.

Definition decisionRationale (decision : decision_kind) (receipts : list execution_receipt)
    (pendingCount : nat) : string :=
  match decision with
  | Branch => "Continue along dependency-safe alternatives; " +:+ pretty pendingCount
              +:+ " planned action(s) remain."
  | Eliminate => "Stop investing in the rejected or non-recoverable alternative recorded by the receipts."
  | Rescan => "Refresh the evidence boundary before choosing another research action."
  | Revise => "Revise the affected artifact contract before resuming dependent work."
  | Recover => "Retry only blocked or explicitly retryable failed actions after resolving their recorded boundary."
  | Stop => "No further action is justified by the current receipts and plan boundary."
  end +:+ " Consumed " +:+ pretty (length receipts) +:+ " execution receipt(s).".

(** Any property named [currentStage] or [nextStageId], at any depth. *)
Fixpoint assertNoFixedStageFields (value : jsval) : result unit :=
  match value with
  | JArr l => _ ← mapM id (map assertNoFixedStageFields l); mret tt
  | JObj fields =>
      _ ← mapM id (map (λ kv,
            _ ← ensure (negb (String.eqb kv.1 "currentStage" || String.eqb kv.1 "nextStageId"))
                  (TypeError ("Director records must not contain fixed stage field "
                     +:+ kv.1 +:+ "."));
            assertNoFixedStageFields kv.2) fields);
      mret tt
  | _ => Ok tt
  end.

Definition hasApprovedDirectorReceipt (value : jsval) : bool :=
  isRecord value
  && match jget value "approvals" with
     | JArr approvals =>
         existsb (λ r, isRecord r && is_str "approved" (jget r "status")) approvals
     | _ => false
     end.

Record decision_input := mkDecisionInput {
  di_plan : plan_record;
  di_receipts : jsval;
  di_approvals : jsval;
  di_decisionId : jsval;
  di_now : option Z;
}.

Section Decision.
Context `{Host}.

Definition uniqueSorted (values : list string) : list string := js_sort compareText (dedup values).

Definition mergeRefs (groups : list (list artifact_ref)) : list artifact_ref :=
  js_sort compareRefs (jm_values
    (foldl (λ refs group, foldl (λ refs ref, jm_set (fullRefKey ref) ref refs) refs group)
       [] groups)).

Definition actions_with (p : execution_receipt → bool) (receipts : list execution_receipt) :
    list string :=
  uniqueSorted (rec_actionId <$> List.filter p receipts).

Definition is_retried (r : execution_receipt) : bool :=
  has_status BlockedReceipt r || (has_status Failed r && retryable_is true r).

Definition is_discarded (r : execution_receipt) : bool :=
  has_status Cancelled r || (has_status Failed r && retryable_is false r)
  || has_outcome CandidateRejected r.

Definition next_actions (decision : decision_kind) (retry pending : list string) : list string :=
  match decision with
  | Recover => retry
  | Branch | Rescan | Revise => uniqueSorted pending
  | Eliminate | Stop => []
  end.

Definition receipt_identity (r : execution_receipt) : jsval :=
  JObj [("receiptId", JStr (rec_receiptId r));
        ("status", JStr (receipt_status_name (rec_status r)));
        ("outcome", match rec_outcome r with Some o => JStr (outcome_name o) | None => JNull end);
        ("retryable", match rec_error r with Some e => JBool (re_retryable e) | None => JNull end)].

Definition createResearchDirectorDecision (input : decision_input) : result decision_record :=
  plan ← assertPlanRecord (di_plan input);
  _ ← assertNoFixedStageFields (plan_to_json plan);
  receipts ← normalizeExecutionReceipts (di_receipts input) plan;
  _ ← normalizeApprovalReceipts (di_approvals input);
  let decision := director_decide receipts plan in
  let retryActionIds := actions_with is_retried receipts in
  let pendingActionIds := act_id <$> pending_actions plan receipts in
  createdAt ← isoDate (IsDate (di_now input)) "Director decision time";
  decisionId ← if is_undefined (di_decisionId input)
               then directorRecordId "director-decision"
                      (JObj [("planId", JStr (pl_planId (pl_body plan)));
                             ("receipts", JArr (map receipt_identity receipts))])
               else identifier (di_decisionId input) "decisionId";
  sealDirectorDecisionRecord (mkDecisionBody decisionId (pl_planId (pl_body plan)) createdAt
    decision (decisionRationale decision receipts (length pendingActionIds))
    (js_sort compareText (rec_receiptId <$> receipts))
    (actions_with (has_status Succeeded) receipts)
    retryActionIds (actions_with is_discarded receipts)
    (next_actions decision retryActionIds pendingActionIds)
    (mergeRefs (rec_outputArtifactRefs <$> receipts))
    (pl_unresolvedFindingRefs (pl_body plan)) (pl_blockedBoundaries (pl_body plan))
    (sum_of (rec_costUnits <$> receipts)) (sum_of (rec_durationMs <$> receipts))).
End Decision.
