(* ===== verification/DirectorBatches.v ===== *)
(** * Correctness of the director's batches

    What [createReadyBatches] of DirectorPlan.v guarantees: every unblocked
    action is in exactly one batch, after everything it depends on; a batch of
    more than one action holds concurrency-safe actions only; and the loop
    ends, with an exception exactly when the unblocked actions depend on each
    other in a cycle. *)

From S2P Require Import Prelude Digraph Host JsValue ArtifactTypes ArtifactGraph RepoModel Numbers DirectorTypes DirectorValidation DirectorPlan.

(** ** Lists *)

Lemma sublist_bool_filter {A} (f : A → bool) l : List.filter f l `sublist_of` l.
Proof. induction l as [|x l IH]; simpl; [done|]. destruct (f x); by constructor. Qed.

Lemma NoDup_bool_filter {A B} (g : A → B) (f : A → bool) l :
  NoDup (g <$> l) → NoDup (g <$> List.filter f l).
Proof.
  intros Hnd. eapply sublist_NoDup; [exact Hnd|]. apply fmap_sublist, sublist_bool_filter.
Qed.

Lemma NoDup_fmap_inj_on {A B} (f : A → B) l x y :
  NoDup (f <$> l) → x ∈ l → y ∈ l → f x = f y → x = y.
Proof.
  intros Hnd [i Hi]%list_elem_of_lookup [j Hj]%list_elem_of_lookup Hf.
  assert (i = j) as ->; [|congruence].
  eapply (NoDup_lookup _ _ _ (f x)); [exact Hnd|..]; rewrite list_lookup_fmap.
  - by rewrite Hi.
  - rewrite Hj. simpl. by rewrite Hf.
Qed.

Lemma Permutation_filter_bool {A} (f : A → bool) l k :
  l ≡ₚ k → List.filter f l ≡ₚ List.filter f k.
Proof.
  induction 1 as [|x l k _ IH|x y l|]; cbn [List.filter]; [done|..].
  - destruct (f x); [by constructor|done].
  - destruct (f x), (f y); try done. constructor.
  - by etrans.
Qed.

(** Adding fresh distinct elements to a set appends them. *)
Lemma foldl_set_add {A} (f : A → string) l : ∀ s,
  NoDup (s ++ (f <$> l)) → foldl (λ s x, set_add (f x) s) s l = s ++ (f <$> l).
Proof.
  induction l as [|x l IH]; intros s Hnd; csimpl; [by rewrite app_nil_r|].
  rewrite fmap_cons in Hnd. unfold set_add at 2. rewrite decide_False.
  - rewrite IH, <- app_assoc; [done|]. by rewrite <- app_assoc.
  - intros Hin. apply NoDup_app in Hnd as (_ & Hd & _). apply (Hd _ Hin). by left.
Qed.

(** ** The batch loop *)

Section Batches.
Context `{Host}.
Implicit Types (eligible ready selected : list mutable_action) (batches : list director_batch).

(** [x] depends on [y], both among the given actions. *)
Definition dep_edge eligible (x y : string) : Prop :=
  ∃ a, a ∈ eligible ∧ ma_id a = x ∧ y ∈ ma_dependsOn a ∧ y ∈ ma_id <$> eligible.

Definition batched batches : list string := concat (bat_actionIds <$> batches).

(** A batch runs safely: it holds one action, or concurrency-safe ones. *)
Definition batch_ok eligible (b : director_batch) : Prop :=
  ∃ selected, selected ≠ [] ∧ selected ⊆ eligible ∧
    bat_actionIds b ≡ₚ ma_id <$> selected ∧
    (length selected = 1 ∨
     Forall (λ a, cap_concurrencySafe (ma_capability a) = true) selected) ∧
    bat_estimatedCostUnits b =
      sum_of ((λ a, cap_estimatedCostUnits (ma_capability a)) <$> selected) ∧
    bat_estimatedDurationMs b =
      max_of ((λ a, cap_estimatedDurationMs (ma_capability a)) <$> selected).

(** Everything an action of the [k]-th batch depends on is in an earlier one. *)
Definition batches_ordered eligible batches : Prop :=
  ∀ k b x y, batches !! k = Some b → x ∈ bat_actionIds b → dep_edge eligible x y →
  y ∈ batched (take k batches).

Record batch_inv eligible (completed : list string) batches : Prop := {
  bi_perm : batched batches ≡ₚ completed;
  bi_NoDup : NoDup completed;
  bi_sub : completed ⊆ ma_id <$> eligible;
  bi_order : batches_ordered eligible batches;
  bi_ok : Forall (batch_ok eligible) batches;
}.

Lemma select_ready_sublist ready : select_ready ready `sublist_of` ready.
Proof.
  unfold select_ready. destruct (List.filter _ ready) as [|a l] eqn:E.
  - destruct ready; simpl; [done|]. constructor. apply sublist_nil_l.
  - rewrite <- E. apply sublist_bool_filter.
Qed.

Lemma select_ready_safe ready :
  length (select_ready ready) = 1 ∨
  Forall (λ a, cap_concurrencySafe (ma_capability a) = true) (select_ready ready).
Proof.
  unfold select_ready. destruct (List.filter _ ready) as [|a l] eqn:E.
  - destruct ready; simpl; [by right|by left].
  - right. rewrite <- E. apply Forall_forall. intros x [_ Hx]%elem_of_bfilter. done.
Qed.

Lemma select_ready_nil ready : select_ready ready = [] → ready = [].
Proof.
  unfold select_ready. destruct (List.filter _ ready) as [|a l]; [|done].
  by destruct ready.
Qed.

Lemma is_ready_spec eligible completed a :
  a ∈ eligible →
  is_ready (ma_id <$> eligible) completed a = true ↔
  ma_id a ∉ completed ∧
  ∀ y, y ∈ ma_dependsOn a → y ∈ ma_id <$> eligible → y ∈ completed.
Proof.
  intros Ha. unfold is_ready. rewrite andb_true_iff, bool_decide_eq_true, forallb_forall.
  apply and_iff_compat_l. split.
  - intros Hall y Hy He. specialize (Hall y). rewrite bool_decide_eq_true in Hall.
    apply Hall, list_elem_of_In, elem_of_bfilter. by rewrite bool_decide_eq_true.
  - intros Hall y Hy. apply list_elem_of_In, elem_of_bfilter in Hy as [Hy He].
    apply bool_decide_eq_true in He. apply bool_decide_eq_true. by apply Hall.
Qed.

Lemma batched_snoc batches b : batched (batches ++ [b]) = batched batches ++ bat_actionIds b.
Proof. unfold batched. rewrite fmap_app, concat_app. simpl. by rewrite app_nil_r. Qed.

(** The dependencies of an id, as the children of a graph. *)
Definition dep_children eligible (x : string) : list string :=
  List.filter (λ y, bool_decide (y ∈ ma_id <$> eligible))
    (concat (ma_dependsOn <$> List.filter (λ a, String.eqb (ma_id a) x) eligible)).

Lemma dep_children_spec eligible x y :
  edge (dep_children eligible) x y ↔ dep_edge eligible x y.
Proof.
  unfold edge, dep_children, dep_edge.
  rewrite elem_of_bfilter, bool_decide_eq_true, list_elem_of_In, in_concat. split.
  - intros ((l & Hl & Hy) & He). apply list_elem_of_In, list_elem_of_fmap in Hl as (a & -> & Ha).
    apply elem_of_bfilter in Ha as [Ha ?%String.eqb_eq].
    exists a. split_and!; [done|done|by apply list_elem_of_In|done].
  - intros (a & Ha & <- & Hy & He). split; [|done]. exists (ma_dependsOn a).
    split; [|by apply list_elem_of_In]. apply list_elem_of_In, list_elem_of_fmap.
    exists a. split; [done|]. apply elem_of_bfilter. split; [done|]. apply String.eqb_refl.
Qed.

Lemma dep_acyclic_or_cycle eligible :
  (∀ x, Acc (λ y x, dep_edge eligible x y) x) ∨ ∃ z, tc (dep_edge eligible) z z.
Proof.
  destruct (acyclic_or_cycle (dep_children eligible) (list_to_set (ma_id <$> eligible)))
    as [Hacc|[z Hz]].
  - intros x y (_ & _ & _ & _ & Hy)%dep_children_spec. by apply elem_of_list_to_set.
  - left. intros x. specialize (Hacc x). induction Hacc as [x _ IH]. constructor.
    intros y Hy. apply IH. by apply dep_children_spec.
  - right. exists z. eapply tc_iff; [|exact Hz]. intros. by rewrite dep_children_spec.
Qed.

(** Nothing ready though something is left: the rest is cyclic. *)
Lemma stuck_cycle eligible completed x :
  x ∈ ma_id <$> eligible → x ∉ completed →
  List.filter (is_ready (ma_id <$> eligible) completed) eligible = [] →
  ∃ z, tc (dep_edge eligible) z z.
Proof.
  intros Hx Hnx Hnone. destruct (dep_acyclic_or_cycle eligible) as [Hacc|?]; [|done].
  exfalso. specialize (Hacc x). induction Hacc as [x _ IH].
  apply list_elem_of_fmap in Hx as (a & -> & Ha).
  assert (¬ ∀ y, y ∈ ma_dependsOn a → y ∈ ma_id <$> eligible → y ∈ completed) as Hd.
  { intros Hall. apply (not_elem_of_nil a). rewrite <- Hnone.
    apply elem_of_bfilter. split; [done|]. by apply is_ready_spec. }
  destruct (decide (Forall (λ y, y ∈ ma_id <$> eligible → y ∈ completed) (ma_dependsOn a)))
    as [Hall|Hnot].
  { apply Hd. intros y Hy. rewrite Forall_forall in Hall. by apply Hall. }
  apply not_Forall_Exists in Hnot; [|apply _]. apply Exists_exists in Hnot as (y & Hy & Hn).
  destruct (decide (y ∈ ma_id <$> eligible)) as [Hye|]; [|naive_solver].
  apply (IH y); [by exists a|done|naive_solver].
Qed.
Lemma select_ready_facts eligible completed a :
  a ∈ select_ready (List.filter (is_ready (ma_id <$> eligible) completed) eligible) →
  a ∈ eligible ∧ ma_id a ∉ completed ∧
  ∀ y, y ∈ ma_dependsOn a → y ∈ ma_id <$> eligible → y ∈ completed.
Proof.
  intros Ha. eapply elem_of_submseteq in Ha; [|apply sublist_submseteq, select_ready_sublist].
  apply elem_of_bfilter in Ha as [Ha Hr]. split; [done|]. by apply is_ready_spec.
Qed.

Lemma selected_fresh eligible completed :
  NoDup (ma_id <$> eligible) → NoDup completed →
  NoDup (completed ++ (ma_id <$>
    select_ready (List.filter (is_ready (ma_id <$> eligible) completed) eligible))).
Proof.
  intros Hnd Hc. apply NoDup_app. split; [done|]. split.
  - intros x Hx (a & -> & Ha)%list_elem_of_fmap.
    by apply select_ready_facts in Ha as (_ & Hn & _).
  - eapply sublist_NoDup; [exact Hnd|]. apply fmap_sublist.
    etrans; [apply select_ready_sublist|apply sublist_bool_filter].
Qed.

Lemma make_batch_ok eligible n selected :
  selected ≠ [] → selected ⊆ eligible →
  length selected = 1 ∨ Forall (λ a, cap_concurrencySafe (ma_capability a) = true) selected →
  batch_ok eligible (make_batch n selected).
Proof.
  intros Hne Hsub Hsafe. exists selected. split_and!; try done.
  simpl. apply js_sort_perm.
Qed.

Lemma ordered_snoc eligible batches n selected :
  batches_ordered eligible batches →
  NoDup (ma_id <$> eligible) → selected ⊆ eligible →
  (∀ a y, a ∈ selected → y ∈ ma_dependsOn a → y ∈ ma_id <$> eligible → y ∈ batched batches) →
  batches_ordered eligible (batches ++ [make_batch n selected]).
Proof.
  intros Hord Hnd Hsub Hdeps k b x y Hk Hx Hxy.
  apply lookup_app_Some in Hk as [Hk|[Hlen Hk]].
  - rewrite take_app_le by (apply lookup_lt_Some in Hk; lia). by eapply Hord.
  - apply list_lookup_singleton_Some in Hk as [Hk <-].
    rewrite take_app_ge by lia. rewrite Hk. simpl. rewrite app_nil_r.
    simpl in Hx. rewrite js_sort_perm in Hx.
    apply list_elem_of_fmap in Hx as (a & -> & Ha).
    destruct Hxy as (a' & Ha' & Hid & Hy & He).
    assert (a' = a) as ->; [|by eapply Hdeps].
    eapply (NoDup_fmap_inj_on ma_id); [exact Hnd|done|by apply Hsub|done].
Qed.

Lemma batch_step eligible completed batches :
  NoDup (ma_id <$> eligible) → batch_inv eligible completed batches →
  let ready := List.filter (is_ready (ma_id <$> eligible) completed) eligible in
  let selected := select_ready ready in
  let completed' := foldl (λ s a, set_add (ma_id a) s) completed selected in
  ready ≠ [] →
  length completed < length completed' ∧
  batch_inv eligible completed' (batches ++ [make_batch (S (length batches)) selected]).
Proof.
  intros Hnd [Hp Hc Hs Ho Hok] ready selected completed' Hne.
  assert (selected ≠ []) as Hsel by (intros ?%select_ready_nil; done).
  assert (selected ⊆ eligible) as Hsub.
  { intros a Ha. by apply select_ready_facts in Ha as [? _]. }
  unfold completed'. rewrite foldl_set_add by by apply selected_fresh.
  fold ready selected. split.
  { rewrite length_app, length_fmap. destruct selected; simpl; [done|lia]. }
  split.
  - rewrite batched_snoc, Hp. simpl. by rewrite js_sort_perm.
  - by apply selected_fresh.
  - intros x [?|Hx]%elem_of_app; [by apply Hs|].
    apply list_elem_of_fmap in Hx as (a & -> & Ha). apply list_elem_of_fmap_2. auto.
  - apply ordered_snoc; [done..|]. intros a y Ha Hy He. rewrite Hp.
    apply select_ready_facts in Ha as (_ & _ & Hd). by apply Hd.
  - apply Forall_app. split; [done|]. apply Forall_singleton.
    apply make_batch_ok; [done..|]. apply select_ready_safe.
Qed.

Lemma batch_loop_spec fuel eligible : ∀ completed batches,
  NoDup (ma_id <$> eligible) → batch_inv eligible completed batches →
  length eligible - length completed < fuel →
  (∃ bs, batch_loop fuel eligible completed batches = Ok bs ∧
     batch_inv eligible (batched bs) bs ∧ batched bs ≡ₚ ma_id <$> eligible) ∨
  (batch_loop fuel eligible completed batches = Throw batch_cycle ∧
     ∃ z, tc (dep_edge eligible) z z).
Proof.
  induction fuel as [|fuel IH]; intros completed batches Hnd Hinv Hfuel; [lia|]. cbn [batch_loop].
  destruct (length completed <? length eligible)%nat eqn:Hlt.
  - apply Nat.ltb_lt in Hlt.
    destruct (List.filter (is_ready (ma_id <$> eligible) completed) eligible) as [|a l] eqn:E.
    + right. split; [done|]. destruct Hinv as [_ Hc Hs _ _].
      destruct (decide (Forall (λ x, x ∈ completed) (ma_id <$> eligible))) as [Hall|Hnot].
      * exfalso. rewrite Forall_forall in Hall. apply NoDup_submseteq in Hall; [|done].
        apply submseteq_length in Hall. rewrite length_fmap in Hall. lia.
      * apply not_Forall_Exists in Hnot; [|apply _].
        apply Exists_exists in Hnot as (x & Hx & Hnx). eapply stuck_cycle; [exact Hx|exact Hnx|exact E].
    + rewrite <- E.
      destruct (batch_step eligible completed batches) as [Hlen Hinv']; [done|done|congruence|].
      apply IH; [done|done|lia].
  - apply Nat.ltb_ge in Hlt. left. exists batches. split; [done|].
    destruct Hinv as [Hp Hc Hs Ho Hok].
    assert (completed ≡ₚ ma_id <$> eligible) as Hall.
    { apply submseteq_length_Permutation; [by apply NoDup_submseteq|].
      by rewrite length_fmap. }
    split; [|by rewrite Hp]. split; [done|by rewrite Hp|by rewrite Hp|done|done].
Qed.

(** Every batch sequence respects the dependencies, so they cannot be cyclic. *)
Lemma ordered_acyclic eligible batches z :
  batches_ordered eligible batches → batched batches ≡ₚ ma_id <$> eligible →
  NoDup (batched batches) → ¬ tc (dep_edge eligible) z z.
Proof.
  intros Hord Hall Hnd Hz.
  assert (∀ n x, x ∈ batched (take n batches) → ¬ tc (dep_edge eligible) x x) as Hpre.
  { clear z Hz. intros n. induction n as [n IH] using (well_founded_induction lt_wf).
    intros x Hx Hcyc. unfold batched in Hx. apply list_elem_of_In, in_concat in Hx as (l & Hl & Hx).
    apply list_elem_of_In in Hx. apply list_elem_of_In, list_elem_of_fmap in Hl as (b & -> & Hb).
    apply list_elem_of_lookup in Hb as [k Hk]. apply lookup_take_Some in Hk as [Hk Hkn].
    assert (∃ y, dep_edge eligible x y ∧ tc (dep_edge eligible) y y) as (y & Hxy & Hy).
    { inversion Hcyc as [? ? Hxx|? y ? Hxy Hyx]; subst; [eauto using tc_once|].
      exists y. split; [done|]. by eapply tc_r. }
    apply (IH k Hkn y); [|done]. by eapply Hord. }
  apply (Hpre (length batches) z); [|done]. rewrite firstn_all, Hall.
  inversion Hz as [? ? (a & Ha & <- & _)|? ? ? (a & Ha & <- & _)]; subst;
    by apply list_elem_of_fmap_2.
Qed.
End Batches.
