(* ===== verification/DirectorInvariant.v ===== *)
(** * The invariant of a plan under construction

    What every stage of DirectorPlan.v keeps: actions are stored under their
    ids, boundaries under ids derived from their contents, an action is
    blocked by boundaries of the plan, and once linked an action only ever
    gains blocking boundaries. *)

From S2P Require Import Prelude Host JsValue ArtifactTypes RepoModel Numbers DirectorTypes DirectorValidation DirectorPlan DirectorBatches.

(** ** Insertion-ordered maps *)

Lemma elem_of_jm_values {V} (v : V) (m : jmap V) :
  NoDup (jm_keys m) → v ∈ jm_values m ↔ ∃ k, jm_get k m = Some v.
Proof.
  intros Hnd. unfold jm_values. rewrite list_elem_of_fmap. split.
  - intros ([k v'] & -> & Hin). exists k. by apply jm_elem_get.
  - intros [k Hk%jm_get_elem]. by exists (k, v).
Qed.

Lemma jm_values_set {V} k (v w : V) m :
  w ∈ jm_values (jm_set k v m) → w = v ∨ w ∈ jm_values m.
Proof.
  unfold jm_values. induction m as [|[k' v'] m IH]; simpl.
  - intros ->%list_elem_of_singleton. by left.
  - case_decide; csimpl; rewrite !elem_of_cons; naive_solver.
Qed.

Lemma jm_keys_set_sub {V} k (v : V) m : jm_keys m ⊆ jm_keys (jm_set k v m).
Proof.
  intros k' Hk. apply elem_of_jm_keys. rewrite jm_get_set.
  case_decide; [eauto|]. by apply elem_of_jm_keys.
Qed.

Lemma elem_of_jm_keys_set {V} k k' (v : V) m :
  k' ∈ jm_keys (jm_set k v m) ↔ k' = k ∨ k' ∈ jm_keys m.
Proof. rewrite !elem_of_jm_keys, jm_get_set. case_decide; naive_solver. Qed.

Section Invariant.
Context `{Host}.
Implicit Types (a : mutable_action) (m : mutable_plan) (st : action_state).

(** ** Well-formedness *)

(** A boundary's id is derived from its contents. *)
Definition sealed_boundary (p : string * blocked_boundary) : Prop :=
  bnd_id p.2 = p.1 ∧
  directorRecordId "boundary" (JObj (boundary_body_fields (bnd_body p.2))) = Ok p.1.

Definition boundaries_wf (bs : jmap blocked_boundary) : Prop :=
  NoDup (jm_keys bs) ∧ Forall sealed_boundary bs.

Definition actions_wf (actions : jmap mutable_action) : Prop :=
  NoDup (jm_keys actions) ∧ Forall (λ p, ma_id p.2 = p.1) actions.

Record plan_wf m : Prop := {
  wf_actions : actions_wf (mp_actions m);
  wf_boundaries : boundaries_wf (mp_boundaries m);
  wf_blocked a : a ∈ jm_values (mp_actions m) → ma_blocked a ⊆ jm_keys (mp_boundaries m);
}.

Lemma actions_wf_ids actions : actions_wf actions → ma_id <$> jm_values actions = jm_keys actions.
Proof.
  intros [_ Hids]. unfold jm_values, jm_keys. induction Hids as [|[k a] l Hk _ IH]; [done|].
  rewrite !fmap_cons. simpl in *. by rewrite IH, Hk.
Qed.

Lemma actions_wf_get actions k a : actions_wf actions → jm_get k actions = Some a → ma_id a = k.
Proof.
  intros [_ Hids] Hk%jm_get_elem. rewrite Forall_forall in Hids. apply (Hids _ Hk).
Qed.

(** Storing an action under its own id keeps the invariant. *)
Lemma plan_wf_store m bs a k :
  plan_wf m → ma_id a = k → boundaries_wf bs → jm_keys (mp_boundaries m) ⊆ jm_keys bs →
  ma_blocked a ⊆ jm_keys bs → plan_wf (mkMutablePlan (jm_set k a (mp_actions m)) bs).
Proof.
  intros [[Hnd Hids] Hb Hbl] Ha Hbs Hsub Hrefs. split; simpl; [|done|].
  - split; [by apply jm_keys_set_NoDup|]. by apply Forall_jm_set.
  - intros a' [->|Hin]%jm_values_set; [done|]. etrans; [by apply Hbl|done].
Qed.

(** ** Blocking an action *)

(** [a'] is [a] with more blocking boundaries. *)
Definition blocks_more a a' : Prop :=
  a' = mkMutable (ma_id a) (ma_capability a) (ma_intent a) (ma_inputs a) (ma_targets a)
         (ma_findings a) (ma_dependsOn a) (ma_blocked a') ∧
  ma_blocked a ⊆ ma_blocked a'.

#[export] Instance blocks_more_preorder : PreOrder blocks_more.
Proof.
  split.
  - intros a. split; [by destruct a|done].
  - intros a b c [-> Hab] [-> Hbc]. split; [done|]. simpl in *. by etrans.
Qed.

(** What a step does to an action and the boundaries. *)
Record state_step st st' : Prop := {
  ss_boundaries : boundaries_wf st.1 → boundaries_wf st'.1;
  ss_keys : jm_keys st.1 ⊆ jm_keys st'.1;
  ss_blocked : ma_blocked st.2 ⊆ ma_blocked st'.2;
  ss_refs : ma_blocked st'.2 ⊆ ma_blocked st.2 ++ jm_keys st'.1;
}.

#[export] Instance state_step_preorder : PreOrder state_step.
Proof.
  split.
  - intros st. split; [done|done|done|]. apply list_subseteq_app_l. done.
  - intros x y z [Hb Hk Hbl Hr] [Hb' Hk' Hbl' Hr']. split; [auto|by etrans|by etrans|].
    intros i Hi. apply Hr', elem_of_app in Hi as [Hi|Hi]; [|set_solver].
    apply Hr, elem_of_app in Hi. set_solver.
Qed.

Lemma addBoundary_Ok bs value r :
  addBoundary bs value = Ok r →
  (boundaries_wf bs → boundaries_wf r.1) ∧ jm_keys bs ⊆ jm_keys r.1 ∧ r.2 ∈ jm_keys r.1.
Proof.
  unfold addBoundary. intros Hrun. apply bind_Ok in Hrun as (id & Hid & Hrun).
  apply mret_Ok in Hrun as <-. cbn [fst snd]. split_and!.
  - intros [Hnd Hs]. split; [by apply jm_keys_set_NoDup|]. by apply Forall_jm_set.
  - apply jm_keys_set_sub.
  - apply elem_of_jm_keys_set. by left.
Qed.

Lemma blockAction_Ok st value st' :
  blockAction st value = Ok st' →
  state_step st st' ∧ blocks_more st.2 st'.2 ∧ unblocked st'.2 = false.
Proof.
  unfold blockAction. intros Hrun. apply bind_Ok in Hrun as (r & Hr & Hrun).
  apply mret_Ok in Hrun as <-. apply addBoundary_Ok in Hr as (Hwf & Hk & Hin).
  split_and!.
  - split; simpl; [done|done| |]; intros i; rewrite elem_of_set_add; set_solver.
  - split; [by destruct (st.2)|]. simpl. intros i. rewrite elem_of_set_add. by right.
  - unfold unblocked. simpl. apply Nat.eqb_neq. rewrite length_zero_iff_nil.
    intros E. apply (not_elem_of_nil r.2). rewrite <- E. apply elem_of_set_add. by left.
Qed.

(** Blocking with each boundary of a list. *)
Lemma blockActions_Ok values : ∀ st st',
  foldM blockAction st values = Ok st' →
  state_step st st' ∧ blocks_more st.2 st'.2 ∧ (values ≠ [] → unblocked st'.2 = false).
Proof.
  induction values as [|v values IH]; intros st st' Hrun; simpl in Hrun.
  - apply Ok_inj in Hrun as <-. done.
  - apply bind_Ok in Hrun as (st1 & H1 & Hrun).
    apply blockAction_Ok in H1 as (Hs1 & Hm1 & Hb1). apply IH in Hrun as (Hs & Hm & Hb).
    split_and!; [by etrans|by etrans|]. intros _. destruct values; [|by apply Hb].
    destruct Hm as [_ Hsub]. unfold unblocked in *. apply Nat.eqb_neq in Hb1.
    apply Nat.eqb_neq. rewrite length_zero_iff_nil in *. intros E. apply Hb1.
    rewrite E in Hsub. by apply list_nil_subseteq.
Qed.

Lemma blocks_more_unblocked a a' :
  blocks_more a a' → unblocked a' = true → unblocked a = true.
Proof.
  intros [_ Hsub]. unfold unblocked. rewrite !Nat.eqb_eq, !length_zero_iff_nil.
  intros E. rewrite E in Hsub. by apply list_nil_subseteq.
Qed.

(** ** Stages after the linking *)

(** Actions keep their ids and contents and only gain boundaries. *)
Record advances m m' : Prop := {
  adv_keys : jm_keys (mp_actions m') = jm_keys (mp_actions m);
  adv_more k a' : jm_get k (mp_actions m') = Some a' →
    ∃ a, jm_get k (mp_actions m) = Some a ∧ blocks_more a a';
}.

#[export] Instance advances_preorder : PreOrder advances.
Proof.
  split.
  - intros m. split; [done|]. intros k a Ha. exists a. split; [done|reflexivity].
  - intros x y z [Hk1 Hm1] [Hk2 Hm2]. split; [congruence|].
    intros k c Hc. apply Hm2 in Hc as (b & Hb & Hbc). apply Hm1 in Hb as (a & Ha & Hab).
    exists a. split; [done|]. by etrans.
Qed.

(** Storing a blocked version of a plan's action advances the plan. *)
Lemma store_advances m k a st' :
  plan_wf m → jm_get k (mp_actions m) = Some a →
  state_step (mp_boundaries m, a) st' → blocks_more a st'.2 →
  let m' := mkMutablePlan (jm_set k st'.2 (mp_actions m)) st'.1 in
  plan_wf m' ∧ advances m m'.
Proof.
  intros Hwf Ha [Hb Hk Hbl Hr] Hmore m'. simpl in *. split.
  - apply plan_wf_store; [done| |apply Hb, Hwf|done|].
    + destruct Hmore as [-> _]. simpl. by eapply actions_wf_get; [apply Hwf|].
    + etrans; [exact Hr|]. intros i [Hi|Hi]%elem_of_app; [|done].
      apply Hk. eapply wf_blocked; [done| |exact Hi].
      apply elem_of_jm_values; [apply Hwf|eauto].
  - split; simpl; [apply jm_keys_set_present; eauto|].
    intros k' a'. rewrite jm_get_set. case_decide as E; [|intros; exists a'; split; [done|reflexivity]].
    intros [= <-]. subst. by exists a.
Qed.

(** A stage that blocks actions keeps the invariant and advances the plan. *)
Definition blocking_stage (m m' : mutable_plan) : Prop := plan_wf m → plan_wf m' ∧ advances m m'.

#[export] Instance blocking_stage_preorder : PreOrder blocking_stage.
Proof.
  split.
  - intros m Hwf. split; [done|reflexivity].
  - intros x y z Hxy Hyz Hwf. destruct (Hxy Hwf) as [Hy Hxy']. destruct (Hyz Hy) as [Hz Hyz'].
    split; [done|]. by etrans.
Qed.

(** A loop whose turns are blocking stages is one. *)
Lemma foldM_blocking {A S} (plan_of : S → mutable_plan) (f : S → A → result S) l : ∀ s s',
  (∀ s x s', x ∈ l → f s x = Ok s' → blocking_stage (plan_of s) (plan_of s')) →
  foldM f s l = Ok s' → blocking_stage (plan_of s) (plan_of s').
Proof.
  induction l as [|x l IH]; intros s s' Hf Hrun; simpl in Hrun.
  - apply Ok_inj in Hrun as <-. reflexivity.
  - apply bind_Ok in Hrun as (s1 & H1 & Hrun). transitivity (plan_of s1).
    + eapply Hf; [by left|done].
    + eapply IH; [|exact Hrun]. intros ???? Hs. eapply Hf; [by right|exact Hs].
Qed.

Lemma block_and_store m k a value st' :
  jm_get k (mp_actions m) = Some a → blockAction (mp_boundaries m, a) value = Ok st' →
  blocking_stage m (mkMutablePlan (jm_set k st'.2 (mp_actions m)) st'.1).
Proof.
  intros Ha Hb Hwf. apply blockAction_Ok in Hb as (Hs & Hm & _). by eapply store_advances.
Qed.

Lemma spend_action_stage acc actionId acc' :
  spend_action acc actionId = Ok acc' → blocking_stage acc.1 acc'.1.
Proof.
  destruct acc as [m remaining]. unfold spend_action. cbn [fst].
  destruct (jm_get actionId (mp_actions m)) as [a|] eqn:Ha; [|by intros [= <-]].
  destruct (unblocked a); [|by intros [= <-]].
  destruct (js_le _ _); [by intros [= <-]|]. intros Hrun.
  apply bind_Ok in Hrun as (r & Hr & Hrun). apply mret_Ok in Hrun as <-.
  by eapply block_and_store.
Qed.

Lemma applyCostBudget_stage batches available m m' :
  applyCostBudget batches available m = Ok m' → blocking_stage m m'.
Proof.
  unfold applyCostBudget. intros Hrun. apply bind_Ok in Hrun as (r & Hr & Hrun).
  apply mret_Ok in Hrun as <-. eapply (foldM_blocking fst) in Hr; [exact Hr|].
  intros s b s' _ Hs. eapply (foldM_blocking fst) in Hs; [exact Hs|].
  intros ???? Hs'. by eapply spend_action_stage.
Qed.

Lemma fit_action_stage remaining acc actionId acc' :
  fit_action remaining acc actionId = Ok acc' → blocking_stage acc.1 acc'.1.
Proof.
  destruct acc as [m fitting]. unfold fit_action. cbn [fst].
  destruct (jm_get actionId (mp_actions m)) as [a|] eqn:Ha; [|by intros [= <-]].
  destruct (js_le _ _); [by intros [= <-]|]. intros Hrun.
  apply bind_Ok in Hrun as (r & Hr & Hrun). apply mret_Ok in Hrun as <-.
  by eapply block_and_store.
Qed.

Lemma applyDurationBudget_stage batches available m m' :
  applyDurationBudget batches available m = Ok m' → blocking_stage m m'.
Proof.
  unfold applyDurationBudget. intros Hrun. apply bind_Ok in Hrun as (r & Hr & Hrun).
  apply mret_Ok in Hrun as <-. eapply (foldM_blocking fst) in Hr; [exact Hr|].
  intros s b s' _ Hs. unfold fit_batch in Hs. apply bind_Ok in Hs as (r' & Hr' & Hs).
  apply mret_Ok in Hs as <-. eapply (foldM_blocking fst) in Hr'; [exact Hr'|].
  intros ???? Hs'. by eapply fit_action_stage.
Qed.

(** One turn of the capability boundaries. *)
Lemma visit_blocking permissions approvals m k m' :
  visit_action (λ m a, foldM blockAction (mp_boundaries m, a)
    (capability_blocks permissions approvals a)) m k = Ok m' → blocking_stage m m'.
Proof.
  unfold visit_action. destruct (jm_get k (mp_actions m)) as [a|] eqn:Ha; [|by intros [= <-]].
  intros Hrun. apply bind_Ok in Hrun as (st & Hst & Hrun). apply mret_Ok in Hrun as <-.
  intros Hwf. apply blockActions_Ok in Hst as (Hs & Hm & _). by eapply store_advances.
Qed.

Lemma applyCapabilityBoundaries_stage permissions approvals m m' :
  applyCapabilityBoundaries permissions approvals m = Ok m' → blocking_stage m m'.
Proof.
  apply (foldM_blocking id). intros s k s' _. apply visit_blocking.
Qed.
End Invariant.
