(* ===== verification/DirectorCascade.v ===== *)
(** * Blocked dependencies spread

    [cascadeBlockedDependencies] of DirectorPlan.v ends within its fuel, one
    turn more than there are actions, and leaves no unblocked action that
    depends on a blocked one. *)

From S2P Require Import Prelude Host JsValue ArtifactTypes RepoModel Numbers DirectorTypes DirectorValidation DirectorPlan DirectorBatches DirectorInvariant.

(** Replacing an element that passes a test by one that fails it. *)
Lemma count_jm_set {V} (f : V → bool) k v v0 (m : jmap V) :
  jm_get k m = Some v0 → f v0 = true → f v = false →
  S (length (List.filter f (jm_values (jm_set k v m)))) = length (List.filter f (jm_values m)).
Proof.
  intros Hk H0 Hv. unfold jm_values. induction m as [|[k' v'] m IH]; simpl in Hk; [done|].
  cbn [jm_set]. case_decide; rewrite !fmap_cons; cbn [List.filter snd].
  - injection Hk as ->. by rewrite H0, Hv.
  - specialize (IH Hk). destruct (f v'); simpl; lia.
Qed.

Lemma find_bool_None {A} (f : A → bool) l x : List.find f l = None → x ∈ l → f x = false.
Proof. intros Hf Hx. eapply find_none; [done|]. by apply list_elem_of_In. Qed.

Section Cascade.
Context `{Host}.

(** No unblocked action stored at [k] depends on a blocked one. *)
Definition settled_at (m : mutable_plan) (k : string) : Prop :=
  ∀ a, jm_get k (mp_actions m) = Some a → unblocked a = true →
  blocked_dependency (mp_actions m) a = None.

Definition settled (m : mutable_plan) : Prop :=
  ∀ k, k ∈ jm_keys (mp_actions m) → settled_at m k.

(** The number of unblocked actions. *)
Definition open_actions (m : mutable_plan) : nat :=
  length (List.filter unblocked (jm_values (mp_actions m))).

Lemma cascade_action_Ok b m k b' m' :
  cascade_action (b, m) k = Ok (b', m') →
  (b' = b ∧ m' = m ∧ settled_at m k) ∨
  (b' = true ∧ blocking_stage m m' ∧ open_actions m' < open_actions m).
Proof.
  unfold cascade_action. cbn [snd]. destruct (jm_get k (mp_actions m)) as [a|] eqn:Ha.
  2: { intros [= <- <-]. left. split_and!; [done..|]. intros a. by rewrite Ha. }
  destruct (unblocked a) eqn:Hu.
  2: { intros [= <- <-]. left. split_and!; [done..|]. intros a'. rewrite Ha. intros [= <-]. by rewrite Hu. }
  destruct (blocked_dependency (mp_actions m) a) as [d|] eqn:Hd.
  2: { intros [= <- <-]. left. split_and!; [done..|]. intros a'. rewrite Ha. by intros [= <-]. }
  intros Hrun. apply bind_Ok in Hrun as (r & Hr & Hrun). apply mret_Ok in Hrun as [= <- <-].
  right. split_and!; [done|by eapply block_and_store|].
  apply blockAction_Ok in Hr as (_ & _ & Hb). unfold open_actions. cbn [mp_actions].
  pose proof (count_jm_set unblocked k r.2 a (mp_actions m) Ha Hu Hb). lia.
Qed.

Lemma cascade_keys_Ok keys : ∀ b m b' m',
  foldM cascade_action (b, m) keys = Ok (b', m') →
  blocking_stage m m' ∧
  (b' = false → b = false ∧ m' = m ∧ ∀ k, k ∈ keys → settled_at m k) ∧
  (b' = true → b = true ∨ open_actions m' < open_actions m) ∧
  open_actions m' ≤ open_actions m.
Proof.
  induction keys as [|k keys IH]; intros b m b' m' Hrun; simpl in Hrun.
  - apply Ok_inj in Hrun as [= <- <-]. split_and!; [reflexivity| |auto|lia].
    intros ->. split_and!; [done..|]. by intros k ?%elem_of_nil.
  - apply bind_Ok in Hrun as ([b1 m1] & H1 & Hrun).
    apply IH in Hrun as (Hst & Hf & Ht & Hle).
    apply cascade_action_Ok in H1 as [(-> & -> & Hk)|(-> & Hst1 & Hlt)].
    + split_and!; [done| |done|done]. intros Hb'. destruct (Hf Hb') as (-> & -> & Hks).
      split_and!; [done..|]. by intros k' [->|]%elem_of_cons; [|apply Hks].
    + split_and!; [by etrans| |right; lia|lia].
      intros Hb'. by destruct (Hf Hb') as [? _].
Qed.

Lemma cascade_loop_Ok fuel : ∀ m m',
  open_actions m < fuel → cascade_loop fuel m = Ok m' → blocking_stage m m' ∧ settled m'.
Proof.
  induction fuel as [|fuel IH]; intros m m' Hfuel Hrun; [lia|]. cbn [cascade_loop] in Hrun.
  apply bind_Ok in Hrun as ([b m1] & H1 & Hrun). unfold cascade_pass in H1.
  apply cascade_keys_Ok in H1 as (Hst & Hf & Ht & Hle). cbn [fst snd] in Hrun. destruct b.
  - destruct (Ht eq_refl) as [?|Hlt]; [done|].
    apply IH in Hrun as [Hst' Hset]; [|lia]. split; [by etrans|done].
  - apply Ok_inj in Hrun as <-. destruct (Hf eq_refl) as (_ & -> & Hks). done.
Qed.

Lemma open_actions_le m : open_actions m ≤ length (mp_actions m).
Proof.
  unfold open_actions. etrans; [apply filter_length_le|]. unfold jm_values. by rewrite length_fmap.
Qed.

(** The fuel is always enough. *)
Lemma cascade_Ok m m' :
  cascadeBlockedDependencies m = Ok m' → blocking_stage m m' ∧ settled m'.
Proof.
  apply cascade_loop_Ok. pose proof (open_actions_le m). lia.
Qed.

(** In a settled plan an unblocked action's dependencies are unblocked. *)
Lemma settled_dependencies m k a d b :
  settled m → jm_get k (mp_actions m) = Some a → unblocked a = true →
  d ∈ ma_dependsOn a → jm_get d (mp_actions m) = Some b → unblocked b = true.
Proof.
  intros Hset Ha Hu Hd Hb.
  assert (k ∈ jm_keys (mp_actions m)) as Hk by (apply elem_of_jm_keys; eauto).
  specialize (Hset k Hk a Ha Hu). unfold blocked_dependency in Hset.
  eapply find_bool_None in Hset; [by apply negb_false_iff in Hset|].
  apply list_elem_of_omap. by exists d.
Qed.
End Cascade.
