(* ===== verification/DirectorLinks.v ===== *)
(** * The actions of a plan and their dependencies

    The actions [addAdvanceActions] and [addRepairActions] of DirectorPlan.v
    create belong to supplied capabilities; linking makes them depend on other
    actions of the plan only, and the capability boundaries leave an action
    unblocked only when its capability is available, permitted and confirmed. *)

From S2P Require Import Prelude Host JsValue ArtifactTypes RepoModel Numbers DirectorTypes DirectorValidation DirectorPlan DirectorBatches DirectorInvariant DirectorCascade.

Section Links.
Context `{Host}.

(** ** Created actions *)

(** A newly created action of one of the capabilities. *)
Definition created (capabilities : list capability) (a : mutable_action) : Prop :=
  ma_capability a ∈ capabilities ∧ ma_dependsOn a = [] ∧ ma_blocked a = [].

Definition created_plan (capabilities : list capability) (m : mutable_plan) : Prop :=
  plan_wf m ∧ ∀ a, a ∈ jm_values (mp_actions m) → created capabilities a.

Lemma empty_created_plan capabilities : created_plan capabilities (mkMutablePlan [] []).
Proof.
  split; [split; [split; [constructor|done]..|]|]; intros a ?%elem_of_nil; done.
Qed.

Lemma set_action_created capabilities m a :
  created_plan capabilities m → created capabilities a → created_plan capabilities (set_action m a).
Proof.
  intros [Hwf Hall] Ha. split.
  - apply plan_wf_store; [done|done|apply Hwf|done|].
    destruct Ha as (_ & _ & ->). apply list_subseteq_nil.
  - intros b [->|Hb]%jm_values_set; [done|]. by apply Hall.
Qed.

Lemma add_plan_boundary_created capabilities m value m' :
  created_plan capabilities m → add_plan_boundary m value = Ok m' → created_plan capabilities m'.
Proof.
  intros [Hwf Hall] Hrun. apply bind_Ok in Hrun as (r & Hr & Hrun). apply mret_Ok in Hrun as <-.
  apply addBoundary_Ok in Hr as (Hb & _ & _). split; [|done].
  split; simpl; [apply Hwf|apply Hb, Hwf|]. intros a Ha.
  destruct (Hall a Ha) as (_ & _ & ->). apply list_subseteq_nil.
Qed.

Lemma create_created capabilities c intent identity a :
  c ∈ capabilities → createMutableAction c intent identity = Ok a → created capabilities a.
Proof.
  intros Hc Hrun. apply bind_Ok in Hrun as (id & _ & Hrun). apply mret_Ok in Hrun as <-. done.
Qed.

Lemma best_producer_elem capabilities permissions approvals kind c :
  best_producer capabilities permissions approvals kind = Some c → c ∈ capabilities.
Proof.
  intros Hc%head_Some_elem_of. rewrite js_sort_perm in Hc.
  by apply elem_of_bfilter in Hc as [? _].
Qed.

Section Repair.
Context (capabilities : list capability) (producer : artifact_kind → option capability).
Hypothesis producer_elem : ∀ kind c, producer kind = Some c → c ∈ capabilities.

Lemma addRecomputeAction_created m artifact m' :
  created_plan capabilities m → addRecomputeAction producer m artifact = Ok m' →
  created_plan capabilities m'.
Proof.
  intros Hm. unfold addRecomputeAction. destruct (producer _) as [c|] eqn:Hc.
  - intros Hrun. apply bind_Ok in Hrun as (a & Ha & Hrun). apply mret_Ok in Hrun as <-.
    apply (create_created capabilities) in Ha; [|by eapply producer_elem].
    by apply set_action_created.
  - by apply add_plan_boundary_created.
Qed.

Lemma addReviseAction_created latestByKey findingRef m target m' :
  created_plan capabilities m → addReviseAction producer latestByKey findingRef m target = Ok m' →
  created_plan capabilities m'.
Proof.
  intros Hm. unfold addReviseAction. set (effective := match jm_get _ _ with None => _ | _ => _ end).
  destruct (match ref_kind_of effective with ClaimRef => _ | _ => _ end) as [c|] eqn:Hc;
    [|by apply add_plan_boundary_created].
  intros Hrun. apply bind_Ok in Hrun as (a & Ha & Hrun). apply mret_Ok in Hrun as <-.
  assert (created capabilities a) as Hcr.
  { destruct (List.find _ _) as [eq|] eqn:He.
    - apply Ok_inj in Ha as <-. apply Hm. apply find_some in He as [He _].
      by apply list_elem_of_In.
    - eapply create_created; [|exact Ha].
      destruct (ref_kind_of effective); [by eapply producer_elem|done]. }
  by apply set_action_created.
Qed.

Lemma addRepairActions_created latestByKey stale unresolved m m' :
  created_plan capabilities m →
  addRepairActions producer latestByKey stale unresolved m = Ok m' →
  created_plan capabilities m'.
Proof.
  intros Hm Hrun. apply bind_Ok in Hrun as (m1 & H1 & Hrun).
  assert (created_plan capabilities m1) as Hm1.
  { eapply (foldM_inv (created_plan capabilities)); [exact Hm| |exact H1].
    intros ????. by apply addRecomputeAction_created. }
  eapply (foldM_inv (created_plan capabilities)); [exact Hm1| |exact Hrun].
  intros s finding s' _ Hs Hf. apply bind_Ok in Hf as (affected & _ & Hf).
  destruct affected as [|r l]; [by eapply add_plan_boundary_created|].
  eapply (foldM_inv (created_plan capabilities)); [exact Hs| |exact Hf].
  intros ????. by apply addReviseAction_created.
Qed.
End Repair.

Lemma addAdvanceActions_created latest capabilities m m' :
  created_plan capabilities m → addAdvanceActions latest capabilities m = Ok m' →
  created_plan capabilities m'.
Proof.
  intros Hm. apply foldM_inv; [done|]. intros s c s' Hc Hs. unfold addAdvanceAction.
  destruct (_ || _); [by intros [= <-]|].
  intros Hrun. apply bind_Ok in Hrun as (a & Ha & Hrun). apply mret_Ok in Hrun as <-.
  apply set_action_created; [done|]. by eapply create_created.
Qed.

Lemma plan_actions_created rq m :
  plan_actions rq = Ok m → created_plan (rq_capabilities rq) m.
Proof.
  intros Hrun. apply bind_Ok in Hrun as (m1 & H1 & Hrun).
  assert (created_plan (rq_capabilities rq) m1) as Hm1.
  { eapply foldM_inv; [apply empty_created_plan| |exact H1].
    intros ????. by apply add_plan_boundary_created. }
  destruct (rq_mode rq); [by eapply addAdvanceActions_created|].
  eapply addRepairActions_created; [|exact Hm1|exact Hrun].
  intros ??. apply best_producer_elem.
Qed.

(** ** Linking *)

(** [a'] is [a] with inputs, and with dependencies among [ids]. *)
Record links_more (ids : list string) (a a' : mutable_action) : Prop := {
  lm_id : ma_id a' = ma_id a;
  lm_capability : ma_capability a' = ma_capability a;
  lm_targets : ma_targets a' = ma_targets a;
  lm_dependsOn : ma_dependsOn a' ⊆ ma_dependsOn a ++ ids;
}.

#[export] Instance links_more_preorder ids : PreOrder (links_more ids).
Proof.
  split.
  - intros a. split; [done..|]. by apply list_subseteq_app_l.
  - intros a b c [H1 H2 H3 H4] [H5 H6 H7 H8]. split; [congruence..|].
    intros i [Hi|Hi]%H8%elem_of_app; [by apply H4|]. apply elem_of_app. by right.
Qed.

Lemma with_inputs_links ids f a : links_more ids a (with_inputs f a).
Proof. split; [done..|]. by apply list_subseteq_app_l. Qed.

Lemma elem_of_foldl_set_add {A} (f : A → string) l : ∀ s x,
  x ∈ foldl (λ s y, set_add (f y) s) s l ↔ x ∈ s ∨ x ∈ f <$> l.
Proof.
  induction l as [|y l IH]; intros s x; [set_solver|]. cbn [foldl].
  rewrite IH, elem_of_set_add, fmap_cons, elem_of_cons. tauto.
Qed.

Lemma add_dependencies_links ids producers a :
  ma_id <$> producers ⊆ ids → links_more ids a (add_dependencies producers a).
Proof.
  intros Hsub. split; [done..|]. simpl. intros x. rewrite elem_of_foldl_set_add, elem_of_app.
  intros [?|?]; auto.
Qed.

Lemma set_add_links ids id a : id ∈ ids → links_more ids a (with_dependsOn (set_add id) a).
Proof.
  intros Hid. split; [done..|]. simpl. intros x. rewrite elem_of_set_add, elem_of_app.
  intros [->|?]; auto.
Qed.

Lemma blocks_more_links ids a a' : blocks_more a a' → links_more ids a a'.
Proof. intros [-> _]. split; [done..|]. by apply list_subseteq_app_l. Qed.

(** What a linking step does to the state. *)
Definition link_step (ids : list string) (st st' : action_state) : Prop :=
  state_step st st' ∧ links_more ids st.2 st'.2.

#[export] Instance link_step_preorder ids : PreOrder (link_step ids).
Proof.
  split; [intros st; split; reflexivity|]. intros x y z [? ?] [? ?]. split; by etrans.
Qed.

Lemma block_link_step ids st value st' : blockAction st value = Ok st' → link_step ids st st'.
Proof.
  intros (Hs & Hm & _)%blockAction_Ok. split; [done|]. by apply blocks_more_links.
Qed.

(** A step that changes the action but not what blocks it. *)
Lemma action_link_step ids st a' :
  links_more ids st.2 a' → ma_blocked a' = ma_blocked st.2 → link_step ids st (st.1, a').
Proof.
  intros Hl Hb. split; [|done]. split; simpl; rewrite ?Hb; try done.
  by apply list_subseteq_app_l.
Qed.

Section Linking.
Context (latest : list artifact_envelope) (latestByKey : jmap artifact_envelope).
Context (capabilities : list capability) (actions : jmap mutable_action).
Hypothesis Hactions : actions_wf actions.

Lemma filtered_ids (p : mutable_action → bool) :
  ma_id <$> List.filter p (jm_values actions) ⊆ jm_keys actions.
Proof.
  rewrite <- actions_wf_ids by done. intros x (a & -> & Ha)%list_elem_of_fmap.
  apply elem_of_bfilter in Ha as [Ha _]. by apply list_elem_of_fmap_2.
Qed.

Lemma link_kind_step st kind st' :
  link_kind latest actions st kind = Ok st' → link_step (jm_keys actions) st st'.
Proof.
  unfold link_kind. destruct (activeByKind latest kind) as [|e l].
  2: { intros [= <-]. by apply action_link_step; [apply with_inputs_links|]. }
  destruct (List.filter _ (jm_values (ma_targets st.2))) as [|r l].
  2: { intros [= <-]. by apply action_link_step; [apply with_inputs_links|]. }
  destruct (List.filter _ (actions_producing actions kind)) as [|p l] eqn:E.
  - apply block_link_step.
  - intros [= <-]. apply action_link_step; [|done]. apply add_dependencies_links.
    rewrite <- E. etrans; [|apply (filtered_ids (λ a, produces_kind kind (ma_capability a)))].
    intros x (a & -> & Ha)%list_elem_of_fmap. apply elem_of_bfilter in Ha as [Ha _].
    by apply list_elem_of_fmap_2.
Qed.

Lemma link_capability_step st id st' :
  link_capability latest capabilities actions st id = Ok st' →
  link_step (jm_keys actions) st st'.
Proof.
  unfold link_capability. destruct (jm_get id _) as [c|]; [|by intros [= <-]].
  destruct (_ && _); [by intros [= <-]|].
  destruct (actions_of_capability actions id) as [|p l] eqn:E; [apply block_link_step|].
  intros [= <-]. apply action_link_step; [|done]. apply add_dependencies_links.
  rewrite <- E. apply filtered_ids.
Qed.

Lemma groupActionsByTarget_ids k id :
  jm_get k (groupActionsByTarget actions) = Some id → id ∈ jm_keys actions.
Proof.
  rewrite <- actions_wf_ids by done. unfold groupActionsByTarget.
  assert (∀ l m, (∀ k id, jm_get k m = Some id → id ∈ ma_id <$> jm_values actions) →
    l ⊆ jm_values actions → ∀ k id,
    jm_get k (foldl (λ m a, foldl (λ m ref, jm_set (fullRefKey ref) (ma_id a) m) m
      (jm_values (ma_targets a))) m l) = Some id → id ∈ ma_id <$> jm_values actions) as Hgen.
  2: { apply (Hgen _ []); [by intros ? ? [=]|done]. }
  intros l. induction l as [|a l IH]; intros m Hm Hl; [done|]. cbn [foldl].
  apply IH; [|by intros x Hx; apply Hl; right].
  intros k' id'. rewrite (jm_get_fold fullRefKey (λ _, ma_id a)).
  destruct (last _); [|by apply Hm]. intros [= <-]. apply list_elem_of_fmap_2, Hl. by left.
Qed.

Lemma link_target_parent_links a parent :
  links_more (jm_keys actions) a
    (link_target_parent latestByKey (groupActionsByTarget actions) a parent) ∧
  ma_blocked (link_target_parent latestByKey (groupActionsByTarget actions) a parent)
    = ma_blocked a.
Proof.
  unfold link_target_parent.
  set (as_input := match jm_get (refKey _) latestByKey with Some _ => _ | None => _ end).
  assert (links_more (jm_keys actions) a as_input ∧ ma_blocked as_input = ma_blocked a) as Has.
  { subst as_input. destruct (jm_get _ latestByKey); [|split; [reflexivity|done]].
    case_decide; (split; [|done]); [apply with_inputs_links|reflexivity]. }
  destruct (jm_get _ (groupActionsByTarget actions)) as [id|] eqn:E; [|done].
  destruct (String.eqb id (ma_id a)); [done|]. split; [|done].
  apply set_add_links. by eapply groupActionsByTarget_ids.
Qed.

Lemma link_target_links a target :
  links_more (jm_keys actions) a
    (link_target latestByKey (groupActionsByTarget actions) a target) ∧
  ma_blocked (link_target latestByKey (groupActionsByTarget actions) a target) = ma_blocked a.
Proof.
  unfold link_target. destruct (jm_get _ latestByKey) as [e|]; [|split; [reflexivity|done]].
  generalize (a_parents e). intros l. revert a.
  induction l as [|p l IH]; intros a; [split; [reflexivity|done]|]. cbn [foldl].
  destruct (link_target_parent_links a p) as [Hl Hb]. destruct (IH (link_target_parent
    latestByKey (groupActionsByTarget actions) a p)) as [Hl' Hb'].
  split; [by etrans|congruence].
Qed.

Lemma link_targets_links l : ∀ a,
  links_more (jm_keys actions) a
    (foldl (link_target latestByKey (groupActionsByTarget actions)) a l) ∧
  ma_blocked (foldl (link_target latestByKey (groupActionsByTarget actions)) a l) = ma_blocked a.
Proof.
  induction l as [|t l IH]; intros a; [split; [reflexivity|done]|]. cbn [foldl].
  destruct (link_target_links a t) as [Hl Hb].
  destruct (IH (link_target latestByKey (groupActionsByTarget actions) a t)) as [Hl' Hb'].
  split; [by etrans|congruence].
Qed.

(** An action of a capability that depends on other actions of the plan. *)
Definition linked (a : mutable_action) : Prop :=
  ma_capability a ∈ capabilities ∧ ma_dependsOn a ⊆ jm_keys actions ∧ ma_id a ∉ ma_dependsOn a.

Lemma foldM_link_step {A} (f : action_state → A → result action_state) l : ∀ st st',
  (∀ st x st', f st x = Ok st' → link_step (jm_keys actions) st st') →
  foldM f st l = Ok st' → link_step (jm_keys actions) st st'.
Proof.
  induction l as [|x l IH]; intros st st' Hf Hrun; simpl in Hrun.
  - apply Ok_inj in Hrun as <-. reflexivity.
  - apply bind_Ok in Hrun as (st1 & H1 & Hrun). etrans; [by eapply Hf|by eapply IH].
Qed.

Lemma link_action_Ok m a st :
  linked a → link_action latest latestByKey capabilities actions m a = Ok st →
  state_step (mp_boundaries m, a) st ∧ linked st.2 ∧ ma_id st.2 = ma_id a.
Proof.
  intros (Hc & Hd & _) Hrun. unfold link_action in Hrun.
  apply bind_Ok in Hrun as (st1 & H1 & Hrun). apply bind_Ok in Hrun as (st2 & H2 & Hrun).
  apply foldM_link_step in H1; [|intros ???; apply link_kind_step].
  apply foldM_link_step in H2; [|intros ???; apply link_capability_step].
  apply mret_Ok in Hrun as <-.
  destruct (link_targets_links (jm_values (ma_targets st2.2)) st2.2) as [Hl Hb].
  set (a3 := foldl _ st2.2 _) in *.
  destruct H1 as [Hs1 Hl1], H2 as [Hs2 Hl2].
  assert (links_more (jm_keys actions) a a3) as Hall by (etrans; [exact Hl1|by etrans]).
  assert (state_step (mp_boundaries m, a) (st2.1, a3)) as Hs.
  { etrans; [exact Hs1|]. etrans; [exact Hs2|]. apply (action_link_step _ st2 a3 Hl Hb). }
  destruct Hall as [Hid Hcap _ Hdeps]. split_and!.
  - destruct Hs as [H1 H2 H3 H4]. by split.
  - split_and!; simpl.
    + by rewrite Hcap.
    + intros x Hx. apply elem_of_bfilter in Hx as [Hx _].
      apply Hdeps, elem_of_app in Hx as [Hx|Hx]; [by apply Hd|done].
    + rewrite elem_of_bfilter. intros [_ Hn]. by rewrite String.eqb_refl in Hn.
  - done.
Qed.
End Linking.

Definition linked_plan (capabilities : list capability) (m : mutable_plan) : Prop :=
  plan_wf m ∧ ∀ a, a ∈ jm_values (mp_actions m) → linked capabilities (mp_actions m) a.

Lemma linked_same_keys capabilities actions actions' a :
  jm_keys actions = jm_keys actions' →
  linked capabilities actions a → linked capabilities actions' a.
Proof. unfold linked. by intros ->. Qed.

Lemma link_plan_Ok latest latestByKey capabilities m m' :
  created_plan capabilities m →
  linkArtifactAndCapabilityDependencies latest latestByKey capabilities m = Ok m' →
  linked_plan capabilities m'.
Proof.
  intros [Hwf Hall] Hrun. unfold linkArtifactAndCapabilityDependencies, for_each_action in Hrun.
  set (actions := mp_actions m) in *.
  assert (plan_wf m' ∧ jm_keys (mp_actions m') = jm_keys actions ∧
    ∀ a, a ∈ jm_values (mp_actions m') → linked capabilities actions a) as (Hwf' & Hk & Hl).
  { eapply (foldM_inv (λ m', plan_wf m' ∧ jm_keys (mp_actions m') = jm_keys actions ∧
      ∀ a, a ∈ jm_values (mp_actions m') → linked capabilities actions a)); [| |exact Hrun].
    - split_and!; [done..|]. intros a Ha. destruct (Hall a Ha) as (Hc & Hd & _).
      unfold linked. rewrite Hd. split_and!; [done|apply list_subseteq_nil|apply not_elem_of_nil].
    - intros s k s' _ (Hs & Hk & Hl) Hstep. unfold visit_action in Hstep.
      destruct (jm_get k (mp_actions s)) as [a|] eqn:Ha; [|by injection Hstep as <-].
      apply bind_Ok in Hstep as (st & Hst & Hstep). apply mret_Ok in Hstep as <-.
      assert (a ∈ jm_values (mp_actions s)) as Hin
        by (apply elem_of_jm_values; [apply Hs|eauto]).
      apply link_action_Ok in Hst as (Hss & Hli & Hid); [|apply Hwf|by apply Hl].
      destruct Hss as [Hb Hkeys Hbl Hr]. simpl in *. split_and!.
      + apply plan_wf_store; [done| |apply Hb, Hs|done|].
        * rewrite Hid. by eapply actions_wf_get; [apply Hs|].
        * etrans; [exact Hr|]. intros i [Hi|Hi]%elem_of_app; [|done].
          apply Hkeys. by eapply wf_blocked.
      + by rewrite jm_keys_set_present by eauto.
      + intros b [->|Hb']%jm_values_set; [done|by apply Hl]. }
  split; [done|]. intros a Ha. eapply linked_same_keys; [by symmetry|by apply Hl].
Qed.

(** ** Capability boundaries *)

(** What a capability needs for its actions to run. *)
Definition authorized (permissions : permission_snapshot) (approvals : list approval_receipt)
    (c : capability) : Prop :=
  cap_available c = true ∧ capabilityIsAllowed (cap_id c) permissions = true ∧
  confirmed approvals c = true.

Lemma no_capability_blocks permissions approvals a :
  capability_blocks permissions approvals a = [] →
  authorized permissions approvals (ma_capability a).
Proof.
  unfold capability_blocks, authorized, confirmed. intros Hnil.
  apply app_nil in Hnil as [H1 Hnil]. apply app_nil in Hnil as [H2 H3].
  destruct (cap_available _); [|done]. destruct (capabilityIsAllowed _ _); [|done].
  split_and!; [done..|]. destruct (inferConfirmationBoundary _) as [b|]; [|done].
  unfold confirmation_block in H3. destruct (approvalFor _ _ _) as [r|]; [|done].
  case_decide; [by apply bool_decide_eq_true|done].
Qed.

Lemma apply_keys_authorized permissions approvals keys : ∀ m m',
  plan_wf m →
  foldM (visit_action (λ m a, foldM blockAction (mp_boundaries m, a)
    (capability_blocks permissions approvals a))) m keys = Ok m' →
  ∀ k a, k ∈ keys → jm_get k (mp_actions m') = Some a → unblocked a = true →
  authorized permissions approvals (ma_capability a).
Proof.
  induction keys as [|k keys IH]; intros m m' Hwf Hrun k' a Hk Ha Hu; [by apply elem_of_nil in Hk|].
  cbn [foldM] in Hrun. apply bind_Ok in Hrun as (m1 & H1 & Hrun).
  unfold visit_action in H1. destruct (jm_get k (mp_actions m)) as [b|] eqn:Hb.
  - apply bind_Ok in H1 as (st & Hst & H1). apply mret_Ok in H1 as <-.
    apply blockActions_Ok in Hst as (Hs & Hm & Hblocked).
    destruct (store_advances m k b st Hwf Hb Hs Hm) as [Hwf1 _].
    apply elem_of_cons in Hk as [->|Hk]; [|by eapply IH].
    pose proof Hrun as Hrun'. eapply (foldM_blocking id) in Hrun' as Hstage.
    + destruct (Hstage Hwf1) as [_ [_ Hmore]]. apply Hmore in Ha as (a1 & Ha1 & Hmore1).
      simpl in Ha1. rewrite jm_get_set_eq in Ha1. injection Ha1 as <-.
      pose proof (blocks_more_unblocked _ _ Hmore1 Hu) as Hu1.
      assert (capability_blocks permissions approvals b = []) as Hnil.
      { destruct (capability_blocks _ _ b) eqn:E; [done|]. by rewrite Hblocked in Hu1. }
      apply no_capability_blocks in Hnil. destruct Hmore1 as [-> _], Hm as [-> _]. done.
    + intros s x s' _ Hx. by eapply visit_blocking.
  - injection H1 as <-. apply elem_of_cons in Hk as [->|Hk]; [|by eapply IH].
    eapply (foldM_blocking id) in Hrun as Hstage; [|intros s x s' _ Hx; by eapply visit_blocking].
    destruct (Hstage Hwf) as [_ [_ Hmore]]. apply Hmore in Ha as (a1 & Ha1 & _).
    simpl in Ha1. congruence.
Qed.
End Links.
