(* ===== verification/DirectorStages.v ===== *)
(** * The stages of planning put together

    What the request, the actions, the boundaries and the batches of a plan
    made by [createResearchDirectorPlan] satisfy, and how its frozen actions
    relate to the planner's. *)

From S2P Require Import Prelude Host JsValue ArtifactTypes ArtifactGraph RepoModel Numbers DirectorTypes DirectorValidation DirectorPlan DirectorBatches DirectorInvariant DirectorCascade DirectorLinks.

Section Stages.
Context `{Host}.

(** ** The stages put together *)

(** Linked actions, the unblocked ones authorized. *)
Definition ready_plan (rq : plan_request) (m : mutable_plan) : Prop :=
  linked_plan (rq_capabilities rq) m ∧
  ∀ a, a ∈ jm_values (mp_actions m) → unblocked a = true →
    authorized (rq_permissions rq) (rq_approvals rq) (ma_capability a).

Lemma stage_linked capabilities m m' :
  blocking_stage m m' → linked_plan capabilities m → linked_plan capabilities m'.
Proof.
  intros Hst [Hwf Hall]. destruct (Hst Hwf) as [Hwf' [Hk Hm]]. split; [done|].
  intros a' (k & Hk')%elem_of_jm_values; [|apply Hwf'].
  apply Hm in Hk' as (a & Ha & Hmore).
  apply (linked_same_keys _ (mp_actions m)); [done|].
  assert (linked capabilities (mp_actions m) a) as Hl.
  { apply Hall, elem_of_jm_values; [apply Hwf|eauto]. }
  destruct Hmore as [-> _]. exact Hl.
Qed.

Lemma stage_ready rq m m' : blocking_stage m m' → ready_plan rq m → ready_plan rq m'.
Proof.
  intros Hst [Hl Hauth]. split; [by eapply stage_linked|].
  destruct Hl as [Hwf _]. destruct (Hst Hwf) as [Hwf' [_ Hm]].
  intros a' (k & Hk)%elem_of_jm_values Hu; [|apply Hwf'].
  apply Hm in Hk as (a & Ha & Hmore).
  pose proof (blocks_more_unblocked _ _ Hmore Hu) as Hua.
  assert (authorized (rq_permissions rq) (rq_approvals rq) (ma_capability a)) as Hau.
  { apply Hauth; [|done]. apply elem_of_jm_values; [apply Hwf|eauto]. }
  destruct Hmore as [-> _]. exact Hau.
Qed.

Lemma plan_blocked_Ok rq m : plan_blocked rq = Ok m → ready_plan rq m ∧ settled m.
Proof.
  intros Hrun. apply bind_Ok in Hrun as (m1 & H1 & Hrun).
  apply bind_Ok in Hrun as (m2 & H2 & Hrun). apply bind_Ok in Hrun as (m3 & H3 & Hrun).
  apply plan_actions_created in H1. apply link_plan_Ok in H2; [|done].
  pose proof (applyCapabilityBoundaries_stage _ _ _ _ H3) as Hst.
  pose proof (stage_linked _ _ _ Hst H2) as Hl3. apply cascade_Ok in Hrun as [Hst' Hset].
  split; [|done]. eapply stage_ready; [exact Hst'|]. split; [done|].
  intros a (k & Hk)%elem_of_jm_values Hu; [|apply Hl3].
  destruct H2 as [Hwf2 _]. destruct (Hst Hwf2) as [_ [Hkeys _]].
  eapply (apply_keys_authorized _ _ _ m2 m3 Hwf2 H3 k); [|done..].
  rewrite <- Hkeys. apply elem_of_jm_keys. eauto.
Qed.

Lemma cost_stage rq batches m m' m'' :
  applyCostBudget batches (available_units rq) m = Ok m' →
  cascadeBlockedDependencies m' = Ok m'' → ready_plan rq m →
  ready_plan rq m' ∧ ready_plan rq m'' ∧ settled m''.
Proof.
  intros Hc%applyCostBudget_stage [Hst Hset]%cascade_Ok Hr.
  pose proof (stage_ready _ _ _ Hc Hr) as Hr'. split; [done|].
  split; [|done]. by eapply stage_ready.
Qed.

Lemma plan_budgeted_Ok rq m batches :
  plan_budgeted rq = Ok (m, batches) →
  ready_plan rq m ∧ settled m ∧ createReadyBatches (mp_actions m) = Ok batches.
Proof.
  intros Hrun. apply bind_Ok in Hrun as (m1 & H1 & Hrun).
  apply bind_Ok in Hrun as (b1 & _ & Hrun). apply bind_Ok in Hrun as (m2 & H2 & Hrun).
  apply bind_Ok in Hrun as (m3 & H3 & Hrun). apply bind_Ok in Hrun as (b3 & H4 & Hrun).
  apply plan_blocked_Ok in H1 as [Hr1 _].
  destruct (cost_stage rq b1 m1 m2 m3 H2 H3 Hr1) as (_ & Hr3 & Hs3).
  destruct (available_duration rq) as [d|]; [|by injection Hrun as <- <-].
  apply bind_Ok in Hrun as (m4 & H5 & Hrun). apply bind_Ok in Hrun as (m5 & H6 & Hrun).
  apply bind_Ok in Hrun as (b5 & H7 & Hrun). injection Hrun as <- <-.
  apply applyDurationBudget_stage in H5. apply cascade_Ok in H6 as [Hst Hset].
  split_and!; [|done..]. eapply stage_ready; [exact Hst|]. by eapply stage_ready.
Qed.

(** The parts of a plan that was made. *)
Record plan_made (input : plan_input) (plan : plan_record) (rq : plan_request)
    (m : mutable_plan) : Prop := {
  made_request : read_request input = Ok rq;
  made_budgeted : plan_budgeted rq = Ok (m, pl_readyBatches (pl_body plan));
  made_actions : pl_actions (pl_body plan) = freezeActions (mp_actions m);
  made_boundaries : pl_blockedBoundaries (pl_body plan) =
    js_sort (cmp_on bnd_id compareText) (jm_values (mp_boundaries m));
  made_projection : pl_budgetProjection (pl_body plan) =
    project_budget rq (pl_actions (pl_body plan)) (pl_readyBatches (pl_body plan));
  made_time : pi_now input = Some (pl_createdAt (pl_body plan));
  made_id : pi_planId input = JUndefined ∧
    (∃ v, directorRecordId "director-plan" v = Ok (pl_planId (pl_body plan)))
    ∨ identifier (pi_planId input) "planId" = Ok (pl_planId (pl_body plan));
  made_sealed : hashResearchArtifactContent (JObj (plan_body_fields (pl_body plan)))
    = Ok (pl_auditHash plan);
}.

Lemma createPlan_Ok input plan :
  createResearchDirectorPlan input = Ok plan → ∃ rq m, plan_made input plan rq m.
Proof.
  intros Hrun. apply bind_Ok in Hrun as (rq & Hrq & Hrun).
  apply bind_Ok in Hrun as ([m batches] & Hm & Hrun).
  apply bind_Ok in Hrun as (h1 & _ & Hrun). apply bind_Ok in Hrun as (h2 & _ & Hrun).
  apply bind_Ok in Hrun as (t & Ht & Hrun). apply bind_Ok in Hrun as (id & Hid & Hrun).
  apply bind_Ok in Hrun as (hash & Hhash & Hrun). apply mret_Ok in Hrun as <-.
  exists rq, m. split; try done.
  - by apply of_option_Ok in Ht.
  - destruct (pi_planId input); simpl in Hid; eauto.
Qed.

(** ** Frozen actions *)

Lemma elem_of_freezeActions actions x :
  x ∈ freezeActions actions ↔ ∃ a, a ∈ jm_values actions ∧ x = freeze_action a.
Proof.
  unfold freezeActions. rewrite list_elem_of_fmap. setoid_rewrite js_sort_perm. naive_solver.
Qed.

Lemma freeze_ids actions :
  actions_wf actions → act_id <$> freezeActions actions ≡ₚ jm_keys actions.
Proof.
  intros Hwf. unfold freezeActions. rewrite <- list_fmap_compose.
  rewrite <- actions_wf_ids by done. apply fmap_Permutation, js_sort_perm.
Qed.

(** No blocking boundaries. *)
Definition runnable (a : director_action) : bool := (length (act_blockedBoundaryIds a) =? 0)%nat.

Lemma runnable_freeze a : runnable (freeze_action a) = unblocked a.
Proof. unfold runnable, unblocked. simpl. by rewrite length_js_sort. Qed.

Lemma runnable_ids actions :
  act_id <$> List.filter runnable (freezeActions actions)
  ≡ₚ ma_id <$> List.filter unblocked (jm_values actions).
Proof.
  unfold freezeActions.
  assert (∀ l, act_id <$> List.filter runnable (freeze_action <$> l)
               = ma_id <$> List.filter unblocked l) as E.
  { intros l. induction l as [|a l IH]; [done|]. rewrite fmap_cons. cbn [List.filter].
    rewrite runnable_freeze. destruct (unblocked a); [|done]. by rewrite !fmap_cons, IH. }
  rewrite E. apply fmap_Permutation. apply Permutation_filter_bool, js_sort_perm.
Qed.

Lemma eligible_perm actions :
  eligible_actions actions ≡ₚ List.filter unblocked (jm_values actions).
Proof. apply js_sort_perm. Qed.

Lemma eligible_NoDup actions :
  actions_wf actions → NoDup (ma_id <$> eligible_actions actions).
Proof.
  intros Hwf. rewrite eligible_perm. apply NoDup_bool_filter.
  rewrite actions_wf_ids by done. apply Hwf.
Qed.

Lemma elem_of_eligible actions a :
  a ∈ eligible_actions actions ↔ a ∈ jm_values actions ∧ unblocked a = true.
Proof. by rewrite eligible_perm, elem_of_bfilter. Qed.

Lemma ready_batches_cases actions :
  actions_wf actions →
  (∃ bs, createReadyBatches actions = Ok bs ∧
     batch_inv (eligible_actions actions) (batched bs) bs ∧
     batched bs ≡ₚ ma_id <$> eligible_actions actions) ∨
  (createReadyBatches actions = Throw batch_cycle ∧
     ∃ z, tc (dep_edge (eligible_actions actions)) z z).
Proof.
  intros Hwf. unfold createReadyBatches.
  apply batch_loop_spec; [by apply eligible_NoDup| |simpl; lia].
  split; [done|constructor|apply list_subseteq_nil| |constructor].
  intros k b x y Hk. by rewrite lookup_nil in Hk.
Qed.
End Stages.
