(* ===== verification/DirectorSamples.v ===== *)
(** * A small director request

    Three capabilities over one active evidence pack: writing a brief, writing
    a method on it, and exporting figures of the method, which nobody has
    confirmed.  Also two actions that depend on each other. *)

From S2P Require Import Prelude Host JsValue ArtifactTypes Samples ArtifactGraph RepoModel Numbers DirectorTypes DirectorValidation DirectorPlan.

Definition sample_capability (id operation : string) (accepts produces : artifact_kind)
    (cost : Z) : jsval :=
  JObj [("capabilityId", JStr id); ("toolName", JStr "lab"); ("operation", JStr operation);
        ("available", JBool true); ("concurrencySafe", JBool true);
        ("accepts", kinds_json [accepts]); ("produces", kinds_json [produces]);
        ("estimatedCostUnits", JNum (NInt cost)); ("estimatedDurationMs", JNum (NInt 10))].

Definition sample_capability_values : list jsval :=
  [sample_capability "a" "brief" EvidencePack ResearchBrief 3;
   sample_capability "b" "method" ResearchBrief MethodSpec 4;
   sample_capability "c" "export" MethodSpec FigureTable 1].

Definition sample_plan_input : plan_input :=
  mkPlanInput (JObj [("objective", JStr "Answer")]) [sample_evidence] None
    (JArr sample_capability_values)
    (JObj [("limitUnits", JNum (NInt 10)); ("spentUnits", JNum (NInt 2))])
    (JObj [("defaultAccess", JStr "allow")]) JUndefined (JStr "plan-1") (Some 5%Z).

Definition or_else {A} (d : A) (r : result A) : A := match r with Ok a => a | Throw _ => d end.

Definition sample_capabilities : list capability := Eval vm_compute in
  or_else [] (normalizeCapabilities (pi_capabilities sample_plan_input)).

Definition sample_permissions : permission_snapshot := mkPermissions AccessAllow [] [].

Definition sample_budget : director_budget := mkBudget (NInt 10) (NInt 2) None.

Definition blank_plan : plan_record :=
  mkPlan (mkPlanBody "" 0 AdvanceMode (mkGoal "" None None) "" "" [] [] [] [] [] []
            (mkProjection (NInt 0) (NInt 0) None (NInt 0))) "".

Definition sample_plan : plan_record := Eval vm_compute in
  or_else blank_plan (createResearchDirectorPlan sample_plan_input).

Lemma sample_plan_ok : createResearchDirectorPlan sample_plan_input = Ok sample_plan.
Proof. vm_compute. reflexivity. Qed.

Lemma sample_capabilities_ok :
  normalizeCapabilities (pi_capabilities sample_plan_input) = Ok sample_capabilities.
Proof. vm_compute. reflexivity. Qed.

Lemma sample_permissions_ok :
  normalizePermissions (pi_permissions sample_plan_input) = Ok sample_permissions.
Proof. vm_compute. reflexivity. Qed.

Lemma sample_approvals_ok :
  normalizeApprovalReceipts (pi_approvals sample_plan_input) = Ok [].
Proof. vm_compute. reflexivity. Qed.

Lemma sample_budget_ok : normalizeBudget (pi_budget sample_plan_input) = Ok sample_budget.
Proof. vm_compute. reflexivity. Qed.

(** An action of the sample plan. *)
Definition sample_action : director_action := Eval vm_compute in
  nth 1 (pl_actions (pl_body sample_plan))
    (mkAction "" "" "" "" IntentAdvance [] [] [] [] [] true (NInt 0) (NInt 0) None []).

(** Two unblocked actions, each depending on the other. *)
Definition free_capability (id : string) : capability :=
  mkCapability id "lab" "run" true None true [] [] [] (NInt 1) (NInt 1) None.

Definition cyclic_actions : jmap mutable_action :=
  [("p", mkMutable "p" (free_capability "p") IntentAdvance [] [] [] ["q"] []);
   ("q", mkMutable "q" (free_capability "q") IntentAdvance [] [] [] ["p"] [])].
