(* ===== verification/DirectorProperties.v ===== *)
(** * Correctness of the director's plans

    The theorems about [createReadyBatches] and [createResearchDirectorPlan]:
    the batches, what may run, the references between the parts of a plan,
    and the cost budget. *)

From S2P Require Import Prelude Host JsValue ArtifactTypes Samples ArtifactGraph RepoModel Numbers DirectorTypes DirectorValidation DirectorPlan DirectorBatches DirectorInvariant DirectorCascade DirectorLinks DirectorStages DirectorSamples.

Section Plans.
Context `{Host}.

(** ** Batches *)

(** C26: The batch loop always ends.  It returns batches that hold every
    unblocked action exactly once, each after everything it depends on, each
    batch a single action or concurrency-safe ones with the sum of their costs
    and the longest of their durations; it throws exactly when the unblocked
    actions depend on each other in a cycle. *)
Theorem ready_batches_total actions :
  actions_wf actions →
  (∃ batches, createReadyBatches actions = Ok batches ∧
     batched batches ≡ₚ ma_id <$> List.filter unblocked (jm_values actions) ∧
     NoDup (batched batches) ∧
     batches_ordered (eligible_actions actions) batches ∧
     Forall (batch_ok (eligible_actions actions)) batches ∧
     ∀ z, ¬ tc (dep_edge (eligible_actions actions)) z z) ∨
  (createReadyBatches actions = Throw batch_cycle ∧
     ∃ z, tc (dep_edge (eligible_actions actions)) z z).
Proof.
  intros Hwf. destruct (ready_batches_cases actions Hwf) as [(bs & Hbs & Hinv & Hall)|?]; [left|by right].
  exists bs. destruct Hinv as [Hp Hnd Hs Ho Hok]. split_and!; try done.
  - rewrite Hall. apply fmap_Permutation, eligible_perm.
  - intros z. by eapply ordered_acyclic.
Qed.

Lemma made_ready input plan rq m :
  plan_made input plan rq m →
  ready_plan rq m ∧ settled m ∧
  batch_inv (eligible_actions (mp_actions m)) (batched (pl_readyBatches (pl_body plan)))
    (pl_readyBatches (pl_body plan)) ∧
  batched (pl_readyBatches (pl_body plan)) ≡ₚ ma_id <$> eligible_actions (mp_actions m).
Proof.
  intros Hmade. destruct (plan_budgeted_Ok _ _ _ (made_budgeted _ _ _ _ Hmade))
    as (Hr & Hset & Hb).
  destruct (ready_batches_cases (mp_actions m)) as [(bs & Hbs & Hinv & Hall)|[Ht _]];
    [apply Hr| |congruence].
  rewrite Hb in Hbs. apply Ok_inj in Hbs as <-. done.
Qed.

(** An action of the plan and the planner's action it was frozen from. *)
Lemma made_action input plan rq m x :
  plan_made input plan rq m → x ∈ pl_actions (pl_body plan) →
  ∃ a, a ∈ jm_values (mp_actions m) ∧ x = freeze_action a ∧ linked (rq_capabilities rq) (mp_actions m) a.
Proof.
  intros Hmade Hx. destruct (made_ready _ _ _ _ Hmade) as ([[Hwf Hl] _] & _).
  rewrite (made_actions _ _ _ _ Hmade) in Hx. apply elem_of_freezeActions in Hx as (a & Ha & ->).
  eauto.
Qed.

Lemma linked_action_dependency capabilities m a d :
  plan_wf m → linked capabilities (mp_actions m) a → d ∈ ma_dependsOn a →
  ∃ b, b ∈ jm_values (mp_actions m) ∧ ma_id b = d ∧ jm_get d (mp_actions m) = Some b.
Proof.
  intros Hwf (_ & Hd & _) Hin. apply Hd, elem_of_jm_keys in Hin as [b Hb].
  exists b. split_and!; [apply elem_of_jm_values; [apply Hwf|eauto]| |done].
  by eapply actions_wf_get; [apply Hwf|].
Qed.

Lemma settled_action rq m a d b :
  ready_plan rq m → settled m → a ∈ jm_values (mp_actions m) → unblocked a = true →
  d ∈ ma_dependsOn a → jm_get d (mp_actions m) = Some b → unblocked b = true.
Proof.
  intros [[Hwf _] _] Hset (k & Hk)%elem_of_jm_values Hu Hd Hb; [|apply Hwf].
  eapply settled_dependencies; [exact Hset|exact Hk|exact Hu|exact Hd|exact Hb].
Qed.

(** C25: Every runnable action of a plan is scheduled in exactly one batch, no
    other action is, and everything an action depends on is in an earlier
    batch. *)
Theorem plan_schedules_all input plan :
  createResearchDirectorPlan input = Ok plan →
  let batches := pl_readyBatches (pl_body plan) in
  batched batches ≡ₚ act_id <$> List.filter runnable (pl_actions (pl_body plan)) ∧
  NoDup (batched batches) ∧
  ∀ k b a d, batches !! k = Some b → a ∈ pl_actions (pl_body plan) →
    act_id a ∈ bat_actionIds b → d ∈ act_dependsOnActionIds a →
    d ∈ batched (take k batches).
Proof.
  intros (rq & m & Hmade)%createPlan_Ok batches.
  destruct (made_ready _ _ _ _ Hmade) as (Hr & Hset & [_ Hnd _ Hord _] & Hall).
  pose proof Hr as [[Hwf Hl] _]. split_and!; [|done|].
  - fold batches in Hall. rewrite Hall, (made_actions _ _ _ _ Hmade), runnable_ids.
    apply fmap_Permutation, eligible_perm.
  - intros k b x d Hk Hx Hin Hd.
    destruct (made_action _ _ _ _ _ Hmade Hx) as (a & Ha & -> & Hla). simpl in Hin, Hd.
    rewrite js_sort_perm in Hd.
    destruct (linked_action_dependency _ _ _ _ Hwf Hla Hd) as (b' & Hb' & Hid & Hget).
    assert (a ∈ eligible_actions (mp_actions m)) as Hea.
    { assert (ma_id a ∈ batched batches) as Hba.
      { apply list_elem_of_In, in_concat. exists (bat_actionIds b).
        split; apply list_elem_of_In; [|done]. apply list_elem_of_fmap_2.
        by eapply list_elem_of_lookup_2. }
      fold batches in Hall. rewrite Hall in Hba.
      apply list_elem_of_fmap in Hba as (a' & Hid' & Ha').
      apply elem_of_eligible in Ha' as [Hin' Hu'].
      rewrite (NoDup_fmap_inj_on ma_id (jm_values (mp_actions m)) a a'); try done.
      - by apply elem_of_eligible.
      - rewrite actions_wf_ids by apply Hwf. apply Hwf. }
    eapply Hord; [exact Hk|exact Hin|]. exists a. split_and!; [done..|].
    rewrite <- Hid. apply list_elem_of_fmap_2, elem_of_eligible. split; [done|].
    apply elem_of_eligible in Hea as [_ Hu].
    eapply settled_action; [exact Hr|exact Hset|exact Ha|exact Hu|exact Hd|exact Hget].
Qed.

(** ** What may run *)

(** C24: A plan schedules an action only when its capability is available,
    inside the permission snapshot and, where it falls under a confirmation
    boundary, the latest applicable approval approves it, and only when
    everything it depends on may run too. *)
Theorem plan_runs_authorized input plan capabilities permissions approvals x :
  createResearchDirectorPlan input = Ok plan →
  normalizeCapabilities (pi_capabilities input) = Ok capabilities →
  normalizePermissions (pi_permissions input) = Ok permissions →
  normalizeApprovalReceipts (pi_approvals input) = Ok approvals →
  x ∈ pl_actions (pl_body plan) → runnable x = true →
  (∃ c, c ∈ capabilities ∧ cap_id c = act_capabilityId x ∧ cap_available c = true ∧
     capabilityIsAllowed (cap_id c) permissions = true ∧
     ∀ boundary, inferConfirmationBoundary c = Some boundary →
       ∃ receipt, approvalFor (cap_id c) boundary approvals = Some receipt ∧
                  apr_status receipt = Approved) ∧
  ∀ d, d ∈ act_dependsOnActionIds x →
    ∃ y, y ∈ pl_actions (pl_body plan) ∧ act_id y = d ∧ runnable y = true.
Proof.
  intros (rq & m & Hmade)%createPlan_Ok Hcaps Hperm Happr Hx Hrun.
  destruct (made_ready _ _ _ _ Hmade) as (Hr & Hset & _).
  pose proof Hr as [[Hwf Hl] Hauth].
  pose proof (made_request _ _ _ _ Hmade) as Hrq. unfold read_request in Hrq.
  rewrite Hcaps, Hperm, Happr in Hrq. inv_result. simpl in *.
  destruct (made_action _ _ _ _ _ Hmade Hx) as (a & Ha & -> & Hla).
  rewrite runnable_freeze in Hrun. split.
  - exists (ma_capability a). destruct (Hauth a Ha Hrun) as (Hav & Hal & Hc).
    split_and!; [apply Hla|done..|]. intros boundary Hb. unfold confirmed in Hc.
    rewrite Hb in Hc. destruct (approvalFor _ _ _) as [receipt|]; [|done].
    exists receipt. split; [done|]. by apply bool_decide_eq_true in Hc.
  - intros d Hd. simpl in Hd. rewrite js_sort_perm in Hd.
    destruct (linked_action_dependency _ _ _ _ Hwf Hla Hd) as (b & Hb & Hid & Hget).
    exists (freeze_action b). split_and!; [|done|].
    + rewrite (made_actions _ _ _ _ Hmade). apply elem_of_freezeActions. eauto.
    + rewrite runnable_freeze.
      eapply settled_action; [exact Hr|exact Hset|exact Ha|exact Hrun|exact Hd|exact Hget].
Qed.

(** ** References *)

(** C28: The parts of a plan refer to each other consistently: ids are
    distinct, an action is one of a supplied capability, depends on other
    actions of the plan and is blocked by boundaries of the plan, and a
    boundary's id is derived from its contents. *)
Theorem plan_well_formed input plan capabilities :
  createResearchDirectorPlan input = Ok plan →
  normalizeCapabilities (pi_capabilities input) = Ok capabilities →
  let body := pl_body plan in
  NoDup (act_id <$> pl_actions body) ∧ NoDup (bnd_id <$> pl_blockedBoundaries body) ∧
  (∀ a, a ∈ pl_actions body →
     act_capabilityId a ∈ cap_id <$> capabilities ∧
     act_dependsOnActionIds a ⊆ act_id <$> pl_actions body ∧
     act_id a ∉ act_dependsOnActionIds a ∧
     act_blockedBoundaryIds a ⊆ bnd_id <$> pl_blockedBoundaries body) ∧
  ∀ b, b ∈ pl_blockedBoundaries body →
    directorRecordId "boundary" (JObj (boundary_body_fields (bnd_body b))) = Ok (bnd_id b).
Proof.
  intros (rq & m & Hmade)%createPlan_Ok Hcaps body.
  destruct (made_ready _ _ _ _ Hmade) as ([[Hwf Hl] _] & _).
  pose proof (made_request _ _ _ _ Hmade) as Hrq. unfold read_request in Hrq.
  rewrite Hcaps in Hrq. inv_result. simpl in *.
  assert (bnd_id <$> pl_blockedBoundaries body ≡ₚ jm_keys (mp_boundaries m)) as Hbnd.
  { unfold body. rewrite (made_boundaries _ _ _ _ Hmade), js_sort_perm.
    destruct Hwf as [_ [_ Hs] _]. unfold jm_values, jm_keys.
    induction Hs as [|[k b] l [Hk _] _ IH]; [done|]. rewrite !fmap_cons. simpl in *.
    by rewrite Hk, IH. }
  assert (act_id <$> pl_actions body ≡ₚ jm_keys (mp_actions m)) as Hids.
  { unfold body. rewrite (made_actions _ _ _ _ Hmade). apply freeze_ids, Hwf. }
  split_and!.
  - rewrite Hids. apply Hwf.
  - rewrite Hbnd. apply Hwf.
  - intros x Hx. destruct (made_action _ _ _ _ _ Hmade Hx) as (a & Ha & -> & Hc & Hd & Hn).
    simpl. split_and!.
    + by apply list_elem_of_fmap_2.
    + intros d Hin. rewrite js_sort_perm in Hin. rewrite Hids. by apply Hd.
    + by rewrite js_sort_perm.
    + intros i Hi. rewrite js_sort_perm in Hi. rewrite Hbnd. by eapply wf_blocked.
  - intros b Hb. unfold body in Hb. rewrite (made_boundaries _ _ _ _ Hmade), js_sort_perm in Hb.
    unfold jm_values in Hb. apply list_elem_of_fmap in Hb as ([k b'] & -> & Hin).
    destruct Hwf as [_ [_ Hs] _]. rewrite Forall_forall in Hs. destruct (Hs _ Hin) as [Hk Hid].
    simpl in *. by rewrite Hk.
Qed.
End Plans.

Lemma cyclic_actions_wf : actions_wf cyclic_actions.
Proof.
  split; [|repeat constructor]. apply NoDup_cons. split; [|apply NoDup_singleton].
  by rewrite list_elem_of_singleton.
Qed.

Lemma ready_batches_total_witness :
  actions_wf cyclic_actions ∧ createReadyBatches cyclic_actions = Throw batch_cycle.
Proof.
  split; [exact cyclic_actions_wf|].
  destruct (ready_batches_total cyclic_actions cyclic_actions_wf) as [(bs & Hbs & _)|[Ht _]].
  - vm_compute in Hbs. discriminate Hbs.
  - exact Ht.
Defined.

Lemma plan_schedules_all_witness :
  batched (pl_readyBatches (pl_body sample_plan)) ≡ₚ
  act_id <$> List.filter runnable (pl_actions (pl_body sample_plan)).
Proof. apply (plan_schedules_all sample_plan_input sample_plan sample_plan_ok). Defined.

Lemma plan_runs_authorized_witness :
  runnable sample_action = true ∧
  ∃ c, c ∈ sample_capabilities ∧ cap_id c = act_capabilityId sample_action ∧
    cap_available c = true ∧ capabilityIsAllowed (cap_id c) sample_permissions = true.
Proof.
  split; [reflexivity|].
  destruct (plan_runs_authorized sample_plan_input sample_plan sample_capabilities
    sample_permissions [] sample_action sample_plan_ok sample_capabilities_ok
    sample_permissions_ok sample_approvals_ok) as [(c & Hc & Hid & Hav & Hal & _) _].
  - right. left.
  - reflexivity.
  - exists c. split; [exact Hc|]. split; [exact Hid|]. split; [exact Hav|exact Hal].
Defined.

Lemma plan_well_formed_witness :
  NoDup (act_id <$> pl_actions (pl_body sample_plan)) ∧
  NoDup (bnd_id <$> pl_blockedBoundaries (pl_body sample_plan)).
Proof.
  destruct (plan_well_formed sample_plan_input sample_plan sample_capabilities
    sample_plan_ok sample_capabilities_ok) as (Ha & Hb & _).
  split; [exact Ha|exact Hb].
Defined.
