(* ===== verification/DirectorBudget.v ===== *)
(** * The director's cost budget

    [applyCostBudget] of DirectorPlan.v for budgets and costs in whole units,
    where JavaScript's arithmetic is exact: what remains scheduled is paid for,
    so a plan never projects more than the units that are available. *)

From S2P Require Import Prelude Host JsValue ArtifactTypes RepoModel Numbers DirectorTypes DirectorValidation DirectorPlan DirectorBatches DirectorInvariant DirectorCascade DirectorLinks DirectorStages DirectorSamples.

Local Open Scope Z_scope.

(** ** Sums *)

Definition total {A} (f : A → Z) (l : list A) : Z := foldr (λ x s, f x + s) 0 l.

Lemma total_perm {A} (f : A → Z) l k : l ≡ₚ k → total f l = total f k.
Proof. induction 1; simpl; lia. Qed.

Lemma total_le {A} (f g : A → Z) l : (∀ x, x ∈ l → f x <= g x) → total f l <= total g l.
Proof.
  induction l as [|x l IH]; intros Hfg; simpl; [done|].
  assert (f x <= g x) by (apply Hfg; by left).
  assert (total f l <= total g l) by (apply IH; intros; apply Hfg; by right). lia.
Qed.

Lemma total_ext {A} (f g : A → Z) l : (∀ x, x ∈ l → f x = g x) → total f l = total g l.
Proof.
  intros Hfg. apply Z.le_antisymm; apply total_le; intros x Hx; rewrite Hfg by done; lia.
Qed.

Lemma total_nonneg {A} (f : A → Z) l : (∀ x, 0 <= f x) → 0 <= total f l.
Proof. intros Hf. induction l as [|x l IH]; simpl; [done|]. specialize (Hf x). lia. Qed.

Lemma total_app {A} (f : A → Z) l k : total f (l ++ k) = total f l + total f k.
Proof. induction l as [|x l IH]; [done|]. simpl. rewrite IH. lia. Qed.

(** Elements outside a sublist that weigh nothing do not matter. *)
Lemma total_sub {A} `{EqDecision A} (f : A → Z) l k :
  NoDup l → l ⊆+ k → (∀ x, x ∈ k → x ∉ l → f x = 0) → NoDup k → total f k = total f l.
Proof.
  intros Hl [k' Hk]%submseteq_Permutation Hz Hnd.
  rewrite (total_perm _ _ _ Hk), total_app. rewrite Hk in Hnd.
  apply NoDup_app in Hnd as (_ & Hd & _).
  assert (total f k' = 0); [|lia].
  assert (∀ x, x ∈ k' → f x = 0) as Hz'.
  { intros x Hx. apply Hz; [rewrite Hk; apply elem_of_app; by right|].
    intros Hin. by apply (Hd _ Hin). }
  clear -Hz'. induction k' as [|x k' IH]; [done|]. simpl.
  rewrite Hz' by by left. rewrite IH; [done|]. intros y Hy. apply Hz'. by right.
Qed.

Section Budget.
Context `{Host}.

(** The whole number of units a capability costs. *)
Definition units (c : capability) : Z :=
  match cap_estimatedCostUnits c with NInt z => z | _ => 0 end.

Definition whole_units (c : capability) : Prop :=
  cap_estimatedCostUnits c = NInt (units c) ∧ 0 <= units c.

(** What the action stored at a key costs if it may still run. *)
Definition cost_at (m : mutable_plan) (k : string) : Z :=
  match jm_get k (mp_actions m) with
  | Some a => if unblocked a then units (ma_capability a) else 0
  | None => 0
  end.

Definition whole_plan (m : mutable_plan) : Prop :=
  plan_wf m ∧ ∀ a, a ∈ jm_values (mp_actions m) → whole_units (ma_capability a).

Lemma stage_whole m m' : blocking_stage m m' → whole_plan m → whole_plan m'.
Proof.
  intros Hst [Hwf Hw]. destruct (Hst Hwf) as [Hwf' [_ Hm]]. split; [done|].
  intros a' (k & Hk)%elem_of_jm_values; [|apply Hwf'].
  apply Hm in Hk as (a & Ha & Hmore). destruct Hmore as [-> _]. simpl. apply (Hw a).
  apply elem_of_jm_values; [apply Hwf|eauto].
Qed.

Lemma whole_get m k a : whole_plan m → jm_get k (mp_actions m) = Some a → whole_units (ma_capability a).
Proof. intros [Hwf Hw] Hk. apply Hw, elem_of_jm_values; [apply Hwf|eauto]. Qed.

Lemma cost_at_nonneg m k : whole_plan m → 0 <= cost_at m k.
Proof.
  intros Hw. unfold cost_at. destruct (jm_get k _) as [a|] eqn:E; [|done].
  destruct (unblocked a); [|done]. by apply (whole_get _ _ _ Hw E).
Qed.

(** Later stages only block more. *)
Lemma cost_at_le m m' k :
  whole_plan m → blocking_stage m m' → cost_at m' k <= cost_at m k.
Proof.
  intros Hw Hst. destruct (Hst (proj1 Hw)) as [_ [_ Hm]]. unfold cost_at at 1.
  destruct (jm_get k (mp_actions m')) as [a'|] eqn:E; [|by apply cost_at_nonneg].
  destruct (unblocked a') eqn:Hu; [|by apply cost_at_nonneg].
  apply Hm in E as (a & Ha & Hmore). unfold cost_at. rewrite Ha.
  rewrite (blocks_more_unblocked _ _ Hmore Hu). destruct Hmore as [-> _]. simpl. lia.
Qed.

(** One action is paid for or blocked; the others do not change. *)
Lemma spend_action_units m r k m' rem :
  whole_plan m → 0 <= r → is_safe r = true →
  spend_action (m, NInt r) k = Ok (m', rem) →
  ∃ r', rem = NInt r' ∧ 0 <= r' ∧ cost_at m' k + r' = r ∧
    ∀ k', k' ≠ k → jm_get k' (mp_actions m') = jm_get k' (mp_actions m).
Proof.
  intros Hw Hr Hsafe. unfold spend_action, cost_at.
  destruct (jm_get k (mp_actions m)) as [a|] eqn:Ha.
  2: { intros [= <- <-]. exists r. rewrite Ha. split_and!; done || lia. }
  destruct (unblocked a) eqn:Hu.
  2: { intros [= <- <-]. exists r. rewrite Ha, Hu. split_and!; done || lia. }
  destruct (whole_get _ _ _ Hw Ha) as [Hc Hnn]. rewrite Hc, js_le_int.
  destruct (units (ma_capability a) <=? r) eqn:Hle.
  - intros Hrun. apply Ok_inj, pair_equal_spec in Hrun as [<- <-]. apply Z.leb_le in Hle. exists (r - units (ma_capability a)).
    rewrite Ha, Hu, js_sub_int by (unfold is_safe in *; lia). split_and!; done || lia.
  - intros Hrun. apply bind_Ok in Hrun as (st & Hst & Hrun). apply mret_Ok in Hrun as [= <- <-].
    apply blockAction_Ok in Hst as (_ & _ & Hb). exists r. simpl. rewrite jm_get_set_eq, Hb.
    split_and!; [done|done|lia|]. intros k' Hne. by apply jm_get_set_ne.
Qed.

Lemma spend_actions_units ks : ∀ m r m' rem,
  NoDup ks → whole_plan m → 0 <= r → is_safe r = true →
  foldM spend_action (m, NInt r) ks = Ok (m', rem) →
  ∃ r', rem = NInt r' ∧ 0 <= r' ∧ total (cost_at m') ks + r' = r ∧
    ∀ k', k' ∉ ks → jm_get k' (mp_actions m') = jm_get k' (mp_actions m).
Proof.
  induction ks as [|k ks IH]; intros m r m' rem Hnd Hw Hr Hsafe Hrun; cbn [foldM] in Hrun.
  - apply Ok_inj in Hrun as [= <- <-]. exists r. simpl. split_and!; done || lia.
  - apply NoDup_cons in Hnd as [Hk Hnd]. apply bind_Ok in Hrun as ([m1 rem1] & H1 & Hrun).
    pose proof (spend_action_stage _ _ _ H1) as Hst.
    apply spend_action_units in H1 as (r1 & -> & Hr1 & Hsum & Hsame); [|done..].
    pose proof (cost_at_nonneg m1 k (stage_whole _ _ Hst Hw)) as Hnn.
    apply IH in Hrun as (r' & -> & Hr' & Hsum' & Hsame');
      [|done|by eapply stage_whole|done|unfold is_safe in *; lia].
    exists r'. split_and!; [done|done| |].
    + cbn [total foldr]. assert (cost_at m' k = cost_at m1 k) as ->.
      { unfold cost_at. by rewrite Hsame'. }
      unfold total in Hsum'. lia.
    + intros k' Hk'. apply not_elem_of_cons in Hk' as [Hne Hn].
      by rewrite Hsame', Hsame.
Qed.

(** What may still run after the cost budget fits the available units. *)
Lemma applyCostBudget_units m batches r m' :
  whole_plan m → createReadyBatches (mp_actions m) = Ok batches →
  0 <= r → is_safe r = true → applyCostBudget batches (NInt r) m = Ok m' →
  total (cost_at m') (jm_keys (mp_actions m')) <= r.
Proof.
  intros Hw Hb Hr Hsafe Hrun. pose proof (applyCostBudget_stage _ _ _ _ Hrun) as Hst.
  unfold applyCostBudget in Hrun. rewrite foldM_nested in Hrun.
  apply bind_Ok in Hrun as ([m1 rem] & H1 & Hrun). apply mret_Ok in Hrun as <-. simpl in *.
  change (concat (bat_actionIds <$> batches)) with (batched batches) in H1.
  destruct Hw as [Hwf Hw].
  destruct (ready_batches_cases (mp_actions m)) as [(bs & Hbs & Hinv & Hall)|[Ht _]];
    [apply Hwf| |congruence]. rewrite Hb in Hbs. apply Ok_inj in Hbs as <-.
  destruct Hinv as [_ Hnd _ _ _].
  apply spend_actions_units in H1 as (r' & _ & Hr' & Hsum & Hsame); [|done..].
  destruct (Hst Hwf) as [Hwf' [Hkeys Hm]].
  rewrite (total_sub _ (batched batches)); [lia|done| | |apply Hwf'].
  - apply NoDup_submseteq; [done|]. intros x Hx. rewrite Hall in Hx.
    apply list_elem_of_fmap in Hx as (a & -> & Ha). apply elem_of_eligible in Ha as [Ha _].
    rewrite Hkeys, <- actions_wf_ids by apply Hwf. by apply list_elem_of_fmap_2.
  - intros k _ Hk. unfold cost_at. rewrite Hsame by done.
    destruct (jm_get k (mp_actions m)) as [a|] eqn:Ha; [|done].
    destruct (unblocked a) eqn:Hu; [|done]. exfalso. apply Hk. rewrite Hall.
    rewrite <- (actions_wf_get (mp_actions m) k a); [|apply Hwf|done].
    apply list_elem_of_fmap_2, elem_of_eligible. split; [|done].
    apply elem_of_jm_values; [apply Hwf|eauto].
Qed.

(** ** The projection of a plan *)

Lemma runnable_costs l :
  (∀ a, a ∈ l → whole_units (ma_capability a)) →
  act_estimatedCostUnits <$> List.filter runnable (freeze_action <$> l)
  = NInt <$> ((λ a, units (ma_capability a)) <$> List.filter unblocked l).
Proof.
  induction l as [|a l IH]; intros Hl; [done|]. rewrite fmap_cons. cbn [List.filter].
  rewrite runnable_freeze.
  assert (∀ b, b ∈ l → whole_units (ma_capability b)) as Hl' by (intros; apply Hl; by right).
  destruct (unblocked a); [|by apply IH]. rewrite !fmap_cons, IH by done.
  f_equal. simpl. apply Hl. by left.
Qed.

Lemma total_fmap {A B} (f : B → Z) (g : A → B) l : total f (g <$> l) = total (λ x, f (g x)) l.
Proof. induction l as [|x l IH]; [done|]. rewrite fmap_cons. simpl. by rewrite IH. Qed.

Lemma total_filter {A} (f : A → Z) (p : A → bool) l :
  total f (List.filter p l) = total (λ x, if p x then f x else 0) l.
Proof. induction l as [|x l IH]; [done|]. simpl. destruct (p x); simpl; lia. Qed.

(** The keys' costs are the actions' costs. *)
Lemma total_cost_at m :
  actions_wf (mp_actions m) →
  total (cost_at m) (jm_keys (mp_actions m)) =
  total (λ a, if unblocked a then units (ma_capability a) else 0) (jm_values (mp_actions m)).
Proof.
  intros Hwf. rewrite <- actions_wf_ids by done. rewrite total_fmap. apply total_ext.
  intros a (k & Hk)%elem_of_jm_values; [|apply Hwf]. unfold cost_at.
  by rewrite (actions_wf_get _ _ _ Hwf Hk), Hk.
Qed.

Lemma planned_units m :
  whole_plan m → is_safe (total (cost_at m) (jm_keys (mp_actions m))) = true →
  sum_of (act_estimatedCostUnits <$> List.filter runnable (freezeActions (mp_actions m)))
  = NInt (total (cost_at m) (jm_keys (mp_actions m))).
Proof.
  intros [Hwf Hw] Hsafe. unfold freezeActions, sum_of.
  rewrite runnable_costs; [|intros a Ha; rewrite js_sort_perm in Ha; by apply Hw].
  set (l := List.filter unblocked _).
  assert (foldr Z.add 0 ((λ a, units (ma_capability a)) <$> l)
          = total (cost_at m) (jm_keys (mp_actions m))) as E.
  { change (foldr Z.add 0) with (total (λ z : Z, z)). rewrite total_fmap. unfold l.
    rewrite total_filter, total_cost_at by apply Hwf. apply total_perm, js_sort_perm. }
  rewrite sum_of_int; rewrite ?E; try done.
  apply Forall_forall. intros z (a & -> & Ha)%list_elem_of_fmap. unfold l in Ha.
  apply elem_of_bfilter in Ha as [Ha _]. rewrite js_sort_perm in Ha. by apply Hw.
Qed.

Lemma plan_blocked_whole rq m :
  Forall whole_units (rq_capabilities rq) → plan_blocked rq = Ok m → whole_plan m.
Proof.
  intros Hw ([[Hwf Hl] _] & _)%plan_blocked_Ok. split; [done|].
  intros a Ha. destruct (Hl a Ha) as (Hc & _). rewrite Forall_forall in Hw. by apply Hw.
Qed.

(** The keys that remain cost no more than the keys that were paid for. *)
Lemma later_cost m m' :
  whole_plan m → blocking_stage m m' →
  total (cost_at m') (jm_keys (mp_actions m')) <= total (cost_at m) (jm_keys (mp_actions m)).
Proof.
  intros Hw Hst. destruct (Hst (proj1 Hw)) as [_ [-> _]]. apply total_le.
  intros k _. by apply cost_at_le.
Qed.

Lemma plan_budgeted_units rq m batches r :
  Forall whole_units (rq_capabilities rq) → available_units rq = NInt r →
  0 <= r → is_safe r = true → plan_budgeted rq = Ok (m, batches) →
  whole_plan m ∧ total (cost_at m) (jm_keys (mp_actions m)) <= r.
Proof.
  intros Hw Hav Hr Hsafe Hrun. apply bind_Ok in Hrun as (m1 & H1 & Hrun).
  apply bind_Ok in Hrun as (b1 & Hb1 & Hrun). apply bind_Ok in Hrun as (m2 & H2 & Hrun).
  apply bind_Ok in Hrun as (m3 & H3 & Hrun). apply bind_Ok in Hrun as (b3 & H4 & Hrun).
  apply plan_blocked_whole in H1 as Hw1; [|done]. rewrite Hav in H2.
  pose proof (applyCostBudget_units _ _ _ _ Hw1 Hb1 Hr Hsafe H2) as Hcost.
  apply applyCostBudget_stage in H2. apply cascade_Ok in H3 as [H3 _].
  pose proof (stage_whole _ _ H2 Hw1) as Hw2. pose proof (stage_whole _ _ H3 Hw2) as Hw3.
  pose proof (later_cost _ _ Hw2 H3).
  destruct (available_duration rq) as [d|]; [|injection Hrun as <- <-; split; [done|lia]].
  apply bind_Ok in Hrun as (m4 & H5 & Hrun). apply bind_Ok in Hrun as (m5 & H6 & Hrun).
  apply bind_Ok in Hrun as (b5 & H7 & Hrun). injection Hrun as <- <-.
  apply applyDurationBudget_stage in H5. apply cascade_Ok in H6 as [H6 _].
  pose proof (stage_whole _ _ H5 Hw3) as Hw4. pose proof (later_cost _ _ Hw3 H5).
  pose proof (later_cost _ _ Hw4 H6). split; [by eapply stage_whole|lia].
Qed.

(** ** Normalized costs *)

Lemma nonNegative_Ok v label z : nonNegativeNumber v label = Ok (NInt z) → 0 <= z.
Proof.
  unfold nonNegativeNumber. destruct v as [| | |n| | | |]; try done.
  destruct (is_finite_num n && negb (js_lt n (NInt 0))) eqn:E; [|done].
  intros [= ->]. apply andb_true_iff in E as [_ E%negb_true_iff]. unfold js_lt in E.
  rewrite js_compare_int in E. apply bool_decide_eq_false in E.
  destruct (Z.compare_spec z 0); [lia|done|lia].
Qed.

Lemma normalizeBudget_units value budget limit spent :
  normalizeBudget value = Ok budget →
  bud_limitUnits budget = NInt limit → bud_spentUnits budget = NInt spent →
  0 <= spent <= limit.
Proof.
  intros Hrun Hl Hs. unfold normalizeBudget in Hrun.
  apply bind_Ok in Hrun as (u & _ & Hrun). apply bind_Ok in Hrun as (l & Hlu & Hrun).
  apply bind_Ok in Hrun as (s & Hsu & Hrun). apply bind_Ok in Hrun as (u1 & Hle & Hrun).
  apply bind_Ok in Hrun as (ld & _ & Hrun). apply bind_Ok in Hrun as (sd & _ & Hrun).
  apply bind_Ok in Hrun as (d & _ & Hrun). apply mret_Ok in Hrun as <-. simpl in *. subst.
  apply nonNegative_Ok in Hsu. apply ensure_Ok in Hle. apply negb_true_iff in Hle.
  unfold js_lt in Hle. rewrite js_compare_int in Hle. apply bool_decide_eq_false in Hle.
  destruct (Z.compare_spec limit spent); [lia|done|lia].
Qed.

Lemma map_indexed_Forall {A B} (f : A → nat → result B) (P : B → Prop) l k :
  (∀ x i y, f x i = Ok y → P y) → map_indexed f l = Ok k → Forall P k.
Proof.
  intros Hf Hrun. apply mapM_Ok in Hrun. apply Forall_forall. intros y Hy.
  apply list_elem_of_lookup in Hy as [i Hi].
  eapply Forall2_lookup_r in Hrun as ([j x] & _ & Hx); [|exact Hi]. by eapply Hf.
Qed.

Lemma normalizeCapability_cost value index c z :
  normalizeCapability value index = Ok c → cap_estimatedCostUnits c = NInt z → 0 <= z.
Proof.
  unfold normalizeCapability. intros Hrun Hz.
  do 11 (apply bind_Ok in Hrun as (? & _ & Hrun)).
  apply bind_Ok in Hrun as (? & _ & Hrun). apply bind_Ok in Hrun as (cost & Hcost & Hrun).
  apply bind_Ok in Hrun as (? & _ & Hrun). apply mret_Ok in Hrun as <-. simpl in Hz. subst.
  by eapply nonNegative_Ok.
Qed.

Lemma normalizeCapabilities_Ok value capabilities :
  normalizeCapabilities value = Ok capabilities →
  ∃ l cs, bounded_array value 1000 = Some l ∧ map_indexed normalizeCapability l = Ok cs ∧
    capabilities ≡ₚ cs.
Proof.
  intros Hrun. apply bind_Ok in Hrun as (l & Hl%of_option_Ok & Hrun).
  apply bind_Ok in Hrun as (cs & Hcs & Hrun). apply bind_Ok in Hrun as (ids & _ & Hrun).
  apply bind_Ok in Hrun as (u & _ & Hrun). apply bind_Ok in Hrun as (vd & _ & Hrun).
  apply mret_Ok in Hrun as <-. exists l, cs. split_and!; [done..|]. apply js_sort_perm.
Qed.

Lemma normalized_whole value capabilities :
  normalizeCapabilities value = Ok capabilities →
  Forall (λ c, cap_estimatedCostUnits c = NInt (units c)) capabilities →
  Forall whole_units capabilities.
Proof.
  intros (l & cs & _ & Hcs & Hp)%normalizeCapabilities_Ok Hint. rewrite Hp in *.
  eapply (map_indexed_Forall _ (λ c, ∀ z, cap_estimatedCostUnits c = NInt z → 0 <= z)) in Hcs;
    [|intros ??? Hc z; by eapply normalizeCapability_cost].
  rewrite Forall_forall in *. intros c Hc. split; [by apply Hint|]. by eapply Hcs, Hint.
Qed.

(** C27: With a budget and costs in whole units a plan never projects more
    units than are available: the available units are the limit less what is
    spent, and the planned units lie between zero and them. *)
Theorem plan_within_budget input plan capabilities budget limit spent :
  createResearchDirectorPlan input = Ok plan →
  normalizeCapabilities (pi_capabilities input) = Ok capabilities →
  normalizeBudget (pi_budget input) = Ok budget →
  bud_limitUnits budget = NInt limit → bud_spentUnits budget = NInt spent →
  is_safe limit = true →
  Forall (λ c, cap_estimatedCostUnits c = NInt (units c)) capabilities →
  let projection := pl_budgetProjection (pl_body plan) in
  bp_availableUnits projection = NInt (limit - spent) ∧
  ∃ planned, bp_plannedUnits projection = NInt planned ∧ 0 <= planned <= limit - spent.
Proof.
  intros (rq & m & Hmade)%createPlan_Ok Hcaps Hbud Hl Hs Hsafe Hint projection.
  pose proof (normalizeBudget_units _ _ _ _ Hbud Hl Hs) as Hle.
  pose proof (normalized_whole _ _ Hcaps Hint) as Hw.
  pose proof (made_request _ _ _ _ Hmade) as Hrq. unfold read_request in Hrq.
  rewrite Hcaps, Hbud in Hrq.
  assert (rq_capabilities rq = capabilities ∧ rq_budget rq = budget) as [Ec Eb]
    by (inv_result; done).
  assert (available_units rq = NInt (limit - spent)) as Hav.
  { unfold available_units. rewrite Eb, Hl, Hs. apply js_sub_int. unfold is_safe in *. lia. }
  pose proof (made_budgeted _ _ _ _ Hmade) as Hb.
  apply (plan_budgeted_units _ _ _ (limit - spent)) in Hb as [Hwm Hcost];
    [|by rewrite Ec|done|lia|unfold is_safe in *; lia].
  assert (0 <= total (cost_at m) (jm_keys (mp_actions m)))
    by (apply total_nonneg; intros; by apply cost_at_nonneg).
  unfold projection. rewrite (made_projection _ _ _ _ Hmade). simpl. split; [done|].
  rewrite (made_actions _ _ _ _ Hmade). fold runnable.
  eexists. split; [apply planned_units; [done|unfold is_safe in *; lia]|lia].
Qed.
End Budget.

Lemma plan_within_budget_witness :
  bp_availableUnits (pl_budgetProjection (pl_body sample_plan)) = NInt 8 ∧
  ∃ planned, bp_plannedUnits (pl_budgetProjection (pl_body sample_plan)) = NInt planned ∧
    0 <= planned <= 8.
Proof.
  apply (plan_within_budget sample_plan_input sample_plan sample_capabilities sample_budget 10 2
    sample_plan_ok sample_capabilities_ok sample_budget_ok); [done..|].
  repeat constructor.
Defined.
