(* ===== verification/DirectorReview.v ===== *)
(** * Correctness of validation, seals and decisions

    The theorems about the capability graph's check, the audit seal of a plan
    and [createResearchDirectorDecision]: which receipts it accepts, how the
    decision is ranked, and which actions it names next. *)

From S2P Require Import Prelude Digraph Host JsValue ArtifactTypes Samples ArtifactGraph RepoModel RepoJson Numbers DirectorTypes DirectorValidation DirectorPlan DirectorDecision DirectorBatches DirectorInvariant DirectorLinks DirectorStages DirectorSamples DirectorBudget.

(** ** The capability graph *)

Section Capabilities.
Context `{Host}.
Implicit Types capabilities : list capability.

Definition depends_on capabilities (x y : string) : Prop :=
  ∃ c, c ∈ capabilities ∧ cap_id c = x ∧ y ∈ cap_dependsOn c.

Definition graph_accepted capabilities : Prop :=
  NoDup (cap_id <$> capabilities) ∧
  (∀ c d, c ∈ capabilities → d ∈ cap_dependsOn c →
     d ≠ cap_id c ∧ d ∈ cap_id <$> capabilities) ∧
  ∀ x, ¬ tc (depends_on capabilities) x x.

Lemma add_ids_Ok capabilities : ∀ ids ids',
  foldM add_capability_id ids capabilities = Ok ids' ↔
  NoDup (cap_id <$> capabilities) ∧ (∀ x, x ∈ cap_id <$> capabilities → x ∉ ids) ∧
  ids' = ids ++ (cap_id <$> capabilities).
Proof.
  induction capabilities as [|c l IH]; intros ids ids'.
  - cbn. rewrite app_nil_r. split; [intros [= <-]; split_and!; [constructor|set_solver|done]|].
    by intros (_ & _ & ->).
  - cbn [foldM]. rewrite fmap_cons, NoDup_cons, bind_Ok. split.
    + intros (ids1 & H1 & Hrun). unfold add_capability_id in H1.
      apply bind_Ok in H1 as (u & Hn%ensure_Ok%bool_decide_eq_true & H1).
      apply (proj1 (mret_Ok _ _)) in H1. unfold set_add in H1. rewrite decide_False in H1 by done. subst ids1.
      apply IH in Hrun as (Hnd & Hd & ->). split_and!; [|done| |by rewrite <- app_assoc].
      * intros Hin. apply (Hd _ Hin). apply elem_of_app. right. by left.
      * intros x [->|Hx]%elem_of_cons; [done|]. specialize (Hd x Hx). set_solver.
    + intros ((Hc & Hnd) & Hd & ->). exists (ids ++ [cap_id c]).
      assert (cap_id c ∉ ids) as Hn by (apply Hd; by left). split.
      * unfold add_capability_id. rewrite bool_decide_eq_true_2 by done. simpl.
        unfold set_add. by rewrite decide_False.
      * apply IH. split_and!; [done| |by rewrite <- app_assoc].
        intros x Hx [Hi| ->%list_elem_of_singleton]%elem_of_app; [|done].
        apply (Hd x); [by right|done].
Qed.

Lemma foldM_unit_Ok {A} (f : A → result unit) l :
  foldM (λ _ x, f x) tt l = Ok tt ↔ ∀ x, x ∈ l → f x = Ok tt.
Proof.
  induction l as [|x l IH]; cbn [foldM]; [split; [by intros _ ? ?%elem_of_nil|done]|].
  rewrite bind_Ok. split.
  - intros ([] & Hx & Hl) y [->|Hy]%elem_of_cons; [done|]. by apply IH.
  - intros Hall. exists tt. split; [apply Hall; by left|]. apply IH. intros. apply Hall. by right.
Qed.

Lemma check_dependency_Ok ids c d :
  check_dependency ids c d = Ok tt ↔ d ≠ cap_id c ∧ d ∈ ids.
Proof.
  unfold check_dependency. rewrite bind_Ok. split.
  - intros (u & Hn%ensure_Ok & Hi%ensure_Ok). apply negb_true_iff, String.eqb_neq in Hn.
    by apply bool_decide_eq_true in Hi.
  - intros [Hn Hi]. exists tt. rewrite !ensure_Ok. split; [|by apply bool_decide_eq_true].
    by apply negb_true_iff, String.eqb_neq.
Qed.

Lemma dependencies_edge capabilities x y :
  NoDup (cap_id <$> capabilities) →
  edge (dependencies_of capabilities) x y ↔ depends_on capabilities x y.
Proof.
  intros Hnd. unfold edge, dependencies_of, depends_on.
  rewrite (jm_get_fold cap_id cap_dependsOn). split.
  - destruct (last _) as [c|] eqn:E; [|by intros ?%elem_of_nil]. cbn [default].
    apply last_Some_elem_of, list_elem_of_filter in E as [Hid Hc]. eauto.
  - intros (c & Hc & <- & Hy). by rewrite (last_filter_unique cap_id capabilities c).
Qed.

Lemma capability_graph_check capabilities :
  NoDup (cap_id <$> capabilities) →
  (∀ c d, c ∈ capabilities → d ∈ cap_dependsOn c → d ∈ cap_id <$> capabilities) →
  (∃ vd, assertCapabilityGraphAcyclic capabilities = Ok vd) ↔
  ∀ x, ¬ tc (depends_on capabilities) x x.
Proof.
  intros Hnd Hknown.
  assert (∀ x y, tc (edge (dependencies_of capabilities)) x y ↔ tc (depends_on capabilities) x y)
    as Htc by (intros; apply tc_iff; intros; by apply dependencies_edge).
  unfold assertCapabilityGraphAcyclic. split.
  - intros [vd Hrun] x Hx. assert (x ∈ cap_id <$> capabilities) as Hin.
    { inversion Hx as [? ? (c & Hc & <- & _)|? ? ? (c & Hc & <- & _)]; subst;
        by apply list_elem_of_fmap_2. }
    eapply Acc_no_cycle; [eapply assert_acyclic_sound; [exact Hrun|]|by apply Htc].
    by rewrite js_sort_perm, elem_of_dedup.
  - intros Hacyc. destruct (assert_acyclic _ _ _ _) as [vd|e] eqn:Hrun; [eauto|]. exfalso.
    eapply (assert_acyclic_complete _ _ (list_to_set (cap_id <$> capabilities))) in Hrun
      as (z & _ & Hz).
    + by apply (Hacyc z), Htc.
    + intros x y Hxy. apply dependencies_edge in Hxy as (c & Hc & _ & Hy); [|done].
      apply elem_of_list_to_set. by eapply Hknown.
    + intros x Hx. rewrite js_sort_perm, elem_of_dedup in Hx. by apply elem_of_list_to_set.
    + rewrite size_list_to_set by done. rewrite length_fmap. lia.
Qed.

(** P: A list of capabilities that are valid one by one is accepted exactly
    when their ids are distinct, each depends on other listed capabilities
    only, and no capability depends on itself through others; what is returned
    are those capabilities, in the order of their ids. *)
Theorem capabilities_accepted_iff value l cs :
  bounded_array value 1000 = Some l → map_indexed normalizeCapability l = Ok cs →
  (graph_accepted cs →
     normalizeCapabilities value = Ok (js_sort (cmp_on cap_id compareText) cs)) ∧
  (¬ graph_accepted cs → ∃ e, normalizeCapabilities value = Throw e).
Proof.
  intros Hl Hcs. unfold normalizeCapabilities. rewrite Hl. cbn [of_option].
  cbn [mbind result_bind]. rewrite Hcs. cbn [mbind result_bind].
  split.
  - intros (Hnd & Hdeps & Hacyc).
    rewrite (proj2 (add_ids_Ok cs [] (cap_id <$> cs)))
      by (split_and!; [done|by intros ? _ ?%elem_of_nil|done]).
    cbn [mbind result_bind].
    assert (foldM (λ _ c, foldM (λ _ d, check_dependency (cap_id <$> cs) c d) tt (cap_dependsOn c))
      tt cs = Ok tt) as ->.
    { apply foldM_unit_Ok. intros c Hc. apply foldM_unit_Ok. intros d Hd.
      apply check_dependency_Ok. by apply Hdeps. }
    cbn [mbind result_bind].
    destruct (proj2 (capability_graph_check cs Hnd (λ c d Hc Hd, proj2 (Hdeps c d Hc Hd))) Hacyc)
      as [vd ->]. done.
  - intros Hno. destruct (_ ≫= _) as [out|e] eqn:Hrun; [|eauto]. exfalso. apply Hno.
    apply bind_Ok in Hrun as (ids & Hids & Hrun). apply bind_Ok in Hrun as ([] & Hd & Hrun).
    apply bind_Ok in Hrun as (vd & Hacyc & _).
    apply add_ids_Ok in Hids as (Hnd & _ & ->). cbn [app] in Hd.
    assert (∀ c d, c ∈ cs → d ∈ cap_dependsOn c → d ≠ cap_id c ∧ d ∈ cap_id <$> cs) as Hdeps.
    { intros c d Hc Hin. eapply foldM_unit_Ok in Hd; [|exact Hc].
      eapply foldM_unit_Ok in Hd; [|exact Hin]. by apply check_dependency_Ok. }
    split_and!; [done|done|]. apply capability_graph_check; [done| |by eexists].
    intros c d Hc Hin. by apply (Hdeps c d Hc Hin).
Qed.
End Capabilities.

(** ** The audit seal *)

Section Seal.
Context `{Host}.

Definition stage_free (v : jsval) : Prop := assertNoFixedStageFields v = Ok tt.

Lemma stage_free_arr l : Forall stage_free l → stage_free (JArr l).
Proof.
  intros Hl. apply bind_Ok. exists (const tt <$> l). split; [|done]. apply mapM_Ok.
  induction Hl as [|v l Hv _ IH]; [constructor|]. by constructor.
Qed.

Lemma stage_free_obj fields :
  Forall (λ kv : string * jsval, kv.1 ≠ "currentStage" ∧ kv.1 ≠ "nextStageId" ∧ stage_free kv.2)
    fields → stage_free (JObj fields).
Proof.
  intros Hl. apply bind_Ok. exists (const tt <$> fields). split; [|done]. apply mapM_Ok.
  induction Hl as [|[k v] l (Hc & Hn & Hv) _ IH]; [constructor|]. constructor; [|done].
  unfold id. cbn [fst snd] in *.
  rewrite (proj2 (String.eqb_neq _ _) Hc), (proj2 (String.eqb_neq _ _) Hn). exact Hv.
Qed.

Lemma stage_free_map {A} (f : A → jsval) l :
  (∀ x, stage_free (f x)) → stage_free (JArr (map f l)).
Proof.
  intros Hf. apply stage_free_arr, Forall_forall. intros v Hv.
  apply list_elem_of_In, in_map_iff in Hv as (x & <- & _). apply Hf.
Qed.

(** The fixed shape of a record's fields, optional ones included. *)
Ltac stage_fields :=
  repeat match goal with
  | |- stage_free (JObj _) => apply stage_free_obj
  | |- stage_free (JArr (map _ _)) => apply stage_free_map; intros ?
  | |- stage_free (strings_json _) => apply stage_free_map; intros ?
  | |- stage_free (refs_json _) => apply stage_free_map; intros ?
  | |- stage_free (kinds_json _) => apply stage_free_map; intros ?
  | |- Forall _ (_ ++ _) => apply Forall_app; split
  | |- Forall _ (opt_field _ _ ?o) => destruct o; cbn [opt_field]
  | |- Forall _ (_ :: _) => apply Forall_cons; split; [split_and!; [done|done|cbn [snd]]|]
  | |- Forall _ [] => constructor
  | |- stage_free (JStr _) => reflexivity
  | |- stage_free (JNum _) => reflexivity
  | |- stage_free (JBool _) => reflexivity
  end.

Lemma stage_free_ref r : stage_free (ref_to_json r).
Proof. unfold ref_to_json. stage_fields. Qed.

Lemma stage_free_boundary b : stage_free (boundary_to_json b).
Proof. unfold boundary_to_json, boundary_body_fields. stage_fields; apply stage_free_ref. Qed.

Lemma stage_free_action a : stage_free (action_to_json a).
Proof. unfold action_to_json. stage_fields; apply stage_free_ref. Qed.

Lemma stage_free_plan plan : stage_free (plan_to_json plan).
Proof.
  unfold plan_to_json, plan_body_fields, time_json, goal_to_json, projection_to_json, batch_to_json.
  stage_fields;
    lazymatch goal with
    | |- stage_free (ref_to_json _) => apply stage_free_ref
    | |- stage_free (action_to_json _) => apply stage_free_action
    | |- stage_free (boundary_to_json _) => apply stage_free_boundary
    end.
Qed.

Context `{!HostLaws _}.

Lemma str_slice_forallb p i j s :
  str_forallb p s = true → str_forallb p (str_slice i j s) = true.
Proof. apply str_forallb_substring. Qed.

Lemma hex_identifier c : is_hex c = true → is_identifier_char c = true.
Proof.
  unfold is_hex. intros [Hd|Hl]%orb_true_iff; [by apply digit_identifier_char|].
  assert (is_lower c = true) as Hc.
  { unfold is_lower, in_range in *. apply andb_true_iff in Hl as [? ?%N.leb_le].
    apply andb_true_iff. split; [done|]. apply N.leb_le. lia. }
  unfold is_identifier_char, is_alnum. by rewrite Hc, !orb_true_r.
Qed.

(** A record id behind a short safe prefix is a safe identifier. *)
Lemma directorRecordId_safe prefix v id :
  is_safe_identifier prefix = true → (String.length prefix ≤ 200)%nat →
  directorRecordId prefix v = Ok id → is_safe_identifier id = true.
Proof.
  intros Hp Hlen Hrun. apply bind_Ok in Hrun as (h & Hh & Hrun).
  apply (proj1 (mret_Ok _ _)) in Hrun. subst id.
  unfold hashResearchArtifactContent in Hh. apply bind_Ok in Hh as (text & _ & Hh).
  apply (proj1 (mret_Ok _ _)) in Hh. subst h.
  assert (str_forallb is_identifier_char ("sha256:" +:+ sha256_hex text) = true) as Hall.
  { rewrite str_forallb_append. apply andb_true_iff. split; [reflexivity|].
    eapply str_forallb_weaken; [exact hex_identifier|apply sha256_hex_digits]. }
  apply (str_slice_forallb _ 7 31) in Hall.
  pose proof (length_substring ("sha256:" +:+ sha256_hex text) 7 24) as Hl.
  change (String.substring 7 24 ?s) with (str_slice 7 31 s) in Hl.
  set (tail := str_slice 7 31 _) in *. clearbody tail.
  unfold is_safe_identifier in *. destruct prefix as [|c prefix]; [done|].
  rewrite append_cons. apply andb_true_iff in Hp as [[Hc Hs]%andb_true_iff _].
  rewrite Hc, !str_forallb_append, Hs. rewrite Hall. apply andb_true_iff. split; [done|].
  apply Nat.leb_le. cbn [String.length] in *. rewrite !length_append. cbn [String.length]. lia.
Qed.

(** C29: A plan passes the decision's checks of it: its audit hash, its id and
    its time are accepted and it has no fixed stage field; and the hash is
    bound to the contents, since another body is accepted under it only when
    it has the same content hash. *)
Theorem plan_seal_accepted input plan body :
  createResearchDirectorPlan input = Ok plan →
  is_time_value (pl_createdAt (pl_body plan)) = true →
  assertPlanRecord plan = Ok plan ∧
  assertNoFixedStageFields (plan_to_json plan) = Ok tt ∧
  (is_ok (assertPlanRecord (mkPlan body (pl_auditHash plan))) = true →
     hashResearchArtifactContent (JObj (plan_body_fields body)) =
     hashResearchArtifactContent (JObj (plan_body_fields (pl_body plan)))).
Proof.
  intros (rq & m & Hmade)%createPlan_Ok Ht. pose proof (made_sealed _ _ _ _ Hmade) as Hseal.
  split_and!; [|apply stage_free_plan|].
  - assert (is_safe_identifier (pl_planId (pl_body plan)) = true) as Hid.
    { destruct (made_id _ _ _ _ Hmade) as [(_ & v & Hv)|Hv].
      - eapply directorRecordId_safe; [| |exact Hv]; [reflexivity|simpl; lia].
      - unfold identifier in Hv. destruct (pi_planId input); try done.
        destruct (is_safe_identifier s) eqn:E; [|done]. by injection Hv as <-. }
    unfold assertPlanRecord, identifier, isoDate, time_json. rewrite Hid. cbn [mbind result_bind].
    rewrite date_parse_iso by done. cbn [of_option mbind result_bind].
    rewrite (hash_is_content_hash _ _ Hseal). cbn [ensure mbind result_bind].
    rewrite Hseal. cbn [mbind result_bind]. by rewrite String.eqb_refl.
  - destruct (assertPlanRecord (mkPlan _ _)) as [p|e] eqn:Hp; [intros _|done]. unfold assertPlanRecord in Hp. cbn [pl_body pl_auditHash] in Hp.
    do 3 (apply bind_Ok in Hp as (? & _ & Hp)). apply bind_Ok in Hp as (h & Hh & Hp).
    apply bind_Ok in Hp as (u & Heq%ensure_Ok%String.eqb_eq & _). by rewrite Hh, Hseal, Heq.
Qed.
End Seal.

Lemma sample_graph_accepted : graph_accepted sample_capabilities.
Proof.
  assert (∀ c, c ∈ sample_capabilities → cap_dependsOn c = []) as Hnone.
  { unfold sample_capabilities. intros c Hc. rewrite !elem_of_cons in Hc.
    destruct Hc as [->|[->|[->|?%elem_of_nil]]]; done. }
  split_and!.
  - unfold sample_capabilities. cbn. repeat (constructor; [set_solver|]). constructor.
  - intros c d Hc Hd. rewrite Hnone in Hd by done. by apply elem_of_nil in Hd.
  - intros x Hx. inversion Hx as [? ? (c & Hc & _ & Hd)|? ? ? (c & Hc & _ & Hd)]; subst;
      rewrite Hnone in Hd by done; by apply elem_of_nil in Hd.
Qed.

Lemma capabilities_accepted_iff_witness :
  normalizeCapabilities (JArr sample_capability_values)
  = Ok (js_sort (cmp_on cap_id compareText) sample_capabilities).
Proof.
  apply (capabilities_accepted_iff (JArr sample_capability_values) sample_capability_values
    sample_capabilities).
  - reflexivity.
  - vm_compute. reflexivity.
  - exact sample_graph_accepted.
Defined.
