(* ===== verification/DirectorOutcomes.v ===== *)
(** * Correctness of the director's decisions

    Which receipts [createResearchDirectorDecision] accepts, how the decision
    ranks them, and which actions it names next; with evaluated runs of the
    planner and the decision. *)

From S2P Require Import Prelude Host JsValue ArtifactTypes Samples ArtifactGraph RepoModel Numbers DirectorTypes DirectorValidation DirectorPlan DirectorDecision DirectorBatches DirectorInvariant DirectorLinks DirectorStages DirectorSamples DirectorBudget DirectorReview.

(** ** The ranking *)

(** The signals of a receipt, the most urgent first. *)
Definition is_final_failure (r : execution_receipt) : bool :=
  has_status Failed r && retryable_is false r.

Definition is_closing (r : execution_receipt) : bool :=
  has_status Cancelled r || has_outcome ObjectiveSatisfied r.

Definition signals : list (execution_receipt → bool) :=
  [is_retried; is_final_failure; has_outcome ArtifactRevisionRequired;
   has_outcome EvidenceIncomplete; has_outcome CandidateRejected;
   has_outcome CandidateSupported; is_closing].

(** The position of the first test of [ps] that holds of [x]. *)
Fixpoint urgency {A} (ps : list (A → bool)) (x : A) : nat :=
  match ps with
  | [] => 0
  | p :: ps => if p x then 0 else S (urgency ps x)
  end.

Fixpoint first_signal {A} (ps : list (A → bool)) (l : list A) : nat :=
  match ps with
  | [] => 0
  | p :: ps => if existsb p l then 0 else S (first_signal ps l)
  end.

Lemma urgency_le {A} (ps : list (A → bool)) x : urgency ps x ≤ length ps.
Proof. induction ps as [|p ps IH]; simpl; [done|]. destruct (p x); lia. Qed.

(** Testing signal by signal finds the most urgent element's urgency. *)
Lemma first_signal_min {A} (ps : list (A → bool)) l :
  first_signal ps l = foldr (λ x m, Nat.min (urgency ps x) m) (length ps) l.
Proof.
  induction ps as [|p ps IH].
  - simpl. induction l as [|x l IHl]; [done|]. simpl. lia.
  - cbn [first_signal]. rewrite IH. clear IH.
    induction l as [|x l IHl]; [done|]. cbn [existsb foldr].
    rewrite <- IHl. cbn [urgency]. destruct (p x); [done|]. cbn [orb].
    destruct (existsb p l); lia.
Qed.

Lemma existsb_or {A} (p q : A → bool) l : existsb (λ x, p x || q x) l = existsb p l || existsb q l.
Proof.
  induction l as [|x l IH]; [done|]. simpl. rewrite IH. by destruct (p x), (q x), (existsb p l).
Qed.

(** The decision of an urgency, and of none. *)
Definition ranked_decision (urgency : nat) (has_pending : bool) : decision_kind :=
  match urgency with
  | 0 => Recover | 1 => Eliminate | 2 => Revise | 3 => Rescan
  | 4 => Eliminate | 5 => Branch | 6 => Stop
  | _ => if has_pending then Branch else Stop
  end.

(** P: The decision is the one the most urgent receipt calls for, whatever
    the order of the receipts: retry, give up, revise, rescan, reject, branch,
    stop; without any such receipt it branches while actions are pending. *)
Theorem decide_by_most_urgent receipts plan :
  director_decide receipts plan =
  ranked_decision (foldr (λ r m, Nat.min (urgency signals r) m) (length signals) receipts)
    (0 <? length (pending_actions plan receipts))%nat.
Proof.
  rewrite <- first_signal_min. unfold director_decide, signals. cbn [first_signal].
  assert (existsb is_retried receipts =
    existsb (λ r, has_status Failed r && retryable_is true r) receipts
    || existsb (has_status BlockedReceipt) receipts) as ->.
  { rewrite orb_comm. apply existsb_or. }
  fold is_final_failure is_closing.
  destruct (_ || _); [done|]. destruct (existsb is_final_failure receipts); [done|].
  do 5 (destruct (existsb _ receipts); [done|]). done.
Qed.

(** ** Receipts *)

Section Receipts.
Context `{Host}.

(** What is checked of a receipt against the plan. *)
Definition receipt_valid (plan : plan_record) (r : execution_receipt) : Prop :=
  rec_planId r = pl_planId (pl_body plan) ∧
  (∃ a, a ∈ pl_actions (pl_body plan) ∧ act_id a = rec_actionId r ∧ runnable a = true ∧
     rec_capabilityId r = act_capabilityId a) ∧
  (rec_status r = Succeeded → rec_error r = None) ∧
  (rec_status r = Failed → is_Some (rec_error r)).

Definition receipts_valid (plan : plan_record) (receipts : list execution_receipt) : Prop :=
  NoDup (rec_receiptId <$> receipts) ∧ NoDup (rec_actionId <$> receipts) ∧
  Forall (receipt_valid plan) receipts.

Lemma map_with_inv {S A B} (P : S → list B → Prop) (f : S → A → nat → result (S * B)) s l k :
  P s [] → (∀ s k x i r, P s k → f s x i = Ok r → P r.1 (k ++ [r.2])) →
  map_with f s l = Ok k → ∃ s', P s' k.
Proof.
  intros H0 Hstep Hrun. apply bind_Ok in Hrun as ([s' k'] & Hrun & Hk).
  apply (proj1 (mret_Ok _ _)) in Hk. simpl in Hk. subst k'. exists s'.
  apply (foldM_inv (λ st, P st.1 st.2)) in Hrun; [done|done|].
  intros [s1 k1] [i x] [s2 k2] _ Hs Hx. cbn [fst snd] in *.
  apply bind_Ok in Hx as (r & Hr & Hx). apply (proj1 (mret_Ok _ _)) in Hx.
  apply pair_equal_spec in Hx as [<- <-]. by eapply Hstep.
Qed.

Lemma optional_error status v label e receiptId :
  check_receipt_error status v receiptId = Ok tt →
  optional (λ v, normalizeReceiptError v label) v = Ok e →
  (status = Succeeded → e = None) ∧ (status = Failed → is_Some e).
Proof.
  intros Hc Ho. split; intros ->; cbn [check_receipt_error] in Hc; apply ensure_Ok in Hc.
  - unfold optional in Ho. rewrite Hc in Ho. by apply Ok_inj in Ho.
  - unfold optional in Ho. apply negb_true_iff in Hc. rewrite Hc in Ho.
    apply bind_Ok in Ho as (x & _ & Ho). apply (proj1 (mret_Ok _ _)) in Ho. subst. eauto.
Qed.

Lemma is_str_Ok s v : is_str s v = true → v = JStr s.
Proof. destruct v; try done. simpl. by intros ->%bool_decide_eq_true. Qed.

Lemma normalizeReceipt_Ok plan seen v i out :
  normalizeReceipt plan (jm_index act_id (pl_actions (pl_body plan))) seen v i = Ok out →
  rec_receiptId out.2 ∉ seen.1 ∧ rec_actionId out.2 ∉ seen.2 ∧
  out.1 = (seen.1 ++ [rec_receiptId out.2], seen.2 ++ [rec_actionId out.2]) ∧
  receipt_valid plan out.2.
Proof.
  unfold normalizeReceipt. intros Hrun.
  apply bind_Ok in Hrun as (status & _ & Hrun). apply bind_Ok in Hrun as (rid & _ & Hrun).
  apply bind_Ok in Hrun as (u1 & Hrid%ensure_Ok%bool_decide_eq_true & Hrun).
  apply bind_Ok in Hrun as (u2 & _ & Hrun). apply bind_Ok in Hrun as (aid & _ & Hrun).
  apply bind_Ok in Hrun as (a & Ha%of_option_Ok & Hrun).
  apply bind_Ok in Hrun as (u3 & Haid%ensure_Ok%bool_decide_eq_true & Hrun).
  apply bind_Ok in Hrun as (u4 & Hb%ensure_Ok & Hrun). apply bind_Ok in Hrun as (u5 & _ & Hrun).
  apply bind_Ok in Hrun as ([] & Herr & Hrun). apply bind_Ok in Hrun as (outcome & _ & Hrun).
  apply bind_Ok in Hrun as (error & He & Hrun).
  do 4 (apply bind_Ok in Hrun as (? & _ & Hrun)).
  apply (proj1 (mret_Ok _ _)) in Hrun. subst out. cbn [fst snd rec_receiptId rec_actionId].
  apply jm_index_Some in Ha as [Ha Hid].
  split_and!; [done|done| |split_and!; cbn].
  - unfold set_add. by rewrite !decide_False.
  - done.
  - exists a. done.
  - by apply (optional_error _ _ _ _ _ Herr He).
  - by apply (optional_error _ _ _ _ _ Herr He).
Qed.

Lemma NoDup_snoc {A} (l : list A) x : NoDup l → x ∉ l → NoDup (l ++ [x]).
Proof.
  intros Hl Hx. apply NoDup_app. split; [done|]. split; [|apply NoDup_singleton].
  by intros y Hy ->%list_elem_of_singleton.
Qed.

Lemma normalizeExecutionReceipts_Ok values plan receipts :
  normalizeExecutionReceipts values plan = Ok receipts → receipts_valid plan receipts.
Proof.
  intros Hrun. apply bind_Ok in Hrun as (l & _ & Hrun).
  apply bind_Ok in Hrun as (rs & Hrs & Hrun). apply (proj1 (mret_Ok _ _)) in Hrun. subst receipts.
  eapply (map_with_inv (λ seen rs, seen = (rec_receiptId <$> rs, rec_actionId <$> rs) ∧
    receipts_valid plan rs)) in Hrs as (seen & _ & Hv).
  - destruct Hv as (H1 & H2 & H3). unfold receipts_valid.
    split_and!; by rewrite js_sort_perm.
  - split; [done|]. split_and!; constructor.
  - intros s k x i r [-> (H1 & H2 & H3)] (Hr & Ha & -> & Hv)%normalizeReceipt_Ok.
    cbn [fst snd] in *. rewrite !fmap_app. split; [done|]. split_and!.
    + rewrite fmap_app. by apply NoDup_snoc.
    + rewrite fmap_app. by apply NoDup_snoc.
    + apply Forall_app. split; [done|]. by apply Forall_singleton.
Qed.

(** ** The next actions *)

Lemma elem_of_uniqueSorted l x : x ∈ uniqueSorted l ↔ x ∈ l.
Proof. unfold uniqueSorted. by rewrite js_sort_perm, elem_of_dedup. Qed.

Lemma elem_of_actions_with p receipts x :
  x ∈ actions_with p receipts ↔ ∃ r, r ∈ receipts ∧ rec_actionId r = x ∧ p r = true.
Proof.
  unfold actions_with. rewrite elem_of_uniqueSorted, list_elem_of_fmap.
  setoid_rewrite elem_of_bfilter. naive_solver.
Qed.

Lemma elem_of_pending plan receipts a :
  a ∈ pending_actions plan receipts ↔
  a ∈ pl_actions (pl_body plan) ∧ runnable a = true ∧ act_id a ∉ rec_actionId <$> receipts.
Proof.
  unfold pending_actions, received_actions.
  rewrite elem_of_bfilter, andb_true_iff, bool_decide_eq_true, elem_of_dedup. done.
Qed.

(** When the decision names an action to run next. *)
Definition next_for (receipts : list execution_receipt) (decision : decision_kind) (id : string) :
    Prop :=
  match decision with
  | Recover => ∃ r, r ∈ receipts ∧ rec_actionId r = id ∧ is_retried r = true
  | Branch | Rescan | Revise => id ∉ rec_actionId <$> receipts
  | Eliminate | Stop => False
  end.

(** C30: A decision is made on receipts that belong to the plan: one at most
    per runnable action, of that action's capability, with an error exactly
    where one is due.  It names as next exactly the runnable actions to retry,
    when it recovers, or those without a receipt, when it branches, rescans or
    revises, each once; otherwise none. *)
Theorem decision_names_next input d :
  createResearchDirectorDecision input = Ok d →
  let plan := di_plan input in
  ∃ receipts, normalizeExecutionReceipts (di_receipts input) plan = Ok receipts ∧
    receipts_valid plan receipts ∧
    dec_decision (dec_body d) = director_decide receipts plan ∧
    dec_consumedReceiptIds (dec_body d) ≡ₚ rec_receiptId <$> receipts ∧
    NoDup (dec_nextActionIds (dec_body d)) ∧
    ∀ id, id ∈ dec_nextActionIds (dec_body d) ↔
      next_for receipts (dec_decision (dec_body d)) id ∧
      ∃ a, a ∈ pl_actions (pl_body plan) ∧ act_id a = id ∧ runnable a = true.
Proof.
  intros Hrun plan. apply bind_Ok in Hrun as (p & Hp & Hrun).
  assert (p = plan) as ->.
  { unfold assertPlanRecord in Hp. do 5 (apply bind_Ok in Hp as (? & _ & Hp)).
    by apply (proj1 (mret_Ok _ _)) in Hp. }
  apply bind_Ok in Hrun as (u & _ & Hrun). apply bind_Ok in Hrun as (receipts & Hr & Hrun).
  do 3 (apply bind_Ok in Hrun as (? & _ & Hrun)).
  apply bind_Ok in Hrun as (hash & _ & Hrun). apply (proj1 (mret_Ok _ _)) in Hrun. subst d.
  exists receipts. cbn [dec_body dec_decision dec_consumedReceiptIds dec_nextActionIds].
  pose proof (normalizeExecutionReceipts_Ok _ _ _ Hr) as Hv.
  split_and!; [done|done|done|apply js_sort_perm| |].
  - unfold next_actions, actions_with, uniqueSorted.
    destruct (director_decide receipts plan); rewrite ?js_sort_perm;
      try apply dedup_NoDup; constructor.
  - intros id. destruct Hv as (_ & _ & Hv). rewrite Forall_forall in Hv.
    assert (∀ x, x ∈ uniqueSorted (act_id <$> pending_actions plan receipts) ↔
      x ∉ rec_actionId <$> receipts ∧
      ∃ a, a ∈ pl_actions (pl_body plan) ∧ act_id a = x ∧ runnable a = true) as Hpend.
    { intros y. rewrite elem_of_uniqueSorted, list_elem_of_fmap.
      setoid_rewrite elem_of_pending. naive_solver. }
    assert (id ∈ ([] : list string) ↔ False ∧
      ∃ a, a ∈ pl_actions (pl_body plan) ∧ act_id a = id ∧ runnable a = true) as Hnone.
    { split; [by intros ?%elem_of_nil|by intros [[] _]]. }
    unfold next_actions, next_for.
    destruct (director_decide receipts plan); [apply Hpend|exact Hnone|apply Hpend|apply Hpend| |exact Hnone].
    rewrite elem_of_actions_with. split; [|by intros [? _]].
    intros (r & Hin & <- & Hret). split; [by exists r|].
    destruct (Hv r Hin) as (_ & (a & Ha & Hid & Hrun & _) & _). by exists a.
Qed.
End Receipts.

(** ** Runs *)

Definition sample_receipt (id : string) (action : director_action) (status : string)
    (extra : list (string * jsval)) : jsval :=
  JObj ([("receiptId", JStr id); ("planId", JStr "plan-1");
         ("actionId", JStr (act_id action)); ("capabilityId", JStr (act_capabilityId action));
         ("status", JStr status); ("outputArtifactRefs", JArr []);
         ("costUnits", JNum (NInt 3)); ("durationMs", JNum (NInt 8));
         ("completedAt", JStr (to_iso_string 7))] ++ extra).

(** The first action is done; the second is still to run. *)
Definition sample_decision_input : decision_input := Eval vm_compute in
  mkDecisionInput sample_plan
    (JArr (match pl_actions (pl_body sample_plan) with
           | a :: _ => [sample_receipt "r1" a "succeeded" []]
           | [] => []
           end)) JUndefined (JStr "decision-1") (Some 9%Z).

Definition blank_decision : decision_record :=
  mkDecision (mkDecisionBody "" "" 0 Stop "" [] [] [] [] [] [] [] [] (NInt 0) (NInt 0)) "".

Definition sample_decision : decision_record := Eval vm_compute in
  or_else blank_decision (createResearchDirectorDecision sample_decision_input).

Lemma sample_decision_ok :
  createResearchDirectorDecision sample_decision_input = Ok sample_decision.
Proof. vm_compute. reflexivity. Qed.

Lemma decision_names_next_witness :
  dec_decision (dec_body sample_decision) = Branch ∧
  dec_nextActionIds (dec_body sample_decision) = [act_id sample_action] ∧
  ∃ receipts, normalizeExecutionReceipts (di_receipts sample_decision_input) sample_plan = Ok receipts ∧
    receipts_valid sample_plan receipts.
Proof.
  split; [reflexivity|]. split; [reflexivity|].
  destruct (decision_names_next sample_decision_input sample_decision sample_decision_ok)
    as (receipts & Hr & Hv & _).
  exists receipts. split; [exact Hr|exact Hv].
Defined.

Lemma plan_seal_accepted_witness : assertPlanRecord sample_plan = Ok sample_plan.
Proof.
  apply (plan_seal_accepted sample_plan_input sample_plan (pl_body sample_plan) sample_plan_ok).
  reflexivity.
Defined.

(** A concern about a claim: the comment in [addRepairActions] says a boundary
    reports it, but the references are normalized first, which refuses a claim,
    so the whole plan fails. *)
Definition claim_concern : artifact_envelope :=
  mkEnvelope "f" 1 Finding Active 0 0 (a_contentHash sample_evidence)
    (a_producer sample_evidence) [] [] None
    (JObj [("assessment", JStr "concern");
           ("affectedArtifactRefs", JArr [JObj [("artifactId", JStr "claim-1");
              ("revision", JNum (NInt 1)); ("kind", JStr "claim");
              ("contentHash", JStr (a_contentHash sample_evidence))]])]).

Example claim_reference_stops_planning :
  createResearchDirectorPlan
    (mkPlanInput (pi_goal sample_plan_input) [sample_evidence] (Some [claim_concern])
       (pi_capabilities sample_plan_input) (pi_budget sample_plan_input)
       (pi_permissions sample_plan_input) JUndefined JUndefined (Some 5%Z))
  = Throw (TypeError "finding f affectedArtifactRefs[0] must be a valid research artifact reference.").
Proof. vm_compute. reflexivity. Qed.
