(* ===== verification/Eig.v ===== *)
(** * Planning by expected information gain

    src/src/research/director/eig: [estimateEig] (estimate.ts),
    [planByInformationGain] (planner.ts), [reconcileWithBeliefs]
    (reconcile.ts) and the anomaly detector with its boost
    (anomalyDetector.ts).  As in Beliefs.v numbers are exact fractions.  The
    texts of rationales and stop reasons are kept as the data they are printed
    from. *)

From Stdlib Require Import QArith Qabs Qminmax Lqa.
From S2P Require Import Prelude Host JsValue Beliefs.

Local Open Scope Q_scope.

(** ** Data (types.ts) *)

Inductive action_type :=
  | RunExperiment | LiteratureSearch | Review | WriteSection
  | FigureGeneration | PrincipleRevision | StopAction.

#[export] Instance action_type_eq_dec : EqDecision action_type.
Proof. solve_decision. Defined.

Record eig_action := EigAction {
  ea_type : action_type;
  ea_claimId : option string;
  ea_producesKinds : option (list string);
}.

(** What a rationale says: the numbers it prints. *)
Inductive eig_rationale :=
  | PrincipleRationale (aggregate factor : Q)
  | NoTargetRationale
  | WritingRationale
  | ClaimRationale (id : string) (uncertainty factor maturity : Q)
  | BoostedRationale (rationale : eig_rationale) (boost : Q).

Record eig_estimate := EigEstimate {
  es_action : eig_action;
  es_gain : Q;
  es_costUnits : Q;
  es_score : Q;
  es_rationale : eig_rationale;
}.

Inductive stop_reason :=
  | BelowThreshold (topScore threshold : Q)
  | NothingLeft
  | RemainingBelowThreshold (topScore threshold : Q)
  | BoostResumes (topScore : Q).

Record eig_plan := EigPlan {
  ep_computedAt : string;
  ep_ranked : list eig_estimate;
  ep_shouldStop : bool;
  ep_stopReason : option stop_reason;
}.

(** A number that may be infinite or NaN. *)
Inductive maybe_finite := FiniteNumber (q : Q) | NotFinite.

Record eig_deps := EigDeps {
  dp_actionCosts : action_type → option maybe_finite;
  dp_artifactCostModel : list (string * maybe_finite);
}.

Record estimate_options := EstimateOptions {
  eo_gainFactors : action_type → option maybe_finite;
  eo_aggregateUncertainty : option maybe_finite;
}.

Definition no_options : estimate_options := EstimateOptions (λ _, None) None.

(** ** Estimates (estimate.ts) *)

Definition DEFAULT_GAIN_FACTORS (t : action_type) : Q :=
  match t with
  | RunExperiment => 7 # 10 | LiteratureSearch => 35 # 100 | Review => 4 # 10
  | WriteSection => 0 | FigureGeneration => 1 # 10
  | PrincipleRevision => 5 # 10 | StopAction => 0
  end.

Definition DEFAULT_ACTION_COSTS (t : action_type) : Q :=
  match t with
  | RunExperiment => 10 | LiteratureSearch => 2 | Review => 3
  | WriteSection => 4 | FigureGeneration => 3 | PrincipleRevision => 8 | StopAction => 0
  end.

Definition finiteOr (value : option maybe_finite) (fallback : Q) : Q :=
  match value with Some (FiniteNumber q) => q | _ => fallback end.

(** [Math.max(0.25, 1 - evidenceCount * 0.05)]. *)
Definition maturity_discount (evidenceCount : nat) : Q :=
  Qmax (25 # 100) (1 - inject_Z (Z.of_nat evidenceCount) * (5 # 100)).

(** The gain and its rationale, by the kind of action. *)
Definition expected_gain (action : eig_action) (claim : option claim_belief) (gainFactor : Q)
    (options : estimate_options) : Q * eig_rationale :=
  if decide (ea_type action = PrincipleRevision) then
    let aggregate := finiteOr (eo_aggregateUncertainty options) 0 in
    (gainFactor * aggregate, PrincipleRationale aggregate gainFactor)
  else match claim with
  | None => (0, NoTargetRationale)
  | Some claim =>
      if decide (ea_type action = WriteSection) then (0, WritingRationale)
      else
        let maturityDiscount := maturity_discount (cb_evidenceCount claim) in
        (cb_uncertainty claim * gainFactor * maturityDiscount,
         ClaimRationale (cb_claimId claim) (cb_uncertainty claim) gainFactor maturityDiscount)
  end.

Definition artifact_cost (deps : eig_deps) (kinds : list string) : Q :=
  foldl (λ sum kind, sum + finiteOr (jm_get kind (dp_artifactCostModel deps)) 0) 0 kinds.

Definition estimateEig (action : eig_action) (claim : option claim_belief) (deps : eig_deps)
    (options : estimate_options) : eig_estimate :=
  let gainFactor := finiteOr (eo_gainFactors options (ea_type action))
                      (DEFAULT_GAIN_FACTORS (ea_type action)) in
  let baseCost := default (FiniteNumber (DEFAULT_ACTION_COSTS (ea_type action)))
                    (dp_actionCosts deps (ea_type action)) in
  let '(gain, rationale) := expected_gain action claim gainFactor options in
  let costUnits := Qmax (1 # 2)
    (finiteOr (Some baseCost) 4 + artifact_cost deps (default [] (ea_producesKinds action))) in
  EigEstimate action gain costUnits (gain / costUnits) rationale.

(** ** The ranking (planner.ts) *)

Definition DEFAULT_STOP_SCORE_THRESHOLD : Q := 5 # 1000.
Definition DEFAULT_MAX_ACTIONS : Z := 6.
Definition DEFAULT_MAX_ACTIONS_PER_CLAIM : Z := 1.

Definition CLAIM_ACTION_TYPES : list action_type := [RunExperiment; LiteratureSearch; Review].

Definition producesFor (t : action_type) : list string :=
  match t with
  | RunExperiment => ["run_attempt"; "metric_observation"]
  | LiteratureSearch => ["evidence_pack"]
  | Review => ["finding"]
  | _ => []
  end.

Record planner_options := PlannerOptions {
  po_stopScoreThreshold : option Q;
  po_maxActions : option Z;
  po_maxActionsPerClaim : option Z;
}.

Definition is_active_belief (belief : claim_belief) : bool :=
  bool_decide (cb_status belief = ClaimActive).

Definition claim_candidates (deps : eig_deps) (belief : claim_belief) : list eig_estimate :=
  map (λ t, estimateEig (EigAction t (Some (cb_claimId belief)) (Some (producesFor t)))
              (Some belief) deps no_options) CLAIM_ACTION_TYPES.

(** The mean uncertainty of the active claims, 0 without any. *)
Definition aggregate_uncertainty (active : list claim_belief) : Q :=
  match active with
  | [] => 0
  | _ => foldl (λ sum belief, sum + cb_uncertainty belief) 0 active
         / inject_Z (Z.of_nat (length active))
  end.

Definition eig_candidates (beliefs : list claim_belief) (deps : eig_deps) : list eig_estimate :=
  let active := List.filter is_active_belief beliefs in
  concat (map (claim_candidates deps) active) ++
  [estimateEig (EigAction PrincipleRevision None None) None deps
     (EstimateOptions (λ _, None) (Some (FiniteNumber (aggregate_uncertainty active))))].

(** [right.score - left.score]. *)
Definition compareScores (left right : eig_estimate) : comparison :=
  Qcompare (es_score right) (es_score left).

(** The candidates with a gain, best score first. *)
Definition rank_candidates (candidates : list eig_estimate) : list eig_estimate :=
  js_sort compareScores (List.filter (λ e, Qlt_bool 0 (es_gain e)) candidates).

(** The selection loop, from the number already selected; [break] after the
    push that reaches the cap. *)
Fixpoint select_batch (maxActions maxActionsPerClaim : Z) (perClaim : list (string * nat))
    (count : nat) (ranked : list eig_estimate) : list eig_estimate :=
  match ranked with
  | [] => []
  | estimate :: ranked =>
      let push perClaim :=
        estimate ::
        (if (maxActions <=? Z.of_nat (S count))%Z then []
         else select_batch maxActions maxActionsPerClaim perClaim (S count) ranked) in
      match ea_claimId (es_action estimate) with
      | None => push perClaim
      | Some id =>
          let n := default O (jm_get id perClaim) in
          if (maxActionsPerClaim <=? Z.of_nat n)%Z
          then select_batch maxActions maxActionsPerClaim perClaim count ranked
          else push (jm_set id (S n) perClaim)
      end
  end.

(** [ranked[0]?.score ?? 0]. *)
Definition top_score (ranked : list eig_estimate) : Q :=
  match ranked with [] => 0 | e :: _ => es_score e end.

Definition planByInformationGain (beliefs : list claim_belief) (options : planner_options)
    (deps : eig_deps) (now : string) : eig_plan :=
  let threshold := default DEFAULT_STOP_SCORE_THRESHOLD (po_stopScoreThreshold options) in
  let maxActions := default DEFAULT_MAX_ACTIONS (po_maxActions options) in
  let maxActionsPerClaim := default DEFAULT_MAX_ACTIONS_PER_CLAIM (po_maxActionsPerClaim options) in
  let selected := select_batch maxActions maxActionsPerClaim [] 0
                    (rank_candidates (eig_candidates beliefs deps)) in
  let shouldStop := Qlt_bool (top_score selected) threshold in
  EigPlan now selected shouldStop
    (if shouldStop then Some (BelowThreshold (top_score selected) threshold) else None).

(** ** Reconciliation with new beliefs (reconcile.ts) *)

(** [None] in [re_to] is ["removed"]. *)
Record revision_event := RevisionEvent {
  rv_claimId : string;
  rv_from : claim_status;
  rv_to : option claim_status;
  rv_downgrade : bool;
}.

Record reconciled_plan := ReconciledPlan {
  rp_plan : eig_plan;
  rp_revisions : list revision_event;
  rp_backtracking : bool;
  rp_nextActionType : option action_type;
  rp_nextActionClaimId : option string;
}.

Definition isDowngrade (from to : claim_status) : bool :=
  match from with
  | ClaimSuperseded | Falsified => false
  | _ =>
      match to with
      | ClaimSuperseded | Falsified => true
      | Challenged => bool_decide (from = ClaimActive)
      | ClaimActive => false
      end
  end.

(** The revision of a claim still in the graph. *)
Definition status_revision (previousByClaim : jmap claim_belief) (current : claim_belief) :
    option revision_event :=
  match jm_get (cb_claimId current) previousByClaim with
  | Some previous =>
      if decide (cb_status previous = cb_status current) then None
      else Some (RevisionEvent (cb_claimId current) (cb_status previous)
                   (Some (cb_status current))
                   (isDowngrade (cb_status previous) (cb_status current)))
  | None => None
  end.

Definition removal_revision (currentByClaim : jmap claim_belief) (previous : claim_belief) :
    option revision_event :=
  if jm_has (cb_claimId previous) currentByClaim then None
  else Some (RevisionEvent (cb_claimId previous) (cb_status previous) None
               (bool_decide (cb_status previous ∈ [ClaimActive; Challenged]))).

Definition targets_active (activeIds : list string) (estimate : eig_estimate) : bool :=
  match ea_claimId (es_action estimate) with
  | None => true
  | Some id => bool_decide (id ∈ activeIds)
  end.

Definition reconcileWithBeliefs (currentBeliefs : list claim_belief)
    (previousBeliefs : option (list claim_belief)) (plan : eig_plan)
    (stopScoreThreshold : option Q) : reconciled_plan :=
  let previous := default [] previousBeliefs in
  let revisions :=
    omap (status_revision (jm_index cb_claimId previous)) currentBeliefs ++
    omap (removal_revision (jm_index cb_claimId currentBeliefs)) previous in
  let activeIds := cb_claimId <$> List.filter is_active_belief currentBeliefs in
  let ranked := List.filter (targets_active activeIds) (ep_ranked plan) in
  let threshold := default DEFAULT_STOP_SCORE_THRESHOLD stopScoreThreshold in
  let below := Qlt_bool (top_score ranked) threshold in
  let reconciled := EigPlan (ep_computedAt plan) ranked
    ((length ranked =? 0)%nat || below || ep_shouldStop plan)
    (match ranked with
     | [] => Some NothingLeft
     | _ => if below then Some (RemainingBelowThreshold (top_score ranked) threshold)
            else ep_stopReason plan
     end) in
  ReconciledPlan reconciled revisions (existsb rv_downgrade revisions)
    (ea_type ∘ es_action <$> head ranked)
    (e ← head ranked; ea_claimId (es_action e)).

(** ** Anomalies (anomalyDetector.ts) *)

Record anomaly_result := AnomalyResult {
  an_score : Q;
  an_detected : bool;
  an_challengedClaimCount : nat;
  an_supportsWeight : Q;
  an_challengesWeight : Q;
}.

Definition DEFAULT_CHALLENGE_DENSITY_THRESHOLD : Q := 5 # 10.
Definition DEFAULT_MIN_CHALLENGED_CLAIMS : Z := 2.

Definition is_contested (belief : claim_belief) : bool :=
  bool_decide (cb_status belief ∈ [Challenged; Falsified]).

Definition detectAnomaly (beliefs : list claim_belief) (densityThreshold : option Q)
    (minChallengedClaims : option Z) : anomaly_result :=
  let supports := foldl (λ sum b, sum + cb_supportsWeight b) 0 beliefs in
  let challenges := foldl (λ sum b, sum + cb_challengesWeight b) 0 beliefs in
  let count := length (List.filter is_contested beliefs) in
  let total := supports + challenges in
  let score := if Qlt_bool 0 total then challenges / total else 0 in
  AnomalyResult score
    ((default DEFAULT_MIN_CHALLENGED_CLAIMS minChallengedClaims <=? Z.of_nat count)%Z
     && Qle_bool (default DEFAULT_CHALLENGE_DENSITY_THRESHOLD densityThreshold) score)
    count supports challenges.

Definition principleRevisionBoost (anomaly : anomaly_result) : Q :=
  if an_detected anomaly then 1 + 3 * an_score anomaly else 1.

Definition boost_estimate (boost : Q) (e : eig_estimate) : eig_estimate :=
  if decide (ea_type (es_action e) = PrincipleRevision)
  then EigEstimate (es_action e) (es_gain e * boost) (es_costUnits e) (es_score e * boost)
         (BoostedRationale (es_rationale e) boost)
  else e.

Definition applyAnomalyBoost (plan : eig_plan) (anomaly : anomaly_result)
    (stopScoreThreshold : Q) : eig_plan :=
  if an_detected anomaly then
    let sorted := js_sort compareScores
      (map (boost_estimate (principleRevisionBoost anomaly)) (ep_ranked plan)) in
    let below := Qlt_bool (top_score sorted) stopScoreThreshold in
    let shouldStop := ep_shouldStop plan && below in
    EigPlan (ep_computedAt plan) sorted shouldStop
      (if shouldStop then ep_stopReason plan
       else if negb below && ep_shouldStop plan then Some (BoostResumes (top_score sorted))
       else ep_stopReason plan)
  else plan.
