(* ===== verification/EigProperties.v ===== *)
(** * Correctness of the information-gain planner

    The ranking and the greedy batch of [planByInformationGain], the
    reconciliation of a plan with new beliefs, and the anomaly boost. *)

From Stdlib Require Import QArith Qabs Qminmax Lqa.
From S2P Require Import Prelude Host JsValue Beliefs DirectorBatches Eig.

Local Open Scope Q_scope.

Implicit Types (e s : eig_estimate) (ranked : list eig_estimate).

#[export] Instance compareScores_comparator : Comparator compareScores.
Proof.
  unfold compareScores. split.
  - intros x. apply Qeq_alt. reflexivity.
  - intros x y. symmetry. apply Qcompare_antisym.
  - intros x y z. rewrite <- !Qle_alt. intros. by eapply Qle_trans.
Qed.

(** Best score first. *)
Definition by_score : list eig_estimate → Prop :=
  StronglySorted (λ e s, es_score s <= es_score e).

Lemma by_score_sort l : by_score (js_sort compareScores l).
Proof.
  pose proof (js_sort_sorted compareScores l) as Hs. unfold sorted_by, by_score in *.
  induction Hs as [|e l' _ IH Hall]; constructor; [done|].
  eapply Forall_impl; [exact Hall|]. intros s Hle. by apply Qle_alt.
Qed.

(** ** The greedy selection *)

Definition for_claim (id : string) (e : eig_estimate) : bool :=
  bool_decide (ea_claimId (es_action e) = Some id).

Definition claim_count (id : string) (l : list eig_estimate) : nat :=
  length (List.filter (for_claim id) l).

Lemma claim_count_cons id e l :
  claim_count id (e :: l) = ((if for_claim id e then 1 else 0) + claim_count id l)%nat.
Proof. unfold claim_count. cbn [List.filter]. by destruct (for_claim id e). Qed.

Section Select.
Context (maxActions maxPerClaim : Z).

Definition seen_for (perClaim : list (string * nat)) (id : string) : nat :=
  default O (jm_get id perClaim).

Lemma seen_for_set perClaim id id' n :
  seen_for (jm_set id n perClaim) id' = if decide (id' = id) then n else seen_for perClaim id'.
Proof. unfold seen_for. rewrite jm_get_set. by case_decide. Qed.

Lemma select_sublist ranked : ∀ perClaim count,
  select_batch maxActions maxPerClaim perClaim count ranked `sublist_of` ranked.
Proof.
  induction ranked as [|e ranked IH]; intros perClaim count; cbn [select_batch]; [done|].
  destruct (ea_claimId (es_action e)) as [id|].
  - destruct (maxPerClaim <=? _)%Z; [by constructor|]. constructor.
    destruct (_ <=? _)%Z; [apply sublist_nil_l|apply IH].
  - constructor. destruct (_ <=? _)%Z; [apply sublist_nil_l|apply IH].
Qed.

(** Never more than the cap, once one is selected. *)
Lemma select_length ranked : ∀ perClaim count,
  (Z.of_nat (count + length (select_batch maxActions maxPerClaim perClaim count ranked))
   <= Z.max (Z.of_nat (S count)) maxActions)%Z.
Proof.
  induction ranked as [|e ranked IH]; intros perClaim count; cbn [select_batch]; [simpl; lia|].
  assert (∀ perClaim', (Z.of_nat (count + length (e ::
      (if (maxActions <=? Z.of_nat (S count))%Z then []
       else select_batch maxActions maxPerClaim perClaim' (S count) ranked)))
      <= Z.max (Z.of_nat (S count)) maxActions)%Z) as Hpush.
  { intros perClaim'. destruct (_ <=? _)%Z eqn:E; cbn [length]; [lia|].
    apply Z.leb_gt in E. specialize (IH perClaim' (S count)). lia. }
  destruct (ea_claimId (es_action e)) as [id|]; [|apply Hpush].
  destruct (maxPerClaim <=? _)%Z; [apply IH|apply Hpush].
Qed.

(** Never more per claim than its cap. *)
Lemma select_claim_count id ranked : ∀ perClaim count,
  (Z.of_nat (seen_for perClaim id
     + claim_count id (select_batch maxActions maxPerClaim perClaim count ranked))
   <= Z.max (Z.of_nat (seen_for perClaim id)) maxPerClaim)%Z.
Proof.
  induction ranked as [|e ranked IH]; intros perClaim count; cbn [select_batch];
    [unfold claim_count; simpl; lia|].
  assert (∀ b perClaim', (Z.of_nat (seen_for perClaim' id + claim_count id
      (if b : bool then [] else select_batch maxActions maxPerClaim perClaim' (S count) ranked))
      <= Z.max (Z.of_nat (seen_for perClaim' id)) maxPerClaim)%Z) as Hrest.
  { intros [] perClaim'; [unfold claim_count; simpl; lia|apply IH]. }
  destruct (ea_claimId (es_action e)) as [id'|] eqn:Eid.
  - fold (seen_for perClaim id'). destruct (maxPerClaim <=? _)%Z eqn:E; [apply IH|].
    apply Z.leb_gt in E. rewrite claim_count_cons. unfold for_claim. rewrite Eid.
    specialize (Hrest (maxActions <=? Z.of_nat (S count))%Z (jm_set id' (S (seen_for perClaim id')) perClaim)).
    rewrite seen_for_set in Hrest. case_decide as Hd.
    + subst. rewrite bool_decide_eq_true_2 by done. lia.
    + rewrite bool_decide_eq_false_2 by congruence. exact Hrest.
  - rewrite claim_count_cons. unfold for_claim. rewrite Eid, bool_decide_eq_false_2 by done.
    apply Hrest.
Qed.

(** Why a ranked estimate was passed over: the batch was full of better ones,
    or its claim had its share of better ones. *)
Definition passed_over (perClaim : list (string * nat)) (count : nat) selected e : Prop :=
  ((maxActions <= Z.of_nat (count + length selected))%Z ∧
     ∀ s, s ∈ selected → es_score e <= es_score s) ∨
  ∃ id, ea_claimId (es_action e) = Some id ∧
    (maxPerClaim <= Z.of_nat (seen_for perClaim id + claim_count id selected))%Z ∧
    ∀ s, s ∈ selected → for_claim id s = true → es_score e <= es_score s.

Lemma passed_over_push perClaim perClaim' count selected x e :
  es_score e <= es_score x →
  (∀ id, seen_for perClaim' id = (seen_for perClaim id + if for_claim id x then 1 else 0)%nat) →
  passed_over perClaim' (S count) selected e → passed_over perClaim count (x :: selected) e.
Proof.
  intros Hx Hseen [[Hfull Hs]|(id & Hid & Hq & Hs)].
  - left. cbn [length]. split; [lia|]. by intros s [->|?]%elem_of_cons; [|apply Hs].
  - right. exists id. split; [done|]. rewrite claim_count_cons. rewrite Hseen in Hq.
    split; [lia|]. intros s [->|?]%elem_of_cons Hf; [done|by apply Hs].
Qed.

Lemma select_complete ranked : ∀ perClaim count,
  by_score ranked → ∀ e, e ∈ ranked →
  let selected := select_batch maxActions maxPerClaim perClaim count ranked in
  e ∈ selected ∨ passed_over perClaim count selected e.
Proof.
  induction ranked as [|x ranked IH]; intros perClaim count Hsort e He; [by apply elem_of_nil in He|].
  inversion Hsort as [|? ? Hsort' Hbest]; subst. rewrite Forall_forall in Hbest. cbn [select_batch].
  assert (∀ perClaim', (∀ id, seen_for perClaim' id
      = (seen_for perClaim id + if for_claim id x then 1 else 0)%nat) →
    let selected := x :: (if (maxActions <=? Z.of_nat (S count))%Z then []
      else select_batch maxActions maxPerClaim perClaim' (S count) ranked) in
    e ∈ selected ∨ passed_over perClaim count selected e) as Hpush.
  { intros perClaim' Hseen selected. apply elem_of_cons in He as [->|He]; [left; by left|].
    subst selected. destruct (_ <=? _)%Z eqn:E.
    - right. left. apply Z.leb_le in E. split; [simpl; lia|].
      intros s ->%list_elem_of_singleton. by apply Hbest.
    - destruct (IH perClaim' (S count) Hsort' e He) as [?|Hp]; [left; by right|].
      right. eapply passed_over_push; [by apply Hbest|exact Hseen|exact Hp]. }
  destruct (ea_claimId (es_action x)) as [id|] eqn:Eid.
  - fold (seen_for perClaim id). destruct (maxPerClaim <=? _)%Z eqn:E.
    + apply elem_of_cons in He as [->|He]; [|by apply IH].
      apply Z.leb_le in E. right. right. exists id. split; [done|]. split; [lia|].
      intros s Hs Hf. exfalso.
      pose proof (select_claim_count id ranked perClaim count) as Hc.
      assert (0 < claim_count id (select_batch maxActions maxPerClaim perClaim count ranked))%nat;
        [|lia].
      unfold claim_count. destruct (List.filter _ _) eqn:El; [|simpl; lia].
      exfalso. apply (not_elem_of_nil s). rewrite <- El. by apply elem_of_bfilter.
    + apply Hpush. intros id'. rewrite seen_for_set. unfold for_claim. rewrite Eid.
      case_decide; [subst; rewrite bool_decide_eq_true_2 by done; lia|].
      rewrite bool_decide_eq_false_2 by congruence. lia.
  - apply Hpush. intros id'. unfold for_claim. rewrite Eid, bool_decide_eq_false_2 by done. lia.
Qed.
End Select.

Lemma sublist_by_score l k : l `sublist_of` k → by_score k → by_score l.
Proof.
  unfold by_score. induction 1 as [|e l k Hlk IH|e l k Hlk IH]; intros Hk.
  - constructor.
  - inversion Hk as [|? ? Hk' Hall]; subst. constructor; [by apply IH|].
    rewrite Forall_forall in *. intros s Hs. apply Hall.
    eapply elem_of_submseteq; [exact Hs|by apply sublist_submseteq].
  - inversion Hk; subst. by apply IH.
Qed.

Lemma elem_of_rank e candidates :
  e ∈ rank_candidates candidates ↔ e ∈ candidates ∧ 0 < es_gain e.
Proof.
  unfold rank_candidates. rewrite js_sort_perm, elem_of_bfilter, Qlt_bool_iff. done.
Qed.

(** The plan stops exactly when nothing useful clears the threshold. *)
Lemma select_top maxActions maxPerClaim ranked e :
  (1 <= maxPerClaim)%Z → by_score ranked → e ∈ ranked →
  es_score e <= top_score (select_batch maxActions maxPerClaim [] 0 ranked) ∧
  select_batch maxActions maxPerClaim [] 0 ranked ≠ [].
Proof.
  intros Hmax Hsort He. destruct ranked as [|x ranked]; [by apply elem_of_nil in He|].
  inversion Hsort as [|? ? _ Hbest]; subst. rewrite Forall_forall in Hbest.
  assert (es_score e <= es_score x) as Hle.
  { apply elem_of_cons in He as [->|He]; [apply Qle_refl|by apply Hbest]. }
  cbn [select_batch]. destruct (ea_claimId (es_action x)) as [id|]; [|done].
  cbn [jm_get default]. destruct (maxPerClaim <=? _)%Z eqn:E; [apply Z.leb_le in E; simpl in E; lia|done].
Qed.

Lemma elem_of_select maxActions maxPerClaim ranked e :
  e ∈ select_batch maxActions maxPerClaim [] 0 ranked → e ∈ ranked.
Proof.
  intros He. eapply elem_of_submseteq; [exact He|]. apply sublist_submseteq, select_sublist.
Qed.

(** P: A plan is a greedy batch of the useful candidates: best score first,
    each with a positive gain, at most the allowed number per claim and in
    all; a useful candidate is left out only for a batch full of better ones
    or for better ones on its claim; and it advises to stop exactly when no
    useful candidate's score reaches the threshold. *)
Theorem plan_is_greedy beliefs options deps now maxActions maxPerClaim threshold :
  maxActions = default DEFAULT_MAX_ACTIONS (po_maxActions options) →
  maxPerClaim = default DEFAULT_MAX_ACTIONS_PER_CLAIM (po_maxActionsPerClaim options) →
  threshold = default DEFAULT_STOP_SCORE_THRESHOLD (po_stopScoreThreshold options) →
  (1 <= maxActions)%Z → (1 <= maxPerClaim)%Z → 0 < threshold →
  let plan := planByInformationGain beliefs options deps now in
  let useful e := e ∈ eig_candidates beliefs deps ∧ 0 < es_gain e in
  by_score (ep_ranked plan) ∧
  (∀ e, e ∈ ep_ranked plan → useful e) ∧
  (Z.of_nat (length (ep_ranked plan)) <= maxActions)%Z ∧
  (∀ id, (Z.of_nat (claim_count id (ep_ranked plan)) <= maxPerClaim)%Z) ∧
  (∀ e, useful e → e ∈ ep_ranked plan ∨
     passed_over maxActions maxPerClaim [] 0 (ep_ranked plan) e) ∧
  (ep_shouldStop plan = true ↔ ∀ e, useful e → es_score e < threshold).
Proof.
  intros Emax Eper Eth Hmax Hper Hth plan useful. subst plan. unfold planByInformationGain.
  rewrite <- Emax, <- Eper, <- Eth. cbn [ep_ranked ep_shouldStop].
  set (ranked := rank_candidates _). assert (by_score ranked) as Hsort by apply by_score_sort.
  assert (∀ e, useful e ↔ e ∈ ranked) as Huse by (intros; symmetry; apply elem_of_rank).
  split_and!.
  - eapply sublist_by_score; [apply select_sublist|done].
  - intros e He. apply Huse. by eapply elem_of_select.
  - pose proof (select_length maxActions maxPerClaim ranked [] 0). lia.
  - intros id. pose proof (select_claim_count maxActions maxPerClaim id ranked [] 0) as Hc.
    unfold seen_for in Hc. simpl in Hc. lia.
  - intros e He. apply select_complete; [done|by apply Huse].
  - rewrite Qlt_bool_iff. split.
    + intros Hstop e He%Huse. eapply Qle_lt_trans; [|exact Hstop]. by apply select_top.
    + intros Hall. destruct (select_batch maxActions maxPerClaim [] 0 ranked) as [|x l] eqn:E;
        [done|]. apply Hall, Huse. eapply elem_of_select. rewrite E. by left.
Qed.

(** ** Reconciliation *)

Lemma existsb_elem {A} (f : A → bool) l : existsb f l = true ↔ ∃ x, x ∈ l ∧ f x = true.
Proof. rewrite existsb_exists. by setoid_rewrite list_elem_of_In. Qed.

Lemma jm_index_unique {A} (key : A → string) l k x :
  NoDup (key <$> l) → jm_get k (jm_index key l) = Some x ↔ x ∈ l ∧ key x = k.
Proof.
  intros Hnd. split; [apply jm_index_Some|]. intros [Hx <-]. by apply jm_index_NoDup.
Qed.

(** A claim whose standing got worse since the previous beliefs: it moved down
    in status, or it was active or challenged and is gone. *)
Definition lost_ground (current previous : list claim_belief) : Prop :=
  ∃ p, p ∈ previous ∧
    ((∃ c, c ∈ current ∧ cb_claimId c = cb_claimId p ∧
        isDowngrade (cb_status p) (cb_status c) = true) ∨
     (cb_status p ∈ [ClaimActive; Challenged] ∧ cb_claimId p ∉ cb_claimId <$> current)).

Lemma isDowngrade_changes p c : isDowngrade p c = true → p ≠ c.
Proof. by destruct p, c. Qed.

Lemma backtracking_spec current previous :
  NoDup (cb_claimId <$> current) → NoDup (cb_claimId <$> previous) →
  existsb rv_downgrade
    (omap (status_revision (jm_index cb_claimId previous)) current ++
     omap (removal_revision (jm_index cb_claimId current)) previous) = true ↔
  lost_ground current previous.
Proof.
  intros Hc Hp. rewrite existsb_elem. setoid_rewrite elem_of_app.
  setoid_rewrite list_elem_of_omap. split.
  - intros (ev & [(c & Hin & Hev)|(p & Hin & Hev)] & Hd).
    + unfold status_revision in Hev.
      destruct (jm_get _ _) as [p|] eqn:Eg; [|done]. case_decide; [done|].
      injection Hev as <-. apply jm_index_unique in Eg as [Hpin Hid]; [|done].
      exists p. split; [done|]. left. by exists c.
    + unfold removal_revision in Hev. destruct (jm_has _ _) eqn:Eh; [done|].
      injection Hev as <-. simpl in Hd. apply bool_decide_eq_true in Hd.
      exists p. split; [done|]. right. split; [done|].
      rewrite <- jm_index_is_Some. unfold jm_has in Eh.
      destruct (jm_get _ _); [done|]. by intros [? [=]].
  - intros (p & Hin & [(c & Hcin & Hid & Hd)|[Hst Hn]]).
    + eexists. split; [left|].
      * exists c. split; [done|]. unfold status_revision.
        rewrite (proj2 (jm_index_unique cb_claimId previous _ p Hp)) by done.
        rewrite decide_False by by apply isDowngrade_changes. done.
      * done.
    + eexists. split; [right|].
      * exists p. split; [done|]. unfold removal_revision, jm_has.
        destruct (jm_get _ _) eqn:Eg; [|done]. exfalso. apply Hn.
        apply jm_index_Some in Eg as [Hin' <-]. by apply list_elem_of_fmap_2.
      * simpl. by apply bool_decide_eq_true.
Qed.

(** P: Reconciling a plan with new beliefs keeps exactly the actions whose
    claim is still active (and those without a claim), in their order; it
    reports backtracking exactly when a claim lost ground; the next action is
    the best one left; and the plan stops exactly when it already advised so
    or no action left reaches the threshold. *)
Theorem reconcile_exact current previous plan threshold :
  NoDup (cb_claimId <$> current) → NoDup (cb_claimId <$> previous) →
  by_score (ep_ranked plan) → 0 < threshold →
  let r := reconcileWithBeliefs current (Some previous) plan (Some threshold) in
  let ranked := ep_ranked (rp_plan r) in
  by_score ranked ∧
  (∀ e, e ∈ ranked ↔ e ∈ ep_ranked plan ∧
     ∀ id, ea_claimId (es_action e) = Some id →
       ∃ b, b ∈ current ∧ cb_claimId b = id ∧ cb_status b = ClaimActive) ∧
  (rp_backtracking r = true ↔ lost_ground current previous) ∧
  rp_nextActionType r = ea_type ∘ es_action <$> head ranked ∧
  (ep_shouldStop (rp_plan r) = true ↔
     ep_shouldStop plan = true ∨ ∀ e, e ∈ ranked → es_score e < threshold).
Proof.
  intros Hc Hp Hsort Hth r ranked. subst ranked r. unfold reconcileWithBeliefs.
  cbn [default rp_plan rp_backtracking rp_nextActionType ep_ranked ep_shouldStop].
  set (ids := cb_claimId <$> List.filter is_active_belief current).
  assert (by_score (List.filter (targets_active ids) (ep_ranked plan))) as Hsort'
    by (eapply sublist_by_score; [apply sublist_bool_filter|done]).
  split_and!; [done| |by apply backtracking_spec|done|].
  - intros e. rewrite elem_of_bfilter. apply and_iff_compat_l.
    unfold targets_active. destruct (ea_claimId (es_action e)) as [id|]; [|naive_solver].
    rewrite bool_decide_eq_true. unfold ids. rewrite list_elem_of_fmap.
    setoid_rewrite elem_of_bfilter. unfold is_active_belief.
    setoid_rewrite bool_decide_eq_true. naive_solver.
  - set (l := List.filter _ (ep_ranked plan)) in *.
    rewrite !orb_true_iff, Nat.eqb_eq, length_zero_iff_nil, Qlt_bool_iff. split.
    + intros [[Hnil|Htop]|?]; [right|right|by left].
      * rewrite Hnil. by intros e ?%elem_of_nil.
      * destruct l as [|x l]; [by intros e ?%elem_of_nil|].
        inversion Hsort' as [|? ? _ Hall]; subst. rewrite Forall_forall in Hall.
        intros e [->|He]%elem_of_cons; [done|].
        eapply Qle_lt_trans; [by apply Hall|done].
    + intros [?|Hall]; [by right|]. left. destruct l as [|x l]; [by left|].
      right. apply Hall. by left.
Qed.

(** ** The anomaly boost *)

Lemma boost_ge_one beliefs density minimum :
  (∀ b, b ∈ beliefs → 0 <= cb_supportsWeight b ∧ 0 <= cb_challengesWeight b) →
  1 <= principleRevisionBoost (detectAnomaly beliefs density minimum) <= 4.
Proof.
  intros Hnn. unfold principleRevisionBoost. destruct (an_detected _); [|split; lra].
  assert (∀ (f : claim_belief → Q) l z, (∀ b, b ∈ l → 0 <= f b) → 0 <= z →
    0 <= foldl (λ sum b, sum + f b) z l) as Hfold.
  { intros f l. induction l as [|b l IH]; intros z Hl Hz; simpl; [done|].
    apply IH; [intros; apply Hl; by right|].
    assert (0 <= f b) by (apply Hl; by left). lra. }
  cbn [detectAnomaly an_score].
  pose proof (Hfold cb_supportsWeight beliefs 0 (λ b Hb, proj1 (Hnn b Hb)) (Qle_refl 0)) as Hs.
  pose proof (Hfold cb_challengesWeight beliefs 0 (λ b Hb, proj2 (Hnn b Hb)) (Qle_refl 0)) as Hc.
  set (s := foldl _ 0 beliefs) in *. set (c := foldl (λ sum b, sum + cb_challengesWeight b) 0 beliefs) in *.
  destruct (Qlt_bool 0 (s + c)) eqn:E; [|split; lra]. apply Qlt_bool_iff in E.
  assert (0 <= c / (s + c)) by (apply Qle_shift_div_l; [done|lra]).
  assert (c / (s + c) <= 1) by (apply Qle_shift_div_r; [done|lra]). split; lra.
Qed.

(** The boost re-ranks the plan and can only lift its advice to stop. *)
Lemma boost_ranking plan anomaly threshold :
  by_score (ep_ranked plan) →
  by_score (ep_ranked (applyAnomalyBoost plan anomaly threshold)) ∧
  es_action <$> ep_ranked (applyAnomalyBoost plan anomaly threshold)
    ≡ₚ es_action <$> ep_ranked plan ∧
  (ep_shouldStop (applyAnomalyBoost plan anomaly threshold) = true →
     ep_shouldStop plan = true).
Proof.
  intros Hsort. unfold applyAnomalyBoost. destruct (an_detected anomaly); [|done].
  cbn [ep_ranked ep_shouldStop]. split_and!; [apply by_score_sort| |by intros [? _]%andb_true_iff].
  rewrite js_sort_perm. change (map ?f ?l) with (f <$> l). rewrite <- list_fmap_compose.
  assert ((es_action ∘ boost_estimate (principleRevisionBoost anomaly)) <$> ep_ranked plan
    = es_action <$> ep_ranked plan) as ->; [|done].
  apply list_fmap_ext. intros i e _. unfold boost_estimate. simpl. by case_decide.
Qed.

(** ** Runs *)

Definition sample_belief (id : string) (status : claim_status) (uncertainty : Q) : claim_belief :=
  ClaimBelief id status (1 # 2) uncertainty 0 0 0 "t".

Definition sample_beliefs : list claim_belief :=
  [sample_belief "a" ClaimActive (1 # 1); sample_belief "b" ClaimActive (1 # 2);
   sample_belief "c" Falsified (1 # 1)].

Definition no_deps : eig_deps := EigDeps (λ _, None) [].
Definition default_options : planner_options := PlannerOptions None None None.

(** Literature search pays best; the second claim's comes next. *)
Example sample_ranking :
  (λ e, (ea_type (es_action e), ea_claimId (es_action e))) <$>
    ep_ranked (planByInformationGain sample_beliefs default_options no_deps "t")
  = [(LiteratureSearch, Some "a"); (LiteratureSearch, Some "b"); (PrincipleRevision, None)].
Proof. vm_compute. reflexivity. Qed.

(** A cap of no actions still selects one: the cap is tested after the push. *)
Example zero_cap_selects_one :
  length (ep_ranked (planByInformationGain sample_beliefs
    (PlannerOptions None (Some 0%Z) None) no_deps "t")) = 1%nat.
Proof. vm_compute. reflexivity. Qed.

Lemma plan_is_greedy_witness :
  by_score (ep_ranked (planByInformationGain sample_beliefs default_options no_deps "t")) ∧
  ep_shouldStop (planByInformationGain sample_beliefs default_options no_deps "t") = false.
Proof.
  split; [|vm_compute; reflexivity].
  apply (plan_is_greedy sample_beliefs default_options no_deps "t" DEFAULT_MAX_ACTIONS
    DEFAULT_MAX_ACTIONS_PER_CLAIM DEFAULT_STOP_SCORE_THRESHOLD);
    [reflexivity..|done|done|reflexivity].
Defined.

(** The first claim is falsified: its action is dropped. *)
Definition later_beliefs : list claim_belief :=
  [sample_belief "a" Falsified (1 # 1); sample_belief "b" ClaimActive (1 # 2)].

Definition earlier_beliefs : list claim_belief :=
  [sample_belief "a" ClaimActive (1 # 1); sample_belief "b" ClaimActive (1 # 2)].

Lemma reconcile_exact_witness :
  rp_backtracking (reconcileWithBeliefs later_beliefs (Some earlier_beliefs)
    (planByInformationGain sample_beliefs default_options no_deps "t")
    (Some DEFAULT_STOP_SCORE_THRESHOLD)) = true ∧
  lost_ground later_beliefs earlier_beliefs.
Proof.
  split; [reflexivity|].
  apply (reconcile_exact later_beliefs earlier_beliefs
    (planByInformationGain sample_beliefs default_options no_deps "t")
    DEFAULT_STOP_SCORE_THRESHOLD).
  - compute_done.
  - compute_done.
  - eapply sublist_by_score; [apply select_sublist|apply by_score_sort].
  - reflexivity.
  - reflexivity.
Defined.
